(* ===== verification/_CoqProject ===== *)
-Q . S2P
Prelude.v
JsNum.v
JsText.v
FloatFacts.v
JsColl.v
Contract.v
Browser.v
WsClient.v
WsClientFacts.v
WsClientThms.v
LiveBook.v
LiveBookThms.v
MockData.v
MockServer.v
MockThms.v
MockSim.v
Format.v
UiStore.v
OrderTicket.v
OrderTicketThms.v
Session.v
Evm.v
Contracts.v
ChainSteps.v
SessionKeys.v
Abis.v
OracleAdapter.v
PositionThms.v
VaultThms.v
Scripts.v
ScriptsThms.v
Grafana.v
SdkTypes.v
SdkClient.v
SdkWs.v
SdkAuth.v
Replay.v
ReplayTape.v
ReplayThms.v
LoadTest.v
Matching.v
MatchingFacts.v
MatchingThms.v
Dispatch.v
TradePanels.v
TradePanelsThms.v
Pages.v
Shell.v
ShellThms.v
TicketView.v
LayoutView.v
ToastView.v
PanelViews.v
PageViews.v
ChartView.v
Jsx.v
DocsParts.v
DocsDiagrams.v
DocsSidebar.v
DocsPage.v
Landing.v
SiteThms.v
AppFrame.v
ServiceWorker.v
ServiceWorkerThms.v
EdgeDecimal.v
EdgeState.v
EdgeHandlers.v
EdgeLedger.v
EdgeRisk.v
EdgeMatch.v
EdgeInv.v
EdgeBook.v
EdgeDb.v
EdgeRuns.v
EdgeQueries.v
RateLimit.v
EdgeAuth.v
EdgeHub.v
EdgeHubThms.v
