(* ===== verification/Prelude.v ===== *)
(** * Perplex: a perpetual-futures exchange

    Perplex is a perpetual-futures exchange: a Rust edge server matches
    orders, Solidity contracts settle them, and the TypeScript code under
    [web/], [sdk/typescript/] and [scripts/] is what traders and operators
    run.  This development is about that TypeScript code, about the contracts
    its scripts drive, and about the edge server and the matching engine it
    trades against.

    ** How the program is put together

    The browser application keeps one WebSocket to the edge
    ([web/lib/ws/client.ts]).  Hooks ([web/lib/ws/channels.ts]) subscribe to
    channels on it and rebuild a live order book, a trade tape, oracle and
    funding values.  A REST wrapper ([web/lib/api/]) sends requests with the
    bearer token that the sign-in flow ([web/lib/wallet/siwe.ts]) stores.  The
    order ticket ([web/components/trade/OrderForm.tsx]) previews an order
    against the book, asks the wallet for an EIP-712 signature
    ([web/lib/eip712/order.ts]), shows an optimistic order in the store
    ([web/lib/store/ui-store.ts]) and posts the request.  Panels and pages
    display the results; the shell around them connects the wallet, navigates
    and boots.  A mock exchange ([web/mocks/]) can stand in for the edge; a
    service worker ([web/public/mockServiceWorker.js]) carries the page's
    requests to it.  The
    SDK repeats the REST and WebSocket clients for programs, and
    [scripts/replay-binance.ts] replays a price tape against the market maker.
    The devnet scripts ([scripts/seed.ts], [smoke-deposit.ts]) fund accounts
    and exercise the contracts of [contracts/src/]: a vault holds the
    collateral, a registry the positions, a settlement engine applies batches
    of fills signed by the operator, a liquidation engine closes unhealthy
    positions; an adapter reads prices from two oracles, and a registry lets
    session keys spend up to a cap.  In [crates/perplex-matching/] one worker
    per market owns an order book and publishes fills and level deltas.  The
    edge server ([crates/perplex-edge/]) signs users in, keeps orders,
    positions and vaults in stores of its own, matches and settles against
    them, writes every change to a database it reloads at start, and
    broadcasts topics to WebSocket connections through a hub.  The
    marketing pages present the exchange and document its interface.

    ** Files

    Foundations.
    - [Prelude]: the error monad, tactics, string and sum lemmas (this file).
    - [JsNum]: binary64 through [SpecFloat]; the interface [Arith] with its
      two instances, [B64] (the program) and [QArithI] (exact rationals);
      [ArithOrd], the order laws both satisfy.  [FloatFacts]: validity of
      floats, sign of a difference, parsed literals.
    - [JsText]: strings, [Number()], [BigInt()], [toFixed], [toString], 32-bit
      operators.  [JsColl]: insertion-ordered [Map] and [Set], [sort].
    - [Contract]: the wire types of [web/lib/types/contract.ts].
    - [Browser]: local storage, the change event and the functions that clear
      the token.

    Components: each model file is followed by the files of its theorems.
    - [WsClient], [WsClientFacts], [WsClientThms]: the class [PerplexWs] as a
      state machine.  A [World] has the client, every socket it ever made,
      the pending timers and the browser; [step] is one call of the
      application or one event of the environment.
    - [LiveBook], [LiveBookThms]: the hooks of [channels.ts]; [BookHook] holds
      the refs, the effects and the animation frames the browser owes.
    - [MockData], [MockServer], [MockThms], [MockSim]: [mocks/data/seed.ts],
      [mocks/handlers.ts] and [mocks/ws-mock.ts] in a state-and-error monad
      over a stream of random numbers and clock readings; [MockThms] has the
      Hoare triples and the invariant, [MockSim] the results.
    - [Format]: [lib/format/number.ts] and [NumberDisplay].
    - [UiStore]: the store's actions.
    - [OrderTicket], [OrderTicketThms]: the ticket, the typed message, the
      submission and the close of a position.  [TicketView]: the rendered form
      and its controls.
    - [Session]: [siwe.ts], [rest.ts], [queries.ts].
    - [Evm], [Contracts]: transactions that revert or commit, with checked
      256-bit arithmetic and the interfaces [Erc20] and [OzMath]; the
      contracts of [contracts/src/] over one [World] of storage.
      [ChainSteps]: the calls any account can make and the worlds they reach.
      [PositionThms], [VaultThms]: the registry's and the vault's theorems.
      [SessionKeys], [OracleAdapter]: these two contracts with their theorems;
      Pyth and Chainlink are classes with laws.
    - [Abis]: the interface descriptions of [web/lib/contracts/abis.ts] and the
      calls they stand for.
    - [Scripts], [ScriptsThms]: [scripts/lib/], [seed.ts] and the smoke tests
      as programs over that chain; [Grafana]: [smoke-grafana.ts].
    - [SdkTypes], [SdkClient], [SdkWs], [SdkAuth]: the SDK; [SdkAuth] is about
      the authentication promise.
    - [LoadTest]: [scripts/load/k6-rest-and-ws.js].
    - [Matching], [MatchingFacts], [MatchingThms]: the order book, the position
      tracker and the worker of [crates/perplex-matching/].  A side is the list
      of its levels from the best price on; a submission returns its result
      and the book it leaves behind, also when it is refused.
      [Dispatch]: the dispatcher, whose markets do not interfere.
    - [Replay], [ReplayTape], [ReplayThms]: [scripts/lib/sim/] and
      [scripts/replay-binance.ts].
    - [TradePanels], [TradePanelsThms]: the order-book view, positions and
      fills tables, chart, header and tape of the trading screen.
      [PanelViews]: these panels as rendered.  [LayoutView]: which of them are
      mounted and what that does to the WebSocket client.
    - [Pages], [PageViews]: markets, wallet, portfolio and history pages.
      [ToastView]: the toasts and their timers.
    - [ChartView]: the price chart as a machine over the calls it makes to the
      chart library, and the protocol of that library.
    - [Jsx]: rendered trees and their traversals.  [DocsParts], [DocsDiagrams],
      [DocsSidebar], [DocsPage]: the documentation page.  [Landing]: the landing
      page.  [AppFrame]: layouts, theme script, icons, book controls.
      [SiteThms]: links, table of contents, documented endpoints, sparklines.
    - [ServiceWorker], [ServiceWorkerThms]: the mock service worker.  A
      [Worker] has the active clients, the pages there are, and every handler
      that waits; [step] is an event of the browser or the end of an [await].
    - [EdgeDecimal]: [rust_decimal] as a class with laws, and a fixed-point
      instance.  [EdgeState]: the stores of [state.rs] and their operations,
      with the margin functions of [perplex-core].  [EdgeHandlers]: the
      request handlers that change state, and histories of calls.
      [EdgeQueries]: the read endpoints and the
      liquidation keeper's scan.
      [EdgeLedger], [EdgeRisk], [EdgeMatch], [EdgeInv], [EdgeBook]: positions,
      vaults and fees, matching, order ids, published books.  [EdgeDb]: the
      database, its writer and the restart.  [EdgeRuns]: concrete runs.
      [RateLimit]: the token bucket, the Lua script and the middleware.
    - [EdgeAuth]: the edge's sign-in, alone and under the web client's
      [signIn].  [EdgeHub], [EdgeHubThms]: the WebSocket hub and server, alone
      and under the web client's frames.
    - [Shell], [ShellThms]: wallet button, navigation, theme, celebration,
      boot, chains and addresses, shared controls.

    ** What the theorems show

    - The connection: the edge's view of an open socket is the client's
      subscription set, reconnect timers never pile up, an unauthorized close
      is final until the application acts, and a token change recovers from
      every reachable state.
    - The live book refines the server's: whatever the hook paints is taken
      from one revision of the server's book under late, duplicated, reordered
      and missing frames, from snapshots of the whole book or of its best
      levels; a gap asks for a snapshot; frames coalesce.  Composed
      with the mock exchange, the hook follows it step by step.
    - The mock exchange: its handlers throw on malformed order bodies and
      frames and on nothing else, and its state stays well formed for every
      history.
    - The ticket: the fill preview and the liquidation estimate are right in
      exact arithmetic; a submission cleans up its optimistic order, sends
      what was signed (on a known chain) and what the button says; the leverage
      stays in range.
    - The contracts, for every sequence of calls by any accounts: the vault
      holds what it owes as deposits, positions and their index are well
      formed, a fill keeps the account's value, the withdrawal check is the
      documented margin rule and each branch of a withdrawal is characterised,
      a liquidation pays out exactly the collateral, a batch settles once.
      A session is what its event log says and spends at most its cap; a price
      the adapter returns is fresh, exactly scaled and vouched for by the second
      oracle where there is one.
    - The matching engine: fills go by price and time, in closed form; the book
      stays well formed; fill-or-kill is all or nothing; the published deltas
      of accepted orders rebuild the book at every price, except under the
      self-trade mode CancelBoth.
    - The edge server, for every history of requests: positions of a market
      sum to zero while nothing is liquidated, fills go by price and time and
      charge both sides exactly, a post-only order only rests (while no order
      had a negative quantity), a published book shows what rests, the keeper's
      scan lists exactly what can be liquidated, and a restart from the
      database gives the state back.  The rate limiter lets no more through
      than its bucket holds and takes in, and answers as its script does.  A
      sign-in is authentic and is never accepted again.  A private topic only
      reaches its user; what the hub delivers on a connection is what the web
      client's frames ask for, while no mailbox overflows.
    - The service worker: a page hears of requests only after mocking was
      enabled for it, a response is the mock or the network's answer to one
      fetch, and every request settles once client and network answer.
    - The scripts: what [signBatch] signs is what the contract checks; the
      seed run and the deposit smoke test succeed on every correct devnet; the
      dashboard check accepts exactly the dashboards it describes.
    - The session: what a sign-in through the fetch wrapper leaves in the
      browser, success and every failure, the 401 that signs out included; one
      signature prompt per connection; the boot always ends in a page; toasts leave one by one.
    - The panels: the fills table aggregates per order, grouping the ladder
      conserves depth; the chart makes no call its library refuses while prices
      stay within the library's bound, which it does not check.
    - The pages: every link resolves, the side bar is the page's table of
      contents and highlights the topmost section, the documented endpoints
      are the ones the client calls.
    - The replay: its profit is cash plus position, the kill switch is final
      and every simulation returns, the quotes bracket a leaning mid.
    - Theorems named for an unwanted behaviour (an account that cannot be
      liquidated, a market order that is refused after it emptied the book, a
      sign-in refused for a checksummed address, a maker's rebate that is
      charged, a gain that no vault receives, a liquidation that unbalances
      the market, an order of negative size, a second page that is always
      empty, a channel delivered twice, a
      cancellation and a self-trade removal the feed never mentions, a price
      beyond the chart's bound, an authentication that never
      settles, and the ones stated as plain theorems beside them: a leaked
      socket, a header whose price stops on two tabs, a maker left without
      quantity by a rejected self trade, a partly filled fill-or-kill order, a
      session key taken by a stranger, an accepted early delta,
      a channel dropped under a listener, an expiry that never passes, a MAX
      size that is refused, a dust order, a candle whose range misses its
      open, a replay that passes without trading, the SDK's two reconnect
      faults, a repeated close) exhibit it on the model.

    ** Numbers, bounds and fuel

    Integers that the source keeps below 2^53 (sequence numbers, counters) are
    [Z] or [nat]; 32-bit operators wrap as the language says; Solidity
    integers are checked against their 256-bit range at every operation; the
    matching engine's decimals are counted in their smallest unit; every other
    number is binary64.  Accounting identities that rounding would blur
    are stated at the rational instance of the same definitions, and say so.
    Few loops are not structural: [match_lots] runs one pass more than there
    are lots, which is proved enough on every binary64 input; [buckets] runs
    once per level, which the grouping theorem shows is enough for any step
    of at least one level; [tick] fires at most one timer per toast, which the
    toast theorem shows is enough; [fetch_pages] takes its fuel as an argument,
    since the network decides how many pages there are, and returns [None] when
    it is not enough; [referenced] closes the two struct types of a batch;
    [shortest] searches the digits of [num_toString] up to 17, which always
    identify a binary64.

    ** What is not modelled

    Libraries are arguments or classes with laws: [viem] (hashing, keys,
    signing, [parseUnits]), OpenZeppelin's token and math, signature recovery,
    the wallet's answers, [siwe]'s message text, [Date.parse], locale
    formatting, the engine's [Math.log]/[exp]/[cos]/[sin], the network, the
    file system.  A fill hook other than the counterparty contract is a
    function that returns or reverts; one that calls the exchange back is left
    out.
    Events and reentrancy guards of the contracts leave no trace in the model.
    [JSON.stringify] and [JSON.parse] of well-formed messages are identities on
    the message types; a frame that does not parse is an explicit case.  Class
    names of the marketing pages and the chart's styling are left out.  The
    matching engine has streams that accept every entry and workers that run
    on.  Of the edge server, requests are taken one after another: two
    requests that interleave between their locks are not modelled, nor are a
    decimal overflow, which panics, a sum that needs more than 96 bits of
    digits, which [rust_decimal] rounds (sums and differences are exact in the
    model), a database that fails, and the heartbeat of a connection.  [rust_decimal], Keccak, key recovery, the token library
    and the order in which a hash map is walked are parameters.  Funding
    rates, which are floating point, the statistics shown beside a market's
    price, the oracle relayer, the indexer and the settlement publisher are
    left out.  Strings are
    sequences of bytes, which agrees with the code units of the source on the
    ASCII texts it handles. *)

From stdpp Require Export base decidable list list_numbers gmap strings.
From Stdlib Require Export ZArith Lia Bool.

#[global] Open Scope Z_scope.

(** ** Exceptions

    A JavaScript computation either returns a value or throws.  [result] is
    the error monad of the development; [JsError] keeps the two fields of an
    [Error] object that the code reads. *)

Record JsError := mkError { err_name : string; err_message : string }.

Inductive result (A : Type) : Type :=
| Ok (a : A)
| Throw (e : JsError).

Arguments Ok {A} a.
Arguments Throw {A} e.

Definition result_bind {A B} (m : result A) (f : A -> result B) : result B :=
  match m with
  | Ok a => f a
  | Throw e => Throw e
  end.

Definition result_map {A B} (f : A -> B) (m : result A) : result B :=
  match m with
  | Ok a => Ok (f a)
  | Throw e => Throw e
  end.

Definition throw_error {A} (msg : string) : result A := Throw (mkError "Error" msg).

Declare Scope js_scope.
Delimit Scope js_scope with js.

Notation "'let!' x ':=' m 'in' k" := (result_bind m (fun x => k))
  (at level 10, x pattern, m at level 100, k at level 200) : js_scope.

#[global] Open Scope js_scope.

(** ** Tactics *)

(** Splits every boolean test and match that blocks the goal. *)
Ltac case_match_all :=
  repeat match goal with
  | |- context [match ?x with _ => _ end] => destruct x eqn:?; simplify_eq/=
  end.

(** Turns boolean comparisons in the context and the goal into propositions. *)
Ltac bool_to_prop :=
  repeat match goal with
  | H : (_ && _)%bool = true |- _ => apply andb_true_iff in H; destruct H
  | H : (_ || _)%bool = false |- _ => apply orb_false_iff in H; destruct H
  | H : negb _ = true |- _ => apply negb_true_iff in H
  | H : negb _ = false |- _ => apply negb_false_iff in H
  | H : (_ =? _)%Z = true |- _ => apply Z.eqb_eq in H
  | H : (_ =? _)%Z = false |- _ => apply Z.eqb_neq in H
  | H : (_ <? _)%Z = true |- _ => apply Z.ltb_lt in H
  | H : (_ <? _)%Z = false |- _ => apply Z.ltb_ge in H
  | H : (_ <=? _)%Z = true |- _ => apply Z.leb_le in H
  | H : (_ <=? _)%Z = false |- _ => apply Z.leb_gt in H
  | H : String.eqb _ _ = true |- _ => apply String.eqb_eq in H
  | H : String.eqb _ _ = false |- _ => apply String.eqb_neq in H
  end.

Create HintDb perplex.
Create Rewrite HintDb perplex.

(** ** Generic lemmas *)

Lemma string_eqb_refl s : String.eqb s s = true.
Proof. apply String.eqb_refl. Qed.

Lemma string_eqb_ne s t : s <> t -> String.eqb s t = false.
Proof. apply String.eqb_neq. Qed.

Lemma string_eqb_decide (s t : string) : String.eqb s t = bool_decide (s = t).
Proof.
  case_bool_decide; subst; [apply string_eqb_refl | by apply string_eqb_ne].
Qed.

#[export] Hint Rewrite string_eqb_refl : perplex.
#[export] Hint Resolve string_eqb_refl string_eqb_ne : perplex.

Lemma str_app_assoc (a b c : string) : a +:+ (b +:+ c) = (a +:+ b) +:+ c.
Proof. induction a as [|x a IH]; [done|]. exact (f_equal (String x) IH). Qed.

Lemma str_app_nil_r (a : string) : a +:+ "" = a.
Proof. induction a as [|x a IH]; [done|]. exact (f_equal (String x) IH). Qed.

(** ** Sums of integers over a list *)

Definition zsum {A} (f : A -> Z) (l : list A) : Z := foldr (fun a acc => f a + acc) 0 l.

Lemma zsum_cons {A} (f : A -> Z) a l : zsum f (a :: l) = f a + zsum f l.
Proof. done. Qed.

Lemma zsum_app {A} (f : A -> Z) l1 l2 : zsum f (l1 ++ l2) = zsum f l1 + zsum f l2.
Proof. induction l1; simpl; lia. Qed.

#[export] Instance zsum_perm {A} (f : A -> Z) : Proper ((≡ₚ) ==> eq) (zsum f).
Proof. intros l1 l2 Hp. induction Hp; simpl; lia. Qed.

Lemma filter_all {A} (f : A -> bool) l : (forall x, x ∈ l -> f x = true) -> List.filter f l = l.
Proof.
  induction l as [|x l IH]; intros H; simpl; [done|]. rewrite H by (by left). f_equal. apply IH. intros y Hy. apply H. by right.
Qed.

(** A sum only counts the entries that contribute. *)
Lemma zsum_support `{EqDecision A} (f : A -> Z) (l big : list A) :
  NoDup l -> NoDup big -> l ⊆ big -> (forall a, a ∈ big -> a ∉ l -> f a = 0) -> zsum f big = zsum f l.
Proof.
  intros Hl Hb Hsub Hz.
  assert (Hf : zsum f big = zsum f (filter (.∈ l) big)).
  { clear Hb Hsub. induction big as [|a big IH]; [done|]. rewrite filter_cons. cbn [zsum foldr].
    fold (zsum f big). rewrite IH by (intros; apply Hz; [by right|done]).
    case_decide as Ha; [done|]. rewrite (Hz a) by (done || by left). done. }
  rewrite Hf. apply zsum_perm. apply NoDup_Permutation; [by apply NoDup_filter|done|].
  intros a. rewrite list_elem_of_filter. split; [by intros [? _]|]. intros Ha. split; [done|by apply Hsub].
Qed.
