(* ===== verification/JsNum.v ===== *)
(** * JavaScript numbers

    The [number] type of the source is IEEE-754 binary64.  The development
    computes with the executable specification of that format
    ([SpecFloat], precision 53, largest exponent 1024), so every arithmetic
    expression of a modelled function rounds where the program rounds.

    [Arith] is the interface through which the numeric components are
    written: the operations a TypeScript expression can use.  [B64] is the
    instance the program runs on; [QArithI] is exact rational arithmetic, the
    instance against which accounting identities are stated. *)

From S2P Require Import Prelude.
From Stdlib Require Import SpecFloat QArith Qabs Lqa.

#[global] Open Scope Z_scope.

Abbreviation number := spec_float.

Definition NaN : number := S754_nan.
Definition Infinity : number := S754_infinity false.
Definition num_zero : number := S754_zero false.

(** Nearest binary64 to the integer [z], and to the fraction [p/q]. *)
Definition num_of_Z (z : Z) : number := binary_normalize 53 1024 z 0 false.

Definition num_of_ratio (s : bool) (p q : positive) : number :=
  let '(mz, ez, lz) := SFdiv_core_binary 53 1024 (Zpos p) 0 (Zpos q) 0 in
  binary_round_aux 53 1024 s mz ez lz.

(** The literal [m * 10^e], correctly rounded, as the lexer of the language
    rounds a decimal literal. *)
Definition num_lit (m e : Z) : number :=
  match m with
  | Z0 => num_zero
  | Zpos p =>
      if e <? 0 then num_of_ratio false p (Z.to_pos (10 ^ (- e)))
      else num_of_Z (m * 10 ^ e)
  | Zneg p =>
      if e <? 0 then num_of_ratio true p (Z.to_pos (10 ^ (- e)))
      else num_of_Z (m * 10 ^ e)
  end.

Definition num_add : number -> number -> number := SFadd 53 1024.
Definition num_sub : number -> number -> number := SFsub 53 1024.
Definition num_mul : number -> number -> number := SFmul 53 1024.
Definition num_div : number -> number -> number := SFdiv 53 1024.
Definition num_sqrt : number -> number := SFsqrt 53 1024.

(** [Math.min] and [Math.max]: NaN is absorbing and -0 is below +0. *)
Definition num_min (x y : number) : number :=
  match x, y with
  | S754_nan, _ | _, S754_nan => S754_nan
  | S754_zero s, S754_zero t => S754_zero (s || t)
  | _, _ => if SFltb y x then y else x
  end.

Definition num_max (x y : number) : number :=
  match x, y with
  | S754_nan, _ | _, S754_nan => S754_nan
  | S754_zero s, S754_zero t => S754_zero (s && t)
  | _, _ => if SFltb x y then y else x
  end.

Definition num_isFinite (x : number) : bool :=
  match x with
  | S754_zero _ | S754_finite _ _ _ => true
  | _ => false
  end.

Definition num_isNaN (x : number) : bool :=
  match x with S754_nan => true | _ => false end.

(** Truthiness of a number: false for 0, -0 and NaN. *)
Definition num_truthy (x : number) : bool :=
  match x with S754_zero _ | S754_nan => false | _ => true end.

(** ** The arithmetic interface *)

Class Arith (A : Type) := {
  n_lit : Z -> Z -> A;
  n_add : A -> A -> A;
  n_sub : A -> A -> A;
  n_mul : A -> A -> A;
  n_div : A -> A -> A;
  n_neg : A -> A;
  n_abs : A -> A;
  n_min : A -> A -> A;
  n_max : A -> A -> A;
  n_ltb : A -> A -> bool;
  n_leb : A -> A -> bool;
  n_eqb : A -> A -> bool;
  n_finite : A -> bool
}.

Declare Scope num_scope.
Delimit Scope num_scope with num.
Infix "+" := n_add : num_scope.
Infix "-" := n_sub : num_scope.
Infix "*" := n_mul : num_scope.
Infix "/" := n_div : num_scope.
Notation "- x" := (n_neg x) : num_scope.
Infix "<?" := n_ltb : num_scope.
Infix "<=?" := n_leb : num_scope.
Notation "x >? y" := (n_ltb y x) (only parsing) : num_scope.
Notation "x >=? y" := (n_leb y x) (only parsing) : num_scope.
Infix "=?" := n_eqb : num_scope.

(** Integer literals, and decimal literals [m * 10^e]. *)
Definition nint {A} `{Arith A} (z : Z) : A := n_lit z 0.

#[export] Instance B64 : Arith number := {
  n_lit := num_lit;
  n_add := num_add;
  n_sub := num_sub;
  n_mul := num_mul;
  n_div := num_div;
  n_neg := SFopp;
  n_abs := SFabs;
  n_min := num_min;
  n_max := num_max;
  n_ltb := SFltb;
  n_leb := SFleb;
  n_eqb := SFeqb;
  n_finite := num_isFinite
}.

Definition Q_lit (m e : Z) : Q :=
  if e <? 0 then Qmake m (Z.to_pos (10 ^ (- e))) else inject_Z (m * 10 ^ e).

Definition Qltb (x y : Q) : bool := negb (Qle_bool y x).

#[export] Instance QArithI : Arith Q := {
  n_lit := Q_lit;
  n_add := Qplus;
  n_sub := Qminus;
  n_mul := Qmult;
  n_div := Qdiv;
  n_neg := Qopp;
  n_abs := Qabs;
  n_min x y := if Qltb y x then y else x;
  n_max x y := if Qltb x y then y else x;
  n_ltb := Qltb;
  n_leb := Qle_bool;
  n_eqb := Qeq_bool;
  n_finite _ := true
}.

(** ** The order on binary64

    [SFcompare] is the lexicographic order of a key (sign class, exponent,
    mantissa), which gives transitivity and totality off NaN. *)

Definition num_key (x : number) : Z * Z * Z :=
  match x with
  | S754_nan => (9, 0, 0)
  | S754_infinity true => (-2, 0, 0)
  | S754_finite true m e => (-1, - e, Zneg m)
  | S754_zero _ => (0, 0, 0)
  | S754_finite false m e => (1, e, Zpos m)
  | S754_infinity false => (2, 0, 0)
  end.

Definition key_lt (a b : Z * Z * Z) : Prop :=
  let '(a1, a2, a3) := a in
  let '(b1, b2, b3) := b in
  a1 < b1 \/ (a1 = b1 /\ (a2 < b2 \/ (a2 = b2 /\ a3 < b3))).

Lemma num_ltb_key x y :
  SFltb x y = true <->
  num_isNaN x = false /\ num_isNaN y = false /\ key_lt (num_key x) (num_key y).
Proof.
  destruct x as [[]|[]| |[] mx ex], y as [[]|[]| |[] my ey]; cbn;
    try (split; [done | intros (?&?&?); lia]);
    try (split; [intros _; repeat split; lia | done]);
    unfold SFltb, SFcompare;
    destruct (Z.compare_spec ex ey); subst; cbn;
    change (Pos.compare_cont Eq mx my) with (Pos.compare mx my);
    try (destruct (Pos.compare_spec mx my); subst; cbn);
    split; intros H'; try done; try (repeat split; lia);
    destruct H' as (_&_&?); lia.
Qed.

Lemma num_leb_key x y :
  SFleb x y = true <->
  num_isNaN x = false /\ num_isNaN y = false /\
  (key_lt (num_key x) (num_key y) \/ num_key x = num_key y).
Proof.
  destruct x as [[]|[]| |[] mx ex], y as [[]|[]| |[] my ey]; cbn;
    try (split; [done | intros (?&?&[?|?]); simplify_eq; lia]);
    try (split; [intros _; repeat split; first [left; lia | right; done] | done]);
    unfold SFleb, SFcompare;
    destruct (Z.compare_spec ex ey); subst; cbn;
    change (Pos.compare_cont Eq mx my) with (Pos.compare mx my);
    try (destruct (Pos.compare_spec mx my); subst; cbn);
    split; intros H'; try done;
    try (repeat split; first [left; lia | right; congruence]);
    destruct H' as (_&_&[?|?]); simplify_eq; lia.
Qed.

Lemma num_eqb_key x y :
  SFeqb x y = true <->
  num_isNaN x = false /\ num_isNaN y = false /\ num_key x = num_key y.
Proof.
  destruct x as [[]|[]| |[] mx ex], y as [[]|[]| |[] my ey]; cbn;
    try (split; [done | intros (?&?&?); simplify_eq; lia]);
    try (split; [intros _; repeat split; done | done]);
    unfold SFeqb, SFcompare;
    destruct (Z.compare_spec ex ey); subst; cbn;
    change (Pos.compare_cont Eq mx my) with (Pos.compare mx my);
    try (destruct (Pos.compare_spec mx my); subst; cbn);
    split; intros H'; try done;
    destruct H' as (_&_&?); simplify_eq; lia.
Qed.

Lemma key_eq_or_lt a b : key_lt a b \/ a = b \/ key_lt b a.
Proof.
  destruct a as [[a1 a2] a3], b as [[b1 b2] b3]; unfold key_lt.
  destruct (Z.lt_trichotomy a1 b1) as [?|[->|?]]; [lia| |lia].
  destruct (Z.lt_trichotomy a2 b2) as [?|[->|?]]; [lia| |lia].
  destruct (Z.lt_trichotomy a3 b3) as [?|[->|?]]; [lia| |lia]. auto.
Qed.

Lemma key_lt_trans a b c : key_lt a b -> key_lt b c -> key_lt a c.
Proof. destruct a as [[??]?], b as [[??]?], c as [[??]?]; unfold key_lt; lia. Qed.

Lemma key_lt_irrefl a : ~ key_lt a a.
Proof. destruct a as [[??]?]; unfold key_lt; lia. Qed.

(** ** Order laws

    What the two instances share: on values that are not NaN the comparisons
    form a total preorder, [n_ltb] is its strict part and [n_eqb] its
    equivalence. *)

Class ArithOrd (A : Type) `{Arith A} := {
  n_nan : A -> bool;
  leb_trans : forall x y z : A, n_leb x y = true -> n_leb y z = true -> n_leb x z = true;
  leb_refl : forall x : A, n_nan x = false -> n_leb x x = true;
  leb_total : forall x y : A, n_nan x = false -> n_nan y = false ->
    n_leb x y = true \/ n_leb y x = true;
  ltb_negb_leb : forall x y : A, n_nan x = false -> n_nan y = false ->
    n_ltb x y = negb (n_leb y x);
  ltb_leb : forall x y : A, n_ltb x y = true -> n_leb x y = true;
  leb_not_nan : forall x y : A, n_leb x y = true -> n_nan x = false /\ n_nan y = false;
  eqb_leb : forall x y : A, n_eqb x y = n_leb x y && n_leb y x;
  finite_not_nan : forall x : A, n_finite x = true -> n_nan x = false;
  min_spec : forall x y : A, n_nan x = false -> n_nan y = false ->
    n_nan (n_min x y) = false /\
    n_leb (n_min x y) x = true /\ n_leb (n_min x y) y = true;
  max_spec : forall x y : A, n_nan x = false -> n_nan y = false ->
    n_nan (n_max x y) = false /\
    n_leb x (n_max x y) = true /\ n_leb y (n_max x y) = true
}.

Lemma num_leb_trans x y z : SFleb x y = true -> SFleb y z = true -> SFleb x z = true.
Proof.
  rewrite !num_leb_key. intros (?&?&H1) (?&?&H2). repeat split; [done..|].
  destruct H1 as [H1| ->], H2 as [H2|H2]; [left|left|left|right];
    eauto using key_lt_trans; by rewrite <- ?H2.
Qed.

Lemma num_leb_total x y : num_isNaN x = false -> num_isNaN y = false ->
  SFleb x y = true \/ SFleb y x = true.
Proof.
  intros Hx Hy. rewrite !num_leb_key.
  destruct (key_eq_or_lt (num_key x) (num_key y)) as [?|[?|?]]; naive_solver.
Qed.

Lemma num_ltb_negb_leb x y : num_isNaN x = false -> num_isNaN y = false ->
  SFltb x y = negb (SFleb y x).
Proof.
  intros Hx Hy. apply eq_true_iff_eq.
  rewrite negb_true_iff, <- not_true_iff_false, num_leb_key, num_ltb_key.
  destruct (key_eq_or_lt (num_key x) (num_key y)) as [Hk|[Hk|Hk]];
    split; intros H; try tauto.
  - intros (_&_&[H'|H']); [eapply key_lt_irrefl, key_lt_trans; eauto|].
    rewrite H' in Hk. by eapply key_lt_irrefl.
  - destruct H as (_&_&H). rewrite Hk in H. by apply key_lt_irrefl in H.
  - exfalso. apply H. auto.
  - destruct H as (_&_&H). exfalso. eapply key_lt_irrefl, key_lt_trans; eauto.
Qed.

Lemma num_min_cases x y : num_isNaN x = false -> num_isNaN y = false ->
  num_key (num_min x y) = num_key (if SFltb y x then y else x) /\
  num_isNaN (num_min x y) = false.
Proof. destruct x as [[]|[]| |[] ??], y as [[]|[]| |[] ??]; cbn; intros; case_match_all; done. Qed.

Lemma num_max_cases x y : num_isNaN x = false -> num_isNaN y = false ->
  num_key (num_max x y) = num_key (if SFltb x y then y else x) /\
  num_isNaN (num_max x y) = false.
Proof. destruct x as [[]|[]| |[] ??], y as [[]|[]| |[] ??]; cbn; intros; case_match_all; done. Qed.

Lemma num_leb_key_l x x' y : num_isNaN x = num_isNaN x' -> num_key x = num_key x' ->
  SFleb x y = SFleb x' y.
Proof. intros Hn Hk. apply eq_true_iff_eq. by rewrite !num_leb_key, Hn, Hk. Qed.

Lemma num_leb_key_r x y y' : num_isNaN y = num_isNaN y' -> num_key y = num_key y' ->
  SFleb x y = SFleb x y'.
Proof. intros Hn Hk. apply eq_true_iff_eq. by rewrite !num_leb_key, Hn, Hk. Qed.

#[local] Obligation Tactic := idtac.

#[export] Program Instance B64_ord : ArithOrd number := { n_nan := num_isNaN }.
Next Obligation. intros. eapply num_leb_trans; eauto. Qed.
Next Obligation. intros x Hx. apply num_leb_key; auto. Qed.
Next Obligation. intros. by apply num_leb_total. Qed.
Next Obligation. intros. by apply num_ltb_negb_leb. Qed.
Next Obligation. intros x y (?&?&?)%num_ltb_key. apply num_leb_key; auto. Qed.
Next Obligation. intros x y (?&?&?)%num_leb_key; auto. Qed.
Next Obligation.
  intros x y. cbn. apply eq_true_iff_eq. rewrite andb_true_iff, num_eqb_key, !num_leb_key.
  split; [naive_solver|]. intros [(?&?&[H1|H1]) (_&_&[H2|H2])]; auto.
  exfalso. eapply key_lt_irrefl, key_lt_trans; eauto.
Qed.
Next Obligation. by intros [| | |] . Qed.
Next Obligation.
  intros x y Hx Hy. cbn. destruct (num_min_cases x y Hx Hy) as [Hk Hn].
  split; [done|]. destruct (SFltb y x) eqn:E.
  - rewrite (num_leb_key_l _ y x), (num_leb_key_l _ y y) by congruence.
    apply num_ltb_key in E as (?&?&?). split; apply num_leb_key; auto.
  - rewrite (num_leb_key_l _ x x), (num_leb_key_l _ x y) by congruence.
    rewrite num_ltb_negb_leb in E by done. apply negb_false_iff in E.
    split; [apply num_leb_key|]; auto.
Qed.
Next Obligation.
  intros x y Hx Hy. cbn. destruct (num_max_cases x y Hx Hy) as [Hk Hn].
  split; [done|]. destruct (SFltb x y) eqn:E.
  - rewrite (num_leb_key_r x _ y), (num_leb_key_r y _ y) by congruence.
    apply num_ltb_key in E as (?&?&?). split; apply num_leb_key; auto.
  - rewrite (num_leb_key_r x _ x), (num_leb_key_r y _ x) by congruence.
    rewrite num_ltb_negb_leb in E by done. apply negb_false_iff in E.
    split; [apply num_leb_key|]; auto.
Qed.

Lemma Qltb_lt x y : Qltb x y = true <-> (x < y)%Q.
Proof.
  unfold Qltb. rewrite negb_true_iff, <- not_true_iff_false, Qle_bool_iff.
  split; [apply Qnot_le_lt | apply Qlt_not_le].
Qed.

Lemma Qltb_ge x y : Qltb x y = false <-> (y <= x)%Q.
Proof. unfold Qltb. by rewrite negb_false_iff, Qle_bool_iff. Qed.

#[export] Program Instance Q_ord : ArithOrd Q := { n_nan _ := false }.
Next Obligation. intros x y z. cbn. rewrite !Qle_bool_iff. lra. Qed.
Next Obligation. intros x _. cbn. rewrite Qle_bool_iff. lra. Qed.
Next Obligation. intros x y _ _. cbn. rewrite !Qle_bool_iff. lra. Qed.
Next Obligation. done. Qed.
Next Obligation. intros x y. cbn. rewrite Qltb_lt, Qle_bool_iff. lra. Qed.
Next Obligation. done. Qed.
Next Obligation.
  intros x y. cbn. apply eq_true_iff_eq.
  rewrite andb_true_iff, !Qle_bool_iff, Qeq_bool_iff. lra.
Qed.
Next Obligation. done. Qed.
Next Obligation.
  intros x y _ _. cbn. rewrite !Qle_bool_iff. destruct (Qltb y x) eqn:E.
  - apply Qltb_lt in E. repeat split; lra.
  - apply Qltb_ge in E. repeat split; lra.
Qed.
Next Obligation.
  intros x y _ _. cbn. rewrite !Qle_bool_iff. destruct (Qltb x y) eqn:E.
  - apply Qltb_lt in E. repeat split; lra.
  - apply Qltb_ge in E. repeat split; lra.
Qed.
