(* ===== verification/JsText.v ===== *)
(** * Strings, and the text of numbers

    JavaScript strings are modelled by [string]; the program's strings are
    ASCII apart from a few display glyphs, which are opaque literals here.
    The file holds the string methods the program calls, [Number(s)],
    [BigInt(s)], [Number.prototype.toFixed] and [Number.prototype.toString],
    each with the rounding the language prescribes. *)

From S2P Require Import Prelude JsNum.
From Stdlib Require Import SpecFloat Ascii String DecimalString DecimalZ DecimalFacts.

#[global] Open Scope string_scope.
#[global] Open Scope list_scope.
#[global] Open Scope Z_scope.

(** ** Characters *)

Definition is_digit (c : ascii) : bool :=
  let n := Z.of_N (N_of_ascii c) in (48 <=? n) && (n <=? 57).

Definition is_upper (c : ascii) : bool :=
  let n := Z.of_N (N_of_ascii c) in (65 <=? n) && (n <=? 90).

Definition is_lower (c : ascii) : bool :=
  let n := Z.of_N (N_of_ascii c) in (97 <=? n) && (n <=? 122).

(** The class [\w] of regular expressions. *)
Definition is_word (c : ascii) : bool :=
  is_digit c || is_upper c || is_lower c || Ascii.eqb c "_"%char.

Definition is_space (c : ascii) : bool :=
  let n := Z.of_N (N_of_ascii c) in (n =? 32) || ((9 <=? n) && (n <=? 13)).

Definition digit_val (c : ascii) : Z := Z.of_N (N_of_ascii c) - 48.

Definition char_of_digit (d : Z) : ascii := ascii_of_N (Z.to_N (d + 48)).

(** ** String methods *)

Definition strlen (s : string) : Z := Z.of_nat (String.length s).

(** [s.indexOf(c)] for a one-character needle: -1 when absent. *)
Fixpoint indexOf_char (c : ascii) (s : string) : Z :=
  match s with
  | EmptyString => -1
  | String d s' =>
      if Ascii.eqb c d then 0
      else let i := indexOf_char c s' in if i <? 0 then -1 else i + 1
  end.

(** [s.slice(i)] and [s.slice(0, i)] for [i >= 0]. *)
Fixpoint str_drop (n : nat) (s : string) : string :=
  match n, s with
  | O, _ => s
  | S n', String _ s' => str_drop n' s'
  | S _, EmptyString => EmptyString
  end.

Fixpoint str_take (n : nat) (s : string) : string :=
  match n, s with
  | O, _ => EmptyString
  | S n', String c s' => String c (str_take n' s')
  | S _, EmptyString => EmptyString
  end.

(** [s.slice(-n)]. *)
Definition str_last (n : nat) (s : string) : string :=
  str_drop (String.length s - n) s.

Fixpoint str_repeat (s : string) (n : nat) : string :=
  match n with O => "" | S n' => s +:+ str_repeat s n' end.

Definition padStart (s : string) (n : nat) (fill : ascii) : string :=
  str_repeat (String fill "") (n - String.length s) +:+ s.

Definition padEnd (s : string) (n : nat) (fill : ascii) : string :=
  s +:+ str_repeat (String fill "") (n - String.length s).

Fixpoint startsWith (p s : string) : bool :=
  match p, s with
  | EmptyString, _ => true
  | String a p', String b s' => Ascii.eqb a b && startsWith p' s'
  | String _ _, EmptyString => false
  end.

(** [s.includes(p)]. *)
Fixpoint str_includes (p s : string) : bool :=
  startsWith p s ||
  match s with EmptyString => false | String _ s' => str_includes p s' end.

Definition to_upper_char (c : ascii) : ascii :=
  if is_lower c then ascii_of_N (N_of_ascii c - 32) else c.

Definition to_lower_char (c : ascii) : ascii :=
  if is_upper c then ascii_of_N (N_of_ascii c + 32) else c.

Fixpoint str_map (f : ascii -> ascii) (s : string) : string :=
  match s with EmptyString => "" | String c s' => String (f c) (str_map f s') end.

Definition toUpperCase : string -> string := str_map to_upper_char.
Definition toLowerCase : string -> string := str_map to_lower_char.

(** [s.split(c)] for a one-character separator: never empty. *)
Fixpoint split_char (c : ascii) (s : string) : list string :=
  match s with
  | EmptyString => [""]
  | String d s' =>
      if Ascii.eqb c d then "" :: split_char c s'
      else match split_char c s' with
           | w :: ws => String d w :: ws
           | [] => [String d ""]
           end
  end.

(** [s.replace(c, r)] for a one-character needle: the first match only. *)
Fixpoint replace_first (c : ascii) (r : string) (s : string) : string :=
  match s with
  | EmptyString => ""
  | String d s' => if Ascii.eqb c d then r +:+ s' else String d (replace_first c r s')
  end.

Fixpoint trim_left (s : string) : string :=
  match s with
  | String c s' => if is_space c then trim_left s' else s
  | EmptyString => ""
  end.

Fixpoint str_rev_app (s acc : string) : string :=
  match s with EmptyString => acc | String c s' => str_rev_app s' (String c acc) end.

Definition str_rev (s : string) : string := str_rev_app s "".

Definition str_trim (s : string) : string := str_rev (trim_left (str_rev (trim_left s))).

Definition str_truthy (s : string) : bool := negb (String.eqb s "").

(** [parts.join(sep)]. *)
Fixpoint str_join (sep : string) (parts : list string) : string :=
  match parts with
  | [] => ""
  | [p] => p
  | p :: ps => p +:+ sep +:+ str_join sep ps
  end.

(** ** Integers in decimal *)

(** [b.toString()] for a bigint. *)
Definition bigint_toString (z : Z) : string := NilZero.string_of_int (Z.to_int z).

(** Leading decimal digits of [s]: their value appended to [acc], how many
    there are, and the rest. *)
Fixpoint scan_digits (s : string) (acc : Z) (n : Z) : Z * Z * string :=
  match s with
  | String c s' =>
      if is_digit c then scan_digits s' (acc * 10 + digit_val c) (n + 1) else (acc, n, s)
  | EmptyString => (acc, n, s)
  end.

Definition hex_val (c : ascii) : option Z :=
  if is_digit c then Some (digit_val c)
  else let n := Z.of_N (N_of_ascii c) in
       if (97 <=? n) && (n <=? 102) then Some (n - 87)
       else if (65 <=? n) && (n <=? 70) then Some (n - 55)
       else None.

(** A non-empty digit string in the given radix (2, 8 or 16). *)
Fixpoint radix_val (radix : Z) (s : string) (acc : Z) : option Z :=
  match s with
  | EmptyString => Some acc
  | String c s' =>
      match hex_val c with
      | Some d => if d <? radix then radix_val radix s' (acc * radix + d) else None
      | None => None
      end
  end.

Definition radix_prefix (s : string) : option (Z * string) :=
  match s with
  | String "0" (String c s') =>
      match s' with
      | EmptyString => None
      | _ =>
          if Ascii.eqb c "x" || Ascii.eqb c "X" then Some (16, s')
          else if Ascii.eqb c "o" || Ascii.eqb c "O" then Some (8, s')
          else if Ascii.eqb c "b" || Ascii.eqb c "B" then Some (2, s')
          else None
      end
  | _ => None
  end.

(** Optional sign. *)
Definition scan_sign (s : string) : bool * string :=
  match s with
  | String "-" s' => (true, s')
  | String "+" s' => (false, s')
  | _ => (false, s)
  end.

(** [BigInt(s)]: a [SyntaxError] when [s] is not an integer literal. *)
Definition BigInt_of_string (s : string) : result Z :=
  let t := str_trim s in
  let err := Throw (mkError "SyntaxError" ("Cannot convert " +:+ s +:+ " to a BigInt")) in
  match radix_prefix t with
  | Some (r, ds) => match radix_val r ds 0 with Some z => Ok z | None => err end
  | None =>
      if String.eqb t "" then Ok 0
      else
        let '(neg, ds) := scan_sign t in
        match scan_digits ds 0 0 with
        | (z, n, EmptyString) => if n =? 0 then err else Ok (if neg then - z else z)
        | _ => err
        end
  end.

(** ** [Number(s)] *)

(** Exponent part: [e] or [E], optional sign, at least one digit, to the end. *)
Definition scan_exponent (s : string) : option Z :=
  match s with
  | EmptyString => Some 0
  | String c s' =>
      if Ascii.eqb c "e" || Ascii.eqb c "E" then
        let '(neg, ds) := scan_sign s' in
        match scan_digits ds 0 0 with
        | (z, n, EmptyString) => if n =? 0 then None else Some (if neg then - z else z)
        | _ => None
        end
      else None
  end.

(** An unsigned decimal literal: mantissa and power of ten. *)
Definition scan_decimal (s : string) : option (Z * Z) :=
  let '(ip, ni, r1) := scan_digits s 0 0 in
  let '(m, nf, r2) :=
    match r1 with
    | String "." r => scan_digits r ip 0
    | _ => (ip, 0, r1)
    end in
  if (ni + nf =? 0) then None
  else match scan_exponent r2 with
       | Some e => Some (m, e - nf)
       | None => None
       end.

Definition Number_of_string (s : string) : number :=
  let t := str_trim s in
  if String.eqb t "" then num_zero
  else match radix_prefix t with
       | Some (r, ds) =>
           match radix_val r ds 0 with Some z => num_of_Z z | None => NaN end
       | None =>
           let '(neg, u) := scan_sign t in
           let v :=
             if String.eqb u "Infinity" then Infinity
             else match scan_decimal u with
                  | Some (m, e) => num_lit m e
                  | None => NaN
                  end in
           if neg then SFopp v else v
       end.

(** [Number.parseInt(s, 10)]. *)
Definition parseInt10 (s : string) : number :=
  let '(neg, u) := scan_sign (trim_left s) in
  let '(z, n, _) := scan_digits u 0 0 in
  if n =? 0 then NaN
  else let v := num_of_Z z in if neg then SFopp v else v.

(** ** Numbers to text *)

(** Magnitude of a finite number as a fraction. *)
Definition mag_num (m : positive) (e : Z) : Z := if 0 <=? e then Zpos m * 2 ^ e else Zpos m.
Definition mag_den (e : Z) : Z := if 0 <=? e then 1 else 2 ^ (- e).

(** Number of decimal digits of [z > 0]. *)
Definition dec_len (z : Z) : Z := strlen (bigint_toString z).

(** The exponent [n] with [10^(n-1) <= p/q < 10^n]. *)
Definition dec_exponent (p q : Z) : Z :=
  let est := dec_len p - dec_len q in
  if q * 10 ^ Z.max 0 est <=? p * 10 ^ Z.max 0 (- est) then est + 1 else est.

Definition decimal_rounds_to (s k : Z) (x : number) : bool :=
  match num_lit s k, x with
  | S754_finite false m e, S754_finite false m' e' => Pos.eqb m m' && Z.eqb e e'
  | _, _ => false
  end.

(** Shortest [k]-digit decimal that rounds back to [x]; 17 digits always do. *)
Fixpoint shortest (fuel : nat) (k n p q : Z) (x : number) : Z * Z :=
  let sc := k - n in
  let pn := p * 10 ^ Z.max 0 sc in
  let qd := q * 10 ^ Z.max 0 (- sc) in
  let lo := pn / qd in
  let hi := lo + 1 in
  let lo_ok := (10 ^ (k - 1) <=? lo) && decimal_rounds_to lo (n - k) x in
  let hi_ok := (hi <? 10 ^ k) && decimal_rounds_to hi (n - k) x in
  let closer_lo := 2 * (pn - lo * qd) <=? qd in
  match fuel with
  | O => (lo, k)
  | S fuel' =>
      if lo_ok && (negb hi_ok || closer_lo) then (lo, k)
      else if hi_ok then (hi, k)
      else shortest fuel' (k + 1) n p q x
  end.

Definition zeros (n : Z) : string := str_repeat "0" (Z.to_nat n).

Definition pos_toString (m : positive) (e : Z) : string :=
  let p := mag_num m e in
  let q := mag_den e in
  let n := dec_exponent p q in
  let '(s, k) := shortest 17 1 n p q (S754_finite false m e) in
  let ds := bigint_toString s in
  if (k <=? n) && (n <=? 21) then ds +:+ zeros (n - k)
  else if (0 <? n) && (n <=? 21) then
    str_take (Z.to_nat n) ds +:+ "." +:+ str_drop (Z.to_nat n) ds
  else if (-6 <? n) && (n <=? 0) then "0." +:+ zeros (- n) +:+ ds
  else
    let ex := n - 1 in
    let es := (if ex <? 0 then "-" else "+") +:+ bigint_toString (Z.abs ex) in
    if k =? 1 then ds +:+ "e" +:+ es
    else str_take 1 ds +:+ "." +:+ str_drop 1 ds +:+ "e" +:+ es.

Definition num_toString (x : number) : string :=
  match x with
  | S754_nan => "NaN"
  | S754_zero _ => "0"
  | S754_infinity s => if s then "-Infinity" else "Infinity"
  | S754_finite s m e => (if s then "-" else "") +:+ pos_toString m e
  end.

(** The integer nearest to [p/q * 10^d], the larger one on a tie. *)
Definition fixed_scaled (p q : Z) (d : nat) : Z :=
  (2 * p * 10 ^ Z.of_nat d + q) / (2 * q).

(** [n / 10^d] written with exactly [d] decimals. *)
Definition fixed_digits (n : Z) (d : nat) : string :=
  let ds := padStart (bigint_toString n) (S d) "0" in
  match d with
  | O => ds
  | _ => str_take (String.length ds - d) ds +:+ "." +:+ str_last d ds
  end.

(** [x.toFixed(d)], for the [d <= 100] the language accepts. *)
Definition toFixed (x : number) (d : nat) : string :=
  match x with
  | S754_nan => "NaN"
  | S754_infinity s => if s then "-Infinity" else "Infinity"
  | S754_zero _ => fixed_digits 0 d
  | S754_finite s m e =>
      let p := mag_num m e in
      let q := mag_den e in
      if 10 ^ 21 * q <=? p then num_toString x
      else (if s then "-" else "") +:+ fixed_digits (fixed_scaled p q d) d
  end.

(** ** Integers inside numbers *)

(** Truncation towards zero of a finite number, and [Math.floor]. *)
Definition num_trunc (x : number) : Z :=
  match x with
  | S754_finite s m e =>
      let t := mag_num m e / mag_den e in if s then - t else t
  | _ => 0
  end.

Definition num_floorZ (x : number) : Z :=
  match x with
  | S754_finite s m e =>
      if s then (- mag_num m e) / mag_den e else mag_num m e / mag_den e
  | _ => 0
  end.

Definition num_floor (x : number) : number :=
  match x with
  | S754_finite _ _ _ => num_of_Z (num_floorZ x)
  | _ => x
  end.

(** [ToInt32] and [ToUint32] on integers. *)
Definition toUint32 (z : Z) : Z := z mod 2 ^ 32.
Definition toInt32 (z : Z) : Z := (z + 2 ^ 31) mod 2 ^ 32 - 2 ^ 31.
Definition imul (a b : Z) : Z := toInt32 (a * b).

(** The remainder [x % y] of integers, with the sign of the dividend. *)
Definition js_rem (a b : Z) : Z := Z.rem a b.

(** ** [split], [join] and [trim] *)


Lemma str_rev_app_spec s acc : str_rev_app s acc = str_rev s +:+ acc.
Proof.
  unfold str_rev. revert acc. induction s as [|c s IH]; intros acc; [done|]. simpl.
  rewrite IH, (IH (String c "")), <- str_app_assoc. done.
Qed.

Lemma str_rev_cons c s : str_rev (String c s) = str_rev s +:+ String c "".
Proof. unfold str_rev at 1. simpl. apply str_rev_app_spec. Qed.

Lemma str_rev_dist a b : str_rev (a +:+ b) = str_rev b +:+ str_rev a.
Proof.
  induction a as [|c a IH]; [by rewrite str_app_nil_r|].
  change (String c a +:+ b) with (String c (a +:+ b)). rewrite !str_rev_cons, IH. by rewrite str_app_assoc.
Qed.

Lemma str_rev_involutive s : str_rev (str_rev s) = s.
Proof. induction s as [|c s IH]; [done|]. rewrite str_rev_cons, str_rev_dist, IH. done. Qed.

Lemma str_length_app a b : String.length (a +:+ b) = (String.length a + String.length b)%nat.
Proof. induction a as [|c a IH]; [done|]. exact (f_equal S IH). Qed.

Lemma trim_left_idem s : trim_left (trim_left s) = trim_left s.
Proof. induction s as [|c s IH]; [done|]. simpl. destruct (is_space c) eqn:E; [done|]. simpl. by rewrite E. Qed.

Lemma trim_left_suffix s : exists sp, s = sp +:+ trim_left s.
Proof.
  induction s as [|c s [sp IH]]; [by exists ""|]. simpl. destruct (is_space c).
  - exists (String c sp). change (String c sp +:+ trim_left s) with (String c (sp +:+ trim_left s)). by rewrite <- IH.
  - by exists "".
Qed.

Lemma str_trim_idem s : str_trim (str_trim s) = str_trim s.
Proof.
  unfold str_trim. set (t := trim_left s). set (u := str_rev (trim_left (str_rev t))).
  assert (Hu : trim_left u = u).
  { destruct (trim_left_suffix (str_rev t)) as [sp Hsp].
    assert (Ht : t = u +:+ str_rev sp).
    { rewrite <- (str_rev_involutive t), Hsp at 1. by rewrite str_rev_dist. }
    assert (Htt : trim_left t = t) by apply trim_left_idem.
    destruct u as [|c u]; [done|]. rewrite Ht in Htt. simpl in Htt |- *.
    destruct (is_space c) eqn:E; [|done].
    destruct (trim_left_suffix (u +:+ str_rev sp)) as [q Hq]. rewrite Htt in Hq. exfalso.
    apply (f_equal String.length) in Hq. rewrite !str_length_app in Hq. simpl in Hq.
    lia. }
  rewrite Hu. unfold u. by rewrite str_rev_involutive, trim_left_idem.
Qed.

Lemma str_trim_space s : str_trim (String " " s) = str_trim s.
Proof. done. Qed.

(** ** Characters a string is free of *)

Fixpoint lacks (c : ascii) (s : string) : bool :=
  match s with EmptyString => true | String d s' => negb (Ascii.eqb c d) && lacks c s' end.

Lemma lacks_app c a b : lacks c (a +:+ b) = lacks c a && lacks c b.
Proof.
  induction a as [|d a IH]; [done|]. change (String d a +:+ b) with (String d (a +:+ b)).
  simpl. rewrite IH. by destruct (Ascii.eqb c d).
Qed.

Lemma lacks_rev c s : lacks c (str_rev s) = lacks c s.
Proof.
  induction s as [|d s IH]; [done|]. rewrite str_rev_cons, lacks_app, IH. simpl. destruct (Ascii.eqb c d), (lacks c s); done.
Qed.

Lemma lacks_trim_left c s : lacks c s = true -> lacks c (trim_left s) = true.
Proof. destruct (trim_left_suffix s) as [sp Hsp]. rewrite Hsp at 1. rewrite lacks_app. intros H. by bool_to_prop. Qed.

Lemma lacks_trim c s : lacks c s = true -> lacks c (str_trim s) = true.
Proof. intros H. unfold str_trim. rewrite lacks_rev. by do 2 (apply lacks_trim_left; rewrite ?lacks_rev). Qed.

Lemma split_char_lacks c s : Forall (fun w => lacks c w = true) (split_char c s).
Proof.
  induction s as [|d s IH]; simpl; [by repeat constructor|].
  destruct (Ascii.eqb c d) eqn:E; [by constructor|].
  destruct (split_char c s) as [|w ws]; [constructor; [simpl; by rewrite E|constructor]|].
  inversion_clear IH. constructor; [simpl; by rewrite E|done].
Qed.

Lemma split_char_no c s : lacks c s = true -> split_char c s = [s].
Proof. induction s as [|d s IH]; [done|]. simpl. intros H. bool_to_prop. by rewrite H, IH. Qed.

Lemma split_char_app c s rest : lacks c s = true -> split_char c (s +:+ String c rest) = s :: split_char c rest.
Proof.
  induction s as [|d s IH]; simpl; intros H; [by rewrite Ascii.eqb_refl|]. bool_to_prop.
  change (String d s +:+ String c rest) with (String d (s +:+ String c rest)). simpl. by rewrite H, IH.
Qed.

(** Splitting at [c] what was joined with [c] and a space. *)
Lemma split_join c v vs :
  c <> " "%char -> Forall (fun w => lacks c w = true) (v :: vs) ->
  split_char c (str_join (String c " ") (v :: vs)) = v :: map (String " ") vs.
Proof.
  intros Hc. revert v. induction vs as [|v' vs IH]; intros v Hf; inversion_clear Hf as [|?? Hv Hvs].
  - by apply split_char_no.
  - change (str_join (String c " ") (v :: v' :: vs))
      with (v +:+ String c (String " " (str_join (String c " ") (v' :: vs)))).
    rewrite split_char_app by done. f_equal. simpl map.
    cbn [split_char]. destruct (Ascii.eqb_spec c " "%char); [done|]. by rewrite IH.
Qed.

(** [s.split(c).map(trim)] undoes [join(c + " ")] on trimmed parts. *)
Lemma split_trim_join c v vs :
  c <> " "%char -> Forall (fun w => lacks c w = true /\ str_trim w = w) (v :: vs) ->
  map str_trim (split_char c (str_join (String c " ") (v :: vs))) = v :: vs.
Proof.
  intros Hc Hf. rewrite split_join; [|done|eapply Forall_impl; [exact Hf|by intros ? []]].
  inversion_clear Hf as [|?? [_ Hv] Hvs]. simpl. rewrite Hv. f_equal. clear Hv v.
  induction Hvs as [|w ws [_ Hw] _ IH]; [done|]. simpl. rewrite str_trim_space, Hw. by f_equal.
Qed.
