(* ===== verification/FloatFacts.v ===== *)
(** * Facts about binary64 rounding

    What the components need of the format: every operation returns a
    canonical number ([valid]), the comparison of canonical numbers is the
    comparison of the values they denote, and a subtraction has the sign of
    the comparison, so that a comparator written [(a, b) => f(a) - f(b)] orders
    finite numbers. *)

From S2P Require Import Prelude JsNum JsText.
From Stdlib Require Import SpecFloat.
#[local] Open Scope Z_scope.

Definition valid (x : number) : bool := valid_binary 53 1024 x.

Abbreviation femin := (-1074).
Definition cexp (e : Z) : Z := Z.max (e - 53) femin.

Lemma fexp_cexp e : fexp 53 1024 e = cexp e.
Proof. reflexivity. Qed.

(** ** Digits and shifts *)

Lemma digits2_log2 p : Zpos (digits2_pos p) = Z.log2 (Zpos p) + 1.
Proof.
  induction p as [p IH|p IH|]; simpl digits2_pos; [| |reflexivity].
  - rewrite Pos2Z.inj_succ, IH. change (Zpos p~1) with (2 * Zpos p + 1).
    rewrite Z.log2_succ_double by lia. lia.
  - rewrite Pos2Z.inj_succ, IH. change (Zpos p~0) with (2 * Zpos p).
    rewrite Z.log2_double by lia. lia.
Qed.

Lemma Zdigits2_log2 m : 0 < m -> Zdigits2 m = Z.log2 m + 1.
Proof. destruct m; try lia. intros _. apply digits2_log2. Qed.

Lemma iter_pos_Pos {A} (f : A -> A) n : forall x, iter_pos f n x = Pos.iter f x n.
Proof.
  induction n as [n IH|n IH|]; intros x; cbn [iter_pos Pos.iter]; rewrite ?IH; [|done|done].
  by rewrite <- !Pos.iter_swap.
Qed.

Lemma shr_1_m mrs : 0 <= shr_m mrs -> shr_m (shr_1 mrs) = shr_m mrs / 2.
Proof.
  destruct mrs as [m r s]; cbn [shr_m]. intros Hm. rewrite <- Z.div2_div.
  by destruct m as [|[p|p|]|p].
Qed.

Lemma shr_iter_m n mrs :
  0 <= shr_m mrs -> shr_m (iter_pos shr_1 n mrs) = shr_m mrs / 2 ^ Zpos n.
Proof.
  intros Hm. rewrite iter_pos_Pos.
  enough (H : 0 <= shr_m (Pos.iter shr_1 mrs n) /\
              shr_m (Pos.iter shr_1 mrs n) = shr_m mrs / 2 ^ Zpos n) by apply H.
  induction n as [|n IH] using Pos.peano_ind.
  - simpl. rewrite shr_1_m by done. split; [apply Z.div_pos; lia|done].
  - rewrite Pos.iter_succ, Pos2Z.inj_succ, Z.pow_succ_r by lia.
    destruct IH as [IH1 IH2]. rewrite shr_1_m, IH2 by done.
    rewrite Z.div_div, (Z.mul_comm (2 ^ _)) by lia.
    split; [apply Z.div_pos; [done|]|done]. apply Z.mul_pos_pos; [lia|]. apply Z.pow_pos_nonneg; lia.
Qed.

Lemma shr_record_m m l : shr_m (shr_record_of_loc m l) = m.
Proof. by destruct l as [|[]]. Qed.

(** The shift that aligns a mantissa on its canonical exponent. *)
Lemma shr_fexp_eq m e l :
  0 < m -> e <= cexp (Z.log2 m + 1 + e) ->
  let '(mrs, e') := shr_fexp 53 1024 m e l in
  shr_m mrs = m / 2 ^ (e' - e) /\ e' = cexp (Z.log2 m + 1 + e).
Proof.
  intros Hm He. unfold shr_fexp. rewrite Zdigits2_log2, fexp_cexp by done.
  set (c := cexp (Z.log2 m + 1 + e)) in *. unfold shr.
  destruct (c - e) as [|n|n] eqn:En; [| |lia].
  - rewrite shr_record_m. replace (e - e) with 0 by lia. rewrite Z.div_1_r. split; [done|lia].
  - rewrite shr_iter_m by (rewrite shr_record_m; lia). rewrite shr_record_m.
    split; [f_equal; f_equal; lia|lia].
Qed.

Lemma log2_div_pow2 m n : 0 < m -> 0 <= n <= Z.log2 m -> Z.log2 (m / 2 ^ n) = Z.log2 m - n.
Proof.
  intros Hm Hn. rewrite <- Z.shiftr_div_pow2 by lia. rewrite Z.log2_shiftr by lia. lia.
Qed.

Lemma round_nearest_even_cases m l :
  0 <= m -> round_nearest_even m l = m \/ round_nearest_even m l = m + 1.
Proof. intros Hm. destruct l as [|[]]; simpl; auto. destruct (Z.even m); auto. Qed.

(** A mantissa of [k] bits, or of [k + 1] bits when the increment carries. *)
Lemma log2_succ_cases m : 0 < m -> Z.log2 (m + 1) = Z.log2 m \/ m + 1 = 2 ^ (Z.log2 m + 1).
Proof.
  intros Hm. destruct (Z.log2_spec m Hm) as [Hlo Hhi].
  destruct (Z.eq_dec (m + 1) (2 ^ (Z.log2 m + 1))) as [->|Hne]; [by right|].
  left. apply Z.log2_unique; [apply Z.log2_nonneg|].
  unfold Z.succ in *. lia.
Qed.

(** ** Rounding returns a canonical number *)

Lemma valid_finite s m e :
  valid (S754_finite s m e) = true <-> cexp (Z.log2 (Zpos m) + 1 + e) = e /\ e <= 971.
Proof.
  unfold valid, valid_binary, bounded, canonical_mantissa.
  rewrite fexp_cexp, digits2_log2, andb_true_iff, Z.eqb_eq, Z.leb_le. reflexivity.
Qed.

Lemma round_aux_final s m e :
  0 <= m -> (0 < m -> cexp (Z.log2 m + 1 + e) = e \/
                      (m = 2 ^ 53 /\ femin <= e)) ->
  valid (let '(mrs, e') := shr_fexp 53 1024 m e loc_Exact in
         match shr_m mrs with
         | Z0 => S754_zero s
         | Zpos p => if e' <=? 971 then S754_finite s p e' else S754_infinity s
         | Zneg _ => S754_nan
         end) = true.
Proof.
  intros Hm Hc. destruct (Z.eq_dec m 0) as [->|Hne].
  { unfold shr_fexp, shr. destruct (fexp 53 1024 (Zdigits2 0 + e) - e); simpl; [done| |done].
    by rewrite shr_iter_m, Z.div_0_l by (simpl; try apply Z.pow_nonzero; lia). }
  assert (Hpos : 0 < m) by lia. specialize (Hc Hpos).
  pose proof (shr_fexp_eq m e loc_Exact Hpos) as Hs.
  assert (Hle : e <= cexp (Z.log2 m + 1 + e)).
  { destruct Hc as [-> |[-> He]]; [lia|]. change (Z.log2 (2 ^ 53)) with 53. unfold cexp. lia. }
  specialize (Hs Hle). destruct (shr_fexp 53 1024 m e loc_Exact) as [mrs e'].
  destruct Hs as [Hm' He']. destruct (shr_m mrs) as [|p|p] eqn:Ep; [done| |].
  2:{ exfalso. assert (0 <= m / 2 ^ (e' - e)); [|lia].
      apply Z.div_pos; [lia|]. apply Z.pow_pos_nonneg; lia. }
  destruct (Z.leb_spec e' 971) as [Hb|Hb]; [|done].
  apply valid_finite. split; [|done]. destruct Hc as [Hc|[-> He]].
  - rewrite Hc in He'. subst e'. rewrite Z.sub_diag, Z.div_1_r in Hm'. by rewrite Hm'.
  - assert (e' = e + 1) as -> by (rewrite He'; change (Z.log2 (2 ^ 53)) with 53; unfold cexp; lia).
    replace (e + 1 - e) with 1 in Hm' by lia.
    rewrite Hm'. change (2 ^ 53 / 2 ^ 1) with (2 ^ 52). change (Z.log2 (2 ^ 52)) with 52.
    unfold cexp. lia.
Qed.

Lemma binary_round_aux_valid s m e l :
  0 < m -> e <= cexp (Z.log2 m + 1 + e) -> valid (binary_round_aux 53 1024 s m e l) = true.
Proof.
  intros Hm He. unfold binary_round_aux.
  pose proof (shr_fexp_eq m e l Hm He) as Hs.
  destruct (shr_fexp 53 1024 m e l) as [mrs e']. destruct Hs as [Hm' He'].
  set (m2 := round_nearest_even (shr_m mrs) (loc_of_shr_record mrs)).
  assert (H0 : 0 <= shr_m mrs).
  { rewrite Hm'. apply Z.div_pos; [lia|]. apply Z.pow_pos_nonneg; lia. }
  pose proof (round_nearest_even_cases (shr_m mrs) (loc_of_shr_record mrs) H0) as Hr. fold m2 in Hr.
  apply round_aux_final; [lia|]. intros Hm2.
  unfold cexp in He, He'. destruct (Z_le_gt_dec (Z.log2 m + 1 + e - 53) femin) as [Hsub|Hnorm].
  - (* subnormal range: the exponent is already the smallest one *)
    assert (e' = femin) as -> by lia.
    assert (shr_m mrs < 2 ^ 53) as Hb.
    { rewrite Hm'. apply Z.div_lt_upper_bound; [apply Z.pow_pos_nonneg; lia|].
      rewrite <- Z.pow_add_r by lia. eapply Z.lt_le_trans; [apply (Z.log2_spec m Hm)|].
      apply Z.pow_le_mono_r; lia. }
    destruct (Z.eq_dec m2 (2 ^ 53)) as [|Hn]; [by right|left].
    assert (m2 <= 2 ^ 53 - 1) as Hb2 by lia. apply Z.log2_le_mono in Hb2.
    change (Z.log2 (2 ^ 53 - 1)) with 52 in Hb2. unfold cexp. lia.
  - (* normal range: 53 bits, or a carry to 2^53 *)
    assert (He2 : e' = Z.log2 m + 1 + e - 53) by lia.
    assert (Hl : Z.log2 (shr_m mrs) = 52).
    { rewrite Hm', log2_div_pow2 by (try lia; pose proof (Z.log2_nonneg m); lia). lia. }
    assert (Hp : 0 < shr_m mrs).
    { destruct (Z.eq_dec (shr_m mrs) 0) as [E|]; [|lia]. rewrite E in Hl. simpl in Hl. lia. }
    destruct Hr as [-> | ->].
    + left. rewrite Hl. unfold cexp. lia.
    + destruct (log2_succ_cases (shr_m mrs) Hp) as [E|E].
      * left. rewrite E, Hl. unfold cexp. lia.
      * right. rewrite E, Hl. split; [done|lia].
Qed.

(** The result of rounding a positive mantissa keeps its sign; it is not a
    zero when the exponent is in range, whatever it loses to rounding. *)
Lemma binary_round_aux_sign s m e l :
  0 < m -> femin <= e -> e <= cexp (Z.log2 m + 1 + e) ->
  match binary_round_aux 53 1024 s m e l with
  | S754_finite t _ _ | S754_infinity t => t = s
  | _ => False
  end.
Proof.
  intros Hm Hmin He. unfold binary_round_aux.
  pose proof (shr_fexp_eq m e l Hm He) as Hs.
  destruct (shr_fexp 53 1024 m e l) as [mrs e']. destruct Hs as [Hm' He'].
  assert (H0 : 0 < shr_m mrs).
  { rewrite Hm'. apply Z.div_str_pos. split; [apply Z.pow_pos_nonneg; lia|].
    etransitivity; [|apply (Z.log2_spec m Hm)]. apply Z.pow_le_mono_r; [lia|].
    unfold cexp in He'. pose proof (Z.log2_nonneg m). lia. }
  pose proof (round_nearest_even_cases (shr_m mrs) (loc_of_shr_record mrs) ltac:(lia)) as Hr.
  set (m2 := round_nearest_even (shr_m mrs) (loc_of_shr_record mrs)) in *.
  assert (Hm2 : 0 < m2) by lia.
  unfold shr_fexp. rewrite Zdigits2_log2, fexp_cexp by done. unfold shr.
  destruct (cexp (Z.log2 m2 + 1 + e') - e') as [|n|n] eqn:En.
  - rewrite shr_record_m. destruct m2; try lia. by destruct (_ <=? _).
  - rewrite shr_iter_m by (rewrite shr_record_m; lia). rewrite shr_record_m.
    assert (0 < m2 / 2 ^ Zpos n) as Hd.
    { apply Z.div_str_pos. split; [apply Z.pow_pos_nonneg; lia|].
      etransitivity; [|apply (Z.log2_spec m2 Hm2)]. apply Z.pow_le_mono_r; [lia|].
      unfold cexp in *. pose proof (Z.log2_nonneg m2). lia. }
    destruct (m2 / 2 ^ Zpos n); try lia. by destruct (_ <=? _).
  - rewrite shr_record_m. destruct m2; try lia. by destruct (_ <=? _).
Qed.

(** ** Alignment *)

Lemma iter_xO_eq p n : Zpos (Pos.iter xO p n) = Zpos p * 2 ^ Zpos n.
Proof.
  induction n as [|n IH] using Pos.peano_ind; [simpl; lia|].
  rewrite Pos.iter_succ, Pos2Z.inj_succ, Z.pow_succ_r by lia.
  change (Zpos (Pos.iter xO p n)~0) with (2 * Zpos (Pos.iter xO p n)). rewrite IH. lia.
Qed.

Lemma shl_align_eq m e e' :
  Zpos (fst (shl_align m e e')) = Zpos m * 2 ^ (e - snd (shl_align m e e')) /\
  snd (shl_align m e e') = Z.min e e'.
Proof.
  unfold shl_align. destruct (e' - e) as [|d|d] eqn:Ed; cbn [fst snd].
  - replace (e - e) with 0 by lia. lia.
  - replace (e - e) with 0 by lia. lia.
  - rewrite iter_xO_eq. replace (e - e') with (Zpos d) by lia. lia.
Qed.

Lemma aligned_le m e e' :
  let m' := Zpos (fst (shl_align m e e')) in let e2 := snd (shl_align m e e') in
  e' = cexp (Z.log2 (Zpos m) + 1 + e) -> 0 < m' /\ e2 <= cexp (Z.log2 m' + 1 + e2).
Proof.
  intros m' e2 ->. destruct (shl_align_eq m e (cexp (Z.log2 (Zpos m) + 1 + e))) as [H1 H2].
  fold m' e2 in H1, H2. split; [lia|].
  rewrite H1, Z.log2_mul_pow2 by lia. unfold cexp in *. lia.
Qed.

Lemma binary_round_valid s m e : valid (binary_round 53 1024 s m e) = true.
Proof.
  unfold binary_round. rewrite fexp_cexp, digits2_log2.
  pose proof (aligned_le m e _ eq_refl) as [H1 H2].
  destruct (shl_align m e _) as [mz ez]. by apply binary_round_aux_valid.
Qed.

Lemma binary_round_sign s m e :
  femin <= e ->
  match binary_round 53 1024 s m e with
  | S754_finite t _ _ | S754_infinity t => t = s
  | _ => False
  end.
Proof.
  intros He. unfold binary_round. rewrite fexp_cexp, digits2_log2.
  pose proof (aligned_le m e _ eq_refl) as [H1 H2].
  pose proof (shl_align_eq m e (cexp (Z.log2 (Zpos m) + 1 + e))) as [_ H3].
  destruct (shl_align m e _) as [mz ez]. simpl in *.
  apply binary_round_aux_sign; [done| |done]. unfold cexp in H3. lia.
Qed.

Lemma binary_normalize_valid m e b : valid (binary_normalize 53 1024 m e b) = true.
Proof. destruct m; simpl; [done| |]; apply binary_round_valid. Qed.

Lemma binary_normalize_sign m e b :
  femin <= e ->
  SFcompare (S754_zero false) (binary_normalize 53 1024 m e b) = Some (0 ?= m).
Proof.
  intros He. destruct m as [|p|p]; simpl; [done| |].
  - pose proof (binary_round_sign false p e He) as H.
    destruct (binary_round 53 1024 false p e); simpl in *; by subst.
  - pose proof (binary_round_sign true p e He) as H.
    destruct (binary_round 53 1024 true p e); simpl in *; by subst.
Qed.

(** ** Order *)

Lemma valid_lt_exp s1 m1 e1 s2 m2 e2 :
  valid (S754_finite s1 m1 e1) = true -> valid (S754_finite s2 m2 e2) = true ->
  e1 < e2 -> Zpos m1 < Zpos m2 * 2 ^ (e2 - e1).
Proof.
  rewrite !valid_finite. unfold cexp. intros [H1 _] [H2 _] Hlt.
  assert (Z.log2 (Zpos m2) = 52) as L2 by lia.
  pose proof (Z.log2_spec (Zpos m2) ltac:(lia)) as [Hlo _]. rewrite L2 in Hlo.
  pose proof (Z.log2_spec (Zpos m1) ltac:(lia)) as [_ Hhi].
  assert (Zpos m1 < 2 ^ 53) as Hm1.
  { eapply Z.lt_le_trans; [exact Hhi|]. apply Z.pow_le_mono_r; lia. }
  assert (2 ^ 1 <= 2 ^ (e2 - e1)) by (apply Z.pow_le_mono_r; lia).
  nia.
Qed.

Definition aligned (s : bool) (m : positive) (e k : Z) : Z := cond_Zopp s (Zpos m * 2 ^ (e - k)).

Lemma compare_pos s1 m1 e1 s2 m2 e2 :
  valid (S754_finite s1 m1 e1) = true -> valid (S754_finite s2 m2 e2) = true ->
  (match Z.compare e1 e2 with Lt => Lt | Gt => Gt | Eq => Pos.compare_cont Eq m1 m2 end) =
  (Zpos m1 * 2 ^ (e1 - Z.min e1 e2) ?= Zpos m2 * 2 ^ (e2 - Z.min e1 e2)).
Proof.
  intros V1 V2. destruct (Z.compare_spec e1 e2) as [-> |H|H].
  - rewrite Z.min_id, Z.sub_diag, !Z.mul_1_r. reflexivity.
  - rewrite Z.min_l, Z.sub_diag, Z.mul_1_r by lia. symmetry. apply Z.compare_lt_iff.
    by eapply valid_lt_exp.
  - rewrite Z.min_r, Z.sub_diag, Z.mul_1_r by lia. symmetry. apply Z.compare_gt_iff.
    by eapply valid_lt_exp.
Qed.

Lemma SFcompare_aligned s1 m1 e1 s2 m2 e2 :
  valid (S754_finite s1 m1 e1) = true -> valid (S754_finite s2 m2 e2) = true ->
  SFcompare (S754_finite s1 m1 e1) (S754_finite s2 m2 e2) =
  Some (aligned s1 m1 e1 (Z.min e1 e2) ?= aligned s2 m2 e2 (Z.min e1 e2)).
Proof.
  intros V1 V2. unfold aligned.
  assert (0 < Zpos m1 * 2 ^ (e1 - Z.min e1 e2)) by (apply Z.mul_pos_pos; [lia|apply Z.pow_pos_nonneg; lia]).
  assert (0 < Zpos m2 * 2 ^ (e2 - Z.min e1 e2)) by (apply Z.mul_pos_pos; [lia|apply Z.pow_pos_nonneg; lia]).
  pose proof (compare_pos _ _ _ _ _ _ V1 V2) as Hc.
  destruct s1, s2; cbn [cond_Zopp SFcompare]; f_equal.
  - rewrite Z.compare_opp, (Z.compare_antisym (_ * 2 ^ (e1 - _))), <- Hc. by destruct (e1 ?= e2).
  - symmetry. apply Z.compare_lt_iff. lia.
  - symmetry. apply Z.compare_gt_iff. lia.
  - exact Hc.
Qed.

(** A subtraction has the sign of the comparison: rounding never turns two
    different finite numbers into a zero difference. *)
Lemma num_sub_compare x y :
  valid x = true -> valid y = true -> num_isFinite x = true -> num_isFinite y = true ->
  SFcompare (S754_zero false) (num_sub x y) = SFcompare y x.
Proof.
  intros V1 V2 F1 F2.
  destruct x as [s1|s1| |s1 m1 e1]; try done; destruct y as [s2|s2| |s2 m2 e2]; try done.
  - by destruct s1, s2.
  - by destruct s2.
  - unfold num_sub, SFsub. rewrite binary_normalize_sign.
    2:{ apply valid_finite in V1 as [V1 _], V2 as [V2 _]. unfold cexp in *. lia. }
    rewrite (SFcompare_aligned s2 m2 e2 s1 m1 e1), (Z.min_comm e2 e1) by done. f_equal.
    destruct (shl_align_eq m1 e1 (Z.min e1 e2)) as [H1 H1'].
    destruct (shl_align_eq m2 e2 (Z.min e1 e2)) as [H2 H2'].
    rewrite H1, H2, H1', H2'. replace (Z.min e1 (Z.min e1 e2)) with (Z.min e1 e2) by lia.
    replace (Z.min e2 (Z.min e1 e2)) with (Z.min e1 e2) by lia.
    fold (aligned s1 m1 e1 (Z.min e1 e2)) (aligned s2 m2 e2 (Z.min e1 e2)).
    generalize (aligned s1 m1 e1 (Z.min e1 e2)) (aligned s2 m2 e2 (Z.min e1 e2)). intros a b.
    destruct (Z.compare_spec b a), (Z.compare_spec 0 (a - b)); lia || done.
Qed.

Lemma num_sub_pos x y :
  valid x = true -> valid y = true -> num_isFinite x = true -> num_isFinite y = true ->
  SFltb num_zero (num_sub x y) = SFltb y x.
Proof. intros. unfold SFltb, num_zero. by rewrite num_sub_compare. Qed.

(** ** Literals are canonical *)

Lemma num_of_Z_valid z : valid (num_of_Z z) = true.
Proof. apply binary_normalize_valid. Qed.

Lemma div_core_aligned p q :
  let '(m, e, l) := SFdiv_core_binary 53 1024 (Zpos p) 0 (Zpos q) 0 in
  0 <= m /\ (0 < m -> e <= cexp (Z.log2 m + 1 + e)) /\ (m = 0 -> e = femin).
Proof.
  unfold SFdiv_core_binary. rewrite !Zdigits2_log2, fexp_cexp, !Z.add_0_r by lia.
  set (d := Z.log2 (Zpos p) + 1 - (Z.log2 (Zpos q) + 1)).
  replace (0 - 0 - Z.min (cexp d) (0 - 0)) with (- Z.min (cexp d) 0) by lia.
  replace (0 - 0) with 0 by lia. set (k := - Z.min (cexp d) 0).
  assert (Hm : match k with Z0 => Zpos p | Zpos _ => Z.shiftl (Zpos p) k | Zneg _ => 0 end
               = Zpos p * 2 ^ k).
  { destruct k eqn:Ek; [lia| |lia]. by rewrite Z.shiftl_mul_pow2 by lia. }
  rewrite Hm. pose proof (Z.div_eucl_eq (Zpos p * 2 ^ k) (Zpos q) ltac:(lia)) as Hd.
  pose proof (Z.mod_pos_bound (Zpos p * 2 ^ k) (Zpos q) ltac:(lia)) as Hr.
  unfold Z.modulo in Hr. destruct (Z.div_eucl (Zpos p * 2 ^ k) (Zpos q)) as [m r].
  assert (0 < 2 ^ k) by (apply Z.pow_pos_nonneg; lia).
  assert (H0 : 0 <= m) by nia. split; [done|].
  pose proof (Z.log2_spec (Zpos p) ltac:(lia)) as [P1 P2].
  pose proof (Z.log2_spec (Zpos q) ltac:(lia)) as [Q1 Q2].
  pose proof (Z.log2_nonneg (Zpos p)). pose proof (Z.log2_nonneg (Zpos q)).
  assert (Hbig : 0 <= Z.log2 (Zpos p) + k - Z.log2 (Zpos q) - 1 -> 
                 2 ^ (Z.log2 (Zpos p) + k - Z.log2 (Zpos q) - 1) <= m).
  { intros Hn. apply Z.lt_succ_r.
    assert (2 ^ (Z.log2 (Zpos p) + k) <= Zpos p * 2 ^ k) by (rewrite Z.pow_add_r by lia; nia).
    assert (2 ^ (Z.log2 (Zpos p) + k - Z.log2 (Zpos q) - 1) * 2 ^ Z.succ (Z.log2 (Zpos q))
            = 2 ^ (Z.log2 (Zpos p) + k)) by (rewrite <- Z.pow_add_r by lia; f_equal; lia).
    nia. }
  split.
  - intros Hp. destruct (Z_le_gt_dec 0 (Z.log2 (Zpos p) + k - Z.log2 (Zpos q) - 1)) as [Hn|Hn].
    + specialize (Hbig Hn). apply Z.log2_le_mono in Hbig.
      rewrite Z.log2_pow2 in Hbig by lia. unfold cexp in *. lia.
    + unfold cexp in *. pose proof (Z.log2_nonneg m). lia.
  - intros ->. destruct (Z_le_gt_dec 0 (Z.log2 (Zpos p) + k - Z.log2 (Zpos q) - 1)) as [Hn|Hn].
    + specialize (Hbig Hn). assert (0 < 2 ^ (Z.log2 (Zpos p) + k - Z.log2 (Zpos q) - 1)); [|lia].
      apply Z.pow_pos_nonneg; lia.
    + unfold cexp in *. lia.
Qed.

Lemma num_of_ratio_valid s p q : valid (num_of_ratio s p q) = true.
Proof.
  unfold num_of_ratio. pose proof (div_core_aligned p q) as H.
  destruct (SFdiv_core_binary 53 1024 (Zpos p) 0 (Zpos q) 0) as [[m e] l].
  destruct H as (H0 & H1 & H2). destruct (Z.eq_dec m 0) as [E|E].
  - rewrite E, (H2 E). by destruct l as [|[]].
  - apply binary_round_aux_valid; [lia|apply H1; lia].
Qed.

Lemma num_lit_valid m e : valid (num_lit m e) = true.
Proof.
  destruct m; unfold num_lit; [done| |]; destruct (e <? 0);
    apply num_of_ratio_valid || apply num_of_Z_valid.
Qed.

Lemma SFopp_valid x : valid (SFopp x) = valid x.
Proof. by destruct x. Qed.

Lemma Number_of_string_valid s : valid (Number_of_string s) = true.
Proof.
  unfold Number_of_string. destruct (String.eqb _ _); [done|].
  destruct (radix_prefix _) as [[r ds]|].
  { destruct (radix_val r ds 0); [apply num_of_Z_valid|done]. }
  destruct (scan_sign _) as [neg u].
  assert (H : valid (if String.eqb u "Infinity" then Infinity
                     else match scan_decimal u with Some (m, e) => num_lit m e | None => NaN end) = true).
  { destruct (String.eqb _ _); [done|].
    destruct (scan_decimal u) as [[m e]|]; [apply num_lit_valid|done]. }
  destruct neg; rewrite ?SFopp_valid; exact H.
Qed.
