(* ===== verification/JsColl.v ===== *)
(** * JavaScript collections

    [Map] and [Set] iterate in insertion order: an overwrite keeps the entry's
    place, a delete followed by a set moves it to the end.  Both are lists
    here, with the uniqueness invariant proved preserved; [jm_equiv] is the
    coarser equality that forgets the order.  [js_sort] is the stable
    [Array.prototype.sort]. *)

From S2P Require Import Prelude.
From Stdlib Require Import Permutation Sorted.
From stdpp Require Import sorting.

Section Maps.
Context {K V : Type} `{EqDecision K}.
Implicit Types (m : list (K * V)) (k : K) (v : V).

Fixpoint jm_get k m : option V :=
  match m with
  | [] => None
  | (k', v) :: m' => if decide (k = k') then Some v else jm_get k m'
  end.

Definition jm_has k m : bool := bool_decide (is_Some (jm_get k m)).

Fixpoint jm_set k v m : list (K * V) :=
  match m with
  | [] => [(k, v)]
  | (k', v') :: m' => if decide (k = k') then (k', v) :: m' else (k', v') :: jm_set k v m'
  end.

Definition jm_delete k m : list (K * V) :=
  List.filter (fun e => negb (bool_decide (k = e.1))) m.

Definition jm_keys m : list K := m.*1.
Definition jm_values m : list V := m.*2.

(** [new Map(entries)]. *)
Definition jm_of_entries (es : list (K * V)) : list (K * V) :=
  foldl (fun m e => jm_set e.1 e.2 m) [] es.

Definition jm_wf m : Prop := NoDup (jm_keys m).

Definition jm_equiv m1 m2 : Prop := forall k, jm_get k m1 = jm_get k m2.

#[export] Instance jm_equiv_equivalence : Equivalence jm_equiv.
Proof. split; [done | intros ?? H k; by rewrite H | intros ??? H1 H2 k; by rewrite H1]. Qed.

Lemma jm_get_set k k' v m :
  jm_get k (jm_set k' v m) = if decide (k = k') then Some v else jm_get k m.
Proof.
  induction m as [|[k1 v1] m IH]; simpl; repeat case_decide; simplify_eq/=;
    repeat case_decide; congruence.
Qed.

Lemma jm_get_delete k k' m :
  jm_get k (jm_delete k' m) = if decide (k = k') then None else jm_get k m.
Proof.
  induction m as [|[k1 v1] m IH]; simpl; [by case_decide|].
  case_bool_decide; simpl; repeat case_decide; simplify_eq/=; congruence.
Qed.

Lemma jm_get_elem k v m : jm_wf m -> jm_get k m = Some v <-> (k, v) ∈ m.
Proof.
  unfold jm_wf. induction m as [|[k1 v1] m IH]; simpl; [set_solver|].
  intros [Hn Hnd]%NoDup_cons. rewrite elem_of_cons, <- IH by done.
  case_decide as Hk; [subst k1|naive_solver].
  split; [intros [= ->]; by left|]. intros [[= ->]|Hm]; [done|].
  apply IH in Hm; [|done]. exfalso. apply Hn. by apply (list_elem_of_fmap_2 fst) in Hm.
Qed.

Lemma jm_get_None k m : jm_get k m = None <-> k ∉ jm_keys m.
Proof.
  induction m as [|[k1 v1] m IH]; simpl; [set_solver|].
  rewrite not_elem_of_cons. case_decide; naive_solver.
Qed.

Lemma jm_keys_set_present k v m : k ∈ jm_keys m -> jm_keys (jm_set k v m) = jm_keys m.
Proof.
  induction m as [|[k1 v1] m IH]; simpl; [set_solver|].
  rewrite elem_of_cons. case_decide; simpl; [done|].
  intros [?|?]; [done|]. f_equal. by apply IH.
Qed.

Lemma jm_keys_set_absent k v m : k ∉ jm_keys m -> jm_set k v m = m ++ [(k, v)].
Proof.
  induction m as [|[k1 v1] m IH]; simpl; [done|].
  rewrite not_elem_of_cons. intros [??]. by rewrite decide_False, IH.
Qed.

Lemma jm_set_wf k v m : jm_wf m -> jm_wf (jm_set k v m).
Proof.
  unfold jm_wf. intros Hwf. destruct (decide (k ∈ jm_keys m)) as [Hk|Hk].
  - by rewrite jm_keys_set_present.
  - rewrite jm_keys_set_absent by done. unfold jm_keys in *. rewrite fmap_app.
    apply NoDup_app; split; [done|]. split; [set_solver|]. apply NoDup_singleton.
Qed.

Lemma jm_delete_wf k m : jm_wf m -> jm_wf (jm_delete k m).
Proof.
  unfold jm_wf, jm_keys, jm_delete. intros Hwf.
  eapply sublist_NoDup; [exact Hwf|]. apply fmap_sublist.
  clear Hwf. induction m as [|e m IH]; simpl; [done|].
  destruct (negb _); [by apply sublist_skip | by apply sublist_cons].
Qed.

Lemma jm_of_entries_wf es : jm_wf (jm_of_entries es).
Proof.
  unfold jm_of_entries. assert (Hnil : jm_wf ([] : list (K * V))) by constructor.
  revert Hnil. generalize ([] : list (K * V)).
  induction es as [|e es IH]; simpl; intros m Hm; [done|]. by apply IH, jm_set_wf.
Qed.

#[export] Instance jm_set_proper k v : Proper (jm_equiv ==> jm_equiv) (jm_set k v).
Proof. intros m1 m2 H k'. by rewrite !jm_get_set, H. Qed.

#[export] Instance jm_delete_proper k : Proper (jm_equiv ==> jm_equiv) (jm_delete k).
Proof. intros m1 m2 H k'. by rewrite !jm_get_delete, H. Qed.

(** Two duplicate-free maps with the same bindings are permutations. *)
Lemma jm_equiv_perm m1 m2 : jm_wf m1 -> jm_wf m2 -> jm_equiv m1 m2 -> m1 ≡ₚ m2.
Proof.
  intros H1 H2 Heq. apply NoDup_Permutation.
  - by apply NoDup_fmap_1 in H1.
  - by apply NoDup_fmap_1 in H2.
  - intros [k v]. by rewrite <- !jm_get_elem, Heq.
Qed.

Lemma jm_of_entries_get es k :
  NoDup (es.*1) -> jm_get k (jm_of_entries es) = jm_get k es.
Proof.
  unfold jm_of_entries. intros Hnd.
  assert (Hgen : forall m, (forall x, x ∈ es.*1 -> x ∉ jm_keys m) ->
    jm_get k (foldl (fun m e => jm_set e.1 e.2 m) m es) = jm_get k (m ++ es)).
  { clear -Hnd. induction es as [|[k1 v1] es IH]; simpl in *; intros m Hdis.
    - by rewrite app_nil_r.
    - apply NoDup_cons in Hnd as [Hn Hnd].
      rewrite jm_keys_set_absent by (apply Hdis; set_solver).
      rewrite IH; [by rewrite <- app_assoc|done|].
      intros x Hx. unfold jm_keys. rewrite fmap_app. simpl.
      specialize (Hdis x). unfold jm_keys in Hdis. set_solver. }
  rewrite Hgen; [done|set_solver].
Qed.

Lemma jm_of_entries_equiv m : jm_wf m -> jm_equiv (jm_of_entries m) m.
Proof. intros Hwf k. by apply jm_of_entries_get. Qed.
End Maps.

#[export] Hint Resolve jm_set_wf jm_delete_wf jm_of_entries_wf : perplex.

(** ** Sets *)

Section Sets.
Context {A : Type} `{EqDecision A}.
Implicit Types (s : list A) (x : A).

Definition js_has x s : bool := bool_decide (x ∈ s).
Definition js_add x s : list A := if js_has x s then s else s ++ [x].
Definition js_del x s : list A := List.filter (fun y => negb (bool_decide (x = y))) s.

Lemma elem_of_js_add x y s : x ∈ js_add y s <-> x = y \/ x ∈ s.
Proof. unfold js_add, js_has. case_bool_decide; set_solver. Qed.

Lemma elem_of_js_del x y s : x ∈ js_del y s <-> x <> y /\ x ∈ s.
Proof.
  unfold js_del. induction s as [|z s IH]; simpl; [set_solver|].
  case_bool_decide; simpl; set_solver.
Qed.

Lemma js_add_NoDup x s : NoDup s -> NoDup (js_add x s).
Proof.
  unfold js_add, js_has. case_bool_decide; [done|]. intros ?.
  apply NoDup_app; split; [done|]. split; [set_solver|]. apply NoDup_singleton.
Qed.

Lemma js_del_NoDup x s : NoDup s -> NoDup (js_del x s).
Proof.
  unfold js_del. induction 1 as [|y s Hy Hs IH]; simpl; [constructor|].
  case_bool_decide; simpl; [done|]. constructor; [|done].
  intros Hin. apply Hy. fold (js_del x s) in Hin. by apply elem_of_js_del in Hin as [??].
Qed.

Lemma js_add_present x s : x ∈ s -> js_add x s = s.
Proof. unfold js_add, js_has. intros. by rewrite bool_decide_true. Qed.
End Sets.

#[export] Hint Resolve js_add_NoDup js_del_NoDup : perplex.

(** ** Sorting

    [js_sort gt] models [xs.sort((a, b) => ...)], with [gt a b] true when the
    comparator is positive.  The language fixes the result, a stable sorted
    permutation, whenever the comparator is a total preorder. *)

Section Sorting.
Context {A : Type}.
Implicit Types (x y : A) (l : list A).

Fixpoint insert_by (gt : A -> A -> bool) x l : list A :=
  match l with
  | [] => [x]
  | y :: l' => if gt y x then x :: y :: l' else y :: insert_by gt x l'
  end.

Definition js_sort (gt : A -> A -> bool) l : list A := foldl (fun acc x => insert_by gt x acc) [] l.

Variable gt : A -> A -> bool.

Lemma insert_by_perm x l : insert_by gt x l ≡ₚ x :: l.
Proof.
  induction l as [|y l IH]; simpl; [done|]. case_match; [done|].
  rewrite IH. apply Permutation_swap.
Qed.

Lemma js_sort_acc_perm l acc : foldl (fun acc x => insert_by gt x acc) acc l ≡ₚ acc ++ l.
Proof.
  revert acc. induction l as [|x l IH]; simpl; intros acc; [by rewrite app_nil_r|].
  rewrite IH, insert_by_perm. simpl. apply Permutation_middle.
Qed.

Lemma js_sort_perm l : js_sort gt l ≡ₚ l.
Proof. apply js_sort_acc_perm. Qed.

(** The comparator is consistent on the elements satisfying [P]. *)
Definition gt_consistent (P : A -> Prop) : Prop :=
  (forall x y, P x -> P y -> gt x y = true -> gt y x = false) /\
  (forall x y z, P x -> P y -> P z -> gt x y = false -> gt y z = false -> gt x z = false).

Context {P : A -> Prop} (Hgt : gt_consistent P).

Lemma insert_by_sorted x l :
  P x -> Forall P l -> StronglySorted (fun a b => gt a b = false) l ->
  StronglySorted (fun a b => gt a b = false) (insert_by gt x l).
Proof.
  destruct Hgt as [Hasym Htrans]. intros Hx Hl Hs.
  induction l as [|y l IH]; simpl; [by repeat constructor|].
  apply Forall_cons in Hl as [Hy Hl]. apply StronglySorted_inv in Hs as [Hs Hfa].
  destruct (gt y x) eqn:E.
  - constructor; [by constructor|]. constructor; [by apply Hasym|].
    eapply Forall_impl; [apply Forall_and; split; [exact Hfa|exact Hl]|].
    intros z [Hyz Hz]. simpl in *. eapply Htrans; [exact Hx|exact Hy|exact Hz| |exact Hyz].
    by apply Hasym.
  - constructor; [by apply IH|].
    rewrite insert_by_perm. by constructor.
Qed.

Lemma js_sort_sorted l :
  Forall P l -> StronglySorted (fun a b => gt a b = false) (js_sort gt l).
Proof.
  unfold js_sort. intros Hl.
  assert (Hgen : forall acc, Forall P acc ->
    StronglySorted (fun a b => gt a b = false) acc ->
    StronglySorted (fun a b => gt a b = false) (foldl (fun acc x => insert_by gt x acc) acc l)).
  { induction Hl as [|x l Hx Hl IH]; simpl; intros acc Hacc Hs; [done|].
    apply IH; [by rewrite insert_by_perm; constructor|]. by apply insert_by_sorted. }
  apply Hgen; constructor.
Qed.

(** When no two elements tie, the order of the input does not matter. *)
Lemma js_sort_unique l1 l2 :
  Forall P l1 -> l1 ≡ₚ l2 ->
  (forall x y, x ∈ l1 -> y ∈ l1 -> gt x y = false -> gt y x = false -> x = y) ->
  js_sort gt l1 = js_sort gt l2.
Proof.
  intros HP Hperm Hties.
  assert (HP2 : Forall P l2) by (by rewrite <- Hperm).
  pose proof (js_sort_sorted l1 HP) as S1. pose proof (js_sort_sorted l2 HP2) as S2.
  assert (Hp : js_sort gt l1 ≡ₚ js_sort gt l2) by (by rewrite !js_sort_perm).
  assert (Ht : forall x y, x ∈ js_sort gt l1 -> y ∈ js_sort gt l1 ->
    gt x y = false -> gt y x = false -> x = y).
  { intros x y. rewrite !js_sort_perm. apply Hties. }
  revert S1 S2 Hp Ht. generalize (js_sort gt l1) (js_sort gt l2). clear.
  induction l as [|x l IH]; intros l' S1 S2 Hp Ht.
  { by apply Permutation_nil in Hp. }
  destruct l' as [|y l']; [by apply Permutation_sym, Permutation_nil in Hp|].
  apply StronglySorted_inv in S1 as [S1 F1]. apply StronglySorted_inv in S2 as [S2 F2].
  assert (x = y) as ->.
  { assert (Hx : x ∈ y :: l') by (rewrite <- Hp; set_solver).
    assert (Hy : y ∈ x :: l) by (rewrite Hp; set_solver).
    apply elem_of_cons in Hx as [->|Hx]; [done|].
    apply elem_of_cons in Hy as [->|Hy]; [done|].
    rewrite Forall_forall in F1, F2. apply Ht; [set_solver|set_solver| |].
    - by apply F1.
    - by apply F2. }
  f_equal. apply IH; [done|done|by apply Permutation_cons_inv in Hp|].
  intros. apply Ht; set_solver.
Qed.
End Sorting.
