(* ===== verification/Contract.v ===== *)
(** * Wire types of the web application ([web/lib/types/contract.ts])

    One record per interface and one inductive per string union.  Decimal
    quantities travel as strings, as in the source.  Counts, basis points and
    sequence numbers are integers on the wire and are [Z]; the one fractional
    wire number, a funding rate, is a [number].  [MarketId] is a union of
    strings that the mock server re-checks at run time, so it stays a string
    here, with the union as a predicate. *)

From S2P Require Import Prelude JsNum JsText.

Abbreviation MarketId := string.

Definition market_ids : list MarketId := ["btc-usd"; "eth-usd"; "sol-usd"].

Inductive Side := buy | sell.
Inductive PositionSide := long | short.
Inductive OrderType := market | limit.
Inductive TimeInForce := gtc | ioc | fok.
Inductive FillRole := maker | taker.
Inductive OrderStatus :=
  accepted | rejected | cancelled | filled | partially_filled | expired.
(** The edge's acknowledgement statuses. *)
Inductive OrderAckStatus := ack_accepted | ack_partial | ack_filled.

#[export] Instance Side_eq_dec : EqDecision Side.
Proof. solve_decision. Defined.
#[export] Instance PositionSide_eq_dec : EqDecision PositionSide.
Proof. solve_decision. Defined.
#[export] Instance OrderType_eq_dec : EqDecision OrderType.
Proof. solve_decision. Defined.
#[export] Instance TimeInForce_eq_dec : EqDecision TimeInForce.
Proof. solve_decision. Defined.
#[export] Instance OrderAckStatus_eq_dec : EqDecision OrderAckStatus.
Proof. solve_decision. Defined.

Record Market := mkMarket {
  mk_id : MarketId;
  mk_base : string;
  mk_quote : string;
  mk_active : bool;
  mk_tickSize : string;
  mk_lotSize : string;
  mk_maxLeverage : Z;
  mk_imRatioBps : Z;
  mk_mmRatioBps : Z;
  mk_liqBonusBps : Z;
  mk_takerFeeBps : Z;
  mk_makerRebateBps : Z;
  mk_fundingIntervalSec : Z;
  mk_indexPriceX18 : string;
  mk_volume24hUsdc : option string;
  mk_openInterestUsdc : option string;
  mk_fundingRateBps : option number;
  mk_nextFundingTsNs : option string
}.

Record MarketsResponse := mkMarketsResponse { mr_markets : list Market }.

(** [price, qty]. *)
Definition OrderbookLevel : Type := string * string.

Record OrderbookSnapshot := mkSnapshot {
  os_marketId : MarketId;
  os_sequence : Z;
  os_bids : list OrderbookLevel;
  os_asks : list OrderbookLevel;
  os_tsNs : string
}.

Record PublicTrade := mkPublicTrade {
  pt_id : string;
  pt_marketId : MarketId;
  pt_price : string;
  pt_qty : string;
  pt_side : Side;
  pt_tsNs : string
}.

Record TradesResponse := mkTradesResponse {
  tr_trades : list PublicTrade;
  tr_nextBefore : option string
}.

Record FundingPoint := mkFundingPoint { fp_tsNs : string; fp_rateBps : number }.

Record FundingResponse := mkFundingResponse {
  fr_marketId : MarketId;
  fr_currentRateBps : number;
  fr_nextSettlementTsNs : string;
  fr_history : list FundingPoint
}.

Record OrderRequest := mkOrderRequest {
  or_marketId : MarketId;
  or_side : Side;
  or_type : OrderType;
  or_price : string;
  or_qty : string;
  or_timeInForce : TimeInForce;
  or_reduceOnly : bool;
  or_postOnly : bool;
  or_clientOrderId : string;
  or_nonce : string;
  or_signature : string
}.

Record OrderAck := mkOrderAck {
  oa_orderId : string;
  oa_status : OrderAckStatus;
  oa_tsNs : string
}.

Record ApiError := mkApiError { ae_code : string; ae_message : string }.

Record OpenOrder := mkOpenOrder {
  oo_id : string;
  oo_marketId : MarketId;
  oo_side : Side;
  oo_type : OrderType;
  oo_price : string;
  oo_qty : string;
  oo_remaining : string;
  oo_tsNs : string;
  oo_clientOrderId : option string
}.

Record OpenOrdersResponse := mkOpenOrdersResponse { oor_orders : list OpenOrder }.

Record Position := mkPosition {
  p_marketId : MarketId;
  p_size : string;
  p_side : PositionSide;
  p_entryPriceX18 : string;
  p_markPriceX18 : string;
  p_notionalUsdc : string;
  p_unrealisedPnlUsdc : string;
  p_realisedPnlUsdc : string;
  p_leverage : string;
  p_liquidationPriceX18 : string;
  p_fundingPaidUsdc : string;
  p_lastUpdatedTsNs : string
}.

Record PositionsResponse := mkPositionsResponse {
  pr_collateralUsdc : string;
  pr_freeCollateralUsdc : string;
  pr_totalUnrealisedPnlUsdc : string;
  pr_totalNotionalUsdc : string;
  pr_positions : list Position
}.

Record Fill := mkFill {
  f_id : string;
  f_orderId : string;
  f_marketId : MarketId;
  f_side : Side;
  f_price : string;
  f_qty : string;
  f_feeUsdc : string;
  f_role : FillRole;
  f_tsNs : string;
  f_txHash : string
}.

Record FillsResponse := mkFillsResponse {
  fsr_fills : list Fill;
  fsr_nextBefore : option string
}.

Record SiweNonceResponse := mkSiweNonceResponse { sn_nonce : string }.

Record SiweVerifyResponse := mkSiweVerifyResponse { sv_jwt : string; sv_expiresAt : string }.

Record PendingTransfer := mkPendingTransfer {
  tf_id : string;
  tf_amountUsdc : string;
  tf_txHash : string;
  tf_tsNs : string
}.

Record BalanceResponse := mkBalanceResponse {
  br_vaultBalanceUsdc : string;
  br_walletUsdcBalance : string;
  br_pendingDeposits : list PendingTransfer;
  br_pendingWithdrawals : list PendingTransfer
}.

(** ** WebSocket envelopes *)

Inductive WsOutbound :=
| WsSubscribe (channel : string)
| WsUnsubscribe (channel : string)
| WsAuth (token : string)
| WsPong.

#[export] Instance WsOutbound_eq_dec : EqDecision WsOutbound.
Proof. solve_decision. Defined.

Record WsOrderbookSnapshot := mkWsSnapshot {
  ws_channel : string;
  ws_sequence : Z;
  ws_bids : list OrderbookLevel;
  ws_asks : list OrderbookLevel;
  ws_tsNs : string
}.

(** A delta frame has the fields of a snapshot frame. *)
Record WsOrderbookDelta := mkWsDelta {
  wd_channel : string;
  wd_sequence : Z;
  wd_bids : list OrderbookLevel;
  wd_asks : list OrderbookLevel;
  wd_tsNs : string
}.

Record WsTrade := mkWsTrade {
  wt_channel : string;
  wt_id : string;
  wt_price : string;
  wt_qty : string;
  wt_side : Side;
  wt_tsNs : string
}.

Record WsOracle := mkWsOracle {
  wo_channel : string;
  wo_priceX18 : string;
  wo_confidenceX18 : string;
  wo_sourceTsNs : string;
  wo_tsNs : string
}.

Record WsFunding := mkWsFunding {
  wf_channel : string;
  wf_currentRateBps : number;
  wf_nextSettlementTsNs : string;
  wf_tsNs : string
}.

Inductive WsAccountMessage :=
| WsOrderAccepted (orderId : string) (marketId : MarketId) (tsNs : string)
| WsOrderCancelled (orderId tsNs : string)
| WsOrderFilled (orderId fillId : string) (marketId : MarketId)
    (price qty remaining feeUsdc : string) (role : FillRole) (tsNs : string)
| WsPositionUpdate (marketId : MarketId) (size entryPriceX18 unrealisedPnlUsdc tsNs : string)
| WsLiquidationWarning (marketId : MarketId) (healthFactor tsNs : string)
| WsLiquidationExecuted (marketId : MarketId) (size price tsNs : string)
| WsFundingApplied (marketId : MarketId) (amountUsdc tsNs : string).

Inductive WsMessage :=
| MPing (tsNs : string)
| MSnapshot (m : WsOrderbookSnapshot)
| MDelta (m : WsOrderbookDelta)
| MTrade (m : WsTrade)
| MOracle (m : WsOracle)
| MFunding (m : WsFunding)
| MAccount (m : WsAccountMessage).

(** The [channel] property, absent on pings and account messages. *)
Definition msg_channel (m : WsMessage) : option string :=
  match m with
  | MPing _ | MAccount _ => None
  | MSnapshot s => Some (ws_channel s)
  | MDelta d => Some (wd_channel d)
  | MTrade t => Some (wt_channel t)
  | MOracle o => Some (wo_channel o)
  | MFunding f => Some (wf_channel f)
  end.
