(* ===== verification/Browser.v ===== *)
(** * The browser the front end runs in

    [localStorage], the window's custom events, and the three copies of
    "forget the session" that the sources keep: [clearStoredJwtOn401]
    (web/lib/api/rest.ts), [clearStoredJwtOnUnauthorized]
    (web/lib/ws/client.ts) and [clearJwt] (web/lib/wallet/siwe.ts). *)

From S2P Require Import Prelude.

Record Browser := mkBrowser {
  b_window : bool;                      (** [typeof window !== "undefined"] *)
  b_storage : gmap string string;       (** [window.localStorage] *)
  b_events : list string                (** events dispatched, oldest first *)
}.

Definition getItem (k : string) (b : Browser) : option string := b_storage b !! k.

Definition setItem (k v : string) (b : Browser) : Browser :=
  mkBrowser (b_window b) (<[k := v]> (b_storage b)) (b_events b).

Definition removeItem (k : string) (b : Browser) : Browser :=
  mkBrowser (b_window b) (delete k (b_storage b)) (b_events b).

Definition dispatchEvent (e : string) (b : Browser) : Browser :=
  mkBrowser (b_window b) (b_storage b) (b_events b ++ [e]).

Definition JWT_KEY : string := "perplex.jwt".
Definition JWT_EXP_KEY : string := "perplex.jwt.expiresAt".
Definition JWT_EVENT : string := "perplex.jwt.change".

Definition clearStoredJwtOn401 (b : Browser) : Browser :=
  if negb (b_window b) then b
  else dispatchEvent "perplex.jwt.change"
         (removeItem "perplex.jwt.expiresAt" (removeItem "perplex.jwt" b)).

Definition clearStoredJwtOnUnauthorized (b : Browser) : Browser :=
  if negb (b_window b) then b
  else dispatchEvent "perplex.jwt.change"
         (removeItem "perplex.jwt.expiresAt" (removeItem "perplex.jwt" b)).

Definition emitJwtChange (b : Browser) : Browser :=
  if b_window b then dispatchEvent JWT_EVENT b else b.

Definition clearJwt (b : Browser) : Browser :=
  if negb (b_window b) then b
  else emitJwtChange (removeItem JWT_EXP_KEY (removeItem JWT_KEY b)).

(** A browser in which no session is stored. *)
Definition signed_out (b : Browser) : Prop :=
  getItem JWT_KEY b = None /\ getItem JWT_EXP_KEY b = None.

Lemma clearJwt_signed_out b : b_window b = true -> signed_out (clearJwt b).
Proof.
  intros Hw. unfold clearJwt, emitJwtChange, signed_out, getItem, JWT_KEY, JWT_EXP_KEY.
  rewrite Hw. cbn. rewrite Hw. cbn. by simplify_map_eq.
Qed.

Lemma clearJwt_other b k :
  k <> JWT_KEY -> k <> JWT_EXP_KEY -> getItem k (clearJwt b) = getItem k b.
Proof.
  intros H1 H2. unfold clearJwt, emitJwtChange, getItem.
  destruct (b_window b) eqn:Hw; [|done]. cbn. rewrite Hw. cbn. by simplify_map_eq.
Qed.

Lemma clearStored_agree b :
  clearStoredJwtOn401 b = clearJwt b /\ clearStoredJwtOnUnauthorized b = clearJwt b.
Proof.
  unfold clearStoredJwtOn401, clearStoredJwtOnUnauthorized, clearJwt, emitJwtChange.
  destruct (b_window b) eqn:Hw; cbn; by rewrite ?Hw.
Qed.
