(* ===== verification/WsClient.v ===== *)
(** * The web application's WebSocket client ([web/lib/ws/client.ts])

    The class [PerplexWs] as a state machine.  A world holds the client's
    fields, every socket it ever constructed (with its ready state and the
    frames sent on it), the pending timers and the browser.  The steps are
    the client's methods and the four things the environment can do: a
    socket opens, receives a message, closes, or a timer fires.  Handlers
    close over the socket they were installed on, as in the source, so a
    late event of an abandoned socket still acts on the client. *)

From S2P Require Import Prelude JsNum JsText JsColl Contract Browser.
From Stdlib Require Import SpecFloat QArith Lqa.
#[local] Open Scope Z_scope.

Inductive ReadyState := CONNECTING | OPEN | CLOSING | CLOSED.

#[export] Instance ReadyState_eq_dec : EqDecision ReadyState.
Proof. solve_decision. Defined.

Record Socket := mkSocket { sk_state : ReadyState; sk_sent : list WsOutbound }.

(** The fields of [PerplexWs]. *)
Record PerplexWs := mkWs {
  c_ws : option nat;
  c_subs : list string;
  c_listeners : list nat;
  c_reconnectAttempt : Z;
  c_reconnectTimer : option nat;
  c_closed : bool;
  c_outboundQueue : list WsOutbound;
  c_token : option string;
  c_maxReconnectDelayMs : option Z
}.

Record World := mkWorld {
  w_client : PerplexWs;
  w_sockets : list Socket;
  w_timers : list (nat * number);
  w_nextTimer : nat;
  w_rnd : nat;
  w_delivered : list (nat * WsMessage);
  w_browser : Browser
}.

Definition set_client (c : PerplexWs) (w : World) : World :=
  mkWorld c (w_sockets w) (w_timers w) (w_nextTimer w) (w_rnd w) (w_delivered w) (w_browser w).

Definition set_sockets (s : list Socket) (w : World) : World :=
  mkWorld (w_client w) s (w_timers w) (w_nextTimer w) (w_rnd w) (w_delivered w) (w_browser w).

Definition set_timers (t : list (nat * number)) (w : World) : World :=
  mkWorld (w_client w) (w_sockets w) t (w_nextTimer w) (w_rnd w) (w_delivered w) (w_browser w).

Definition set_browser (b : Browser) (w : World) : World :=
  mkWorld (w_client w) (w_sockets w) (w_timers w) (w_nextTimer w) (w_rnd w) (w_delivered w) b.

Definition with_ws (s : option nat) (c : PerplexWs) : PerplexWs :=
  mkWs s (c_subs c) (c_listeners c) (c_reconnectAttempt c) (c_reconnectTimer c) (c_closed c)
    (c_outboundQueue c) (c_token c) (c_maxReconnectDelayMs c).
Definition with_subs (s : list string) (c : PerplexWs) : PerplexWs :=
  mkWs (c_ws c) s (c_listeners c) (c_reconnectAttempt c) (c_reconnectTimer c) (c_closed c)
    (c_outboundQueue c) (c_token c) (c_maxReconnectDelayMs c).
Definition with_listeners (l : list nat) (c : PerplexWs) : PerplexWs :=
  mkWs (c_ws c) (c_subs c) l (c_reconnectAttempt c) (c_reconnectTimer c) (c_closed c)
    (c_outboundQueue c) (c_token c) (c_maxReconnectDelayMs c).
Definition with_attempt (a : Z) (c : PerplexWs) : PerplexWs :=
  mkWs (c_ws c) (c_subs c) (c_listeners c) a (c_reconnectTimer c) (c_closed c)
    (c_outboundQueue c) (c_token c) (c_maxReconnectDelayMs c).
Definition with_timer (t : option nat) (c : PerplexWs) : PerplexWs :=
  mkWs (c_ws c) (c_subs c) (c_listeners c) (c_reconnectAttempt c) t (c_closed c)
    (c_outboundQueue c) (c_token c) (c_maxReconnectDelayMs c).
Definition with_closed (b : bool) (c : PerplexWs) : PerplexWs :=
  mkWs (c_ws c) (c_subs c) (c_listeners c) (c_reconnectAttempt c) (c_reconnectTimer c) b
    (c_outboundQueue c) (c_token c) (c_maxReconnectDelayMs c).
Definition with_queue (q : list WsOutbound) (c : PerplexWs) : PerplexWs :=
  mkWs (c_ws c) (c_subs c) (c_listeners c) (c_reconnectAttempt c) (c_reconnectTimer c) (c_closed c)
    q (c_token c) (c_maxReconnectDelayMs c).
Definition with_token (t : option string) (c : PerplexWs) : PerplexWs :=
  mkWs (c_ws c) (c_subs c) (c_listeners c) (c_reconnectAttempt c) (c_reconnectTimer c) (c_closed c)
    (c_outboundQueue c) t (c_maxReconnectDelayMs c).

(** [new PerplexWs({ token })]. *)
Definition new_client (token : option string) : PerplexWs :=
  mkWs None [] [] 0 None false [] token None.

Definition new_world (token : option string) (b : Browser) : World :=
  mkWorld (new_client token) [] [] 0 0 [] b.

(** ** Sockets *)

Definition sock_state (i : nat) (w : World) : option ReadyState :=
  sk_state <$> (w_sockets w !! i).

Definition sent_on (i : nat) (w : World) : list WsOutbound :=
  match w_sockets w !! i with Some s => sk_sent s | None => [] end.

Definition upd_socket (i : nat) (f : Socket -> Socket) (w : World) : World :=
  set_sockets (alter f i (w_sockets w)) w.

(** [socket.send]: transmits on an open socket; a closing or closed socket
    discards the frame.  The client never sends on a connecting socket. *)
Definition socket_send (i : nat) (m : WsOutbound) (w : World) : World :=
  upd_socket i (fun s => match sk_state s with
                         | OPEN => mkSocket OPEN (sk_sent s ++ [m])
                         | _ => s
                         end) w.

(** [socket.close]: starts the closing handshake of a live socket. *)
Definition socket_close (i : nat) (w : World) : World :=
  upd_socket i (fun s => match sk_state s with
                         | CONNECTING | OPEN => mkSocket CLOSING (sk_sent s)
                         | _ => s
                         end) w.

Definition is_open (w : World) : bool :=
  match c_ws (w_client w) with
  | Some i => bool_decide (sock_state i w = Some OPEN)
  | None => false
  end.

(** ** Backoff *)

(** [Math.min(max, 250 * 2 ** attempt) + Math.random() * 250]. *)
Definition reconnect_delay {A} `{Arith A} (max : A) (pow2 : A) (random : A) : A :=
  (n_min max (nint 250 * pow2) + random * nint 250)%num.

(** [2 ** attempt]. *)
Definition pow2_num (k : Z) : number := binary_normalize 53 1024 1 k false.

Section Client.
(** The values [Math.random()] returns, in call order, and whether the
    configured URL is one the [WebSocket] constructor accepts. *)
Variables (rnd : nat -> number) (url_ok : bool).

Definition scheduleReconnect (w : World) : World :=
  let c := w_client w in
  if c_closed c then w
  else match c_reconnectTimer c with
  | Some _ => w
  | None =>
      let max := num_of_Z (default 10000 (c_maxReconnectDelayMs c)) in
      let delay := reconnect_delay max (pow2_num (c_reconnectAttempt c)) (rnd (w_rnd w)) in
      let t := w_nextTimer w in
      mkWorld (with_timer (Some t) (with_attempt (c_reconnectAttempt c + 1) c))
        (w_sockets w) (w_timers w ++ [(t, delay)]) (S t) (S (w_rnd w)) (w_delivered w) (w_browser w)
  end.

Definition connect (w : World) : World :=
  let c := w_client w in
  let live :=
    match c_ws c with
    | Some i => bool_decide (sock_state i w = Some OPEN) || bool_decide (sock_state i w = Some CONNECTING)
    | None => false
    end in
  if live then w
  else if url_ok then
    let i := length (w_sockets w) in
    set_client (with_ws (Some i) c) (set_sockets (w_sockets w ++ [mkSocket CONNECTING []]) w)
  else scheduleReconnect w.

Definition send (m : WsOutbound) (w : World) : World :=
  match c_ws (w_client w) with
  | Some i =>
      if bool_decide (sock_state i w = Some OPEN) then socket_send i m w
      else set_client (with_queue (c_outboundQueue (w_client w) ++ [m]) (w_client w)) w
  | None => set_client (with_queue (c_outboundQueue (w_client w) ++ [m]) (w_client w)) w
  end.

Definition subscribe (channel : string) (w : World) : World :=
  if js_has channel (c_subs (w_client w)) then w
  else
    let w1 := set_client (with_subs (js_add channel (c_subs (w_client w))) (w_client w)) w in
    send (WsSubscribe channel) w1.

Definition unsubscribe (channel : string) (w : World) : World :=
  if negb (js_has channel (c_subs (w_client w))) then w
  else
    let w1 := set_client (with_subs (js_del channel (c_subs (w_client w))) (w_client w)) w in
    send (WsUnsubscribe channel) w1.

(** [on(fn)]; the returned closure is [off]. *)
Definition on (l : nat) (w : World) : World :=
  set_client (with_listeners (js_add l (c_listeners (w_client w))) (w_client w)) w.

Definition off (l : nat) (w : World) : World :=
  set_client (with_listeners (js_del l (c_listeners (w_client w))) (w_client w)) w.

Definition setToken (token : option string) (w : World) : World :=
  let w1 := set_client (with_closed false (with_token token (w_client w))) w in
  match c_ws (w_client w1) with
  | Some i => socket_close i w1
  | None => connect w1
  end.

Definition close (w : World) : World :=
  let w1 := set_client (with_closed true (w_client w)) w in
  let w2 :=
    match c_reconnectTimer (w_client w1) with
    | Some t =>
        set_timers (List.filter (fun x => negb (Nat.eqb t x.1)) (w_timers w1))
          (set_client (with_timer None (w_client w1)) w1)
    | None => w1
    end in
  match c_ws (w_client w2) with
  | Some i =>
      let w3 := socket_close i w2 in
      set_client (with_ws None (w_client w3)) w3
  | None => w2
  end.

(** *** Handlers installed on socket [i] *)

Definition token_frames (c : PerplexWs) : list WsOutbound :=
  match c_token c with
  | Some t => if str_truthy t then [WsAuth t] else []
  | None => []
  end.

Definition onopen (i : nat) (w : World) : World :=
  let w1 := set_client (with_attempt 0 (w_client w)) w in
  let c := w_client w1 in
  let w2 := foldl (fun w m => socket_send i m w) w1 (token_frames c) in
  let w3 := foldl (fun w ch => socket_send i (WsSubscribe ch) w) w2 (c_subs c) in
  let w4 := foldl (fun w m => socket_send i m w) w3 (c_outboundQueue c) in
  set_client (with_queue [] (w_client w4)) w4.

(** [None] is a frame that is not JSON. *)
Definition onmessage (i : nat) (data : option WsMessage) (w : World) : World :=
  match data with
  | None => w
  | Some (MPing _) => socket_send i WsPong w
  | Some m =>
      mkWorld (w_client w) (w_sockets w) (w_timers w) (w_nextTimer w) (w_rnd w)
        (w_delivered w ++ map (fun l => (l, m)) (c_listeners (w_client w))) (w_browser w)
  end.

Definition onclose (code : Z) (w : World) : World :=
  let w1 := set_client (with_ws None (w_client w)) w in
  if code =? 3000 then
    let w2 := set_browser (clearStoredJwtOnUnauthorized (w_browser w1)) w1 in
    set_client (with_closed true (w_client w2)) w2
  else if negb (c_closed (w_client w1)) then scheduleReconnect w1 else w1.

Definition onerror (i : nat) (w : World) : World := socket_close i w.

Definition timer_fired (w : World) : World :=
  connect (set_client (with_timer None (w_client w)) w).

(** *** The event loop *)

Inductive call :=
| CConnect
| CSubscribe (channel : string)
| CUnsubscribe (channel : string)
| COn (l : nat)
| COff (l : nat)
| CSetToken (token : option string)
| CClose.

Inductive event :=
| EvOpen (i : nat)
| EvMessage (i : nat) (data : option WsMessage)
| EvClose (i : nat) (failed : bool) (code : Z)
| EvTimer (t : nat).

Definition run_call (k : call) (w : World) : World :=
  match k with
  | CConnect => connect w
  | CSubscribe ch => subscribe ch w
  | CUnsubscribe ch => unsubscribe ch w
  | COn l => on l w
  | COff l => off l w
  | CSetToken t => setToken t w
  | CClose => close w
  end.

(** [None] when the event cannot happen in this world. *)
Definition run_event (e : event) (w : World) : option World :=
  match e with
  | EvOpen i =>
      if bool_decide (sock_state i w = Some CONNECTING) then
        Some (onopen i (upd_socket i (fun s => mkSocket OPEN (sk_sent s)) w))
      else None
  | EvMessage i d =>
      if bool_decide (sock_state i w = Some OPEN) then Some (onmessage i d w) else None
  | EvClose i failed code =>
      match sock_state i w with
      | None | Some CLOSED => None
      | Some _ =>
          let w1 := upd_socket i (fun s => mkSocket CLOSED (sk_sent s)) w in
          let w2 := if failed then onerror i w1 else w1 in
          Some (onclose code w2)
      end
  | EvTimer t =>
      if existsb (fun x => Nat.eqb t x.1) (w_timers w) then
        Some (timer_fired (set_timers (List.filter (fun x => negb (Nat.eqb t x.1)) (w_timers w)) w))
      else None
  end.

Inductive step : World -> World -> Prop :=
| step_call k w : step w (run_call k w)
| step_event e w w' : run_event e w = Some w' -> step w w'.

Inductive reachable (b : Browser) (token : option string) : World -> Prop :=
| reach_init : reachable b token (new_world token b)
| reach_step w w' : reachable b token w -> step w w' -> reachable b token w'.

Definition action : Type := call + event.

Fixpoint run (acts : list action) (w : World) : option World :=
  match acts with
  | [] => Some w
  | inl k :: acts' => run acts' (run_call k w)
  | inr e :: acts' => match run_event e w with Some w' => run acts' w' | None => None end
  end.

Lemma run_reachable b token acts w w' :
  reachable b token w -> run acts w = Some w' -> reachable b token w'.
Proof.
  revert w. induction acts as [|[k|e] acts IH]; simpl; intros w Hr Hrun.
  - by simplify_eq.
  - eapply IH; [|done]. eapply reach_step; [done|constructor].
  - destruct (run_event e w) as [w1|] eqn:E; [|done].
    eapply IH; [|done]. eapply reach_step; [done|]. by eapply step_event.
Qed.

(** *** The module's singleton: the browser alone before the first use. *)

Definition Singleton : Type := Browser + World.

Definition singleton_browser (g : Singleton) : Browser :=
  match g with inl b => b | inr w => w_browser w end.

Definition getWsClient (g : Singleton) : result World :=
  if negb (b_window (singleton_browser g)) then throw_error "PerplexWs is browser-only"
  else match g with
       | inr w => Ok w
       | inl b => Ok (connect (new_world (getItem JWT_KEY b) b))
       end.

Definition syncWsToken (token : option string) (g : Singleton) : Singleton :=
  match g with
  | inl b => inl b
  | inr w => inr (setToken token w)
  end.
End Client.
