(* ===== verification/WsClientFacts.v ===== *)
(** * Correctness of the web WebSocket client

    The edge keeps, per connection, the set of channels subscribed by the
    frames it has received ([server_view]).  The invariant [inv] relates the
    client's fields to the sockets, and its corollary is the contract the
    data hooks rely on: while the client's socket is open, the edge's view of
    that connection is exactly [c_subs]. *)

From S2P Require Import Prelude JsNum JsText JsColl Contract Browser WsClient.
From Stdlib Require Import SpecFloat.
#[local] Open Scope Z_scope.

(** ** The edge's view of a connection *)

Definition apply_frame (S : gset string) (f : WsOutbound) : gset string :=
  match f with
  | WsSubscribe ch => {[ch]} ∪ S
  | WsUnsubscribe ch => S ∖ {[ch]}
  | WsAuth _ | WsPong => S
  end.

Definition apply_frames (S : gset string) (fs : list WsOutbound) : gset string :=
  foldl apply_frame S fs.

Definition server_view (fs : list WsOutbound) : gset string := apply_frames ∅ fs.

Definition subs_set (c : PerplexWs) : gset string := list_to_set (c_subs c).

Lemma apply_frames_app S fs gs : apply_frames S (fs ++ gs) = apply_frames (apply_frames S fs) gs.
Proof. apply foldl_app. Qed.

(** A channel's membership after some frames depends only on its membership
    before. *)
Lemma apply_frames_pointwise x fs : forall S T : gset string,
  (x ∈ S <-> x ∈ T) -> x ∈ apply_frames S fs <-> x ∈ apply_frames T fs.
Proof.
  induction fs as [|f fs IH]; simpl; [done|].
  intros S T Hx. apply IH. destruct f; set_solver.
Qed.

Lemma apply_frames_subscribes chs : forall S : gset string,
  apply_frames S (map WsSubscribe chs) = list_to_set chs ∪ S.
Proof.
  induction chs as [|ch chs IH]; simpl; intros S; [set_solver|].
  rewrite IH. set_solver.
Qed.

(** Queued frames are consistent with the subscription set: replaying them
    over it changes nothing. *)
Definition queue_agrees (c : PerplexWs) : Prop :=
  apply_frames (subs_set c) (c_outboundQueue c) = subs_set c.

Lemma queue_agrees_subscribe c ch :
  queue_agrees c ->
  apply_frames ({[ch]} ∪ subs_set c) (c_outboundQueue c ++ [WsSubscribe ch]) = {[ch]} ∪ subs_set c.
Proof.
  unfold queue_agrees. intros H. rewrite apply_frames_app. simpl. apply set_eq. intros x.
  destruct (decide (x = ch)) as [->|Hne]; [set_solver|].
  rewrite !elem_of_union, elem_of_singleton.
  assert (x ∈ apply_frames ({[ch]} ∪ subs_set c) (c_outboundQueue c) <->
          x ∈ apply_frames (subs_set c) (c_outboundQueue c)) as ->
    by (apply apply_frames_pointwise; set_solver).
  rewrite H. set_solver.
Qed.

Lemma queue_agrees_unsubscribe c ch :
  queue_agrees c ->
  apply_frames (subs_set c ∖ {[ch]}) (c_outboundQueue c ++ [WsUnsubscribe ch]) = subs_set c ∖ {[ch]}.
Proof.
  unfold queue_agrees. intros H. rewrite apply_frames_app. simpl. apply set_eq. intros x.
  destruct (decide (x = ch)) as [->|Hne]; [set_solver|].
  rewrite !elem_of_difference, elem_of_singleton.
  assert (x ∈ apply_frames (subs_set c ∖ {[ch]}) (c_outboundQueue c) <->
          x ∈ apply_frames (subs_set c) (c_outboundQueue c)) as ->
    by (apply apply_frames_pointwise; set_solver).
  rewrite H. set_solver.
Qed.

Lemma subs_set_add c ch :
  list_to_set (js_add ch (c_subs c)) =@{gset string} {[ch]} ∪ subs_set c.
Proof. apply set_eq. intros x. unfold subs_set. rewrite elem_of_list_to_set, elem_of_js_add. set_solver. Qed.

Lemma subs_set_del c ch :
  list_to_set (js_del ch (c_subs c)) =@{gset string} subs_set c ∖ {[ch]}.
Proof. apply set_eq. intros x. unfold subs_set. rewrite elem_of_list_to_set, elem_of_js_del. set_solver. Qed.

(** ** Sockets *)

Lemma lookup_upd_socket i j f w :
  w_sockets (upd_socket i f w) !! j =
  if decide (i = j) then f <$> w_sockets w !! i else w_sockets w !! j.
Proof.
  unfold upd_socket, set_sockets. simpl. case_decide as E; [subst j|].
  - apply list_lookup_alter_eq.
  - by apply list_lookup_alter_ne.
Qed.

Lemma upd_socket_compose i f g w :
  upd_socket i f (upd_socket i g w) = upd_socket i (f ∘ g) w.
Proof.
  unfold upd_socket, set_sockets. simpl. f_equal. apply list_eq. intros j.
  destruct (decide (i = j)) as [<-|Hne].
  - rewrite !list_lookup_alter_eq. by destruct (w_sockets w !! i).
  - by rewrite !list_lookup_alter_ne.
Qed.

Definition append_sent (fs : list WsOutbound) (s : Socket) : Socket :=
  match sk_state s with OPEN => mkSocket OPEN (sk_sent s ++ fs) | _ => s end.

Lemma upd_socket_ext i f g w :
  (forall s, w_sockets w !! i = Some s -> f s = g s) -> upd_socket i f w = upd_socket i g w.
Proof.
  intros H. unfold upd_socket, set_sockets. f_equal. apply list_eq. intros j.
  destruct (decide (i = j)) as [<-|Hne].
  - rewrite !list_lookup_alter_eq. destruct (w_sockets w !! i) eqn:E; [|done]. simpl. by rewrite H.
  - by rewrite !list_lookup_alter_ne.
Qed.

Lemma upd_socket_id i w : upd_socket i (append_sent []) w = w.
Proof.
  destruct w. unfold upd_socket, set_sockets. simpl. f_equal. apply list_eq. intros j.
  destruct (decide (i = j)) as [<-|Hne].
  - rewrite list_lookup_alter_eq. destruct (_ !! i) as [[[] ?]|]; [..|done]; simpl; try done.
    unfold append_sent. simpl. by rewrite app_nil_r.
  - by rewrite list_lookup_alter_ne.
Qed.

Lemma fold_send {B} (g : B -> WsOutbound) i l : forall w,
  foldl (fun w x => socket_send i (g x) w) w l = upd_socket i (append_sent (map g l)) w.
Proof.
  induction l as [|x l IH]; simpl; intros w; [by rewrite upd_socket_id|].
  rewrite IH. unfold socket_send. rewrite upd_socket_compose. apply upd_socket_ext.
  intros [[] sent] _; unfold append_sent; simpl; try done. by rewrite <- app_assoc.
Qed.

(** The frames a freshly opened socket receives. *)
Definition opening_frames (c : PerplexWs) : list WsOutbound :=
  token_frames c ++ map WsSubscribe (c_subs c) ++ c_outboundQueue c.

Lemma onopen_eq i w :
  onopen i w =
  set_client (with_queue [] (with_attempt 0 (w_client w)))
    (upd_socket i (append_sent (opening_frames (w_client w))) w).
Proof.
  unfold onopen. cbn zeta.
  rewrite (fold_send id), (fold_send WsSubscribe), (fold_send id), !map_id, !upd_socket_compose.
  set (w1 := set_client (with_attempt 0 (w_client w)) w).
  rewrite (upd_socket_ext i _ (append_sent (opening_frames (w_client w)))).
  - unfold w1. destruct w. done.
  - intros [[] sent] _; unfold append_sent, opening_frames, compose; simpl; try done.
    by rewrite <- !app_assoc.
Qed.

Lemma opening_frames_view c :
  queue_agrees c -> server_view (opening_frames c) = subs_set c.
Proof.
  intros Hq. unfold server_view, opening_frames. rewrite !apply_frames_app.
  assert (apply_frames ∅ (token_frames c) = ∅) as ->.
  { unfold token_frames. destruct (c_token c) as [t|]; [|done]. by destruct (str_truthy t). }
  rewrite apply_frames_subscribes. rewrite union_empty_r_L. exact Hq.
Qed.

(** ** The invariant *)

Record inv (w : World) : Prop := {
  inv_subs : NoDup (c_subs (w_client w));
  inv_timers : (w_timers w).*1 = option_list (c_reconnectTimer (w_client w));
  inv_ws : forall i, c_ws (w_client w) = Some i -> is_Some (w_sockets w !! i);
  inv_queue_open : is_open w = true -> c_outboundQueue (w_client w) = [];
  inv_queue : queue_agrees (w_client w);
  inv_view : forall i s, c_ws (w_client w) = Some i -> w_sockets w !! i = Some s ->
    sk_state s = OPEN -> server_view (sk_sent s) = subs_set (w_client w);
  inv_fresh : forall i s, w_sockets w !! i = Some s -> sk_state s = CONNECTING -> sk_sent s = []
}.

Lemma sock_state_Some i w st :
  sock_state i w = Some st <-> exists s, w_sockets w !! i = Some s /\ sk_state s = st.
Proof.
  unfold sock_state. destruct (w_sockets w !! i) as [s|]; simpl; naive_solver.
Qed.

Lemma is_open_true w :
  is_open w = true <->
  exists i s, c_ws (w_client w) = Some i /\ w_sockets w !! i = Some s /\ sk_state s = OPEN.
Proof.
  unfold is_open. destruct (c_ws (w_client w)) as [i|]; [|naive_solver].
  rewrite bool_decide_eq_true, sock_state_Some. naive_solver.
Qed.

Lemma new_world_inv token b : inv (new_world token b).
Proof. split; simpl; try done; [constructor | intros; by rewrite lookup_nil in *..]. Qed.

(** A step that leaves the sockets, the socket field, the subscriptions and
    the queue alone preserves the invariant. *)
Lemma inv_frame w w' :
  inv w ->
  c_ws (w_client w') = c_ws (w_client w) ->
  c_subs (w_client w') = c_subs (w_client w) ->
  c_outboundQueue (w_client w') = c_outboundQueue (w_client w) ->
  w_sockets w' = w_sockets w ->
  (w_timers w').*1 = option_list (c_reconnectTimer (w_client w')) ->
  inv w'.
Proof.
  intros [] Hws Hsubs Hq Hs Ht.
  split; unfold is_open, sock_state, queue_agrees, subs_set in *;
    rewrite ?Hws, ?Hsubs, ?Hq, ?Hs; auto.
Qed.

(** Dropping the client's socket keeps it. *)
Lemma inv_drop_ws w : inv w -> inv (set_client (with_ws None (w_client w)) w).
Proof. intros []; split; simpl; auto; try done. Qed.

Section Steps.
Variables (rnd : nat -> number) (url_ok : bool).

Lemma scheduleReconnect_inv w : inv w -> inv (scheduleReconnect rnd w).
Proof.
  intros Hinv. unfold scheduleReconnect.
  destruct (c_closed (w_client w)); [done|].
  destruct (c_reconnectTimer (w_client w)) eqn:Et; [done|].
  apply (inv_frame w); try done. simpl. pose proof (inv_timers _ Hinv) as Ht.
  rewrite fmap_app, Ht, Et. done.
Qed.

Lemma connect_inv w : inv w -> inv (connect rnd url_ok w).
Proof.
  intros Hinv. unfold connect. case_match eqn:Hlive; [done|].
  destruct url_ok; [|by apply scheduleReconnect_inv].
  destruct Hinv. split; simpl; try done.
  - intros i [= <-]. rewrite lookup_app_r, Nat.sub_diag by done. eauto.
  - unfold is_open, sock_state. simpl. rewrite lookup_app_r, Nat.sub_diag by done. done.
  - intros i s [= <-]. rewrite lookup_app_r, Nat.sub_diag by done. intros [= <-]. done.
  - intros i s [Hi|[_ Hi]]%lookup_app_Some; [by eapply inv_fresh0|].
    apply list_lookup_singleton_Some in Hi as [_ <-]. done.
Qed.

(** The common part of [subscribe] and [unsubscribe]: the subscription set
    becomes [subs'] and the matching frame is sent or queued. *)
Lemma send_inv m subs' w :
  inv w -> NoDup subs' ->
  (forall S, S = subs_set (w_client w) ->
     apply_frame S m = list_to_set subs') ->
  apply_frames (list_to_set subs') (c_outboundQueue (w_client w) ++ [m]) =@{gset string} list_to_set subs' ->
  inv (send m (set_client (with_subs subs' (w_client w)) w)).
Proof.
  intros Hinv Hnd Hset Hq. unfold send. simpl.
  assert (Hqueued : is_open w = false ->
    inv (set_client (with_queue (c_outboundQueue (w_client w) ++ [m])
           (with_subs subs' (w_client w))) (set_client (with_subs subs' (w_client w)) w))).
  { intros Hno. destruct Hinv. split; simpl; try done.
    - intros Ho. unfold is_open, sock_state in *. simpl in *. congruence.
    - intros i s Hi Hs Hst. assert (is_open w = true) by (apply is_open_true; eauto). congruence. }
  destruct (c_ws (w_client w)) as [i|] eqn:Hws.
  2:{ apply Hqueued. unfold is_open. by rewrite Hws. }
  case_bool_decide as Hopen.
  2:{ apply Hqueued. unfold is_open. rewrite Hws. by apply bool_decide_eq_false. }
  apply sock_state_Some in Hopen as (s & Hs & Hst). simpl in Hs.
  assert (Ho : is_open w = true) by (apply is_open_true; eauto).
  pose proof (inv_queue_open _ Hinv Ho) as Hqe.
  pose proof (inv_view _ Hinv i s Hws Hs Hst) as Hview.
  destruct Hinv. split; try done.
  - intros j Hj. unfold socket_send. rewrite lookup_upd_socket. simpl in *.
    case_decide; [subst; rewrite Hs; eauto|]. apply inv_ws0. congruence.
  - unfold queue_agrees, subs_set. simpl. by rewrite Hqe.
  - intros j s' Hj. simpl in Hj. assert (j = i) as -> by congruence.
    unfold socket_send. rewrite lookup_upd_socket, decide_True by done. simpl.
    rewrite Hs. simpl. rewrite Hst. intros [= <-] _. simpl.
    unfold server_view in *. rewrite apply_frames_app. simpl. rewrite Hview. by apply Hset.
  - intros j s'. unfold socket_send. rewrite lookup_upd_socket. simpl.
    case_decide; [|by apply inv_fresh0]. subst j. rewrite Hs. simpl. rewrite Hst.
    intros [= <-]. done.
Qed.

Lemma subscribe_inv ch w : inv w -> inv (subscribe ch w).
Proof.
  intros Hinv. unfold subscribe. destruct (js_has _ _); [done|].
  apply send_inv; [done| |intros ? ->; by rewrite subs_set_add|].
  - apply js_add_NoDup, Hinv.
  - rewrite subs_set_add. apply queue_agrees_subscribe, Hinv.
Qed.

Lemma unsubscribe_inv ch w : inv w -> inv (unsubscribe ch w).
Proof.
  intros Hinv. unfold unsubscribe. destruct (negb _); [done|].
  apply send_inv; [done| |intros ? ->; by rewrite subs_set_del|].
  - apply js_del_NoDup, Hinv.
  - rewrite subs_set_del. apply queue_agrees_unsubscribe, Hinv.
Qed.

(** A socket change that never opens a socket and keeps what was sent. *)
Lemma upd_socket_inv i f w :
  inv w ->
  (forall s, sk_sent (f s) = sk_sent s) ->
  (forall s, sk_state (f s) = OPEN -> sk_state s = OPEN) ->
  (forall s, sk_state (f s) = CONNECTING -> sk_state s = CONNECTING) ->
  inv (upd_socket i f w).
Proof.
  intros [] Hsent Hopen Hconn.
  assert (Hlk : forall j s', w_sockets (upd_socket i f w) !! j = Some s' ->
    exists s, w_sockets w !! j = Some s /\ (s' = s \/ s' = f s)).
  { intros j s'. rewrite lookup_upd_socket. case_decide; [subst j|eauto].
    destruct (w_sockets w !! i); intros [= <-]; eauto. }
  split; try done.
  - intros j Hj. rewrite lookup_upd_socket. case_decide; [subst j|by apply inv_ws0].
    destruct (inv_ws0 i Hj) as [s ->]. eauto.
  - intros (j & s' & Hj & (s & Hs & Hs')%Hlk & Hst)%is_open_true.
    apply inv_queue_open0, is_open_true. exists j, s. destruct Hs' as [-> | ->]; auto.
  - intros j s' Hj (s & Hs & Hs')%Hlk Hst. destruct Hs' as [-> | ->]; [by eapply inv_view0|].
    rewrite Hsent. eapply inv_view0; eauto.
  - intros j s' (s & Hs & Hs')%Hlk Hst. destruct Hs' as [-> | ->]; [by eapply inv_fresh0|].
    rewrite Hsent. eapply inv_fresh0; eauto.
Qed.

Lemma socket_close_inv i w : inv w -> inv (socket_close i w).
Proof. intros. apply upd_socket_inv; [done|by intros [[] ?]..]. Qed.
End Steps.

Section Reachability.
Variables (rnd : nat -> number) (url_ok : bool).

Lemma timers_filter t w :
  inv w -> (exists d, (t, d) ∈ w_timers w) ->
  List.filter (fun x => negb (Nat.eqb t x.1)) (w_timers w) = [].
Proof.
  intros Hinv [d Hin]. pose proof (inv_timers _ Hinv) as Ht.
  destruct (w_timers w) as [|[t1 d1] [|? ?]], (c_reconnectTimer (w_client w)); simplify_eq/=.
  - set_solver.
  - apply list_elem_of_singleton in Hin. simplify_eq. by rewrite Nat.eqb_refl.
Qed.

Lemma close_inv w : inv w -> inv (close w).
Proof.
  intros Hinv. unfold close. cbn zeta.
  set (w1 := set_client (with_closed true (w_client w)) w).
  assert (Hw1 : inv w1) by (apply (inv_frame w); auto; apply Hinv).
  set (w2 := match c_reconnectTimer (w_client w1) with Some t => _ | None => w1 end).
  assert (Hw2 : inv w2).
  { unfold w2. destruct (c_reconnectTimer (w_client w1)) as [t|] eqn:Et; [|done].
    apply (inv_frame w1); try done. simpl.
    rewrite (timers_filter t w); [done|done|].
    pose proof (inv_timers _ Hw1) as Ht. rewrite Et in Ht. simpl in Ht.
    destruct (w_timers w) as [|[t1 d1] ?]; simplify_eq/=. exists d1. set_solver. }
  destruct (c_ws (w_client w2)) as [i|]; [|done].
  apply inv_drop_ws. by apply socket_close_inv.
Qed.

Lemma setToken_inv tok w : inv w -> inv (setToken rnd url_ok tok w).
Proof.
  intros Hinv. unfold setToken.
  assert (Hw1 : inv (set_client (with_closed false (with_token tok (w_client w))) w))
    by (apply (inv_frame w); auto; apply Hinv).
  case_match; [by apply socket_close_inv | by apply connect_inv].
Qed.

Lemma run_call_inv k w : inv w -> inv (run_call rnd url_ok k w).
Proof.
  intros Hinv. destruct k; simpl.
  - by apply connect_inv.
  - by apply subscribe_inv.
  - by apply unsubscribe_inv.
  - apply (inv_frame w); auto; apply Hinv.
  - apply (inv_frame w); auto; apply Hinv.
  - by apply setToken_inv.
  - by apply close_inv.
Qed.

Lemma open_event_inv i w :
  inv w -> sock_state i w = Some CONNECTING ->
  inv (onopen i (upd_socket i (fun s => mkSocket OPEN (sk_sent s)) w)).
Proof.
  intros Hinv (s & Hs & Hst)%sock_state_Some.
  rewrite onopen_eq, upd_socket_compose. simpl.
  pose proof (inv_fresh _ Hinv i s Hs Hst) as Hsent.
  pose proof (opening_frames_view _ (inv_queue _ Hinv)) as Hof.
  assert (Hlk : forall j s', w_sockets (upd_socket i
      (append_sent (opening_frames (w_client w)) ∘ (fun s => mkSocket OPEN (sk_sent s))) w) !! j = Some s' ->
    (i = j /\ s' = mkSocket OPEN (opening_frames (w_client w))) \/
    (i <> j /\ w_sockets w !! j = Some s')).
  { intros j s'. rewrite lookup_upd_socket. case_decide; [subst j|by right].
    rewrite Hs. unfold append_sent, compose. simpl. rewrite Hsent. intros [= <-]. by left. }
  destruct Hinv. split; try done.
  - intros j Hj. simpl in *. pose proof (lookup_upd_socket i j
      (append_sent (opening_frames (w_client w)) ∘ (fun s => mkSocket OPEN (sk_sent s))) w) as Hl.
    simpl in Hl. rewrite Hl. case_decide; [subst; rewrite Hs; eauto|]. by apply inv_ws0.
  - intros j s' Hj [[<- ->]|[Hne Hs']]%Hlk Hop; [exact Hof|]. by eapply inv_view0.
  - intros j s' [[<- ->]|[Hne Hs']]%Hlk Hop; [done|]. by eapply inv_fresh0.
Qed.

Lemma onclose_inv code w : inv w -> inv (onclose rnd code w).
Proof.
  intros Hinv. unfold onclose. cbn zeta. apply inv_drop_ws in Hinv.
  destruct (code =? 3000).
  - apply (inv_frame _ _ Hinv); try done. apply Hinv.
  - destruct (negb _); [by apply scheduleReconnect_inv|done].
Qed.

Lemma onmessage_inv i d w :
  inv w -> sock_state i w = Some OPEN -> inv (onmessage i d w).
Proof.
  intros Hinv Hst. destruct d as [[]|]; simpl; try done;
    try (apply (inv_frame w); auto; apply Hinv).
  (* pong: the edge's view does not change *)
  apply sock_state_Some in Hst as (s & Hs & Hst).
  assert (Hlk : forall j s', w_sockets (socket_send i WsPong w) !! j = Some s' ->
    exists s0, w_sockets w !! j = Some s0 /\ sk_state s' = sk_state s0 /\
      (sk_sent s' = sk_sent s0 \/ sk_sent s' = sk_sent s0 ++ [WsPong] /\ sk_state s0 = OPEN)).
  { intros j s'. unfold socket_send. rewrite lookup_upd_socket. case_decide; [subst j|eauto 10].
    rewrite Hs. simpl. rewrite Hst. intros [= <-]. exists s. simpl. auto. }
  destruct Hinv. split; try done.
  - intros j Hj. unfold socket_send. rewrite lookup_upd_socket.
    case_decide; [subst; rewrite Hs; eauto|]. by apply inv_ws0.
  - intros (j & s' & Hj & (s0 & Hs0 & He & _)%Hlk & Ho)%is_open_true.
    apply inv_queue_open0, is_open_true. exists j, s0. by rewrite <- He.
  - intros j s' Hj (s0 & Hs0 & He & Hsent)%Hlk Ho. rewrite He in Ho.
    etrans; [|exact (inv_view0 j s0 Hj Hs0 Ho)]. destruct Hsent as [-> |[-> _]]; [done|].
    unfold server_view. by rewrite apply_frames_app.
  - intros j s' (s0 & Hs0 & He & Hsent)%Hlk Ho. rewrite He in Ho.
    destruct Hsent as [-> |[_ ?]]; [by eapply inv_fresh0|congruence].
Qed.

Lemma run_event_inv e w w' : inv w -> run_event rnd url_ok e w = Some w' -> inv w'.
Proof.
  intros Hinv. destruct e as [i|i d|i failed code|t]; simpl.
  - case_bool_decide; [|done]. intros [= <-]. by apply open_event_inv.
  - case_bool_decide; [|done]. intros [= <-]. by apply onmessage_inv.
  - assert (Hcl : inv (onclose rnd code
      (if failed then onerror i (upd_socket i (fun s => mkSocket CLOSED (sk_sent s)) w)
       else upd_socket i (fun s => mkSocket CLOSED (sk_sent s)) w))).
    { apply onclose_inv. assert (inv (upd_socket i (fun s => mkSocket CLOSED (sk_sent s)) w))
        by (by apply upd_socket_inv).
      destruct failed; [by apply socket_close_inv|done]. }
    destruct (sock_state i w) as [[]|]; by intros [= <-].
  - destruct (existsb _ _) eqn:Hex; [|done]. intros [= <-].
    unfold timer_fired. apply connect_inv. apply (inv_frame w); try done. simpl.
    apply existsb_exists in Hex as ([t' d] & Hin & Heq). simpl in Heq.
    apply Nat.eqb_eq in Heq as <-. rewrite (timers_filter t w); [done|done|].
    exists d. by apply list_elem_of_In.
Qed.

Lemma reachable_inv b token w : reachable rnd url_ok b token w -> inv w.
Proof.
  induction 1 as [|w w' Hr IH Hstep]; [apply new_world_inv|].
  destruct Hstep; [by apply run_call_inv | by eapply run_event_inv].
Qed.
End Reachability.
