(* ===== verification/WsClientThms.v ===== *)
(** * What the web WebSocket client guarantees

    The client's contract, proved for every reachable world: the edge's view
    of the open connection, at most one reconnect timer, silence after an
    unauthorized close, recovery on a new token, and the bounds of the
    backoff.  The last theorem exhibits the one way the contract can be left:
    a reconnect timer that fires during a token change abandons a live
    socket. *)

From S2P Require Import Prelude JsNum JsText JsColl Contract Browser WsClient WsClientFacts.
From Stdlib Require Import SpecFloat QArith Lqa.
#[local] Open Scope Z_scope.

Section Live.
Variables (rnd : nat -> number) (url_ok : bool).

(** The client's current socket is never a closed one. *)
Definition ws_live (w : World) : Prop :=
  forall i, c_ws (w_client w) = Some i -> sock_state i w <> Some CLOSED.

Lemma scheduleReconnect_ws w :
  c_ws (w_client (scheduleReconnect rnd w)) = c_ws (w_client w) /\
  w_sockets (scheduleReconnect rnd w) = w_sockets w.
Proof. unfold scheduleReconnect. case_match; [done|]. by case_match. Qed.

Lemma scheduleReconnect_live w : ws_live w -> ws_live (scheduleReconnect rnd w).
Proof.
  destruct (scheduleReconnect_ws w) as [H1 H2]. unfold ws_live, sock_state.
  by rewrite H1, H2.
Qed.

Lemma connect_live w : ws_live w -> ws_live (connect rnd url_ok w).
Proof.
  unfold connect. case_match; [done|]. destruct url_ok; [|apply scheduleReconnect_live].
  intros _ i [= <-]. unfold sock_state. simpl.
  by rewrite lookup_app_r, Nat.sub_diag by done.
Qed.

Lemma upd_socket_live i f w :
  ws_live w -> (forall s, sk_state s <> CLOSED -> sk_state (f s) <> CLOSED) ->
  ws_live (upd_socket i f w).
Proof.
  intros Hl Hf j Hj. specialize (Hl j Hj). unfold sock_state in *.
  rewrite lookup_upd_socket. case_decide; [subst j|done].
  destruct (w_sockets w !! i) as [s|]; simpl in *; [|done].
  intros [= H]. by apply (Hf s); [intros ?; apply Hl; f_equal|].
Qed.

Lemma set_client_live c w :
  c_ws c = c_ws (w_client w) -> ws_live w -> ws_live (set_client c w).
Proof. intros Hc Hl i Hi. apply Hl. simpl in Hi. congruence. Qed.

Lemma send_live m w : ws_live w -> ws_live (send m w).
Proof.
  intros Hl. unfold send. destruct (c_ws (w_client w)) eqn:E; [|done].
  case_bool_decide; [|done]. apply upd_socket_live; [done|]. by intros [[] ?].
Qed.

Lemma onclose_live code w : ws_live (onclose rnd code w).
Proof.
  unfold onclose. cbn zeta. case_match; [done|]. case_match; [|done].
  by apply scheduleReconnect_live.
Qed.

Lemma reachable_live b token w : reachable rnd url_ok b token w -> ws_live w.
Proof.
  induction 1 as [|w w' Hr IH Hstep]; [done|]. destruct Hstep as [[] w|[] w w' He]; simpl in *.
  - by apply connect_live.
  - unfold subscribe. case_match; [done|]. by apply send_live.
  - unfold unsubscribe. case_match; [done|]. by apply send_live.
  - done.
  - done.
  - unfold setToken. case_match; [|by apply connect_live].
    apply upd_socket_live; [done|]. by intros [[] ?].
  - unfold close. cbn zeta. by repeat case_match.
  - case_bool_decide; simplify_eq. rewrite onopen_eq. simpl.
    apply set_client_live; [done|]. apply upd_socket_live; [by apply upd_socket_live|].
    by intros [[] ?].
  - case_bool_decide; simplify_eq. destruct data as [[]|]; simpl; try done.
    apply upd_socket_live; [done|]. by intros [[] ?].
  - case_match; simplify_eq. case_match; simplify_eq; apply onclose_live.
  - case_match; simplify_eq. apply connect_live. done.
Qed.

(** *** Silence after an unauthorized close *)

Definition quiescent (n : nat) (w : World) : Prop :=
  c_closed (w_client w) = true /\ c_ws (w_client w) = None /\
  w_timers w = [] /\ length (w_sockets w) = n.

Lemma length_upd_socket i f w : length (w_sockets (upd_socket i f w)) = length (w_sockets w).
Proof. apply length_alter. Qed.

Lemma quiescent_event n e w w' :
  quiescent n w -> run_event rnd url_ok e w = Some w' -> quiescent n w'.
Proof.
  intros (Hc & Hws & Ht & Hn) He. destruct e as [i|i d|i failed code|t]; simpl in He.
  - case_bool_decide; simplify_eq. rewrite onopen_eq.
    repeat split; simpl; try done. by rewrite !length_alter.
  - case_bool_decide; simplify_eq. destruct d as [[]|]; repeat split; simpl; try done.
    by rewrite length_alter.
  - assert (w' = onclose rnd code (if failed
      then onerror i (upd_socket i (fun s => mkSocket CLOSED (sk_sent s)) w)
      else upd_socket i (fun s => mkSocket CLOSED (sk_sent s)) w)) as ->
      by (case_match; simplify_eq; by case_match; simplify_eq).
    unfold onclose. cbn zeta.
    destruct (code =? 3000); destruct failed; simpl; rewrite ?Hc; simpl;
      repeat split; simpl; try done; by rewrite ?length_alter.
  - by rewrite Ht in He.
Qed.

Lemma quiescent_run n evs : forall w w',
  quiescent n w -> run rnd url_ok (map inr evs) w = Some w' -> quiescent n w'.
Proof.
  induction evs as [|e evs IH]; simpl; intros w w' Hq Hrun; [by simplify_eq|].
  destruct (run_event rnd url_ok e w) as [w1|] eqn:E; [|done].
  eapply IH; [|done]. by eapply quiescent_event.
Qed.
End Live.

(** ** Properties *)

(** C17: in every reachable world, if the client's current socket is open then
    replaying the frames sent on it gives exactly the client's subscription
    set: the edge and the client agree on every channel. *)
Theorem open_socket_view (rnd : nat -> number) (url_ok : bool) (b : Browser) (token : option string)
    (w : World) (i : nat) (s : Socket) :
  reachable rnd url_ok b token w ->
  c_ws (w_client w) = Some i -> w_sockets w !! i = Some s -> sk_state s = OPEN ->
  server_view (sk_sent s) = subs_set (w_client w).
Proof. intros Hr Hi Hs Hst. apply reachable_inv in Hr. by eapply inv_view. Qed.

Definition browser0 : Browser := mkBrowser true ∅ [].
Definition rnd0 (_ : nat) : number := num_zero.

Definition view_acts : list action :=
  [inl CConnect; inl (CSubscribe "oracle.btc-usd"); inl (CSubscribe "trades.btc-usd");
   inl (CUnsubscribe "oracle.btc-usd"); inr (EvOpen 0)].

Definition view_world : World :=
  Eval vm_compute in default (new_world None browser0)
    (run rnd0 true view_acts (new_world (Some "jwt") browser0)).

Lemma view_world_reachable : reachable rnd0 true browser0 (Some "jwt") view_world.
Proof.
  apply (run_reachable _ _ _ _ view_acts (new_world (Some "jwt") browser0));
    [apply reach_init | vm_compute; reflexivity].
Qed.

Lemma open_socket_view_witness :
  server_view [WsAuth "jwt"; WsSubscribe "trades.btc-usd"; WsSubscribe "oracle.btc-usd";
               WsSubscribe "trades.btc-usd"; WsUnsubscribe "oracle.btc-usd"] =
  subs_set (w_client view_world).
Proof.
  apply (open_socket_view rnd0 true browser0 (Some "jwt") view_world 0
    (mkSocket OPEN [WsAuth "jwt"; WsSubscribe "trades.btc-usd"; WsSubscribe "oracle.btc-usd";
                    WsSubscribe "trades.btc-usd"; WsUnsubscribe "oracle.btc-usd"]));
    [apply view_world_reachable|reflexivity|reflexivity|reflexivity].
Defined.

(** In every reachable world at most one reconnect timer is pending, and
    it is the one [reconnectTimer] names, so reconnect attempts never pile up. *)
Theorem single_reconnect_timer (rnd : nat -> number) (url_ok : bool) (b : Browser)
    (token : option string) (w : World) :
  reachable rnd url_ok b token w ->
  (w_timers w).*1 = option_list (c_reconnectTimer (w_client w)) /\
  (length (w_timers w) <= 1)%nat.
Proof.
  intros Hr%reachable_inv. pose proof (inv_timers _ Hr) as Ht. split; [done|].
  rewrite <- (length_fmap fst), Ht. destruct (c_reconnectTimer (w_client w)); simpl; lia.
Qed.

Lemma single_reconnect_timer_witness :
  exists w, run rnd0 true [inl CConnect; inr (EvClose 0 true 1006)] (new_world None browser0) = Some w /\
            c_reconnectTimer (w_client w) = Some 0%nat /\ (w_timers w).*1 = [0%nat].
Proof.
  eexists. split; [reflexivity|]. split; [reflexivity|].
  refine (proj1 (single_reconnect_timer rnd0 true browser0 None _ _)).
  apply (run_reachable _ _ _ _ [inl CConnect; inr (EvClose 0 true 1006)] (new_world None browser0));
    [apply reach_init|reflexivity].
Defined.

(** After the edge closes a connection with code 3000 while no timer is
    pending, the stored session is gone and no event of the environment makes
    the client open another socket or start a timer, until the application
    calls it again. *)
Theorem unauthorized_close_is_final (rnd : nat -> number) (url_ok : bool) (b : Browser)
    (token : option string) (w w1 w2 : World) (i : nat) (evs : list event) :
  reachable rnd url_ok b token w ->
  c_reconnectTimer (w_client w) = None -> b_window (w_browser w) = true ->
  run_event rnd url_ok (EvClose i false 3000) w = Some w1 ->
  run rnd url_ok (map inr evs) w1 = Some w2 ->
  signed_out (w_browser w1) /\
  c_ws (w_client w2) = None /\ w_timers w2 = [] /\ length (w_sockets w2) = length (w_sockets w).
Proof.
  intros Hr Ht Hw He Hrun. apply reachable_inv in Hr.
  pose proof (inv_timers _ Hr) as Htm. rewrite Ht in Htm. apply fmap_nil_inv in Htm.
  assert (Hw1 : w1 = onclose rnd 3000 (upd_socket i (fun s => mkSocket CLOSED (sk_sent s)) w)).
  { simpl in He. case_match; simplify_eq. by case_match; simplify_eq. }
  assert (Hq : quiescent (length (w_sockets w)) w1).
  { rewrite Hw1. repeat split; simpl; [done|]. by rewrite length_alter. }
  split.
  - rewrite Hw1. simpl. rewrite (proj2 (clearStored_agree _)). by apply clearJwt_signed_out.
  - by destruct (quiescent_run rnd url_ok _ _ _ _ Hq Hrun) as (_ & ? & ? & ?).
Qed.

Lemma unauthorized_close_is_final_witness :
  exists w w1 w2,
    run rnd0 true [inl CConnect; inr (EvOpen 0)]
      (new_world (Some "dead") (setItem "perplex.jwt" "dead" browser0)) = Some w /\
    run_event rnd0 true (EvClose 0 false 3000) w = Some w1 /\
    run rnd0 true (map inr []) w1 = Some w2 /\
    signed_out (w_browser w1) /\ c_ws (w_client w2) = None.
Proof.
  do 3 eexists. split; [reflexivity|]. split; [reflexivity|]. split; [reflexivity|].
  edestruct (unauthorized_close_is_final rnd0 true (setItem "perplex.jwt" "dead" browser0)
    (Some "dead")) with (evs := @nil event) (i := 0%nat) as (H1 & H2 & _);
    [apply (run_reachable _ _ _ _ [inl CConnect; inr (EvOpen 0)]
              (new_world (Some "dead") (setItem "perplex.jwt" "dead" browser0)));
       [apply reach_init|reflexivity]
    |reflexivity|reflexivity|reflexivity|reflexivity|exact (conj H1 H2)].
Defined.

(** ** Recovery *)

Section Recovery.
Variable rnd : nat -> number.

Lemma connect_fresh w :
  c_ws (w_client w) = None ->
  connect rnd true w =
  set_client (with_ws (Some (length (w_sockets w))) (w_client w))
    (set_sockets (w_sockets w ++ [mkSocket CONNECTING []]) w).
Proof. intros H. unfold connect. by rewrite H. Qed.

(** Connecting from scratch and letting the socket open authenticates with
    the token as the first frame. *)
Lemma connect_open_auth tok w :
  inv w -> c_ws (w_client w) = None -> c_token (w_client w) = Some tok -> str_truthy tok = true ->
  exists w', run_event rnd true (EvOpen (length (w_sockets w))) (connect rnd true w) = Some w' /\
    c_ws (w_client w') = Some (length (w_sockets w)) /\
    sock_state (length (w_sockets w)) w' = Some OPEN /\
    head (sent_on (length (w_sockets w)) w') = Some (WsAuth tok).
Proof.
  intros Hinv Hws Htok Htr. rewrite (connect_fresh w Hws). simpl.
  assert (Hl : (w_sockets w ++ [mkSocket CONNECTING []]) !! length (w_sockets w) =
               Some (mkSocket CONNECTING []))
    by (by rewrite lookup_app_r, Nat.sub_diag).
  rewrite bool_decide_true by (unfold sock_state; simpl; by rewrite Hl).
  eexists. split; [reflexivity|]. rewrite onopen_eq. split; [done|].
  rewrite upd_socket_compose. unfold sock_state, sent_on. simpl.
  rewrite list_lookup_alter_eq, Hl. unfold append_sent, opening_frames, token_frames. simpl.
  by rewrite Htok, Htr.
Qed.
End Recovery.

(** C34: a token change always recovers: from any reachable world, whatever
    state the socket and the closed flag are in, there is a run of the
    environment alone after [setToken tok] that ends with the client's socket
    open and [tok] sent as its first frame. *)
Theorem setToken_recovers (rnd : nat -> number) (b : Browser) (token : option string) (w : World)
    (tok : string) :
  reachable rnd true b token w -> str_truthy tok = true ->
  exists (evs : list event) (w' : World) (j : nat),
    run rnd true (map inr evs) (setToken rnd true (Some tok) w) = Some w' /\
    c_ws (w_client w') = Some j /\ sock_state j w' = Some OPEN /\
    head (sent_on j w') = Some (WsAuth tok).
Proof.
  intros Hr Htr. pose proof (reachable_inv _ _ _ _ _ Hr) as Hinv.
  pose proof (reachable_live _ _ _ _ _ Hr) as Hlive.
  set (w1 := set_client (with_closed false (with_token (Some tok) (w_client w))) w).
  assert (Hw1 : inv w1) by (apply (inv_frame w); auto; apply Hinv).
  destruct (c_ws (w_client w)) as [i|] eqn:Hws.
  - (* the socket closes, the timer fires, the new socket opens *)
    destruct (inv_ws _ Hinv i Hws) as [s Hs].
    set (w2 := socket_close i w1).
    set (w3 := upd_socket i (fun s => mkSocket CLOSED (sk_sent s)) w2).
    set (w4 := onclose rnd 1000 w3).
    assert (Hset : setToken rnd true (Some tok) w = w2) by (unfold setToken; simpl; by rewrite Hws).
    assert (He : run_event rnd true (EvClose i false 1000) w2 = Some w4).
    { simpl. assert (Hst : sock_state i w2 = Some CLOSING); [|by rewrite Hst].
      specialize (Hlive i Hws). unfold sock_state in *. unfold w2, socket_close.
      rewrite lookup_upd_socket, decide_True by done. simpl. rewrite Hs in *.
      destruct s as [[] ?]; simpl in *; congruence. }
    assert (Hw4 : inv w4) by (by eapply (run_event_inv rnd true _ w2); [apply socket_close_inv|]).
    assert (Ht : exists t, c_reconnectTimer (w_client w4) = Some t /\ c_ws (w_client w4) = None /\
                           c_token (w_client w4) = Some tok).
    { unfold w4, onclose. simpl. unfold scheduleReconnect. simpl.
      destruct (c_reconnectTimer (w_client w)) as [t|] eqn:Et; simpl; eauto. }
    destruct Ht as (t & Ht & Hws4 & Htok).
    pose proof (inv_timers _ Hw4) as Htm. rewrite Ht in Htm.
    destruct (w_timers w4) as [|[t0 d0] [|? ?]] eqn:Etm; [done| |done]. injection Htm as ->.
    set (w5 := set_client (with_timer None (w_client w4)) (set_timers [] w4)).
    assert (Hw5 : inv w5) by (by apply (inv_frame w4)).
    destruct (connect_open_auth rnd tok w5 Hw5 Hws4 Htok Htr) as (w' & Hrun & H1 & H2 & H3).
    exists [EvClose i false 1000; EvTimer t; EvOpen (length (w_sockets w5))], w', (length (w_sockets w5)).
    split; [|done]. rewrite Hset. cbn [map run]. rewrite He.
    assert (run_event rnd true (EvTimer t) w4 = Some (connect rnd true w5)) as ->.
    { simpl. rewrite Etm. simpl. by rewrite Nat.eqb_refl. }
    by rewrite Hrun.
  - (* no socket: [setToken] connects at once *)
    destruct (connect_open_auth rnd tok w1 Hw1 Hws eq_refl Htr) as (w' & Hrun & H1 & H2 & H3).
    exists [EvOpen (length (w_sockets w1))], w', (length (w_sockets w1)).
    split; [|done]. unfold setToken. simpl. rewrite Hws. fold w1. simpl in Hrun.
    by rewrite Hrun.
Qed.

Lemma setToken_recovers_witness :
  exists (evs : list event) (w' : World) (j : nat),
    run rnd0 true (map inr evs) (setToken rnd0 true (Some "fresh") view_world) = Some w' /\
    c_ws (w_client w') = Some j /\ sock_state j w' = Some OPEN /\
    head (sent_on j w') = Some (WsAuth "fresh").
Proof.
  apply (setToken_recovers rnd0 browser0 (Some "jwt") view_world "fresh");
    [apply view_world_reachable | reflexivity].
Defined.

(** ** Backoff *)

(** With a cap of at least 250 ms and a random factor in [0, 1), the delay
    before the k-th reconnect attempt is at least 250 ms and less than the cap
    plus the 250 ms of jitter (exact arithmetic). *)
Theorem reconnect_delay_bounds (k : Z) (cap r : Q) :
  0 <= k -> (250 <= cap)%Q -> (0 <= r)%Q -> (r < 1)%Q ->
  (250 <= reconnect_delay cap (inject_Z (2 ^ k)) r)%Q /\
  (reconnect_delay cap (inject_Z (2 ^ k)) r < cap + 250)%Q.
Proof.
  intros Hk Hcap Hr0 Hr1. unfold reconnect_delay. cbn. unfold nint. cbn.
  change (inject_Z (250 * 10 ^ 0)) with 250%Q.
  assert (Hp : (1 <= inject_Z (2 ^ k))%Q).
  { change 1%Q with (inject_Z 1). rewrite <- Zle_Qle.
    assert (0 < 2 ^ k) by (apply Z.pow_pos_nonneg; lia). lia. }
  destruct (Qltb (250 * inject_Z (2 ^ k)) cap) eqn:E.
  - apply Qltb_lt in E. split; lra.
  - apply Qltb_ge in E. split; lra.
Qed.

Lemma reconnect_delay_bounds_witness :
  (250 <= reconnect_delay 10000 (inject_Z (2 ^ 7)) (1 # 2))%Q /\
  (reconnect_delay 10000 (inject_Z (2 ^ 7)) (1 # 2) < 10000 + 250)%Q.
Proof. apply (reconnect_delay_bounds 7 10000 (1 # 2)); [lia|lra|lra|lra]. Defined.

(** ** The abandoned socket *)

Definition race_acts : list action :=
  [inl CConnect; inl (COn 0); inl (CSubscribe "orderbook.btc-usd"); inr (EvClose 0 true 1006);
   inl (CSetToken (Some "jwt1")); inr (EvOpen 1);
   inl (CSetToken (Some "jwt2")); inr (EvTimer 0); inr (EvClose 1 false 1000); inr (EvOpen 2);
   inr (EvTimer 1); inr (EvOpen 3);
   inr (EvMessage 2 (Some (MTrade (mkWsTrade "trades.btc-usd" "x" "1" "1" buy "0"))));
   inr (EvMessage 3 (Some (MTrade (mkWsTrade "trades.btc-usd" "x" "1" "1" buy "0"))))].

(** A token change that overlaps a pending reconnect timer abandons a live
    socket: there is a run of the client after which two of its sockets are
    open and subscribed, only one of them is the current one, and a listener
    hears the same broadcast once per socket. *)
Theorem token_change_race_leaks_socket :
  exists w, run rnd0 true race_acts (new_world None browser0) = Some w /\
    c_ws (w_client w) = Some 3%nat /\
    sock_state 2 w = Some OPEN /\ sock_state 3 w = Some OPEN /\
    "orderbook.btc-usd" ∈ server_view (sent_on 2 w) /\
    "orderbook.btc-usd" ∈ server_view (sent_on 3 w) /\
    length (w_delivered w) = 2%nat /\ length (c_listeners (w_client w)) = 1%nat.
Proof.
  eexists. split; [vm_compute; reflexivity|]. repeat split; try (vm_compute; reflexivity);
    apply (bool_decide_unpack _); vm_compute; done.
Qed.
