(* ===== verification/LiveBook.v ===== *)
(** * The live-data hooks ([web/lib/ws/channels.ts])

    Each hook is the state React keeps for it, its effect and the listener
    the effect installs.  A hook talks to the WebSocket client only through
    the client's methods, so every operation returns the calls it makes, to
    be run on the client of [WsClient].

    [useLiveOrderbook] keeps two [Map]s, the last sequence number and the
    ladder it last rendered.  The refs live as long as the component; the
    variables [lastTsNs], [rafScheduled] and [cancelled] belong to one run of
    the effect, so an animation frame or a fetch of an earlier run acts with
    that run's variables on the current refs. *)

From S2P Require Import Prelude JsNum JsText FloatFacts JsColl Contract Browser WsClient.
From Stdlib Require Import SpecFloat Sorted.

(** ** Book maintenance *)

Definition qty_is_zero (qty : string) : bool :=
  String.eqb qty "0" || SFeqb (Number_of_string qty) num_zero.

Definition applyDelta (book : list OrderbookLevel) (levels : list OrderbookLevel) : list OrderbookLevel :=
  foldl (fun b l => if qty_is_zero l.2 then jm_delete l.1 b else jm_set l.1 l.2 b) book levels.

Record LiveOrderbook := mkLive {
  lv_bids : list OrderbookLevel;
  lv_asks : list OrderbookLevel;
  lv_sequence : Z;
  lv_tsNs : string
}.

(** [a] is placed after [b]: the comparator is positive. *)
Definition bid_after (a b : OrderbookLevel) : bool :=
  SFltb num_zero (num_sub (Number_of_string b.1) (Number_of_string a.1)).
Definition ask_after (a b : OrderbookLevel) : bool :=
  SFltb num_zero (num_sub (Number_of_string a.1) (Number_of_string b.1)).

Definition ladder_depth : nat := 25.

Definition ladder (after : OrderbookLevel -> OrderbookLevel -> bool) (book : list OrderbookLevel) :
    list OrderbookLevel :=
  take ladder_depth (js_sort after book).

(** ** [useLiveOrderbook] *)

(** The variables of one run of the effect. *)
Record BookEffect := mkEffect {
  e_market : MarketId;
  e_lastTs : string;
  e_raf : bool;
  e_cancelled : bool
}.

Record BookHook := mkHook {
  h_state : option LiveOrderbook;
  h_bids : list OrderbookLevel;
  h_asks : list OrderbookLevel;
  h_seq : Z;
  h_effects : list BookEffect;
  (** Animation-frame callbacks the browser holds, by effect. *)
  h_frames : list nat;
  (** REST snapshots in flight, by effect. *)
  h_fetches : list nat;
  (** Poll intervals that are still armed, by effect. *)
  h_polls : list nat
}.

Definition new_hook : BookHook := mkHook None [] [] 0 [] [] [] [].

Definition book_channel (marketId : MarketId) : string := "orderbook." +:+ marketId.

Definition set_refs (bids asks : list OrderbookLevel) (seq : Z) (h : BookHook) : BookHook :=
  mkHook (h_state h) bids asks seq (h_effects h) (h_frames h) (h_fetches h) (h_polls h).
Definition upd_effect (i : nat) (f : BookEffect -> BookEffect) (h : BookHook) : BookHook :=
  mkHook (h_state h) (h_bids h) (h_asks h) (h_seq h) (alter f i (h_effects h))
    (h_frames h) (h_fetches h) (h_polls h).
Definition push_frame (i : nat) (h : BookHook) : BookHook :=
  mkHook (h_state h) (h_bids h) (h_asks h) (h_seq h) (h_effects h) (h_frames h ++ [i])
    (h_fetches h) (h_polls h).
Definition push_fetch (i : nat) (h : BookHook) : BookHook :=
  mkHook (h_state h) (h_bids h) (h_asks h) (h_seq h) (h_effects h) (h_frames h)
    (h_fetches h ++ [i]) (h_polls h).

(** The body of the effect: reset the refs, install the listener, subscribe,
    start the first fetch and the poll.  The effect's index is its listener. *)
Definition mount_book (marketId : MarketId) (h : BookHook) : BookHook * list call :=
  let i := length (h_effects h) in
  (mkHook (h_state h) [] [] 0 (h_effects h ++ [mkEffect marketId "0" false false])
     (h_frames h) (h_fetches h ++ [i]) (h_polls h ++ [i]),
   [COn i; CSubscribe (book_channel marketId)]).

(** The cleanup the effect returns. *)
Definition unmount_book (i : nat) (h : BookHook) : BookHook * list call :=
  match h_effects h !! i with
  | None => (h, [])
  | Some e =>
      let h1 := upd_effect i (fun e => mkEffect (e_market e) (e_lastTs e) (e_raf e) true) h in
      (mkHook (h_state h1) (h_bids h1) (h_asks h1) (h_seq h1) (h_effects h1) (h_frames h1)
         (h_fetches h1) (js_del i (h_polls h1)),
       [CUnsubscribe (book_channel (e_market e)); COff i])
  end.

Definition scheduleFlush (i : nat) (tsNs : string) (h : BookHook) : BookHook :=
  match h_effects h !! i with
  | None => h
  | Some e =>
      let h1 := upd_effect i (fun e => mkEffect (e_market e) tsNs (e_raf e) (e_cancelled e)) h in
      if e_raf e then h1
      else push_frame i (upd_effect i (fun e => mkEffect (e_market e) (e_lastTs e) true (e_cancelled e)) h1)
  end.

(** [flush]: the callback of effect [i]. *)
Definition flush (i : nat) (h : BookHook) : BookHook :=
  match h_effects h !! i with
  | None => h
  | Some e =>
      let h1 := upd_effect i (fun e => mkEffect (e_market e) (e_lastTs e) false (e_cancelled e)) h in
      mkHook (Some (mkLive (ladder bid_after (h_bids h)) (ladder ask_after (h_asks h))
                      (h_seq h) (e_lastTs e)))
        (h_bids h1) (h_asks h1) (h_seq h1) (h_effects h1) (h_frames h1) (h_fetches h1) (h_polls h1)
  end.

(** The listener of effect [i]. *)
Definition onBookMessage (i : nat) (m : WsMessage) (h : BookHook) : BookHook * list call :=
  match h_effects h !! i with
  | None => (h, [])
  | Some e =>
      let channel := book_channel (e_market e) in
      if negb (bool_decide (msg_channel m = Some channel)) then (h, [])
      else match m with
      | MSnapshot snap =>
          (scheduleFlush i (ws_tsNs snap)
             (set_refs (jm_of_entries (ws_bids snap)) (jm_of_entries (ws_asks snap)) (ws_sequence snap) h),
           [])
      | MDelta d =>
          if negb (wd_sequence d =? h_seq h + 1) && negb (h_seq h =? 0) then
            (h, [CUnsubscribe channel; CSubscribe channel])
          else
            (scheduleFlush i (wd_tsNs d)
               (set_refs (applyDelta (h_bids h) (wd_bids d)) (applyDelta (h_asks h) (wd_asks d))
                  (wd_sequence d) h),
             [])
      | _ => (h, [])
      end
  end.

(** [seedFromRest] once [api.orderbook] settles; [None] is a rejected fetch. *)
Definition onRestSnapshot (i : nat) (reply : option OrderbookSnapshot) (h : BookHook) : BookHook :=
  match h_effects h !! i, reply with
  | Some e, Some snap =>
      if e_cancelled e || negb (String.eqb (os_marketId snap) (e_market e)) then h
      else scheduleFlush i (os_tsNs snap)
             (set_refs (jm_of_entries (os_bids snap)) (jm_of_entries (os_asks snap)) (os_sequence snap) h)
  | _, _ => h
  end.

(** ** The hook's inputs *)

Inductive book_event :=
| BMount (marketId : MarketId)
| BUnmount (i : nat)
| BMessage (i : nat) (m : WsMessage)
| BFrame (i : nat)
| BRest (i : nat) (reply : option OrderbookSnapshot)
| BPoll (i : nat).

Fixpoint remove_one (i : nat) (l : list nat) : list nat :=
  match l with
  | [] => []
  | j :: l' => if Nat.eqb i j then l' else j :: remove_one i l'
  end.

(** [None]: the browser holds no such callback. *)
Definition book_step (e : book_event) (h : BookHook) : option (BookHook * list call) :=
  match e with
  | BMount m => Some (mount_book m h)
  | BUnmount i => Some (unmount_book i h)
  | BMessage i m =>
      (* the cleanup removes the listener *)
      match h_effects h !! i with
      | Some ef => if e_cancelled ef then None else Some (onBookMessage i m h)
      | None => None
      end
  | BFrame i =>
      if bool_decide (i ∈ h_frames h) then
        Some (flush i (mkHook (h_state h) (h_bids h) (h_asks h) (h_seq h) (h_effects h)
                         (remove_one i (h_frames h)) (h_fetches h) (h_polls h)), [])
      else None
  | BRest i r =>
      if bool_decide (i ∈ h_fetches h) then
        Some (onRestSnapshot i r (mkHook (h_state h) (h_bids h) (h_asks h) (h_seq h) (h_effects h)
                                    (h_frames h) (remove_one i (h_fetches h)) (h_polls h)), [])
      else None
  | BPoll i => if bool_decide (i ∈ h_polls h) then Some (push_fetch i h, []) else None
  end.

Fixpoint book_run (es : list book_event) (h : BookHook) : option (BookHook * list call) :=
  match es with
  | [] => Some (h, [])
  | e :: es' =>
      match book_step e h with
      | Some (h1, cs1) =>
          match book_run es' h1 with
          | Some (h2, cs2) => Some (h2, cs1 ++ cs2)
          | None => None
          end
      | None => None
      end
  end.

(** ** The other hooks *)

(** [useLiveTrades(marketId, max)]: the listener and the cleanup. *)
Definition trades_channel (marketId : MarketId) : string := "trades." +:+ marketId.

Definition onTradeMessage (marketId : MarketId) (max : nat) (m : WsMessage) (prev : list WsTrade) :
    list WsTrade :=
  match m with
  | MTrade t => if String.eqb (wt_channel t) (trades_channel marketId) then take max (t :: prev) else prev
  | _ => prev
  end.

(** [useLiveOracle] and [useLiveFunding]. *)
Definition oracle_channel (marketId : MarketId) : string := "oracle." +:+ marketId.
Definition funding_channel (marketId : MarketId) : string := "funding." +:+ marketId.

Definition onOracleMessage (marketId : MarketId) (m : WsMessage) (prev : option WsOracle) : option WsOracle :=
  match m with
  | MOracle o => if String.eqb (wo_channel o) (oracle_channel marketId) then Some o else prev
  | _ => prev
  end.

Definition onFundingMessage (marketId : MarketId) (m : WsMessage) (prev : option WsFunding) : option WsFunding :=
  match m with
  | MFunding f => if String.eqb (wf_channel f) (funding_channel marketId) then Some f else prev
  | _ => prev
  end.

(** [useAccountStream(wallet, handler)]: the messages handed to the handler. *)
Definition account_channel (wallet : string) : string := "account." +:+ toLowerCase wallet.

Definition onAccountMessage (m : WsMessage) (handled : list WsAccountMessage) : list WsAccountMessage :=
  match m with
  | MAccount a => handled ++ [a]
  | _ => handled
  end.

(** The calls an effect with listener [l] on [channel] makes, and its cleanup. *)
Definition effect_calls (channel : string) (l : nat) : list call := [COn l; CSubscribe channel].
Definition cleanup_calls (channel : string) (l : nat) : list call := [CUnsubscribe channel; COff l].

Definition account_effect (wallet : option string) (l : nat) : list call :=
  match wallet with
  | Some w => if str_truthy w then effect_calls (account_channel w) l else []
  | None => []
  end.

(** Running a hook's calls on the client. *)
Definition run_calls (rnd : nat -> number) (url_ok : bool) (cs : list call) (w : World) : World :=
  foldl (fun w k => run_call rnd url_ok k w) w cs.
