(* ===== verification/LiveBookThms.v ===== *)
(** * What the live book guarantees

    The abstract book is a finite map from price to quantity that the server
    owns; [feed] is its history, one revision per sequence number.  The hook
    refines it: whatever frames it receives, late, repeated or out of order,
    the ladder it renders is the ladder of one revision of the server's book,
    provided the first frame it applies is a snapshot. *)

From S2P Require Import Prelude JsNum JsText FloatFacts JsColl Contract Browser WsClient WsClientFacts LiveBook.
From Stdlib Require Import SpecFloat Sorted.
From stdpp Require Import gmap strings sorting.
#[local] Open Scope Z_scope.

(** ** The abstract book *)

Abbreviation Book := (gmap string string).

Definition book_delta (b : Book) (levels : list OrderbookLevel) : Book :=
  foldl (fun b l => if qty_is_zero l.2 then delete l.1 b else <[l.1 := l.2]> b) b levels.

(** The concrete [Map] represents the abstract book. *)
Definition represents (m : list OrderbookLevel) (b : Book) : Prop :=
  jm_wf m /\ forall p, jm_get p m = b !! p.

Lemma applyDelta_represents m b levels :
  represents m b -> represents (applyDelta m levels) (book_delta b levels).
Proof.
  revert m b. induction levels as [|[p q] levels IH]; simpl; intros m b [Hwf Hg]; [done|].
  apply IH. destruct (qty_is_zero q).
  - split; [by apply jm_delete_wf|]. intros p'. rewrite jm_get_delete, Hg.
    case_decide; by simplify_map_eq.
  - split; [by apply jm_set_wf|]. intros p'. rewrite jm_get_set, Hg.
    case_decide; by simplify_map_eq.
Qed.

Lemma represents_elem m b p q : represents m b -> (p, q) ∈ m <-> b !! p = Some q.
Proof. intros [Hwf Hg]. by rewrite <- Hg, jm_get_elem. Qed.

Lemma represents_perm m b : represents m b -> m ≡ₚ map_to_list b.
Proof.
  intros Hr. apply NoDup_Permutation.
  - destruct Hr as [Hwf _]. by apply NoDup_fmap_1 in Hwf.
  - apply NoDup_map_to_list.
  - intros [p q]. rewrite (represents_elem m b p q Hr). symmetry. apply elem_of_map_to_list.
Qed.

(** ** The ladder *)

Definition price_finite (l : OrderbookLevel) : Prop := num_isFinite (Number_of_string l.1) = true.

(** [better a b]: a strictly better price for the side. *)
Definition bid_better (a b : OrderbookLevel) : bool := SFltb (Number_of_string b.1) (Number_of_string a.1).
Definition ask_better (a b : OrderbookLevel) : bool := SFltb (Number_of_string a.1) (Number_of_string b.1).

Lemma bid_after_better a b : price_finite a -> price_finite b -> bid_after a b = bid_better b a.
Proof. intros. apply num_sub_pos; auto using Number_of_string_valid. Qed.
Lemma ask_after_better a b : price_finite a -> price_finite b -> ask_after a b = ask_better b a.
Proof. intros. apply num_sub_pos; auto using Number_of_string_valid. Qed.

Lemma not_better_trans (f : OrderbookLevel -> number) a b c :
  num_isNaN (f a) = false -> num_isNaN (f b) = false -> num_isNaN (f c) = false ->
  SFltb (f b) (f a) = false -> SFltb (f c) (f b) = false -> SFltb (f c) (f a) = false.
Proof.
  intros Ha Hb Hc. rewrite !num_ltb_negb_leb, !negb_false_iff by done.
  intros H1 H2. by eapply num_leb_trans.
Qed.

Lemma better_asym (x y : number) : SFltb x y = true -> SFltb y x = false.
Proof.
  intros (Hx & Hy & Hk)%num_ltb_key. apply not_true_iff_false. intros (_ & _ & Hk')%num_ltb_key.
  eapply key_lt_irrefl, key_lt_trans; eauto.
Qed.

Lemma price_not_nan l : price_finite l -> num_isNaN (Number_of_string l.1) = false.
Proof. unfold price_finite. by destruct (Number_of_string l.1). Qed.

Lemma bid_consistent : gt_consistent bid_after price_finite.
Proof.
  split.
  - intros x y Hx Hy. rewrite !bid_after_better by done. apply better_asym.
  - intros x y z Hx Hy Hz. rewrite !bid_after_better by done. unfold bid_better. intros H1 H2.
    apply (not_better_trans (fun l => Number_of_string l.1) z y x); auto using price_not_nan.
Qed.

Lemma ask_consistent : gt_consistent ask_after price_finite.
Proof.
  split.
  - intros x y Hx Hy. rewrite !ask_after_better by done. apply better_asym.
  - intros x y z Hx Hy Hz. rewrite !ask_after_better by done. unfold ask_better. intros H1 H2.
    apply (not_better_trans (fun l => Number_of_string l.1) x y z); auto using price_not_nan.
Qed.

(** The contract of a rendered ladder: levels of the book, best first, no
    duplicate price, all of them when they fit in [depth], and otherwise no
    level left out is better than one shown. *)
Record ladder_of (depth : nat) (better : OrderbookLevel -> OrderbookLevel -> bool) (b : Book)
    (l : list OrderbookLevel) : Prop := {
  lo_sorted : StronglySorted (fun x y => better y x = false) l;
  lo_nodup : NoDup (l.*1);
  lo_sound : forall p q, (p, q) ∈ l -> b !! p = Some q;
  lo_length : length l = Nat.min depth (size b);
  lo_best : forall p q x, b !! p = Some q -> (p, q) ∉ l -> x ∈ l -> better (p, q) x = false
}.

Definition prices_finite (b : Book) : Prop := forall p q, b !! p = Some q -> price_finite (p, q).

Lemma StronglySorted_impl_in {A} (R R' : A -> A -> Prop) (P : A -> Prop) l :
  Forall P l -> (forall x y, P x -> P y -> R x y -> R' x y) -> StronglySorted R l -> StronglySorted R' l.
Proof.
  intros HP HR. induction 1 as [|x l Hs IH Hfa]; constructor; apply Forall_cons in HP as [Hx HP].
  - by apply IH.
  - rewrite Forall_forall in *. intros y Hy. apply HR; auto.
Qed.

Lemma StronglySorted_app_rel {A} (R : A -> A -> Prop) l1 l2 x y :
  StronglySorted R (l1 ++ l2) -> x ∈ l1 -> y ∈ l2 -> R x y.
Proof.
  induction l1 as [|a l1 IH]; simpl; intros Hs Hx Hy; [set_solver|].
  apply StronglySorted_inv in Hs as [Hs Hfa]. apply elem_of_cons in Hx as [->|Hx]; [|by apply IH].
  rewrite Forall_forall in Hfa. apply Hfa. set_solver.
Qed.

Lemma StronglySorted_prefix {A} (R : A -> A -> Prop) l1 l2 :
  StronglySorted R (l1 ++ l2) -> StronglySorted R l1.
Proof.
  induction l1 as [|a l1 IH]; simpl; intros Hs; [constructor|].
  apply StronglySorted_inv in Hs as [Hs Hfa]. constructor; [by apply IH|].
  by apply Forall_app in Hfa as [? _].
Qed.

Section Ladder.
Context (after better : OrderbookLevel -> OrderbookLevel -> bool).
Hypothesis after_better : forall a b, price_finite a -> price_finite b -> after a b = better b a.
Hypothesis consistent : gt_consistent after price_finite.

Lemma ladder_correct n m b :
  represents m b -> prices_finite b -> ladder_of n better b (take n (js_sort after m)).
Proof.
  intros Hr Hfin.
  assert (HP : Forall price_finite m).
  { apply Forall_forall. intros [p q] Hin. apply (Hfin p q). by apply (represents_elem m b). }
  assert (HPs : Forall price_finite (js_sort after m)) by (by rewrite js_sort_perm).
  pose proof (js_sort_sorted after consistent m HP) as Hs.
  apply (StronglySorted_impl_in _ (fun x y => better y x = false) price_finite) in Hs; [|done|].
  2:{ intros x y Hx Hy. by rewrite after_better. }
  pose proof (take_drop n (js_sort after m)) as Hsplit.
  rewrite <- Hsplit in Hs. split.
  - by eapply StronglySorted_prefix.
  - destruct Hr as [Hwf _]. unfold jm_wf, jm_keys in Hwf. rewrite <- (js_sort_perm after), <- Hsplit in Hwf.
    rewrite fmap_app in Hwf. by apply NoDup_app in Hwf as [? _].
  - intros p q Hin. apply (represents_elem m b p q Hr). rewrite <- (js_sort_perm after), <- Hsplit. set_solver.
  - rewrite length_take, (Permutation_length (js_sort_perm after m)).
    rewrite (Permutation_length (represents_perm m b Hr)). f_equal. apply length_map_to_list.
  - intros p q x Hb Hnin Hx. apply (represents_elem m b p q Hr) in Hb.
    rewrite <- (js_sort_perm after), <- Hsplit in Hb. apply elem_of_app in Hb as [Hb|Hb]; [done|].
    apply (StronglySorted_app_rel _ _ _ x (p, q) Hs); done.
Qed.
End Ladder.

Lemma bid_ladder_correct n m b :
  represents m b -> prices_finite b -> ladder_of n bid_better b (take n (js_sort bid_after m)).
Proof. apply ladder_correct; [apply bid_after_better | apply bid_consistent]. Qed.
Lemma ask_ladder_correct n m b :
  represents m b -> prices_finite b -> ladder_of n ask_better b (take n (js_sort ask_after m)).
Proof. apply ladder_correct; [apply ask_after_better | apply ask_consistent]. Qed.

(** ** The server's history *)

Record Feed := mkFeed {
  fd_bids : Z -> Book;
  fd_asks : Z -> Book;
  fd_delta : Z -> list OrderbookLevel * list OrderbookLevel
}.

(** Revision [k + 1] is revision [k] with delta [k + 1] applied. *)
Definition feed_ok (f : Feed) : Prop :=
  forall k, 0 < k ->
    fd_bids f (k + 1) = book_delta (fd_bids f k) (fd_delta f (k + 1)).1 /\
    fd_asks f (k + 1) = book_delta (fd_asks f k) (fd_delta f (k + 1)).2.

(** A snapshot of a side, whole or cut at some depth: levels of the book, no
    price twice, and no level left out is better than one in it. *)
Record top_levels (better : OrderbookLevel -> OrderbookLevel -> bool) (b : Book) (shown : list OrderbookLevel) : Prop := {
  tl_nodup : NoDup (shown.*1);
  tl_sound : forall p q, (p, q) ∈ shown -> b !! p = Some q;
  tl_best : forall p q x, b !! p = Some q -> (p, q) ∉ shown -> x ∈ shown -> better (p, q) x = false
}.

Definition snapshot_of (f : Feed) (seq : Z) (bids asks : list OrderbookLevel) : Prop :=
  0 < seq /\ top_levels bid_better (fd_bids f seq) bids /\ top_levels ask_better (fd_asks f seq) asks.

(** The client's levels are levels of the server, and it has every level of
    the server at the prices [P]. *)
Definition covers (P : string -> Prop) (client server : Book) : Prop :=
  client ⊆ server /\ forall p q, P p -> server !! p = Some q -> client !! p = Some q.

Lemma covers_delta_touched levels : forall P client server,
  covers P client server ->
  covers (fun p => P p \/ p ∈ levels.*1) (book_delta client levels) (book_delta server levels).
Proof.
  induction levels as [|[p q] levels IH]; intros P client server [Hs Hc]; simpl.
  - split; [done|]. intros p' q' [Hp|Hp]; [by apply Hc|set_solver].
  - assert (H1 : covers (fun p' => (P p' \/ p' = p)) (if qty_is_zero q then delete p client else <[p:=q]> client)
                   (if qty_is_zero q then delete p server else <[p:=q]> server)).
    { destruct (qty_is_zero q).
      - split; [by apply delete_mono|]. intros p' q' Hp. rewrite !lookup_delete_Some. naive_solver.
      - split; [by apply insert_mono|]. intros p' q' Hp. rewrite !lookup_insert_Some. naive_solver. }
    destruct (IH _ _ _ H1) as [H2 H3]. split; [done|]. intros p' q' Hp. apply H3. set_solver.
Qed.

Lemma covers_delta P client server levels :
  covers P client server -> covers P (book_delta client levels) (book_delta server levels).
Proof.
  intros H. destruct (covers_delta_touched levels P client server H) as [H1 H2]. split; [done|]. intros p q Hp. apply H2. auto.
Qed.

(** The prices at which a client that got [shown] knows the server's book:
    all of them if the snapshot was whole, and otherwise those better than a
    level shown and those that deltas touched since. *)
Definition settled_price (better : OrderbookLevel -> OrderbookLevel -> bool) (server : Book)
    (shown : list OrderbookLevel) (touched : string -> Prop) (p : string) : Prop :=
  (size server <= length shown)%nat \/ (exists x, x ∈ shown /\ better (p, "") x = true) \/ touched p.

Lemma top_levels_cover (better : OrderbookLevel -> OrderbookLevel -> bool) server shown touched :
  (forall p q q' x, better (p, q) x = better (p, q') x) -> (forall p, ~ touched p) ->
  top_levels better server shown ->
  covers (settled_price better server shown touched) (list_to_map shown) server.
Proof.
  intros Hprice Ht [Lnodup Lsound Lbest].
  assert (Hl : forall p q, (list_to_map shown : Book) !! p = Some q <-> (p, q) ∈ shown).
  { intros p q. split; [apply elem_of_list_to_map_2 | by apply elem_of_list_to_map_1]. }
  split.
  - apply map_subseteq_spec. intros p q Hp. apply Lsound. by apply Hl.
  - intros p q Hset Hq. apply Hl. destruct (decide ((p, q) ∈ shown)) as [|Hn]; [done|exfalso].
    destruct Hset as [Hsz|[(x & Hx & Hb)|Htp]]; [| |by eapply Ht].
    + assert (Hperm : shown ≡ₚ map_to_list server).
      { apply submseteq_length_Permutation.
        - apply NoDup_submseteq; [by apply NoDup_fmap_1 in Lnodup|].
          intros [p' q'] Hin. apply elem_of_map_to_list. by apply Lsound.
        - transitivity (size server); [|done]. rewrite <- length_map_to_list. apply Nat.le_refl. }
      apply Hn. rewrite Hperm. by apply elem_of_map_to_list.
    + specialize (Lbest p q x Hq Hn Hx). rewrite (Hprice p q "" x) in Lbest. congruence.
Qed.

(** A ladder of a book known at the prices [P]: its levels are the book's,
    best first, and none left out at such a price is better than one shown;
    below [depth] levels, none at such a price is left out. *)
Record ladder_within (P : string -> Prop) (depth : nat) (better : OrderbookLevel -> OrderbookLevel -> bool) (b : Book)
    (l : list OrderbookLevel) : Prop := {
  lw_sorted : StronglySorted (fun x y => better y x = false) l;
  lw_nodup : NoDup (l.*1);
  lw_sound : forall p q, (p, q) ∈ l -> b !! p = Some q;
  lw_length : (length l <= depth)%nat;
  lw_best : forall p q x, P p -> b !! p = Some q -> (p, q) ∉ l -> x ∈ l -> better (p, q) x = false;
  lw_full : (length l < depth)%nat -> forall p q, P p -> b !! p = Some q -> (p, q) ∈ l
}.

Lemma ladder_size_full depth better b l :
  ladder_of depth better b l -> (length l < depth)%nat -> forall p q, b !! p = Some q -> (p, q) ∈ l.
Proof.
  intros [_ Lnodup Lsound Llen _] Hlt p q Hp.
  assert (Hperm : l ≡ₚ map_to_list b).
  { apply submseteq_length_Permutation.
    - apply NoDup_submseteq; [by apply NoDup_fmap_1 in Lnodup|].
      intros [p' q'] Hin. apply elem_of_map_to_list. by apply Lsound.
    - transitivity (size b); [rewrite <- length_map_to_list; apply Nat.le_refl|lia]. }
  rewrite Hperm. by apply elem_of_map_to_list.
Qed.

Lemma covers_ladder_within P client server depth better l :
  covers P client server -> ladder_of depth better client l -> ladder_within P depth better server l.
Proof.
  intros [Hs Hc] Hl. pose proof (ladder_size_full _ _ _ _ Hl) as Hfull. destruct Hl as [L1 L2 L3 L4 L5].
  split; [done|done| |lia| |].
  - intros p q Hin. eapply lookup_weaken; [by apply L3|done].
  - intros p q x Hp Hq. apply L5. by apply Hc.
  - intros Hlt p q Hp Hq. apply Hfull; [done|]. by apply Hc.
Qed.

(** With nothing unknown it is the ladder. *)
Lemma ladder_within_all P depth better b l :
  (forall p, P p) -> ladder_within P depth better b l -> ladder_of depth better b l.
Proof.
  intros HP [L1 L2 L3 L4 L5 L6].
  assert (Hsub : l ⊆+ map_to_list b).
  { apply NoDup_submseteq; [by apply NoDup_fmap_1 in L2|]. intros [p q] Hin. apply elem_of_map_to_list. by apply L3. }
  split; [done|done|done| |auto].
  assert (Hle : (length l <= size b)%nat).
  { transitivity (length (map_to_list b)); [by apply submseteq_length|]. rewrite <- length_map_to_list. apply Nat.le_refl. }
  destruct (decide (length l < depth)%nat) as [Hlt|]; [|lia].
  assert (Hge : (size b <= length l)%nat).
  { transitivity (length (map_to_list b)); [rewrite <- length_map_to_list; apply Nat.le_refl|].
    apply submseteq_length, NoDup_submseteq; [apply NoDup_map_to_list|]. intros [p q] Hin%elem_of_map_to_list. by apply L6. }
  lia.
Qed.

(** A frame or reply that really comes from the feed, in any order. *)
Definition authentic (f : Feed) (mkt : MarketId) (e : book_event) : Prop :=
  match e with
  | BMessage _ (MSnapshot s) =>
      ws_channel s = book_channel mkt -> snapshot_of f (ws_sequence s) (ws_bids s) (ws_asks s)
  | BMessage _ (MDelta d) =>
      wd_channel d = book_channel mkt -> 0 < wd_sequence d /\ fd_delta f (wd_sequence d) = (wd_bids d, wd_asks d)
  | BRest _ (Some s) =>
      os_marketId s = mkt -> snapshot_of f (os_sequence s) (os_bids s) (os_asks s)
  | BMount _ | BUnmount _ => False
  | _ => True
  end.

(** No delta of the market is delivered before a snapshot of it. *)
Fixpoint snapshot_first (mkt : MarketId) (es : list book_event) : bool :=
  match es with
  | [] => true
  | BMessage _ (MSnapshot s) :: es' => String.eqb (ws_channel s) (book_channel mkt) || snapshot_first mkt es'
  | BRest _ (Some s) :: es' => String.eqb (os_marketId s) mkt || snapshot_first mkt es'
  | BMessage _ (MDelta d) :: es' => negb (String.eqb (wd_channel d) (book_channel mkt)) && snapshot_first mkt es'
  | _ :: es' => snapshot_first mkt es'
  end.

Lemma represents_list_to_map es b :
  NoDup (es.*1) -> list_to_map es = b -> represents (jm_of_entries es) b.
Proof.
  intros Hnd <-. split; [apply jm_of_entries_wf|]. intros p. rewrite jm_of_entries_get by done.
  clear Hnd. induction es as [|[k v] es IH]; simpl; [done|]. case_decide; by simplify_map_eq.
Qed.

(** ** Frames *)

Definition effect_raf (h : BookHook) (i : nat) : bool :=
  match h_effects h !! i with Some e => e_raf e | None => false end.

(** Every scheduled flag has its one callback and the other way round. *)
Definition frames_ok (h : BookHook) : Prop :=
  NoDup (h_frames h) /\ forall i, i ∈ h_frames h <-> effect_raf h i = true.

Lemma effect_raf_upd h i f j :
  effect_raf (upd_effect i f h) j =
  match h_effects h !! j with
  | Some e => if decide (i = j) then e_raf (f e) else e_raf e
  | None => false
  end.
Proof.
  unfold effect_raf, upd_effect; simpl. case_decide; subst.
  - rewrite list_lookup_alter_eq. by destruct (h_effects h !! j).
  - rewrite list_lookup_alter_ne by done. by destruct (h_effects h !! j).
Qed.

Lemma frames_ok_ext h h' :
  h_frames h' = h_frames h -> (forall i, effect_raf h' i = effect_raf h i) -> frames_ok h -> frames_ok h'.
Proof. intros E1 E2 [H1 H2]. split; rewrite E1; [done|]. intros i. by rewrite E2. Qed.

Lemma scheduleFlush_frames i ts h : frames_ok h -> frames_ok (scheduleFlush i ts h).
Proof.
  intros Hok. unfold scheduleFlush. destruct (h_effects h !! i) as [e|] eqn:Ei; [|done].
  destruct (e_raf e) eqn:Er.
  - eapply frames_ok_ext; [..|exact Hok]; [done|]. intros j. rewrite effect_raf_upd. unfold effect_raf.
    case_decide; subst; by destruct (h_effects h !! _).
  - destruct Hok as [Hnd Hiff].
    assert (Hni : i ∉ h_frames h). { rewrite Hiff. unfold effect_raf. by rewrite Ei, Er. }
    split; simpl.
    + apply NoDup_app. split; [done|]. split; [set_solver|apply NoDup_singleton].
    + intros j. rewrite elem_of_app, list_elem_of_singleton, Hiff.
      change (effect_raf (push_frame i ?x) j) with (effect_raf x j).
      rewrite effect_raf_upd. simpl. unfold effect_raf.
      destruct (decide (i = j)) as [->|Hne].
      * rewrite list_lookup_alter_eq, Ei. simpl. naive_solver.
      * rewrite list_lookup_alter_ne by done. destruct (h_effects h !! j); naive_solver.
Qed.

Lemma remove_one_NoDup i l : NoDup l -> NoDup (remove_one i l) /\ forall j, j ∈ remove_one i l <-> j <> i /\ j ∈ l.
Proof.
  induction 1 as [|x l Hx Hnd [IH1 IH2]]; simpl; [split; [constructor|set_solver]|].
  destruct (Nat.eqb_spec i x) as [->|Hne]; [split; [done|set_solver]|].
  split; [constructor; [rewrite IH2; naive_solver|done]|set_solver].
Qed.

Lemma book_step_frames e h h' cs : frames_ok h -> book_step e h = Some (h', cs) -> frames_ok h'.
Proof.
  intros Hok Hs. destruct e as [mkt|i|i m|i|i r|i]; simpl in Hs.
  - injection Hs as <- <-. destruct Hok as [Hnd Hiff]. split; simpl; [done|]. intros j.
    rewrite Hiff. unfold effect_raf; simpl. destruct (h_effects h !! j) eqn:Ej.
    + by rewrite (lookup_app_l_Some _ _ _ _ Ej).
    + rewrite lookup_app_r by (by apply lookup_ge_None). by destruct (j - _)%nat as [|[]].
  - injection Hs as Hs. unfold unmount_book in Hs. destruct (h_effects h !! i) eqn:Ei; [|by injection Hs as <- <-].
    injection Hs as <- <-. eapply frames_ok_ext; [..|exact Hok]; [done|]. intros j.
    change (effect_raf (upd_effect i (fun e => mkEffect (e_market e) (e_lastTs e) (e_raf e) true) h) j = effect_raf h j).
    rewrite effect_raf_upd. unfold effect_raf. destruct (h_effects h !! j); [by case_decide|done].
  - destruct (h_effects h !! i) as [ef|] eqn:Ei; [|done]. destruct (e_cancelled ef); [done|].
    injection Hs as Hs. unfold onBookMessage in Hs. rewrite Ei in Hs.
    destruct (negb _); [by injection Hs as <- <-|].
    destruct m; try (by injection Hs as <- <-).
    + injection Hs as <- <-. by apply scheduleFlush_frames.
    + destruct (_ && _); injection Hs as <- <-; [done|]. by apply scheduleFlush_frames.
  - case_bool_decide as Hin; [|done]. injection Hs as <- <-. destruct Hok as [Hnd Hiff].
    apply (remove_one_NoDup i) in Hnd as [Hnd Hrem].
    unfold flush; simpl. destruct (h_effects h !! i) as [ef|] eqn:Ei.
    2:{ apply Hiff in Hin. unfold effect_raf in Hin. by rewrite Ei in Hin. }
    split; simpl; [done|]. intros j. rewrite Hrem, Hiff. unfold effect_raf; simpl.
    destruct (decide (i = j)) as [<-|Hne].
    + rewrite list_lookup_alter_eq, Ei. simpl. naive_solver.
    + rewrite list_lookup_alter_ne by done. destruct (h_effects h !! j); naive_solver.
  - case_bool_decide; [|done]. injection Hs as <- <-. unfold onRestSnapshot; simpl.
    destruct (h_effects h !! i), r; try done. destruct (_ || _); [done|]. by apply scheduleFlush_frames.
  - case_bool_decide; [|done]. by injection Hs as <- <-.
Qed.

Lemma book_run_ind (P : BookHook -> Prop) es : 
  (forall e h h' cs, e ∈ es -> P h -> book_step e h = Some (h', cs) -> P h') ->
  forall h h' cs, P h -> book_run es h = Some (h', cs) -> P h'.
Proof.
  induction es as [|e es IH]; simpl; intros Hstep h h' cs Hh Hrun; [by simplify_eq|].
  destruct (book_step e h) as [[h1 cs1]|] eqn:Es; [|done].
  destruct (book_run es h1) as [[h2 cs2]|] eqn:Er; [|done]. injection Hrun as <- <-.
  apply (IH ltac:(set_solver) h1 h2 cs2); [|done]. eapply (Hstep e); [set_solver| |]; done.
Qed.

(** ** Refinement of the server's book *)

(** An event that brings a snapshot of the market. *)
Definition brings (mkt : MarketId) (seq : Z) (bids asks : list OrderbookLevel) (e : book_event) : Prop :=
  match e with
  | BMessage _ (MSnapshot s) => ws_channel s = book_channel mkt /\ (ws_sequence s, ws_bids s, ws_asks s) = (seq, bids, asks)
  | BRest _ (Some s) => os_marketId s = mkt /\ (os_sequence s, os_bids s, os_asks s) = (seq, bids, asks)
  | _ => False
  end.

Section Refinement.
Context (f : Feed) (mkt : MarketId) (seen : list book_event).
Hypothesis Hfeed : feed_ok f.
Hypothesis Hfin : forall k, prices_finite (fd_bids f k) /\ prices_finite (fd_asks f k).

Definition bid_touched (k0 k : Z) (p : string) : Prop := exists j, k0 < j <= k /\ p ∈ (fd_delta f j).1.*1.
Definition ask_touched (k0 k : Z) (p : string) : Prop := exists j, k0 < j <= k /\ p ∈ (fd_delta f j).2.*1.

(** The prices known at revision [k] to a client whose last snapshot is that
    of revision [k0]. *)
Definition settled_bid (k0 k : Z) (bids : list OrderbookLevel) : string -> Prop :=
  settled_price bid_better (fd_bids f k0) bids (bid_touched k0 k).
Definition settled_ask (k0 k : Z) (asks : list OrderbookLevel) : string -> Prop :=
  settled_price ask_better (fd_asks f k0) asks (ask_touched k0 k).

(** A rendered ladder is the ladder of revision [lv_sequence], as far as the
    snapshot and the deltas since tell; all of it, side by side, if the
    snapshot held the whole side. *)
Definition shows_revision (st : LiveOrderbook) : Prop :=
  let k := lv_sequence st in
  exists k0 bids asks e, e ∈ seen /\ brings mkt k0 bids asks e /\ 0 < k0 <= k /\
    ladder_within (settled_bid k0 k bids) ladder_depth bid_better (fd_bids f k) (lv_bids st) /\
    ladder_within (settled_ask k0 k asks) ladder_depth ask_better (fd_asks f k) (lv_asks st) /\
    ((size (fd_bids f k0) <= length bids)%nat -> ladder_of ladder_depth bid_better (fd_bids f k) (lv_bids st)) /\
    ((size (fd_asks f k0) <= length asks)%nat -> ladder_of ladder_depth ask_better (fd_asks f k) (lv_asks st)).

Definition refs_at (h : BookHook) : Prop :=
  exists k0 bids asks e cb ca, e ∈ seen /\ brings mkt k0 bids asks e /\ 0 < k0 <= h_seq h /\
    represents (h_bids h) cb /\ represents (h_asks h) ca /\
    covers (settled_bid k0 (h_seq h) bids) cb (fd_bids f (h_seq h)) /\
    covers (settled_ask k0 (h_seq h) asks) ca (fd_asks f (h_seq h)).

Definition one_effect (h : BookHook) : Prop :=
  exists ts raf, h_effects h = [mkEffect mkt ts raf false].

Definition rendered (h : BookHook) : Prop := forall st, h_state h = Some st -> shows_revision st.

(** Before the first snapshot nothing is applied and nothing is scheduled. *)
Definition waiting (h : BookHook) : Prop := h_frames h = [] /\ h_state h = None.

Definition tracking (h : BookHook) : Prop := frames_ok h /\ one_effect h /\ refs_at h /\ rendered h.

Lemma one_effect_upd h ts i g :
  one_effect h ->
  (forall e, e_market (g e) = e_market e /\ e_cancelled (g e) = e_cancelled e) ->
  one_effect (upd_effect i g h) /\ one_effect (scheduleFlush i ts h).
Proof.
  intros (ts0 & raf & He) Hg. unfold one_effect, scheduleFlush, push_frame, upd_effect; simpl. rewrite He. split.
  - destruct i as [|i]; simpl; [|by eauto].
    destruct (Hg (mkEffect mkt ts0 raf false)) as [H1 H2]. destruct (g _) as [a b c d] eqn:E; simpl in *.
    subst. by eauto.
  - destruct i as [|i]; simpl; [|by eauto]. destruct raf; simpl; by eauto.
Qed.

Lemma scheduleFlush_same i ts h :
  h_bids (scheduleFlush i ts h) = h_bids h /\ h_asks (scheduleFlush i ts h) = h_asks h /\
  h_seq (scheduleFlush i ts h) = h_seq h /\ h_state (scheduleFlush i ts h) = h_state h.
Proof. unfold scheduleFlush. destruct (h_effects h !! i); [|done]. by destruct (e_raf _). Qed.

Lemma tracking_schedule i ts h : tracking h -> tracking (scheduleFlush i ts h).
Proof.
  intros (H1 & H2 & H3 & H4). destruct (scheduleFlush_same i ts h) as (E1 & E2 & E3 & E4).
  split; [by apply scheduleFlush_frames|]. split; [by apply (one_effect_upd h ts i id)|].
  split; [unfold refs_at; by rewrite E1, E2, E3|]. intros st. rewrite E4. apply H4.
Qed.

Lemma tracking_snapshot h seq bids asks e :
  frames_ok h -> one_effect h -> rendered h -> snapshot_of f seq bids asks -> e ∈ seen -> brings mkt seq bids asks e ->
  tracking (set_refs (jm_of_entries bids) (jm_of_entries asks) seq h).
Proof.
  intros H1 H2 H3 (Hs & Tb & Ta) Hin Hbr.
  split; [done|]. split; [done|]. split; [|done].
  exists seq, bids, asks, e, (list_to_map bids), (list_to_map asks). simpl.
  split; [done|]. split; [done|]. split; [lia|].
  split; [apply represents_list_to_map; [apply Tb|done]|].
  split; [apply represents_list_to_map; [apply Ta|done]|].
  split; apply top_levels_cover; try done; intros p (j & Hj & _); lia.
Qed.

Lemma settled_next better (b0 : Book) shown (T T' : string -> Prop) (levels : list OrderbookLevel) p :
  (forall p, T' p -> T p \/ p ∈ levels.*1) ->
  settled_price better b0 shown T' p -> settled_price better b0 shown T p \/ p ∈ levels.*1.
Proof. unfold settled_price. intros HT [H|[H|H]]; [auto|auto|]. destruct (HT p H); auto. Qed.

Lemma tracking_delta h d :
  tracking h -> wd_sequence d = h_seq h + 1 -> fd_delta f (wd_sequence d) = (wd_bids d, wd_asks d) ->
  tracking (set_refs (applyDelta (h_bids h) (wd_bids d)) (applyDelta (h_asks h) (wd_asks d)) (wd_sequence d) h).
Proof.
  intros (H1 & H2 & (k0 & bids & asks & e & cb & ca & Hin & Hbr & Hs & Hb & Ha & Cb & Ca) & H4) Hq Hd.
  destruct (Hfeed (h_seq h) ltac:(lia)) as [Eb Ea]. rewrite Hq in Hd. rewrite Hd in Eb, Ea. simpl in Eb, Ea.
  split; [done|]. split; [done|]. split; [|done].
  exists k0, bids, asks, e, (book_delta cb (wd_bids d)), (book_delta ca (wd_asks d)). simpl. rewrite Hq, Eb, Ea.
  split; [done|]. split; [done|]. split; [lia|].
  split; [by apply applyDelta_represents|]. split; [by apply applyDelta_represents|].
  destruct (covers_delta_touched (wd_bids d) _ _ _ Cb) as [Sb Fb].
  destruct (covers_delta_touched (wd_asks d) _ _ _ Ca) as [Sa Fa].
  split; (split; [done|]); intros p q Hp; [apply Fb|apply Fa]; (eapply settled_next; [|exact Hp]);
    intros p' (j & Hj & Hpj); (destruct (decide (j = h_seq h + 1)) as [->|]; [right; by rewrite Hd in Hpj|]);
    left; exists j; (split; [lia|done]).
Qed.

Lemma flush_shows h st i :
  refs_at h -> rendered h -> h_state (flush i h) = Some st -> shows_revision st.
Proof.
  intros (k0 & bids & asks & e & cb & ca & Hin & Hbr & Hs & Hb & Ha & Cb & Ca) Hr. unfold flush.
  destruct (h_effects h !! i); [|apply Hr]. intros [= <-]. destruct (Hfin (h_seq h)) as [Fb Fa].
  exists k0, bids, asks, e. simpl. split; [done|]. split; [done|]. split; [done|].
  assert (Hsub : forall (P : string -> Prop) (c sv : Book), covers P c sv -> prices_finite sv -> prices_finite c).
  { intros P c sv [Hc _] Hf p q Hp. apply (Hf p q). by eapply lookup_weaken. }
  assert (Wb : ladder_within (settled_bid k0 (h_seq h) bids) ladder_depth bid_better (fd_bids f (h_seq h)) (ladder bid_after (h_bids h))).
  { eapply covers_ladder_within; [exact Cb|]. apply bid_ladder_correct; [done|]. by eapply Hsub. }
  assert (Wa : ladder_within (settled_ask k0 (h_seq h) asks) ladder_depth ask_better (fd_asks f (h_seq h)) (ladder ask_after (h_asks h))).
  { eapply covers_ladder_within; [exact Ca|]. apply ask_ladder_correct; [done|]. by eapply Hsub. }
  split; [done|]. split; [done|].
  split; intros Hwhole; (eapply ladder_within_all; [|eassumption]); intros p; by left.
Qed.

Lemma one_effect_lookup h i e :
  one_effect h -> h_effects h !! i = Some e -> i = 0%nat /\ e_market e = mkt /\ e_cancelled e = false.
Proof. intros (ts & raf & ->). destruct i as [|[]]; simpl; [|done..]. by intros [= <-]. Qed.

Lemma tracking_step e h h' cs :
  e ∈ seen -> authentic f mkt e -> tracking h -> book_step e h = Some (h', cs) -> tracking h'.
Proof.
  intros Hseen Hau Htr Hs. pose proof Htr as (H1 & H2 & H3 & H4).
  pose proof (book_step_frames e h h' cs H1 Hs) as Hfr.
  destruct e as [m|i|i m|i|i r|i]; simpl in Hs; [done|done|..].
  - destruct (h_effects h !! i) as [ef|] eqn:Ei; [|done].
    destruct (one_effect_lookup h i ef H2 Ei) as (-> & Em & Ec). rewrite Ec in Hs.
    injection Hs as Hs. unfold onBookMessage in Hs. rewrite Ei, Em in Hs.
    case_bool_decide as Hch; simpl in Hs; [|by injection Hs as <- <-].
    destruct m as [|s|d| | | |]; try (by injection Hs as <- <-); simpl in Hch, Hau; injection Hch as Hch.
    + injection Hs as <- <-. apply tracking_schedule. by eapply tracking_snapshot; eauto.
    + destruct (Hau Hch) as [_ Hd]. destruct (Z.eqb_spec (wd_sequence d) (h_seq h + 1)) as [Hq|Hq]; simpl in Hs.
      * injection Hs as <- <-. apply tracking_schedule, tracking_delta; auto.
      * destruct (Z.eqb_spec (h_seq h) 0) as [Hz|Hz]; simpl in Hs; [destruct H3 as (? & ? & ? & ? & ? & ? & ? & ? & ? & _); lia|].
        by injection Hs as <- <-.
  - case_bool_decide; [|done]. injection Hs as <- <-. split; [done|].
    set (h0 := mkHook (h_state h) (h_bids h) (h_asks h) (h_seq h) (h_effects h)
                       (remove_one i (h_frames h)) (h_fetches h) (h_polls h)) in *.
    split; [|split].
    + destruct H2 as (ts & raf & He). unfold one_effect, flush; simpl. rewrite He.
      destruct i as [|[]]; simpl; rewrite ?He; by eauto.
    + unfold flush. by destruct (h_effects h0 !! i).
    + intros st. by apply (flush_shows h0).
  - case_bool_decide; [|done]. injection Hs as <- <-.
    set (h0 := mkHook (h_state h) (h_bids h) (h_asks h) (h_seq h) (h_effects h) (h_frames h)
                       (remove_one i (h_fetches h)) (h_polls h)) in *.
    assert (Htr0 : tracking h0) by done. unfold onRestSnapshot in *.
    destruct (h_effects h0 !! i) as [ef|] eqn:Ei; [|done]. destruct r as [s|]; [|done].
    destruct (one_effect_lookup h0 i ef H2 Ei) as (-> & Em & Ec). rewrite Ec, Em in *.
    destruct (String.eqb_spec (os_marketId s) mkt) as [E|E]; simpl; [|done].
    apply tracking_schedule. by eapply tracking_snapshot; eauto.
  - case_bool_decide; [|done]. by injection Hs as <- <-.
Qed.

Lemma tracking_run es h h' cs :
  es ⊆ seen -> Forall (authentic f mkt) es -> tracking h -> book_run es h = Some (h', cs) -> tracking h'.
Proof.
  intros Hsub Hau. apply (book_run_ind tracking). intros e h1 h2 cs1 Hin. apply tracking_step; [by apply Hsub|].
  rewrite Forall_forall in Hau. by apply Hau.
Qed.

(** Mounted, and no snapshot yet. *)
Definition starting (h : BookHook) : Prop :=
  frames_ok h /\ one_effect h /\ h_frames h = [] /\ h_state h = None /\
  forall i, i ∈ h_fetches h \/ i ∈ h_polls h -> i = 0%nat.

Lemma starting_rendered h : starting h -> rendered h.
Proof. intros (_ & _ & _ & E & _) st. by rewrite E. Qed.

Lemma remove_one_sub i j l : j ∈ remove_one i l -> j ∈ l.
Proof. induction l as [|x l IH]; simpl; [done|]. destruct (Nat.eqb i x); set_solver. Qed.

Lemma starting_step e h h' cs :
  e ∈ seen -> authentic f mkt e -> starting h -> snapshot_first mkt [e] = true ->
  book_step e h = Some (h', cs) ->
  starting h' /\ (forall es, snapshot_first mkt (e :: es) = snapshot_first mkt es) \/ tracking h'.
Proof.
  intros Hseen Hau Hst Hsf Hs. pose proof (starting_rendered h Hst) as Hr.
  pose proof Hst as (H1 & H2 & H3 & H4 & H5).
  pose proof (book_step_frames e h h' cs H1 Hs) as Hfr.
  destruct e as [m|i|i m|i|i r|i]; simpl in Hs; [done|done|..].
  - destruct (h_effects h !! i) as [ef|] eqn:Ei; [|done].
    destruct (one_effect_lookup h i ef H2 Ei) as (-> & Em & Ec). rewrite Ec in Hs.
    injection Hs as Hs. unfold onBookMessage in Hs. rewrite Ei, Em in Hs.
    destruct m as [|s|d| | | |]; simpl in Hs, Hau, Hsf;
      try (left; split; [|done]; try case_bool_decide; simpl in Hs; by injection Hs as <- <-).
    + case_bool_decide as Hch; simpl in Hs; injection Hs as <- <-.
      * right. injection Hch as Hch. apply tracking_schedule. by eapply tracking_snapshot; eauto.
      * left. split; [done|]. intros es. simpl.
        destruct (String.eqb_spec (ws_channel s) (book_channel mkt)); [congruence|done].
    + destruct (String.eqb_spec (wd_channel d) (book_channel mkt)) as [E|E]; [done|].
      case_bool_decide as Hch; [by injection Hch|]. injection Hs as <- <-.
      left. split; [done|]. intros es. simpl.
      by destruct (String.eqb_spec (wd_channel d) (book_channel mkt)).
  - rewrite bool_decide_false in Hs by (rewrite H3; set_solver). done.
  - case_bool_decide as Hin; [|done]. injection Hs as <- <-.
    set (h0 := mkHook (h_state h) (h_bids h) (h_asks h) (h_seq h) (h_effects h) (h_frames h)
                       (remove_one i (h_fetches h)) (h_polls h)) in *.
    assert (Hst0 : starting h0).
    { do 4 (split; [done|]). intros j [Hj|Hj]; apply H5; [left|by right]. exact (remove_one_sub i j _ Hj). }
    rewrite (H5 i) in * by (by left). destruct H2 as (ts & raf & He).
    assert (Ei : h_effects h0 !! 0%nat = Some (mkEffect mkt ts raf false)) by (subst h0; simpl; by rewrite He).
    unfold onRestSnapshot in *. rewrite Ei in *. destruct r as [s|]; [|by left].
    simpl in *. destruct (String.eqb_spec (os_marketId s) mkt) as [E|E]; simpl.
    + right. apply tracking_schedule. eapply tracking_snapshot; [done|by eexists _, _|done|by apply Hau|exact Hseen|done].
    + left. split; [done|]. intros es. by destruct (String.eqb_spec (os_marketId s) mkt).
  - case_bool_decide as Hin; [|done]. left. injection Hs as <- <-. split; [|done].
    do 4 (split; [done|]). simpl. intros j. rewrite elem_of_app, list_elem_of_singleton.
    intros [[Hj|Hj]|Hj]; subst; apply H5; auto.
Qed.

Lemma starting_run es : forall h h' cs,
  es ⊆ seen -> Forall (authentic f mkt) es -> starting h -> snapshot_first mkt es = true ->
  book_run es h = Some (h', cs) -> starting h' \/ tracking h'.
Proof.
  induction es as [|e es IH]; simpl book_run; intros h h' cs Hsub Hau Hst Hsf Hrun; [left; by simplify_eq|].
  destruct (book_step e h) as [[h1 cs1]|] eqn:Es; [|done].
  destruct (book_run es h1) as [[h2 cs2]|] eqn:Er; [|done]. injection Hrun as <- <-.
  apply Forall_cons in Hau as [Ha Hau].
  assert (Hsf1 : snapshot_first mkt [e] = true).
  { destruct e as [| |? [] | |? []|]; simpl in *; rewrite ?orb_true_r, ?andb_true_r; try done.
    by apply andb_true_iff in Hsf as [? _]. }
  destruct (starting_step e h h1 cs1 ltac:(set_solver) Ha Hst Hsf1 Es) as [[Hst1 Heq]|Htr].
  - eapply IH; [set_solver|done|done| |done]. by rewrite <- Heq.
  - right. eapply tracking_run; [|done..]. set_solver.
Qed.

Lemma mount_starting : starting (mount_book mkt new_hook).1.
Proof.
  clear Hfeed Hfin f seen.
  split; [split; [constructor|]|].
  - intros [|[]]; simpl; set_solver.
  - split; [by eexists _, _|]. split; [done|]. split; [done|]. simpl. set_solver.
Qed.
End Refinement.

(** ** Calls on an open socket *)

Definition open_at (s : nat) (w : World) (sent : list WsOutbound) : Prop :=
  c_ws (w_client w) = Some s /\ w_sockets w !! s = Some (mkSocket OPEN sent).

Lemma send_open s w sent m :
  open_at s w sent -> open_at s (send m w) (sent ++ [m]) /\ w_client (send m w) = w_client w.
Proof.
  intros [Hws Hs]. unfold send. rewrite Hws. unfold sock_state. rewrite Hs. simpl.
  split; [|done]. split; [done|]. unfold socket_send. rewrite lookup_upd_socket, decide_True, Hs by done.
  done.
Qed.

Lemma subscribe_open s w sent ch :
  open_at s w sent -> ch ∉ c_subs (w_client w) ->
  open_at s (subscribe ch w) (sent ++ [WsSubscribe ch]) /\
  c_subs (w_client (subscribe ch w)) = c_subs (w_client w) ++ [ch].
Proof.
  intros Ho Hn. unfold subscribe, js_has. rewrite bool_decide_false by done.
  set (w1 := set_client _ w). destruct (send_open s w1 sent (WsSubscribe ch)) as [H1 H2]; [done|].
  split; [done|]. rewrite H2. simpl. unfold js_add, js_has. by rewrite bool_decide_false.
Qed.

Lemma unsubscribe_open s w sent ch :
  open_at s w sent -> ch ∈ c_subs (w_client w) ->
  open_at s (unsubscribe ch w) (sent ++ [WsUnsubscribe ch]) /\
  c_subs (w_client (unsubscribe ch w)) = js_del ch (c_subs (w_client w)).
Proof.
  intros Ho Hn. unfold unsubscribe, js_has. rewrite bool_decide_true by done. simpl.
  set (w1 := set_client _ w). destruct (send_open s w1 sent (WsUnsubscribe ch)) as [H1 H2]; [done|].
  split; [done|]. by rewrite H2.
Qed.

Lemma js_del_perm {A} `{EqDecision A} (x : A) l : NoDup l -> x ∈ l -> js_del x l ++ [x] ≡ₚ l.
Proof.
  intros Hnd Hx. apply NoDup_Permutation; [|done|].
  - apply NoDup_app. split; [by apply js_del_NoDup|]. split; [|apply NoDup_singleton].
    intros y. rewrite elem_of_js_del, list_elem_of_singleton. naive_solver.
  - intros y. rewrite elem_of_app, elem_of_js_del, list_elem_of_singleton.
    destruct (decide (y = x)); naive_solver.
Qed.

(** ** Claims *)


(** Animation frames coalesce and lose nothing.  In every run of the hook
    the browser holds at most one frame callback per effect, and it holds one
    exactly when the effect's flag says so; when a frame of the current
    effect fires, the hook renders the maps, the sequence number and the time
    stamp of the last update it applied, however many came before it. *)
Theorem frames_coalesced es h cs :
  book_run es new_hook = Some (h, cs) ->
  NoDup (h_frames h) /\
  (forall i e, h_effects h !! i = Some e -> i ∈ h_frames h <-> e_raf e = true) /\
  (forall i e, i ∈ h_frames h -> h_effects h !! i = Some e ->
     exists h', book_step (BFrame i) h = Some (h', []) /\
       h_state h' = Some (mkLive (ladder bid_after (h_bids h)) (ladder ask_after (h_asks h))
                            (h_seq h) (e_lastTs e)) /\
       i ∉ h_frames h').
Proof.
  intros Hrun.
  assert (Hok : frames_ok h).
  { revert Hrun. apply (book_run_ind frames_ok).
    - intros ? ? ? ? _. apply book_step_frames.
    - split; [constructor|]. intros i. split; [set_solver|done]. }
  destruct Hok as [Hnd Hiff]. split; [done|]. split.
  - intros i e He. rewrite Hiff. unfold effect_raf. by rewrite He.
  - intros i e Hin He. simpl. rewrite bool_decide_true by done. eexists. split; [done|].
    unfold flush; simpl. rewrite He. split; [done|]. simpl.
    apply (remove_one_NoDup i) in Hnd as [_ Hr]. rewrite Hr. naive_solver.
Qed.

(** Recovery from a gap.  On a delta that does not follow the last applied
    sequence number the hook leaves the book alone and asks for a new
    snapshot: on an open socket that has the channel subscribed, exactly an
    unsubscribe and a subscribe frame are sent, in this order, and the client
    stays subscribed to the same channels. *)
Theorem gap_requests_snapshot rnd url_ok b token h i e d w s sent :
  reachable rnd url_ok b token w -> open_at s w sent ->
  h_effects h !! i = Some e -> wd_channel d = book_channel (e_market e) ->
  book_channel (e_market e) ∈ c_subs (w_client w) ->
  h_seq h <> 0 -> wd_sequence d <> h_seq h + 1 ->
  let '(h', cs) := onBookMessage i (MDelta d) h in
  let w' := run_calls rnd url_ok cs w in
  h' = h /\
  open_at s w' (sent ++ [WsUnsubscribe (wd_channel d); WsSubscribe (wd_channel d)]) /\
  c_subs (w_client w') ≡ₚ c_subs (w_client w).
Proof.
  intros Hr Ho He Hch Hin Hz Hgap. unfold onBookMessage. rewrite He. simpl msg_channel.
  rewrite Hch, bool_decide_true by done. simpl negb.
  rewrite (proj2 (Z.eqb_neq _ _) Hgap), (proj2 (Z.eqb_neq _ _) Hz). simpl andb. cbn iota.
  split; [done|]. set (ch := book_channel (e_market e)) in *. unfold run_calls; simpl.
  destruct (unsubscribe_open s w sent ch Ho Hin) as [Ho1 E1].
  destruct (subscribe_open s (unsubscribe ch w) _ ch Ho1) as [Ho2 E2].
  { rewrite E1, elem_of_js_del. naive_solver. }
  split; [by rewrite <- app_assoc in Ho2|]. rewrite E2, E1. apply js_del_perm; [|done].
  apply (inv_subs w). by eapply reachable_inv.
Qed.

(** A delta that arrives before any snapshot is taken for a first
    revision.  The sequence check is off while no sequence number is known, so
    from a fresh mount any run of consecutive deltas is applied to an empty
    book: no resynchronisation is requested, and the rendered book holds only
    the levels these deltas touched. *)
Theorem early_deltas_accepted mkt ds :
  Forall (fun d => wd_channel d = book_channel mkt) ds ->
  (forall j d d', ds !! j = Some d -> ds !! S j = Some d' -> wd_sequence d' = wd_sequence d + 1) ->
  exists h, book_run (map (fun d => BMessage 0 (MDelta d)) ds) (mount_book mkt new_hook).1 = Some (h, []) /\
    represents (h_bids h) (foldl (fun b d => book_delta b (wd_bids d)) ∅ ds) /\
    represents (h_asks h) (foldl (fun b d => book_delta b (wd_asks d)) ∅ ds).
Proof.
  intros Hch Hseq.
  assert (Hgen : forall h (bb ba : Book) ds,
    one_effect mkt h -> represents (h_bids h) bb -> represents (h_asks h) ba ->
    Forall (fun d => wd_channel d = book_channel mkt) ds ->
    (forall j d d', ds !! j = Some d -> ds !! S j = Some d' -> wd_sequence d' = wd_sequence d + 1) ->
    (h_seq h = 0 \/ match ds with d :: _ => wd_sequence d = h_seq h + 1 | [] => True end) ->
    exists h', book_run (map (fun d => BMessage 0 (MDelta d)) ds) h = Some (h', []) /\
      represents (h_bids h') (foldl (fun b d => book_delta b (wd_bids d)) bb ds) /\
      represents (h_asks h') (foldl (fun b d => book_delta b (wd_asks d)) ba ds)).
  { clear. intros h bb ba ds. revert h bb ba. induction ds as [|d ds IH]; intros h bb ba He Hb Ha Hch Hseq Hnext.
    { exists h. done. }
    apply Forall_cons in Hch as [Hc Hch]. destruct He as (ts & raf & He).
    simpl. rewrite He. simpl. unfold onBookMessage. rewrite He. simpl. rewrite Hc, bool_decide_true by done. simpl.
    assert (negb (wd_sequence d =? h_seq h + 1) && negb (h_seq h =? 0) = false) as ->.
    { destruct Hnext as [-> | ->]; [by rewrite andb_false_r | by rewrite Z.eqb_refl]. }
    set (h1 := set_refs _ _ _ h). set (h2 := scheduleFlush 0 (wd_tsNs d) h1).
    destruct (scheduleFlush_same 0 (wd_tsNs d) h1) as (E1 & E2 & E3 & _).
    destruct (IH h2 (book_delta bb (wd_bids d)) (book_delta ba (wd_asks d))) as (h' & Hrun & Hr); [..|].
    - apply (one_effect_upd mkt h1 _ 0%nat id); [by eexists _, _|done].
    - unfold h2. rewrite E1. by apply applyDelta_represents.
    - unfold h2. rewrite E2. by apply applyDelta_represents.
    - done.
    - intros j x y Hx Hy. by apply (Hseq (S j)).
    - right. destruct ds as [|d' ds]; [done|]. unfold h2. rewrite E3. by apply (Hseq 0%nat).
    - exists h'. by rewrite Hrun. }
  apply Hgen; [by eexists _, _| | |done|done|by left]; split; try constructor; done.
Qed.

(** The trade tape.  After any messages, the tape of a market is its
    trades among them, newest first, cut at [max]. *)
Theorem live_trades_newest_first mkt max ms :
  let is_mine m := match m with MTrade t => String.eqb (wt_channel t) (trades_channel mkt) | _ => false end in
  let trade_of m := match m with MTrade t => [t] | _ => [] end in
  foldl (fun ts m => onTradeMessage mkt max m ts) [] ms =
  take max (rev (concat (map trade_of (List.filter is_mine ms)))).
Proof.
  intros is_mine trade_of.
  induction ms as [|m ms IH] using rev_ind; [by destruct max|].
  rewrite foldl_app, IH, List.filter_app, map_app, concat_app, rev_app_distr. simpl.
  destruct m; simpl; try done. destruct (String.eqb _ _); simpl; [|done].
  destruct max as [|max]; [done|]. simpl. f_equal. by rewrite take_take, Nat.min_l by lia.
Qed.

(** Two components that listen on one channel share one subscription
    without a count.  When the first of them unmounts, the edge is told to
    stop although the other is still registered: its listener stays, the
    channel is gone from the connection, and no frame of it will arrive. *)
Theorem shared_channel_dropped rnd url_ok b token w s sent ch l1 l2 :
  reachable rnd url_ok b token w -> open_at s w sent -> l1 <> l2 -> l2 ∈ c_listeners (w_client w) ->
  ch ∈ c_subs (w_client w) ->
  let w' := run_calls rnd url_ok (cleanup_calls ch l1) w in
  l2 ∈ c_listeners (w_client w') /\ ch ∉ c_subs (w_client w') /\
  exists sent', open_at s w' sent' /\ ch ∉ server_view sent'.
Proof.
  intros Hr Ho Hl Hin Hch. unfold run_calls; simpl. set (w1 := unsubscribe ch w).
  destruct (unsubscribe_open s w sent ch Ho Hch) as [Ho1 E1].
  assert (El : c_listeners (w_client w1) = c_listeners (w_client w)).
  { unfold w1, unsubscribe, send. case_match; [done|]. simpl. case_match; [|done].
    by case_bool_decide. }
  split; [|split].
  - rewrite El. apply elem_of_js_del. naive_solver.
  - unfold w1. rewrite E1, elem_of_js_del. naive_solver.
  - exists (sent ++ [WsUnsubscribe ch]). split; [done|].
    unfold server_view. rewrite apply_frames_app. simpl. set_solver.
Qed.

(** A change of market does not clear the ladder.  The effect of the new
    market resets the maps but not the rendered state, so the component keeps
    showing the previous market's levels until the first frame or reply of
    the new market is applied and painted. *)
Theorem market_switch_keeps_old_ladder h i mkt' :
  h_state (mount_book mkt' (unmount_book i h).1).1 = h_state h /\
  h_bids (mount_book mkt' (unmount_book i h).1).1 = [] /\
  h_asks (mount_book mkt' (unmount_book i h).1).1 = [].
Proof. unfold unmount_book. by destruct (h_effects h !! i). Qed.

(** ** Witnesses *)

(** A server with two bids, of which the better alternates between two
    quantities, and a snapshot that is cut at one level. *)
Definition demo_qty (k : Z) : string := if Z.even k then "6" else "5".
Definition demo_feed : Feed :=
  mkFeed (fun k => <["100" := demo_qty k]> {["90" := "1"]}) (fun _ => ∅) (fun k => ([("100", demo_qty k)], [])).

Definition demo_snapshot : WsOrderbookSnapshot :=
  mkWsSnapshot (book_channel "btc-usd") 7 [("100", "5")] [] "11".
Definition demo_delta (k : Z) : WsOrderbookDelta :=
  mkWsDelta (book_channel "btc-usd") k [("100", demo_qty k)] [] "12".

Definition demo_events : list book_event :=
  [BMessage 0 (MSnapshot demo_snapshot); BMessage 0 (MDelta (demo_delta 8)); BFrame 0;
   BMessage 0 (MDelta (demo_delta 10)); BRest 0 None].

Definition demo_hook : BookHook :=
  Eval vm_compute in
  match book_run demo_events (mount_book "btc-usd" new_hook).1 with
  | Some (h, _) => h
  | None => new_hook
  end.

Lemma demo_feed_ok : feed_ok demo_feed.
Proof.
  intros k _. unfold demo_feed, demo_qty. cbn [fd_bids fd_asks fd_delta fst snd book_delta foldl].
  rewrite Z.even_add. split; [|done]. destruct (Z.even k); unfold book_delta; simpl; by rewrite insert_insert_eq.
Qed.

Lemma demo_feed_finite k : prices_finite (fd_bids demo_feed k) /\ prices_finite (fd_asks demo_feed k).
Proof.
  split; intros p q; simpl; [|by rewrite lookup_empty].
  rewrite lookup_insert_Some, lookup_singleton_Some. by intros [[<- _]|[_ [<- _]]].
Qed.

Lemma demo_cut : snapshot_of demo_feed 7 [("100", "5")] [].
Proof.
  split; [done|]. split; split.
  - apply NoDup_singleton.
  - intros p q. rewrite list_elem_of_singleton. intros [= -> ->]. reflexivity.
  - intros p q x Hp Hn Hx. apply list_elem_of_singleton in Hx as ->. simpl in Hp.
    rewrite lookup_insert_Some, lookup_singleton_Some in Hp. destruct Hp as [[<- <-]|[_ [<- <-]]]; [set_solver|reflexivity].
  - constructor.
  - intros p q. by rewrite elem_of_nil.
  - intros p q x. simpl. by rewrite lookup_empty.
Qed.

Lemma demo_authentic : Forall (authentic demo_feed "btc-usd") demo_events.
Proof.
  unfold demo_events. repeat (apply Forall_cons; split); [intros _; exact demo_cut|done..].
Qed.


Lemma frames_coalesced_witness : NoDup (h_frames demo_hook).
Proof.
  apply (frames_coalesced (BMount "btc-usd" :: demo_events) demo_hook
    [COn 0; CSubscribe (book_channel "btc-usd");
     CUnsubscribe (book_channel "btc-usd"); CSubscribe (book_channel "btc-usd")]).
  vm_compute. reflexivity.
Defined.

Lemma early_deltas_accepted_witness :
  exists h, book_run [BMessage 0 (MDelta (demo_delta 41)); BMessage 0 (MDelta (demo_delta 42))]
              (mount_book "btc-usd" new_hook).1 = Some (h, []) /\
    represents (h_bids h) {["100" := "6"]} /\ h_seq h = 42.
Proof.
  destruct (early_deltas_accepted "btc-usd" [demo_delta 41; demo_delta 42]) as (h & Hrun & Hb & _).
  - by repeat constructor.
  - intros [|[]] d d'; simpl; [|done..]. by intros [= <-] [= <-].
  - exists h. split; [exact Hrun|]. split; [exact Hb|]. vm_compute in Hrun. by injection Hrun as <-.
Defined.

(** An open client with the book's channel and two listeners. *)
Definition demo_acts : list action :=
  [inl CConnect; inr (EvOpen 0); inl (COn 0); inl (COn 1); inl (CSubscribe (book_channel "btc-usd"))].
Definition demo_world : World :=
  Eval vm_compute in
  match run (fun _ => num_zero) true demo_acts (new_world None (mkBrowser true ∅ [])) with
  | Some w => w
  | None => new_world None (mkBrowser true ∅ [])
  end.

Lemma demo_world_reachable :
  reachable (fun _ => num_zero) true (mkBrowser true ∅ []) None demo_world.
Proof. eapply (run_reachable _ _ _ _ demo_acts); [constructor|]. vm_compute. reflexivity. Qed.

Lemma gap_requests_snapshot_witness :
  open_at 0 (run_calls (fun _ => num_zero) true
      (onBookMessage 0 (MDelta (demo_delta 10)) demo_hook).2 demo_world)
    ([WsSubscribe (book_channel "btc-usd")] ++
     [WsUnsubscribe (book_channel "btc-usd"); WsSubscribe (book_channel "btc-usd")]).
Proof.
  apply (gap_requests_snapshot (fun _ => num_zero) true (mkBrowser true ∅ []) None demo_hook 0
    (mkEffect "btc-usd" "12" false false) (demo_delta 10) demo_world 0
    [WsSubscribe (book_channel "btc-usd")]).
  - apply demo_world_reachable.
  - split; reflexivity.
  - reflexivity.
  - reflexivity.
  - apply (bool_decide_unpack _). reflexivity.
  - done.
  - done.
Defined.

Lemma shared_channel_dropped_witness :
  1%nat ∈ c_listeners (w_client (run_calls (fun _ => num_zero) true
    (cleanup_calls (book_channel "btc-usd") 0) demo_world)).
Proof.
  apply (shared_channel_dropped (fun _ => num_zero) true (mkBrowser true ∅ []) None demo_world 0
    [WsSubscribe (book_channel "btc-usd")] (book_channel "btc-usd") 0 1).
  - apply demo_world_reachable.
  - split; reflexivity.
  - done.
  - apply (bool_decide_unpack _). reflexivity.
  - apply (bool_decide_unpack _). reflexivity.
Defined.
