(* ===== verification/MockData.v ===== *)
(** * The simulated exchange: its data ([web/mocks/data/seed.ts])

    The module-level [STATE] is a record and every exported function a
    computation of a state monad with exceptions.  [Math.random()] and
    [Date.now()] read two streams, given as parameters, at positions the
    state counts, so a run of the simulation is a function of the streams. *)

From S2P Require Import Prelude JsNum JsText JsColl Contract LiveBook.
From Stdlib Require Import SpecFloat Ascii.

(** ** State with exceptions *)

Definition St (S A : Type) : Type := S -> result A * S.

Definition st_ret {S A} (a : A) : St S A := fun s => (Ok a, s).
Definition st_throw {S A} (e : JsError) : St S A := fun s => (Throw e, s).
Definition st_bind {S A B} (m : St S A) (f : A -> St S B) : St S B :=
  fun s => match m s with
           | (Ok a, s') => f a s'
           | (Throw e, s') => (Throw e, s')
           end.
Definition st_get {S} : St S S := fun s => (Ok s, s).
Definition st_put {S} (s : S) : St S unit := fun _ => (Ok tt, s).

Notation "'let*' x ':=' m 'in' k" := (st_bind m (fun x => k))
  (at level 10, x pattern, m at level 100, k at level 200) : js_scope.

Fixpoint st_for {S A B} (xs : list A) (acc : B) (body : A -> B -> St S B) : St S B :=
  match xs with
  | [] => st_ret acc
  | x :: xs' => let* acc' := body x acc in st_for xs' acc' body
  end.

Definition TypeError_undefined : JsError := mkError "TypeError" "Cannot read properties of undefined".

(** [xs.slice(0, n)] for a number [n]. *)
Definition slice_to {A} (n : number) (xs : list A) : list A :=
  match n with
  | S754_nan => []
  | S754_infinity s => if s then [] else xs
  | _ => let z := num_trunc n in
         if z <? 0 then take (Z.to_nat (Z.of_nat (length xs) + z)) xs else take (Z.to_nat z) xs
  end.

(** ** Data *)

Record FundingState := mkFundingState {
  fs_currentRateBps : number;
  fs_nextSettlementTsNs : Z;
  fs_history : list FundingPoint
}.

Record MarketState := mkMarketState {
  ms_market : Market;
  ms_anchor : number;
  ms_bids : list OrderbookLevel;
  ms_asks : list OrderbookLevel;
  ms_sequence : Z;
  ms_recentTrades : list PublicTrade;
  ms_funding : FundingState
}.

(** [STATE], with the positions of the two input streams. *)
Record Mock := mkMock {
  k_markets : list (MarketId * MarketState);
  k_jwt : option string;
  k_walletAddress : string;
  k_vaultBalanceUsdc : number;
  k_walletUsdcBalance : number;
  k_pendingDeposits : list PendingTransfer;
  k_pendingWithdrawals : list PendingTransfer;
  k_openOrders : list OpenOrder;
  k_fills : list Fill;
  k_positions : list Position;
  k_rnd : nat;
  k_clock : nat
}.

Definition with_markets (x : list (MarketId * MarketState)) (k : Mock) : Mock :=
  mkMock x (k_jwt k) (k_walletAddress k) (k_vaultBalanceUsdc k) (k_walletUsdcBalance k)
    (k_pendingDeposits k) (k_pendingWithdrawals k) (k_openOrders k) (k_fills k) (k_positions k)
    (k_rnd k) (k_clock k).
Definition with_jwt (x : option string) (k : Mock) : Mock :=
  mkMock (k_markets k) x (k_walletAddress k) (k_vaultBalanceUsdc k) (k_walletUsdcBalance k)
    (k_pendingDeposits k) (k_pendingWithdrawals k) (k_openOrders k) (k_fills k) (k_positions k)
    (k_rnd k) (k_clock k).
Definition with_openOrders (x : list OpenOrder) (k : Mock) : Mock :=
  mkMock (k_markets k) (k_jwt k) (k_walletAddress k) (k_vaultBalanceUsdc k) (k_walletUsdcBalance k)
    (k_pendingDeposits k) (k_pendingWithdrawals k) x (k_fills k) (k_positions k) (k_rnd k) (k_clock k).
Definition with_fills (x : list Fill) (k : Mock) : Mock :=
  mkMock (k_markets k) (k_jwt k) (k_walletAddress k) (k_vaultBalanceUsdc k) (k_walletUsdcBalance k)
    (k_pendingDeposits k) (k_pendingWithdrawals k) (k_openOrders k) x (k_positions k) (k_rnd k) (k_clock k).
Definition with_positions (x : list Position) (k : Mock) : Mock :=
  mkMock (k_markets k) (k_jwt k) (k_walletAddress k) (k_vaultBalanceUsdc k) (k_walletUsdcBalance k)
    (k_pendingDeposits k) (k_pendingWithdrawals k) (k_openOrders k) (k_fills k) x (k_rnd k) (k_clock k).
Definition with_streams (r t : nat) (k : Mock) : Mock :=
  mkMock (k_markets k) (k_jwt k) (k_walletAddress k) (k_vaultBalanceUsdc k) (k_walletUsdcBalance k)
    (k_pendingDeposits k) (k_pendingWithdrawals k) (k_openOrders k) (k_fills k) (k_positions k) r t.

Definition MOCK_WALLET : string := "0xA0Cf798816D4b9b9866b5330EEa46a18382f251e".

Definition nsStr (b : Z) : string := bigint_toString b.

(** Decimals of a step such as ["0.05"]. *)
Definition decFromStep (s : string) : nat :=
  let i := indexOf_char "."%char s in
  if i <? 0 then O else Z.to_nat (strlen s - i - 1).

Definition with_ms_book (bids asks : list OrderbookLevel) (m : MarketState) : MarketState :=
  mkMarketState (ms_market m) (ms_anchor m) bids asks (ms_sequence m) (ms_recentTrades m) (ms_funding m).
Definition with_ms_anchor (x : number) (m : MarketState) : MarketState :=
  mkMarketState (ms_market m) x (ms_bids m) (ms_asks m) (ms_sequence m) (ms_recentTrades m) (ms_funding m).
Definition with_ms_sequence (x : Z) (m : MarketState) : MarketState :=
  mkMarketState (ms_market m) (ms_anchor m) (ms_bids m) (ms_asks m) x (ms_recentTrades m) (ms_funding m).
Definition with_ms_trades (x : list PublicTrade) (m : MarketState) : MarketState :=
  mkMarketState (ms_market m) (ms_anchor m) (ms_bids m) (ms_asks m) (ms_sequence m) x (ms_funding m).
Definition with_ms_funding (x : FundingState) (m : MarketState) : MarketState :=
  mkMarketState (ms_market m) (ms_anchor m) (ms_bids m) (ms_asks m) (ms_sequence m) (ms_recentTrades m) x.

Section Seed.
(** [Math.random()] and [Date.now()] in call order; [Math.random().toString(36)]
    and [toString(16)], whose digits the language leaves to the engine. *)
Variables (rnd : nat -> number) (now : nat -> Z) (toString36 toString16 : number -> string).

Definition M : Type -> Type := St Mock.

Definition Math_random : M number :=
  fun k => (Ok (rnd (k_rnd k)), with_streams (S (k_rnd k)) (k_clock k) k).

Definition nowNs : M Z :=
  fun k => (Ok (now (k_clock k) * 1000000), with_streams (k_rnd k) (S (k_clock k)) k).

Definition random_qty (lotDec : nat) : M string :=
  let* r := Math_random in
  st_ret (toFixed (r * nint 2 + n_lit 5 (-2))%num lotDec).

Definition range_1_60 : list Z := map Z.of_nat (seq 1 60).

Definition makeMarket (id : MarketId) (base : string) (anchor : number) (tickSize lotSize : string) :
    M MarketState :=
  let market := mkMarket id base "USD" true tickSize lotSize 20 500 250 100 5 (-2) 28800
                  (num_toString anchor) None None None None in
  let tick := Number_of_string tickSize in
  let* bids := st_for range_1_60 [] (fun i bids =>
    let px := toFixed (anchor - tick * nint i)%num (decFromStep tickSize) in
    let* qty := random_qty (decFromStep lotSize) in
    st_ret (jm_set px qty bids)) in
  let* asks := st_for range_1_60 [] (fun i asks =>
    let px := toFixed (anchor + tick * nint i)%num (decFromStep tickSize) in
    let* qty := random_qty (decFromStep lotSize) in
    st_ret (jm_set px qty asks)) in
  let* r := Math_random in
  let* t := nowNs in
  let* history := st_for (map Z.of_nat (seq 0 8)) [] (fun idx hist =>
    let* t := nowNs in
    let* r := Math_random in
    st_ret (hist ++ [mkFundingPoint (nsStr (t - (idx + 1) * mk_fundingIntervalSec market * 1000000000))
                       ((r - n_lit 5 (-1)) * nint 6)%num])) in
  st_ret (mkMarketState market anchor bids asks 1 []
            (mkFundingState ((r - n_lit 4 (-1)) * nint 4)%num
               (t + mk_fundingIntervalSec market * 1000000000) history)).

Definition empty_mock : Mock :=
  mkMock [] None MOCK_WALLET (nint 5000) (nint 12500) [] [] [] [] [] 0 0.

(** The initializer of [STATE]. *)
Definition init_STATE : M unit :=
  let* btc := makeMarket "btc-usd" "BTC" (nint 100000) "0.1" "0.0001" in
  let* eth := makeMarket "eth-usd" "ETH" (nint 3500) "0.05" "0.001" in
  let* sol := makeMarket "sol-usd" "SOL" (nint 200) "0.01" "0.01" in
  let* t := nowNs in
  let* k := st_get in
  st_put (with_positions
    [mkPosition "btc-usd" "0.1" long "98500.0" "100050.0" "10005.0" "155.0" "0.0" "2.0" "94250.0"
       "-1.25" (nsStr t)]
    (with_markets (jm_of_entries [("btc-usd", btc); ("eth-usd", eth); ("sol-usd", sol)]) k)).

Definition initial_STATE : Mock := (init_STATE empty_mock).2.

(** [STATE.markets.get(id)!], and the write through the shared object. *)
Definition get_market (id : MarketId) : M MarketState :=
  let* k := st_get in
  match jm_get id (k_markets k) with
  | Some m => st_ret m
  | None => st_throw TypeError_undefined
  end.

Definition put_market (id : MarketId) (m : MarketState) : M unit :=
  let* k := st_get in st_put (with_markets (jm_set id m (k_markets k)) k).

Definition snapshot_depth : nat := 50.

Definition snapshotOf (marketId : MarketId) : M OrderbookSnapshot :=
  let* k := st_get in
  match jm_get marketId (k_markets k) with
  | None => st_throw (mkError "Error" ("unknown market " +:+ marketId))
  | Some m =>
      let bids := take snapshot_depth (js_sort bid_after (ms_bids m)) in
      let asks := take snapshot_depth (js_sort ask_after (ms_asks m)) in
      let* t := nowNs in
      st_ret (mkSnapshot marketId (ms_sequence m) bids asks (nsStr t))
  end.

(** What [mutateBook] returns. *)
Record BookDelta := mkBookDelta {
  bd_bids : list OrderbookLevel;
  bd_asks : list OrderbookLevel;
  bd_sequence : Z;
  bd_tsNs : string
}.

(** The books and the deltas of one call of [mutateBook]. *)
Record Mutation := mkMutation {
  mu_bids : list OrderbookLevel;
  mu_asks : list OrderbookLevel;
  mu_dbids : list OrderbookLevel;
  mu_dasks : list OrderbookLevel
}.

Definition mutate_side (isBid : bool) (f : list OrderbookLevel -> list OrderbookLevel)
    (lvl : OrderbookLevel) (mu : Mutation) : Mutation :=
  if isBid then mkMutation (f (mu_bids mu)) (mu_asks mu) (mu_dbids mu ++ [lvl]) (mu_dasks mu)
  else mkMutation (mu_bids mu) (f (mu_asks mu)) (mu_dbids mu) (mu_dasks mu ++ [lvl]).

(** One turn of its loop. *)
Definition mutate_once (anchor tick : number) (tickDec lotDec : nat) (mu : Mutation) : M Mutation :=
  let* r1 := Math_random in
  let isBid := (r1 <? n_lit 5 (-1))%num in
  let sideMap := if isBid then mu_bids mu else mu_asks mu in
  let sign : number := if isBid then nint (-1) else nint 1 in
  let* r2 := Math_random in
  let offset := ((num_floor (r2 * nint 60)%num + nint 1) * tick * sign)%num in
  let px := toFixed (anchor + offset)%num tickDec in
  let* r3 := Math_random in
  if (r3 <? n_lit 18 (-2))%num then
    if jm_has px sideMap then st_ret (mutate_side isBid (jm_delete px) (px, "0") mu)
    else st_ret mu
  else
    let* qty := random_qty lotDec in
    st_ret (mutate_side isBid (jm_set px qty) (px, qty) mu).

Definition mutateBook (marketId : MarketId) : M BookDelta :=
  let* m := get_market marketId in
  let tick := Number_of_string (mk_tickSize (ms_market m)) in
  let lotDec := decFromStep (mk_lotSize (ms_market m)) in
  let tickDec := decFromStep (mk_tickSize (ms_market m)) in
  let* r := Math_random in
  let anchor := (ms_anchor m + (r - n_lit 5 (-1)) * tick * nint 2)%num in
  let* mu := st_for [0; 1; 2] (mkMutation (ms_bids m) (ms_asks m) [] []) (fun _ mu =>
    mutate_once anchor tick tickDec lotDec mu) in
  let seq := ms_sequence m + 1 in
  let* _ := put_market marketId
    (with_ms_sequence seq (with_ms_book (mu_bids mu) (mu_asks mu) (with_ms_anchor anchor m))) in
  let* t := nowNs in
  st_ret (mkBookDelta (mu_dbids mu) (mu_dasks mu) seq (nsStr t)).

Definition spawnTrade (marketId : MarketId) : M PublicTrade :=
  let* m := get_market marketId in
  let tickDec := decFromStep (mk_tickSize (ms_market m)) in
  let lotDec := decFromStep (mk_lotSize (ms_market m)) in
  let* r1 := Math_random in
  let side := if (r1 <? n_lit 5 (-1))%num then buy else sell in
  let tick := Number_of_string (mk_tickSize (ms_market m)) in
  let* r2 := Math_random in
  let px := toFixed (ms_anchor m + (r2 - n_lit 5 (-1)) * tick * nint 4)%num tickDec in
  let* r3 := Math_random in
  let qty := toFixed (r3 * n_lit 12 (-1) + n_lit 1 (-2))%num lotDec in
  let* r4 := Math_random in
  let id := "fill_" +:+ str_take 8 (str_drop 2 (toString36 r4)) in
  let* t := nowNs in
  let tr := mkPublicTrade id marketId px qty side (nsStr t) in
  let* _ := put_market marketId (with_ms_trades (take 200 (tr :: ms_recentTrades m)) m) in
  st_ret tr.

Definition oraclePrice (marketId : MarketId) : M string :=
  let* m := get_market marketId in
  st_ret (toFixed (ms_anchor m) (decFromStep (mk_tickSize (ms_market m)))).

Definition fundingFrame (marketId : MarketId) : M FundingResponse :=
  let* m := get_market marketId in
  st_ret (mkFundingResponse marketId (fs_currentRateBps (ms_funding m))
            (nsStr (fs_nextSettlementTsNs (ms_funding m))) (fs_history (ms_funding m))).

Definition balanceFrame : M BalanceResponse :=
  let* k := st_get in
  st_ret (mkBalanceResponse (toFixed (k_vaultBalanceUsdc k) 2) (toFixed (k_walletUsdcBalance k) 2)
            (k_pendingDeposits k) (k_pendingWithdrawals k)).

(** [xs.reduce((s, p) => s + f(p), 0)]. *)
Definition sum_by {A} (f : A -> number) (xs : list A) : number :=
  foldl (fun s x => s + f x)%num (nint 0) xs.

Definition positionsFrame : M PositionsResponse :=
  let* k := st_get in
  let ps := k_positions k in
  let totalNotional := sum_by (fun p => Number_of_string (p_notionalUsdc p)) ps in
  let totalUnreal := sum_by (fun p => Number_of_string (p_unrealisedPnlUsdc p)) ps in
  let lev := match ps with p :: _ => Number_of_string (p_leverage p) | [] => nint 1 end in
  let used := (totalNotional / n_max (nint 1) lev)%num in
  let free := n_max (nint 0) (k_vaultBalanceUsdc k - used)%num in
  st_ret (mkPositionsResponse (toFixed (k_vaultBalanceUsdc k) 2) (toFixed free 2)
            (toFixed totalUnreal 2) (toFixed totalNotional 2) ps).

(** One position of [refreshMarks]. *)
Definition refresh_one (p : Position) : M Position :=
  let* newMark := oraclePrice (p_marketId p) in
  let entry := Number_of_string (p_entryPriceX18 p) in
  let mark := Number_of_string newMark in
  let sz := Number_of_string (p_size p) in
  let dir : number := match p_side p with long => nint 1 | short => nint (-1) end in
  let pnl := ((mark - entry) * sz * dir)%num in
  let* t := nowNs in
  st_ret (mkPosition (p_marketId p) (p_size p) (p_side p) (p_entryPriceX18 p) newMark
            (toFixed (mark * sz)%num 2) (toFixed pnl 2) (p_realisedPnlUsdc p) (p_leverage p)
            (p_liquidationPriceX18 p) (p_fundingPaidUsdc p) (nsStr t)).

(** The positions are updated in place, one by one. *)
Definition refreshMarks : M unit :=
  let* k := st_get in
  st_for (seq 0 (length (k_positions k))) tt (fun j _ =>
    let* k1 := st_get in
    match k_positions k1 !! j with
    | None => st_ret tt
    | Some p =>
        let* p' := refresh_one p in
        let* k2 := st_get in
        st_put (with_positions (<[j := p']> (k_positions k2)) k2)
    end).

Definition pushFill (f : Fill) : M unit :=
  let* k := st_get in st_put (with_fills (take 500 (f :: k_fills k)) k).

Definition recentPublicTrades (marketId : MarketId) (limit : number) : M (list PublicTrade) :=
  let* m := get_market marketId in st_ret (slice_to limit (ms_recentTrades m)).
End Seed.
