(* ===== verification/MockServer.v ===== *)
(** * The simulated exchange: its servers ([web/mocks/handlers.ts],
    [web/mocks/ws-mock.ts], [web/mocks/browser.ts])

    The REST handlers run in two parts, before and after their [await
    delay]; the first part returns the second, so another request can run in
    between.  The WebSocket server holds the connected clients, the frames
    each was sent, and the timers of the simulation.  What a client sends is
    a JSON value or a text that is not JSON; a handler that throws leaves its
    error to the event loop. *)

From S2P Require Import Prelude JsNum JsText JsColl Contract LiveBook MockData.
From Stdlib Require Import SpecFloat Ascii.

(** ** REST *)

Definition known (marketId : string) : bool :=
  String.eqb marketId "btc-usd" || String.eqb marketId "eth-usd" || String.eqb marketId "sol-usd".

Inductive Body :=
| JMarkets (r : MarketsResponse)
| JOrderbook (r : OrderbookSnapshot)
| JTrades (r : TradesResponse)
| JFunding (r : FundingResponse)
| JOrderAck (orderId status tsNs : string)
| JCancelled (orderId status : string)
| JOpenOrders (r : OpenOrdersResponse)
| JPositions (r : PositionsResponse)
| JFills (r : FillsResponse)
| JBalance (r : BalanceResponse)
| JNonce (r : SiweNonceResponse)
| JVerify (r : SiweVerifyResponse)
| JError (e : ApiError)
| JErrorCode (code : string).   (** The message is whatever the body had for a market. *)

Record Response := mkResponse { rs_status : Z; rs_body : Body }.

Definition json (b : Body) : Response := mkResponse 200 b.
Definition inactive (status : Z) (id : string) : Response :=
  mkResponse status (JError (mkApiError "MARKET_INACTIVE" id)).

Section Servers.
Variables (rnd : nat -> number) (now : nat -> Z) (toString36 toString16 : number -> string).

Abbreviation random := (Math_random rnd).
Abbreviation nowNs := (nowNs now).

(** Before the delay, then after it. *)
Definition handler : Type := M (M Response).

Definition reply (r : Response) : handler := st_ret (st_ret r).

Definition get_markets : handler :=
  st_ret (let* k := st_get in
          st_ret (json (JMarkets (mkMarketsResponse (map ms_market (jm_values (k_markets k))))))).

Definition get_orderbook (id : string) : handler :=
  if negb (known id) then reply (inactive 404 id)
  else st_ret (let* s := snapshotOf now id in st_ret (json (JOrderbook s))).

Definition last_ts {A} (ts : A -> string) (xs : list A) : option string := ts <$> last xs.

Definition get_trades (id : string) (limit : option string) : handler :=
  if negb (known id) then reply (inactive 404 id)
  else
    let n := match limit with Some l => Number_of_string l | None => nint 50 end in
    st_ret (let* trades := recentPublicTrades id n in
            st_ret (json (JTrades (mkTradesResponse trades (last_ts pt_tsNs trades))))).

Definition get_funding (id : string) : handler :=
  if negb (known id) then reply (inactive 404 id)
  else st_ret (let* f := fundingFrame id in st_ret (json (JFunding f))).

Definition taker_fee : number := n_lit 5 (-4).

(** The naive position update of a market order. *)
Definition apply_market_order (body : OrderRequest) (ts : string) : M unit :=
  let* m := get_market (or_marketId body) in
  let* k := st_get in
  let dir : number := match or_side body with buy => nint 1 | sell => nint (-1) end in
  let qty := (Number_of_string (or_qty body) * dir)%num in
  let mine p := String.eqb (p_marketId p) (or_marketId body) in
  match list_find (fun p => mine p = true) (k_positions k) with
  | Some (j, existing) =>
      let old := (Number_of_string (p_size existing) *
                  match p_side existing with long => nint 1 | short => nint (-1) end)%num in
      let newSize := (old + qty)%num in
      if (n_abs newSize <? Number_of_string (mk_lotSize (ms_market m)))%num then
        st_put (with_positions (List.filter (fun p => negb (mine p)) (k_positions k)) k)
      else
        st_put (with_positions
          (<[j := mkPosition (p_marketId existing) (toFixed (n_abs newSize) 4)
                    (if (nint 0 <? newSize)%num then long else short)
                    (or_price body) (p_markPriceX18 existing) (p_notionalUsdc existing)
                    (p_unrealisedPnlUsdc existing) (p_realisedPnlUsdc existing) (p_leverage existing)
                    (p_liquidationPriceX18 existing) (p_fundingPaidUsdc existing)
                    (p_lastUpdatedTsNs existing)]> (k_positions k)) k)
  | None =>
      let px := Number_of_string (or_price body) in
      st_put (with_positions
        (k_positions k ++
         [mkPosition (or_marketId body) (or_qty body)
            (match or_side body with buy => long | sell => short end)
            (or_price body) (or_price body) (toFixed (px * Number_of_string (or_qty body))%num 2)
            "0.00" "0.00" "2.0"
            (toFixed (px * match or_side body with buy => n_lit 92 (-2) | sell => n_lit 108 (-2) end)%num 2)
            "0.00" ts]) k)
  end.

(** What [request.json()] and the first member access meet: a text that is
    not JSON, [null], a value without a text for its market, or an order with
    the members of the contract. *)
Inductive OrderBody := BodyNotJson | BodyNull | BodyNoMarket | BodyOrder (body : OrderRequest).

Definition SyntaxError_body : JsError := mkError "SyntaxError" "Unexpected token in JSON".
Definition TypeError_null_body : JsError := mkError "TypeError" "Cannot read properties of null (reading 'marketId')".

Definition post_order (body : OrderRequest) : handler :=
  if negb (known (or_marketId body)) then reply (inactive 400 (or_marketId body))
  else
    let* r := random in
    let orderId := "ord_" +:+ str_take 10 (str_drop 2 (toString36 r)) in
    let* t := nowNs in
    let ts := nsStr t in
    let remaining := match or_type body with market => "0" | limit => or_qty body end in
    let order := mkOpenOrder orderId (or_marketId body) (or_side body) (or_type body) (or_price body)
                   (or_qty body) remaining ts (Some (or_clientOrderId body)) in
    let* _ :=
      match or_type body with
      | limit => let* k := st_get in st_put (with_openOrders (order :: k_openOrders k) k)
      | market =>
          let* r1 := random in
          let* r2 := random in
          let fee := (Number_of_string (or_qty body) * Number_of_string (or_price body) * taker_fee)%num in
          let fill := mkFill ("fill_" +:+ str_take 8 (str_drop 2 (toString36 r1))) orderId
                        (or_marketId body) (or_side body) (or_price body) (or_qty body)
                        (toFixed fee 2) taker ts
                        ("0x" +:+ padEnd (str_take 8 (str_drop 2 (toString16 r2))) 64 "0"%char) in
          let* _ := pushFill fill in
          let* _ := apply_market_order body ts in
          refreshMarks now
      end in
    st_ret (st_ret (json (JOrderAck orderId "accepted" ts))).

Definition post_orders (body : OrderBody) : handler :=
  match body with
  | BodyNotJson => st_throw SyntaxError_body
  | BodyNull => st_throw TypeError_null_body
  | BodyNoMarket => reply (mkResponse 400 (JErrorCode "MARKET_INACTIVE"))
  | BodyOrder body => post_order body
  end.

Definition delete_order (id : string) : handler :=
  let* k := st_get in
  let* _ := st_put (with_openOrders
              (List.filter (fun o => negb (String.eqb (oo_id o) id)) (k_openOrders k)) k) in
  st_ret (st_ret (json (JCancelled id "cancelled"))).

Definition get_open_orders : handler :=
  st_ret (let* k := st_get in st_ret (json (JOpenOrders (mkOpenOrdersResponse (k_openOrders k))))).

Definition get_positions : handler :=
  let* _ := refreshMarks now in
  st_ret (let* p := positionsFrame in st_ret (json (JPositions p))).

Definition get_fills (marketId limit : option string) : handler :=
  let n := match limit with Some l => Number_of_string l | None => nint 100 end in
  let* k := st_get in
  let fills :=
    match marketId with
    | Some id => if str_truthy id then List.filter (fun f => String.eqb (f_marketId f) id) (k_fills k) else k_fills k
    | None => k_fills k
    end in
  let slice := slice_to n fills in
  reply (json (JFills (mkFillsResponse slice (last_ts f_tsNs slice)))).

Definition get_balance : handler :=
  st_ret (let* b := balanceFrame in st_ret (json (JBalance b))).

Definition post_siwe_nonce : handler :=
  let* r := random in
  reply (json (JNonce (mkSiweNonceResponse (str_take 16 (str_drop 2 (toString36 r)))))).

Definition post_siwe_verify : handler :=
  let* r := random in
  let jwt := "jwt_" +:+ str_take 18 (str_drop 2 (toString36 r)) in
  let* k := st_get in
  let* _ := st_put (with_jwt (Some jwt) k) in
  let* t := nowNs in
  reply (json (JVerify (mkSiweVerifyResponse jwt (nsStr (t + 3600000000000))))).

(** The routes. *)
Inductive Request :=
| GET_markets
| GET_orderbook (id : string)
| GET_trades (id : string) (limit : option string)
| GET_funding (id : string)
| POST_orders (body : OrderBody)
| DELETE_order (id : string)
| GET_open_orders
| GET_positions
| GET_fills (marketId limit : option string)
| GET_balance
| POST_siwe_nonce
| POST_siwe_verify.

Definition handlers (r : Request) : handler :=
  match r with
  | GET_markets => get_markets
  | GET_orderbook id => get_orderbook id
  | GET_trades id lim => get_trades id lim
  | GET_funding id => get_funding id
  | POST_orders body => post_orders body
  | DELETE_order id => delete_order id
  | GET_open_orders => get_open_orders
  | GET_positions => get_positions
  | GET_fills marketId lim => get_fills marketId lim
  | GET_balance => get_balance
  | POST_siwe_nonce => post_siwe_nonce
  | POST_siwe_verify => post_siwe_verify
  end.

(** A request with nothing running during its delay. *)
Definition handle (r : Request) : M Response := let* post := handlers r in post.

(** ** WebSocket *)

(** A connected client: its socket's number, the texts among its
    subscriptions (a member of the set that is no text equals no channel) and
    every frame it was sent. *)
Record ClientState := mkClientState {
  cs_socket : nat;
  cs_subs : list string;
  cs_frames : list WsMessage
}.

Inductive Timer :=
| TBook (marketId : MarketId)
| TTrade (marketId : MarketId) (wait : number)
| TOracle (marketId : MarketId)
| TFunding (marketId : MarketId)
| TPing.

Record Sim := mkSim {
  sm_mock : Mock;
  sm_server : bool;
  sm_clients : list ClientState;
  (** The [intervals] array, by handle, and the handles still armed. *)
  sm_intervals : list nat;
  sm_armed : list (nat * Timer);
  sm_nextTimer : nat
}.

Definition W : Type -> Type := St Sim.

Definition on_mock {A} (m : M A) : W A := fun w =>
  let '(r, k) := m (sm_mock w) in
  (r, mkSim k (sm_server w) (sm_clients w) (sm_intervals w) (sm_armed w) (sm_nextTimer w)).

Definition upd_clients (f : list ClientState -> list ClientState) : W unit := fun w =>
  (Ok tt, mkSim (sm_mock w) (sm_server w) (f (sm_clients w)) (sm_intervals w) (sm_armed w) (sm_nextTimer w)).

(** [intervals.push(setInterval(...))]. *)
Definition push_timer (t : Timer) : W unit := fun w =>
  (Ok tt, mkSim (sm_mock w) (sm_server w) (sm_clients w) (sm_intervals w ++ [sm_nextTimer w])
            (sm_armed w ++ [(sm_nextTimer w, t)]) (S (sm_nextTimer w))).

Definition send_frame (m : WsMessage) (c : ClientState) : ClientState :=
  mkClientState (cs_socket c) (cs_subs c) (cs_frames c ++ [m]).

(** At most one copy per client, whatever it subscribes to. *)
Definition broadcast (channelFilter : string -> bool) (payload : WsMessage) : W unit :=
  upd_clients (map (fun c => if existsb channelFilter (cs_subs c) then send_frame payload c else c)).

Definition tick_book (marketId : MarketId) : W unit :=
  let* d := on_mock (mutateBook rnd now marketId) in
  broadcast (fun ch => String.eqb ch ("orderbook." +:+ marketId))
    (MDelta (mkWsDelta ("orderbook." +:+ marketId) (bd_sequence d) (bd_bids d) (bd_asks d) (bd_tsNs d))).

Definition scheduleTrade (marketId : MarketId) : W unit :=
  let* r := on_mock random in
  push_timer (TTrade marketId (nint 400 + r * nint 800)%num).

Definition tick_trade (marketId : MarketId) : W unit :=
  let* t := on_mock (spawnTrade rnd now toString36 marketId) in
  let* _ := broadcast (fun ch => String.eqb ch ("trades." +:+ marketId))
    (MTrade (mkWsTrade ("trades." +:+ marketId) (pt_id t) (pt_price t) (pt_qty t) (pt_side t) (pt_tsNs t))) in
  scheduleTrade marketId.

Definition tick_oracle (marketId : MarketId) : W unit :=
  let* price := on_mock (oraclePrice marketId) in
  let* t1 := on_mock nowNs in
  let* t2 := on_mock nowNs in
  let* _ := broadcast (fun ch => String.eqb ch ("oracle." +:+ marketId))
    (MOracle (mkWsOracle ("oracle." +:+ marketId) price "5.0" (nsStr t1) (nsStr t2))) in
  on_mock (refreshMarks now).

(** [Math.max(-15, Math.min(15, rate))]. *)
Definition clamp_rate {A} `{Arith A} (rate : A) : A := n_max (nint (-15)) (n_min (nint 15) rate).

Definition tick_funding (marketId : MarketId) : W unit :=
  let* m := on_mock (get_market marketId) in
  let* r := on_mock random in
  let f := ms_funding m in
  let rate := clamp_rate (fs_currentRateBps f + (r - n_lit 5 (-1)) * n_lit 4 (-1))%num in
  let* _ := on_mock (put_market marketId
    (with_ms_funding (mkFundingState rate (fs_nextSettlementTsNs f) (fs_history f)) m)) in
  let* t := on_mock nowNs in
  broadcast (fun ch => String.eqb ch ("funding." +:+ marketId))
    (MFunding (mkWsFunding ("funding." +:+ marketId) rate (nsStr (fs_nextSettlementTsNs f)) (nsStr t))).

Definition tick_ping : W unit :=
  let* t := on_mock nowNs in
  upd_clients (map (send_frame (MPing (nsStr t)))).

Definition startSimulation : W unit :=
  let* w := st_get in
  let* _ := st_for (jm_keys (k_markets (sm_mock w))) tt (fun marketId _ =>
    let* _ := push_timer (TBook marketId) in
    let* _ := scheduleTrade marketId in
    let* _ := push_timer (TOracle marketId) in
    push_timer (TFunding marketId)) in
  push_timer TPing.

Definition on_connection (socket : nat) : W unit :=
  upd_clients (fun cs => cs ++ [mkClientState socket [] []]).

(** A value of [JSON.parse]; the fields of an object without duplicates. *)
Inductive JsonValue :=
| JsNull
| JsBool (b : bool)
| JsNumber (x : number)
| JsString (s : string)
| JsArray (l : list JsonValue)
| JsObject (fields : list (string * JsonValue)).

(** [v.k] for a value other than [null]: [None] is [undefined]. *)
Definition member (k : string) (v : JsonValue) : option JsonValue :=
  match v with
  | JsObject fields => snd <$> List.find (fun f => String.eqb f.1 k) fields
  | _ => None
  end.

Definition value_truthy (v : option JsonValue) : bool :=
  match v with
  | None | Some JsNull => false
  | Some (JsBool b) => b
  | Some (JsNumber x) => num_truthy x
  | Some (JsString s) => str_truthy s
  | Some (JsArray _) | Some (JsObject _) => true
  end.

Definition is_text (t : string) (v : option JsonValue) : bool :=
  match v with Some (JsString s) => String.eqb s t | _ => false end.

Definition TypeError_null_msg : JsError := mkError "TypeError" "Cannot read properties of null (reading 'op')".
Definition TypeError_startsWith : JsError := mkError "TypeError" "msg.channel.startsWith is not a function".

Definition upd_client (socket : nat) (f : ClientState -> ClientState) : W unit :=
  upd_clients (map (fun c => if Nat.eqb (cs_socket c) socket then f c else c)).

Definition send_snapshot (socket : nat) (channel : string) : W unit :=
  if startsWith "orderbook." channel then
    let marketId := str_drop 10 channel in
    let* w := st_get in
    if jm_has marketId (k_markets (sm_mock w)) then
      let* snap := on_mock (snapshotOf now marketId) in
      upd_client socket (send_frame (MSnapshot
        (mkWsSnapshot channel (os_sequence snap) (os_bids snap) (os_asks snap) (os_tsNs snap))))
    else st_ret tt
  else st_ret tt.

Definition on_message (socket : nat) (raw : option JsonValue) : W unit :=
  match raw with
  | None => st_ret tt
  | Some JsNull => st_throw TypeError_null_msg
  | Some msg =>
      let op := member "op" msg in
      let channel := member "channel" msg in
      if is_text "subscribe" op && value_truthy channel then
        match channel with
        | Some (JsString channel) =>
            let* _ := upd_client socket (fun c => mkClientState (cs_socket c) (js_add channel (cs_subs c)) (cs_frames c)) in
            send_snapshot socket channel
        | _ => st_throw TypeError_startsWith
        end
      else if is_text "unsubscribe" op && value_truthy channel then
        match channel with
        | Some (JsString channel) =>
            upd_client socket (fun c => mkClientState (cs_socket c) (js_del channel (cs_subs c)) (cs_frames c))
        | _ => st_ret tt
        end
      else st_ret tt
  end.

Definition on_close (socket : nat) : W unit :=
  upd_clients (List.filter (fun c => negb (Nat.eqb (cs_socket c) socket))).

Definition startMockWsServer : W unit :=
  let* w := st_get in
  if sm_server w then st_ret tt
  else
    let* _ := st_put (mkSim (sm_mock w) true (sm_clients w) (sm_intervals w) (sm_armed w) (sm_nextTimer w)) in
    startSimulation.

Definition stopMockWsServer : W unit :=
  let* w := st_get in
  if negb (sm_server w) then st_ret tt
  else st_put (mkSim (sm_mock w) false [] []
                 (List.filter (fun t => negb (bool_decide (t.1 ∈ sm_intervals w))) (sm_armed w))
                 (sm_nextTimer w)).

(** A timer fires: a timeout is disarmed first, an interval stays. *)
Definition fire (id : nat) : W unit :=
  let* w := st_get in
  match list_find (fun t => t.1 = id) (sm_armed w) with
  | None => st_ret tt
  | Some (_, (_, TBook m)) => tick_book m
  | Some (_, (_, TTrade m _)) =>
      let* _ := st_put (mkSim (sm_mock w) (sm_server w) (sm_clients w) (sm_intervals w)
                          (List.filter (fun t => negb (Nat.eqb t.1 id)) (sm_armed w)) (sm_nextTimer w)) in
      tick_trade m
  | Some (_, (_, TOracle m)) => tick_oracle m
  | Some (_, (_, TFunding m)) => tick_funding m
  | Some (_, (_, TPing)) => tick_ping
  end.

Inductive sim_event :=
| SConnect (socket : nat)
| SMessage (socket : nat) (raw : option JsonValue)
| SClose (socket : nat)
| SFire (id : nat)
| SRequest (r : Request).

Definition sim_step (e : sim_event) : W unit :=
  match e with
  | SConnect s => on_connection s
  | SMessage s raw => on_message s raw
  | SClose s => on_close s
  | SFire id => fire id
  | SRequest r => let* _ := on_mock (handle r) in st_ret tt
  end.

(** The event loop: what an event threw is reported, and the next event
    finds the state as it was left. *)
Fixpoint sim_run (es : list sim_event) (w : Sim) : list (result unit) * Sim :=
  match es with
  | [] => ([], w)
  | e :: es' =>
      let '(r, w1) := sim_step e w in
      let '(rs, w2) := sim_run es' w1 in
      (r :: rs, w2)
  end.
End Servers.
