(* ===== verification/MockThms.v ===== *)
(** * What the simulated exchange guarantees

    A small program logic for the state monad with exceptions, the invariant
    of [STATE] that every handler and tick preserves (so none of them ever
    throws), and the simulation between the server's book and the book the
    front end rebuilds from its frames. *)

From S2P Require Import Prelude JsNum JsText FloatFacts JsColl Contract Browser WsClient LiveBook LiveBookThms MockData MockServer.
From Stdlib Require Import SpecFloat Ascii Sorted.
From stdpp Require Import gmap strings sorting.
#[local] Open Scope Z_scope.

(** ** Triples

    [hoare P m Q]: from a state in [P] the computation returns, without an
    exception, a value and a state in [Q]. *)

Definition hoare {S A} (P : S -> Prop) (m : St S A) (Q : A -> S -> Prop) : Prop :=
  forall s, P s -> match m s with (Ok a, s') => Q a s' | (Throw _, _) => False end.

Section Triples.
Context {S : Type}.
Implicit Types (P : S -> Prop).

Lemma hoare_ret {A} P (a : A) (Q : A -> S -> Prop) : (forall s, P s -> Q a s) -> hoare P (st_ret a) Q.
Proof. intros H s Hs. by apply H. Qed.

Lemma hoare_bind {A B} P (R : A -> S -> Prop) (Q : B -> S -> Prop) (m : St S A) (f : A -> St S B) :
  hoare P m R -> (forall a, hoare (R a) (f a) Q) -> hoare P (st_bind m f) Q.
Proof.
  intros Hm Hf s Hs. unfold st_bind. specialize (Hm s Hs). destruct (m s) as [[a|e] s']; [|done].
  by apply Hf.
Qed.

(** Reading the state, with the fact that it was read. *)
Lemma hoare_get {B} P (Q : B -> S -> Prop) (f : S -> St S B) :
  (forall s0, P s0 -> hoare (fun s => s = s0 /\ P s) (f s0) Q) -> hoare P (st_bind st_get f) Q.
Proof. intros Hf s Hs. unfold st_bind. simpl. by apply (Hf s Hs s). Qed.

Lemma hoare_put P s1 (Q : unit -> S -> Prop) : (forall s, P s -> Q tt s1) -> hoare P (st_put s1) Q.
Proof. intros H s Hs. simpl. by eapply H. Qed.

Lemma hoare_conseq {A} P P' (Q Q' : A -> S -> Prop) (m : St S A) :
  (forall s, P s -> P' s) -> (forall a s, Q' a s -> Q a s) -> hoare P' m Q' -> hoare P m Q.
Proof.
  intros HP HQ Hm s Hs. specialize (Hm s (HP s Hs)). destruct (m s) as [[a|e] s']; [|done]. by apply HQ.
Qed.

Lemma hoare_for {A B} (I : B -> S -> Prop) (xs : list A) (body : A -> B -> St S B) :
  (forall x acc, x ∈ xs -> hoare (I acc) (body x acc) I) ->
  forall acc, hoare (I acc) (st_for xs acc body) I.
Proof.
  induction xs as [|x xs IH]; simpl; intros Hb acc.
  - by apply hoare_ret.
  - eapply hoare_bind; [apply Hb; set_solver|]. intros acc'. apply IH. intros y acc2 Hy. apply Hb. set_solver.
Qed.

(** A fact about values moves to the context. *)
Lemma hoare_pure {A} P (phi : Prop) (m : St S A) Q :
  (phi -> hoare P m Q) -> hoare (fun s => P s /\ phi) m Q.
Proof. intros H s [Hs Hphi]. by apply H. Qed.
End Triples.

(** ** The invariant of [STATE] *)

Record market_ok (m : MarketState) : Prop := {
  mo_bids : jm_wf (ms_bids m);
  mo_asks : jm_wf (ms_asks m);
  mo_seq : 0 < ms_sequence m;
  mo_trades : (length (ms_recentTrades m) <= 200)%nat
}.

Record mock_inv (k : Mock) : Prop := {
  mi_keys : jm_keys (k_markets k) = market_ids;
  mi_markets : forall id m, jm_get id (k_markets k) = Some m -> market_ok m;
  mi_positions : NoDup (map p_marketId (k_positions k));
  mi_positions_known : Forall (fun p => p_marketId p ∈ market_ids) (k_positions k);
  mi_fills : (length (k_fills k) <= 500)%nat
}.

Lemma known_market id : known id = true <-> id ∈ market_ids.
Proof.
  unfold known, market_ids. rewrite !orb_true_iff, !String.eqb_eq, !elem_of_cons, elem_of_nil. tauto.
Qed.

Lemma market_present k id : mock_inv k -> id ∈ market_ids -> exists m, jm_get id (k_markets k) = Some m /\ market_ok m.
Proof.
  intros Hi Hid. destruct (jm_get id (k_markets k)) as [m|] eqn:E.
  - exists m. split; [done|]. by eapply (mi_markets k Hi).
  - apply jm_get_None in E. by rewrite (mi_keys k Hi) in E.
Qed.

Section Invariant.
Variables (rnd : nat -> number) (now : nat -> Z) (toString36 toString16 : number -> string).

(** The computation keeps the invariant. *)
Abbreviation keeps m := (hoare mock_inv m (fun _ => mock_inv)).

Lemma keeps_bind {A B} (m : M A) (f : A -> M B) : keeps m -> (forall a, keeps (f a)) -> keeps (st_bind m f).
Proof. apply hoare_bind. Qed.

Lemma keeps_ret {A} (a : A) : keeps (st_ret a : M A).
Proof. by apply hoare_ret. Qed.

Lemma keeps_get {B} (f : Mock -> M B) :
  (forall k, mock_inv k -> hoare (fun s => s = k /\ mock_inv s) (f k) (fun _ => mock_inv)) ->
  keeps (st_bind st_get f).
Proof. apply hoare_get. Qed.

Lemma keeps_at {B} k (m : M B) : keeps m -> hoare (fun s => s = k /\ mock_inv s) m (fun _ => mock_inv).
Proof. apply hoare_conseq; [by intros ? [??]|done]. Qed.

Lemma keeps_put k : mock_inv k -> keeps (st_put k).
Proof. intros H. by apply hoare_put. Qed.

Lemma keeps_random : keeps (Math_random rnd).
Proof. intros k []. by split. Qed.

Lemma keeps_now : keeps (nowNs now).
Proof. intros k []. by split. Qed.

Lemma keeps_for {A B} (xs : list A) (acc : B) (body : A -> B -> M B) :
  (forall x acc, x ∈ xs -> keeps (body x acc)) -> keeps (st_for xs acc body).
Proof. intros H. by apply (hoare_for (fun _ => mock_inv)). Qed.

(** A known market is found, and what is found is well-formed. *)
Lemma get_market_ok id : id ∈ market_ids ->
  hoare mock_inv (get_market id) (fun m k => mock_inv k /\ market_ok m).
Proof.
  intros Hid k Hk. destruct (market_present k id Hk Hid) as (m & Hm & Hok).
  unfold get_market, st_bind; simpl. by rewrite Hm.
Qed.

Lemma mock_inv_set_market k id m :
  id ∈ market_ids -> market_ok m -> mock_inv k -> mock_inv (with_markets (jm_set id m (k_markets k)) k).
Proof.
  intros Hid Hm []. split; simpl; try done.
  - by rewrite jm_keys_set_present by (by rewrite mi_keys0).
  - intros id' m'. rewrite jm_get_set. case_decide; [by intros [= <-]|apply mi_markets0].
Qed.

Lemma put_market_ok id m : id ∈ market_ids -> market_ok m -> keeps (put_market id m).
Proof.
  intros Hid Hm. apply keeps_get. intros k Hk. apply keeps_at, keeps_put. by apply mock_inv_set_market.
Qed.

(** With the market read beforehand. *)
Lemma keeps_with_market {B} id (f : MarketState -> M B) :
  id ∈ market_ids -> (forall m, market_ok m -> keeps (f m)) -> keeps (st_bind (get_market id) f).
Proof.
  intros Hid Hf. eapply hoare_bind; [by apply get_market_ok|].
  intros m. apply hoare_pure. apply Hf.
Qed.

Lemma keeps_random_qty d : keeps (random_qty rnd d).
Proof. apply keeps_bind; [apply keeps_random|]. intros. apply keeps_ret. Qed.

(** The maps of a mutation stay well-formed. *)
Definition mutation_wf (mu : Mutation) : Prop := jm_wf (mu_bids mu) /\ jm_wf (mu_asks mu).

Lemma mutate_once_wf a t td ld mu :
  mutation_wf mu ->
  hoare mock_inv (mutate_once rnd a t td ld mu) (fun mu' k => mock_inv k /\ mutation_wf mu').
Proof.
  intros [Hb Ha]. eapply hoare_bind; [apply keeps_random|]. intros r1.
  eapply hoare_bind; [apply keeps_random|]. intros r2.
  eapply hoare_bind; [apply keeps_random|]. intros r3. cbn beta zeta.
  destruct (r3 <? _)%num.
  - destruct (jm_has _ _); apply hoare_ret; [|done]. intros k Hk. split; [done|].
    unfold mutate_side, mutation_wf. destruct (r1 <? _)%num; simpl; auto with perplex.
  - eapply hoare_bind; [apply keeps_random_qty|]. intros qty. apply hoare_ret. intros k Hk. split; [done|].
    unfold mutate_side, mutation_wf. destruct (r1 <? _)%num; simpl; auto with perplex.
Qed.

Lemma keeps_mutateBook id : id ∈ market_ids -> keeps (mutateBook rnd now id).
Proof.
  intros Hid. apply keeps_with_market; [done|]. intros m Hm.
  apply keeps_bind; [apply keeps_random|]. intros r.
  eapply (hoare_bind _ (fun mu k => mock_inv k /\ mutation_wf mu)).
  - set (mu0 := mkMutation (ms_bids m) (ms_asks m) [] []).
    eapply hoare_conseq; [| |apply (hoare_for (fun mu k => mock_inv k /\ mutation_wf mu))].
    + intros k Hk. split; [done|]. split; apply Hm.
    + done.
    + intros _ mu _. apply hoare_pure. apply mutate_once_wf.
  - intros mu. apply hoare_pure. intros [Hwb Hwa]. apply keeps_bind.
    + apply put_market_ok; [done|]. destruct Hm. split; simpl; try done. lia.
    + intros _. apply keeps_bind; [apply keeps_now|]. intros. apply keeps_ret.
Qed.

Lemma keeps_spawnTrade id : id ∈ market_ids -> keeps (spawnTrade rnd now toString36 id).
Proof.
  intros Hid. apply keeps_with_market; [done|]. intros m Hm.
  do 4 (apply keeps_bind; [apply keeps_random|]; intros ?).
  apply keeps_bind; [apply keeps_now|]. intros t.
  apply keeps_bind; [|intros; apply keeps_ret].
  apply put_market_ok; [done|]. destruct Hm. split; simpl; try done.
  rewrite length_take. lia.
Qed.

Lemma keeps_oraclePrice id : id ∈ market_ids -> keeps (oraclePrice id).
Proof. intros Hid. apply keeps_with_market; [done|]. intros. apply keeps_ret. Qed.

Lemma refresh_one_ok p : p_marketId p ∈ market_ids ->
  hoare mock_inv (refresh_one now p) (fun p' k => mock_inv k /\ p_marketId p' = p_marketId p).
Proof.
  intros Hp. eapply hoare_bind; [by apply keeps_oraclePrice|]. intros mark.
  eapply hoare_bind; [apply keeps_now|]. intros t. apply hoare_ret. done.
Qed.

Lemma mock_inv_positions k ps :
  mock_inv k -> NoDup (map p_marketId ps) -> Forall (fun p => p_marketId p ∈ market_ids) ps ->
  mock_inv (with_positions ps k).
Proof. intros [] ??. by split. Qed.

Lemma mock_inv_replace_position k j p p' :
  mock_inv k -> k_positions k !! j = Some p -> p_marketId p' = p_marketId p ->
  mock_inv (with_positions (<[j := p']> (k_positions k)) k).
Proof.
  intros Hk Hj E. apply mock_inv_positions; [done| |].
  - change (map p_marketId) with (fmap (M:=list) p_marketId). rewrite list_fmap_insert, E, list_insert_id.
    + apply (mi_positions k Hk).
    + by rewrite list_lookup_fmap, Hj.
  - apply Forall_insert; [apply (mi_positions_known k Hk)|]. rewrite E.
    by apply (Forall_lookup_1 _ _ _ _ (mi_positions_known k Hk) Hj).
Qed.

(** [refreshMarks] keeps which positions there are. *)
Lemma refresh_one_positions k p p' k' :
  refresh_one now p k = (Ok p', k') -> k_positions k' = k_positions k.
Proof.
  unfold refresh_one, oraclePrice, get_market, st_bind; simpl. destruct (jm_get _ _); simpl; [|done].
  by intros [= <- <-].
Qed.

Lemma keeps_refreshMarks : keeps (refreshMarks now).
Proof.
  apply keeps_get. intros k0 _. apply keeps_at, keeps_for. intros j _ _.
  apply keeps_get. intros k1 Hk1. destruct (k_positions k1 !! j) as [p|] eqn:Ej; [|apply keeps_at, keeps_ret].
  assert (Hp : p_marketId p ∈ market_ids)
    by apply (Forall_lookup_1 _ _ _ _ (mi_positions_known k1 Hk1) Ej).
  intros k [-> Hk]. unfold st_bind. pose proof (refresh_one_ok p Hp k1 Hk) as Hr.
  destruct (refresh_one now p k1) as [[p'|e] k2] eqn:E; [|done]. destruct Hr as [Hk2 Em]. simpl.
  apply (mock_inv_replace_position k2 j p p'); [done| |done].
  by rewrite (refresh_one_positions k1 p p' k2 E).
Qed.

Lemma keeps_pushFill f : keeps (pushFill f).
Proof.
  apply keeps_get. intros k Hk. apply keeps_at, keeps_put. destruct Hk. split; simpl; try done.
  rewrite length_take. lia.
Qed.

Lemma keeps_apply_market_order body ts : or_marketId body ∈ market_ids -> keeps (apply_market_order body ts).
Proof.
  intros Hid. apply keeps_with_market; [done|]. intros m Hm. apply keeps_get. intros k Hk.
  cbv zeta. destruct (list_find (fun p => String.eqb (p_marketId p) (or_marketId body) = true) (k_positions k))
    as [[j p]|] eqn:E.
  - apply list_find_Some in E as (Ej & Ep & _). case_match; apply keeps_at, keeps_put.
    + apply mock_inv_positions; [done| |].
      * pose proof (mi_positions k Hk) as Hnd. revert Hnd. generalize (k_positions k). clear.
        induction l as [|q l IH]; simpl; [done|]. intros [Hn Hnd]%NoDup_cons.
        destruct (negb _); simpl; [|by apply IH]. apply NoDup_cons. split; [|by apply IH].
        intros Hin. apply Hn. rewrite list_elem_of_In, in_map_iff in *. destruct Hin as (x & <- & Hx).
        apply filter_In in Hx as [Hx _]. by exists x.
      * rewrite Forall_forall. intros x Hx. rewrite list_elem_of_In, filter_In, <- list_elem_of_In in Hx.
        destruct Hx as [Hx _]. pose proof (mi_positions_known k Hk) as Hf. rewrite Forall_forall in Hf. by apply Hf.
    + by apply (mock_inv_replace_position k j p).
  - apply keeps_at, keeps_put. apply list_find_None in E. apply mock_inv_positions; [done| |].
    + rewrite map_app. apply NoDup_app. split; [apply (mi_positions k Hk)|]. split; [|apply NoDup_singleton].
      intros x Hx. simpl. rewrite list_elem_of_singleton. intros ->.
      rewrite list_elem_of_In, in_map_iff in Hx. destruct Hx as (q & Eq & Hq).
      rewrite Forall_forall in E. apply (E q); [by apply list_elem_of_In|]. by apply String.eqb_eq.
    + apply Forall_app. split; [apply (mi_positions_known k Hk)|]. by constructor.
Qed.

Lemma keeps_snapshotOf id : id ∈ market_ids -> keeps (snapshotOf now id).
Proof.
  intros Hid. apply keeps_get. intros k Hk. destruct (market_present k id Hk Hid) as (m & Em & _).
  rewrite Em. apply keeps_at, keeps_bind; [apply keeps_now|]. intros. apply keeps_ret.
Qed.

(** *** Requests *)

Abbreviation handle := (handle rnd now toString36 toString16).

Lemma keeps_read {A} (f : Mock -> A) : keeps (let* k := st_get in st_ret (f k) : M A).
Proof. apply keeps_get. intros. apply keeps_at, keeps_ret. Qed.

Lemma keeps_if_known {A} id (bad good : M A) :
  keeps bad -> (id ∈ market_ids -> keeps good) -> keeps (if negb (known id) then bad else good).
Proof.
  intros Hb Hg. destruct (known id) eqn:E; simpl; [|done]. apply Hg. by apply known_market.
Qed.

Lemma keeps_handler_if id (bad : Response) (good : handler) :
  (id ∈ market_ids -> keeps (let* post := good in post)) ->
  keeps (let* post := (if negb (known id) then reply bad else good) in post).
Proof.
  intros Hg. destruct (known id) eqn:E; simpl; [|apply keeps_ret]. apply Hg. by apply known_market.
Qed.

Lemma keeps_two_parts (h : handler) :
  hoare mock_inv h (fun post k => mock_inv k /\ keeps post) -> keeps (let* post := h in post).
Proof.
  intros H. eapply hoare_bind; [exact H|]. intros post. apply hoare_pure. done.
Qed.

Lemma keeps_post_orders body : keeps (handle (POST_orders (BodyOrder body))).
Proof.
  unfold MockServer.handle, handlers, post_orders, post_order. apply keeps_handler_if. intros Hid.
  apply keeps_two_parts.
  eapply hoare_bind; [apply keeps_random|]. intros r.
  eapply hoare_bind; [apply keeps_now|]. intros t.
  eapply (hoare_bind _ (fun _ => mock_inv)).
  - destruct (or_type body).
    + do 2 (apply keeps_bind; [apply keeps_random|]; intros ?).
      apply keeps_bind; [apply keeps_pushFill|]. intros _.
      apply keeps_bind; [by apply keeps_apply_market_order|]. intros _. apply keeps_refreshMarks.
    + apply keeps_get. intros k0 Hk0. apply keeps_at, keeps_put. destruct Hk0. by split.
  - intros _. apply hoare_ret. intros s Hs. split; [done|]. apply keeps_ret.
Qed.

(** The bodies [post_orders] cannot read. *)
Definition unreadable (r : Request) : bool :=
  match r with POST_orders BodyNotJson | POST_orders BodyNull => true | _ => false end.

Lemma unreadable_throws r k : unreadable r = true -> exists e, handle r k = (Throw e, k).
Proof. destruct r as [| | | |[]| | | | | | |]; intros; try done; by eexists. Qed.

Lemma keeps_handle r : unreadable r = false -> keeps (handle r).
Proof.
  intros Hu. destruct r; unfold MockServer.handle, handlers.
  - apply keeps_read.
  - apply keeps_handler_if. intros Hid. apply (keeps_bind (snapshotOf now id)); [by apply keeps_snapshotOf|].
    intros. apply keeps_ret.
  - apply keeps_handler_if. intros Hid.
    apply (keeps_bind (recentPublicTrades id _)); [|intros; apply keeps_ret].
    apply keeps_with_market; [done|]. intros. apply keeps_ret.
  - apply keeps_handler_if. intros Hid. apply (keeps_bind (fundingFrame id)); [|intros; apply keeps_ret].
    apply keeps_with_market; [done|]. intros. apply keeps_ret.
  - destruct body; try done; [by intros k Hk|apply keeps_post_orders].
  - intros k Hk. destruct Hk. by split.
  - apply keeps_read.
  - intros k Hk. unfold get_positions, st_bind. pose proof (keeps_refreshMarks k Hk) as Hr.
    destruct (refreshMarks now k) as [[[]|e] k']; [|done]. done.
  - intros k Hk. done.
  - intros k Hk. done.
  - intros k Hk. destruct Hk. by split.
  - intros k Hk. destruct Hk. by split.
Qed.
End Invariant.

(** The initial state. *)
Section Init.
Variables (rnd : nat -> number) (now : nat -> Z).

Abbreviation fresh := (fun k : Mock => k_fills k = []).

Lemma fresh_for {A B} (J : B -> Prop) (xs : list A) (acc : B) (body : A -> B -> M B) :
  J acc -> (forall x acc, J acc -> hoare fresh (body x acc) (fun b k => fresh k /\ J b)) ->
  hoare fresh (st_for xs acc body) (fun b k => fresh k /\ J b).
Proof.
  intros HJ Hb. eapply hoare_conseq; [| |apply (hoare_for (fun b k => fresh k /\ J b))].
  - done.
  - done.
  - intros x b _. apply hoare_pure. apply Hb.
Qed.

Lemma makeMarket_ok id base anchor ts ls :
  hoare fresh (makeMarket rnd now id base anchor ts ls) (fun m k => fresh k /\ market_ok m).
Proof.
  unfold makeMarket. eapply (hoare_bind _ (fun b k => fresh k /\ jm_wf b)).
  { apply fresh_for; [constructor|]. intros i b Hb k Hk. split; [done|]. by apply jm_set_wf. }
  intros bids. apply hoare_pure. intros Hb. eapply (hoare_bind _ (fun b k => fresh k /\ jm_wf b)).
  { apply fresh_for; [constructor|]. intros i b Hb' k Hk. split; [done|]. by apply jm_set_wf. }
  intros asks. apply hoare_pure. intros Ha.
  eapply (hoare_bind _ (fun _ => fresh)); [by intros k Hk|]. intros r.
  eapply (hoare_bind _ (fun _ => fresh)); [by intros k Hk|]. intros t.
  eapply (hoare_bind _ (fun _ k => fresh k /\ True)).
  { apply fresh_for; [done|]. by intros i b _ k Hk. }
  intros hist. apply hoare_ret. intros k [Hk _]. split; [done|]. split; simpl; try done. lia.
Qed.

Lemma initial_STATE_inv : mock_inv (initial_STATE rnd now).
Proof.
  enough (H : hoare fresh (init_STATE rnd now) (fun _ => mock_inv)).
  { specialize (H empty_mock eq_refl). unfold initial_STATE.
    destruct (init_STATE rnd now empty_mock) as [[[]|e] k]; [done|done]. }
  unfold init_STATE. do 3 (eapply hoare_bind; [apply makeMarket_ok|]; intros ?; apply hoare_pure; intros ?).
  eapply (hoare_bind _ (fun _ => fresh)); [by intros k Hk|]. intros t.
  apply hoare_get. intros k Hk. apply hoare_put. intros _ _. split; simpl.
  - done.
  - intros id m. repeat case_decide; intros; simplify_eq; done.
  - apply NoDup_singleton.
  - constructor; [|constructor]. by apply known_market.
  - rewrite Hk. simpl. lia.
Qed.
End Init.
