(* ===== verification/MockSim.v ===== *)
(** * The front end against the simulated exchange

    The two sides of the order-book protocol put together: the server of
    [MockServer], which sends one snapshot of its best fifty levels and then
    every change, and the hook of [LiveBook], which rebuilds the book. *)

From S2P Require Import Prelude JsNum JsText FloatFacts JsColl Contract Browser WsClient LiveBook LiveBookThms MockData MockServer MockThms.
From Stdlib Require Import SpecFloat Ascii Sorted.
From stdpp Require Import gmap strings sorting.
#[local] Open Scope Z_scope.

(** ** The invariant of the running simulation *)

Definition timer_market (t : Timer) : option MarketId :=
  match t with TBook m | TTrade m _ | TOracle m | TFunding m => Some m | TPing => None end.

Definition timer_known (t : nat * Timer) : Prop :=
  match timer_market t.2 with Some m => m ∈ market_ids | None => True end.

Definition sim_inv (w : Sim) : Prop := mock_inv (sm_mock w) /\ Forall timer_known (sm_armed w).

Definition new_sim (k : Mock) : Sim := mkSim k false [] [] [] 0.

Section Running.
Variables (rnd : nat -> number) (now : nat -> Z) (toString36 toString16 : number -> string).

Abbreviation keepsW m := (hoare sim_inv m (fun _ => sim_inv)).
Abbreviation step := (sim_step rnd now toString36 toString16).

Lemma keeps_on_mock {A} (m : M A) : hoare mock_inv m (fun _ => mock_inv) -> keepsW (on_mock m).
Proof.
  intros H w [Hk Ht]. unfold on_mock. specialize (H _ Hk). destruct (m (sm_mock w)) as [[a|e] k]; done.
Qed.

Lemma keepsW_bind {A B} (m : W A) (f : A -> W B) : keepsW m -> (forall a, keepsW (f a)) -> keepsW (st_bind m f).
Proof. apply hoare_bind. Qed.

Lemma keepsW_weaken {A} (P : Sim -> Prop) (m : W A) :
  (forall w, P w -> sim_inv w) -> keepsW m -> hoare P m (fun _ => sim_inv).
Proof. intros HP. by apply hoare_conseq. Qed.

Lemma keepsW_clients f : keepsW (upd_clients f).
Proof. by intros w []. Qed.

Lemma keepsW_push t : timer_known (0%nat, t) -> keepsW (push_timer t).
Proof. intros Ht w [Hk Ha]. split; [done|]. apply Forall_app. by repeat constructor. Qed.

Lemma keepsW_ticks m : m ∈ market_ids ->
  keepsW (tick_book rnd now m) /\ keepsW (tick_trade rnd now toString36 m) /\
  keepsW (tick_oracle now m) /\ keepsW (tick_funding rnd now m) /\ keepsW (scheduleTrade rnd m).
Proof.
  intros Hm.
  assert (Hs : keepsW (scheduleTrade rnd m)).
  { apply keepsW_bind; [apply keeps_on_mock, keeps_random|]. intros r. by apply keepsW_push. }
  split; [|split; [|split; [|split; [|done]]]].
  - apply keepsW_bind; [by apply keeps_on_mock, keeps_mutateBook|]. intros. apply keepsW_clients.
  - apply keepsW_bind; [by apply keeps_on_mock, keeps_spawnTrade|]. intros t.
    apply keepsW_bind; [apply keepsW_clients|]. intros _. done.
  - apply keepsW_bind; [by apply keeps_on_mock, keeps_oraclePrice|]. intros p.
    do 2 (apply keepsW_bind; [apply keeps_on_mock, keeps_now|]; intros ?).
    apply keepsW_bind; [apply keepsW_clients|]. intros _. apply keeps_on_mock, keeps_refreshMarks.
  - eapply (hoare_bind _ (fun ms w => sim_inv w /\ market_ok ms)).
    { intros w [Hk Ht]. unfold on_mock. pose proof (get_market_ok m Hm _ Hk) as H.
      destruct (get_market m (sm_mock w)) as [[a|e] k]; [|done]. destruct H. done. }
    intros ms. apply hoare_pure. intros Hok. apply keepsW_bind; [apply keeps_on_mock, keeps_random|]. intros r.
    apply keepsW_bind; [|intros _; apply keepsW_bind; [apply keeps_on_mock, keeps_now|]; intros; apply keepsW_clients].
    apply keeps_on_mock, put_market_ok; [done|]. destruct Hok. by split.
Qed.

Lemma keepsW_fire id : keepsW (fire rnd now toString36 id).
Proof.
  apply hoare_get. intros w0 Hw0. destruct (list_find (fun t => t.1 = id) (sm_armed w0)) as [[j [i t]]|] eqn:E.
  2:{ apply hoare_ret. by intros w []. }
  apply list_find_Some in E as (Ej & _ & _).
  pose proof (Forall_lookup_1 _ _ _ _ (proj2 Hw0) Ej) as Ht. unfold timer_known in Ht. simpl in Ht.
  apply keepsW_weaken; [by intros ? []|].
  destruct t as [m|m wait|m|m|]; simpl in Ht.
  - by apply keepsW_ticks.
  - apply keepsW_bind; [|intros _; by apply keepsW_ticks]. apply hoare_put. intros _ _.
    destruct Hw0 as [Hk Ha]. split; [done|]. simpl. rewrite Forall_forall in Ha |- *. intros x Hx.
    apply Ha. rewrite list_elem_of_In, filter_In, <- list_elem_of_In in Hx. by destruct Hx.
  - by apply keepsW_ticks.
  - by apply keepsW_ticks.
  - apply keepsW_bind; [apply keeps_on_mock, keeps_now|]. intros. apply keepsW_clients.
Qed.

Lemma keepsW_snapshot s ch : keepsW (send_snapshot now s ch).
Proof.
  unfold send_snapshot. destruct (startsWith _ _); [|by apply hoare_ret].
  apply hoare_get. intros w0 Hw0. unfold jm_has. case_bool_decide as Hm; [|apply hoare_ret; by intros w []].
  apply keepsW_weaken; [by intros ? []|].
  apply keepsW_bind; [|intros; apply keepsW_clients]. apply keeps_on_mock, keeps_snapshotOf.
  rewrite <- (mi_keys _ (proj1 Hw0)). destruct (decide (str_drop 10 ch ∈ jm_keys (k_markets (sm_mock w0)))) as [|Hn]; [done|].
  apply jm_get_None in Hn. exfalso. rewrite Hn in Hm. by apply is_Some_None in Hm.
Qed.

(** The frames the socket server cannot read: [null], and a subscription to
    something that is truthy and not a text. *)
Definition malformed_frame (raw : option JsonValue) : bool :=
  match raw with
  | Some JsNull => true
  | Some (JsObject _ as msg) =>
      is_text "subscribe" (member "op" msg) && value_truthy (member "channel" msg) &&
      match member "channel" msg with Some (JsString _) => false | _ => true end
  | _ => false
  end.

Definition malformed (e : sim_event) : bool :=
  match e with SMessage _ raw => malformed_frame raw | SRequest r => unreadable r | _ => false end.

Lemma malformed_throws e w : malformed e = true -> exists er, step e w = (Throw er, w).
Proof.
  destruct e as [s|s raw|s|id|r]; cbn [malformed]; intros He; try done.
  - destruct raw as [[| | | | |fs]|]; try done; [by eexists|]. cbn [malformed_frame sim_step on_message] in *.
    apply andb_true_iff in He as [-> He]. destruct (member "channel" _) as [[]|]; try done; by eexists.
  - destruct (unreadable_throws rnd now toString36 toString16 r (sm_mock w) He) as [er E]. exists er.
    unfold sim_step, st_bind, on_mock. rewrite E. by destruct w.
Qed.

Lemma keepsW_step e : malformed e = false -> keepsW (step e).
Proof.
  destruct e as [s|s raw|s|id|r]; cbn [malformed sim_step]; intros He.
  - apply keepsW_clients.
  - destruct raw as [[| | | | |fs]|]; try done; try by apply hoare_ret. cbn [malformed_frame on_message] in *. cbv zeta.
    destruct (is_text "subscribe" _ && _); cbn [andb] in He.
    + destruct (member "channel" _) as [[]|]; try done.
      apply keepsW_bind; [apply keepsW_clients|]. intros _. apply keepsW_snapshot.
    + destruct (is_text "unsubscribe" _ && _); [|by apply hoare_ret].
      destruct (member "channel" _) as [[]|]; try (by apply hoare_ret). apply keepsW_clients.
  - apply keepsW_clients.
  - apply keepsW_fire.
  - apply keepsW_bind; [by apply keeps_on_mock, keeps_handle|]. intros. by apply hoare_ret.
Qed.

Definition is_throw (r : result unit) : bool := match r with Throw _ => true | Ok _ => false end.

Lemma step_outcome e w : sim_inv w -> is_throw (step e w).1 = malformed e /\ sim_inv (step e w).2.
Proof.
  intros Hi. destruct (malformed e) eqn:E.
  - destruct (malformed_throws e w E) as [er ->]. done.
  - pose proof (keepsW_step e E w Hi) as H. by destruct (step e w) as [[[]|er] w1].
Qed.

Lemma run_outcome es : forall w, sim_inv w ->
  let '(rs, w') := sim_run rnd now toString36 toString16 es w in map is_throw rs = map malformed es /\ sim_inv w'.
Proof.
  induction es as [|e es IH]; intros w Hi; [done|]. cbn [sim_run].
  destruct (step_outcome e w Hi) as [Hr Hi1]. destruct (step e w) as [r w1]. cbn [fst snd] in *.
  specialize (IH w1 Hi1). destruct (sim_run _ _ _ _ es w1) as [rs w2]. destruct IH as [IH Hi2].
  split; [|done]. cbn [map]. by rewrite Hr, IH.
Qed.

Lemma start_sim_inv k : mock_inv k -> hoare (fun w => w = new_sim k) (startMockWsServer rnd) (fun _ => sim_inv).
Proof.
  intros Hk w ->. unfold startMockWsServer, st_bind at 1. simpl.
  set (w1 := mkSim k true [] [] [] 0).
  assert (Hw1 : sim_inv w1) by (split; [done|constructor]).
  assert (H : hoare (fun w => sim_inv w /\ k_markets (sm_mock w) = k_markets k) (startSimulation rnd) (fun _ => sim_inv)).
  { apply hoare_get. intros w0 [_ E]. rewrite E.
    apply keepsW_weaken; [by intros ? [? [? ?]]|].
    apply keepsW_bind; [|intros _; by apply keepsW_push]. apply (hoare_for (fun _ => sim_inv)).
    intros m _ Hm. rewrite (mi_keys k Hk) in Hm.
    apply keepsW_bind; [by apply keepsW_push|]. intros _.
    apply keepsW_bind; [by apply keepsW_ticks|]. intros _.
    apply keepsW_bind; [by apply keepsW_push|]. intros _. by apply keepsW_push. }
  exact (H w1 (conj Hw1 eq_refl)).
Qed.

End Running.


(** ** A client's book against the server's *)

(** The prices a snapshot settles: all of them when the book fits, and
    otherwise those better than one of the levels shown. *)
Definition settled (better : OrderbookLevel -> OrderbookLevel -> bool) (server : Book)
    (shown : list OrderbookLevel) (p : string) : Prop :=
  (size server <= snapshot_depth)%nat \/ exists x, x ∈ shown /\ better (p, "") x = true.

Lemma snapshot_covers (better : OrderbookLevel -> OrderbookLevel -> bool) server shown :
  (forall p q q' x, better (p, q) x = better (p, q') x) ->
  ladder_of snapshot_depth better server shown ->
  covers (settled better server shown) (list_to_map shown) server.
Proof.
  intros Hprice [Ls Lnodup Lsound Llen Lbest]. assert (Hl : forall p q, (list_to_map shown : Book) !! p = Some q <-> (p, q) ∈ shown).
  { intros p q. split; [apply elem_of_list_to_map_2 | by apply elem_of_list_to_map_1]. }
  split.
  - apply map_subseteq_spec. intros p q Hp. apply Lsound. by apply Hl.
  - intros p q Hset Hq. apply Hl. destruct (decide ((p, q) ∈ shown)) as [|Hn]; [done|exfalso].
    destruct Hset as [Hsz|(x & Hx & Hb)].
    + assert (Hperm : shown ≡ₚ map_to_list server).
      { rewrite Nat.min_r in Llen by done. apply submseteq_length_Permutation.
        - apply NoDup_submseteq; [by apply NoDup_fmap_1 in Lnodup|].
          intros [p' q'] Hin. apply elem_of_map_to_list. by apply Lsound.
        - transitivity (size server); [|lia]. rewrite <- length_map_to_list. apply Nat.le_refl. }
      apply Hn. rewrite Hperm. by apply elem_of_map_to_list.
    + specialize (Lbest p q x Hq Hn Hx). rewrite (Hprice p q "" x) in Lbest. congruence.
Qed.

(** A full ladder of settled prices is the server's ladder. *)
Lemma covers_ladder (better : OrderbookLevel -> OrderbookLevel -> bool) (P : string -> Prop) client server n l :
  (forall x y, P y.1 -> better x y = true -> P x.1) ->
  covers P client server -> ladder_of n better client l -> length l = n -> Forall (fun x => P x.1) l ->
  ladder_of n better server l.
Proof.
  intros Hup [Hsub Hcov] [Ls Lnodup Lsound Llen Lbest] Hn Hin.
  assert (Hsz : (size client <= size server)%nat) by (by apply map_subseteq_size).
  split; try done.
  - intros p q Hpq. eapply lookup_weaken; [by apply Lsound|done].
  - lia.
  - intros p q x Hq Hni Hx. destruct (better (p, q) x) eqn:E; [|done].
    rewrite Forall_forall in Hin. assert (Hp : P p) by (apply (Hup (p, q) x); auto).
    rewrite <- E. apply Lbest; auto.
Qed.

Lemma bid_settled_up server shown x y :
  settled bid_better server shown y.1 -> bid_better x y = true -> settled bid_better server shown x.1.
Proof.
  intros [H|(z & Hz & Hb)] Hxy; [by left|right]. exists z. split; [done|]. unfold bid_better in *. simpl in *.
  apply num_ltb_key in Hb as (?&?&?), Hxy as (?&?&?). apply num_ltb_key. eauto using key_lt_trans.
Qed.
Lemma ask_settled_up server shown x y :
  settled ask_better server shown y.1 -> ask_better x y = true -> settled ask_better server shown x.1.
Proof.
  intros [H|(z & Hz & Hb)] Hxy; [by left|right]. exists z. split; [done|]. unfold ask_better in *. simpl in *.
  apply num_ltb_key in Hb as (?&?&?), Hxy as (?&?&?). apply num_ltb_key. eauto using key_lt_trans.
Qed.

(** ** [mutateBook] publishes what it does *)

(** Every quantity the simulation draws is a non-zero decimal. *)
Definition draws_ok (rnd : nat -> number) (lotSize : string) : Prop :=
  forall j, qty_is_zero (toFixed (rnd j * nint 2 + n_lit 5 (-2))%num (decFromStep lotSize)) = false.

(** The part of a market the order-book channel is about. *)
Record BookView := mkView { bv_lot : string; bv_bids : list OrderbookLevel; bv_asks : list OrderbookLevel; bv_seq : Z }.

Definition view_of (m : MarketState) : BookView :=
  mkView (mk_lotSize (ms_market m)) (ms_bids m) (ms_asks m) (ms_sequence m).

Definition bookview (mkt : MarketId) (k : Mock) : option BookView := view_of <$> jm_get mkt (k_markets k).

Lemma st_bind_Ok {S A B} (m : St S A) (f : A -> St S B) s a s' :
  m s = (Ok a, s') -> st_bind m f s = f a s'.
Proof. unfold st_bind. by intros ->. Qed.

Lemma get_market_eq id k m : jm_get id (k_markets k) = Some m -> get_market id k = (Ok m, k).
Proof. unfold get_market, st_bind. simpl. by intros ->. Qed.

Section Mutate.
Variables (rnd : nat -> number) (now : nat -> Z).

(** The mutated maps are the old ones with the recorded deltas applied. *)
Definition recorded (b a : Book) (mu : Mutation) : Prop :=
  represents (mu_bids mu) (book_delta b (mu_dbids mu)) /\
  represents (mu_asks mu) (book_delta a (mu_dasks mu)).

Lemma represents_set m b p q :
  qty_is_zero q = false -> represents m b -> represents (jm_set p q m) (book_delta b [(p, q)]).
Proof.
  intros Hq Hr. assert (E : jm_set p q m = applyDelta m [(p, q)]) by (unfold applyDelta; simpl; by rewrite Hq).
  rewrite E. by apply applyDelta_represents.
Qed.

Lemma represents_delete m b p : represents m b -> represents (jm_delete p m) (book_delta b [(p, "0")]).
Proof. intros Hr. change (jm_delete p m) with (applyDelta m [(p, "0")]). by apply applyDelta_represents. Qed.

Lemma book_delta_app b l1 l2 : book_delta b (l1 ++ l2) = book_delta (book_delta b l1) l2.
Proof. unfold book_delta. by rewrite foldl_app. Qed.

Lemma mutate_once_recorded lot a t td b s mu k mu' k' :
  draws_ok rnd lot -> recorded b s mu ->
  mutate_once rnd a t td (decFromStep lot) mu k = (Ok mu', k') ->
  recorded b s mu' /\ k_markets k' = k_markets k.
Proof.
  intros Hd [Hb Hs]. unfold mutate_once, random_qty, Math_random, st_bind, st_ret. cbn zeta.
  set (isBid := (rnd (k_rnd k) <? n_lit 5 (-1))%num).
  destruct (rnd _ <? n_lit 18 (-2))%num.
  - destruct (jm_has _ _); intros [= <- <-]; (split; [|done]); [|done].
    unfold mutate_side, recorded. destruct isBid; simpl; rewrite book_delta_app;
      split; try done; by apply represents_delete.
  - intros [= <- <-]. split; [|done].
    unfold mutate_side, recorded. destruct isBid; simpl; rewrite book_delta_app;
      split; try done; apply represents_set; done || apply Hd.
Qed.

Lemma mutate_for_recorded lot a t td b s (xs : list Z) : forall mu k mu' k',
  draws_ok rnd lot -> recorded b s mu ->
  st_for xs mu (fun _ mu => mutate_once rnd a t td (decFromStep lot) mu) k = (Ok mu', k') ->
  recorded b s mu' /\ k_markets k' = k_markets k.
Proof.
  induction xs as [|x xs IH]; simpl; intros mu k mu' k' Hd Hr.
  - unfold st_ret. by intros [= <- <-].
  - unfold st_bind. destruct (mutate_once rnd a t td (decFromStep lot) mu k) as [[mu1|e] k1] eqn:E; [|done].
    destruct (mutate_once_recorded _ _ _ _ _ _ _ _ _ _ Hd Hr E) as [Hr1 Ek]. intros H.
    destruct (IH _ _ _ _ Hd Hr1 H) as [H1 H2]. split; [done|congruence].
Qed.

Lemma mutateBook_spec mkt k d k' v b a :
  bookview mkt k = Some v -> draws_ok rnd (bv_lot v) ->
  represents (bv_bids v) b -> represents (bv_asks v) a ->
  mutateBook rnd now mkt k = (Ok d, k') ->
  exists v', bookview mkt k' = Some v' /\ bv_lot v' = bv_lot v /\ bv_seq v' = bv_seq v + 1 /\
    bd_sequence d = bv_seq v' /\
    represents (bv_bids v') (book_delta b (bd_bids d)) /\ represents (bv_asks v') (book_delta a (bd_asks d)) /\
    forall id, id <> mkt -> bookview id k' = bookview id k.
Proof.
  unfold bookview at 1. destruct (jm_get mkt (k_markets k)) as [m|] eqn:Em; [|done].
  intros [= <-] Hd Hb Ha. unfold mutateBook. erewrite st_bind_Ok by (by apply get_market_eq).
  erewrite st_bind_Ok by reflexivity.
  set (k1 := with_streams _ _ k). set (anchor := (_ + _)%num). unfold st_bind at 1.
  destruct (st_for [0; 1; 2] _ _ k1) as [[mu|e] k2] eqn:E; [|done].
  assert (H0 : recorded b a (mkMutation (ms_bids m) (ms_asks m) [] [])) by done.
  destruct (mutate_for_recorded _ _ _ _ _ _ _ _ _ _ _ Hd H0 E) as [[Rb Ra] Ek].
  unfold put_market, nowNs, st_bind, st_get, st_put, st_ret. intros [= <- <-].
  set (m' := with_ms_sequence _ _).
  exists (view_of m'). unfold bookview; simpl. rewrite Ek. simpl. rewrite jm_get_set, decide_True by done.
  do 6 (split; [done|]). intros id Hid. by rewrite jm_get_set, decide_False.
Qed.
End Mutate.

(** ** Everything else leaves the book alone *)

Section Frame.
Variables (rnd : nat -> number) (now : nat -> Z) (toString36 toString16 : number -> string).
Variable mkt : MarketId.

Definition frame {A} (m : M A) : Prop := forall k, bookview mkt (m k).2 = bookview mkt k.

Lemma frame_ret {A} (a : A) : frame (st_ret a).
Proof. by intros k. Qed.

Lemma frame_bind {A B} (m : M A) (f : A -> M B) : frame m -> (forall a, frame (f a)) -> frame (st_bind m f).
Proof.
  intros Hm Hf k. unfold st_bind. specialize (Hm k). destruct (m k) as [[a|e] k']; simpl in *; [|done].
  by rewrite Hf.
Qed.

Lemma frame_get {B} (f : Mock -> M B) : (forall k, bookview mkt (f k k).2 = bookview mkt k) -> frame (st_bind st_get f).
Proof. intros H k. apply H. Qed.

Lemma frame_for {A B} (xs : list A) (body : A -> B -> M B) :
  (forall x acc, frame (body x acc)) -> forall acc, frame (st_for xs acc body).
Proof.
  intros Hb. induction xs as [|x xs IH]; simpl; intros acc; [apply frame_ret|]. by apply frame_bind.
Qed.

Lemma frame_random : frame (Math_random rnd).
Proof. by intros k. Qed.
Lemma frame_now : frame (nowNs now).
Proof. by intros k. Qed.
Lemma frame_get_market id : frame (get_market id).
Proof. intros k. unfold get_market, st_bind; simpl. by destruct (jm_get id _). Qed.

Hint Resolve frame_ret frame_random frame_now frame_get_market : perplex.

Lemma frame_assoc {A B C} (m : M A) (f : A -> M B) (g : B -> M C) :
  frame (st_bind m (fun a => st_bind (f a) g)) -> frame (st_bind (st_bind m f) g).
Proof. intros H k. specialize (H k). revert H. unfold st_bind. by destruct (m k) as [[a|e] k']. Qed.

Lemma frame_spawnTrade id : frame (spawnTrade rnd now toString36 id).
Proof.
  intros k. unfold spawnTrade. destruct (jm_get id (k_markets k)) as [m|] eqn:Em.
  - erewrite st_bind_Ok by (by apply get_market_eq). unfold bookview; simpl.
    rewrite jm_get_set. case_decide; [|done]. subst id. by rewrite Em.
  - unfold st_bind, get_market, st_bind; simpl. by rewrite Em.
Qed.

Lemma frame_refreshMarks : frame (refreshMarks now).
Proof.
  apply frame_get. intros k. apply frame_for. intros j _ k1. unfold st_bind at 1; simpl.
  destruct (k_positions k1 !! j) as [p|]; [|done].
  assert (Hr : frame (refresh_one now p)).
  { apply frame_bind; [apply frame_bind; auto with perplex|]. intros x. apply frame_bind; auto with perplex. }
  specialize (Hr k1). unfold st_bind. destruct (refresh_one now p k1) as [[p'|e] k2]; simpl in *; done.
Qed.

Lemma frame_snapshotOf id : frame (snapshotOf now id).
Proof. apply frame_get. intros k. by destruct (jm_get id (k_markets k)). Qed.

Lemma frame_handle r : frame (handle rnd now toString36 toString16 r).
Proof.
  destruct r; unfold handle, handlers; try (intros k; done);
    try (unfold get_orderbook, get_trades, get_funding; destruct (negb (known _)); [by intros k|]).
  - apply (frame_bind (snapshotOf now id)); [apply frame_snapshotOf|auto with perplex].
  - apply (frame_bind (recentPublicTrades id _)); [apply frame_bind; auto with perplex|auto with perplex].
  - apply (frame_bind (fundingFrame id)); [apply frame_bind; auto with perplex|auto with perplex].
  - destruct body as [| | |body]; [by intros k..|]. unfold post_orders, post_order.
    destruct (negb (known _)); [by intros k|].
    assert (Ho : forall ts, frame (apply_market_order body ts)).
    { intros ts. apply frame_bind; [auto with perplex|]. intros m. apply frame_get. intros k. cbv zeta.
      by repeat case_match. }
    apply frame_assoc, frame_bind; [auto with perplex|]. intros r.
    apply frame_assoc, frame_bind; [auto with perplex|]. intros t.
    apply frame_assoc, frame_bind; [|by intros _ k1].
    destruct (or_type body); [|by intros k1].
    do 2 (apply frame_bind; [auto with perplex|]; intros ?).
    apply frame_bind; [by intros k1|]. intros _. apply frame_bind; [apply Ho|]. intros _. apply frame_refreshMarks.
  - intros k. unfold get_positions, st_bind. pose proof (frame_refreshMarks k) as H.
    destruct (refreshMarks now k) as [[[]|e] k']; done.
Qed.
End Frame.

(** ** Server and hook in lockstep *)

(** The hook after the frames a client was sent, with the calls it made. *)
Definition consume (ms : list WsMessage) (h : BookHook) : BookHook * list call :=
  foldl (fun hc m => let '(h', cs) := onBookMessage 0 m hc.1 in (h', hc.2 ++ cs)) (h, []) ms.

Definition clients_of (s : nat) (w : Sim) : list ClientState :=
  List.filter (fun c => Nat.eqb (cs_socket c) s) (sm_clients w).

(** The frame has the effect of revision [v] on a hook that covers it. *)
Definition follows (Pb Pa : string -> Prop) (mkt : MarketId) (v : BookView) (h : BookHook) : Prop :=
  one_effect mkt h /\ 0 < bv_seq v /\ h_seq h = bv_seq v /\
  exists sb sa cb ca,
    represents (bv_bids v) sb /\ represents (bv_asks v) sa /\
    represents (h_bids h) cb /\ represents (h_asks h) ca /\
    covers Pb cb sb /\ covers Pa ca sa.

Lemma follows_delta Pb Pa mkt v v' h d :
  follows Pb Pa mkt v h -> wd_channel d = book_channel mkt ->
  wd_sequence d = bv_seq v' -> bv_seq v' = bv_seq v + 1 ->
  (forall b a, represents (bv_bids v) b -> represents (bv_asks v) a ->
     represents (bv_bids v') (book_delta b (wd_bids d)) /\ represents (bv_asks v') (book_delta a (wd_asks d))) ->
  exists h', onBookMessage 0 (MDelta d) h = (h', []) /\ follows Pb Pa mkt v' h'.
Proof.
  intros (He & Hp & Hs & sb & sa & cb & ca & R1 & R2 & R3 & R4 & C1 & C2) Hc Hd Hv Hstep.
  pose proof He as (ts & raf & Ee). unfold onBookMessage. rewrite Ee. simpl.
  rewrite Hc, bool_decide_true by done. simpl. rewrite Hd, Hv, Hs, Z.eqb_refl. simpl.
  set (h1 := set_refs _ _ _ h). eexists. split; [done|].
  destruct (scheduleFlush_same 0 (wd_tsNs d) h1) as (E1 & E2 & E3 & _).
  destruct (Hstep sb sa R1 R2) as [S1 S2].
  split; [by apply (one_effect_upd mkt h1 _ 0%nat id)|]. split; [lia|]. split; [by rewrite E3, Hv|].
  exists (book_delta sb (wd_bids d)), (book_delta sa (wd_asks d)),
    (book_delta cb (wd_bids d)), (book_delta ca (wd_asks d)).
  rewrite E1, E2. do 2 (split; [done|]). do 2 (split; [by apply applyDelta_represents|]).
  split; by apply covers_delta.
Qed.

Lemma quiet_message mkt m h :
  one_effect mkt h -> msg_channel m <> Some (book_channel mkt) -> onBookMessage 0 m h = (h, []).
Proof.
  intros (ts & raf & Ee) Hm. unfold onBookMessage. rewrite Ee. simpl. by rewrite bool_decide_false.
Qed.

Lemma consume_snoc ms m h : consume (ms ++ [m]) h =
  let '(h1, cs1) := consume ms h in let '(h2, cs2) := onBookMessage 0 m h1 in (h2, cs1 ++ cs2).
Proof. unfold consume. rewrite foldl_app. simpl. by destruct (foldl _ (h, []) ms). Qed.

Lemma filter_socket_map s (f : ClientState -> ClientState) cs :
  (forall c, cs_socket (f c) = cs_socket c) ->
  List.filter (fun c => Nat.eqb (cs_socket c) s) (map f cs) =
  map f (List.filter (fun c => Nat.eqb (cs_socket c) s) cs).
Proof.
  intros Hf. induction cs as [|c cs IH]; simpl; [done|].
  rewrite Hf. destruct (Nat.eqb _ _); simpl; by rewrite IH.
Qed.

Section Lockstep.
Variables (rnd : nat -> number) (now : nat -> Z) (toString36 toString16 : number -> string).
Variables (mkt : MarketId) (lot : string) (s : nat) (Pb Pa : string -> Prop).
Hypothesis Hmkt : mkt ∈ market_ids.
Hypothesis Hdraws : draws_ok rnd lot.

Definition tracks (w : Sim) : Prop :=
  exists c v h,
    clients_of s w = [c] /\ book_channel mkt ∈ cs_subs c /\
    bookview mkt (sm_mock w) = Some v /\ bv_lot v = lot /\
    consume (cs_frames c) (mount_book mkt new_hook).1 = (h, []) /\
    follows Pb Pa mkt v h.

(** The computation keeps the hook in step, whatever it returns. *)
Definition pres {A} (m : W A) : Prop := forall w, tracks w -> tracks (m w).2.

Lemma pres_ret {A} (a : A) : pres (st_ret a).
Proof. by intros w. Qed.
Lemma pres_bind {A B} (m : W A) (f : A -> W B) : pres m -> (forall a, pres (f a)) -> pres (st_bind m f).
Proof.
  intros Hm Hf w Hw. unfold st_bind. specialize (Hm w Hw). destruct (m w) as [[a|e] w']; simpl in *; [|done].
  by apply Hf.
Qed.
Lemma pres_get {B} (f : Sim -> W B) : (forall w, pres (f w)) -> pres (st_bind st_get f).
Proof. intros Hf w Hw. by apply (Hf w). Qed.

Lemma pres_on_mock {A} (m : M A) : frame mkt m -> pres (on_mock m).
Proof.
  intros Hf w (c & v & h & H1 & H2 & H3 & H4 & H5 & H6). unfold on_mock. specialize (Hf (sm_mock w)).
  destruct (m (sm_mock w)) as [r k]. simpl in Hf. exists c, v, h.
  split; [exact H1|]. split; [done|]. split; [by rewrite <- H3, <- Hf|]. done.
Qed.

Lemma pres_push t : pres (push_timer t).
Proof. by intros w Hw. Qed.

Lemma clients_of_map (f : ClientState -> ClientState) w :
  (forall c, cs_socket (f c) = cs_socket c) ->
  clients_of s (upd_clients (map f) w).2 = map f (clients_of s w).
Proof.
  intros Hf. unfold clients_of, upd_clients; simpl. by apply filter_socket_map.
Qed.

(** Frames of other channels are not for this hook. *)
Lemma pres_frames (f : ClientState -> ClientState) :
  (forall c, cs_socket (f c) = cs_socket c /\ cs_subs (f c) = cs_subs c /\
     (cs_frames (f c) = cs_frames c \/
      exists m, cs_frames (f c) = cs_frames c ++ [m] /\ msg_channel m <> Some (book_channel mkt))) ->
  pres (upd_clients (map f)).
Proof.
  intros Hf w (c & v & h & H1 & H2 & H3 & H4 & H5 & H6). exists (f c), v, h.
  destruct (Hf c) as (E1 & E2 & E3). split; [rewrite clients_of_map, H1; [done|apply Hf]|].
  split; [by rewrite E2|]. do 2 (split; [done|]). split; [|done].
  destruct E3 as [->|(m & -> & Hq)]; [done|]. rewrite consume_snoc, H5.
  destruct H6 as (He & _). by rewrite (quiet_message mkt m h He Hq).
Qed.

Lemma pres_broadcast flt m : msg_channel m <> Some (book_channel mkt) -> pres (broadcast flt m).
Proof.
  intros Hq. apply pres_frames. intros c. destruct (existsb flt (cs_subs c)); simpl; eauto 6.
Qed.

Lemma frame_put_other id m : id <> mkt -> frame mkt (put_market id m).
Proof.
  intros Hid k. unfold put_market, bookview; simpl. by rewrite jm_get_set, decide_False.
Qed.

Lemma frame_mutateBook id : id <> mkt -> frame mkt (mutateBook rnd now id).
Proof.
  intros Hid. apply frame_bind; [apply frame_get_market|]. intros m.
  apply frame_bind; [apply frame_random|]. intros r. apply frame_bind.
  - apply frame_for. intros _ mu. do 3 (apply frame_bind; [apply frame_random|]; intros ?).
    cbn zeta. destruct (_ <? _)%num; [by destruct (jm_has _ _)|].
    apply frame_bind; [|by intros ??]. apply frame_bind; [apply frame_random|]. by intros ??.
  - intros mu. apply frame_bind; [by apply frame_put_other|]. intros _.
    apply frame_bind; [apply frame_now|]. by intros ??.
Qed.

(** The one tick that matters: a change of this book. *)
Lemma tracks_tick_book w : sim_inv w -> tracks w -> tracks (tick_book rnd now mkt w).2.
Proof.
  intros [Hk _] (c & v & h & H1 & H2 & H3 & H4 & H5 & H6). unfold tick_book.
  pose proof (keeps_mutateBook rnd now mkt Hmkt _ Hk) as Hok.
  destruct (mutateBook rnd now mkt (sm_mock w)) as [[d|e] k'] eqn:E; [|done].
  erewrite st_bind_Ok by (unfold on_mock; by rewrite E).
  set (wd := mkWsDelta _ _ _ _ _).
  assert (Hspec : exists v', bookview mkt k' = Some v' /\ bv_lot v' = lot /\ bv_seq v' = bv_seq v + 1 /\
     wd_sequence wd = bv_seq v' /\
     forall b a, represents (bv_bids v) b -> represents (bv_asks v) a ->
       represents (bv_bids v') (book_delta b (wd_bids wd)) /\ represents (bv_asks v') (book_delta a (wd_asks wd))).
  { pose proof H6 as (_ & _ & _ & sb & sa & _ & _ & R1 & R2 & _). rewrite <- H4 in Hdraws.
    destruct (mutateBook_spec rnd now mkt _ d k' v sb sa H3 Hdraws R1 R2 E) as (v' & V1 & V2 & V3 & V4 & _).
    exists v'. do 2 (split; [congruence|]). do 2 (split; [done|]). intros b a Rb Ra.
    destruct (mutateBook_spec rnd now mkt _ d k' v b a H3 Hdraws Rb Ra E) as (v2 & W1 & _ & _ & _ & W5 & W6 & _).
    assert (v2 = v') as -> by congruence. done. }
  destruct Hspec as (v' & V1 & V2 & V3 & V4 & V5).
  destruct (follows_delta Pb Pa mkt v v' h wd H6 eq_refl V4 V3 V5) as (h' & Hm & Hf).
  set (w1 := mkSim k' _ _ _ _ _). unfold broadcast.
  assert (Hc1 : clients_of s w1 = [c]) by exact H1.
  set (flt := fun ch => String.eqb ch _).
  assert (Hflt : existsb flt (cs_subs c) = true).
  { apply existsb_exists. exists (book_channel mkt). split; [by apply list_elem_of_In|]. apply string_eqb_refl. }
  exists (send_frame (MDelta wd) c), v', h'. split; [|split; [done|split; [done|split; [done|]]]].
  - rewrite clients_of_map, Hc1; [simpl; by rewrite Hflt|]. intros c0. by destruct (existsb flt (cs_subs c0)).
  - split; [|done]. change (cs_frames (send_frame (MDelta wd) c)) with (cs_frames c ++ [MDelta wd]).
    rewrite consume_snoc, H5, Hm. done.
Qed.

(** What the rest of the world may do: anything on other connections. *)
Definition elsewhere (e : sim_event) : Prop :=
  match e with SConnect s' | SMessage s' _ | SClose s' => s' <> s | _ => True end.

Lemma pres_other_clients f :
  (forall cs, List.filter (fun c => Nat.eqb (cs_socket c) s) (f cs) =
              List.filter (fun c => Nat.eqb (cs_socket c) s) cs) -> pres (upd_clients f).
Proof.
  intros Hf w (c & v & h & H1 & H). exists c, v, h. split; [|done]. unfold clients_of; simpl. by rewrite Hf.
Qed.

Lemma pres_upd_client s' f :
  s' <> s -> (forall c, cs_socket (f c) = cs_socket c) -> pres (upd_client s' f).
Proof.
  intros Hs Hf. apply pres_other_clients. intros cs. induction cs as [|c cs IH]; simpl; [done|].
  destruct (Nat.eqb_spec (cs_socket c) s') as [E|E]; rewrite ?Hf;
    destruct (Nat.eqb_spec (cs_socket c) s); simpl; rewrite IH; congruence.
Qed.

Lemma pres_tick_book_other m : m <> mkt -> pres (tick_book rnd now m).
Proof.
  intros Hm. apply pres_bind; [by apply pres_on_mock, frame_mutateBook|]. intros d. apply pres_broadcast.
  simpl. by intros [= E].
Qed.

Lemma pres_tick_trade m : pres (tick_trade rnd now toString36 m).
Proof.
  apply pres_bind; [apply pres_on_mock, frame_spawnTrade|]. intros t.
  apply pres_bind; [by apply pres_broadcast|]. intros _.
  apply pres_bind; [apply pres_on_mock, frame_random|]. intros r. apply pres_push.
Qed.

Lemma pres_tick_oracle m : pres (tick_oracle now m).
Proof.
  apply pres_bind.
  { apply pres_on_mock. apply frame_bind; [apply frame_get_market|]. by intros ??. }
  intros p. do 2 (apply pres_bind; [apply pres_on_mock, frame_now|]; intros ?).
  apply pres_bind; [by apply pres_broadcast|]. intros _. apply pres_on_mock, frame_refreshMarks.
Qed.

(** The funding write keeps the view of its market. *)
Lemma pres_tick_funding m : pres (tick_funding rnd now m).
Proof.
  intros w Hw. unfold tick_funding.
  destruct (jm_get m (k_markets (sm_mock w))) as [x|] eqn:Em.
  2:{ unfold st_bind, on_mock, get_market, st_bind; simpl. rewrite Em. simpl. by destruct w. }
  erewrite st_bind_Ok by (unfold on_mock; by rewrite (get_market_eq _ _ _ Em)).
  do 2 erewrite st_bind_Ok by reflexivity.
  match goal with |- tracks (st_bind ?m ?f ?w1).2 => assert (Hp : pres (st_bind m f)) end.
  { apply pres_bind; [apply pres_on_mock, frame_now|]. intros t. by apply pres_broadcast. }
  apply Hp. clear Hp. destruct Hw as (c & v & h & H1 & H2 & H3 & H).
  exists c, v, h. split; [exact H1|]. split; [done|].
  split; [|done]. rewrite <- H3. unfold bookview; simpl. rewrite jm_get_set. case_decide; [|done].
  subst m. by rewrite Em.
Qed.

Lemma pres_tick_ping : pres (tick_ping now).
Proof.
  apply pres_bind; [apply pres_on_mock, frame_now|]. intros t. apply pres_frames. intros c. simpl.
  split; [done|]. split; [done|]. right. eauto.
Qed.

Lemma tracks_fire id w : sim_inv w -> tracks w -> tracks (fire rnd now toString36 id w).2.
Proof.
  intros Hi Ht. unfold fire. erewrite st_bind_Ok by reflexivity.
  destruct (list_find (fun t => t.1 = id) (sm_armed w)) as [[j [i [m|m wait|m|m|]]]|]; [..|done].
  - destruct (decide (m = mkt)) as [->|Hm]; [by apply tracks_tick_book|by apply pres_tick_book_other].
  - erewrite st_bind_Ok by reflexivity. by apply pres_tick_trade.
  - by apply pres_tick_oracle.
  - by apply pres_tick_funding.
  - by apply pres_tick_ping.
Qed.

Lemma pres_on_message s' raw : s' <> s -> pres (on_message now s' raw).
Proof.
  intros Hs. destruct raw as [[| | | | |fs]|]; try apply pres_ret; [by intros w Hw|]. unfold on_message. cbv zeta.
  destruct (is_text "subscribe" _ && _); [|destruct (is_text "unsubscribe" _ && _); [|apply pres_ret]];
    destruct (member "channel" _) as [[]|]; try apply pres_ret; try by intros w Hw.
  - apply pres_bind; [by apply pres_upd_client|]. intros _. unfold send_snapshot.
    destruct (startsWith _ _); [|apply pres_ret]. apply pres_get. intros w0.
    destruct (jm_has _ _); [|apply pres_ret].
    apply pres_bind; [apply pres_on_mock, frame_snapshotOf|]. intros snap. by apply pres_upd_client.
  - by apply pres_upd_client.
Qed.

Lemma tracks_step e w :
  elsewhere e -> sim_inv w -> tracks w -> tracks (sim_step rnd now toString36 toString16 e w).2.
Proof.
  destruct e as [s'|s' raw|s'|id|r]; cbn [elsewhere]; intros He Hi Ht.
  - refine (pres_other_clients (fun cs => cs ++ [mkClientState s' [] []]) _ w Ht). intros cs. rewrite List.filter_app. simpl.
    rewrite (proj2 (Nat.eqb_neq s' s) He). apply app_nil_r.
  - by apply pres_on_message.
  - refine (pres_other_clients (List.filter (fun c => negb (Nat.eqb (cs_socket c) s'))) _ w Ht).
    intros cs. induction cs as [|c cs IH]; simpl; [done|].
    destruct (Nat.eqb_spec (cs_socket c) s'), (Nat.eqb_spec (cs_socket c) s); simpl; try congruence.
    + destruct (Nat.eqb_spec (cs_socket c) s); [|done]. by rewrite IH.
    + destruct (Nat.eqb_spec (cs_socket c) s); [done|]. by rewrite IH.
  - by apply tracks_fire.
  - refine (pres_bind _ _ _ _ w Ht); [apply pres_on_mock, frame_handle|]. intros. apply pres_ret.
Qed.

Lemma tracks_run es : forall w,
  Forall elsewhere es -> sim_inv w -> tracks w ->
  tracks (sim_run rnd now toString36 toString16 es w).2.
Proof.
  induction es as [|e es IH]; intros w He Hi Ht; [done|]. cbn [sim_run].
  apply Forall_cons in He as [He Hes]. pose proof (proj2 (step_outcome rnd now toString36 toString16 e w Hi)) as Hi1.
  pose proof (tracks_step e w He Hi Ht) as Ht1.
  destruct (sim_step rnd now toString36 toString16 e w) as [r w1]. cbn [snd] in *.
  specialize (IH w1 Hes Hi1 Ht1). by destruct (sim_run _ _ _ _ es w1).
Qed.
End Lockstep.

(** The frame a client sends to subscribe to the book. *)
Definition subscribe_frame (mkt : MarketId) : option JsonValue :=
  Some (JsObject [("op", JsString "subscribe"); ("channel", JsString (book_channel mkt))]).

Section Subscribing.
Variables (rnd : nat -> number) (now : nat -> Z) (toString36 toString16 : number -> string).

Lemma hook_snapshot mkt snap :
  ws_channel snap = book_channel mkt -> exists h,
  onBookMessage 0 (MSnapshot snap) (mount_book mkt new_hook).1 = (h, []) /\ one_effect mkt h /\
  h_seq h = ws_sequence snap /\ h_bids h = jm_of_entries (ws_bids snap) /\ h_asks h = jm_of_entries (ws_asks snap).
Proof.
  intros Hc. eexists. unfold onBookMessage. simpl. rewrite Hc, bool_decide_true by done. simpl.
  split; [done|]. split; [by eexists _, _|done].
Qed.

Lemma subscribe_tracks w mkt s v b a :
  sim_inv w -> mkt ∈ market_ids -> clients_of s w = [mkClientState s [] []] ->
  bookview mkt (sm_mock w) = Some v -> represents (bv_bids v) b -> represents (bv_asks v) a ->
  prices_finite b -> prices_finite a ->
  exists w', on_message now s (subscribe_frame mkt) w = (Ok tt, w') /\ sim_inv w' /\
    tracks mkt (bv_lot v) s
      (settled bid_better b (take snapshot_depth (js_sort bid_after (bv_bids v))))
      (settled ask_better a (take snapshot_depth (js_sort ask_after (bv_asks v)))) w'.
Proof.
  intros Hi Hmkt Hc Hv Rb Ra Fb Fa.
  pose proof (keepsW_step rnd now toString36 toString16 (SMessage s (subscribe_frame mkt)) eq_refl w Hi) as Hk.
  cbn [sim_step] in Hk. unfold bookview in Hv.
  destruct (jm_get mkt (k_markets (sm_mock w))) as [m|] eqn:Em; [|done]. injection Hv as <-.
  assert (Hch : startsWith "orderbook." (book_channel mkt) = true /\ str_drop 10 (book_channel mkt) = mkt /\
                str_truthy (book_channel mkt) = true) by done.
  destruct Hch as (C1 & C2 & C3). change (on_message now s (subscribe_frame mkt)) with
    (let* _ := upd_client s (fun c => mkClientState (cs_socket c) (js_add (book_channel mkt) (cs_subs c)) (cs_frames c)) in
     send_snapshot now s (book_channel mkt)) in *.
  unfold upd_client, send_snapshot in *. rewrite C1, C2 in *.
  do 2 erewrite st_bind_Ok in Hk by reflexivity. do 2 erewrite st_bind_Ok by reflexivity.
  cbn [sm_mock upd_clients] in *.
  assert (Hh : jm_has mkt (k_markets (sm_mock w)) = true) by (unfold jm_has; apply bool_decide_true; by rewrite Em).
  rewrite Hh in *.
  set (k' := with_streams (k_rnd (sm_mock w)) (S (k_clock (sm_mock w))) (sm_mock w)).
  set (snap := mkSnapshot mkt (ms_sequence m) (take snapshot_depth (js_sort bid_after (ms_bids m)))
                 (take snapshot_depth (js_sort ask_after (ms_asks m)))
                 (nsStr (now (k_clock (sm_mock w)) * 1000000))).
  assert (Es : snapshotOf now mkt (sm_mock w) = (Ok snap, k')).
  { unfold snapshotOf, st_bind; simpl. by rewrite Em. }
  erewrite st_bind_Ok in Hk by (unfold on_mock; simpl; by rewrite Es).
  erewrite st_bind_Ok by (unfold on_mock; simpl; by rewrite Es).
  eexists. split; [done|]. split; [exact Hk|].
  set (frame_s := mkWsSnapshot (book_channel mkt) (ms_sequence m) (os_bids snap) (os_asks snap) (os_tsNs snap)).
  destruct (hook_snapshot mkt frame_s eq_refl) as (h & Hm & He & Hs & Hb & Ha).
  exists (mkClientState s [book_channel mkt] [MSnapshot frame_s]), (view_of m), h.
  assert (Lb := bid_ladder_correct snapshot_depth _ _ Rb Fb).
  assert (La := ask_ladder_correct snapshot_depth _ _ Ra Fa).
  split; [|split; [by apply list_elem_of_singleton|split; [|split; [done|split]]]].
  - unfold clients_of in *. simpl. rewrite !filter_socket_map by (intros c; by destruct (Nat.eqb _ _)).
    rewrite Hc. simpl. rewrite Nat.eqb_refl. simpl. by rewrite Nat.eqb_refl.
  - unfold bookview; simpl. by rewrite Em.
  - cbn [cs_frames]. change [MSnapshot frame_s] with ([] ++ [MSnapshot frame_s]).
    rewrite consume_snoc. unfold consume. cbn [foldl]. by rewrite Hm.
  - split; [done|]. split; [apply (mi_markets _ (proj1 Hi) mkt m Em)|]. split; [done|].
    exists b, a, (list_to_map (os_bids snap)), (list_to_map (os_asks snap)).
    do 2 (split; [done|]). rewrite Hb, Ha.
    split; [apply represents_list_to_map; [apply Lb|done]|].
    split; [apply represents_list_to_map; [apply La|done]|].
    split; by apply snapshot_covers.
Qed.
End Subscribing.

(** C2: the front end follows the simulated exchange.  A client that has just
    connected subscribes to the book of a market; from then on let anything
    happen: book, trade, oracle, funding and heartbeat timers in any order,
    REST requests, other connections, frames and bodies that make a handler
    throw.  Feed the frames the server sent on the
    connection to the order-book hook, in order.  Then the hook never asks
    for a resynchronisation, its sequence number is the server's, each level
    it holds is a level of the server's book, and it holds every level of the
    server at the prices the first snapshot settled (all prices when the book
    fitted in its fifty levels).  So as long as the 25 levels shown are at
    settled prices, the ladder on screen is the ladder of the server's book. *)
Theorem front_end_follows_mock rnd now s36 s16 w mkt s m es w' :
  sim_inv w -> mkt ∈ market_ids -> clients_of s w = [mkClientState s [] []] ->
  jm_get mkt (k_markets (sm_mock w)) = Some m ->
  draws_ok rnd (mk_lotSize (ms_market m)) ->
  prices_finite (list_to_map (ms_bids m)) -> prices_finite (list_to_map (ms_asks m)) ->
  Forall (elsewhere s) es ->
  (sim_run rnd now s36 s16 (SMessage s (subscribe_frame mkt) :: es) w).2 = w' ->
  let settled_bid := settled bid_better (list_to_map (ms_bids m))
                       (take snapshot_depth (js_sort bid_after (ms_bids m))) in
  let settled_ask := settled ask_better (list_to_map (ms_asks m))
                       (take snapshot_depth (js_sort ask_after (ms_asks m))) in
  exists c h m' sb sa cb ca,
    clients_of s w' = [c] /\ jm_get mkt (k_markets (sm_mock w')) = Some m' /\
    consume (cs_frames c) (mount_book mkt new_hook).1 = (h, []) /\
    h_seq h = ms_sequence m' /\
    represents (ms_bids m') sb /\ represents (ms_asks m') sa /\
    represents (h_bids h) cb /\ represents (h_asks h) ca /\
    covers settled_bid cb sb /\ covers settled_ask ca sa /\
    (let l := ladder bid_after (h_bids h) in
     prices_finite sb -> length l = ladder_depth -> Forall (fun x => settled_bid x.1) l ->
     ladder_of ladder_depth bid_better sb l) /\
    (let l := ladder ask_after (h_asks h) in
     prices_finite sa -> length l = ladder_depth -> Forall (fun x => settled_ask x.1) l ->
     ladder_of ladder_depth ask_better sa l).
Proof.
  intros Hi Hmkt Hc Em Hd Fb Fa Hes Hrun settled_bid settled_ask.
  pose proof (mi_markets _ (proj1 Hi) mkt m Em) as [Wb Wa _ _].
  assert (Hrep : forall x, jm_wf x -> represents x (list_to_map x)).
  { intros x Hx. split; [done|]. intros p. clear. induction x as [|[k v] x IH]; simpl; [done|].
    case_decide; by simplify_map_eq. }
  assert (Hv : bookview mkt (sm_mock w) = Some (view_of m)) by (unfold bookview; by rewrite Em).
  destruct (subscribe_tracks rnd now s36 s16 w mkt s (view_of m) _ _ Hi Hmkt Hc Hv (Hrep _ Wb) (Hrep _ Wa) Fb Fa)
    as (w1 & E1 & Hi1 & Ht1).
  cbn [sim_run sim_step] in Hrun. rewrite E1 in Hrun.
  assert (Hw' : (sim_run rnd now s36 s16 es w1).2 = w') by (by destruct (sim_run rnd now s36 s16 es w1)).
  pose proof (tracks_run rnd now s36 s16 mkt _ s _ _ Hmkt Hd es w1 Hes Hi1 Ht1) as Ht'. rewrite Hw' in Ht'.
  destruct Ht' as (c & v & h & H1 & _ & H3 & _ & H5 & (_ & _ & Hs & sb & sa & cb & ca & R1 & R2 & R3 & R4 & C1 & C2)).
  unfold bookview in H3. destruct (jm_get mkt (k_markets (sm_mock w'))) as [m'|] eqn:Em'; [|done].
  injection H3 as <-. exists c, h, m', sb, sa, cb, ca. do 10 (split; [done|]).
  assert (Hsub : forall (cl sv : Book), cl ⊆ sv -> prices_finite sv -> prices_finite cl).
  { intros cl sv Hsub Hf p q Hp. apply (Hf p q). by eapply lookup_weaken. }
  split; intros l Hf Hlen Hset.
  - eapply (covers_ladder bid_better); [apply bid_settled_up|exact C1| |done|done].
    apply bid_ladder_correct; [done|]. eapply Hsub; [apply C1|done].
  - eapply (covers_ladder ask_better); [apply ask_settled_up|exact C2| |done|done].
    apply ask_ladder_correct; [done|]. eapply Hsub; [apply C2|done].
Qed.

(** *** Witness *)

Definition demo_rnd (j : nat) : number := num_div (num_of_Z (Z.of_nat (j mod 7))) (num_of_Z 7).
Definition demo_now (j : nat) : Z := 1700000000000 + Z.of_nat j.
Definition demo_s36 (_ : number) : string := "0.i5xq2mzrkd1wv8ayp".

Definition demo_sim : Sim :=
  Eval vm_compute in
  ((let* _ := startMockWsServer demo_rnd in on_connection 0) (new_sim (initial_STATE demo_rnd demo_now))).2.

Definition demo_sim_events : list sim_event := [SFire 8; SFire 0; SMessage 7 (Some JsNull); SRequest GET_positions; SFire 8].

Lemma demo_sim_inv : sim_inv demo_sim.
Proof.
  pose proof (start_sim_inv demo_rnd demo_now demo_s36 _ (initial_STATE_inv demo_rnd demo_now)) as H.
  assert (H2 : hoare (fun w => w = new_sim (initial_STATE demo_rnd demo_now))
            (let* _ := startMockWsServer demo_rnd in on_connection 0) (fun _ => sim_inv)).
  { eapply hoare_bind; [exact H|]. intros []. apply keepsW_clients. }
  specialize (H2 _ eq_refl). revert H2. vm_compute. done.
Qed.

Definition demo_sim_end : Sim :=
  Eval vm_compute in
  (sim_run demo_rnd demo_now demo_s36 demo_s36 (SMessage 0 (subscribe_frame "sol-usd") :: demo_sim_events) demo_sim).2.

Definition demo_market : MarketState :=
  Eval vm_compute in
  match jm_get "sol-usd" (k_markets (sm_mock demo_sim)) with
  | Some m => m
  | None => mkMarketState (mkMarket "" "" "" true "" "" 0 0 0 0 0 0 0 "" None None None None)
              num_zero [] [] 0 [] (mkFundingState num_zero 0 [])
  end.

Lemma demo_draws : draws_ok demo_rnd (mk_lotSize (ms_market demo_market)).
Proof.
  intros j. unfold demo_rnd. pose proof (Nat.mod_upper_bound j 7 ltac:(lia)) as Hb. revert Hb.
  generalize (j mod 7)%nat. intros n Hn.
  do 7 (destruct n as [|n]; [vm_compute; reflexivity|]). lia.
Qed.

Lemma prices_finite_list l :
  forallb (fun x => num_isFinite (Number_of_string x.1)) l = true -> prices_finite (list_to_map l).
Proof.
  intros H p q Hp. apply elem_of_list_to_map_2 in Hp. rewrite forallb_forall in H.
  apply (H (p, q)). by apply list_elem_of_In.
Qed.

Lemma front_end_follows_mock_witness :
  exists c h, clients_of 0 demo_sim_end = [c] /\ length (cs_frames c) = 3%nat /\
    consume (cs_frames c) (mount_book "sol-usd" new_hook).1 = (h, []) /\ h_seq h = 3.
Proof.
  destruct (front_end_follows_mock demo_rnd demo_now demo_s36 demo_s36 demo_sim "sol-usd" 0 demo_market
              demo_sim_events demo_sim_end) as (c & h & m' & sb & sa & cb & ca & H1 & H2 & H3 & H4 & _).
  - exact demo_sim_inv.
  - by apply known_market.
  - reflexivity.
  - vm_compute. reflexivity.
  - exact demo_draws.
  - apply prices_finite_list. vm_compute. reflexivity.
  - apply prices_finite_list. vm_compute. reflexivity.
  - by repeat constructor.
  - vm_compute. reflexivity.
  - exists c, h. split; [exact H1|]. split; [|split; [exact H3|]].
    + vm_compute in H1. injection H1 as <-. reflexivity.
    + rewrite H4. vm_compute in H2. injection H2 as <-. reflexivity.
Defined.

(** The published funding rate stays in the band the exchange quotes:
    whatever the rate drifts to, what is stored and broadcast lies between
    -15 and 15 basis points (in binary64, for every rate that is a number). *)
Theorem funding_rate_clamped (rate : number) :
  num_isNaN rate = false ->
  SFleb (num_of_Z (-15)) (clamp_rate rate) = true /\ SFleb (clamp_rate rate) (num_of_Z 15) = true.
Proof.
  intros Hn. unfold clamp_rate, nint. cbn [n_max n_min n_lit B64].
  change (num_of_Z 15) with (num_lit 15 0). change (num_of_Z (-15)) with (num_lit (-15) 0).
  assert (P : num_isNaN (num_lit 15 0) = false) by reflexivity.
  assert (N : num_isNaN (num_lit (-15) 0) = false) by reflexivity.
  destruct (num_min_cases (num_lit 15 0) rate P Hn) as [K1 N1].
  destruct (num_max_cases (num_lit (-15) 0) (num_min (num_lit 15 0) rate) N N1) as [K2 N2].
  set (x := num_min (num_lit 15 0) rate) in *.
  assert (Hx : SFleb x (num_lit 15 0) = true).
  { erewrite num_leb_key_l; [| |exact K1]; [|destruct (SFltb _ _); by rewrite ?N1, ?Hn, ?P].
    destruct (SFltb rate _) eqn:E; [|reflexivity].
    apply num_ltb_key in E as (?&?&?). apply num_leb_key. auto. }
  split.
  - erewrite num_leb_key_r; [| |exact K2]; [|destruct (SFltb (num_lit (-15) 0) x); by rewrite ?N2, ?N1, ?N].
    destruct (SFltb (num_lit (-15) 0) x) eqn:E; [|reflexivity].
    apply num_ltb_key in E as (?&?&?). apply num_leb_key. auto.
  - erewrite num_leb_key_l; [| |exact K2]; [|destruct (SFltb (num_lit (-15) 0) x); by rewrite ?N2, ?N1, ?N].
    destruct (SFltb (num_lit (-15) 0) x); [exact Hx|reflexivity].
Qed.

Lemma funding_rate_clamped_witness :
  SFleb (clamp_rate (num_of_Z 400)) (num_of_Z 15) = true.
Proof. apply (funding_rate_clamped (num_of_Z 400)). reflexivity. Defined.
