(* ===== verification/Format.v ===== *)
(** * Number formatting ([web/lib/format/number.ts],
    [web/components/ui/NumberDisplay.tsx])

    Every figure the interface shows goes through these functions.  The
    thousands separator is a regular expression in the source; [insert_commas]
    is its matching rule, and the theorem at the end says what it amounts to
    on digits. *)

From S2P Require Import Prelude JsNum JsText JsColl Contract.
From Stdlib Require Import SpecFloat Ascii.
#[local] Open Scope Z_scope.

(** [string | number | null | undefined]. *)
Inductive Val := VNull | VStr (s : string) | VNum (n : number).

Definition Val_number (v : Val) : number :=
  match v with VNull => NaN | VStr s => Number_of_string s | VNum n => n end.

Definition dash : string := "—".

(** ** Scales *)

Definition descale (unit : number) (raw : Val) : number :=
  match raw with
  | VNull => NaN
  | VStr s => if String.eqb s "" then NaN else num_div (Number_of_string s) unit
  | VNum n => num_div n unit
  end.

Definition usdc6ToDollars (raw : Val) : number := descale (num_lit 1 6) raw.
Definition x18ToDollars (raw : Val) : number := descale (num_lit 1 18) raw.

Definition tickPrecision (tickSize : string) : nat :=
  let i := indexOf_char "."%char tickSize in
  if i <? 0 then O else Z.to_nat (strlen tickSize - i - 1).

Definition lotPrecision (lotSize : string) : nat := tickPrecision lotSize.

(** ** The separator *)

(** Length of the run of digits at the start. *)
Fixpoint digit_run (s : string) : nat :=
  match s with
  | String c s' => if is_digit c then S (digit_run s') else O
  | EmptyString => O
  end.

(** The lookahead [(?=(\d{3})+(?!\d))]. *)
Definition groups_follow (s : string) : bool :=
  (3 <=? digit_run s)%nat && (digit_run s mod 3 =? 0)%nat.

Definition is_word_opt (c : option ascii) : bool := match c with Some c => is_word c | None => false end.

(** [s.replace(/\B(?=(\d{3})+(?!\d))/g, ",")], after the character [prev]. *)
Fixpoint insert_commas (prev : option ascii) (s : string) : string :=
  match s with
  | EmptyString => EmptyString
  | String c s' =>
      let rest := String c (insert_commas (Some c) s') in
      if Bool.eqb (is_word_opt prev) (is_word c) && groups_follow s then String ","%char rest else rest
  end.

(** [const [intPart, dec] = fixed.split("."); ...; dec ? `${int}.${dec}` : int]. *)
Definition with_commas (fixed : string) : string :=
  let parts := split_char "."%char fixed in
  let intPart := match parts with p :: _ => p | [] => "" end in
  let dec := match parts with _ :: d :: _ => d | _ => "" end in
  let body := insert_commas None intPart in
  if str_truthy dec then body +:+ "." +:+ dec else body.

(** ** Formatters *)

Definition formatPrice (price : Val) (decimals : nat) (withCommas : bool) : string :=
  let n := Val_number price in
  if negb (num_isFinite n) then dash
  else if negb withCommas then toFixed n decimals
  else with_commas (toFixed n decimals).

Definition formatQty (qty : Val) (decimals : nat) : string :=
  let n := Val_number qty in
  if negb (num_isFinite n) then dash else toFixed n decimals.

Definition formatUsd (value : Val) (decimals : nat) : string :=
  let n := Val_number value in
  if negb (num_isFinite n) then dash
  else (if SFltb n num_zero then "-" else "") +:+ "$" +:+ formatPrice (VNum (SFabs n)) decimals true.

Definition formatSignedUsd (value : Val) (decimals : nat) : string :=
  let n := Val_number value in
  if negb (num_isFinite n) then dash
  else if SFeqb n num_zero then "$0." +:+ str_repeat "0" decimals
  else (if SFltb num_zero n then "+" else "-") +:+ "$" +:+ formatPrice (VNum (SFabs n)) decimals true.

Definition formatSignedPercent (value : number) (decimals : nat) : string :=
  if negb (num_isFinite value) then dash
  else if SFeqb value num_zero then "0." +:+ str_repeat "0" decimals +:+ "%"
  else (if SFltb num_zero value then "+" else "-") +:+ toFixed (SFabs value) decimals +:+ "%".

Definition formatPercent (value : number) (decimals : nat) : string :=
  if negb (num_isFinite value) then dash else toFixed value decimals +:+ "%".

Definition formatCompact (value : Val) (decimals : nat) : string :=
  let n := Val_number value in
  if negb (num_isFinite n) then dash
  else
    let abs := SFabs n in
    let sign := if SFltb n num_zero then "-" else "" in
    if SFleb (num_lit 1 9) abs then sign +:+ toFixed (num_div abs (num_lit 1 9)) decimals +:+ "B"
    else if SFleb (num_lit 1 6) abs then sign +:+ toFixed (num_div abs (num_lit 1 6)) decimals +:+ "M"
    else if SFleb (num_lit 1 3) abs then sign +:+ toFixed (num_div abs (num_lit 1 3)) decimals +:+ "K"
    else sign +:+ toFixed abs decimals.

(** ** Times *)

(** [x % n] for an integer-valued number and a positive integer [n]. *)
Definition num_rem_int (x : number) (n : Z) : number :=
  if num_isFinite x then num_of_Z (js_rem (num_trunc x) n) else NaN.

Definition pad2 (x : number) : string := padStart (num_toString x) 2 "0"%char.

(** Milliseconds of a nanosecond stamp: [Number(BigInt(tsNs) / 1_000_000n)]. *)
Definition ms_of_tsNs (tsNs : string) : result number :=
  let! b := BigInt_of_string tsNs in Ok (num_of_Z (Z.quot b 1000000)).

Section Clock.
(** Local time of an instant, in milliseconds, and the locale's rendering. *)
Variables (LocalTime : Z -> Z) (toLocaleString : Z -> string).

(** A [Date] holds times up to 8.64e15 ms; beyond, its fields are NaN. *)
Definition date_field (ms : number) (f : Z -> Z) : number :=
  let t := num_trunc ms in
  if Z.abs t <=? 8640000000000000 then num_of_Z (f (LocalTime t)) else NaN.

Definition formatTimeOfDay (tsNs : string) : result string :=
  let! ms := ms_of_tsNs tsNs in
  if negb (num_isFinite ms) then Ok dash
  else
    let hh := pad2 (date_field ms (fun t => t / 3600000 mod 24)) in
    let mm := pad2 (date_field ms (fun t => t / 60000 mod 60)) in
    let ss := pad2 (date_field ms (fun t => t / 1000 mod 60)) in
    Ok (hh +:+ ":" +:+ mm +:+ ":" +:+ ss).

Definition formatDateTime (tsNs : string) : result string :=
  let! ms := ms_of_tsNs tsNs in
  if negb (num_isFinite ms) then Ok dash
  else if Z.abs (num_trunc ms) <=? 8640000000000000 then Ok (toLocaleString (num_trunc ms))
  else Ok "Invalid Date".
End Clock.

(** [nowMs] is the caller's clock or [Date.now()]. *)
Definition formatCountdown (targetTsNs : string) (nowMs : number) : result string :=
  let! targetMs := ms_of_tsNs targetTsNs in
  let remaining := num_max num_zero (num_sub targetMs nowMs) in
  let totalSec := num_floor (num_div remaining (num_of_Z 1000)) in
  let h := num_floor (num_div totalSec (num_of_Z 3600)) in
  let m := num_floor (num_div (num_rem_int totalSec 3600) (num_of_Z 60)) in
  let s := num_rem_int totalSec 60 in
  if SFltb num_zero h then Ok (num_toString h +:+ "h " +:+ pad2 m +:+ "m " +:+ pad2 s +:+ "s")
  else Ok (pad2 m +:+ ":" +:+ pad2 s).

Definition nowTsNs (now : Z) : string := bigint_toString (now * 1000000).

Inductive AnySide := Ord (s : Side) | Pos (s : PositionSide).

Definition sideColor (side : AnySide) : PositionSide :=
  match side with Ord buy | Pos long => long | _ => short end.

(** ** [NumberDisplay] *)

Inductive Tone := fg_dim | tone_long | tone_short | fg_mid | tone_none.

Record Span := mkSpan { sp_text : string; sp_tone : Tone }.

Definition NumberDisplay (value : Val) (decimals : nat) (prefix suffix : string)
    (signed colorBySign : bool) : Span :=
  let absent := match value with VNull => true | VStr s => String.eqb s "" | VNum _ => false end in
  let n := Val_number value in
  if absent || negb (num_isFinite n) then mkSpan dash fg_dim
  else
    let isNeg := SFltb n num_zero in
    let isPos := SFltb num_zero n in
    let body := with_commas (toFixed (SFabs n) decimals) in
    let signStr := if signed then (if isPos then "+" else if isNeg then "−" else "")
                   else if isNeg then "−" else "" in
    mkSpan (prefix +:+ signStr +:+ body +:+ suffix)
      (if colorBySign then (if isPos then tone_long else if isNeg then tone_short else fg_mid) else tone_none).

(** ** What the separator does *)

Fixpoint all_digits (s : string) : bool :=
  match s with EmptyString => true | String c s' => is_digit c && all_digits s' end.

Fixpoint str_concat (l : list string) : string :=
  match l with [] => "" | s :: l' => s +:+ str_concat l' end.

Lemma digit_run_all s : all_digits s = true -> digit_run s = String.length s.
Proof.
  induction s as [|c s IH]; simpl; [done|]. intros [-> H]%andb_true_iff. by rewrite IH.
Qed.

Lemma is_digit_word c : is_digit c = true -> is_word c = true.
Proof. unfold is_word. by intros ->. Qed.

(** Inside a number: a short group of [length mod 3] digits, then threes. *)
Lemma insert_commas_inside p s :
  is_digit p = true -> all_digits s = true ->
  exists h t, s = h +:+ str_concat t /\ String.length h = (String.length s mod 3)%nat /\
    Forall (fun g => String.length g = 3%nat) t /\
    insert_commas (Some p) s = h +:+ str_concat (map (fun g => "," +:+ g) t).
Proof.
  revert p. induction s as [|c s IH]; intros p Hp Hs; [by exists "", []|].
  simpl in Hs. apply andb_true_iff in Hs as [Hc Hs].
  destruct (IH c Hc Hs) as (h & t & E & Hl & Ht & Ei).
  cbn [insert_commas is_word_opt]. rewrite (is_digit_word p Hp), (is_digit_word c Hc), Ei.
  unfold groups_follow. rewrite digit_run_all by (simpl; by rewrite Hc).
  change (String.length (String c s)) with (S (String.length s)). cbn [Bool.eqb andb].
  pose proof (Nat.mod_upper_bound (String.length s) 3 ltac:(lia)) as Hb.
  pose proof (Nat.div_mod_eq (String.length s) 3) as Hd.
  pose proof (Nat.mod_upper_bound (S (String.length s)) 3 ltac:(lia)) as Hb'.
  pose proof (Nat.div_mod_eq (S (String.length s)) 3) as Hd'.
  revert Hb Hd Hb' Hd' Hl. generalize (String.length s mod 3)%nat (S (String.length s) mod 3)%nat.
  intros r r' Hb Hd Hb' Hd' Hl. destruct (Nat.eqb_spec r' 0) as [E0|E0].
  - replace (3 <=? S (String.length s))%nat with true by (symmetry; apply Nat.leb_le; lia). cbn [andb].
    exists "", (String c h :: t). split; [simpl; by rewrite E|]. split; [done|].
    split; [constructor; [simpl; lia|done]|done].
  - rewrite andb_false_r. exists (String c h), t. split; [simpl; by rewrite E|]. split; [simpl; lia|done].
Qed.

(** Grouping of thousands.  On the digits of a whole number the
    separator's regular expression splits them, from the right, into groups of
    exactly three digits, with one to three digits in the first group, and
    joins the groups with commas; no digit is lost, added or moved. *)
Theorem commas_group_by_three s :
  all_digits s = true -> s <> "" ->
  exists g gs, s = str_concat (g :: gs) /\
    (1 <= String.length g <= 3)%nat /\ Forall (fun x => String.length x = 3%nat) gs /\
    insert_commas None s = str_join "," (g :: gs).
Proof.
  destruct s as [|c s]; [done|]. simpl. intros [Hc Hs]%andb_true_iff _.
  destruct (insert_commas_inside c s Hc Hs) as (h & t & E & Hl & Ht & Ei).
  rewrite (is_digit_word c Hc), Ei. cbn [Bool.eqb andb].
  exists (String c h), t. split; [simpl; by rewrite E|].
  pose proof (Nat.mod_upper_bound (String.length s) 3 ltac:(lia)) as Hb.
  split; [cbn [String.length]; rewrite Hl; lia|].
  split; [done|].
  assert (Hj : forall g gs, str_join "," (g :: gs) = g +:+ str_concat (map (fun x => "," +:+ x) gs)).
  { intros g gs. revert g. induction gs as [|x gs IH]; intros g; [|].
    - clear. induction g as [|a g IH]; [done|]. exact (f_equal (String a) IH).
    - change (str_join "," (g :: x :: gs)) with (g +:+ "," +:+ str_join "," (x :: gs)). by rewrite IH. }
  symmetry. exact (Hj (String c h) t).
Qed.

Lemma commas_group_by_three_witness :
  exists g gs, "1234567" = str_concat (g :: gs) /\ insert_commas None "1234567" = str_join "," (g :: gs) /\
    (1 <= String.length g <= 3)%nat.
Proof.
  destruct (commas_group_by_three "1234567") as (g & gs & H1 & H2 & H3 & H4); [reflexivity|done|].
  exists g, gs. split; [exact H1|]. split; [exact H4|exact H2].
Defined.
