(* ===== verification/UiStore.v ===== *)
(** * The interface's shared store ([web/lib/store/ui-store.ts])

    The zustand store: its state and one function per action.  The identifiers
    an action makes come from the clock and [Math.random()], both arguments. *)

From S2P Require Import Prelude JsNum JsText JsColl Contract.
#[local] Open Scope Z_scope.

Inductive ToastKind := kind_info | kind_success | kind_warn | kind_error.

Record Toast := mkToast {
  to_id : string;
  to_kind : ToastKind;
  to_title : string;
  to_body : option string
}.

(** [OpenOrder & { optimistic: true; clientOrderId: string }]. *)
Record OptimisticOrder := mkOptimistic { op_order : OpenOrder; op_clientOrderId : string }.

Record Celebration := mkCelebration { ce_id : string; ce_title : string; ce_body : option string }.

Record UiState := mkUi {
  ui_selectedMarket : MarketId;
  ui_walletDrawerOpen : bool;
  ui_optimisticOrders : list OptimisticOrder;
  ui_toasts : list Toast;
  ui_celebration : option Celebration
}.

Definition initial_ui : UiState := mkUi "btc-usd" false [] [] None.

(** What [Date.now()] and [Math.random().toString(36)] return to an action. *)
Record Stamp := mkStamp { st_now : Z; st_rnd36 : string }.

Definition stamp_id (prefix : string) (s : Stamp) : string :=
  prefix +:+ bigint_toString (st_now s) +:+ "_" +:+ str_take 5 (str_drop 2 (st_rnd36 s)).

Definition setSelectedMarket (m : MarketId) (u : UiState) : UiState :=
  mkUi m (ui_walletDrawerOpen u) (ui_optimisticOrders u) (ui_toasts u) (ui_celebration u).

Definition openWalletDrawer (u : UiState) : UiState :=
  mkUi (ui_selectedMarket u) true (ui_optimisticOrders u) (ui_toasts u) (ui_celebration u).
Definition closeWalletDrawer (u : UiState) : UiState :=
  mkUi (ui_selectedMarket u) false (ui_optimisticOrders u) (ui_toasts u) (ui_celebration u).

Definition without_order (cid : string) (os : list OptimisticOrder) : list OptimisticOrder :=
  List.filter (fun x => negb (String.eqb (op_clientOrderId x) cid)) os.

Definition addOptimisticOrder (o : OptimisticOrder) (u : UiState) : UiState :=
  mkUi (ui_selectedMarket u) (ui_walletDrawerOpen u)
    (o :: without_order (op_clientOrderId o) (ui_optimisticOrders u)) (ui_toasts u) (ui_celebration u).

Definition removeOptimisticOrder (cid : string) (u : UiState) : UiState :=
  mkUi (ui_selectedMarket u) (ui_walletDrawerOpen u) (without_order cid (ui_optimisticOrders u))
    (ui_toasts u) (ui_celebration u).

Definition pushToast (s : Stamp) (kind : ToastKind) (title : string) (body : option string) (u : UiState) : UiState :=
  mkUi (ui_selectedMarket u) (ui_walletDrawerOpen u) (ui_optimisticOrders u)
    (ui_toasts u ++ [mkToast (stamp_id "t_" s) kind title body]) (ui_celebration u).

Definition dismissToast (id : string) (u : UiState) : UiState :=
  mkUi (ui_selectedMarket u) (ui_walletDrawerOpen u) (ui_optimisticOrders u)
    (List.filter (fun t => negb (String.eqb (to_id t) id)) (ui_toasts u)) (ui_celebration u).

Definition celebrate (s : Stamp) (title : string) (body : option string) (u : UiState) : UiState :=
  mkUi (ui_selectedMarket u) (ui_walletDrawerOpen u) (ui_optimisticOrders u) (ui_toasts u)
    (Some (mkCelebration (stamp_id "c_" s) title body)).

Definition dismissCelebration (u : UiState) : UiState :=
  mkUi (ui_selectedMarket u) (ui_walletDrawerOpen u) (ui_optimisticOrders u) (ui_toasts u) None.

(** The actions as data, for the code that emits them between awaits. *)
Inductive ui_action :=
| AAddOptimistic (o : OptimisticOrder)
| ARemoveOptimistic (cid : string)
| AToast (kind : ToastKind) (title : string) (body : option string)
| ACelebrate (title : string) (body : option string).

Definition ui_apply (a : ui_action) (s : Stamp) (u : UiState) : UiState :=
  match a with
  | AAddOptimistic o => addOptimisticOrder o u
  | ARemoveOptimistic cid => removeOptimisticOrder cid u
  | AToast k t b => pushToast s k t b u
  | ACelebrate t b => celebrate s t b u
  end.

(** Each action with the stamp it reads. *)
Definition ui_run (acts : list (ui_action * Stamp)) (u : UiState) : UiState :=
  foldl (fun u a => ui_apply a.1 a.2 u) u acts.

(** The optimistic orders carry one entry per client order id. *)
Definition optimistic_unique (u : UiState) : Prop := NoDup (map op_clientOrderId (ui_optimisticOrders u)).

Lemma without_order_elem cid os x : x ∈ without_order cid os <-> x ∈ os /\ op_clientOrderId x <> cid.
Proof.
  unfold without_order. rewrite !list_elem_of_In, filter_In, negb_true_iff, String.eqb_neq. done.
Qed.

Lemma without_order_unique cid os :
  NoDup (map op_clientOrderId os) -> NoDup (map op_clientOrderId (without_order cid os)).
Proof.
  unfold without_order. induction os as [|o os IH]; simpl; [done|]. intros [Hn Hd]%NoDup_cons.
  destruct (negb _); simpl; [|by apply IH]. apply NoDup_cons. split; [|by apply IH].
  intros Hin. apply Hn. rewrite list_elem_of_In, in_map_iff in *. destruct Hin as (x & <- & Hx).
  apply filter_In in Hx as [Hx _]. by exists x.
Qed.

Lemma without_order_absent cid os :
  (forall x, x ∈ os -> op_clientOrderId x <> cid) -> without_order cid os = os.
Proof.
  unfold without_order. induction os as [|o os IH]; simpl; [done|]. intros H.
  rewrite string_eqb_ne by (apply H; set_solver). simpl. f_equal. apply IH. set_solver.
Qed.

Lemma without_order_idem cid os : without_order cid (without_order cid os) = without_order cid os.
Proof. apply without_order_absent. intros x Hx. by apply without_order_elem in Hx as [_ ?]. Qed.

(** The store never shows an order twice.  Whatever sequence of actions
    the interface performs, with whatever stamps, the optimistic orders keep
    one entry per client order id. *)
Theorem optimistic_orders_unique acts :
  optimistic_unique (ui_run acts initial_ui).
Proof.
  unfold ui_run. assert (H0 : optimistic_unique initial_ui) by constructor. revert H0.
  generalize initial_ui. induction acts as [|[a s] acts IH]; simpl; intros u Hu; [done|].
  apply IH. unfold optimistic_unique in *. destruct a as [o|cid|k t b|t b]; simpl; try done.
  - apply NoDup_cons. split; [|by apply without_order_unique].
    rewrite list_elem_of_In, in_map_iff. intros (x & Ex & Hx).
    apply list_elem_of_In, without_order_elem in Hx as [_ Hx]. done.
  - by apply without_order_unique.
Qed.
