(* ===== verification/OrderTicket.v ===== *)
(** * The order ticket ([web/components/trade/OrderForm.tsx],
    [web/lib/eip712/order.ts], [web/lib/trade/use-close-position.ts])

    The ticket's form state, the figures it derives at every render, the fill
    preview, and the two order workflows: submit and close position.  The
    wallet's signature and the order request are awaited; a workflow is a
    function of their outcomes, and it returns the store actions it performs
    in order, the request it sends, and the form's new state.  Hashing,
    decimal parsing and signing belong to third-party packages and are
    parameters. *)

From S2P Require Import Prelude JsNum JsText JsColl Contract Format UiStore.
From Stdlib Require Import SpecFloat Ascii QArith.
#[local] Open Scope Z_scope.

(** ** The typed message of an order ([web/lib/eip712/order.ts]) *)

Record OrderDomain := mkDomain {
  od_name : string; od_version : string; od_chainId : Z; od_verifyingContract : string
}.

Definition ORDER_DOMAIN (chainId : Z) (verifyingContract : string) : OrderDomain :=
  mkDomain "Perplex" "1" chainId verifyingContract.

Definition ORDER_TYPES : list (string * string) :=
  [("owner", "address"); ("marketId", "bytes32"); ("side", "uint8"); ("orderType", "uint8");
   ("price", "uint256"); ("qty", "uint256"); ("timeInForce", "uint8"); ("reduceOnly", "bool");
   ("postOnly", "bool"); ("nonce", "uint256"); ("expiryTsSec", "uint64")].

Definition SIDE (s : Side) : Z := match s with buy => 0 | sell => 1 end.
Definition TYPE (t : OrderType) : Z := match t with market => 0 | limit => 1 end.
Definition TIF (t : TimeInForce) : Z := match t with gtc => 0 | ioc => 1 | fok => 2 end.

Record BuildOrderInput := mkBuildInput {
  bi_owner : string;
  bi_marketId : MarketId;
  bi_side : Side;
  bi_type : OrderType;
  bi_price : string;
  bi_qty : string;
  bi_timeInForce : TimeInForce;
  bi_reduceOnly : bool;
  bi_postOnly : bool;
  bi_nonce : string;
  bi_expiryTsSec : option Z
}.

Record OrderMessage := mkOrderMessage {
  om_owner : string;
  om_marketId : string;
  om_side : Z;
  om_orderType : Z;
  om_price : Z;
  om_qty : Z;
  om_timeInForce : Z;
  om_reduceOnly : bool;
  om_postOnly : bool;
  om_nonce : Z;
  om_expiryTsSec : Z
}.

Section Eip712.
(** [viem]. *)
Variables (keccak256 toHex : string -> string) (parseUnits : string -> Z -> result Z).

Definition marketIdHash (marketId : MarketId) : string := keccak256 (toHex marketId).

Definition buildOrderTypedMessage (i : BuildOrderInput) : result OrderMessage :=
  let! price := parseUnits (bi_price i) 18 in
  let! qty := parseUnits (bi_qty i) 18 in
  let! nonce := BigInt_of_string (bi_nonce i) in
  Ok (mkOrderMessage (bi_owner i) (marketIdHash (bi_marketId i)) (SIDE (bi_side i)) (TYPE (bi_type i))
        price qty (TIF (bi_timeInForce i)) (bi_reduceOnly i) (bi_postOnly i) nonce
        (default 0 (bi_expiryTsSec i))).
End Eip712.

(** ** Ticket arithmetic *)

Definition decOf (s : string) : nat :=
  let i := indexOf_char "."%char s in
  if i <? 0 then O else Z.to_nat (strlen s - i - 1).

Definition commaFmt (n : number) (dec : nat) : string :=
  if negb (num_isFinite n) then dash else with_commas (toFixed n dec).

(** Liquidation price of an entry, in the arithmetic [A]. *)
Definition liq_price {A} `{Arith A} (side : Side) (price leverage mmRatio : A) : A :=
  match side with
  | buy => price * (nint 1 - nint 1 / leverage + mmRatio)
  | sell => price * (nint 1 + nint 1 / leverage - mmRatio)
  end%num.

Definition sideLiqEstimate (side : Side) (price leverage : number) (mkt : option Market) : option number :=
  match mkt with
  | Some m =>
      if negb (num_truthy price) || negb (num_truthy leverage) then None
      else Some (liq_price side price leverage (num_div (num_of_Z (mk_mmRatioBps m)) (num_of_Z 10000)))
  | None => None
  end.

Record FillPreview (A : Type) := mkPreview {
  pv_effPrice : A;
  pv_filledQty : A;
  pv_remaining : A;
  pv_worstPrice : option A;
  pv_wouldCross : bool
}.
Arguments mkPreview {A}.
Arguments pv_effPrice {A}.
Arguments pv_filledQty {A}.
Arguments pv_remaining {A}.
Arguments pv_worstPrice {A}.
Arguments pv_wouldCross {A}.

Section Preview.
Context {A : Type} `{Arith A}.

(** The loop's variables. *)
Record Walk := mkWalk {
  wk_remaining : A; wk_notional : A; wk_filled : A; wk_worst : option A; wk_crossed : bool
}.

Definition consume_level (px q : A) (crossed : bool) (w : Walk) : Walk :=
  let take := n_min (wk_remaining w) q in
  mkWalk (wk_remaining w - take)%num (wk_notional w + take * px)%num (wk_filled w + take)%num
    (Some px) crossed.

(** The loop over the levels; [break] returns, [continue] goes on. *)
Fixpoint walk_levels (side : Side) (type : OrderType) (limitPx : A) (levels : list (A * A)) (w : Walk) : Walk :=
  match levels with
  | [] => w
  | (px, q) :: rest =>
      if (wk_remaining w <=? nint 0)%num then w
      else if negb (n_finite px) || negb (n_finite q) || (q <=? nint 0)%num then
        walk_levels side type limitPx rest w
      else match type with
      | limit =>
          if negb (n_finite limitPx) then w
          else match side with
          | buy => if (limitPx <? px)%num then w
                   else walk_levels side type limitPx rest (consume_level px q true w)
          | sell => if (px <? limitPx)%num then w
                    else walk_levels side type limitPx rest (consume_level px q true w)
          end
      | market => walk_levels side type limitPx rest (consume_level px q (wk_crossed w) w)
      end
  end.

(** After the argument parsing; [None] for an absent book. *)
Definition preview (side : Side) (type : OrderType) (qty limitPx : A) (levels : option (list (A * A)))
    (markPx : option A) : FillPreview A :=
  let mark0 := default (nint 0) markPx in
  let limit0 := if n_finite limitPx then limitPx else nint 0 in
  let fallback := mkPreview (match type with market => mark0 | limit => limit0 end) (nint 0) qty None false in
  if (qty <=? nint 0)%num then fallback
  else match levels with
  | None | Some [] => fallback
  | Some lv =>
      let w := walk_levels side type limitPx lv (mkWalk qty (nint 0) (nint 0) None false) in
      match type with
      | limit =>
          if negb (wk_crossed w) then mkPreview limit0 (nint 0) qty None false
          else if (wk_filled w <=? nint 0)%num then
            mkPreview (if n_finite limitPx then limitPx else mark0) (nint 0) qty None (wk_crossed w)
          else mkPreview (wk_notional w / wk_filled w)%num (wk_filled w) (wk_remaining w) (wk_worst w) (wk_crossed w)
      | market =>
          if (wk_filled w <=? nint 0)%num then mkPreview mark0 (nint 0) qty None (wk_crossed w)
          else mkPreview (wk_notional w / wk_filled w)%num (wk_filled w) (wk_remaining w) (wk_worst w) (wk_crossed w)
      end
  end.
End Preview.

Definition parse_level (l : OrderbookLevel) : number * number :=
  (Number_of_string l.1, Number_of_string l.2).

Definition previewFill (side : Side) (type : OrderType) (qty : number) (priceInput : string)
    (book : option OrderbookSnapshot) (markPx : option number) : FillPreview number :=
  let limitPx := match type with limit => Number_of_string priceInput | market => NaN end in
  preview side type qty limitPx
    (option_map (fun b => map parse_level (match side with buy => os_asks b | sell => os_bids b end)) book) markPx.

(** ** The form *)

Record Ticket := mkTicket {
  t_side : Side;
  t_type : OrderType;
  t_priceInput : string;
  t_qtyInput : string;
  t_leverage : number;
  t_tif : TimeInForce;
  t_reduceOnly : bool;
  t_postOnly : bool;
  t_lastType : option OrderType
}.

Definition new_ticket : Ticket := mkTicket buy market "" "" (num_of_Z 2) gtc false false None.

(** What the component reads from its hooks and props at a render. *)
Record TicketEnv := mkTicketEnv {
  te_marketId : MarketId;
  te_market : option Market;
  te_freeCollateralUsdc : option string;
  te_oracle : option WsOracle;
  te_book : option OrderbookSnapshot;
  te_connected : bool;
  te_address : option string;
  te_chainId : option Z;
  te_placePending : bool
}.

(** The setters of the form's controls. *)
Definition setSide (s : Side) (t : Ticket) : Ticket :=
  mkTicket s (t_type t) (t_priceInput t) (t_qtyInput t) (t_leverage t) (t_tif t) (t_reduceOnly t) (t_postOnly t) (t_lastType t).
Definition setType (ty : OrderType) (t : Ticket) : Ticket :=
  mkTicket (t_side t) ty (t_priceInput t) (t_qtyInput t) (t_leverage t) (t_tif t) (t_reduceOnly t) (t_postOnly t) (t_lastType t).
Definition setPriceInput (p : string) (t : Ticket) : Ticket :=
  mkTicket (t_side t) (t_type t) p (t_qtyInput t) (t_leverage t) (t_tif t) (t_reduceOnly t) (t_postOnly t) (t_lastType t).
Definition setQtyInput (q : string) (t : Ticket) : Ticket :=
  mkTicket (t_side t) (t_type t) (t_priceInput t) q (t_leverage t) (t_tif t) (t_reduceOnly t) (t_postOnly t) (t_lastType t).
Definition setLeverage (l : number) (t : Ticket) : Ticket :=
  mkTicket (t_side t) (t_type t) (t_priceInput t) (t_qtyInput t) l (t_tif t) (t_reduceOnly t) (t_postOnly t) (t_lastType t).
Definition setTif (f : TimeInForce) (t : Ticket) : Ticket :=
  mkTicket (t_side t) (t_type t) (t_priceInput t) (t_qtyInput t) (t_leverage t) f (t_reduceOnly t) (t_postOnly t) (t_lastType t).
Definition setReduceOnly (b : bool) (t : Ticket) : Ticket :=
  mkTicket (t_side t) (t_type t) (t_priceInput t) (t_qtyInput t) (t_leverage t) (t_tif t) b (t_postOnly t) (t_lastType t).
Definition setPostOnly (b : bool) (t : Ticket) : Ticket :=
  mkTicket (t_side t) (t_type t) (t_priceInput t) (t_qtyInput t) (t_leverage t) (t_tif t) (t_reduceOnly t) b (t_lastType t).

(** The post-only toggle is disabled on market orders. *)
Definition togglePostOnly (b : bool) (t : Ticket) : Ticket :=
  match t_type t with market => t | limit => setPostOnly b t end.

Definition LEVERAGE_PRESETS : list Z := [1; 2; 5; 10; 20].

Definition leverage_buttons (mkt : option Market) : list Z :=
  List.filter (fun l => l <=? match mkt with Some m => mk_maxLeverage m | None => 20 end) LEVERAGE_PRESETS.

Section Derived.
Variables (e : TicketEnv) (t : Ticket).

Definition oraclePx : option number := option_map (fun o => x18ToDollars (VStr (wo_priceX18 o))) (te_oracle e).

Definition markPx : option number :=
  match oraclePx with
  | Some p => Some p
  | None => option_map (fun m => x18ToDollars (VStr (mk_indexPriceX18 m))) (te_market e)
  end.

Definition tickDec : nat := match te_market e with Some m => Nat.max 2 (decOf (mk_tickSize m)) | None => 2 end.
Definition lotDec : nat := match te_market e with Some m => decOf (mk_lotSize m) | None => 4 end.

(** The prefill effect. *)
Definition prefill_effect : Ticket :=
  let t1 :=
    match t_type t, t_lastType t, markPx with
    | limit, Some limit, _ => t
    | limit, _, Some p => setPriceInput (toFixed p tickDec) t
    | _, _, _ => t
    end in
  mkTicket (t_side t1) (t_type t1) (t_priceInput t1) (t_qtyInput t1) (t_leverage t1) (t_tif t1)
    (t_reduceOnly t1) (t_postOnly t1) (Some (t_type t)).

(** [Number(qtyInput) || 0]. *)
Definition qty : number :=
  let n := Number_of_string (t_qtyInput t) in if num_truthy n then n else num_zero.

Definition fillPreview : FillPreview number :=
  previewFill (t_side t) (t_type t) qty (t_priceInput t) (te_book e) markPx.

Definition effPrice : number := pv_effPrice fillPreview.
Definition notional : number := num_mul effPrice qty.
Definition margin : number :=
  if SFltb num_zero (t_leverage t) then num_div notional (t_leverage t) else num_zero.
Definition feeBps : Z := match te_market e with Some m => mk_takerFeeBps m | None => 5 end.
Definition fee : number := num_mul notional (num_div (num_of_Z feeBps) (num_of_Z 10000)).
Definition liqEst : option number := sideLiqEstimate (t_side t) effPrice (t_leverage t) (te_market e).

Definition free : option number :=
  match te_freeCollateralUsdc e with
  | Some s => if str_truthy s then Some (usdc6ToDollars (VStr s)) else None
  | None => None
  end.

Definition insufficient : bool :=
  match free with Some f => SFltb f margin | None => false end.

Definition canSubmit : bool :=
  te_connected e && bool_decide (is_Some (te_market e)) && SFltb num_zero qty &&
  (bool_decide (t_type t = market) || SFltb num_zero effPrice) &&
  negb insufficient && negb (te_placePending e).

(** The quick-size buttons. *)
Definition quick_size (pct : Z) : Ticket :=
  match free with
  | Some f =>
      if negb (num_truthy f) || negb (num_truthy effPrice) || SFleb (t_leverage t) num_zero then t
      else
        let maxNotional := num_mul f (t_leverage t) in
        let maxQty := num_div maxNotional effPrice in
        setQtyInput (toFixed (num_mul maxQty (num_div (num_of_Z pct) (num_of_Z 100))) lotDec) t
  | None => t
  end.

(** The figures of the summary panel and the submit button's caption. *)
Definition dollar_row (n : number) : string := if num_truthy n then "$" +:+ commaFmt n 2 else dash.

Definition summary_rows : list (string * string) :=
  [("Order value", dollar_row notional);
   ("Margin required", dollar_row margin);
   ("Est. fee", dollar_row fee);
   ("Liquidation @ " +:+ num_toString (t_leverage t) +:+ "x",
    match liqEst with Some l => "$" +:+ commaFmt l tickDec | None => dash end);
   ("Free collateral", match free with Some f => "$" +:+ commaFmt f 2 | None => dash end)].

Definition submit_caption : string :=
  if insufficient then "Insufficient margin"
  else (match t_side t with buy => "Long" | sell => "Short" end) +:+ " " +:+
       match te_market e with Some m => mk_base m | None => "" end.
End Derived.

(** ** Submitting *)

(** How an awaited call settles; [Failed None] threw something that is not an
    [Error]. *)
Inductive outcome (A : Type) := Done (a : A) | Failed (msg : option string).
Arguments Done {A} a.
Arguments Failed {A} msg.

Definition SETTLEMENT_PLACEHOLDER : string := "0x0000000000000000000000000000000000000000".

Record SubmitTrace := mkTrace {
  tr_actions : list ui_action;
  tr_signed : option (OrderDomain * OrderMessage);
  tr_request : option OrderRequest;
  tr_ticket : Ticket
}.

Section Submit.
Variables (keccak256 toHex : string -> string) (parseUnits : string -> Z -> result Z).
(** The wallet's [signTypedDataAsync] and the order mutation. *)
Variables (signTypedData : OrderDomain -> OrderMessage -> outcome string)
          (placeOrder : OrderRequest -> outcome OrderAck).

Abbreviation build := (buildOrderTypedMessage keccak256 toHex parseUnits).

(** The signature step: with no chain there is nothing to sign. *)
Definition sign_order (chainId : option Z) (i : BuildOrderInput) :
    outcome string * option (OrderDomain * OrderMessage) :=
  match chainId with
  | None => (Done "0x0000", None)
  | Some c =>
      if c =? 0 then (Done "0x0000", None)
      else match build i with
      | Throw er => (Failed (Some (err_message er)), None)
      | Ok m => let d := ORDER_DOMAIN c SETTLEMENT_PLACEHOLDER in (signTypedData d m, Some (d, m))
      end
  end.

Definition direction (s : Side) : string := match s with buy => "Long" | sell => "Short" end.

Definition ack_title (type : OrderType) (a : OrderAck) : string :=
  match oa_status a with
  | ack_filled => match type with market => "Position opened" | limit => "Limit filled at market" end
  | ack_partial => "Order partially filled"
  | ack_accepted => "Order placed"
  end.

Definition ack_body (side : Side) (sizeLabel : string) (a : OrderAck) : string :=
  direction side +:+ " " +:+ sizeLabel +:+
  match oa_status a with
  | ack_filled => ""
  | ack_partial => " — remainder rests on the book."
  | ack_accepted => " — waiting on the book."
  end.

(** [now] is [Date.now()], [rnd36] is [Math.random().toString(36)]. *)
Definition onSubmit (e : TicketEnv) (t : Ticket) (now : Z) (rnd36 : string) : SubmitTrace :=
  match te_market e, te_address e with
  | Some m, Some address =>
      if negb (str_truthy address) then mkTrace [] None None t
      else
      let clientOrderId := "cli_" +:+ str_take 10 (str_drop 2 rnd36) in
      let nonce := nowTsNs now in
      let optimisticPrice :=
        match t_type t with
        | market => toFixed (default num_zero (markPx e)) (tickDec e)
        | limit => t_priceInput t
        end in
      let optimisticQty := toFixed (qty t) (lotDec e) in
      let order := mkOpenOrder ("opt_" +:+ clientOrderId) (te_marketId e) (t_side t) (t_type t)
                     optimisticPrice optimisticQty optimisticQty nonce (Some clientOrderId) in
      let accepted :=
        AToast kind_info (direction (t_side t) +:+ " " +:+ mk_base m +:+ " accepted")
          (Some (optimisticQty +:+ " @ " +:+ match t_type t with market => "mkt" | limit => optimisticPrice end)) in
      let opening := [AAddOptimistic (mkOptimistic order clientOrderId); accepted] in
      let input := mkBuildInput address (te_marketId e) (t_side t) (t_type t) optimisticPrice optimisticQty
                     (t_tif t) (t_reduceOnly t) (t_postOnly t) nonce None in
      let '(sig, signed) := sign_order (te_chainId e) input in
      match sig with
      | Failed msg =>
          mkTrace (opening ++ [ARemoveOptimistic clientOrderId;
                               AToast kind_error "Order rejected" (Some (default "Wallet signature failed" msg))])
            signed None t
      | Done signature =>
          let req := mkOrderRequest (te_marketId e) (t_side t) (t_type t) optimisticPrice optimisticQty
                       (t_tif t) (t_reduceOnly t) (t_postOnly t) clientOrderId nonce signature in
          match placeOrder req with
          | Done ack =>
              let title := ack_title (t_type t) ack in
              let body := ack_body (t_side t) (optimisticQty +:+ " " +:+ mk_base m) ack in
              let clear := bool_decide (t_type t = market) || bool_decide (oa_status ack = ack_filled) in
              mkTrace (opening ++ [ARemoveOptimistic clientOrderId; ACelebrate title (Some body);
                                   AToast kind_success title (Some body)])
                signed (Some req) (if clear then setQtyInput "" t else t)
          | Failed msg =>
              mkTrace (opening ++ [ARemoveOptimistic clientOrderId;
                                   AToast kind_error "Order rejected" (Some (default "Unknown error" msg))])
                signed (Some req) t
          end
      end
  | _, _ => mkTrace [] None None t
  end.

(** ** Closing a position *)

Definition opposite (s : PositionSide) : Side := match s with long => sell | short => buy end.

(** [rnd36] and [now36] are the base-36 texts of [Math.random()] and of the clock. *)
Definition closePosition (address : option string) (chainId : option Z) (p : Position)
    (now : Z) (now36 rnd36 : string) : SubmitTrace :=
  let done acts signed req := mkTrace acts signed req new_ticket in
  match address with
  | Some a =>
      if negb (str_truthy a) then done [AToast kind_error "Connect wallet first" None] None None
      else
      let side := opposite (p_side p) in
      let clientOrderId := "close_" +:+ now36 +:+ "_" +:+ str_take 5 (str_drop 2 rnd36) in
      let nonce := nowTsNs now in
      let input := mkBuildInput a (p_marketId p) side market "0" (p_size p) ioc true false nonce None in
      let '(sig, signed) := sign_order chainId input in
      match sig with
      | Failed msg => done [AToast kind_error "Close cancelled" msg] signed None
      | Done signature =>
          let req := mkOrderRequest (p_marketId p) side market "0" (p_size p) ioc true false
                       clientOrderId nonce signature in
          match placeOrder req with
          | Done _ =>
              let base := toUpperCase (match split_char "-"%char (p_marketId p) with b :: _ => b | [] => "" end) in
              let body := (match p_side p with long => "Long" | short => "Short" end) +:+ " " +:+
                          p_size p +:+ " " +:+ base +:+ " closed" in
              done [ACelebrate "Position closed" (Some body);
                    AToast kind_success "Position closed" (Some body)] signed (Some req)
          | Failed msg => done [AToast kind_error "Close failed" msg] signed (Some req)
          end
      end
  | None => done [AToast kind_error "Connect wallet first" None] None None
  end.
End Submit.
