(* ===== verification/OrderTicketThms.v ===== *)
(** * What the order ticket guarantees

    The arithmetic properties are stated in exact rationals, the instance of
    the ticket's arithmetic without rounding; the workflow properties and the
    counterexamples are about the binary64 program. *)

From S2P Require Import Prelude JsNum JsText JsColl Contract Format UiStore OrderTicket.
From Stdlib Require Import SpecFloat Ascii QArith Qminmax Lqa.
#[local] Open Scope Z_scope.

(** ** The fill preview *)

(** The levels an order can take: positive quantity, and for a limit order
    only up to the first level beyond its price. *)
Fixpoint reachable_levels (side : Side) (type : OrderType) (limitPx : Q) (levels : list (Q * Q)) : list (Q * Q) :=
  match levels with
  | [] => []
  | (px, q) :: rest =>
      if Qle_bool q 0 then reachable_levels side type limitPx rest
      else
        let beyond := match type, side with
                      | limit, buy => Qltb limitPx px
                      | limit, sell => Qltb px limitPx
                      | market, _ => false
                      end in
        if beyond then [] else (px, q) :: reachable_levels side type limitPx rest
  end.

Definition depth (levels : list (Q * Q)) : Q := fold_right (fun l s => l.2 + s)%Q 0%Q levels.

Definition within (lo hi : Q) (l : Q * Q) : Prop := (lo <= l.1 <= hi)%Q.

Lemma reachable_positive side type limitPx levels :
  Forall (fun l => (0 < l.2)%Q) (reachable_levels side type limitPx levels).
Proof.
  induction levels as [|[px q] levels IH]; simpl; [constructor|].
  destruct (Qle_bool q 0) eqn:E; [done|]. case_match; [constructor|]. constructor; [|done].
  apply Qnot_le_lt. rewrite <- Qle_bool_iff. simpl. by rewrite E.
Qed.

Lemma depth_nonneg levels : Forall (fun l => (0 < l.2)%Q) levels -> (0 <= depth levels)%Q.
Proof. induction 1; simpl; [lra|]. unfold depth in *. simpl in *. lra. Qed.

Lemma n_min_Q (x y : Q) : n_min x y == Qmin x y.
Proof.
  cbn. destruct (Qltb y x) eqn:E.
  - apply Qltb_lt in E. rewrite Q.min_r; [reflexivity|lra].
  - apply Qltb_ge in E. rewrite Q.min_l; [reflexivity|done].
Qed.

Lemma n_min_Q_bounds (x y : Q) : (0 < x)%Q -> (0 < y)%Q ->
  (0 < n_min x y)%Q /\ (n_min x y <= x)%Q /\ (n_min x y <= y)%Q.
Proof.
  intros. cbn. destruct (Qltb y x) eqn:E; [apply Qltb_lt in E|apply Qltb_ge in E]; repeat split; lra.
Qed.

(** What the walk takes from the levels it reaches. *)
Lemma walk_levels_spec side type limitPx levels lo hi : forall w : Walk,
  (0 <= wk_remaining w)%Q ->
  Forall (within lo hi) (reachable_levels side type limitPx levels) ->
  let w' := walk_levels side type limitPx levels w in
  let taken := Qmin (wk_remaining w) (depth (reachable_levels side type limitPx levels)) in
  (wk_remaining w' == wk_remaining w - taken)%Q /\ (wk_filled w' == wk_filled w + taken)%Q /\
  (wk_notional w + lo * taken <= wk_notional w')%Q /\ (wk_notional w' <= wk_notional w + hi * taken)%Q.
Proof.
  induction levels as [|[px q] levels IH]; intros w Hr Hin; cbn zeta.
  - simpl. rewrite Q.min_r by lra. repeat split; lra.
  - cbn [walk_levels reachable_levels] in *. change (n_leb (wk_remaining w) (nint 0)) with (Qle_bool (wk_remaining w) 0).
    change (n_leb q (nint 0)) with (Qle_bool q 0). cbn [n_finite QArithI negb orb].
    destruct (Qle_bool (wk_remaining w) 0) eqn:E0.
    { apply Qle_bool_iff in E0.
      assert (Hd : (0 <= depth (reachable_levels side type limitPx ((px, q) :: levels)))%Q)
        by apply depth_nonneg, reachable_positive.
      cbn [reachable_levels] in Hd. rewrite Q.min_l by lra.
      assert (Ez : (wk_remaining w == 0)%Q) by lra. rewrite Ez. repeat split; lra. }
    assert (Hpos : (0 < wk_remaining w)%Q).
    { apply Qnot_le_lt. rewrite <- Qle_bool_iff, E0. done. }
    destruct (Qle_bool q 0) eqn:Eq; [by apply IH|].
    assert (Hq : (0 < q)%Q) by (apply Qnot_le_lt; rewrite <- Qle_bool_iff, Eq; done).
    set (beyond := match type, side with
                   | limit, buy => Qltb limitPx px | limit, sell => Qltb px limitPx | market, _ => false end) in *.
    assert (Hstep : forall c, beyond = false ->
      let w' := walk_levels side type limitPx levels (consume_level px q c w) in
      let taken := Qmin (wk_remaining w) (depth ((px, q) :: reachable_levels side type limitPx levels)) in
      (wk_remaining w' == wk_remaining w - taken)%Q /\ (wk_filled w' == wk_filled w + taken)%Q /\
      (wk_notional w + lo * taken <= wk_notional w')%Q /\ (wk_notional w' <= wk_notional w + hi * taken)%Q).
    { intros c Hb. rewrite Hb in Hin. apply Forall_cons in Hin as [Hpx Hin]. unfold within in Hpx. simpl in Hpx.
      destruct (n_min_Q_bounds (wk_remaining w) q Hpos Hq) as (B1 & B2 & B3).
      pose proof (n_min_Q (wk_remaining w) q) as Bm. set (x := n_min (wk_remaining w) q) in *.
      assert (Hr' : (0 <= wk_remaining (consume_level px q c w))%Q) by (change (0 <= wk_remaining w - x)%Q; lra).
      specialize (IH (consume_level px q c w) Hr' Hin). cbn zeta in IH.
      assert (Hdep : (0 <= depth (reachable_levels side type limitPx levels))%Q)
        by apply depth_nonneg, reachable_positive.
      set (D := depth (reachable_levels side type limitPx levels)) in *.
      set (w' := walk_levels side type limitPx levels (consume_level px q c w)) in *.
      change (wk_remaining (consume_level px q c w)) with (wk_remaining w - x)%Q in IH.
      change (wk_filled (consume_level px q c w)) with (wk_filled w + x)%Q in IH.
      change (wk_notional (consume_level px q c w)) with (wk_notional w + x * px)%Q in IH.
      destruct IH as (I1 & I2 & I3 & I4).
      cbn zeta. change (depth ((px, q) :: reachable_levels side type limitPx levels)) with (q + D)%Q.
      assert (Ht : (Qmin (wk_remaining w) (q + D) == x + Qmin (wk_remaining w - x) D)%Q).
      { rewrite Bm. destruct (Qlt_le_dec q (wk_remaining w)) as [L|L].
        - rewrite (Q.min_r (wk_remaining w) q) by lra.
          destruct (Qlt_le_dec (wk_remaining w) (q + D)).
          + rewrite !Q.min_l by lra. lra.
          + rewrite !Q.min_r by lra. lra.
        - rewrite (Q.min_l (wk_remaining w) q) by lra. rewrite !Q.min_l by lra. lra. }
      set (T := Qmin (wk_remaining w) (q + D)) in *. set (y := Qmin (wk_remaining w - x) D) in *.
      rewrite Ht. repeat split; try lra; nra. }
    destruct type.
    + by apply Hstep.
    + destruct side; change (n_ltb ?a ?b) with (Qltb a b); unfold beyond in *.
      * destruct (Qltb limitPx px) eqn:El; [|by apply Hstep].
        cbn. rewrite Q.min_r by lra. repeat split; lra.
      * destruct (Qltb px limitPx) eqn:El; [|by apply Hstep].
        cbn. rewrite Q.min_r by lra. repeat split; lra.
Qed.

Lemma walk_crossed side limitPx levels : forall w : Walk,
  (0 < wk_remaining w)%Q -> wk_crossed w = false ->
  wk_crossed (walk_levels side limit limitPx levels w) =
  negb (bool_decide (reachable_levels side limit limitPx levels = [])).
Proof.
  assert (Hmono : forall lv (w : Walk), wk_crossed w = true -> wk_crossed (walk_levels side limit limitPx lv w) = true).
  { induction lv as [|[px q] lv IH]; cbn [walk_levels]; intros w Hw; [done|].
    repeat case_match; auto. }
  induction levels as [|[px q] levels IH]; intros w Hr Hc; [done|]. cbn [walk_levels reachable_levels].
  change (n_leb (wk_remaining w) (nint 0)) with (Qle_bool (wk_remaining w) 0).
  change (n_leb q (nint 0)) with (Qle_bool q 0). cbn [n_finite QArithI negb orb].
  destruct (Qle_bool (wk_remaining w) 0) eqn:E0; [apply Qle_bool_iff in E0; lra|].
  destruct (Qle_bool q 0); [by apply IH|].
  destruct side; change (n_ltb ?a ?b) with (Qltb a b); (case_match; [done|]); by rewrite Hmono.
Qed.

Lemma reachable_limit side limitPx levels l :
  l ∈ reachable_levels side limit limitPx levels ->
  match side with buy => (l.1 <= limitPx)%Q | sell => (limitPx <= l.1)%Q end.
Proof.
  induction levels as [|[px q] levels IH]; cbn [reachable_levels]; [set_solver|].
  destruct (Qle_bool q 0); [done|].
  destruct side; (case_match eqn:E; [set_solver|]); rewrite elem_of_cons; (intros [->|?]; [|by apply IH]);
    simpl; by apply Qltb_ge in E.
Qed.

(** Prices of the levels reached lie in an interval. *)
Lemma levels_interval (l : list (Q * Q)) : exists lo hi, Forall (within lo hi) l.
Proof.
  induction l as [|[px q] l (lo & hi & IH)]; [by exists 0%Q, 0%Q|].
  exists (Qmin px lo), (Qmax px hi). constructor.
  - split; [apply Q.le_min_l|apply Q.le_max_l].
  - eapply Forall_impl; [exact IH|]. intros [a b] [H1 H2]. unfold within in *. simpl in *. split.
    + eapply Qle_trans; [apply Q.le_min_r|done].
    + eapply Qle_trans; [done|apply Q.le_max_r].
Qed.

Lemma depth_pos l : l <> [] -> Forall (fun l => (0 < l.2)%Q) l -> (0 < depth l)%Q.
Proof.
  destruct l as [|[px q] l]; [done|]. intros _ [Hq Hl]%Forall_cons. simpl in Hq.
  pose proof (depth_nonneg l Hl). unfold depth in *. simpl. lra.
Qed.

(** The preview when some level is reached. *)
Lemma preview_walk side type qty limitPx levels mark :
  (0 < qty)%Q -> reachable_levels side type limitPx levels <> [] ->
  exists w, w = walk_levels side type limitPx levels (mkWalk qty 0%Q 0%Q None false) /\
    (0 < wk_filled w)%Q /\
    preview side type qty limitPx (Some levels) mark =
    mkPreview (wk_notional w / wk_filled w)%Q (wk_filled w) (wk_remaining w) (wk_worst w) (wk_crossed w).
Proof.
  intros Hq Hne. set (w0 := mkWalk qty 0%Q 0%Q None false).
  exists (walk_levels side type limitPx levels w0). split; [done|].
  destruct (levels_interval (reachable_levels side type limitPx levels)) as (lo & hi & Hin).
  destruct (walk_levels_spec side type limitPx levels lo hi w0 ltac:(simpl; lra) Hin) as (_ & Hf & _).
  pose proof (depth_pos _ Hne (reachable_positive side type limitPx levels)) as Hd.
  assert (Hpos : (0 < wk_filled (walk_levels side type limitPx levels w0))%Q).
  { rewrite Hf. simpl. destruct (Q.min_dec qty (depth (reachable_levels side type limitPx levels))) as [E|E];
      rewrite E; lra. }
  split; [done|]. unfold preview.
  assert (E1 : (qty <=? nint 0)%num = false).
  { change (Qle_bool qty 0 = false). apply not_true_iff_false. rewrite Qle_bool_iff. lra. }
  rewrite E1. destruct levels as [|l0 levels]; [done|].
  change (mkWalk qty (nint 0) (nint 0) None false) with w0.
  set (w := walk_levels side type limitPx (l0 :: levels) w0) in *.
  assert (E2 : (wk_filled w <=? nint 0)%num = false).
  { change (Qle_bool (wk_filled w) 0 = false). apply not_true_iff_false. rewrite Qle_bool_iff. lra. }
  cbv zeta. rewrite E2. destruct type; [done|]. unfold w. rewrite walk_crossed by (simpl; done || lra).
  rewrite bool_decide_false by done. done.
Qed.

(** C23: the fill preview.  For a positive quantity against a book side, in
    exact arithmetic: the order takes the levels in order, up to the first
    one beyond its limit; what it fills is the smaller of its quantity and
    their total depth; filled and remaining add up to the quantity; the
    average price lies within the prices of the levels reached, hence never
    above a buy limit nor below a sell limit.  When nothing is reached the
    whole quantity remains and the price shown is the limit, or the mark for
    a market order. *)
Theorem preview_fill_correct side type (qty limitPx : Q) levels mark lo hi :
  (0 < qty)%Q ->
  Forall (within lo hi) (reachable_levels side type limitPx levels) ->
  let reach := reachable_levels side type limitPx levels in
  let p := preview side type qty limitPx (Some levels) mark in
  (pv_filledQty p == Qmin qty (depth reach))%Q /\
  (pv_filledQty p + pv_remaining p == qty)%Q /\
  (reach <> [] -> (lo <= pv_effPrice p <= hi)%Q) /\
  (reach <> [] -> type = limit ->
     match side with buy => (pv_effPrice p <= limitPx)%Q | sell => (limitPx <= pv_effPrice p)%Q end) /\
  (reach = [] -> pv_effPrice p = match type with limit => limitPx | market => default 0%Q mark end).
Proof.
  intros Hq Hin reach p. destruct (decide (reach = [])) as [En|Hne].
  - assert (Hp : p = mkPreview (match type with limit => limitPx | market => default 0%Q mark end) 0%Q qty None false).
    { unfold p, preview.
      assert (E1 : (qty <=? nint 0)%num = false).
      { change (Qle_bool qty 0 = false). apply not_true_iff_false. rewrite Qle_bool_iff. lra. }
      rewrite E1. destruct levels as [|l0 levels]; [by destruct type|].
      set (w0 := mkWalk qty (nint 0) (nint 0) None false).
      destruct (walk_levels_spec side type limitPx (l0 :: levels) lo hi w0 ltac:(simpl; lra) Hin) as (_ & Hf & _).
      fold reach in Hf. rewrite En in Hf. cbn [depth fold_right] in Hf. rewrite Q.min_r in Hf by (simpl; lra).
      destruct type.
      - assert (E2 : (wk_filled (walk_levels side market limitPx (l0 :: levels) w0) <=? nint 0)%num = true).
        { change (Qle_bool (wk_filled (walk_levels side market limitPx (l0 :: levels) w0)) 0 = true).
          rewrite Qle_bool_iff, Hf. change (0 + 0 <= 0)%Q. lra. }
        cbv zeta. rewrite E2. f_equal.
        assert (Hc : forall lv (w : Walk), wk_crossed (walk_levels side market limitPx lv w) = wk_crossed w).
        { clear. induction lv as [|[px q] lv IH]; cbn [walk_levels]; intros w; [done|].
          repeat case_match; auto. by rewrite IH. }
        by rewrite Hc.
      - cbv zeta. rewrite walk_crossed by (simpl; done || lra). fold reach. rewrite bool_decide_true by done. done. }
    rewrite Hp, En. simpl. rewrite Q.min_r by lra. repeat split; try lra; try done.
  - destruct (preview_walk side type qty limitPx levels mark Hq Hne) as (w & Ew & Hpos & Hp).
    unfold p. rewrite Hp. cbn [pv_filledQty pv_remaining pv_effPrice].
    destruct (walk_levels_spec side type limitPx levels lo hi (mkWalk qty 0%Q 0%Q None false) ltac:(simpl; lra) Hin)
      as (H1 & H2 & H3 & H4). rewrite <- Ew in *. cbn [wk_remaining wk_filled wk_notional] in *. fold reach in H1, H2, H3, H4.
    assert (Hn : forall a b, (0 + a * Qmin qty (depth reach) <= wk_notional w)%Q ->
                             (wk_notional w <= 0 + b * Qmin qty (depth reach))%Q ->
                             (a <= wk_notional w / wk_filled w <= b)%Q).
    { intros a b Ha Hb. split; [apply Qle_shift_div_l|apply Qle_shift_div_r]; try done; rewrite H2; lra. }
    split; [rewrite H2; lra|]. split; [rewrite H1, H2; lra|]. split; [auto|]. split; [|done].
    intros _ ->. destruct side.
    + destruct (walk_levels_spec buy limit limitPx levels lo limitPx (mkWalk qty 0%Q 0%Q None false) ltac:(simpl; lra))
        as (_ & _ & G3 & G4).
      { rewrite Forall_forall in *. intros l Hl. pose proof (reachable_limit buy limitPx levels l Hl) as Hlim.
        destruct (Hin l Hl). split; [done|exact Hlim]. }
      rewrite <- Ew in *. by apply (Hn lo limitPx).
    + destruct (walk_levels_spec sell limit limitPx levels limitPx hi (mkWalk qty 0%Q 0%Q None false) ltac:(simpl; lra))
        as (_ & _ & G3 & G4).
      { rewrite Forall_forall in *. intros l Hl. pose proof (reachable_limit sell limitPx levels l Hl) as Hlim.
        destruct (Hin l Hl). split; [exact Hlim|done]. }
      rewrite <- Ew in *. by apply (Hn limitPx hi).
Qed.

Lemma preview_fill_correct_witness :
  let p := preview buy limit 3%Q 101%Q (Some [(100, 1); (101, 1); (102, 5)]%Q) None in
  (pv_filledQty p == 2)%Q /\ (pv_filledQty p + pv_remaining p == 3)%Q.
Proof.
  destruct (preview_fill_correct buy limit 3%Q 101%Q [(100, 1); (101, 1); (102, 5)]%Q None 100%Q 101%Q)
    as (H1 & H2 & _).
  - lra.
  - cbn. repeat constructor; cbn; lra.
  - split; [|exact H2]. exact H1.
Defined.

(** The liquidation estimate.  In exact arithmetic, with a positive entry
    price and leverage and a maintenance ratio: at the estimated price the
    margin posted plus the loss leaves exactly the maintenance margin on the
    entry notional; and when the maintenance ratio is below the margin ratio
    [1/leverage], the estimate is on the losing side of the entry. *)
Theorem liquidation_price_correct side (price leverage mm : Q) :
  (0 < price)%Q -> (0 < leverage)%Q ->
  let liq := liq_price side price leverage mm in
  let pnl := match side with buy => (liq - price)%Q | sell => (price - liq)%Q end in
  (price / leverage + pnl == mm * price)%Q /\
  ((mm < 1 / leverage)%Q -> match side with buy => (liq < price)%Q | sell => (price < liq)%Q end).
Proof.
  intros Hp Hl. assert (Hi : ~ (leverage == 0)%Q) by lra.
  assert (Hpos : (mm < 1 / leverage)%Q -> (0 < price * (1 / leverage - mm))%Q)
    by (intros; apply Qmult_lt_0_compat; lra).
  destruct side; cbn zeta.
  - change (liq_price buy price leverage mm) with (price * (1 - 1 / leverage + mm))%Q. split.
    + field. done.
    + intros Hm. specialize (Hpos Hm). lra.
  - change (liq_price sell price leverage mm) with (price * (1 + 1 / leverage - mm))%Q. split.
    + field. done.
    + intros Hm. specialize (Hpos Hm). lra.
Qed.

Lemma liquidation_price_correct_witness :
  (60000 / 10 + (liq_price buy 60000 10 (25 # 1000) - 60000) == (25 # 1000) * 60000)%Q.
Proof. apply (liquidation_price_correct buy 60000 10 (25 # 1000)); lra. Defined.

(** ** The workflows *)

Section Workflow.
Variables (keccak256 toHex : string -> string) (parseUnits : string -> Z -> result Z).
Variables (signTypedData : OrderDomain -> OrderMessage -> outcome string)
          (placeOrder : OrderRequest -> outcome OrderAck).

Abbreviation submit := (onSubmit keccak256 toHex parseUnits signTypedData placeOrder).
Abbreviation close := (closePosition keccak256 toHex parseUnits signTypedData placeOrder).
Abbreviation build := (buildOrderTypedMessage keccak256 toHex parseUnits).

(** The client order id a submission uses. *)
Definition submit_id (rnd36 : string) : string := "cli_" +:+ str_take 10 (str_drop 2 rnd36).

(** The order a request asks for, as the input of the typed message. *)
Definition input_of_request (owner : string) (r : OrderRequest) : BuildOrderInput :=
  mkBuildInput owner (or_marketId r) (or_side r) (or_type r) (or_price r) (or_qty r)
    (or_timeInForce r) (or_reduceOnly r) (or_postOnly r) (or_nonce r) None.

(** How a request is signed: with a chain, by the wallet, over its own typed
    message in the domain of that chain; without one, with a placeholder. *)
Definition signed_for (chainId : option Z) (owner : string) (r : OrderRequest) (signed : option (OrderDomain * OrderMessage)) : Prop :=
  let unsigned := signed = None /\ or_signature r = "0x0000" in
  match chainId with
  | Some c =>
      if c =? 0 then unsigned
      else exists m, let d := ORDER_DOMAIN c SETTLEMENT_PLACEHOLDER in
        build (input_of_request owner r) = Ok m /\ signed = Some (d, m) /\ signTypedData d m = Done (or_signature r)
  | None => unsigned
  end.

Lemma sign_order_for chainId owner r signed :
  sign_order keccak256 toHex parseUnits signTypedData chainId (input_of_request owner r) = (Done (or_signature r), signed) ->
  signed_for chainId owner r signed.
Proof.
  unfold sign_order, signed_for. destruct chainId as [c|]; [|by intros [= <- <-]]. destruct (c =? 0); [by intros [= <- <-]|].
  destruct (build _) as [m'|er]; [|done]. intros [= Hs <-]. by exists m'.
Qed.

(** The shapes of a submission. *)
Lemma submit_cases e t now rnd36 :
  let tr := submit e t now rnd36 in
  tr_actions tr = [] /\ tr_signed tr = None /\ tr_request tr = None \/
  exists o address a1 rest, te_address e = Some address /\
    tr_actions tr = AAddOptimistic (mkOptimistic o (submit_id rnd36)) :: a1 :: ARemoveOptimistic (submit_id rnd36) :: rest /\
    (forall x, x ∈ a1 :: rest -> match x with AToast _ _ _ | ACelebrate _ _ => True | _ => False end) /\
    (forall r, tr_request tr = Some r ->
       or_clientOrderId r = submit_id rnd36 /\ signed_for (te_chainId e) address r (tr_signed tr)).
Proof.
  intros tr. unfold tr, onSubmit. destruct (te_market e) as [m|]; [|by left].
  destruct (te_address e) as [address|]; [|by left]. destruct (negb (str_truthy address)); [by left|right].
  cbv zeta. fold (submit_id rnd36). set (i := mkBuildInput _ _ _ _ _ _ _ _ _ _ _).
  set (order := mkOpenOrder _ _ _ _ _ _ _ _ _). exists order, address.
  destruct (sign_order keccak256 toHex parseUnits signTypedData (te_chainId e) i) as [[sg|msg] signed] eqn:Es.
  - set (req := mkOrderRequest _ _ _ _ _ _ _ _ _ _ _).
    assert (Hsig : forall r, Some req = Some r ->
       or_clientOrderId r = submit_id rnd36 /\ signed_for (te_chainId e) address r signed).
    { intros r [= <-]. split; [done|]. by apply sign_order_for. }
    destruct (placeOrder req) as [ack|msg]; eexists _, _; (split; [done|]); (split; [reflexivity|]); (split; [|exact Hsig]);
      intros x; rewrite !elem_of_cons, elem_of_nil; naive_solver.
  - eexists _, _. split; [done|]. split; [reflexivity|]. split; [|done].
    intros x. rewrite !elem_of_cons, elem_of_nil. naive_solver.
Qed.

Lemma ui_run_quiet acts : forall u,
  Forall (fun x => match x.1 with AToast _ _ _ | ACelebrate _ _ => True | _ => False end) acts ->
  ui_optimisticOrders (ui_run acts u) = ui_optimisticOrders u.
Proof.
  unfold ui_run. induction acts as [|[a s] acts IH]; simpl; intros u H; [done|].
  apply Forall_cons in H as [Ha H]. rewrite IH by done. by destruct a.
Qed.
End Workflow.

(** C18: a submission settles and sends what was signed.  Whatever the wallet
    and the exchange answer, an optimistic order shown while a submission is
    in flight is gone when it ends and no other order is touched, provided no
    order in the store has the fresh client id already.  A request that is
    sent on a known chain carries the wallet's signature of its own typed
    message in the domain of that chain; with no chain id it is sent all the
    same, with the placeholder signature 0x0000 and nothing signed. *)
Theorem submission_settles keccak256 toHex parseUnits sign place e t now rnd36 u acts :
  let tr := onSubmit keccak256 toHex parseUnits sign place e t now rnd36 in
  map fst acts = tr_actions tr ->
  (forall o, o ∈ ui_optimisticOrders u -> op_clientOrderId o <> submit_id rnd36) ->
  ui_optimisticOrders (ui_run acts u) = ui_optimisticOrders u /\
  forall r, tr_request tr = Some r ->
    or_clientOrderId r = submit_id rnd36 /\
    exists owner, te_address e = Some owner /\
      match te_chainId e with
      | Some c =>
          if c =? 0 then tr_signed tr = None /\ or_signature r = "0x0000"
          else exists m, let d := ORDER_DOMAIN c SETTLEMENT_PLACEHOLDER in
            buildOrderTypedMessage keccak256 toHex parseUnits (input_of_request owner r) = Ok m /\
            tr_signed tr = Some (d, m) /\ sign d m = Done (or_signature r)
      | None => tr_signed tr = None /\ or_signature r = "0x0000"
      end.
Proof.
  intros tr Hacts Hfresh. unfold tr in *.
  destruct (submit_cases keccak256 toHex parseUnits sign place e t now rnd36)
    as [(E1 & E2 & E3)|(o & address & a1 & rest & Ea & E & Hq & Hreq)].
  - rewrite E1 in Hacts. apply map_eq_nil in Hacts as ->. rewrite E2, E3. done.
  - split.
    + rewrite E in Hacts. destruct acts as [|[x1 s1] [|[x2 s2] [|[x3 s3] acts]]]; try done.
      simpl in Hacts. injection Hacts as -> -> -> Hr.
      change (ui_run ?l u) with (ui_run l u). unfold ui_run. simpl.
      fold (ui_run acts (removeOptimisticOrder (submit_id rnd36)
             (ui_apply a1 s2 (addOptimisticOrder (mkOptimistic o (submit_id rnd36)) u)))).
      rewrite ui_run_quiet.
      * assert (Ha1 : forall u', ui_optimisticOrders (ui_apply a1 s2 u') = ui_optimisticOrders u').
        { intros u'. specialize (Hq a1 ltac:(set_solver)). by destruct a1. }
        simpl. rewrite Ha1. simpl. unfold without_order at 1. simpl. rewrite string_eqb_refl. simpl.
        fold (without_order (submit_id rnd36) (without_order (submit_id rnd36) (ui_optimisticOrders u))).
        rewrite without_order_idem. by apply without_order_absent.
      * apply Forall_forall. intros [x s] Hx. apply (Hq x). apply elem_of_cons. right.
        rewrite <- Hr. apply list_elem_of_In. apply list_elem_of_In in Hx. exact (in_map fst _ _ Hx).
    + intros r Hr. destruct (Hreq r Hr) as [Hid Hsig]. split; [done|]. exists address. split; [done|]. exact Hsig.
Qed.

(** *** A ticket on the BTC market *)

Definition btc : Market :=
  mkMarket "btc-usd" "BTC" "USD" true "0.1" "0.0001" 20 500 250 100 5 (-2) 28800
    "60000000000000000000000" None None None None.

Definition btc_env : TicketEnv :=
  mkTicketEnv "btc-usd" (Some btc) (Some "200000000") None None true (Some "0xabc") None false.

(** The same ticket on a chain, and a wallet that signs. *)
Definition btc_chain_env : TicketEnv :=
  mkTicketEnv "btc-usd" (Some btc) (Some "200000000") None None true (Some "0xabc") (Some 31337) false.
Definition btc_trace : SubmitTrace :=
  onSubmit (fun s => s) (fun s => s) (fun _ _ => Ok 0) (fun _ _ => Done "0xsigned")
    (fun _ => Done (mkOrderAck "o" ack_filled "1")) btc_chain_env (setQtyInput "0.001" new_ticket) 5 "0.abcdefghijkl".

Lemma submission_settles_witness :
  ui_optimisticOrders (ui_run (map (fun a => (a, mkStamp 7 "0.abcdefgh")) (tr_actions btc_trace)) initial_ui) = [] /\
  exists r d m, tr_request btc_trace = Some r /\ tr_signed btc_trace = Some (d, m) /\ or_signature r = "0xsigned".
Proof.
  destruct (submission_settles (fun s => s) (fun s => s) (fun _ _ => Ok 0) (fun _ _ => Done "0xsigned")
    (fun _ => Done (mkOrderAck "o" ack_filled "1")) btc_chain_env (setQtyInput "0.001" new_ticket) 5 "0.abcdefghijkl"
    initial_ui (map (fun a => (a, mkStamp 7 "0.abcdefgh")) (tr_actions btc_trace))) as [H1 H2].
  - rewrite List.map_map. apply List.map_id.
  - intros o Ho. by apply elem_of_nil in Ho.
  - split; [exact H1|]. fold btc_trace in H2.
    destruct (tr_request btc_trace) as [r|] eqn:Er; [|exfalso; vm_compute in Er; discriminate Er].
    destruct (H2 r eq_refl) as (_ & owner & _ & m & _ & Hs & Hg). exists r. eexists _, m. split; [reflexivity|].
    split; [exact Hs|]. by injection Hg.
Defined.

(** The MAX button can size an order it then refuses.  The size is
    rounded to the lot with [toFixed], which rounds up as often as down, so
    with 200 USDC free, 2x leverage and BTC at 60,000 the button fills in
    0.0067 BTC, whose margin is 201 USDC: the ticket answers "Insufficient
    margin" and cannot be submitted. *)
Theorem quick_max_can_be_insufficient :
  let t := quick_size btc_env new_ticket 100 in
  t_qtyInput t = "0.0067" /\ insufficient btc_env t = true /\ canSubmit btc_env t = false /\
  submit_caption btc_env t = "Insufficient margin".
Proof. vm_compute. repeat split. Qed.

(** A size below one lot can be submitted, and is sent as zero: the submit
    button checks the number typed, the request carries it rounded to the
    lot. *)
Theorem dust_size_submits_zero :
  let t := setQtyInput "0.00004" new_ticket in
  canSubmit btc_env t = true /\
  option_map or_qty (tr_request (onSubmit (fun s => s) (fun s => s) (fun _ _ => Ok 0) (fun _ _ => Failed None)
    (fun _ => Failed None) btc_env t 5 "0.abcdefghijkl")) = Some "0.0000".
Proof. vm_compute. split; reflexivity. Qed.

(** A market order can carry post-only.  The toggle is disabled on the
    market tab but keeps its value: switched on for a limit order, it is
    still set in the request of the market order that follows. *)
Theorem market_order_keeps_post_only t :
  let t' := setType market (togglePostOnly true (setType limit t)) in
  t_postOnly t' = true /\ togglePostOnly false t' = t' /\
  forall keccak256 toHex parseUnits sign place e now rnd36 r,
    tr_request (onSubmit keccak256 toHex parseUnits sign place e t' now rnd36) = Some r ->
    or_type r = market /\ or_postOnly r = true.
Proof.
  split; [done|]. split; [done|]. intros keccak256 toHex parseUnits sign place e now rnd36 r.
  unfold onSubmit. destruct (te_market e); [|done]. destruct (te_address e) as [a|]; [|done].
  destruct (negb (str_truthy a)); [done|]. cbv zeta.
  destruct (sign_order _ _ _ _ _ _) as [[sg|msg] signed]; [|done].
  destruct (place _); simpl; intros [= <-]; done.
Qed.
