(* ===== verification/Session.v ===== *)
(** * The session and the REST client ([web/lib/wallet/siwe.ts],
    [web/lib/api/rest.ts], [web/lib/api/queries.ts])

    The stored token with its expiry, the snapshot React subscribes to, the
    sign-in workflow, and the fetch wrapper that turns a 401 into a sign-out.
    A fetched body can be read once, as in the browser: a second read
    rejects. *)

From S2P Require Import Prelude JsNum JsText JsColl Contract Browser WsClient.
From Stdlib Require Import SpecFloat Ascii.
#[local] Open Scope Z_scope.

(** ** The stored token *)

Record StoredJwt := mkStoredJwt { sj_jwt : string; sj_expiresAt : string }.

Definition truthy_item (o : option string) : option string :=
  match o with Some s => if str_truthy s then Some s else None | None => None end.

Section Siwe.
(** [Date.parse]: dates other than ISO 8601 are left to the engine. *)
Variable Date_parse : string -> number.

Definition readStoredJwt (now : number) (b : Browser) : option StoredJwt * Browser :=
  if negb (b_window b) then (None, b)
  else match truthy_item (getItem JWT_KEY b), truthy_item (getItem JWT_EXP_KEY b) with
  | Some jwt, Some expiresAt =>
      if SFleb (Date_parse expiresAt) now then
        (None, removeItem JWT_EXP_KEY (removeItem JWT_KEY b))
      else (Some (mkStoredJwt jwt expiresAt), b)
  | _, _ => (None, b)
  end.

Definition writeJwt (jwt expiresAt : string) (b : Browser) : Browser :=
  emitJwtChange (setItem JWT_EXP_KEY expiresAt (setItem JWT_KEY jwt b)).

(** [cachedSnapshot]: the object, by the number of its allocation. *)
Record SnapshotCache := mkCache { sc_cached : option (nat * StoredJwt); sc_next : nat }.

Definition same_snapshot (a : option (nat * StoredJwt)) (f : option StoredJwt) : bool :=
  bool_decide (option_map (fun x => sj_jwt x.2) a = option_map sj_jwt f) &&
  bool_decide (option_map (fun x => sj_expiresAt x.2) a = option_map sj_expiresAt f).

Definition jwtSnapshot (now : number) (c : SnapshotCache) (b : Browser) :
    option (nat * StoredJwt) * SnapshotCache * Browser :=
  let '(fresh, b') := readStoredJwt now b in
  if same_snapshot (sc_cached c) fresh then (sc_cached c, c, b')
  else
    let o := option_map (fun f => (sc_next c, f)) fresh in
    (o, mkCache o (S (sc_next c)), b').

(** Events [subscribeJwt] listens to. *)
Definition jwt_events (b : Browser) : list string :=
  if b_window b then [JWT_EVENT; "storage"] else [].

Definition signOut (b : Browser) : Browser := clearJwt b.

(** The effect that aligns the WebSocket client with the snapshot. *)
Definition sync_effect (rnd : nat -> number) (url_ok : bool) (stored : option (nat * StoredJwt)) (g : Singleton) : Singleton :=
  syncWsToken rnd url_ok (option_map (fun x => sj_jwt x.2) stored) g.
End Siwe.

(** ** Query strings *)

Definition hex_digit (d : Z) : ascii :=
  if d <? 10 then char_of_digit d else ascii_of_N (Z.to_N (d + 55)).

Definition percent (c : ascii) : string :=
  let n := Z.of_N (N_of_ascii c) in
  String "%"%char (String (hex_digit (n / 16)) (String (hex_digit (n mod 16)) EmptyString)).

(** [application/x-www-form-urlencoded]. *)
Definition form_safe (c : ascii) : bool :=
  is_word c || existsb (Ascii.eqb c) ["*"; "-"; "."]%char.

Fixpoint form_encode (s : string) : string :=
  match s with
  | EmptyString => EmptyString
  | String c s' =>
      if form_safe c then String c (form_encode s')
      else if Ascii.eqb c " "%char then String "+"%char (form_encode s')
      else percent c +:+ form_encode s'
  end.

Definition params_toString (q : list (string * string)) : string :=
  str_join "&" (map (fun p => form_encode p.1 +:+ "=" +:+ form_encode p.2) q).

(** ** The fetch wrapper *)

Inductive HttpBody := NoBody | BOrder (o : OrderRequest) | BAddress (a : string) | BSiwe (message signature : string).

Record HttpRequest := mkHttp { hq_method : string; hq_url : string; hq_headers : list (string * string); hq_body : HttpBody }.

(** A settled fetch: the body parsed as JSON ([None] when it is not JSON). *)
Record HttpResponse (T : Type) := mkHttpResponse {
  hr_status : Z; hr_statusText : string; hr_json : option T; hr_text : string
}.
Arguments mkHttpResponse {T}.
Arguments hr_status {T}.
Arguments hr_statusText {T}.
Arguments hr_json {T}.
Arguments hr_text {T}.

(** What [request] rejects with. *)
Inductive ApiFailure (T : Type) :=
| Network (e : JsError)
| ApiErr (status : Z) (message : string) (detail : option T)
| BodyError (e : JsError).
Arguments Network {T}.
Arguments ApiErr {T}.
Arguments BodyError {T}.

Definition hr_ok {T} (r : HttpResponse T) : bool := (200 <=? hr_status r) && (hr_status r <=? 299).

Definition SyntaxError_json : JsError := mkError "SyntaxError" "Unexpected token in JSON".
Definition TypeError_body_used : JsError := mkError "TypeError" "Body has already been consumed".

(** Reading a body marks it used; a used body cannot be read again. *)
Definition res_json {T} (used : bool) (r : HttpResponse T) : result T * bool :=
  if used then (Throw TypeError_body_used, true)
  else (match hr_json r with Some v => Ok v | None => Throw SyntaxError_json end, true).

Definition res_text {T} (used : bool) (r : HttpResponse T) : result string * bool :=
  if used then (Throw TypeError_body_used, true) else (Ok (hr_text r), true).

Definition API_BASE_default : string := "http://localhost:8080".

Definition authHeaders (b : Browser) : list (string * string) :=
  if negb (b_window b) then []
  else match truthy_item (getItem JWT_KEY b) with
       | Some jwt => [("Authorization", "Bearer " +:+ jwt)]
       | None => []
       end.

(** The request [request] hands to [fetch]. *)
Definition request_init (base method path : string) (body : HttpBody) (b : Browser) : HttpRequest :=
  mkHttp method (base +:+ path) (("content-type", "application/json") :: authHeaders b) body.

Section Rest.
Context {T : Type}.
Variables (base : string) (fetch : HttpRequest -> result (HttpResponse T)).

Definition request (method path : string) (body : HttpBody) (b : Browser) :
    (T + ApiFailure T) * Browser :=
  match fetch (request_init base method path body b) with
  | Throw e => (inr (Network e), b)
  | Ok res =>
      if negb (hr_ok res) then
        let '(j, used) := res_json false res in
        (* detail: the JSON, or else the text *)
        let detail : result (option T) :=
          match j with
          | Ok v => Ok (Some v)
          | Throw _ => match res_text used res with (Ok _, _) => Ok None | (Throw e, _) => Throw e end
          end in
        match detail with
        | Throw e => (inr (BodyError e), b)
        | Ok d =>
            let b' := if hr_status res =? 401 then clearStoredJwtOn401 b else b in
            (inr (ApiErr (hr_status res)
                    ("API " +:+ bigint_toString (hr_status res) +:+ ": " +:+ hr_statusText res) d), b')
        end
      else match res_json false res with
           | (Ok v, _) => (inl v, b)
           | (Throw e, _) => (inr (BodyError e), b)
           end
  end.
End Rest.

(** ** The endpoints *)

Inductive Depth := depth_50 | depth_200 | depth_full.
Definition depth_text (d : Depth) : string := match d with depth_50 => "50" | depth_200 => "200" | depth_full => "full" end.

Inductive Range := r1h | r24h | r7d.
Definition range_text (r : Range) : string := match r with r1h => "1h" | r24h => "24h" | r7d => "7d" end.

Definition opt_param (k : string) (v : option string) : list (string * string) :=
  match truthy_item v with Some s => [(k, s)] | None => [] end.

(** Method, path and body of each member of [api]. *)
Inductive ApiCall :=
| api_markets
| api_orderbook (marketId : MarketId) (depth : Depth)
| api_trades (marketId : MarketId) (limit : Z) (before : option string)
| api_funding (marketId : MarketId) (range : Range)
| api_placeOrder (body : OrderRequest)
| api_cancelOrder (orderId : string)
| api_openOrders
| api_positions
| api_fills (marketId : option string) (limit : option Z) (before : option string)
| api_balance
| api_nonce (address : string)
| api_verify (message signature : string).

Definition api (c : ApiCall) : string * string * HttpBody :=
  match c with
  | api_markets => ("GET", "/v1/markets", NoBody)
  | api_orderbook m d => ("GET", "/v1/orderbook/" +:+ m +:+ "?depth=" +:+ depth_text d, NoBody)
  | api_trades m l before =>
      let q := ("limit", bigint_toString l) :: opt_param "before" before in
      ("GET", "/v1/trades/" +:+ m +:+ "?" +:+ params_toString q, NoBody)
  | api_funding m r => ("GET", "/v1/funding/" +:+ m +:+ "?range=" +:+ range_text r, NoBody)
  | api_placeOrder o => ("POST", "/v1/orders", BOrder o)
  | api_cancelOrder id => ("DELETE", "/v1/orders/" +:+ id, NoBody)
  | api_openOrders => ("GET", "/v1/orders/open", NoBody)
  | api_positions => ("GET", "/v1/positions", NoBody)
  | api_fills m l before =>
      let lim := match l with Some n => if n =? 0 then None else Some (bigint_toString n) | None => None end in
      let q := opt_param "marketId" m ++ opt_param "limit" lim ++ opt_param "before" before in
      let qs := params_toString q in
      ("GET", "/v1/fills" +:+ (if str_truthy qs then "?" +:+ qs else ""), NoBody)
  | api_balance => ("GET", "/v1/account/balance", NoBody)
  | api_nonce a => ("POST", "/v1/auth/siwe/nonce", BAddress a)
  | api_verify m s => ("POST", "/v1/auth/siwe/verify", BSiwe m s)
  end.

(** ** Signing in *)

Record SiweUi := mkSiweUi { su_isSigning : bool; su_error : option string }.

(** A JSON body as the workflow reads it: [null], whose members cannot be
    read, or a value with the members it looks up, by their text. *)
Inductive SiweBody := BodyNull | BodyObject (nonce jwt expiresAt : option string).

(** A member that is missing is written to the store as its text. *)
Definition member_text (o : option string) : string := default "undefined" o.

Definition TypeError_null : JsError := mkError "TypeError" "Cannot read properties of null".

Definition failure_message {T} (f : ApiFailure T) : string :=
  match f with Network e => err_message e | ApiErr _ m _ => m | BodyError e => err_message e end.

Section SignIn.
(** Whatever answers the requests has a state; the wallet library composes
    the message and the wallet signs it. *)
Context {S : Type}.
Variable base : string.
Variable fetch : HttpRequest -> S -> result (HttpResponse SiweBody) * S.
Variable prepareMessage : string -> option string -> result string.   (* address, nonce *)
Variable signMessage : string -> result string.

(** A member of [api]: the request is made from the browser as it is and may
    change it. *)
Definition call_api (c : ApiCall) (s : S) (b : Browser) : (SiweBody + string) * S * Browser :=
  let '(method, path, body) := api c in
  let '(reply, s') := fetch (request_init base method path body b) s in
  match request base (fun _ => reply) method path body b with
  | (inl v, b') => (inl v, s', b')
  | (inr f, b') => (inr (failure_message f), s', b')
  end.

(** The calls the workflow awaits, in order: the nonce, the wallet's
    signature of the message built from it, the verification.  The result is
    the token and its expiry, or the message of what was thrown. *)
Definition signIn_calls (address : string) (s : S) (b : Browser) : ((string * string) + string) * S * Browser :=
  match call_api (api_nonce address) s b with
  | (inr why, s, b) => (inr why, s, b)
  | (inl BodyNull, s, b) => (inr (err_message TypeError_null), s, b)
  | (inl (BodyObject nonce _ _), s, b) =>
      match prepareMessage address nonce with
      | Throw e => (inr (err_message e), s, b)
      | Ok message =>
          match signMessage message with
          | Throw e => (inr (err_message e), s, b)
          | Ok signature =>
              match call_api (api_verify message signature) s b with
              | (inr why, s, b) => (inr why, s, b)
              | (inl BodyNull, s, b) => (inr (err_message TypeError_null), s, b)
              | (inl (BodyObject _ jwt expiresAt), s, b) => (inl (member_text jwt, member_text expiresAt), s, b)
              end
          end
      end
  end.

Definition signIn (address : option string) (u : SiweUi) (s : S) (b : Browser) : SiweUi * S * Browser :=
  match truthy_item address with
  | None => (mkSiweUi (su_isSigning u) (Some "Connect a wallet first."), s, b)
  | Some a =>
      match signIn_calls a s b with
      | (inl (jwt, expiresAt), s', b') => (mkSiweUi false None, s', writeJwt jwt expiresAt b')
      | (inr why, s', b') => (mkSiweUi false (Some why), s', b')
      end
  end.
End SignIn.

(** ** Queries ([web/lib/api/queries.ts]) *)

Module Qk.
Definition markets : list string := ["markets"].
Definition orderbook (m : MarketId) : list string := ["orderbook"; m].
Definition trades (m : MarketId) : list string := ["trades"; m].
Definition funding (m : MarketId) : list string := ["funding"; m].
Definition openOrders : list string := ["openOrders"].
Definition positions : list string := ["positions"].
Definition fills (m : option MarketId) : list string := ["fills"; default "all" m].
Definition balance : list string := ["balance"].
End Qk.

Record Query := mkQuery {
  qy_key : list string; qy_call : ApiCall; qy_enabled : bool; qy_staleMs : Z; qy_refetchMs : option Z
}.

Definition useMarkets : Query := mkQuery Qk.markets api_markets true 30000 None.
Definition useOrderbookSnapshot (m : MarketId) (enabled : bool) : Query :=
  mkQuery (Qk.orderbook m) (api_orderbook m depth_50) enabled 1000 None.
Definition useRecentTrades (m : MarketId) : Query := mkQuery (Qk.trades m) (api_trades m 50 None) true 2000 None.
Definition useFunding (m : MarketId) : Query := mkQuery (Qk.funding m) (api_funding m r24h) true 10000 None.
Definition useOpenOrders : Query := mkQuery Qk.openOrders api_openOrders true 1000 None.
Definition usePositions : Query := mkQuery Qk.positions api_positions true 1000 (Some 2000).
Definition useFills (m : option MarketId) : Query :=
  mkQuery (Qk.fills m) (api_fills m (Some 100) None) true 1000 (Some 2000).
Definition useBalance : Query := mkQuery Qk.balance api_balance true 5000 None.

Record Mutation_ := mkMutation_ { mt_call : ApiCall; mt_invalidates : list (list string) }.

Definition usePlaceOrder (req : OrderRequest) : Mutation_ :=
  mkMutation_ (api_placeOrder req) [Qk.openOrders; Qk.positions; ["fills"]].
Definition useCancelOrder (orderId : string) : Mutation_ :=
  mkMutation_ (api_cancelOrder orderId) [Qk.openOrders].

(** A key is invalidated by its prefixes. *)
Fixpoint key_prefix (p k : list string) : bool :=
  match p, k with
  | [], _ => true
  | x :: p', y :: k' => String.eqb x y && key_prefix p' k'
  | _ :: _, [] => false
  end.

Definition invalidates (m : Mutation_) (q : Query) : bool := existsb (fun p => key_prefix p (qy_key q)) (mt_invalidates m).

(** ** What they guarantee *)

(** A reply with a usable body, and a reply that ends the session. *)
Definition good_reply {T} (r : result (HttpResponse T)) : option T :=
  match r with Ok res => if hr_ok res then hr_json res else None | Throw _ => None end.

Definition unauthorized_reply {T} (r : result (HttpResponse T)) : bool :=
  match r with
  | Ok res => (hr_status res =? 401) && match hr_json res with Some _ => true | None => false end
  | Throw _ => false
  end.

Lemma request_outcome {T} base (fetch : HttpRequest -> result (HttpResponse T)) method path body b :
  let reply := fetch (request_init base method path body b) in
  match good_reply reply with
  | Some v => request base fetch method path body b = (inl v, b)
  | None => exists f, request base fetch method path body b =
              (inr f, if unauthorized_reply reply then clearStoredJwtOn401 b else b)
  end.
Proof.
  unfold request, good_reply, unauthorized_reply. cbv zeta.
  destruct (fetch _) as [res|e]; [|by eexists]. unfold res_json. destruct (hr_ok res) eqn:Hok; cbn [negb].
  - destruct (hr_json res); [done|]. eexists. by rewrite andb_false_r.
  - destruct (hr_json res); cbn [res_text]; eexists; [by rewrite andb_true_r|by rewrite andb_false_r].
Qed.

Section SignInFacts.
Context {S : Type} (base : string) (fetch : HttpRequest -> S -> result (HttpResponse SiweBody) * S)
  (prepare : string -> option string -> result string) (sign : string -> result string).

Definition nonce_request (address : string) (b : Browser) : HttpRequest :=
  request_init base "POST" "/v1/auth/siwe/nonce" (BAddress address) b.
Definition verify_request (message signature : string) (b : Browser) : HttpRequest :=
  request_init base "POST" "/v1/auth/siwe/verify" (BSiwe message signature) b.

(** The message and the signature a nonce reply leads to. *)
Definition signed_message (address : string) (reply : result (HttpResponse SiweBody)) : option (string * string) :=
  match good_reply reply with
  | Some (BodyObject nonce _ _) =>
      match prepare address nonce with
      | Ok m => match sign m with Ok g => Some (m, g) | Throw _ => None end
      | Throw _ => None
      end
  | _ => None
  end.

(** The reply to the last request a sign-in makes: the verification's, if
    the nonce came and the wallet signed. *)
Definition last_reply (address : string) (s : S) (b : Browser) : result (HttpResponse SiweBody) :=
  let '(reply, s1) := fetch (nonce_request address b) s in
  match signed_message address reply with
  | Some (m, g) => (fetch (verify_request m g b) s1).1
  | None => reply
  end.

(** The verified session a sign-in stores: the wallet signed, and the last
    reply was good. *)
Definition verified_session (address : string) (s : S) (b : Browser) : option (string * string) :=
  match signed_message address (fetch (nonce_request address b) s).1, good_reply (last_reply address s b) with
  | Some _, Some (BodyObject _ jwt expiresAt) => Some (member_text jwt, member_text expiresAt)
  | _, _ => None
  end.

Lemma call_api_outcome c s b :
  let '(method, path, body) := api c in
  let '(reply, s') := fetch (request_init base method path body b) s in
  match good_reply reply with
  | Some v => call_api base fetch c s b = (inl v, s', b)
  | None => exists why, call_api base fetch c s b =
              (inr why, s', if unauthorized_reply reply then clearStoredJwtOn401 b else b)
  end.
Proof.
  unfold call_api. destruct (api c) as [[method path] body].
  destruct (fetch _ s) as [reply s']. pose proof (request_outcome base (fun _ => reply) method path body b) as H.
  cbv zeta beta in H. destruct (good_reply reply); [by rewrite H|]. destruct H as [f ->]. by eexists.
Qed.

Lemma good_not_unauthorized (r : result (HttpResponse SiweBody)) v : good_reply r = Some v -> unauthorized_reply r = false.
Proof.
  unfold good_reply, unauthorized_reply, hr_ok. destruct r as [res|]; [|done]. intros H.
  destruct (Z.eqb_spec (hr_status res) 401) as [E|]; [|done]. by rewrite E in H.
Qed.

Lemma signIn_calls_outcome address s b :
  match verified_session address s b with
  | Some (jwt, expiresAt) => exists s', signIn_calls base fetch prepare sign address s b = (inl (jwt, expiresAt), s', b)
  | None => exists why s', signIn_calls base fetch prepare sign address s b =
              (inr why, s', if unauthorized_reply (last_reply address s b) then clearStoredJwtOn401 b else b)
  end.
Proof.
  unfold verified_session, last_reply, signIn_calls.
  pose proof (call_api_outcome (api_nonce address) s b) as H1. cbn [api] in H1. fold (nonce_request address b) in H1.
  destruct (fetch (nonce_request address b) s) as [r1 s1]. cbn [fst]. unfold signed_message.
  destruct (good_reply r1) as [[|n j e]|] eqn:G1.
  - rewrite H1, (good_not_unauthorized _ _ G1). by do 2 eexists.
  - rewrite H1. pose proof (good_not_unauthorized _ _ G1) as U1.
    destruct (prepare address n) as [m|er]; [|rewrite U1; by do 2 eexists].
    destruct (sign m) as [g|er]; [|rewrite U1; by do 2 eexists].
    pose proof (call_api_outcome (api_verify m g) s1 b) as H2. cbn [api] in H2. fold (verify_request m g b) in H2.
    destruct (fetch (verify_request m g b) s1) as [r2 s2]. cbn [fst].
    destruct (good_reply r2) as [[|n2 j2 e2]|] eqn:G2.
    + rewrite H2, (good_not_unauthorized _ _ G2). by do 2 eexists.
    + rewrite H2. by eexists.
    + destruct H2 as [why ->]. by do 2 eexists.
  - destruct H1 as [why ->]. by do 2 eexists.
Qed.
End SignInFacts.

Lemma write_then_read Date_parse now jwt expiresAt b :
  b_window b = true -> str_truthy jwt = true -> str_truthy expiresAt = true ->
  SFleb (Date_parse expiresAt) now = false ->
  readStoredJwt Date_parse now (writeJwt jwt expiresAt b) = (Some (mkStoredJwt jwt expiresAt), writeJwt jwt expiresAt b).
Proof.
  intros Hw Hj He Hn.
  unfold readStoredJwt, writeJwt, emitJwtChange, getItem, truthy_item. simpl. rewrite Hw. simpl. rewrite ?Hw. simpl.
  rewrite lookup_insert_ne by done. rewrite lookup_insert_eq. rewrite Hj.
  rewrite lookup_insert_eq. by rewrite He, Hn.
Qed.

Lemma signed_out_reads_none Date_parse now b : signed_out b -> (readStoredJwt Date_parse now b).1 = None.
Proof. intros [H1 H2]. unfold readStoredJwt. destruct (negb _); [done|]. by rewrite H1. Qed.

Lemma writeJwt_window jwt e b : b_window (writeJwt jwt e b) = b_window b.
Proof. unfold writeJwt, emitJwtChange, setItem, dispatchEvent. destruct b as [[] st ev]; done. Qed.

(** C39: what a sign-in leaves in the browser, by what the API and the wallet
    answered.  If the nonce came, the wallet signed and the verification was
    answered with a session, that session is stored: it is read back, by any
    reader, until its expiry, and a sign-out then leaves nothing to read.
    Otherwise the error is shown, and the stored session depends on the last
    reply: a 401 with a JSON body (what the exchange answers to a bad
    signature or a bad nonce) has signed the user out and announced it; after
    any other failure (the network, the wallet's refusal, another status, a
    body that is not JSON) the browser is as it was.  The spinner is off in
    every case. *)
Theorem sign_in_round_trip {S} base (fetch : HttpRequest -> S -> result (HttpResponse SiweBody) * S) prepare sign
    Date_parse address u s b now :
  b_window b = true -> str_truthy address = true ->
  let '(u', _, b') := signIn base fetch prepare sign (Some address) u s b in
  su_isSigning u' = false /\
  match verified_session base fetch prepare sign address s b with
  | Some (jwt, expiresAt) =>
      su_error u' = None /\
      (str_truthy jwt = true -> str_truthy expiresAt = true -> SFleb (Date_parse expiresAt) now = false ->
       readStoredJwt Date_parse now b' = (Some (mkStoredJwt jwt expiresAt), b')) /\
      (readStoredJwt Date_parse now (signOut b')).1 = None
  | None =>
      su_error u' <> None /\
      if unauthorized_reply (last_reply base fetch prepare sign address s b)
      then signed_out b' /\ b_events b' = b_events b ++ [JWT_EVENT] /\ (readStoredJwt Date_parse now b').1 = None
      else b' = b
  end.
Proof.
  intros Hw Ha. unfold signIn, truthy_item. rewrite Ha.
  pose proof (signIn_calls_outcome base fetch prepare sign address s b) as H.
  destruct (verified_session _ _ _ _ _ _ _) as [[jwt expiresAt]|].
  - destruct H as [s' ->]. split; [done|]. split; [done|]. split.
    + intros. by apply write_then_read.
    + apply signed_out_reads_none, clearJwt_signed_out. by rewrite writeJwt_window.
  - destruct H as (why & s' & ->). split; [done|]. split; [done|].
    destruct (unauthorized_reply _); [|done]. destruct (clearStored_agree b) as [-> _].
    split; [by apply clearJwt_signed_out|]. split; [|by apply signed_out_reads_none, clearJwt_signed_out].
    unfold clearJwt, emitJwtChange. rewrite Hw. cbn. by rewrite Hw.
Qed.

(** An expiry the engine cannot read never expires.  The stored expiry is
    compared as [Date.parse(expiresAt) <= Date.now()], which is false on NaN:
    a token whose expiry is not a date text, such as the decimal nanoseconds
    the exchange sends, is handed out at any time. *)
Theorem unreadable_expiry_never_expires Date_parse b jwt expiresAt :
  b_window b = true -> getItem JWT_KEY b = Some jwt -> getItem JWT_EXP_KEY b = Some expiresAt ->
  str_truthy jwt = true -> str_truthy expiresAt = true ->
  num_isNaN (Date_parse expiresAt) = true ->
  forall now, readStoredJwt Date_parse now b = (Some (mkStoredJwt jwt expiresAt), b).
Proof.
  intros Hw H1 H2 T1 T2 Hn now. unfold readStoredJwt, truthy_item. rewrite Hw, H1, H2, T1, T2. simpl.
  destruct (Date_parse expiresAt); done.
Qed.

(** The session snapshot is stable.  The hook that React re-renders from
    always reflects the stored session, and while the stored session does not
    change it is the same object at every read, which is what keeps the
    component from rendering forever. *)
Theorem session_snapshot_stable Date_parse now now' c b :
  let '(o1, c1, b1) := jwtSnapshot Date_parse now c b in
  option_map snd o1 = (readStoredJwt Date_parse now b).1 /\
  (option_map snd o1 = (readStoredJwt Date_parse now' b1).1 ->
   exists b2, jwtSnapshot Date_parse now' c1 b1 = (o1, c1, b2)).
Proof.
  unfold jwtSnapshot. destruct (readStoredJwt Date_parse now b) as [fresh b1] eqn:E1.
  assert (Hsame : forall a f, same_snapshot a f = true <-> option_map snd a = f).
  { intros a f. unfold same_snapshot. rewrite andb_true_iff, !bool_decide_eq_true.
    destruct a as [[i [j e]]|], f as [[j' e']|]; simpl; naive_solver. }
  assert (Hnext : forall o n, option_map snd o = (readStoredJwt Date_parse now' b1).1 ->
    exists b2, (let '(fresh, b') := readStoredJwt Date_parse now' b1 in
       if same_snapshot o fresh then (o, mkCache o n, b')
       else let o' := option_map (fun f => (n, f)) fresh in (o', mkCache o' (S n), b')) = (o, mkCache o n, b2)).
  { intros o n Ho. destruct (readStoredJwt Date_parse now' b1) as [f b2]. exists b2. simpl in Ho.
    by rewrite (proj2 (Hsame o f) Ho). }
  destruct c as [cached next]. simpl. destruct (same_snapshot cached fresh) eqn:Es.
  - split; [by apply Hsame|]. apply Hnext.
  - split; [by destruct fresh|]. intros H. exact (Hnext _ (S next) H).
Qed.

(** A 401 ends the session, if its body is JSON.  The stored token and its
    expiry are removed, the change is announced and the caller gets the API
    error.  With any other body the wrapper reads a body it has already
    consumed: the caller gets that error instead and the dead token stays. *)
Theorem unauthorized_reply_signs_out {T} base (fetch : HttpRequest -> result (HttpResponse T)) method path body b res :
  b_window b = true ->
  fetch (request_init base method path body b) = Ok res ->
  hr_status res = 401 ->
  match hr_json res with
  | Some v => exists b', request base fetch method path body b =
                (inr (ApiErr 401 ("API 401: " +:+ hr_statusText res) (Some v)), b') /\
              signed_out b' /\ b_events b' = b_events b ++ [JWT_EVENT] /\ authHeaders b' = []
  | None => request base fetch method path body b = (inr (BodyError TypeError_body_used), b)
  end.
Proof.
  intros Hw Hf Hs. unfold request. rewrite Hf. unfold hr_ok. rewrite Hs. simpl.
  destruct (hr_json res) as [v|]; simpl; [|done].
  eexists. split; [done|]. destruct (clearStored_agree b) as [-> _].
  pose proof (clearJwt_signed_out b Hw) as Ho. split; [done|].
  unfold clearJwt, emitJwtChange in *. rewrite Hw in *. simpl in *. rewrite Hw in *. simpl. split; [done|].
  unfold authHeaders. simpl. rewrite Hw. simpl. destruct Ho as [-> _]. done.
Qed.

(** The views of an order are refreshed when it is placed. *)
Lemma place_order_refreshes req m :
  invalidates (usePlaceOrder req) useOpenOrders = true /\
  invalidates (usePlaceOrder req) usePositions = true /\
  invalidates (usePlaceOrder req) (useFills m) = true /\
  invalidates (usePlaceOrder req) useBalance = false.
Proof. by destruct m. Qed.

(** *** Witnesses *)

(** An API that answers every nonce and verifies one signature; its state
    counts the requests. *)
Definition demo_fetch (rq : HttpRequest) (n : nat) : result (HttpResponse SiweBody) * nat :=
  (match hq_body rq with
   | BAddress _ => Ok (mkHttpResponse 200 "OK" (Some (BodyObject (Some "nonce") None None)) "")
   | BSiwe _ "0xsig" =>
       Ok (mkHttpResponse 200 "OK" (Some (BodyObject None (Some "jwt_1") (Some "2030-01-01T00:00:00Z"))) "")
   | _ => Ok (mkHttpResponse 401 "Unauthorized" (Some (BodyObject None None None)) "")
   end, Datatypes.S n).
Definition demo_prepare (a : string) (n : option string) : result string := Ok (a +:+ default "" n).
Definition demo_parse (s : string) : number :=
  if String.eqb s "2030-01-01T00:00:00Z" then num_of_Z 1893456000000 else NaN.
Definition demo_browser : Browser := mkBrowser true ∅ [].

(** A sign-in that succeeds, and then one with a bad signature. *)
Lemma sign_in_round_trip_witness :
  let '(u1, n1, b1) := signIn "http://x" demo_fetch demo_prepare (fun _ => Ok "0xsig") (Some "0xabc") (mkSiweUi false None) 0%nat demo_browser in
  let '(u2, n2, b2) := signIn "http://x" demo_fetch demo_prepare (fun _ => Ok "0xbad") (Some "0xabc") u1 n1 b1 in
  readStoredJwt demo_parse (num_of_Z 1700000000000) b1 = (Some (mkStoredJwt "jwt_1" "2030-01-01T00:00:00Z"), b1) /\
  su_error u2 <> None /\ signed_out b2.
Proof.
  destruct (signIn "http://x" demo_fetch demo_prepare (fun _ => Ok "0xsig") (Some "0xabc") (mkSiweUi false None) 0%nat demo_browser)
    as [[u1 n1] b1] eqn:E1.
  destruct (signIn "http://x" demo_fetch demo_prepare (fun _ => Ok "0xbad") (Some "0xabc") u1 n1 b1) as [[u2 n2] b2] eqn:E2.
  pose proof (sign_in_round_trip "http://x" demo_fetch demo_prepare (fun _ => Ok "0xsig") demo_parse "0xabc"
    (mkSiweUi false None) 0%nat demo_browser (num_of_Z 1700000000000) eq_refl eq_refl) as H1.
  rewrite E1 in H1. cbn in H1. destruct H1 as (_ & _ & H1 & _).
  assert (Hw1 : b_window b1 = true) by (vm_compute in E1; injection E1 as <- <- <-; reflexivity).
  pose proof (sign_in_round_trip "http://x" demo_fetch demo_prepare (fun _ => Ok "0xbad") demo_parse "0xabc"
    u1 n1 b1 (num_of_Z 1700000000000) Hw1 eq_refl) as H2.
  rewrite E2 in H2. cbn in H2. destruct H2 as (_ & H2 & H3 & _).
  split; [apply H1; reflexivity|]. split; [exact H2|exact H3].
Defined.

Definition demo_ns_browser : Browser := writeJwt "jwt_1" "1700003600000000000" demo_browser.

Lemma unreadable_expiry_never_expires_witness :
  readStoredJwt demo_parse (num_of_Z 9900000000000) demo_ns_browser =
  (Some (mkStoredJwt "jwt_1" "1700003600000000000"), demo_ns_browser).
Proof.
  apply (unreadable_expiry_never_expires demo_parse demo_ns_browser "jwt_1" "1700003600000000000"); reflexivity.
Defined.

Lemma unauthorized_reply_signs_out_witness :
  request "http://x" (fun _ => Ok (mkHttpResponse 401 "Unauthorized" (None : option nat) "no")) "GET" "/v1/positions"
    NoBody demo_ns_browser = (inr (BodyError TypeError_body_used), demo_ns_browser).
Proof.
  apply (unauthorized_reply_signs_out "http://x" (fun _ => Ok (mkHttpResponse 401 "Unauthorized" (None : option nat) "no"))
    "GET" "/v1/positions" NoBody demo_ns_browser (mkHttpResponse 401 "Unauthorized" None "no")); reflexivity.
Defined.
