(* ===== verification/Evm.v ===== *)
(** * The contract platform

    What the Solidity sources under src/contracts use of their language and of
    the libraries they import: transactions that either run to the end or
    revert without a trace ([Tx]), arithmetic that panics outside its width,
    mappings with a zero default, and the token and helper library as an
    interface ([Erc20], [OzMath]) with the behaviour its documentation
    promises.  [ledger] and [oz_math] are concrete instances. *)
From S2P Require Import Prelude.

(** ** Transactions *)

Notation Address := Z (only parsing).
Notation Bytes32 := Z (only parsing).

Inductive Revert :=
| Custom (name : string)
| Require_ (msg : string)
| Panic (code : Z)
| TokenRevert.

Definition Tx (W A : Type) : Type := W -> Revert + (A * W).

#[global] Instance tx_ret W : MRet (Tx W) := fun A a w => inr (a, w).
#[global] Instance tx_bind W : MBind (Tx W) := fun A B f m w =>
  match m w with
  | inl e => inl e
  | inr (a, w') => f a w'
  end.

Definition revert {W A} (e : Revert) : Tx W A := fun _ => inl e.
Definition revert_if {W} (b : bool) (e : Revert) : Tx W unit := fun w => if b then inl e else inr (tt, w).
Definition require {W} (b : bool) (msg : string) : Tx W unit := revert_if (negb b) (Require_ msg).
Definition gets {W A} (f : W -> A) : Tx W A := fun w => inr (f w, w).
Definition modify {W} (f : W -> W) : Tx W unit := fun w => inr (tt, f w).
Definition of_option {W A} (e : Revert) (o : option A) : Tx W A :=
  fun w => match o with Some a => inr (a, w) | None => inl e end.

Fixpoint tx_iter {W A} (f : A -> Tx W unit) (l : list A) : Tx W unit :=
  match l with
  | [] => mret tt
  | a :: l' => f a ;; tx_iter f l'
  end.

Fixpoint tx_fold {W A B} (f : B -> A -> Tx W B) (b : B) (l : list A) : Tx W B :=
  match l with
  | [] => mret b
  | a :: l' => b' ← f b a; tx_fold f b' l'
  end.

(** ** Checked arithmetic, panic 0x11 on overflow and 0x12 on division by zero *)

Definition UMAX : Z := 2 ^ 256 - 1.
Definition IMAX : Z := 2 ^ 255 - 1.
Definition IMIN : Z := - 2 ^ 255.

Definition is_uint (x : Z) : bool := (0 <=? x) && (x <=? UMAX).
Definition is_int (x : Z) : bool := (IMIN <=? x) && (x <=? IMAX).

Definition checked {W} (ok : Z -> bool) (x : Z) : Tx W Z :=
  if ok x then mret x else revert (Panic 17).

Definition uadd {W} (a b : Z) : Tx W Z := checked is_uint (a + b).
Definition usub {W} (a b : Z) : Tx W Z := checked is_uint (a - b).
Definition umul {W} (a b : Z) : Tx W Z := checked is_uint (a * b).
Definition udiv {W} (a b : Z) : Tx W Z := if b =? 0 then revert (Panic 18) else checked is_uint (a / b).
Definition iadd {W} (a b : Z) : Tx W Z := checked is_int (a + b).
Definition isub {W} (a b : Z) : Tx W Z := checked is_int (a - b).
Definition imul {W} (a b : Z) : Tx W Z := checked is_int (a * b).
Definition ineg {W} (a : Z) : Tx W Z := checked is_int (- a).
(** Signed division truncates toward zero. *)
Definition idiv {W} (a b : Z) : Tx W Z := if b =? 0 then revert (Panic 18) else checked is_int (Z.quot a b).

Definition to_uint64 (x : Z) : Z := x mod 2 ^ 64.

(** A mapping reads as zero where nothing was written. *)
Definition mget {K} `{Countable K} (m : gmap K Z) (k : K) : Z := default 0 (m !! k).

(** ** The imported libraries *)

Class OzMath := {
  oz_abs : Z -> Z;
  oz_toInt256 : Z -> option Z;
  oz_toUint256 : Z -> option Z;
}.

Class OzMathLaws `{OzMath} : Prop := {
  oz_abs_spec : forall x, is_int x = true -> oz_abs x = Z.abs x;
  oz_toInt256_spec : forall x, is_uint x = true -> oz_toInt256 x = if x <=? IMAX then Some x else None;
  oz_toUint256_spec : forall x, is_int x = true -> oz_toUint256 x = if x <? 0 then None else Some x;
}.

Class Erc20 (T : Type) := {
  balanceOf : T -> Address -> Z;
  allowance : T -> Address -> Address -> Z;
  totalSupply : T -> Z;
  tk_mint : Address -> Z -> T -> option T;
  tk_approve : Address -> Address -> Z -> T -> option T;
  tk_transfer : Address -> Address -> Z -> T -> option T;
  tk_transferFrom : Address -> Address -> Address -> Z -> T -> option T;
}.

Definition shift_balance (from to : Address) (n : Z) (a : Address) : Z :=
  (if bool_decide (a = to) then n else 0) - (if bool_decide (a = from) then n else 0).

Class Erc20Laws (T : Type) `{Erc20 T} : Prop := {
  tk_balance_nonneg : forall t a, 0 <= balanceOf t a;
  tk_mint_balance : forall to n t t', tk_mint to n t = Some t' ->
    forall a, balanceOf t' a = balanceOf t a + if bool_decide (a = to) then n else 0;
  tk_mint_supply : forall to n t t', tk_mint to n t = Some t' -> totalSupply t' = totalSupply t + n;
  tk_mint_total : forall to n t, to <> 0 -> 0 <= n -> totalSupply t + n <= UMAX -> is_Some (tk_mint to n t);
  tk_approve_frame : forall o s n t t', tk_approve o s n t = Some t' ->
    totalSupply t' = totalSupply t /\ forall a, balanceOf t' a = balanceOf t a;
  tk_approve_allowance : forall o s n t t', tk_approve o s n t = Some t' -> allowance t' o s = n;
  tk_approve_other : forall o s n t t', tk_approve o s n t = Some t' ->
    forall o' s', (o', s') <> (o, s) -> allowance t' o' s' = allowance t o' s';
  tk_approve_total : forall o s n t, o <> 0 -> s <> 0 -> is_Some (tk_approve o s n t);
  tk_transfer_balance : forall f to n t t', tk_transfer f to n t = Some t' ->
    forall a, balanceOf t' a = balanceOf t a + shift_balance f to n a;
  tk_transfer_supply : forall f to n t t', tk_transfer f to n t = Some t' -> totalSupply t' = totalSupply t;
  tk_transfer_allowance : forall f to n t t', tk_transfer f to n t = Some t' ->
    forall o s, allowance t' o s = allowance t o s;
  tk_mint_allowance : forall to n t t', tk_mint to n t = Some t' ->
    forall o s, allowance t' o s = allowance t o s;
  tk_amounts_unsigned : forall f to s n t t',
    tk_mint to n t = Some t' \/ tk_transfer f to n t = Some t' \/ tk_transferFrom s f to n t = Some t' -> 0 <= n;
  tk_transfer_total : forall f to n t, f <> 0 -> to <> 0 -> 0 <= n <= balanceOf t f ->
    is_Some (tk_transfer f to n t);
  tk_transferFrom_balance : forall s f to n t t', tk_transferFrom s f to n t = Some t' ->
    forall a, balanceOf t' a = balanceOf t a + shift_balance f to n a;
  tk_transferFrom_supply : forall s f to n t t', tk_transferFrom s f to n t = Some t' ->
    totalSupply t' = totalSupply t;
  tk_transferFrom_allowance : forall s f to n t t', tk_transferFrom s f to n t = Some t' ->
    n <= allowance t f s /\ forall o s', allowance t' o s' <= allowance t o s';
  tk_transferFrom_total : forall s f to n t, f <> 0 -> s <> 0 -> to <> 0 ->
    0 <= n <= balanceOf t f -> n <= allowance t f s -> is_Some (tk_transferFrom s f to n t);
}.

(** ** Inverting a transaction that went through *)

Lemma bind_ok {W A B} (m : Tx W A) (f : A -> Tx W B) w b w2 :
  (m ≫= f) w = inr (b, w2) -> exists a w1, m w = inr (a, w1) /\ f a w1 = inr (b, w2).
Proof.
  unfold mbind, tx_bind. destruct (m w) as [e | [a w1]]; [discriminate | eauto].
Qed.

Lemma bind_run {W A B} (m : Tx W A) (f : A -> Tx W B) w a w1 :
  m w = inr (a, w1) -> (m ≫= f) w = f a w1.
Proof. intros E. unfold mbind, tx_bind. by rewrite E. Qed.

Lemma bind_stop {W A B} (m : Tx W A) (f : A -> Tx W B) w e :
  m w = inl e -> (m ≫= f) w = inl e.
Proof. intros E. unfold mbind, tx_bind. by rewrite E. Qed.

Lemma ret_ok {W A} (a b : A) (w w2 : W) : (mret a : Tx W A) w = inr (b, w2) -> a = b /\ w = w2.
Proof. by intros [= -> ->]. Qed.

Lemma revert_ok {W A} e (b : A) (w w2 : W) : (revert e : Tx W A) w = inr (b, w2) -> False.
Proof. discriminate. Qed.

Lemma revert_if_ok {W} b e u (w w2 : W) : revert_if b e w = inr (u, w2) -> b = false /\ w = w2.
Proof. unfold revert_if. destruct b; [discriminate | by intros [= _ ->]]. Qed.

Lemma require_ok {W} b msg u (w w2 : W) : require b msg w = inr (u, w2) -> b = true /\ w = w2.
Proof. intros [E ->]%revert_if_ok. split; [by apply negb_false_iff | done]. Qed.

Lemma gets_ok {W A} (f : W -> A) a w w2 : gets f w = inr (a, w2) -> f w = a /\ w = w2.
Proof. by intros [= -> ->]. Qed.

Lemma modify_ok {W} (f : W -> W) u w w2 : modify f w = inr (u, w2) -> w2 = f w.
Proof. by intros [= _ ->]. Qed.

Lemma of_option_ok {W A} e (o : option A) a (w w2 : W) :
  of_option e o w = inr (a, w2) -> o = Some a /\ w = w2.
Proof. unfold of_option. destruct o; [by intros [= -> ->] | discriminate]. Qed.

Lemma checked_ok {W} ok x y (w w2 : W) : checked ok x w = inr (y, w2) -> ok x = true /\ y = x /\ w = w2.
Proof. unfold checked. destruct (ok x); [by intros [<- ->]%ret_ok | discriminate]. Qed.

Lemma checked_run {W} ok x (w : W) : ok x = true -> checked ok x w = inr (x, w).
Proof. intros E. unfold checked. by rewrite E. Qed.

Lemma udiv_ok {W} a b y (w w2 : W) :
  udiv a b w = inr (y, w2) -> b <> 0 /\ is_uint (a / b) = true /\ y = a / b /\ w = w2.
Proof.
  unfold udiv. destruct (b =? 0) eqn:E; [discriminate|]. intros (? & -> & ->)%checked_ok.
  bool_to_prop. auto.
Qed.

Lemma idiv_ok {W} a b y (w w2 : W) :
  idiv a b w = inr (y, w2) -> b <> 0 /\ is_int (Z.quot a b) = true /\ y = Z.quot a b /\ w = w2.
Proof.
  unfold idiv. destruct (b =? 0) eqn:E; [discriminate|]. intros (? & -> & ->)%checked_ok.
  bool_to_prop. auto.
Qed.

Lemma is_uint_iff x : is_uint x = true <-> 0 <= x <= UMAX.
Proof. unfold is_uint. rewrite andb_true_iff, !Z.leb_le. done. Qed.

Lemma is_int_iff x : is_int x = true <-> IMIN <= x <= IMAX.
Proof. unfold is_int. rewrite andb_true_iff, !Z.leb_le. done. Qed.

(** Takes a successful transaction apart, step by step. *)
Ltac tx_step H :=
  lazymatch type of H with
  | @mbind (Tx _) _ _ _ _ _ _ = inr _ =>
      let a := fresh "a" in let w := fresh "w" in let H1 := fresh "Hs" in
      apply bind_ok in H; destruct H as (a & w & H1 & H); cbn beta in H; repeat (progress tx_step H1)
  | @mret (Tx _) _ _ _ _ = inr _ => apply ret_ok in H; destruct H; simplify_eq
  | revert _ _ = inr _ => destruct (revert_ok _ _ _ _ H)
  | revert_if _ _ _ = inr _ => apply revert_if_ok in H; destruct H as [H ->]
  | require _ _ _ = inr _ => apply require_ok in H; destruct H as [H ->]
  | gets _ _ = inr _ => apply gets_ok in H; destruct H as [H ->]; simplify_eq
  | modify _ _ = inr _ => apply modify_ok in H; simplify_eq
  | of_option _ _ _ = inr _ => apply of_option_ok in H; destruct H as [H ->]
  | checked _ _ _ = inr _ => apply checked_ok in H; destruct H as (H & -> & ->)
  | uadd _ _ _ = inr _ => apply checked_ok in H; destruct H as (H & -> & ->)
  | usub _ _ _ = inr _ => apply checked_ok in H; destruct H as (H & -> & ->)
  | umul _ _ _ = inr _ => apply checked_ok in H; destruct H as (H & -> & ->)
  | iadd _ _ _ = inr _ => apply checked_ok in H; destruct H as (H & -> & ->)
  | isub _ _ _ = inr _ => apply checked_ok in H; destruct H as (H & -> & ->)
  | imul _ _ _ = inr _ => apply checked_ok in H; destruct H as (H & -> & ->)
  | ineg _ _ = inr _ => apply checked_ok in H; destruct H as (H & -> & ->)
  | udiv _ _ _ = inr _ => apply udiv_ok in H; destruct H as (? & H & -> & ->)
  | idiv _ _ _ = inr _ => apply idiv_ok in H; destruct H as (? & H & -> & ->)
  | (if ?b then _ else _) _ = inr _ => let E := fresh "Eb" in destruct b eqn:E
  | _ => idtac
  end.

Ltac tx_inv H := repeat (progress tx_step H).

Lemma tx_iter_ind {W A} (P : W -> Prop) (f : A -> Tx W unit) l w w2 :
  (forall a w w', a ∈ l -> P w -> f a w = inr (tt, w') -> P w') ->
  P w -> tx_iter f l w = inr (tt, w2) -> P w2.
Proof.
  revert w. induction l as [|a l IH]; simpl; intros w Hf Hw H.
  - tx_step H. done.
  - apply bind_ok in H. destruct H as ([] & w1 & H1 & H2).
    eapply (IH w1); [| |exact H2].
    + intros b v v' Hb. apply Hf. by apply elem_of_cons; right.
    + eapply Hf; [|exact Hw|exact H1]. apply elem_of_cons. by left.
Qed.

(** ** What a transaction preserves

    [pres R m]: whenever [m] goes through, the state before and the state
    after are related by [R].  For a preorder this is compositional, so frame
    conditions and invariants of a call follow from those of its steps. *)

Definition pres {W A} (R : W -> W -> Prop) (m : Tx W A) : Prop :=
  forall w a w', m w = inr (a, w') -> R w w'.

Section pres.
Context {W : Type} (R : W -> W -> Prop) `{!PreOrder R}.

Lemma pres_tx_ret {A} (a : A) : pres R (mret a).
Proof. intros w b w' E%ret_ok. destruct E as [_ ->]. reflexivity. Qed.

Lemma pres_tx_bind {A B} (m : Tx W A) (f : A -> Tx W B) :
  pres R m -> (forall a, pres R (f a)) -> pres R (m ≫= f).
Proof.
  intros Hm Hf w b w2 E. apply bind_ok in E. destruct E as (a & w1 & E1 & E2).
  transitivity w1; [by eapply Hm | by eapply Hf].
Qed.

Lemma pres_revert {A} e : pres R (revert e : Tx W A).
Proof. by intros w b w' E%revert_ok. Qed.

Lemma pres_revert_if b e : pres R (revert_if b e).
Proof. intros w u w' E%revert_if_ok. destruct E as [_ ->]. reflexivity. Qed.

Lemma pres_gets {A} (f : W -> A) : pres R (gets f).
Proof. intros w a w' E%gets_ok. destruct E as [_ ->]. reflexivity. Qed.

Lemma pres_of_option {A} e (o : option A) : pres R (of_option e o).
Proof. intros w a w' E%of_option_ok. destruct E as [_ ->]. reflexivity. Qed.

Lemma pres_checked ok x : pres R (checked ok x).
Proof. intros w a w' E%checked_ok. destruct E as (_ & _ & ->). reflexivity. Qed.

Lemma pres_modify (f : W -> W) : (forall w, R w (f w)) -> pres R (modify f).
Proof. intros Hf w u w' E%modify_ok. subst. apply Hf. Qed.

Lemma pres_iter {A} (f : A -> Tx W unit) l : (forall a, pres R (f a)) -> pres R (tx_iter f l).
Proof. intros Hf. induction l; simpl; [apply pres_tx_ret | by apply pres_tx_bind]. Qed.

Lemma pres_fold {A B} (f : B -> A -> Tx W B) l b : (forall b a, pres R (f b a)) -> pres R (tx_fold f b l).
Proof. intros Hf. revert b. induction l; simpl; intros; [apply pres_tx_ret | by apply pres_tx_bind]. Qed.

End pres.

(** An invariant, through a step whose result [a] satisfies [P a]. *)
Lemma pres_bind_dep {W A B} (I : W -> Prop) (P : A -> Prop) (m : Tx W A) (f : A -> Tx W B) :
  (forall w a w', I w -> m w = inr (a, w') -> I w' /\ P a) ->
  (forall a, P a -> pres (fun w w' => I w -> I w') (f a)) ->
  pres (fun w w' => I w -> I w') (m ≫= f).
Proof.
  intros Hm Hf w b w2 E Hw. apply bind_ok in E. destruct E as (a & w1 & E1 & E2).
  destruct (Hm _ _ _ Hw E1) as [Hw1 HP]. by eapply (Hf a HP).
Qed.

Create HintDb frames.

(** Reduces [pres R m] to the state changes of [m]. *)
Ltac pres_step :=
  lazymatch goal with
  | |- forall _, _ => intros
  | |- pres _ (match ?x with _ => _ end) => destruct x
  | |- pres _ (@mbind (Tx _) _ _ _ _ _) => apply pres_tx_bind; [typeclasses eauto | |]
  | |- pres _ (@mret (Tx _) _ _ _) => apply pres_tx_ret; typeclasses eauto
  | |- pres _ (revert _) => apply pres_revert
  | |- pres _ (revert_if _ _) => apply pres_revert_if; typeclasses eauto
  | |- pres _ (require _ _) => apply pres_revert_if; typeclasses eauto
  | |- pres _ (gets _) => apply pres_gets; typeclasses eauto
  | |- pres _ (of_option _ _) => apply pres_of_option; typeclasses eauto
  | |- pres _ (checked _ _) => apply pres_checked; typeclasses eauto
  | |- pres _ (uadd _ _) => apply pres_checked; typeclasses eauto
  | |- pres _ (usub _ _) => apply pres_checked; typeclasses eauto
  | |- pres _ (umul _ _) => apply pres_checked; typeclasses eauto
  | |- pres _ (iadd _ _) => apply pres_checked; typeclasses eauto
  | |- pres _ (isub _ _) => apply pres_checked; typeclasses eauto
  | |- pres _ (imul _ _) => apply pres_checked; typeclasses eauto
  | |- pres _ (ineg _) => apply pres_checked; typeclasses eauto
  | |- pres _ (udiv _ _) => unfold udiv
  | |- pres _ (idiv _ _) => unfold idiv
  | |- pres _ (tx_iter _ _) => apply pres_iter; [typeclasses eauto |]
  | |- pres _ (tx_fold _ _ _) => apply pres_fold; [typeclasses eauto |]
  | |- pres _ (let _ := _ in _) => cbv zeta
  | |- pres _ _ => solve [auto with frames nocore]
  end.

Ltac pres_auto := repeat (progress pres_step).

(** ** Instances *)

#[global] Instance oz_math : OzMath := {|
  oz_abs := Z.abs;
  oz_toInt256 x := if x <=? IMAX then Some x else None;
  oz_toUint256 x := if x <? 0 then None else Some x;
|}.

#[global] Instance oz_math_laws : OzMathLaws.
Proof. by split. Qed.

Record ledger := mkLedger {
  l_balances : gmap Address N;
  l_allowances : gmap (Address * Address) Z;
  l_supply : Z;
}.

Definition l_balance (l : ledger) (a : Address) : Z := Z.of_N (default 0%N (l_balances l !! a)).

Definition l_mint (to : Address) (n : Z) (l : ledger) : option ledger :=
  if bool_decide (to = 0) || (n <? 0) || (UMAX <? l_supply l + n) then None
  else Some (mkLedger (<[to := Z.to_N (l_balance l to + n)]> (l_balances l)) (l_allowances l) (l_supply l + n)).

Definition l_move (from to : Address) (n : Z) (l : ledger) : option ledger :=
  if bool_decide (from = 0) || bool_decide (to = 0) || (n <? 0) || (l_balance l from <? n) then None
  else
    let m := <[from := Z.to_N (l_balance l from - n)]> (l_balances l) in
    let l1 := mkLedger m (l_allowances l) (l_supply l) in
    Some (mkLedger (<[to := Z.to_N (l_balance l1 to + n)]> m) (l_allowances l) (l_supply l)).

Definition l_approve (o s : Address) (n : Z) (l : ledger) : option ledger :=
  if bool_decide (o = 0) || bool_decide (s = 0) then None
  else Some (mkLedger (l_balances l) (<[(o, s) := n]> (l_allowances l)) (l_supply l)).

Definition l_transferFrom (s from to : Address) (n : Z) (l : ledger) : option ledger :=
  let cur := mget (l_allowances l) (from, s) in
  if cur <? n then None
  else
    let allow := if cur =? UMAX then l_allowances l else <[(from, s) := cur - n]> (l_allowances l) in
    l_move from to n (mkLedger (l_balances l) allow (l_supply l)).

#[global] Instance ledger_token : Erc20 ledger := {|
  balanceOf := l_balance;
  allowance l o s := mget (l_allowances l) (o, s);
  totalSupply := l_supply;
  tk_mint := l_mint;
  tk_approve := l_approve;
  tk_transfer := l_move;
  tk_transferFrom := l_transferFrom;
|}.

Ltac guards :=
  bool_to_prop;
  repeat match goal with
  | H : bool_decide _ = false |- _ => apply bool_decide_eq_false in H
  | H : bool_decide _ = true |- _ => apply bool_decide_eq_true in H
  end.

Lemma l_move_balance f to n l l' :
  l_move f to n l = Some l' -> forall a, l_balance l' a = l_balance l a + shift_balance f to n a.
Proof.
  unfold l_move, shift_balance. intros E a.
  destruct (_ || _ || _ || _)%bool eqn:G in E; [discriminate|]. injection E as <-.
  guards. unfold l_balance in *. cbn in *.
  destruct (decide (f = to)) as [<-|Hft].
  - rewrite insert_insert_eq. rewrite fin_maps.lookup_insert_eq. cbn.
    case_bool_decide; [subst; rewrite fin_maps.lookup_insert_eq | rewrite lookup_insert_ne by done]; cbn; lia.
  - rewrite (lookup_insert_ne _ f to) by done.
    repeat case_bool_decide; subst; try done;
      repeat first [rewrite fin_maps.lookup_insert_eq | rewrite lookup_insert_ne by done]; cbn; lia.
Qed.

Lemma l_move_total f to n l :
  f <> 0 -> to <> 0 -> 0 <= n <= l_balance l f -> is_Some (l_move f to n l).
Proof.
  intros ? ? ?. unfold l_move. rewrite !bool_decide_false by done. cbn.
  destruct (n <? 0) eqn:?; [bool_to_prop; lia|]. destruct (_ <? n) eqn:?; [bool_to_prop; lia|]. eauto.
Qed.

#[global] Instance ledger_laws : Erc20Laws ledger.
Proof.
  split; cbn.
  - intros. unfold l_balance. lia.
  - intros to n l l' E a. unfold l_mint in E. destruct (_ || _ || _)%bool eqn:G in E; [discriminate|].
    injection E as <-. guards. unfold l_balance. cbn.
    case_bool_decide; subst; rewrite ?fin_maps.lookup_insert_eq, ?lookup_insert_ne by done; cbn; lia.
  - intros to n l l' E. unfold l_mint in E. destruct (_ || _ || _)%bool in E; [discriminate|]. by injection E as <-.
  - intros to n l ? ? ?. unfold l_mint. rewrite bool_decide_false by done. cbn.
    destruct (n <? 0) eqn:?; [bool_to_prop; lia|]. destruct (UMAX <? _) eqn:?; [bool_to_prop; lia|]. eauto.
  - intros o s n l l' E. unfold l_approve in E. destruct (_ || _)%bool in E; [discriminate|]. by injection E as <-.
  - intros o s n l l' E. unfold l_approve in E. destruct (_ || _)%bool in E; [discriminate|].
    injection E as <-. cbn. unfold mget. by rewrite fin_maps.lookup_insert_eq.
  - intros o s n l l' E o' s' Hne. unfold l_approve in E. destruct (_ || _)%bool in E; [discriminate|].
    injection E as <-. cbn. unfold mget. by rewrite lookup_insert_ne by congruence.
  - intros o s n l ? ?. unfold l_approve. rewrite !bool_decide_false by done. cbn. eauto.
  - apply l_move_balance.
  - intros f to n l l' E. unfold l_move in E. destruct (_ || _ || _ || _)%bool in E; [discriminate|]. by injection E as <-.
  - intros f to n l l' E. unfold l_move in E. destruct (_ || _ || _ || _)%bool in E; [discriminate|]. by injection E as <-.
  - intros to n l l' E. unfold l_mint in E. destruct (_ || _ || _)%bool in E; [discriminate|]. by injection E as <-.
  - intros f to s n l l' [E|[E|E]].
    + unfold l_mint in E. destruct (_ || _ || _)%bool eqn:G in E; [discriminate|]. guards. done.
    + unfold l_move in E. destruct (_ || _ || _ || _)%bool eqn:G in E; [discriminate|]. guards. done.
    + unfold l_transferFrom in E. destruct (_ <? n) in E; [discriminate|].
      unfold l_move in E. destruct (_ || _ || _ || _)%bool eqn:G in E; [discriminate|]. guards. done.
  - apply l_move_total.
  - intros s f to n l l' E a. unfold l_transferFrom in E. destruct (_ <? n) in E; [discriminate|].
    by rewrite (l_move_balance _ _ _ _ _ E).
  - intros s f to n l l' E. unfold l_transferFrom in E. destruct (_ <? n) in E; [discriminate|].
    unfold l_move in E. destruct (_ || _ || _ || _)%bool in E; [discriminate|]. by injection E as <-.
  - intros s f to n l l' E. unfold l_transferFrom in E. destruct (_ <? n) eqn:G in E; [discriminate|].
    bool_to_prop. split; [done|]. intros o s'.
    unfold l_move in E. destruct (_ || _ || _ || _)%bool eqn:G2 in E; [discriminate|]. guards. injection E as <-. cbn.
    destruct (_ =? UMAX); [done|]. unfold mget in *.
    destruct (decide ((o, s') = (f, s))) as [[= -> ->]|];
      [rewrite fin_maps.lookup_insert_eq; cbn; lia | by rewrite lookup_insert_ne by congruence].
  - intros s f to n l ? ? ? ? ?. unfold l_transferFrom. destruct (_ <? n) eqn:?; [bool_to_prop; lia|].
    by apply l_move_total.
Qed.
