(* ===== verification/Contracts.v ===== *)
(** * The settlement contracts

    The contracts of src/contracts/src that the devnet scripts talk to, each
    with its storage as a record and one definition per function: the
    collateral vault, the position and market registries, the mock oracle, the
    settlement engine with its fill hook, and the liquidation, funding and
    insurance contracts.  [World] is the state of the chain they share.

    Every function takes the caller ([sender]) first and is a transaction of
    [Evm.v]: it panics where the checked arithmetic does, and a revert undoes
    the whole call.  A call to an address at which the wanted contract does
    not live reverts, as a call without that code does.  Events are left out,
    nothing reads them; so is the re-entrancy guard, since the only outside
    code called is the token, which does not call back. *)
From S2P Require Import Prelude Evm.

(** ** Storage *)

Record Position := mkPos {
  size : Z;
  entryPriceX18 : Z;
  cumulativeFunding : Z;
  lastUpdatedBlock : Z;
}.
Definition no_position : Position := mkPos 0 0 0 0.

Record MarketParams := mkParams {
  imRatioBps : Z;
  mmRatioBps : Z;
  liqBonusBps : Z;
  takerFeeBps : Z;
  makerRebateBps : Z;
  active : bool;
}.
Definition no_params : MarketParams := mkParams 0 0 0 0 0 false.

Record MockOracle := mkOracle {
  mo_owner : Address;
  mo_prices : gmap Bytes32 Z;
  mo_publishedAt : gmap Bytes32 Z;
}.

Record MarketRegistry := mkMarketRegistry {
  mk_owner : Address;
  mk_markets : list Bytes32;
  mk_params : gmap Bytes32 MarketParams;
  mk_listed : gset Bytes32;
}.

Record PositionRegistry := mkPositionRegistry {
  pr_collateralVault : Address;
  pr_settlementEngine : Address;
  pr_liquidationEngine : Address;
  pr_fundingEngine : Address;
  pr_owner : Address;
  pr_positions : gmap (Address * Bytes32) Position;
  pr_userMarkets : gmap Address (list Bytes32);
  pr_indexPlusOne : gmap (Address * Bytes32) Z;
  pr_funding : gmap Bytes32 Z;
}.

Record CollateralVault := mkVault {
  v_SETTLEMENT_ENGINE : Address;
  v_LIQUIDATION_ENGINE : Address;
  v_balances : gmap Address Z;
  v_totalDeposits : Z;
}.

Record SettlementEngine := mkEngine {
  se_owner : Address;
  se_operator : Address;
  se_fillHook : Address;
  se_usedNonces : gset Z;
}.

Record PendingWithdraw := mkPending { pw_amount : Z; pw_eta : Z }.

Record SyntheticCounterparty := mkCounterparty {
  sc_owner : Address;
  sc_settlement : Address;
  sc_marketCap : gmap Bytes32 Z;
  sc_position : gmap Bytes32 Z;
  sc_realisedPnl : gmap Bytes32 Z;
  sc_pending : PendingWithdraw;
}.

Record FundingEngine := mkFundingEngine {
  fe_owner : Address;
  fe_submitter : Address;
  fe_lastFundingAt : gmap Bytes32 Z;
}.

(** The chain's id and where each contract lives. *)
Record Addresses := mkAddresses {
  a_chainid : Z;
  a_usdc : Address;
  a_positions : Address;
  a_vault : Address;
  a_engine : Address;
  a_counterparty : Address;
  a_liquidation : Address;
  a_funding : Address;
  a_fund : Address;
}.

Record World (T : Type) := mkWorld {
  w_at : Addresses;
  w_token : T;
  w_oracle : MockOracle;
  w_markets : MarketRegistry;
  w_positions : PositionRegistry;
  w_vault : CollateralVault;
  w_engine : SettlementEngine;
  w_counterparty : SyntheticCounterparty;
  w_liquidation_owner : Address;
  w_funding : FundingEngine;
  w_fund_owner : Address;
  w_timestamp : Z;
  w_number : Z;
}.
Arguments mkWorld {T}.
Arguments w_at {T}. Arguments w_token {T}. Arguments w_oracle {T}. Arguments w_markets {T}.
Arguments w_positions {T}. Arguments w_vault {T}. Arguments w_engine {T}. Arguments w_counterparty {T}.
Arguments w_liquidation_owner {T}. Arguments w_funding {T}. Arguments w_fund_owner {T}.
Arguments w_timestamp {T}. Arguments w_number {T}.

(** ** Storage updates *)

Section updates.
Context {T : Type}.
Implicit Types w : World T.

Definition with_token (t : T) w : World T :=
  mkWorld (w_at w) t (w_oracle w) (w_markets w) (w_positions w) (w_vault w) (w_engine w) (w_counterparty w)
    (w_liquidation_owner w) (w_funding w) (w_fund_owner w) (w_timestamp w) (w_number w).
Definition with_oracle (o : MockOracle) w : World T :=
  mkWorld (w_at w) (w_token w) o (w_markets w) (w_positions w) (w_vault w) (w_engine w) (w_counterparty w)
    (w_liquidation_owner w) (w_funding w) (w_fund_owner w) (w_timestamp w) (w_number w).
Definition with_markets (m : MarketRegistry) w : World T :=
  mkWorld (w_at w) (w_token w) (w_oracle w) m (w_positions w) (w_vault w) (w_engine w) (w_counterparty w)
    (w_liquidation_owner w) (w_funding w) (w_fund_owner w) (w_timestamp w) (w_number w).
Definition with_positions (p : PositionRegistry) w : World T :=
  mkWorld (w_at w) (w_token w) (w_oracle w) (w_markets w) p (w_vault w) (w_engine w) (w_counterparty w)
    (w_liquidation_owner w) (w_funding w) (w_fund_owner w) (w_timestamp w) (w_number w).
Definition with_vault (v : CollateralVault) w : World T :=
  mkWorld (w_at w) (w_token w) (w_oracle w) (w_markets w) (w_positions w) v (w_engine w) (w_counterparty w)
    (w_liquidation_owner w) (w_funding w) (w_fund_owner w) (w_timestamp w) (w_number w).
Definition with_engine (e : SettlementEngine) w : World T :=
  mkWorld (w_at w) (w_token w) (w_oracle w) (w_markets w) (w_positions w) (w_vault w) e (w_counterparty w)
    (w_liquidation_owner w) (w_funding w) (w_fund_owner w) (w_timestamp w) (w_number w).
Definition with_counterparty (c : SyntheticCounterparty) w : World T :=
  mkWorld (w_at w) (w_token w) (w_oracle w) (w_markets w) (w_positions w) (w_vault w) (w_engine w) c
    (w_liquidation_owner w) (w_funding w) (w_fund_owner w) (w_timestamp w) (w_number w).
Definition with_funding (f : FundingEngine) w : World T :=
  mkWorld (w_at w) (w_token w) (w_oracle w) (w_markets w) (w_positions w) (w_vault w) (w_engine w)
    (w_counterparty w) (w_liquidation_owner w) f (w_fund_owner w) (w_timestamp w) (w_number w).
Definition with_liquidation_owner (a : Address) w : World T :=
  mkWorld (w_at w) (w_token w) (w_oracle w) (w_markets w) (w_positions w) (w_vault w) (w_engine w)
    (w_counterparty w) a (w_funding w) (w_fund_owner w) (w_timestamp w) (w_number w).
Definition with_fund_owner (a : Address) w : World T :=
  mkWorld (w_at w) (w_token w) (w_oracle w) (w_markets w) (w_positions w) (w_vault w) (w_engine w)
    (w_counterparty w) (w_liquidation_owner w) (w_funding w) a (w_timestamp w) (w_number w).

End updates.

Definition with_balances (b : gmap Address Z) (total : Z) (v : CollateralVault) : CollateralVault :=
  mkVault (v_SETTLEMENT_ENGINE v) (v_LIQUIDATION_ENGINE v) b total.
Definition with_params (m : list Bytes32) (p : gmap Bytes32 MarketParams) (l : gset Bytes32)
    (r : MarketRegistry) : MarketRegistry :=
  mkMarketRegistry (mk_owner r) m p l.
Definition with_pos (p : gmap (Address * Bytes32) Position) (r : PositionRegistry) : PositionRegistry :=
  mkPositionRegistry (pr_collateralVault r) (pr_settlementEngine r) (pr_liquidationEngine r)
    (pr_fundingEngine r) (pr_owner r) p (pr_userMarkets r) (pr_indexPlusOne r) (pr_funding r).
Definition with_tracking (u : gmap Address (list Bytes32)) (i : gmap (Address * Bytes32) Z)
    (r : PositionRegistry) : PositionRegistry :=
  mkPositionRegistry (pr_collateralVault r) (pr_settlementEngine r) (pr_liquidationEngine r)
    (pr_fundingEngine r) (pr_owner r) (pr_positions r) u i (pr_funding r).
Definition with_index (f : gmap Bytes32 Z) (r : PositionRegistry) : PositionRegistry :=
  mkPositionRegistry (pr_collateralVault r) (pr_settlementEngine r) (pr_liquidationEngine r)
    (pr_fundingEngine r) (pr_owner r) (pr_positions r) (pr_userMarkets r) (pr_indexPlusOne r) f.

Definition position_at (r : PositionRegistry) (user : Address) (m : Bytes32) : Position :=
  default no_position (pr_positions r !! (user, m)).
Definition markets_of (r : PositionRegistry) (user : Address) : list Bytes32 :=
  default [] (pr_userMarkets r !! user).
Definition params_at (r : MarketRegistry) (m : Bytes32) : MarketParams :=
  default no_params (mk_params r !! m).

Definition USDC_TO_X18 : Z := 10 ^ 12.
Definition E18 : Z := 10 ^ 18.

(** Hashing and signature recovery, as the platform and its libraries provide
    them: Keccak-256 of a sequence of words and of a text, the EIP-712 digest of
    a struct hash under a domain, and the signer recovered from a signature;
    and the contracts the owner may set as fill hook instead of the
    counterparty: whether a hook's [onFill] returns or reverts, by its address,
    the block time and its arguments.  Such a hook keeps its own state and does
    not call the exchange back. *)
Record Domain := mkDomain { dm_name : string; dm_version : string; dm_chainId : Z; dm_contract : Address }.

Class Crypto := {
  Signature : Type;
  keccak_words : list Z -> Z;
  keccak_text : string -> Z;
  hashTypedDataV4 : Domain -> Z -> Z;
  ecrecover : Z -> Signature -> option Address;
  hook_accepts : Address -> Z -> Address -> Bytes32 -> Z -> Z -> Z -> bool;
}.

(** A signed integer as the 256-bit word it is encoded as. *)
Definition int_word (x : Z) : Z := x mod 2 ^ 256.

Section contracts.
Context {T : Type} `{Erc20 T} `{OzMath} `{Crypto}.

Definition run_token (f : T -> option T) : Tx (World T) unit := fun w =>
  match f (w_token w) with
  | Some t => inr (tt, with_token t w)
  | None => inl TokenRevert
  end.

Definition toInt256 (x : Z) : Tx (World T) Z := of_option (Custom "SafeCastOverflowedUintToInt") (oz_toInt256 x).
Definition toUint256 (x : Z) : Tx (World T) Z := of_option (Custom "SafeCastOverflowedIntToUint") (oz_toUint256 x).

Definition only (sender who : Address) (e : string) : Tx (World T) unit :=
  revert_if (negb (sender =? who)) (Custom e).

Definition nonzero (a : Address) (e : string) : Tx (World T) unit := revert_if (a =? 0) (Custom e).

(** ** MockUSDC: anyone may mint *)

Definition mint (to : Address) (amount : Z) : Tx (World T) unit := run_token (tk_mint to amount).
Definition approve (sender spender : Address) (amount : Z) : Tx (World T) unit :=
  run_token (tk_approve sender spender amount).

(** ** MockOracle *)

Definition setPrice (sender : Address) (m : Bytes32) (p : Z) : Tx (World T) unit :=
  o ← gets w_oracle; only sender (mo_owner o) "NotOwner" ;;
  revert_if (p =? 0) (Custom "ZeroPrice") ;;
  modify (fun w => with_oracle (mkOracle (mo_owner o) (<[m := p]> (mo_prices o))
                                  (<[m := to_uint64 (w_timestamp w)]> (mo_publishedAt o))) w).

Definition setPrices (sender : Address) (ms : list Bytes32) (ps : list Z) : Tx (World T) unit :=
  o ← gets w_oracle; only sender (mo_owner o) "NotOwner" ;;
  require (length ms =? length ps)%nat "len mismatch" ;;
  tx_iter (fun '(m, p) =>
    revert_if (p =? 0) (Custom "ZeroPrice") ;;
    modify (fun w => let o := w_oracle w in
      with_oracle (mkOracle (mo_owner o) (<[m := p]> (mo_prices o))
                     (<[m := to_uint64 (w_timestamp w)]> (mo_publishedAt o))) w)) (zip ms ps).

Definition priceX18 (m : Bytes32) : Tx (World T) Z :=
  o ← gets w_oracle;
  let p := mget (mo_prices o) m in
  revert_if (p =? 0) (Custom "UnknownFeed") ;; mret p.

(** ** MarketRegistry *)

Definition MAX_IM_BPS : Z := 5000.
Definition MAX_MM_BPS : Z := 2500.
Definition MAX_LIQ_BONUS_BPS : Z := 1000.
Definition MAX_TAKER_FEE_BPS : Z := 100.
Definition MIN_MAKER_REBATE_BPS : Z := -50.
Definition MAX_MAKER_FEE_BPS : Z := 50.

Definition validate (p : MarketParams) : Tx (World T) unit :=
  revert_if ((imRatioBps p =? 0) || (MAX_IM_BPS <? imRatioBps p)) (Custom "InvalidParams") ;;
  revert_if ((mmRatioBps p =? 0) || (imRatioBps p <=? mmRatioBps p) || (MAX_MM_BPS <? mmRatioBps p))
    (Custom "InvalidParams") ;;
  revert_if (MAX_LIQ_BONUS_BPS <? liqBonusBps p) (Custom "InvalidParams") ;;
  revert_if (MAX_TAKER_FEE_BPS <? takerFeeBps p) (Custom "InvalidParams") ;;
  revert_if ((makerRebateBps p <? MIN_MAKER_REBATE_BPS) || (MAX_MAKER_FEE_BPS <? makerRebateBps p))
    (Custom "InvalidParams").

Definition listMarket (sender : Address) (m : Bytes32) (p : MarketParams) : Tx (World T) unit :=
  r ← gets w_markets; only sender (mk_owner r) "NotOwner" ;;
  revert_if (bool_decide (m ∈ mk_listed r)) (Custom "MarketAlreadyListed") ;;
  validate p ;;
  modify (with_markets (with_params (mk_markets r ++ [m]) (<[m := p]> (mk_params r)) ({[m]} ∪ mk_listed r) r)).

Definition updateMarket (sender : Address) (m : Bytes32) (p : MarketParams) : Tx (World T) unit :=
  r ← gets w_markets; only sender (mk_owner r) "NotOwner" ;;
  revert_if (negb (bool_decide (m ∈ mk_listed r))) (Custom "MarketNotListed") ;;
  validate p ;;
  modify (with_markets (with_params (mk_markets r) (<[m := p]> (mk_params r)) (mk_listed r) r)).

Definition deactivateMarket (sender : Address) (m : Bytes32) : Tx (World T) unit :=
  r ← gets w_markets; only sender (mk_owner r) "NotOwner" ;;
  revert_if (negb (bool_decide (m ∈ mk_listed r))) (Custom "MarketNotListed") ;;
  let p := params_at r m in
  let p' := mkParams (imRatioBps p) (mmRatioBps p) (liqBonusBps p) (takerFeeBps p) (makerRebateBps p) false in
  modify (with_markets (with_params (mk_markets r) (<[m := p']> (mk_params r)) (mk_listed r) r)).

Definition markets_transferOwnership (sender newOwner : Address) : Tx (World T) unit :=
  r ← gets w_markets; only sender (mk_owner r) "NotOwner" ;;
  nonzero newOwner "ZeroAddress" ;;
  modify (with_markets (mkMarketRegistry newOwner (mk_markets r) (mk_params r) (mk_listed r))).

Definition isMarketActive (m : Bytes32) : Tx (World T) bool :=
  r ← gets w_markets;
  mret (if bool_decide (m ∈ mk_listed r) then active (params_at r m) else false).

Definition getParams (m : Bytes32) : Tx (World T) MarketParams :=
  r ← gets w_markets;
  revert_if (negb (bool_decide (m ∈ mk_listed r))) (Custom "MarketNotListed") ;;
  mret (params_at r m).

(** ** PositionRegistry *)

Definition setWiring (sender vault settlement liquidation : Address) : Tx (World T) unit :=
  r ← gets w_positions; only sender (pr_owner r) "NotOwner" ;;
  revert_if (negb (pr_collateralVault r =? 0)) (Custom "AlreadyWired") ;;
  nonzero vault "ZeroAddress" ;; nonzero settlement "ZeroAddress" ;; nonzero liquidation "ZeroAddress" ;;
  modify (with_positions (mkPositionRegistry vault settlement liquidation (pr_fundingEngine r) (pr_owner r)
    (pr_positions r) (pr_userMarkets r) (pr_indexPlusOne r) (pr_funding r))).

Definition setFundingEngine (sender funding : Address) : Tx (World T) unit :=
  r ← gets w_positions; only sender (pr_owner r) "NotOwner" ;;
  revert_if (negb (pr_fundingEngine r =? 0)) (Custom "FundingAlreadySet") ;;
  nonzero funding "ZeroAddress" ;;
  modify (with_positions (mkPositionRegistry (pr_collateralVault r) (pr_settlementEngine r)
    (pr_liquidationEngine r) funding (pr_owner r) (pr_positions r) (pr_userMarkets r) (pr_indexPlusOne r)
    (pr_funding r))).

Definition unrealisedPnl_ (p : Position) (mark : Z) : Tx (World T) Z :=
  if size p =? 0 then mret 0 else
  m ← toInt256 mark; e ← toInt256 (entryPriceX18 p); d ← isub m e;
  n ← imul (size p) d; idiv n E18.

Definition notional_ (sz mark : Z) : Tx (World T) Z :=
  n ← umul (oz_abs sz) mark; udiv n E18.

(** The position after funding is settled, with the cash flow to the user. *)
Definition settleFunding (p : Position) (idx : Z) : Tx (World T) (Z * Position) :=
  let p' := mkPos (size p) (entryPriceX18 p) idx (lastUpdatedBlock p) in
  if (size p =? 0) || (cumulativeFunding p =? idx) then mret (0, p') else
  d ← isub idx (cumulativeFunding p); n ← imul d (size p); q ← idiv n E18; c ← ineg q;
  mret (c, p').

Definition applyVwap (p : Position) (sizeDelta price : Z) : Tx (World T) (Z * Position) :=
  let oldSize := size p in
  let upd (sz entry : Z) := mkPos sz entry (cumulativeFunding p) (lastUpdatedBlock p) in
  newSize ← iadd oldSize sizeDelta;
  if newSize =? 0 then
    a ← toInt256 price; b ← toInt256 (entryPriceX18 p); d ← isub a b;
    n ← imul oldSize d; r ← idiv n E18;
    mret (r, upd 0 (entryPriceX18 p))
  else if oldSize =? 0 then mret (0, upd newSize price)
  else if Bool.eqb (0 <? oldSize) (0 <? sizeDelta) then
    oldN ← umul (oz_abs oldSize) (entryPriceX18 p);
    addN ← umul (oz_abs sizeDelta) price;
    tot ← uadd oldN addN;
    e ← udiv tot (oz_abs newSize);
    mret (0, upd newSize e)
  else if negb (Bool.eqb (0 <? oldSize) (0 <? newSize)) then
    a ← toInt256 price; b ← toInt256 (entryPriceX18 p); d ← isub a b;
    n ← imul oldSize d; r ← idiv n E18;
    mret (r, upd newSize price)
  else
    a ← toInt256 price; b ← toInt256 (entryPriceX18 p); d ← isub a b;
    q ← toInt256 (oz_abs sizeDelta);
    s ← imul (if 0 <? oldSize then 1 else -1) q;
    n ← imul s d; r ← idiv n E18;
    mret (r, upd newSize (entryPriceX18 p)).

Definition trackUserMarket (user : Address) (m : Bytes32) (r : PositionRegistry) : PositionRegistry :=
  if negb (mget (pr_indexPlusOne r) (user, m) =? 0) then r else
  let l := markets_of r user ++ [m] in
  with_tracking (<[user := l]> (pr_userMarkets r))
    (<[(user, m) := Z.of_nat (length l)]> (pr_indexPlusOne r)) r.

(** The last market takes the place of the removed one, then the list is
    popped.  The array accesses are in range whenever the index map and the
    lists agree, which [tracked] of PositionThms.v shows they always do. *)
Definition untrackUserMarket (user : Address) (m : Bytes32) (r : PositionRegistry) : PositionRegistry :=
  let idx1 := mget (pr_indexPlusOne r) (user, m) in
  if idx1 =? 0 then r else
  let l := markets_of r user in
  let lst := length l in
  let (l1, i1) :=
    if negb (idx1 =? Z.of_nat lst) then
      let lastMid := default 0 (l !! (lst - 1)%nat) in
      (<[Z.to_nat (idx1 - 1) := lastMid]> l, <[(user, lastMid) := idx1]> (pr_indexPlusOne r))
    else (l, pr_indexPlusOne r) in
  with_tracking (<[user := take (lst - 1) l1]> (pr_userMarkets r)) (delete (user, m) i1) r.

Definition applyFill (sender user : Address) (m : Bytes32) (sizeDelta price : Z) : Tx (World T) (Z * Z) :=
  r ← gets w_positions;
  revert_if (negb (sender =? pr_settlementEngine r) && negb (sender =? pr_liquidationEngine r))
    (Custom "NotSettlement") ;;
  act ← isMarketActive m; revert_if (negb act) (Custom "MarketInactive") ;;
  require (negb (user =? 0)) "user=0" ;;
  require (negb (sizeDelta =? 0)) "delta=0" ;;
  require (0 <? price) "price=0" ;;
  '(fundingDelta, p1) ← settleFunding (position_at r user m) (mget (pr_funding r) m);
  '(realisedPnl, p2) ← applyVwap p1 sizeDelta price;
  n ← gets w_number;
  let r1 := trackUserMarket user m r in
  let r2 := if size p2 =? 0 then untrackUserMarket user m r1 else r1 in
  let p3 := mkPos (size p2) (if size p2 =? 0 then 0 else entryPriceX18 p2) (cumulativeFunding p2) (to_uint64 n) in
  modify (with_positions (with_pos (<[(user, m) := p3]> (pr_positions r2)) r2)) ;;
  mret (realisedPnl, fundingDelta).

Definition updateFunding (sender : Address) (m : Bytes32) (idx : Z) : Tx (World T) unit :=
  r ← gets w_positions;
  revert_if (negb (sender =? pr_fundingEngine r) && negb (sender =? pr_owner r)) (Custom "NotFundingAuthority") ;;
  modify (with_positions (with_index (<[m := idx]> (pr_funding r)) r)).

(** The vault balance as the registry reads it: 0 before wiring. *)
Definition vault_balance_of (user : Address) : Tx (World T) Z :=
  r ← gets w_positions; at_ ← gets w_at; v ← gets w_vault;
  if pr_collateralVault r =? 0 then mret 0
  else revert_if (negb (pr_collateralVault r =? a_vault at_)) (Panic 0) ;; mret (mget (v_balances v) user).

Definition healthFactor (user : Address) (m : Bytes32) (price : Z) : Tx (World T) Z :=
  r ← gets w_positions;
  let p := position_at r user m in
  if size p =? 0 then mret UMAX else
  mp ← getParams m;
  notional ← notional_ (size p) price;
  x ← umul notional (mmRatioBps mp); mm ← udiv x 10000;
  if mm =? 0 then mret UMAX else
  bal ← vault_balance_of user;
  b18 ← umul bal USDC_TO_X18; b ← toInt256 b18; u ← unrealisedPnl_ p price;
  eq ← iadd b u;
  if eq <=? 0 then mret 0 else
  e ← toUint256 eq; y ← umul e E18; udiv y mm.

Definition liquidationPrice (user : Address) (m : Bytes32) : Tx (World T) Z :=
  r ← gets w_positions;
  let p := position_at r user m in
  if size p =? 0 then mret 0 else
  mp ← getParams m;
  mmRatio ← umul (mmRatioBps mp) (10 ^ 14);
  bal ← vault_balance_of user;
  col ← umul bal USDC_TO_X18;
  let sz := oz_abs (size p) in
  if 0 <? size p then
    n0 ← umul sz (entryPriceX18 p); n1 ← udiv n0 E18;
    if n1 <=? col then mret 0 else
    num ← usub n1 col;
    k ← usub E18 mmRatio; d0 ← umul sz k; den ← udiv d0 E18;
    x ← umul num E18; udiv x den
  else
    n0 ← umul sz (entryPriceX18 p); n1 ← udiv n0 E18; num ← uadd n1 col;
    k ← uadd E18 mmRatio; d0 ← umul sz k; den ← udiv d0 E18;
    x ← umul num E18; udiv x den.

(** One turn of the withdrawal check's loop over the user's markets. *)
Definition withdraw_leg (r : PositionRegistry) (user : Address) (acc : Z * Z) (m : Bytes32) : Tx (World T) (Z * Z) :=
  let '(sumU, sumIm) := acc in
  let p := position_at r user m in
  if size p =? 0 then mret (sumU, sumIm) else
  mp ← getParams m; px ← priceX18 m;
  u ← unrealisedPnl_ p px; sumU' ← iadd sumU u;
  n ← notional_ (size p) px;
  x ← umul n (imRatioBps mp); im ← udiv x 10000; sumIm' ← uadd sumIm im;
  mret (sumU', sumIm').

Definition isWithdrawSafe (user : Address) (amount : Z) : Tx (World T) bool :=
  r ← gets w_positions;
  let mkts := markets_of r user in
  if (length mkts =? 0)%nat then mret true else
  if pr_collateralVault r =? 0 then mret false else
  bal ← vault_balance_of user;
  if bal <? amount then mret false else
  '(sumU, sumIm) ← tx_fold (withdraw_leg r user) (0, 0) mkts;
  d ← usub bal amount; x ← umul d USDC_TO_X18; b ← toInt256 x; post ← iadd b sumU;
  im ← toInt256 sumIm;
  mret (im <=? post).

(** ** CollateralVault *)

Definition balances (user : Address) : Tx (World T) Z := v ← gets w_vault; mret (mget (v_balances v) user).

Definition deposit (sender : Address) (amount : Z) : Tx (World T) unit :=
  at_ ← gets w_at;
  require (0 <? amount) "amount=0" ;;
  run_token (tk_transferFrom (a_vault at_) sender (a_vault at_) amount) ;;
  v ← gets w_vault;
  b ← uadd (mget (v_balances v) sender) amount;
  t ← uadd (v_totalDeposits v) amount;
  modify (with_vault (with_balances (<[sender := b]> (v_balances v)) t v)).

Definition withdraw (sender : Address) (amount : Z) : Tx (World T) unit :=
  at_ ← gets w_at; v ← gets w_vault;
  revert_if (mget (v_balances v) sender <? amount) (Custom "InsufficientBalance") ;;
  safe ← isWithdrawSafe sender amount;
  revert_if (negb safe) (Custom "WithdrawalBlocked") ;;
  b ← usub (mget (v_balances v) sender) amount;
  t ← usub (v_totalDeposits v) amount;
  modify (with_vault (with_balances (<[sender := b]> (v_balances v)) t v)) ;;
  run_token (tk_transfer (a_vault at_) sender amount).

Definition applySettlement (sender user : Address) (delta : Z) : Tx (World T) unit :=
  v ← gets w_vault;
  revert_if (negb (sender =? v_SETTLEMENT_ENGINE v) && negb (sender =? v_LIQUIDATION_ENGINE v))
    (Custom "UnauthorizedCaller") ;;
  if delta =? 0 then mret tt else
  if 0 <? delta then
    amt ← toUint256 delta;
    b ← uadd (mget (v_balances v) user) amt;
    modify (with_vault (with_balances (<[user := b]> (v_balances v)) (v_totalDeposits v) v))
  else
    let amt := oz_abs delta in
    revert_if (mget (v_balances v) user <? amt) (Custom "InsufficientBalance") ;;
    b ← usub (mget (v_balances v) user) amt;
    modify (with_vault (with_balances (<[user := b]> (v_balances v)) (v_totalDeposits v) v)).

Definition seizeForLiquidation (sender user liquidator fund : Address) (bonusAmount : Z) :
    Tx (World T) (Z * Z * Z) :=
  at_ ← gets w_at; v ← gets w_vault;
  only sender (v_LIQUIDATION_ENGINE v) "UnauthorizedCaller" ;;
  revert_if ((liquidator =? 0) || (fund =? 0)) (Custom "ZeroAddress") ;;
  let userBal := mget (v_balances v) user in
  t ← usub (v_totalDeposits v) userBal;
  modify (with_vault (with_balances (<[user := 0]> (v_balances v)) t v)) ;;
  let '(bonus, residual, shortfall) :=
    if bonusAmount <=? userBal then (bonusAmount, userBal - bonusAmount, 0)
    else (userBal, 0, bonusAmount - userBal) in
  (if 0 <? bonus then run_token (tk_transfer (a_vault at_) liquidator bonus) else mret tt) ;;
  (if 0 <? residual then run_token (tk_transfer (a_vault at_) fund residual) else mret tt) ;;
  mret (bonus, residual, shortfall).

Definition debitToExternal (sender user recipient : Address) (amount : Z) : Tx (World T) Z :=
  at_ ← gets w_at; v ← gets w_vault;
  only sender (v_LIQUIDATION_ENGINE v) "UnauthorizedCaller" ;;
  nonzero recipient "ZeroAddress" ;;
  let bal := mget (v_balances v) user in
  let paid := if bal <? amount then bal else amount in
  if paid =? 0 then mret 0 else
  b ← usub bal paid; t ← usub (v_totalDeposits v) paid;
  modify (with_vault (with_balances (<[user := b]> (v_balances v)) t v)) ;;
  run_token (tk_transfer (a_vault at_) recipient paid) ;;
  mret paid.

(** ** SyntheticCounterparty *)

Definition TIMELOCK : Z := 172800.

Definition upd_counterparty (f : SyntheticCounterparty -> SyntheticCounterparty) : Tx (World T) unit :=
  modify (fun w => with_counterparty (f (w_counterparty w)) w).

Definition with_pending (p : PendingWithdraw) (c : SyntheticCounterparty) : SyntheticCounterparty :=
  mkCounterparty (sc_owner c) (sc_settlement c) (sc_marketCap c) (sc_position c) (sc_realisedPnl c) p.

Definition cp_owner_only (sender : Address) : Tx (World T) unit :=
  c ← gets w_counterparty; only sender (sc_owner c) "NotOwner".

Definition cp_transferOwnership (sender newOwner : Address) : Tx (World T) unit :=
  cp_owner_only sender ;; nonzero newOwner "ZeroAddress" ;;
  upd_counterparty (fun c => mkCounterparty newOwner (sc_settlement c) (sc_marketCap c) (sc_position c)
                               (sc_realisedPnl c) (sc_pending c)).

Definition setSettlement (sender newSettlement : Address) : Tx (World T) unit :=
  cp_owner_only sender ;; nonzero newSettlement "ZeroAddress" ;;
  upd_counterparty (fun c => mkCounterparty (sc_owner c) newSettlement (sc_marketCap c) (sc_position c)
                               (sc_realisedPnl c) (sc_pending c)).

Definition setCap (sender : Address) (m : Bytes32) (cap : Z) : Tx (World T) unit :=
  cp_owner_only sender ;;
  upd_counterparty (fun c => mkCounterparty (sc_owner c) (sc_settlement c) (<[m := cap]> (sc_marketCap c))
                               (sc_position c) (sc_realisedPnl c) (sc_pending c)).

Definition cp_deposit (sender : Address) (amount : Z) : Tx (World T) unit :=
  at_ ← gets w_at;
  revert_if (amount =? 0) (Custom "ZeroAmount") ;;
  run_token (tk_transferFrom (a_counterparty at_) sender (a_counterparty at_) amount).

Definition depositToVault (sender : Address) (amount : Z) : Tx (World T) unit :=
  at_ ← gets w_at;
  cp_owner_only sender ;;
  revert_if (amount =? 0) (Custom "ZeroAmount") ;;
  run_token (tk_approve (a_counterparty at_) (a_vault at_) amount) ;;
  deposit (a_counterparty at_) amount.

Definition queueWithdraw (sender : Address) (amount : Z) : Tx (World T) unit :=
  cp_owner_only sender ;;
  revert_if (amount =? 0) (Custom "ZeroAmount") ;;
  c ← gets w_counterparty;
  revert_if (negb (pw_amount (sc_pending c) =? 0)) (Custom "WithdrawAlreadyQueued") ;;
  now ← gets w_timestamp;
  let eta := to_uint64 now + TIMELOCK in
  revert_if (2 ^ 64 - 1 <? eta) (Panic 17) ;;
  upd_counterparty (with_pending (mkPending amount eta)).

Definition cancelWithdraw (sender : Address) : Tx (World T) unit :=
  cp_owner_only sender ;;
  c ← gets w_counterparty;
  revert_if (pw_amount (sc_pending c) =? 0) (Custom "NoWithdrawQueued") ;;
  upd_counterparty (with_pending (mkPending 0 0)).

Definition executeWithdraw (sender to : Address) : Tx (World T) unit :=
  at_ ← gets w_at;
  cp_owner_only sender ;; nonzero to "ZeroAddress" ;;
  c ← gets w_counterparty;
  let p := sc_pending c in
  revert_if (pw_amount p =? 0) (Custom "NoWithdrawQueued") ;;
  now ← gets w_timestamp;
  revert_if (now <? pw_eta p) (Custom "WithdrawNotReady") ;;
  t ← gets w_token;
  revert_if (balanceOf t (a_counterparty at_) <? pw_amount p) (Custom "InsufficientCustody") ;;
  upd_counterparty (with_pending (mkPending 0 0)) ;;
  run_token (tk_transfer (a_counterparty at_) to (pw_amount p)).

Definition onFill (sender user : Address) (m : Bytes32) (sizeDelta realised : Z) : Tx (World T) unit :=
  at_ ← gets w_at; c ← gets w_counterparty;
  only sender (sc_settlement c) "NotSettlement" ;;
  if negb (user =? a_counterparty at_) then mret tt else
  next ← iadd (mget (sc_position c) m) sizeDelta;
  revert_if (mget (sc_marketCap c) m <? oz_abs next) (Custom "CapExceeded") ;;
  pnl ← iadd (mget (sc_realisedPnl c) m) realised;
  modify (with_counterparty (mkCounterparty (sc_owner c) (sc_settlement c) (sc_marketCap c)
    (<[m := next]> (sc_position c)) (<[m := pnl]> (sc_realisedPnl c)) (sc_pending c))).

(** ** SettlementEngine *)

Record Fill := mkFill { f_user : Address; f_marketId : Bytes32; f_sizeDelta : Z; f_priceX18 : Z; f_fee : Z }.

Definition FILL_TYPE : string :=
  "Fill(address user,bytes32 marketId,int256 sizeDelta,uint256 priceX18,int256 fee)".
Definition BATCH_TYPE : string := "Batch(uint256 nonce,uint64 deadline,Fill[] fills)" +:+ FILL_TYPE.
Definition FILL_TYPEHASH : Z := keccak_text FILL_TYPE.
Definition BATCH_TYPEHASH : Z := keccak_text BATCH_TYPE.

Definition hashFill (f : Fill) : Z :=
  keccak_words [FILL_TYPEHASH; f_user f; f_marketId f; int_word (f_sizeDelta f); f_priceX18 f; int_word (f_fee f)].

Definition hashFills (fills : list Fill) : Z := keccak_words (map hashFill fills).

Definition batch_digest (at_ : Addresses) (fills : list Fill) (nonce deadline : Z) : Z :=
  hashTypedDataV4 (mkDomain "Perplex" "1" (a_chainid at_) (a_engine at_))
    (keccak_words [BATCH_TYPEHASH; nonce; deadline; hashFills fills]).

Definition toRawUsdcDelta (deltaX18 : Z) : Tx (World T) Z :=
  if deltaX18 =? 0 then mret 0 else
  absRaw ← udiv (oz_abs deltaX18) USDC_TO_X18;
  if absRaw =? 0 then mret 0 else
  raw ← toInt256 absRaw;
  if 0 <? deltaX18 then mret raw else ineg raw.

(** The hook's [onFill]: the counterparty's, or another contract's. *)
Definition call_hook (hook : Address) (f : Fill) (realised : Z) : Tx (World T) unit :=
  at_ ← gets w_at; now ← gets w_timestamp;
  if hook =? 0 then mret tt
  else if hook =? a_counterparty at_ then onFill (a_engine at_) (f_user f) (f_marketId f) (f_sizeDelta f) realised
  else revert_if (negb (hook_accepts hook now (f_user f) (f_marketId f) (f_sizeDelta f) (f_priceX18 f) realised))
         (Custom "FillHook").

Definition settleFill (hook : Address) (f : Fill) : Tx (World T) unit :=
  at_ ← gets w_at;
  '(realised, funding) ← applyFill (a_engine at_) (f_user f) (f_marketId f) (f_sizeDelta f) (f_priceX18 f);
  x ← iadd realised funding; deltaX18 ← iadd x (f_fee f);
  (if negb (deltaX18 =? 0) then
     deltaRaw ← toRawUsdcDelta deltaX18;
     if negb (deltaRaw =? 0) then applySettlement (a_engine at_) (f_user f) deltaRaw else mret tt
   else mret tt) ;;
  call_hook hook f realised.

Definition applyBatch (fills : list Fill) (nonce deadline : Z) (sig : Signature) : Tx (World T) unit :=
  at_ ← gets w_at; e ← gets w_engine; now ← gets w_timestamp;
  revert_if (length fills =? 0)%nat (Custom "EmptyBatch") ;;
  revert_if (deadline <? now) (Custom "BatchExpired") ;;
  revert_if (bool_decide (nonce ∈ se_usedNonces e)) (Custom "NonceUsed") ;;
  modify (with_engine (mkEngine (se_owner e) (se_operator e) (se_fillHook e) ({[nonce]} ∪ se_usedNonces e))) ;;
  signer ← of_option (Custom "ECDSAInvalidSignature") (ecrecover (batch_digest at_ fills nonce deadline) sig);
  revert_if (negb (signer =? se_operator e)) (Custom "BadSignature") ;;
  tx_iter (settleFill (se_fillHook e)) fills.

Definition setOperator (sender newOperator : Address) : Tx (World T) unit :=
  e ← gets w_engine; only sender (se_owner e) "NotOwner" ;; nonzero newOperator "ZeroAddress" ;;
  modify (with_engine (mkEngine (se_owner e) newOperator (se_fillHook e) (se_usedNonces e))).

Definition engine_transferOwnership (sender newOwner : Address) : Tx (World T) unit :=
  e ← gets w_engine; only sender (se_owner e) "NotOwner" ;; nonzero newOwner "ZeroAddress" ;;
  modify (with_engine (mkEngine newOwner (se_operator e) (se_fillHook e) (se_usedNonces e))).

Definition setFillHook (sender newHook : Address) : Tx (World T) unit :=
  e ← gets w_engine; only sender (se_owner e) "NotOwner" ;;
  modify (with_engine (mkEngine (se_owner e) (se_operator e) newHook (se_usedNonces e))).

(** ** LiquidationEngine *)

Definition computeBonusUSDC (m : Bytes32) (mark sizeBefore : Z) : Tx (World T) Z :=
  mp ← getParams m;
  n ← notional_ sizeBefore mark;
  x ← umul n (liqBonusBps mp); b ← udiv x 10000; udiv b USDC_TO_X18.

Definition closeAndSettle (user : Address) (m : Bytes32) (mark sizeBefore : Z) : Tx (World T) Z :=
  at_ ← gets w_at;
  close ← ineg sizeBefore;
  '(realised, funding) ← applyFill (a_liquidation at_) user m close mark;
  x ← iadd realised funding;
  settle ← idiv x USDC_TO_X18;
  (if negb (settle =? 0) then applySettlement (a_liquidation at_) user settle else mret tt) ;;
  mret settle.

Definition liquidate (sender user : Address) (m : Bytes32) : Tx (World T) (Z * Z * Z) :=
  at_ ← gets w_at;
  act ← isMarketActive m; revert_if (negb act) (Custom "MarketInactive") ;;
  mark ← priceX18 m;
  hf ← healthFactor user m mark;
  revert_if (E18 <=? hf) (Custom "Healthy") ;;
  r ← gets w_positions;
  let sizeBefore := size (position_at r user m) in
  revert_if (sizeBefore =? 0) (Custom "NoPosition") ;;
  bonus ← computeBonusUSDC m mark sizeBefore;
  closeAndSettle user m mark sizeBefore ;;
  seizeForLiquidation (a_liquidation at_) user sender (a_fund at_) bonus.

Definition adlOne (m : Bytes32) (mark : Z) (victim : Address) (closeSize : Z) : Tx (World T) unit :=
  at_ ← gets w_at; r ← gets w_positions;
  let p := position_at r victim m in
  revert_if ((size p =? 0) || (closeSize =? 0)) (Custom "NoPosition") ;;
  revert_if (Bool.eqb (0 <? size p) (0 <? closeSize)) (Custom "WrongSide") ;;
  revert_if (oz_abs (size p) <? oz_abs closeSize) (Custom "CloseExceedsPosition") ;;
  let longProfitable := (0 <? size p) && (entryPriceX18 p <? mark) in
  let shortProfitable := (size p <? 0) && (mark <? entryPriceX18 p) in
  revert_if (negb (longProfitable || shortProfitable)) (Custom "NotProfitable") ;;
  '(realised, funding) ← applyFill (a_liquidation at_) victim m closeSize mark;
  x ← iadd realised funding;
  settle ← idiv x USDC_TO_X18;
  (if negb (settle =? 0) then applySettlement (a_liquidation at_) victim settle else mret tt) ;;
  take ← (if 0 <? realised then idiv realised USDC_TO_X18 else mret 0);
  if take =? 0 then mret tt
  else debitToExternal (a_liquidation at_) victim (a_fund at_) take ;; mret tt.

Definition adl (sender : Address) (m : Bytes32) (victims : list Address) (closeSizes : list Z) : Tx (World T) unit :=
  o ← gets w_liquidation_owner; only sender o "NotOwner" ;;
  revert_if (negb (length victims =? length closeSizes)%nat) (Custom "LengthMismatch") ;;
  act ← isMarketActive m; revert_if (negb act) (Custom "MarketInactive") ;;
  mark ← priceX18 m;
  tx_iter (fun '(v, c) => adlOne m mark v c) (zip victims closeSizes).

Definition liquidation_transferOwnership (sender newOwner : Address) : Tx (World T) unit :=
  o ← gets w_liquidation_owner; only sender o "NotOwner" ;; nonzero newOwner "ZeroAddress" ;;
  modify (with_liquidation_owner newOwner).

(** ** FundingEngine *)

Definition FUNDING_INTERVAL : Z := 28800.
Definition MAX_PREMIUM_ABS : Z := 10 ^ 16.

Definition applyFunding (sender : Address) (m : Bytes32) (premium : Z) : Tx (World T) unit :=
  at_ ← gets w_at; f ← gets w_funding; now ← gets w_timestamp;
  only sender (fe_submitter f) "NotSubmitter" ;;
  act ← isMarketActive m; revert_if (negb act) (Custom "MarketInactive") ;;
  revert_if ((MAX_PREMIUM_ABS <? premium) || (premium <? - MAX_PREMIUM_ABS)) (Custom "PremiumOutOfBounds") ;;
  let last := mget (fe_lastFundingAt f) m in
  (if negb (last =? 0) then
     revert_if (2 ^ 64 - 1 <? last + FUNDING_INTERVAL) (Panic 17) ;;
     revert_if (now <? last + FUNDING_INTERVAL) (Custom "TooSoon")
   else mret tt) ;;
  prev ← gets (fun w => mget (pr_funding (w_positions w)) m);
  newIndex ← iadd prev premium;
  updateFunding (a_funding at_) m newIndex ;;
  modify (with_funding (mkFundingEngine (fe_owner f) (fe_submitter f)
    (<[m := to_uint64 now]> (fe_lastFundingAt f)))).

Definition setSubmitter (sender newSubmitter : Address) : Tx (World T) unit :=
  f ← gets w_funding; only sender (fe_owner f) "NotOwner" ;; nonzero newSubmitter "ZeroAddress" ;;
  modify (with_funding (mkFundingEngine (fe_owner f) newSubmitter (fe_lastFundingAt f))).

Definition funding_transferOwnership (sender newOwner : Address) : Tx (World T) unit :=
  f ← gets w_funding; only sender (fe_owner f) "NotOwner" ;; nonzero newOwner "ZeroAddress" ;;
  modify (with_funding (mkFundingEngine newOwner (fe_submitter f) (fe_lastFundingAt f))).

(** ** InsuranceFund *)

Definition fund_deposit (sender : Address) (amount : Z) : Tx (World T) unit :=
  at_ ← gets w_at;
  require (0 <? amount) "amount=0" ;;
  run_token (tk_transferFrom (a_fund at_) sender (a_fund at_) amount).

Definition fund_withdraw (sender to : Address) (amount : Z) : Tx (World T) unit :=
  at_ ← gets w_at; o ← gets w_fund_owner; t ← gets w_token;
  only sender o "NotOwner" ;; nonzero to "ZeroAddress" ;;
  revert_if (balanceOf t (a_fund at_) <? amount) (Custom "InsufficientBalance") ;;
  run_token (tk_transfer (a_fund at_) to amount).

Definition fund_transferOwnership (sender newOwner : Address) : Tx (World T) unit :=
  o ← gets w_fund_owner; only sender o "NotOwner" ;; nonzero newOwner "ZeroAddress" ;;
  modify (with_fund_owner newOwner).

End contracts.
