(* ===== verification/ChainSteps.v ===== *)
(** * Runs of the chain

    The external functions of the contracts as the calls an account can send,
    and the worlds that sequences of such calls reach from a deployment
    ([reach]).  The frame lemmas say which part of the chain a function leaves
    alone; the invariants of PositionThms.v are proved by induction on
    [reach]. *)
From S2P Require Import Prelude Evm Contracts.

(** Opens the contract functions down to their steps. *)
Ltac unfold_calls :=
  repeat progress unfold mint, approve, setPrice, setPrices, priceX18, listMarket, updateMarket, deactivateMarket, validate,
    markets_transferOwnership, isMarketActive, getParams, setWiring, setFundingEngine, unrealisedPnl_, notional_,
    settleFunding, applyVwap, applyFill, updateFunding, vault_balance_of, healthFactor, liquidationPrice,
    withdraw_leg, isWithdrawSafe, balances, deposit, withdraw, applySettlement, seizeForLiquidation,
    debitToExternal, upd_counterparty, cp_owner_only, cp_transferOwnership, setSettlement, setCap, cp_deposit,
    depositToVault, queueWithdraw, cancelWithdraw, executeWithdraw, onFill, toRawUsdcDelta, call_hook, settleFill, applyBatch,
    setOperator, engine_transferOwnership, setFillHook, computeBonusUSDC, closeAndSettle, liquidate, adlOne, adl,
    liquidation_transferOwnership, applyFunding, setSubmitter, funding_transferOwnership, fund_deposit,
    fund_withdraw, fund_transferOwnership, only, nonzero, toInt256, toUint256.

Section steps.
Context {T : Type} `{Erc20 T, !Erc20Laws T, OzMath, !OzMathLaws, Crypto}.
Implicit Types w : World T.

Inductive Call :=
| CMint (to : Address) (n : Z)
| CApprove (spender : Address) (n : Z)
| CTransfer (to : Address) (n : Z)
| CTransferFrom (from to : Address) (n : Z)
| CDeposit (n : Z)
| CWithdraw (n : Z)
| CApplySettlement (user : Address) (delta : Z)
| CSeize (user liquidator fund : Address) (bonus : Z)
| CDebit (user recipient : Address) (n : Z)
| CApplyBatch (fills : list Fill) (nonce deadline : Z) (sig : Signature)
| CSetOperator (a : Address)
| CSetFillHook (a : Address)
| CEngineOwner (a : Address)
| CApplyFill (user : Address) (m : Bytes32) (sizeDelta price : Z)
| CUpdateFunding (m : Bytes32) (idx : Z)
| CSetWiring (vault settlement liquidation : Address)
| CSetFundingEngine (a : Address)
| CLiquidate (user : Address) (m : Bytes32)
| CAdl (m : Bytes32) (victims : list Address) (closeSizes : list Z)
| CLiquidationOwner (a : Address)
| CApplyFunding (m : Bytes32) (premium : Z)
| CSetSubmitter (a : Address)
| CFundingOwner (a : Address)
| CSetPrice (m : Bytes32) (p : Z)
| CSetPrices (ms : list Bytes32) (ps : list Z)
| CListMarket (m : Bytes32) (p : MarketParams)
| CUpdateMarket (m : Bytes32) (p : MarketParams)
| CDeactivateMarket (m : Bytes32)
| CMarketsOwner (a : Address)
| COnFill (user : Address) (m : Bytes32) (sizeDelta realised : Z)
| CSetCap (m : Bytes32) (cap : Z)
| CSetSettlement (a : Address)
| CCounterpartyOwner (a : Address)
| CCounterpartyDeposit (n : Z)
| CDepositToVault (n : Z)
| CQueueWithdraw (n : Z)
| CCancelWithdraw
| CExecuteWithdraw (to : Address)
| CFundDeposit (n : Z)
| CFundWithdraw (to : Address) (n : Z)
| CFundOwner (a : Address).

Definition void {A} (m : Tx (World T) A) : Tx (World T) unit := m ;; mret tt.

Definition exec (sender : Address) (c : Call) : Tx (World T) unit :=
  match c with
  | CMint to n => mint to n
  | CApprove spender n => approve sender spender n
  | CTransfer to n => run_token (tk_transfer sender to n)
  | CTransferFrom from to n => run_token (tk_transferFrom sender from to n)
  | CDeposit n => deposit sender n
  | CWithdraw n => withdraw sender n
  | CApplySettlement user d => applySettlement sender user d
  | CSeize user liq fund b => void (seizeForLiquidation sender user liq fund b)
  | CDebit user rcp n => void (debitToExternal sender user rcp n)
  | CApplyBatch fills nonce deadline sig => applyBatch fills nonce deadline sig
  | CSetOperator a => setOperator sender a
  | CSetFillHook a => setFillHook sender a
  | CEngineOwner a => engine_transferOwnership sender a
  | CApplyFill user m d p => void (applyFill sender user m d p)
  | CUpdateFunding m i => updateFunding sender m i
  | CSetWiring v s l => setWiring sender v s l
  | CSetFundingEngine a => setFundingEngine sender a
  | CLiquidate user m => void (liquidate sender user m)
  | CAdl m vs cs => adl sender m vs cs
  | CLiquidationOwner a => liquidation_transferOwnership sender a
  | CApplyFunding m p => applyFunding sender m p
  | CSetSubmitter a => setSubmitter sender a
  | CFundingOwner a => funding_transferOwnership sender a
  | CSetPrice m p => setPrice sender m p
  | CSetPrices ms ps => setPrices sender ms ps
  | CListMarket m p => listMarket sender m p
  | CUpdateMarket m p => updateMarket sender m p
  | CDeactivateMarket m => deactivateMarket sender m
  | CMarketsOwner a => markets_transferOwnership sender a
  | COnFill user m d r => onFill sender user m d r
  | CSetCap m c => setCap sender m c
  | CSetSettlement a => setSettlement sender a
  | CCounterpartyOwner a => cp_transferOwnership sender a
  | CCounterpartyDeposit n => cp_deposit sender n
  | CDepositToVault n => depositToVault sender n
  | CQueueWithdraw n => queueWithdraw sender n
  | CCancelWithdraw => cancelWithdraw sender
  | CExecuteWithdraw to => executeWithdraw sender to
  | CFundDeposit n => fund_deposit sender n
  | CFundWithdraw to n => fund_withdraw sender to n
  | CFundOwner a => fund_transferOwnership sender a
  end.

(** The amounts a call carries are of type uint256. *)
Definition uint_args (c : Call) : bool :=
  match c with
  | CMint _ n | CApprove _ n | CTransfer _ n | CTransferFrom _ _ n | CDeposit n | CWithdraw n
  | CSeize _ _ _ n | CDebit _ _ n | CCounterpartyDeposit n | CDepositToVault n | CQueueWithdraw n
  | CFundDeposit n | CFundWithdraw _ n => is_uint n
  | CApplyFill _ _ d p => is_int d && is_uint p
  | CApplySettlement _ d => is_int d
  | CUpdateFunding _ i => is_int i
  | CApplyBatch fills _ _ _ => forallb (fun f => is_int (f_sizeDelta f) && is_uint (f_priceX18 f) && is_int (f_fee f)) fills
  | CListMarket _ p | CUpdateMarket _ p => (0 <=? imRatioBps p) && (0 <=? mmRatioBps p) && (0 <=? liqBonusBps p)
  | CSetPrice _ p => is_uint p
  | CSetPrices _ ps => forallb is_uint ps
  | CAdl _ _ cs => forallb is_int cs
  | _ => true
  end.

Definition pass_time (seconds blocks : N) w : World T :=
  mkWorld (w_at w) (w_token w) (w_oracle w) (w_markets w) (w_positions w) (w_vault w) (w_engine w)
    (w_counterparty w) (w_liquidation_owner w) (w_funding w) (w_fund_owner w)
    (w_timestamp w + Z.of_N seconds) (w_number w + Z.of_N blocks).

(** An account outside the contracts sends calls; a call that reverts leaves
    the world as it was, so only those that go through are steps. *)
Inductive reach (w0 : World T) : World T -> Prop :=
| reach_refl : reach w0 w0
| reach_call w sender c w' :
    reach w0 w -> sender <> a_vault (w_at w) -> uint_args c = true ->
    exec sender c w = inr (tt, w') -> reach w0 w'
| reach_time w s b : reach w0 w -> reach w0 (pass_time s b w).

(** ** Frames *)

(** Equality of a part of the world. *)
Definition same {A} (f : World T -> A) : relation (World T) := fun w w' => f w' = f w.

#[export] Instance same_preorder {A} (f : World T -> A) : PreOrder (same f).
Proof. split; [done | intros a b c E1 E2; unfold same in *; congruence]. Qed.

Lemma pres_token {A} (f : World T -> A) g :
  (forall t w, f (with_token t w) = f w) -> pres (same f) (run_token g).
Proof.
  intros Hf w u w' E. unfold run_token in E. destruct (g (w_token w)); [|discriminate].
  injection E as <- <-. apply Hf.
Qed.

Ltac frame_with :=
  pres_auto;
  first [ solve [apply pres_token; done] | solve [apply pres_modify; intros; unfold same; reflexivity] | idtac ].

(** Views change nothing at all. *)
Definition unchanged : relation (World T) := fun w w' => w' = w.

#[export] Instance unchanged_preorder : PreOrder unchanged.
Proof. split; [done | intros a b c; unfold unchanged; congruence]. Qed.

Lemma view_isWithdrawSafe user n : pres unchanged (isWithdrawSafe user n).
Proof. unfold_calls. pres_auto. Qed.

Lemma view_healthFactor user m p : pres unchanged (healthFactor user m p).
Proof. unfold_calls. pres_auto. Qed.

Lemma view_settleFunding p i : pres unchanged (settleFunding p i).
Proof. unfold_calls. pres_auto. Qed.

Lemma view_applyVwap p d x : pres unchanged (applyVwap p d x).
Proof. unfold_calls. pres_auto. Qed.

(** The addresses of the contracts never change. *)
Lemma frame_at sender c : pres (same w_at) (exec sender c).
Proof. destruct c; unfold exec; unfold void; unfold_calls; frame_with; pres_auto; first [by apply pres_token | apply pres_modify; intros; reflexivity]. Qed.

End steps.
