(* ===== verification/SessionKeys.v ===== *)
(** * The session-key registry

    src/contracts/src/SessionKey.sol: owners bind short-lived signing keys to
    themselves with an expiry and a cumulative notional cap, and one consumer
    debits the cap.  The contract's storage is [SessionKeyStore], each external
    function a transaction of [Evm.v] that takes the caller first; the events
    are kept, since an indexer that replays them is the abstract view the
    storage refines ([session_of_events]). *)
From S2P Require Import Prelude Evm.

(** ** Storage and events *)

Record Session := mkSession {
  s_owner : Address;
  s_expiresAt : Z;
  s_maxNotionalUsdc : Z;
  s_spentNotionalUsdc : Z;
  s_active : bool;
}.
Definition no_session : Session := mkSession 0 0 0 0 false.

Inductive SessionEvent :=
| SessionRegistered (owner sessionPubKey : Address) (expiresAt maxNotionalUsdc : Z)
| SessionRevoked (owner sessionPubKey : Address)
| NotionalConsumed (sessionPubKey : Address) (amount spent : Z)
| ConsumerUpdated (previous current : Address)
| OwnerUpdated (previous current : Address).

Record SessionKeyStore := mkStore {
  sk_consumer : Address;
  sk_owner : Address;
  sk_sessions : gmap Address Session;
}.

(** The contract at a block: its storage, what it has emitted (newest first)
    and the block's timestamp. *)
Record SkWorld := mkSk {
  sk_store : SessionKeyStore;
  sk_events : list SessionEvent;
  sk_timestamp : Z;
}.

Definition is_uint64 (x : Z) : bool := (0 <=? x) && (x <? 2 ^ 64).
Definition is_uint128 (x : Z) : bool := (0 <=? x) && (x <? 2 ^ 128).

Definition session_at (st : SessionKeyStore) (k : Address) : Session :=
  default no_session (sk_sessions st !! k).

Definition emit (e : SessionEvent) : Tx SkWorld unit :=
  modify (fun w => mkSk (sk_store w) (e :: sk_events w) (sk_timestamp w)).
Definition put_session (k : Address) (s : Session) : Tx SkWorld unit :=
  modify (fun w => mkSk (mkStore (sk_consumer (sk_store w)) (sk_owner (sk_store w))
                           (<[k := s]> (sk_sessions (sk_store w)))) (sk_events w) (sk_timestamp w)).
Definition read_session (k : Address) : Tx SkWorld Session := gets (fun w => session_at (sk_store w) k).
Definition read_now : Tx SkWorld Z := gets sk_timestamp.

(** ** The external functions *)

Definition sk_constructor (_owner _consumer : Address) (now : Z) : Revert + SkWorld :=
  if (_owner =? 0) || (_consumer =? 0) then inl (Custom "ZeroAddress")
  else inr (mkSk (mkStore _consumer _owner ∅) [ConsumerUpdated 0 _consumer; OwnerUpdated 0 _owner] now).

Definition sk_onlyOwner (sender : Address) : Tx SkWorld unit :=
  o ← gets (fun w => sk_owner (sk_store w)); revert_if (negb (sender =? o)) (Custom "NotOwner").

Definition sk_transferOwnership (sender newOwner : Address) : Tx SkWorld unit :=
  sk_onlyOwner sender ;;
  revert_if (newOwner =? 0) (Custom "ZeroAddress") ;;
  old ← gets (fun w => sk_owner (sk_store w));
  emit (OwnerUpdated old newOwner) ;;
  modify (fun w => mkSk (mkStore (sk_consumer (sk_store w)) newOwner (sk_sessions (sk_store w)))
                     (sk_events w) (sk_timestamp w)).

Definition setConsumer (sender newConsumer : Address) : Tx SkWorld unit :=
  sk_onlyOwner sender ;;
  revert_if (newConsumer =? 0) (Custom "ZeroAddress") ;;
  old ← gets (fun w => sk_consumer (sk_store w));
  emit (ConsumerUpdated old newConsumer) ;;
  modify (fun w => mkSk (mkStore newConsumer (sk_owner (sk_store w)) (sk_sessions (sk_store w)))
                     (sk_events w) (sk_timestamp w)).

Definition register (sender sessionPubKey : Address) (expiresAt maxNotionalUsdc : Z) : Tx SkWorld unit :=
  revert_if (sessionPubKey =? 0) (Custom "ZeroAddress") ;;
  now ← read_now; revert_if (expiresAt <=? now) (Custom "Expired") ;;
  s ← read_session sessionPubKey;
  revert_if (s_active s) (Custom "AlreadyRegistered") ;;
  put_session sessionPubKey (mkSession sender expiresAt maxNotionalUsdc 0 true) ;;
  emit (SessionRegistered sender sessionPubKey expiresAt maxNotionalUsdc).

Definition revoke (sender sessionPubKey : Address) : Tx SkWorld unit :=
  s ← read_session sessionPubKey;
  revert_if (negb (s_active s)) (Custom "NotActive") ;;
  revert_if (negb (s_owner s =? sender)) (Custom "NotOwner") ;;
  put_session sessionPubKey
    (mkSession (s_owner s) (s_expiresAt s) (s_maxNotionalUsdc s) (s_spentNotionalUsdc s) false) ;;
  emit (SessionRevoked sender sessionPubKey).

Definition consume (sender sessionPubKey : Address) (amount : Z) : Tx SkWorld unit :=
  c ← gets (fun w => sk_consumer (sk_store w));
  revert_if (negb (sender =? c)) (Custom "NotAuthorizedConsumer") ;;
  s ← read_session sessionPubKey;
  revert_if (negb (s_active s)) (Custom "NotActive") ;;
  now ← read_now; revert_if (s_expiresAt s <=? now) (Custom "Expired") ;;
  newSpent ← checked is_uint128 (s_spentNotionalUsdc s + amount);
  revert_if (s_maxNotionalUsdc s <? newSpent) (Custom "CapExceeded") ;;
  put_session sessionPubKey
    (mkSession (s_owner s) (s_expiresAt s) (s_maxNotionalUsdc s) newSpent (s_active s)) ;;
  emit (NotionalConsumed sessionPubKey amount newSpent).

Definition session (sessionPubKey : Address) : Tx SkWorld Session := read_session sessionPubKey.

Definition isValid (sessionPubKey : Address) : Tx SkWorld bool :=
  s ← read_session sessionPubKey; now ← read_now;
  mret (s_active s && (now <? s_expiresAt s) && (s_spentNotionalUsdc s <? s_maxNotionalUsdc s)).

(** ** Runs: calls that go through, in blocks of non-decreasing time *)

Inductive SkCall :=
| SkOwner (newOwner : Address)
| SkConsumer (newConsumer : Address)
| SkRegister (k : Address) (expiresAt maxNotionalUsdc : Z)
| SkRevoke (k : Address)
| SkConsume (k : Address) (amount : Z).

Definition sk_exec (sender : Address) (c : SkCall) : Tx SkWorld unit :=
  match c with
  | SkOwner a => sk_transferOwnership sender a
  | SkConsumer a => setConsumer sender a
  | SkRegister k e m => register sender k e m
  | SkRevoke k => revoke sender k
  | SkConsume k n => consume sender k n
  end.

(** The arguments are of their declared widths. *)
Definition sk_typed (c : SkCall) : bool :=
  match c with
  | SkRegister _ e m => is_uint64 e && is_uint128 m
  | SkConsume _ n => is_uint128 n
  | _ => true
  end.

Definition sk_tick (seconds : N) (w : SkWorld) : SkWorld :=
  mkSk (sk_store w) (sk_events w) (sk_timestamp w + Z.of_N seconds).

Inductive sk_step (from : Address -> Prop) : SkWorld -> SkWorld -> Prop :=
| sk_step_call w sender c w' :
    from sender -> sk_typed c = true -> sk_exec sender c w = inr (tt, w') -> sk_step from w w'
| sk_step_time w n : sk_step from w (sk_tick n w).

Definition anyone : Address -> Prop := fun _ => True.

Definition sk_reachable (w : SkWorld) : Prop :=
  exists o c t w0, sk_constructor o c t = inr w0 /\ rtc (sk_step anyone) w0 w.

(** ** The abstract view: what the events say of a key *)

(** The events since the key was last registered, newest first, with that
    registration; [None] when it never was. *)
Fixpoint since_registration (k : Address) (es : list SessionEvent)
    : option (Address * Z * Z * list SessionEvent) :=
  match es with
  | [] => None
  | SessionRegistered o k' e m :: es' =>
      if k' =? k then Some (o, e, m, []) else since_registration k es'
  | ev :: es' =>
      '(o, e, m, l) ← since_registration k es'; Some (o, e, m, ev :: l)
  end.

(** Everything debited from the key among these events. *)
Definition debited (k : Address) (es : list SessionEvent) : Z :=
  foldr (fun ev acc => match ev with
                       | NotionalConsumed k' n _ => if k' =? k then n + acc else acc
                       | _ => acc
                       end) 0 es.

Definition was_revoked (k : Address) (es : list SessionEvent) : bool :=
  existsb (fun ev => match ev with SessionRevoked _ k' => k' =? k | _ => false end) es.

Definition session_of_events (k : Address) (es : list SessionEvent) : Session :=
  match since_registration k es with
  | None => no_session
  | Some (o, e, m, l) => mkSession o e m (debited k l) (negb (was_revoked k l))
  end.

(** ** Facts *)

Lemma session_at_insert st k s k' c o :
  session_at (mkStore c o (<[k := s]> (sk_sessions st))) k' = if k =? k' then s else session_at st k'.
Proof.
  unfold session_at. cbn. destruct (Z.eqb_spec k k') as [->|].
  - by rewrite fin_maps.lookup_insert_eq.
  - by rewrite lookup_insert_ne.
Qed.

(** What a call that went through did, as one equation per function. *)
Definition with_session (k : Address) (s : Session) (ev : SessionEvent) (w : SkWorld) : SkWorld :=
  mkSk (mkStore (sk_consumer (sk_store w)) (sk_owner (sk_store w)) (<[k := s]> (sk_sessions (sk_store w))))
    (ev :: sk_events w) (sk_timestamp w).

Lemma register_ok sender k e m w w' :
  register sender k e m w = inr (tt, w') ->
  k <> 0 /\ sk_timestamp w < e /\ s_active (session_at (sk_store w) k) = false /\
  w' = with_session k (mkSession sender e m 0 true) (SessionRegistered sender k e m) w.
Proof.
  unfold register, read_now, read_session, put_session, emit. intros H. tx_inv H. bool_to_prop.
  repeat split; auto; lia.
Qed.

Lemma revoke_ok sender k w w' :
  revoke sender k w = inr (tt, w') ->
  let s := session_at (sk_store w) k in
  s_active s = true /\ s_owner s = sender /\
  w' = with_session k (mkSession (s_owner s) (s_expiresAt s) (s_maxNotionalUsdc s) (s_spentNotionalUsdc s) false)
         (SessionRevoked sender k) w.
Proof.
  unfold revoke, read_session, put_session, emit. intros H. tx_inv H. bool_to_prop. auto.
Qed.

Lemma consume_ok sender k n w w' :
  consume sender k n w = inr (tt, w') ->
  let s := session_at (sk_store w) k in
  let spent := s_spentNotionalUsdc s + n in
  sender = sk_consumer (sk_store w) /\ s_active s = true /\ sk_timestamp w < s_expiresAt s /\
  is_uint128 spent = true /\ spent <= s_maxNotionalUsdc s /\
  w' = with_session k (mkSession (s_owner s) (s_expiresAt s) (s_maxNotionalUsdc s) spent (s_active s))
         (NotionalConsumed k n spent) w.
Proof.
  unfold consume, read_now, read_session, put_session, emit. intros H. tx_inv H.
  bool_to_prop. repeat split; auto; lia.
Qed.

(** The guards of [consume] in order, with the error of each. *)
Lemma consume_eq sender k n w :
  let s := session_at (sk_store w) k in
  let spent := s_spentNotionalUsdc s + n in
  consume sender k n w =
  if negb (sender =? sk_consumer (sk_store w)) then inl (Custom "NotAuthorizedConsumer")
  else if negb (s_active s) then inl (Custom "NotActive")
  else if s_expiresAt s <=? sk_timestamp w then inl (Custom "Expired")
  else if negb (is_uint128 spent) then inl (Panic 17)
  else if s_maxNotionalUsdc s <? spent then inl (Custom "CapExceeded")
  else inr (tt, with_session k (mkSession (s_owner s) (s_expiresAt s) (s_maxNotionalUsdc s) spent (s_active s))
                  (NotionalConsumed k n spent) w).
Proof.
  intros s spent. unfold consume, read_session, read_now, gets, mbind, tx_bind, revert_if, checked.
  destruct (negb (sender =? _)); [done|]. fold s. destruct (negb (s_active s)); [done|].
  destruct (s_expiresAt s <=? _); [done|]. fold spent. destruct (is_uint128 spent); [|done]. cbn.
  by destruct (s_maxNotionalUsdc s <? spent).
Qed.

(** ** The invariant *)

(** The storage is what the events say, every session within its widths and
    its cap. *)
Definition session_ok (s : Session) : Prop :=
  0 <= s_spentNotionalUsdc s <= s_maxNotionalUsdc s /\ s_maxNotionalUsdc s < 2 ^ 128.

Definition sk_inv (w : SkWorld) : Prop :=
  forall k, session_at (sk_store w) k = session_of_events k (sk_events w) /\ session_ok (session_at (sk_store w) k).

Lemma session_of_registered k k' o e m es :
  session_of_events k' (SessionRegistered o k e m :: es)
  = if k =? k' then mkSession o e m 0 true else session_of_events k' es.
Proof. unfold session_of_events. cbn. by destruct (k =? k'). Qed.

Lemma session_of_other k' ev es :
  match ev with SessionRegistered _ _ _ _ => False | _ => True end ->
  session_of_events k' (ev :: es) =
  match since_registration k' es with
  | None => no_session
  | Some (o, e, m, l) => mkSession o e m (debited k' (ev :: l)) (negb (was_revoked k' (ev :: l)))
  end.
Proof. intros Hev. unfold session_of_events. destruct ev; [done | ..]; cbn; by destruct (since_registration k' es) as [[[[? ?] ?] ?]|]. Qed.

Lemma session_of_revoked k k' o es :
  session_of_events k' (SessionRevoked o k :: es)
  = let s := session_of_events k' es in
    if k =? k' then mkSession (s_owner s) (s_expiresAt s) (s_maxNotionalUsdc s) (s_spentNotionalUsdc s) false else s.
Proof.
  rewrite session_of_other by done. unfold session_of_events.
  destruct (since_registration k' es) as [[[[? ?] ?] ?]|]; cbn; by destruct (k =? k').
Qed.

Lemma session_of_consumed k k' n t es :
  s_active (session_of_events k' es) = true \/ k <> k' ->
  session_of_events k' (NotionalConsumed k n t :: es)
  = let s := session_of_events k' es in
    if k =? k' then mkSession (s_owner s) (s_expiresAt s) (s_maxNotionalUsdc s) (s_spentNotionalUsdc s + n) (s_active s)
    else s.
Proof.
  intros Ha. rewrite session_of_other by done. unfold session_of_events in *.
  destruct (since_registration k' es) as [[[[? ?] ?] ?]|]; cbn in *; destruct (Z.eqb_spec k k'); try done.
  - f_equal. apply Z.add_comm.
  - destruct Ha; [discriminate | done].
Qed.

Lemma session_of_admin k' ev es :
  match ev with ConsumerUpdated _ _ | OwnerUpdated _ _ => True | _ => False end ->
  session_of_events k' (ev :: es) = session_of_events k' es.
Proof.
  intros Hev. rewrite session_of_other by by destruct ev. unfold session_of_events.
  destruct (since_registration k' es) as [[[[? ?] ?] ?]|]; [|done]. by destruct ev.
Qed.

(** Writing one session keeps the invariant when the event says the same. *)
Lemma sk_inv_with_session w k s ev :
  sk_inv w -> session_ok s ->
  (forall k', session_of_events k' (ev :: sk_events w) = if k =? k' then s else session_of_events k' (sk_events w)) ->
  sk_inv (with_session k s ev w).
Proof.
  intros Hw Hs He k'. unfold with_session. cbn. rewrite session_at_insert, He.
  destruct (k =? k'); [done | apply Hw].
Qed.

Lemma sk_inv_exec sender c w w' :
  sk_inv w -> sk_typed c = true -> sk_exec sender c w = inr (tt, w') -> sk_inv w'.
Proof.
  intros Hw Ht H. destruct c as [a|a|k e m|k|k n]; cbn in H, Ht; unfold is_uint64, is_uint128 in Ht; bool_to_prop.
  - unfold sk_transferOwnership, sk_onlyOwner, emit in H. tx_inv H. intros k. cbn. rewrite session_of_admin by done. apply Hw.
  - unfold setConsumer, sk_onlyOwner, emit in H. tx_inv H. intros k. cbn. rewrite session_of_admin by done. apply Hw.
  - apply register_ok in H as (? & ? & ? & ->). apply sk_inv_with_session; [done | split; cbn; lia |].
    intros k'. apply session_of_registered.
  - apply revoke_ok in H as (? & ? & ->). destruct (Hw k) as [E Hk]. apply sk_inv_with_session; [done | done |].
    intros k'. rewrite session_of_revoked, E. by destruct (Z.eqb_spec k k') as [<-|].
  - apply consume_ok in H as (? & Ha & ? & Hu & ? & ->). destruct (Hw k) as [E [Hk ?]].
    apply sk_inv_with_session; [done | split; cbn; unfold is_uint128 in Hu; bool_to_prop; lia |].
    intros k'. rewrite session_of_consumed; rewrite E in *; [by destruct (Z.eqb_spec k k') as [<-|]|].
    destruct (decide (k = k')) as [<-|]; auto.
Qed.

Lemma sk_inv_step from w w' : sk_step from w w' -> sk_inv w -> sk_inv w'.
Proof. intros [? ? ? ? ? ? H | ? ?] Hw; [by eapply sk_inv_exec | exact Hw]. Qed.

Lemma sk_inv_reachable w : sk_reachable w -> sk_inv w.
Proof.
  intros (o & c & t & w0 & H0 & Hr). assert (Hw : sk_inv w0).
  { unfold sk_constructor in H0. destruct (_ || _) in H0; [discriminate|]. injection H0 as <-.
    intros k. split; [done | by split; [split |]]. }
  clear H0. induction Hr; eauto using sk_inv_step.
Qed.

(** A step of anyone but the owner of an active session leaves it active, with
    its owner, expiry and cap. *)
Lemma session_kept_by_others w w' k squatter ex cap :
  sk_step (fun a => a <> squatter) w w' ->
  (exists spent, session_at (sk_store w) k = mkSession squatter ex cap spent true) ->
  exists spent, session_at (sk_store w') k = mkSession squatter ex cap spent true.
Proof.
  intros [x sender c y Hs _ H | x n] [spent E]; [|by exists spent].
  destruct c as [a|a|k' e m|k'|k' n]; cbn in H.
  - unfold sk_transferOwnership, sk_onlyOwner, emit in H. tx_inv H. by exists spent.
  - unfold setConsumer, sk_onlyOwner, emit in H. tx_inv H. by exists spent.
  - apply register_ok in H as (_ & _ & Ha & ->). unfold with_session. cbn. rewrite session_at_insert.
    destruct (Z.eqb_spec k' k) as [->|]; [by rewrite E in Ha | eauto].
  - apply revoke_ok in H as (_ & Ho & ->). unfold with_session. cbn. rewrite session_at_insert.
    destruct (Z.eqb_spec k' k) as [->|]; [by rewrite E in Ho | eauto].
  - apply consume_ok in H as (_ & _ & _ & _ & _ & ->). unfold with_session. cbn. rewrite session_at_insert.
    destruct (Z.eqb_spec k' k) as [->|]; [rewrite E; cbn; eauto | eauto].
Qed.

(** ** What the registry guarantees *)

(** C21: The session registry refines its event log.  In every state the
    contract can reach, the storage of every key is exactly what replaying the
    emitted events says: its owner, expiry and cap are those of its last
    registration, what it has spent is the sum of the debits since then, and it
    is active unless it was revoked since then. *)
Theorem sessions_follow_events (w : SkWorld) :
  sk_reachable w -> forall k, session_at (sk_store w) k = session_of_events k (sk_events w).
Proof. intros Hw k. apply (sk_inv_reachable w Hw k). Qed.

(** A session key can never be used beyond its cap.  In every reachable
    state, the debits of a key since its last registration are at most the cap
    it was registered with, however the calls of owners, consumers and
    strangers interleave. *)
Theorem session_debits_within_cap (w : SkWorld) k o e m l :
  sk_reachable w -> since_registration k (sk_events w) = Some (o, e, m, l) ->
  0 <= debited k l <= m.
Proof.
  intros Hw El. destruct (sk_inv_reachable w Hw k) as [E [Hk _]].
  rewrite E in Hk. unfold session_of_events in Hk. by rewrite El in Hk.
Qed.

(** [isValid] answers exactly the question the edge asks: it is true if
    and only if a debit of the smallest amount by the consumer would go through
    in the same block. *)
Theorem isValid_iff_debit_possible (w : SkWorld) k :
  sk_reachable w ->
  isValid k w = inr (true, w) <-> exists w', consume (sk_consumer (sk_store w)) k 1 w = inr (tt, w').
Proof.
  intros Hw. destruct (sk_inv_reachable w Hw k) as [_ [Hk Hm]].
  set (s := session_at (sk_store w) k) in *.
  transitivity (s_active s = true /\ sk_timestamp w < s_expiresAt s /\ s_spentNotionalUsdc s < s_maxNotionalUsdc s).
  - unfold isValid, read_session, read_now. split.
    + intros H. tx_inv H. bool_to_prop. auto.
    + intros (Ha & Ht & Hs). rewrite <- Z.ltb_lt in Ht, Hs. unfold gets, mbind, tx_bind. cbn. fold s.
      by rewrite Ha, Ht, Hs.
  - split.
    + intros (Ha & Ht & Hs). eexists. rewrite consume_eq. fold s. rewrite Z.eqb_refl, Ha.
      rewrite (proj2 (Z.leb_gt _ _) Ht). replace (s_maxNotionalUsdc s <? _) with false by lia.
      replace (is_uint128 _) with true by (unfold is_uint128; lia). reflexivity.
    + intros [w' H]. apply consume_ok in H. fold s in H. destruct H as (_ & ? & ? & _ & ? & _).
      repeat split; auto; lia.
Qed.

(** A key that someone else registered first stays with them.  [register]
    asks for no proof that the caller holds the key, so a stranger may bind any
    key; from then on, whatever everyone else does and however much time passes
    (its expiry included), the session keeps that owner, expiry and cap and
    stays active, so every other attempt to register the key reverts. *)
Theorem squatted_key_stays_taken (w w' : SkWorld) sender k e m squatter :
  let s := session_at (sk_store w) k in
  s_active s = true -> s_owner s = squatter ->
  rtc (sk_step (fun a => a <> squatter)) w w' ->
  (exists spent, session_at (sk_store w') k = mkSession squatter (s_expiresAt s) (s_maxNotionalUsdc s) spent true) /\
  exists err, register sender k e m w' = inl err.
Proof.
  intros s Ha Ho Hr.
  assert (H : exists spent, session_at (sk_store w') k = mkSession squatter (s_expiresAt s) (s_maxNotionalUsdc s) spent true).
  { assert (H0 : exists spent, session_at (sk_store w) k = mkSession squatter (s_expiresAt s) (s_maxNotionalUsdc s) spent true)
      by (exists (s_spentNotionalUsdc s); fold s; destruct s; cbn in *; by subst).
    generalize dependent (s_expiresAt s). generalize dependent (s_maxNotionalUsdc s). clear s Ha Ho.
    intros cap ex. induction Hr as [|x y z Hxy _ IH]; [done|]. intros H0. apply IH. clear IH.
    by eapply session_kept_by_others. }
  split; [done|]. destruct H as [spent E].
  destruct (register sender k e m w') as [err | [[] w2]] eqn:R; [eauto|].
  apply register_ok in R as (_ & _ & Hact & _). by rewrite E in Hact.
Qed.

(** ** A concrete run: owner 5 registers key 7, the consumer 2 debits it *)

Definition demo_start : SkWorld :=
  mkSk (mkStore 2 1 ∅) [ConsumerUpdated 0 2; OwnerUpdated 0 1] 1000.
Definition after (m : Tx SkWorld unit) (w : SkWorld) : SkWorld :=
  match m w with inl _ => w | inr (_, w') => w' end.
Definition demo_registered : SkWorld := after (register 5 7 2000 500) demo_start.
Definition demo_debited : SkWorld := after (consume 2 7 300) demo_registered.

Lemma demo_reachable : sk_reachable demo_debited.
Proof.
  exists 1, 2, 1000, demo_start. split; [reflexivity|].
  apply rtc_l with demo_registered; [by apply (sk_step_call _ _ 5 (SkRegister 7 2000 500))|].
  apply rtc_once. by apply (sk_step_call _ _ 2 (SkConsume 7 300)).
Qed.

Lemma sessions_follow_events_witness :
  session_at (sk_store demo_debited) 7 = session_of_events 7 (sk_events demo_debited) /\
  session_of_events 7 (sk_events demo_debited) = mkSession 5 2000 500 300 true.
Proof. split; [exact (sessions_follow_events demo_debited demo_reachable 7) | reflexivity]. Defined.

Lemma session_debits_within_cap_witness : 0 <= debited 7 [NotionalConsumed 7 300 300] <= 500.
Proof. exact (session_debits_within_cap demo_debited 7 5 2000 500 _ demo_reachable eq_refl). Defined.

Lemma isValid_iff_debit_possible_witness :
  isValid 7 demo_debited = inr (true, demo_debited) /\ exists w', consume 2 7 1 demo_debited = inr (tt, w').
Proof.
  split; [reflexivity|]. apply (isValid_iff_debit_possible demo_debited 7 demo_reachable). reflexivity.
Defined.

Lemma squatted_key_stays_taken_witness :
  (exists spent, session_at (sk_store (sk_tick 5000 demo_debited)) 7 = mkSession 5 2000 500 spent true) /\
  exists err, register 6 7 9000 100 (sk_tick 5000 demo_debited) = inl err.
Proof.
  apply (squatted_key_stays_taken demo_debited (sk_tick 5000 demo_debited) 6 7 9000 100 5 eq_refl eq_refl).
  apply rtc_once. constructor.
Defined.
