(* ===== verification/Abis.v ===== *)
(** * The interface descriptions of the web application

    web/lib/contracts/abis.ts describes the few functions of the vault and of
    its token that the interface calls.  Here the descriptions as data, the
    calls they stand for on the modelled chain, and the theorem that the two
    agree: every described function exists, takes and returns as many values as
    described, and one described as a view reads without changing anything. *)
From S2P Require Import Prelude Evm Contracts.

Inductive AbiType := abi_uint256 | abi_uint8 | abi_address | abi_bool.
Inductive Mutability := nonpayable | view.

Record AbiParam := mkParam { ap_name : string; ap_type : AbiType }.

Record AbiFunction := mkFunction {
  af_name : string;
  af_stateMutability : Mutability;
  af_inputs : list AbiParam;
  af_outputs : list AbiParam;
}.

Definition collateralVaultAbi : list AbiFunction :=
  [mkFunction "deposit" nonpayable [mkParam "amount" abi_uint256] [];
   mkFunction "withdraw" nonpayable [mkParam "amount" abi_uint256] [];
   mkFunction "balances" view [mkParam "user" abi_address] [mkParam "" abi_uint256]].

Definition erc20Abi : list AbiFunction :=
  [mkFunction "allowance" view [mkParam "owner" abi_address; mkParam "spender" abi_address] [mkParam "" abi_uint256];
   mkFunction "approve" nonpayable [mkParam "spender" abi_address; mkParam "amount" abi_uint256] [mkParam "" abi_bool];
   mkFunction "balanceOf" view [mkParam "account" abi_address] [mkParam "" abi_uint256];
   mkFunction "decimals" view [] [mkParam "" abi_uint8]].

(** The token of the devnet has the six decimals of USDC. *)
Definition decimals : Z := 6.

(** ** The calls *)

Section calls.
Context {T : Type} `{Erc20 T} `{OzMath}.

Definition vault_call (f : string) (sender : Address) (args : list Z) : option (Tx (World T) (list Z)) :=
  match f, args with
  | "deposit", [amount] => Some (deposit sender amount ;; mret [])
  | "withdraw", [amount] => Some (withdraw sender amount ;; mret [])
  | "balances", [user] => Some (b ← balances user; mret [b])
  | _, _ => None
  end.

Definition token_call (f : string) (sender : Address) (args : list Z) : option (Tx (World T) (list Z)) :=
  match f, args with
  | "allowance", [owner; spender] => Some (t ← gets w_token; mret [allowance t owner spender])
  | "approve", [spender; amount] => Some (run_token (tk_approve sender spender amount) ;; mret [1])
  | "balanceOf", [account] => Some (t ← gets w_token; mret [balanceOf t account])
  | "decimals", [] => Some (mret [decimals])
  | _, _ => None
  end.

(** A contract that answers calls as an entry describes. *)
Definition answers (call : string -> Address -> list Z -> option (Tx (World T) (list Z))) (f : AbiFunction) : Prop :=
  forall sender args, length args = length (af_inputs f) ->
  exists m, call (af_name f) sender args = Some m /\
    (forall w out w', m w = inr (out, w') -> length out = length (af_outputs f)) /\
    (af_stateMutability f = view -> forall w, exists out, m w = inr (out, w)).

Lemma returns_length {A} (m : Tx (World T) A) (g : A -> list Z) n w out w' :
  (forall a, length (g a) = n) -> (a ← m; mret (g a)) w = inr (out, w') -> length out = n.
Proof.
  intros Hg E. unfold mbind, tx_bind in E. destruct (m w) as [e|[a w1]]; [discriminate|].
  injection E as <- _. apply Hg.
Qed.

(** Both descriptions are of the contracts they name: each described function is
    there, with the described number of arguments and results, and calling one
    described as a view succeeds and leaves the chain as it is. *)
Theorem abis_describe_contracts :
  Forall (answers vault_call) collateralVaultAbi /\ Forall (answers token_call) erc20Abi.
Proof.
  split; repeat (apply List.Forall_cons); try apply List.Forall_nil; intros sender args Hl;
    (destruct args as [|a [|b [|c args]]]; try discriminate Hl); eexists;
    (split; [reflexivity|]); split; try discriminate; try (intros _ w; by eexists);
    intros w out w' E; (eapply returns_length; [|exact E]; done) || (injection E as <- _; done).
Qed.
End calls.
