(* ===== verification/OracleAdapter.v ===== *)
(** * The production oracle

    src/contracts/src/OracleAdapter.sol: a price is read from the Pyth pull
    oracle, scaled to 18 decimals and, where a Chainlink feed is registered for
    the market, accepted only within a divergence bound of it.  Pyth, the
    Chainlink aggregators and the code of an account that receives a refund are
    not part of the repository: they are the classes [Pyth] and [Aggregators]
    and the parameter [on_receive].  A failed call into them reverts with an
    error of theirs. *)
From Stdlib Require Import QArith Qround Qpower.
From S2P Require Import Prelude Evm.
Open Scope Z_scope.

(** ** The outside *)

Record PythPrice := mkPythPrice { p_price : Z; p_expo : Z; p_publishTime : Z }.

Class Pyth (P : Type) := {
  py_getPriceNoOlderThan : P -> Z -> Bytes32 -> Z -> Revert + PythPrice;
  py_getUpdateFee : P -> list Z -> Revert + Z;
  py_updatePriceFeeds : list Z -> Z -> P -> Revert + P;
}.

(** What the SDK documents: a price read with a maximum age was published
    within that age of the block, and prices are int64, exponents int32, fees
    unsigned. *)
Class PythLaws (P : Type) `{Pyth P} : Prop := {
  py_fresh : forall p now id age q, py_getPriceNoOlderThan p now id age = inr q ->
    Z.abs (now - p_publishTime q) <= age;
  py_widths : forall p now id age q, py_getPriceNoOlderThan p now id age = inr q ->
    - 2 ^ 63 <= p_price q < 2 ^ 63 /\ - 2 ^ 31 <= p_expo q < 2 ^ 31;
  py_fee_unsigned : forall p data fee, py_getUpdateFee p data = inr fee -> 0 <= fee <= UMAX;
}.

Record RoundData := mkRound { r_answer : Z; r_updatedAt : Z }.

Class Aggregators (C : Type) := {
  cl_latestRoundData : C -> Address -> Revert + RoundData;
  cl_decimals : C -> Address -> Revert + Z;
}.

Class AggregatorsLaws (C : Type) `{Aggregators C} : Prop := {
  cl_round_widths : forall c f r, cl_latestRoundData c f = inr r ->
    is_int (r_answer r) = true /\ is_uint (r_updatedAt r) = true;
  cl_decimals_width : forall c f d, cl_decimals c f = inr d -> 0 <= d < 256;
}.

(** ** Storage *)

Record OracleAdapter := mkAdapter {
  PYTH : Address;
  oa_owner : Address;
  maxStalenessSec : Z;
  maxDivergenceBps : Z;
  pythFeeds : gmap Bytes32 Bytes32;
  chainlinkFeeds : gmap Bytes32 Address;
}.

(** The chain as the adapter sees it: its own address and storage, the outside
    contracts, the ether of every account and the block's timestamp. *)
Record OWorld (P C : Type) := mkOWorld {
  ow_self : Address;
  ow_adapter : OracleAdapter;
  ow_pyth : P;
  ow_feeds : C;
  ow_eth : gmap Address Z;
  ow_timestamp : Z;
}.
Arguments mkOWorld {P C}. Arguments ow_self {P C}. Arguments ow_adapter {P C}. Arguments ow_pyth {P C}.
Arguments ow_feeds {P C}. Arguments ow_eth {P C}. Arguments ow_timestamp {P C}.

Section adapter.
Context {P C : Type} `{Pyth P} `{Aggregators C} `{OzMath}.
Context (on_receive : Address -> Z -> Tx (OWorld P C) unit).
Notation W := (OWorld P C).

Definition with_adapter (a : OracleAdapter) (w : W) : W :=
  mkOWorld (ow_self w) a (ow_pyth w) (ow_feeds w) (ow_eth w) (ow_timestamp w).
Definition with_pyth (p : P) (w : W) : W :=
  mkOWorld (ow_self w) (ow_adapter w) p (ow_feeds w) (ow_eth w) (ow_timestamp w).
Definition with_eth (e : gmap Address Z) (w : W) : W :=
  mkOWorld (ow_self w) (ow_adapter w) (ow_pyth w) (ow_feeds w) e (ow_timestamp w).

(** A call into outside code, its revert passed on. *)
Definition outside {A} (f : W -> Revert + A) : Tx W A := fun w =>
  match f w with inl e => inl e | inr a => inr (a, w) end.

Definition oa_toUint256 (x : Z) : Tx W Z := of_option (Custom "SafeCastOverflowedIntToUint") (oz_toUint256 x).

(** Checked exponentiation of ten. *)
Definition pow10 (e : Z) : Tx W Z := checked is_uint (10 ^ e).

(** ** Construction and administration *)

Definition oa_constructor (_pyth _owner : Address) : Revert + OracleAdapter :=
  if _pyth =? 0 then inl (Custom "ZeroAddress")
  else if _owner =? 0 then inl (Custom "ZeroAddress")
  else inr (mkAdapter _pyth _owner 30 100 ∅ ∅).

Definition oa_onlyOwner (sender : Address) : Tx W unit :=
  a ← gets ow_adapter; revert_if (negb (sender =? oa_owner a)) (Custom "NotOwner").

Definition set_adapter (f : OracleAdapter -> OracleAdapter) : Tx W unit :=
  modify (fun w => with_adapter (f (ow_adapter w)) w).

Definition oa_transferOwnership (sender newOwner : Address) : Tx W unit :=
  oa_onlyOwner sender ;; revert_if (newOwner =? 0) (Custom "ZeroAddress") ;;
  set_adapter (fun a => mkAdapter (PYTH a) newOwner (maxStalenessSec a) (maxDivergenceBps a) (pythFeeds a) (chainlinkFeeds a)).

Definition registerPythFeed (sender : Address) (marketId pythFeedId : Bytes32) : Tx W unit :=
  oa_onlyOwner sender ;;
  set_adapter (fun a => mkAdapter (PYTH a) (oa_owner a) (maxStalenessSec a) (maxDivergenceBps a)
                          (<[marketId := pythFeedId]> (pythFeeds a)) (chainlinkFeeds a)).

Definition setChainlinkFeed (sender : Address) (marketId : Bytes32) (feed : Address) : Tx W unit :=
  oa_onlyOwner sender ;;
  set_adapter (fun a => mkAdapter (PYTH a) (oa_owner a) (maxStalenessSec a) (maxDivergenceBps a)
                          (pythFeeds a) (<[marketId := feed]> (chainlinkFeeds a))).

Definition setMaxStaleness (sender : Address) (newMaxSec : Z) : Tx W unit :=
  oa_onlyOwner sender ;;
  revert_if ((newMaxSec =? 0) || (3600 <? newMaxSec)) (Custom "InvalidStaleness") ;;
  set_adapter (fun a => mkAdapter (PYTH a) (oa_owner a) newMaxSec (maxDivergenceBps a) (pythFeeds a) (chainlinkFeeds a)).

Definition setMaxDivergence (sender : Address) (newBps : Z) : Tx W unit :=
  oa_onlyOwner sender ;;
  revert_if ((newBps =? 0) || (10000 <? newBps)) (Custom "InvalidDivergence") ;;
  set_adapter (fun a => mkAdapter (PYTH a) (oa_owner a) (maxStalenessSec a) newBps (pythFeeds a) (chainlinkFeeds a)).

(** ** Reading a price *)

Definition _scaleToX18 (price expo : Z) : Tx W Z :=
  shift ← iadd 18 expo;
  if 0 <=? shift then
    revert_if (38 <? shift) (Custom "UnscaleableExpo") ;;
    e ← oa_toUint256 shift; mul ← pow10 e; umul price mul
  else
    n ← ineg shift; e ← oa_toUint256 n; div ← pow10 e; udiv price div.

Definition _readChainlinkX18 (feed : Address) : Tx W Z :=
  r ← outside (fun w => cl_latestRoundData (ow_feeds w) feed);
  revert_if (r_answer r <=? 0) (Custom "NegativePrice") ;;
  now ← gets ow_timestamp; age ← usub now (r_updatedAt r);
  revert_if (3600 <? age) (Custom "ChainlinkStale") ;;
  dec ← outside (fun w => cl_decimals (ow_feeds w) feed);
  answerU ← oa_toUint256 (r_answer r);
  if dec =? 18 then mret answerU
  else if dec <? 18 then m ← pow10 (18 - dec); umul answerU m
  else d ← pow10 (dec - 18); udiv answerU d.

Definition _assertWithinDivergence (pythX18 clX18 : Z) : Tx W unit :=
  diff ← (if clX18 <? pythX18 then usub pythX18 clX18 else usub clX18 pythX18);
  let base := if pythX18 <? clX18 then pythX18 else clX18 in
  revert_if (base =? 0) (Custom "DivergenceExceeded") ;;
  bps ← gets (fun w => maxDivergenceBps (ow_adapter w));
  l ← umul diff 10000; r ← umul base bps;
  revert_if (r <? l) (Custom "DivergenceExceeded").

Definition oa_priceX18 (marketId : Bytes32) : Tx W Z :=
  feedId ← gets (fun w => mget (pythFeeds (ow_adapter w)) marketId);
  revert_if (feedId =? 0) (Custom "UnknownFeed") ;;
  p ← outside (fun w => py_getPriceNoOlderThan (ow_pyth w) (ow_timestamp w) feedId (maxStalenessSec (ow_adapter w)));
  revert_if (p_price p <=? 0) (Custom "NegativePrice") ;;
  pythPriceRaw ← oa_toUint256 (p_price p);
  pythX18 ← _scaleToX18 pythPriceRaw (p_expo p);
  clf ← gets (fun w => mget (chainlinkFeeds (ow_adapter w)) marketId);
  (if negb (clf =? 0) then
     clX18 ← _readChainlinkX18 clf; _assertWithinDivergence pythX18 clX18
   else mret tt) ;;
  mret pythX18.

(** ** Updating Pyth and reading, with the fee and the refund *)

(** Ether moves with a call; a sender without the funds cannot make it. *)
Definition pay (from to : Address) (n : Z) : Tx W unit :=
  e ← gets ow_eth;
  revert_if (mget e from <? n) (Require_ "insufficient balance") ;;
  let e1 := <[from := mget e from - n]> e in
  modify (with_eth (<[to := mget e1 to + n]> e1)).

(** A low-level call with value: whether it went through; when it did not,
    nothing of it remains. *)
Definition call_value (to : Address) (n : Z) : Tx W bool := fun w =>
  match (pay (ow_self w) to n ;; on_receive to n) w with
  | inl _ => inr (false, w)
  | inr (_, w') => inr (true, w')
  end.

Definition oa_updateAndGetPrice (sender : Address) (value : Z) (marketId : Bytes32) (updateData : list Z) : Tx W Z :=
  self ← gets ow_self; pay sender self value ;;
  fee ← outside (fun w => py_getUpdateFee (ow_pyth w) updateData);
  revert_if (value <? fee) (Custom "InvalidUpdateFee") ;;
  to ← gets (fun w => PYTH (ow_adapter w)); pay self to fee ;;
  p ← outside (fun w => py_updatePriceFeeds updateData fee (ow_pyth w)); modify (with_pyth p) ;;
  residual ← usub value fee;
  (if 0 <? residual then ok ← call_value sender residual; require ok "refund failed" else mret tt) ;;
  oa_priceX18 marketId.

(** ** Scaling *)

(** The reference: the price [price * 10^expo] in units of 1e-18, rounded down. *)
Definition x18_of (price expo : Z) : Z := Qfloor (inject_Z price * Qpower (inject_Z 10) (18 + expo)).

Lemma x18_of_up price expo : 0 <= 18 + expo -> x18_of price expo = price * 10 ^ (18 + expo).
Proof.
  intros Hs. unfold x18_of. rewrite <- Zpower_Qpower by done. by rewrite <- inject_Z_mult, Qfloor_Z.
Qed.

Lemma x18_of_down price expo : 18 + expo < 0 -> x18_of price expo = price / 10 ^ (- (18 + expo)).
Proof.
  intros Hs. unfold x18_of. rewrite Zdiv_Qdiv. apply Qfloor_comp. unfold Qdiv.
  rewrite Zpower_Qpower by lia. by rewrite <- Qpower_opp, Z.opp_involutive.
Qed.

Lemma pow10_uint e : 0 <= e <= 77 -> is_uint (10 ^ e) = true.
Proof.
  intros He. apply is_uint_iff. split; [apply Z.pow_nonneg; lia|].
  transitivity (10 ^ 77); [apply Z.pow_le_mono_r; lia | by vm_compute].
Qed.

Lemma pow10_overflow e : 77 < e -> is_uint (10 ^ e) = false.
Proof.
  intros He. destruct (is_uint _) eqn:E; [|done]. apply is_uint_iff in E.
  assert (10 ^ 78 <= 10 ^ e) by (apply Z.pow_le_mono_r; lia).
  assert (UMAX < 10 ^ 78) by by vm_compute. lia.
Qed.

Context {Hoz : OzMathLaws}.

Lemma oa_toUint256_run x w : 0 <= x <= IMAX -> oa_toUint256 x w = inr (x, w).
Proof.
  intros Hx. unfold oa_toUint256, of_option. rewrite oz_toUint256_spec by (apply is_int_iff; unfold IMIN, IMAX in *; lia).
  by replace (x <? 0) with false by lia.
Qed.

(** What [_scaleToX18] does with a Pyth price, branch by branch. *)
Lemma scale_eq price expo w :
  0 <= price < 2 ^ 63 -> - 2 ^ 31 <= expo < 2 ^ 31 ->
  _scaleToX18 price expo w =
    if 20 <? expo then inl (Custom "UnscaleableExpo")
    else if expo <? -95 then inl (Panic 17)
    else inr (x18_of price expo, w).
Proof.
  intros Hp He. unfold _scaleToX18. unfold iadd at 1.
  erewrite bind_run by (apply checked_run, is_int_iff; unfold IMIN, IMAX; lia).
  destruct (Z.leb_spec 0 (18 + expo)) as [Hs|Hs].
  - destruct (Z.ltb_spec 20 expo) as [H20|H20].
    + apply bind_stop. unfold revert_if. by replace (38 <? 18 + expo) with true by lia.
    + replace (expo <? -95) with false by lia. unfold revert_if. replace (38 <? 18 + expo) with false by lia.
      erewrite bind_run by reflexivity. erewrite bind_run by (apply oa_toUint256_run; unfold IMAX; lia).
      erewrite bind_run by (apply checked_run, pow10_uint; lia). rewrite x18_of_up by done.
      apply checked_run, is_uint_iff. assert (10 ^ (18 + expo) <= 10 ^ 38) by (apply Z.pow_le_mono_r; lia).
      assert (2 ^ 63 * 10 ^ 38 <= UMAX) by by vm_compute.
      assert (0 <= 10 ^ (18 + expo)) by (apply Z.pow_nonneg; lia). nia.
  - replace (20 <? expo) with false by lia.
    erewrite bind_run by (apply checked_run, is_int_iff; unfold IMIN, IMAX; lia).
    erewrite bind_run by (apply oa_toUint256_run; unfold IMAX; lia).
    destruct (Z.ltb_spec expo (-95)) as [H95|H95].
    + apply bind_stop. unfold pow10, checked. by rewrite pow10_overflow by lia.
    + erewrite bind_run by (apply checked_run, pow10_uint; lia). rewrite x18_of_down by done.
      assert (0 < 10 ^ (- (18 + expo))) by (apply Z.pow_pos_nonneg; lia). unfold udiv.
      replace (_ =? 0) with false by lia. apply checked_run, is_uint_iff.
      split; [apply Z.div_pos; lia|]. transitivity price; [apply Z.div_le_upper_bound; nia | unfold UMAX; lia].
Qed.

(** ** The cross-check *)

Lemma outside_ok {A} (f : W -> Revert + A) a w w' : outside f w = inr (a, w') -> f w = inr a /\ w' = w.
Proof. unfold outside. destruct (f w); [discriminate | by intros [= -> ->]]. Qed.

Lemma oa_toUint256_ok x y w w' :
  is_int x = true -> oa_toUint256 x w = inr (y, w') -> 0 <= x /\ y = x /\ w' = w.
Proof.
  unfold oa_toUint256. intros Hx E. apply of_option_ok in E as [E ->]. rewrite oz_toUint256_spec in E by done.
  destruct (Z.ltb_spec x 0); [discriminate|]. by injection E as ->.
Qed.

(** The answer of an aggregator, in units of 1e-18. *)
Definition round_x18 (r : RoundData) (dec : Z) : Z := x18_of (r_answer r) (- dec).

Context {Hcl : AggregatorsLaws C}.

Lemma readChainlink_ok feed x w w' :
  _readChainlinkX18 feed w = inr (x, w') ->
  w' = w /\ exists r dec,
    cl_latestRoundData (ow_feeds w) feed = inr r /\ cl_decimals (ow_feeds w) feed = inr dec /\
    0 < r_answer r /\ 0 <= ow_timestamp w - r_updatedAt r <= 3600 /\ x = round_x18 r dec.
Proof.
  unfold _readChainlinkX18. intros E.
  apply bind_ok in E as (r & w1 & E1 & E). apply outside_ok in E1 as [E1 ->].
  destruct (cl_round_widths _ _ _ E1) as [Hans _].
  apply bind_ok in E as ([] & w1 & E2 & E). apply revert_if_ok in E2 as [Hpos <-].
  apply bind_ok in E as (now & w1 & E2 & E). apply gets_ok in E2 as [<- <-].
  apply bind_ok in E as (age & w1 & E2 & E). apply checked_ok in E2 as (Hage & -> & <-).
  apply bind_ok in E as ([] & w1 & E2 & E). apply revert_if_ok in E2 as [Hold <-].
  apply bind_ok in E as (dec & w1 & E2 & E). apply outside_ok in E2 as [E2 ->].
  apply bind_ok in E as (u & w1 & E3 & E). apply (oa_toUint256_ok _ _ _ _ Hans) in E3 as (_ & -> & ->).
  pose proof (cl_decimals_width _ _ _ E2) as Hdec. apply is_uint_iff in Hage. bool_to_prop.
  assert (w' = w /\ x = round_x18 r dec) as [-> ->]; [|by split; [|exists r, dec; auto with lia]].
  unfold round_x18, pow10 in *. destruct (Z.eqb_spec dec 18) as [->|]; [|destruct (Z.ltb_spec dec 18)].
  - apply ret_ok in E as [-> ->]. rewrite x18_of_up by lia. split; [done|]. cbn. lia.
  - tx_inv E. by rewrite x18_of_up by lia.
  - tx_inv E. rewrite x18_of_down by lia. split; [done|]. do 2 f_equal. lia.
Qed.

(** Two prices agree within a bound: their distance, in basis points of the
    smaller one. *)
Definition within_bps (bps x y : Z) : Prop := 0 < Z.min x y /\ Z.abs (x - y) * 10000 <= Z.min x y * bps.

Lemma assertWithinDivergence_ok x y u w w' :
  0 <= x -> 0 <= y -> _assertWithinDivergence x y w = inr (u, w') ->
  w' = w /\ within_bps (maxDivergenceBps (ow_adapter w)) x y.
Proof.
  intros Hx Hy. unfold _assertWithinDivergence, within_bps. intros E.
  apply bind_ok in E as (diff & w1 & E1 & E).
  assert (w1 = w /\ diff = Z.abs (x - y)) as [-> ->].
  { destruct (Z.ltb_spec y x); apply checked_ok in E1 as (_ & -> & <-); split; auto; lia. }
  replace (if x <? y then x else y) with (Z.min x y) in E by (destruct (Z.ltb_spec x y); lia).
  tx_inv E. bool_to_prop. split; [done|]. lia.
Qed.

Lemma x18_of_nonneg price expo : 0 <= price -> 0 <= x18_of price expo.
Proof.
  intros Hp. destruct (Z.le_gt_cases 0 (18 + expo)).
  - rewrite x18_of_up by done. apply Z.mul_nonneg_nonneg; [done | apply Z.pow_nonneg; lia].
  - rewrite x18_of_down by done. apply Z.div_pos; [done | apply Z.pow_pos_nonneg; lia].
Qed.

(** ** A price that is returned *)

(** What [priceX18] promises of the price [x] of a market. *)
Definition vouched (m : Bytes32) (x : Z) (w : W) : Prop :=
  let a := ow_adapter w in
  exists q,
    mget (pythFeeds a) m <> 0 /\
    py_getPriceNoOlderThan (ow_pyth w) (ow_timestamp w) (mget (pythFeeds a) m) (maxStalenessSec a) = inr q /\
    Z.abs (ow_timestamp w - p_publishTime q) <= maxStalenessSec a /\
    0 < p_price q /\ -95 <= p_expo q <= 20 /\ x = x18_of (p_price q) (p_expo q) /\
    let feed := mget (chainlinkFeeds a) m in
    feed <> 0 -> exists r dec,
      cl_latestRoundData (ow_feeds w) feed = inr r /\ cl_decimals (ow_feeds w) feed = inr dec /\
      0 < r_answer r /\ 0 <= ow_timestamp w - r_updatedAt r <= 3600 /\
      within_bps (maxDivergenceBps a) x (round_x18 r dec).

Context {Hpy : PythLaws P}.

Lemma adapter_price_ok m x w w' : oa_priceX18 m w = inr (x, w') -> w' = w /\ vouched m x w.
Proof.
  unfold oa_priceX18, vouched. intros E.
  apply bind_ok in E as (id & w1 & E1 & E). apply gets_ok in E1 as [<- <-].
  apply bind_ok in E as ([] & w1 & E1 & E). apply revert_if_ok in E1 as [Hid <-].
  apply bind_ok in E as (q & w1 & E1 & E). apply outside_ok in E1 as [Hq ->].
  destruct (py_widths _ _ _ _ _ Hq) as [Hpw Hew].
  apply bind_ok in E as ([] & w1 & E1 & E). apply revert_if_ok in E1 as [Hpos <-].
  apply bind_ok in E as (u & w1 & E1 & E).
  apply oa_toUint256_ok in E1 as (Hu & -> & ->); [|apply is_int_iff; unfold IMIN, IMAX; lia].
  bool_to_prop.
  apply bind_ok in E as (y & w1 & E1 & E). rewrite scale_eq in E1 by lia.
  destruct (Z.ltb_spec 20 (p_expo q)); [discriminate|]. destruct (Z.ltb_spec (p_expo q) (-95)); [discriminate|].
  injection E1 as <- <-.
  apply bind_ok in E as (f & w1 & E1 & E). apply gets_ok in E1 as [<- <-].
  apply bind_ok in E as ([] & w1 & E1 & E). apply ret_ok in E as [<- <-].
  pose proof (py_fresh _ _ _ _ _ Hq) as Hfresh.
  destruct (Z.eqb_spec (mget (chainlinkFeeds (ow_adapter w)) m) 0) as [Hf|Hf]; cbn [negb] in E1.
  - apply ret_ok in E1 as [_ ->]. split; [done|]. exists q. repeat split; auto with lia.
  - apply bind_ok in E1 as (y & w2 & E2 & E1). apply readChainlink_ok in E2 as [-> (r & dec & Hr & Hd & Ha & Ht & ->)].
    apply assertWithinDivergence_ok in E1 as [-> Hw]; [|apply x18_of_nonneg; lia ..].
    split; [done|]. exists q. repeat split; auto with lia. intros _. exists r, dec. auto.
Qed.

(** C20: A price the production oracle returns is vouched for by both sources:
    the market has a Pyth feed, Pyth published the price within the staleness
    bound, it is positive, the result is that price in units of 1e-18 rounded
    down, and where a Chainlink feed is registered its answer is positive, at
    most an hour old and within [maxDivergenceBps] of the result, measured on
    the smaller of the two.  Reading changes nothing. *)
Theorem oracle_price_vouched (m : Bytes32) (x : Z) (w w' : W) :
  oa_priceX18 m w = inr (x, w') -> w' = w /\ vouched m x w.
Proof. apply adapter_price_ok. Qed.

(** The scaling to 18 decimals, on every Pyth price and exponent: above
    10^20 it refuses the exponent, below 10^-95 the checked power of ten
    panics, and in between it returns the exact price times 10^18, rounded
    down, with no overflow. *)
Theorem scaleToX18_exact (price expo : Z) (w : W) :
  0 <= price < 2 ^ 63 -> - 2 ^ 31 <= expo < 2 ^ 31 ->
  _scaleToX18 price expo w =
    if 20 <? expo then inl (Custom "UnscaleableExpo")
    else if expo <? -95 then inl (Panic 17)
    else inr (Qfloor (inject_Z price * Qpower (inject_Z 10) (18 + expo)), w).
Proof. apply scale_eq. Qed.

(** A price below the resolution of 1e-18 scales to zero. *)
Lemma x18_of_zero price expo :
  0 < price -> x18_of price expo = 0 <-> expo < -18 /\ price < 10 ^ (- (18 + expo)).
Proof.
  intros Hp. destruct (Z.le_gt_cases 0 (18 + expo)) as [Hs|Hs].
  - rewrite x18_of_up by done. assert (0 < 10 ^ (18 + expo)) by (apply Z.pow_pos_nonneg; lia). nia.
  - rewrite x18_of_down by done. assert (0 < 10 ^ (- (18 + expo))) by (apply Z.pow_pos_nonneg; lia).
    rewrite Z.div_small_iff by lia. lia.
Qed.

(** When the oracle quotes zero.  A market without a Chainlink feed is
    priced at zero, without a revert, exactly when Pyth's positive price is
    below the resolution of 1e-18; the mock oracle that stands in for this
    contract on the devnet never returns zero. *)
Theorem oracle_quotes_zero_iff (m : Bytes32) (w : W) :
  oa_priceX18 m w = inr (0, w) <->
  let a := ow_adapter w in
  mget (pythFeeds a) m <> 0 /\ mget (chainlinkFeeds a) m = 0 /\
  exists q,
    py_getPriceNoOlderThan (ow_pyth w) (ow_timestamp w) (mget (pythFeeds a) m) (maxStalenessSec a) = inr q /\
    0 < p_price q /\ -95 <= p_expo q < -18 /\ p_price q < 10 ^ (- (18 + p_expo q)).
Proof.
  split.
  - intros E. apply adapter_price_ok in E as [_ (q & Hid & Hq & Hf & Hp & He & Hx & Hcl')].
    split; [done|]. split.
    + destruct (decide (mget (chainlinkFeeds (ow_adapter w)) m = 0)) as [|Hn]; [done|].
      destruct (Hcl' Hn) as (r & dec & _ & _ & _ & _ & [Hmin _]). lia.
    + exists q. symmetry in Hx. rewrite x18_of_zero in Hx by done. repeat split; auto; lia.
  - intros (Hid & Hn & q & Hq & Hp & He & Hsmall). destruct (py_widths _ _ _ _ _ Hq) as [Hpw Hew].
    unfold oa_priceX18, outside, revert_if. erewrite bind_run by reflexivity. replace (_ =? 0) with false by lia.
    erewrite bind_run by reflexivity. erewrite bind_run by by rewrite Hq.
    replace (p_price q <=? 0) with false by lia. erewrite bind_run by reflexivity.
    erewrite bind_run by (apply oa_toUint256_run; unfold IMAX; lia).
    erewrite bind_run by (rewrite scale_eq by lia; replace (20 <? p_expo q) with false by lia;
      replace (p_expo q <? -95) with false by lia; reflexivity).
    rewrite (proj2 (x18_of_zero _ _ Hp)) by lia. erewrite bind_run by reflexivity. by rewrite Hn.
Qed.

(** ** Administration *)

Inductive OaCall :=
| OaOwner (newOwner : Address)
| OaPythFeed (m id : Bytes32)
| OaChainlinkFeed (m : Bytes32) (feed : Address)
| OaStaleness (n : Z)
| OaDivergence (n : Z)
| OaUpdate (value : Z) (m : Bytes32) (data : list Z).

Definition oa_exec (sender : Address) (c : OaCall) : Tx W unit :=
  match c with
  | OaOwner a => oa_transferOwnership sender a
  | OaPythFeed m id => registerPythFeed sender m id
  | OaChainlinkFeed m f => setChainlinkFeed sender m f
  | OaStaleness n => setMaxStaleness sender n
  | OaDivergence n => setMaxDivergence sender n
  | OaUpdate v m d => oa_updateAndGetPrice sender v m d ;; mret tt
  end.

(** The amounts a call carries are unsigned. *)
Definition oa_typed (c : OaCall) : bool :=
  match c with
  | OaStaleness n | OaDivergence n | OaUpdate n _ _ => is_uint n
  | _ => true
  end.

Definition config_ok (a : OracleAdapter) : Prop :=
  PYTH a <> 0 /\ oa_owner a <> 0 /\ 1 <= maxStalenessSec a <= 3600 /\ 1 <= maxDivergenceBps a <= 10000.

Definition keeps_config : W -> W -> Prop := fun w w' => config_ok (ow_adapter w) -> config_ok (ow_adapter w').
#[local] Instance keeps_config_preorder : PreOrder keeps_config.
Proof. split; unfold keeps_config; [intros ? ?; done | intros a b c ? ? ?; auto]. Qed.

Lemma pres_outside {A} R `{!PreOrder R} (f : W -> Revert + A) : pres R (outside f).
Proof. intros w a w' E%outside_ok. destruct E as [_ ->]. reflexivity. Qed.

Lemma pres_pay R `{!PreOrder R} from to n : (forall e w, R w (with_eth e w)) -> pres R (pay from to n).
Proof. intros HR. unfold pay. pres_auto. apply pres_modify. auto. Qed.

Lemma pres_call_value R `{!PreOrder R} to n :
  (forall e w, R w (with_eth e w)) -> pres R (on_receive to n) -> pres R (call_value to n).
Proof.
  intros HR Hc w b w' E. unfold call_value in E.
  destruct ((pay (ow_self w) to n ;; on_receive to n) w) as [err | [u w2]] eqn:E2; injection E as <- <-; [reflexivity|].
  refine (pres_tx_bind R _ _ _ _ _ _ _ E2); [by apply pres_pay | done].
Qed.

Lemma pres_price m R `{!PreOrder R} : pres R (oa_priceX18 m).
Proof. intros w x w' E. apply adapter_price_ok in E as [-> _]. reflexivity. Qed.

(** The oracle's parameters stay in range.  Whatever calls anyone makes, a
    configuration that starts as the constructor leaves it keeps a nonzero
    owner, a staleness bound of one second to one hour and a divergence bound
    of one basis point to 100%, provided the code of an account that is
    refunded leaves the configuration in range if it calls back. *)
Theorem oracle_config_in_range (sender : Address) (c : OaCall) (w w' : W) :
  (forall a n, pres keeps_config (on_receive a n)) ->
  oa_typed c = true -> config_ok (ow_adapter w) -> oa_exec sender c w = inr (tt, w') ->
  config_ok (ow_adapter w').
Proof.
  intros Hcb Ht Hw E.
  destruct c; cbn [oa_exec oa_typed] in *; try rewrite is_uint_iff in Ht.
  6: { apply bind_ok in E as (x & w1 & E & E2). apply ret_ok in E2 as [_ <-]. revert Hw.
       enough (pres keeps_config (oa_updateAndGetPrice sender value m data)) as Hp by exact (Hp _ _ _ E).
       unfold oa_updateAndGetPrice. pres_auto;
         first [ apply pres_pay; [typeclasses eauto | by intros ? ? ?]
               | apply pres_outside; typeclasses eauto
               | apply pres_modify; by intros ? ?
               | apply pres_call_value; [typeclasses eauto | by intros ? ? ? | apply Hcb]
               | apply pres_price; typeclasses eauto ]. }
  all: unfold oa_transferOwnership, registerPythFeed, setChainlinkFeed, setMaxStaleness, setMaxDivergence,
         oa_onlyOwner, set_adapter in E; tx_inv E; unfold config_ok in *; cbn; bool_to_prop; intuition lia.
Qed.

(** ** The fee and the refund *)

Definition eth (w : W) (a : Address) : Z := mget (ow_eth w) a.

Lemma pay_ok from to n u w w' :
  pay from to n w = inr (u, w') ->
  (forall a, eth w' a = eth w a + shift_balance from to n a) /\
  ow_self w' = ow_self w /\ ow_adapter w' = ow_adapter w /\ ow_pyth w' = ow_pyth w.
Proof.
  unfold pay. intros E. tx_inv E. split; [|done]. intros b. unfold eth, shift_balance, mget. cbn.
  destruct (decide (b = to)) as [->|Ht].
  - rewrite fin_maps.lookup_insert_eq, (bool_decide_true (to = to)) by done. cbn.
    destruct (decide (to = from)) as [->|Hf].
    + rewrite fin_maps.lookup_insert_eq, bool_decide_true by done. cbn. lia.
    + rewrite lookup_insert_ne, bool_decide_false by done. lia.
  - rewrite lookup_insert_ne, (bool_decide_false (b = to)) by done.
    destruct (decide (b = from)) as [->|Hf].
    + rewrite fin_maps.lookup_insert_eq, bool_decide_true by done. cbn. lia.
    + rewrite lookup_insert_ne, bool_decide_false by done. lia.
Qed.

Lemma call_value_ok to n w w' :
  (forall a k, pres (fun v v' => forall b, eth v' b = eth v b) (on_receive a k)) ->
  call_value to n w = inr (true, w') ->
  forall a, eth w' a = eth w a + shift_balance (ow_self w) to n a.
Proof.
  intros Hcb E a. unfold call_value in E.
  destruct ((pay (ow_self w) to n ;; on_receive to n) w) as [err | [u w2]] eqn:E2; [discriminate|].
  injection E as <-. apply bind_ok in E2 as (v & w1 & E1 & E2).
  apply pay_ok in E1 as [E1 _]. by rewrite (Hcb _ _ _ _ _ E2), E1.
Qed.

(** Updating and reading costs the caller exactly Pyth's fee.  When
    [updateAndGetPrice] goes through, the value sent covered the fee, the fee
    moved from the caller to Pyth, what was sent beyond it came back and the
    adapter kept nothing, and the price returned is vouched for after the
    update (the code of the refunded account moving no ether of its own). *)
Theorem update_costs_the_fee (sender : Address) (value : Z) (m : Bytes32) (data : list Z) (x : Z) (w w' : W) :
  (forall a k, pres (fun v v' => forall b, eth v' b = eth v b) (on_receive a k)) ->
  oa_updateAndGetPrice sender value m data w = inr (x, w') ->
  vouched m x w' /\
  exists fee, py_getUpdateFee (ow_pyth w) data = inr fee /\ fee <= value /\
    forall a, eth w' a = eth w a + shift_balance sender (PYTH (ow_adapter w)) fee a.
Proof.
  unfold oa_updateAndGetPrice. intros Hcb E.
  apply bind_ok in E as (self & w0 & E0 & E). apply gets_ok in E0 as [<- <-].
  apply bind_ok in E as ([] & w1 & E1 & E). apply pay_ok in E1 as (B1 & S1 & A1 & P1).
  apply bind_ok in E as (fee & w0 & E0 & E). apply outside_ok in E0 as [Efee ->]. rewrite P1 in Efee.
  apply bind_ok in E as ([] & w0 & E0 & E). apply revert_if_ok in E0 as [Hfee <-].
  apply bind_ok in E as (to & w0 & E0 & E). apply gets_ok in E0 as [<- <-].
  apply bind_ok in E as ([] & w2 & E2 & E). apply pay_ok in E2 as (B2 & S2 & A2 & P2).
  apply bind_ok in E as (p & w0 & E0 & E). apply outside_ok in E0 as [_ ->].
  apply bind_ok in E as ([] & w3 & E3 & E). apply modify_ok in E3 as ->.
  apply bind_ok in E as (residual & w0 & E0 & E). apply checked_ok in E0 as (Hres & -> & <-).
  apply bind_ok in E as ([] & w4 & E4 & E). apply adapter_price_ok in E as [-> Hv]. bool_to_prop.
  split; [done|]. exists fee. split; [done|]. split; [lia|]. intros a.
  assert (B4 : eth w4 a = eth w2 a + shift_balance (ow_self w) sender (value - fee) a).
  { destruct (Z.ltb_spec 0 (value - fee)).
    - apply bind_ok in E4 as (ok & w5 & E4 & E5). apply require_ok in E5 as [-> <-].
      rewrite (call_value_ok _ _ _ _ Hcb E4). cbn [ow_self with_pyth]. by rewrite S2, S1.
    - apply ret_ok in E4 as [_ <-]. unfold shift_balance. change (eth (with_pyth p w2) a) with (eth w2 a).
      repeat case_bool_decide; lia. }
  rewrite B4, B2, B1, A1. unfold shift_balance. repeat case_bool_decide; lia.
Qed.

End adapter.

(** ** Concrete feeds *)

Definition demo_read (ps : gmap Bytes32 PythPrice) (now : Z) (id : Bytes32) (age : Z) : Revert + PythPrice :=
  match ps !! id with
  | Some q =>
      if (age <? Z.abs (now - p_publishTime q)) || (p_price q <? - 2 ^ 63) || (2 ^ 63 <=? p_price q)
         || (p_expo q <? - 2 ^ 31) || (2 ^ 31 <=? p_expo q)
      then inl (Custom "StalePrice") else inr q
  | None => inl (Custom "PriceFeedNotFound")
  end.

#[global] Instance demo_pyth : Pyth (gmap Bytes32 PythPrice) := {|
  py_getPriceNoOlderThan := demo_read;
  py_getUpdateFee _ _ := inr 1;
  py_updatePriceFeeds _ v ps := if v <? 1 then inl (Custom "InsufficientFee") else inr ps;
|}.

#[global] Instance demo_pyth_laws : PythLaws (gmap Bytes32 PythPrice).
Proof.
  split.
  - intros p now id age q. cbn. unfold demo_read. destruct (p !! id); [|discriminate].
    destruct (_ || _) eqn:E; [discriminate|]. intros [= ->]. bool_to_prop. lia.
  - intros p now id age q. cbn. unfold demo_read. destruct (p !! id); [|discriminate].
    destruct (_ || _) eqn:E; [discriminate|]. intros [= ->]. bool_to_prop. lia.
  - intros p data fee [= <-]. unfold UMAX. lia.
Qed.

Definition demo_round (c : gmap Address (RoundData * Z)) (f : Address) : Revert + RoundData :=
  match c !! f with
  | Some (r, _) => if is_int (r_answer r) && is_uint (r_updatedAt r) then inr r else inl (Panic 1)
  | None => inl (Panic 1)
  end.
Definition demo_decimals (c : gmap Address (RoundData * Z)) (f : Address) : Revert + Z :=
  match c !! f with
  | Some (_, d) => if (0 <=? d) && (d <? 256) then inr d else inl (Panic 1)
  | None => inl (Panic 1)
  end.

#[global] Instance demo_aggregators : Aggregators (gmap Address (RoundData * Z)) := {|
  cl_latestRoundData := demo_round;
  cl_decimals := demo_decimals;
|}.

#[global] Instance demo_aggregators_laws : AggregatorsLaws (gmap Address (RoundData * Z)).
Proof.
  split; intros c f r; cbn; unfold demo_round, demo_decimals; (destruct (c !! f) as [[r' d]|]; [|discriminate]);
    (destruct (_ && _) eqn:E; [|discriminate]); intros [= ->]; bool_to_prop; auto.
Qed.

(** Market 1 is quoted at 64,000.00 by Pyth and 64,010.00 by Chainlink, market
    2 by Pyth alone, at 10^-19. *)
Definition demo_adapter : OracleAdapter := mkAdapter 90 1 30 100 {[ 1 := 11; 2 := 12 ]} {[ 1 := 77 ]}.
Definition demo_world : OWorld (gmap Bytes32 PythPrice) (gmap Address (RoundData * Z)) :=
  mkOWorld 50 demo_adapter
    {[ 11 := mkPythPrice 6400000000000 (-8) 1000; 12 := mkPythPrice 1 (-19) 990 ]}
    {[ 77 := (mkRound 6401000000000 900, 8) ]} {[ 5 := 100 ]} 1010.

(** An account without code takes the refund. *)
Definition inert : Address -> Z -> Tx (OWorld (gmap Bytes32 PythPrice) (gmap Address (RoundData * Z))) unit :=
  fun _ _ => mret tt.

Lemma inert_pres R a n : Reflexive R -> pres R (inert a n).
Proof. intros HR w u w' E. injection E as _ <-. reflexivity. Qed.

Lemma oracle_price_vouched_witness :
  oa_priceX18 1 demo_world = inr (64000 * 10 ^ 18, demo_world) /\ vouched 1 (64000 * 10 ^ 18) demo_world.
Proof.
  assert (E : oa_priceX18 1 demo_world = inr (64000 * 10 ^ 18, demo_world)) by (vm_compute; reflexivity).
  split; [exact E | exact (proj2 (oracle_price_vouched 1 _ _ _ E))].
Defined.

Lemma scaleToX18_exact_witness : _scaleToX18 6400000000000 (-8) demo_world = inr (64000 * 10 ^ 18, demo_world).
Proof. rewrite (scaleToX18_exact 6400000000000 (-8) demo_world) by lia. vm_compute. reflexivity. Defined.

Lemma oracle_quotes_zero_iff_witness : oa_priceX18 2 demo_world = inr (0, demo_world).
Proof.
  apply (oracle_quotes_zero_iff 2 demo_world). repeat split; try (vm_compute; discriminate).
  exists (mkPythPrice 1 (-19) 990). repeat split; try (vm_compute; discriminate).
Defined.

Lemma oracle_config_in_range_witness :
  exists w', oa_exec inert 1 (OaStaleness 60) demo_world = inr (tt, w') /\ config_ok (ow_adapter w').
Proof.
  eexists. split; [vm_compute; reflexivity|].
  refine (oracle_config_in_range inert 1 (OaStaleness 60) demo_world _ _ eq_refl _ eq_refl).
  - intros a n. apply inert_pres. by intros ? ?.
  - unfold config_ok. cbn. lia.
Defined.

Lemma update_costs_the_fee_witness :
  exists w', oa_updateAndGetPrice inert 5 40 1 [0] demo_world = inr (64000 * 10 ^ 18, w') /\
    eth w' 5 = 99 /\ vouched 1 (64000 * 10 ^ 18) w'.
Proof.
  eexists. split; [vm_compute; reflexivity|]. split; [vm_compute; reflexivity|].
  refine (proj1 (update_costs_the_fee inert 5 40 1 [0] _ demo_world _ _ eq_refl)).
  intros a n. apply inert_pres. by intros ? ?.
Defined.
