(* ===== verification/PositionThms.v ===== *)
(** * The position registry is well formed

    The list of markets a user is in, the index map beside it and the stored
    positions agree in every world a run reaches, and every listed market
    keeps its risk parameters inside the documented bounds. *)
From S2P Require Import Prelude Evm Contracts ChainSteps.

(** ** The list and its index map *)

(** Slot [i] of the user's list holds [m] exactly when the map says [i + 1]. *)
Definition indexed (r : PositionRegistry) (user : Address) : Prop :=
  (forall m, 0 <= mget (pr_indexPlusOne r) (user, m)) /\
  forall i m, markets_of r user !! i = Some m <-> mget (pr_indexPlusOne r) (user, m) = Z.of_nat i + 1.

Lemma mget_insert_eq {K} `{Countable K} (m : gmap K Z) k v : mget (<[k := v]> m) k = v.
Proof. unfold mget. by rewrite fin_maps.lookup_insert_eq. Qed.

Lemma mget_insert_ne {K} `{Countable K} (m : gmap K Z) k k' v : k <> k' -> mget (<[k := v]> m) k' = mget m k'.
Proof. intros. unfold mget. by rewrite lookup_insert_ne. Qed.

Lemma mget_delete_eq {K} `{Countable K} (m : gmap K Z) k : mget (delete k m) k = 0.
Proof. unfold mget. by rewrite fin_maps.lookup_delete_eq. Qed.

Lemma mget_delete_ne {K} `{Countable K} (m : gmap K Z) k k' : k <> k' -> mget (delete k m) k' = mget m k'.
Proof. intros. unfold mget. by rewrite lookup_delete_ne. Qed.

#[export] Hint Rewrite @mget_insert_eq @mget_delete_eq : perplex.

Lemma indexed_NoDup r user : indexed r user -> NoDup (markets_of r user).
Proof.
  intros [_ Hix]. apply NoDup_alt. intros i j m Hi Hj.
  apply Hix in Hi. apply Hix in Hj. lia.
Qed.

Lemma indexed_elem r user m : indexed r user -> m ∈ markets_of r user <-> mget (pr_indexPlusOne r) (user, m) <> 0.
Proof.
  intros [Hpos Hix]. rewrite list_elem_of_lookup. split.
  - intros [i Hi]. apply Hix in Hi. lia.
  - intros Hne. exists (Z.to_nat (mget (pr_indexPlusOne r) (user, m) - 1)). apply Hix.
    specialize (Hpos m). lia.
Qed.

Lemma markets_of_tracking r user l i u :
  markets_of (with_tracking (<[user := l]> (pr_userMarkets r)) i r) u = if decide (u = user) then l else markets_of r u.
Proof.
  unfold markets_of. cbn. case_decide; subst;
    [by rewrite fin_maps.lookup_insert_eq | by rewrite lookup_insert_ne].
Qed.

Lemma track_markets user m r u : indexed r user ->
  markets_of (trackUserMarket user m r) u =
  if decide (u = user) then (if decide (m ∈ markets_of r user) then markets_of r user else markets_of r user ++ [m])
  else markets_of r u.
Proof.
  intros Hix. unfold trackUserMarket. pose proof (indexed_elem r user m Hix) as Hin.
  destruct (_ =? 0) eqn:E; bool_to_prop; cbn [negb].
  - rewrite markets_of_tracking. case_decide; [|done]. rewrite decide_False; [done|]. rewrite Hin. lia.
  - case_decide; [|done]. subst. rewrite decide_True; [done|]. by apply Hin.
Qed.

Lemma track_indexed user m r u : indexed r user -> indexed r u -> indexed (trackUserMarket user m r) u.
Proof.
  intros Hix Hu. pose proof (track_markets user m r u Hix) as Hm. unfold trackUserMarket in *.
  destruct (_ =? 0) eqn:E; bool_to_prop; cbn [negb] in *; [|done].
  destruct (decide (u = user)) as [->|Hne].
  - destruct Hix as [Hpos Hix]. split; [intros x | intros i x].
    + cbn. destruct (decide (x = m)) as [->|]; [rewrite mget_insert_eq; lia | rewrite mget_insert_ne by congruence; apply Hpos].
    + rewrite Hm, decide_False by (rewrite indexed_elem by done; lia). cbn. rewrite length_app. cbn.
      rewrite lookup_app_Some, list_lookup_singleton_Some.
      destruct (decide (x = m)) as [->|Hxm].
      * rewrite mget_insert_eq. split; [intros [Hl|[? [? _]]]|intros Heq; right; split; [|split; [|done]]]; try lia.
        apply Hix in Hl. lia.
      * rewrite mget_insert_ne by congruence. rewrite <- Hix. split; [intros [?|(_ & _ & ?)]; [done|congruence] | by left].
  - destruct Hu as [Hpos Hu]. split; [intros x | intros i x]; cbn; rewrite mget_insert_ne by congruence; [done|].
    by rewrite Hm.
Qed.

(** Removing entry [k] by moving the last one into its slot. *)
Lemma swap_remove_lookup {A} (l : list A) k (d : A) i x : (k < length l)%nat ->
  take (length l - 1) (if (S k =? length l)%nat then l else <[k := d]> l) !! i = Some x <->
  ((i < length l - 1)%nat /\ ((i <> k /\ l !! i = Some x) \/ (i = k /\ x = d))).
Proof.
  intros Hk. rewrite lookup_take_Some. destruct (S k =? length l)%nat eqn:E.
  - apply Nat.eqb_eq in E. split.
    + intros [? ?]. split; [done|]. left. split; [lia|done].
    + intros [? [[? ?]|[-> _]]]; [done|lia].
  - apply Nat.eqb_neq in E. destruct (decide (i = k)) as [->|Hik].
    + rewrite list_lookup_insert_eq by done. split.
      * intros [[= ->] ?]. auto.
      * intros [? [[? _]|[_ ->]]]; [done|auto].
    + rewrite list_lookup_insert_ne by done. split.
      * intros [? ?]. auto.
      * intros [? [[_ ?]|[? _]]]; [auto|done].
Qed.

Lemma untrack_unfold user m r k : markets_of r user !! k = Some m -> indexed r user ->
  let l := markets_of r user in
  let d := default 0 (l !! (length l - 1)%nat) in
  untrackUserMarket user m r =
  with_tracking
    (<[user := take (length l - 1) (if (S k =? length l)%nat then l else <[k := d]> l)]> (pr_userMarkets r))
    (delete (user, m) (if (S k =? length l)%nat then pr_indexPlusOne r
                       else <[(user, d) := Z.of_nat k + 1]> (pr_indexPlusOne r))) r.
Proof.
  intros Hk Hix l d. unfold untrackUserMarket. rewrite (proj1 (proj2 Hix k m) Hk).
  destruct (_ =? 0) eqn:E; [bool_to_prop; lia|]. fold l. fold d.
  destruct (S k =? length l)%nat eqn:E2.
  - apply Nat.eqb_eq in E2. replace (_ =? Z.of_nat (length l)) with true by lia. done.
  - apply Nat.eqb_neq in E2. replace (_ =? Z.of_nat (length l)) with false by lia. cbn [negb].
    replace (Z.to_nat (Z.of_nat k + 1 - 1)) with k by lia. done.
Qed.

Lemma untrack_indexed user m r u : indexed r user -> indexed r u -> indexed (untrackUserMarket user m r) u.
Proof.
  intros Hix Hu. destruct (decide (m ∈ markets_of r user)) as [[k Hk]%list_elem_of_lookup|Hno].
  2:{ unfold untrackUserMarket. rewrite indexed_elem in Hno by done. destruct (_ =? 0) eqn:E; [done|].
      bool_to_prop. done. }
  rewrite (untrack_unfold user m r k Hk Hix). cbv zeta. set (l := markets_of r user) in *.
  destruct (decide (u = user)) as [->|Hne].
  2:{ destruct Hu as [Hpos Hu]. split; [intros x | intros i x; rewrite markets_of_tracking, decide_False by done];
        cbn [pr_indexPlusOne with_tracking]; rewrite mget_delete_ne by congruence;
        destruct (S k =? length l)%nat; rewrite ?mget_insert_ne by congruence; first [apply Hpos | apply Hu]. }
  pose proof (lookup_lt_Some _ _ _ Hk) as Hlt.
  destruct (lookup_lt_is_Some_2 l (length l - 1)) as [d Hd]; [lia|].
  rewrite Hd. change (default 0 (Some d)) with d. destruct Hix as [Hpos Hix]. fold l in Hix.
  pose proof (proj1 (Hix _ _) Hd) as Hdi. pose proof (proj1 (Hix _ _) Hk) as Hki.
  split; [intros x | intros i x].
  - cbn [pr_indexPlusOne with_tracking]. destruct (decide (x = m)) as [->|]; [rewrite mget_delete_eq; lia|].
    rewrite mget_delete_ne by congruence. destruct (S k =? length l)%nat; [apply Hpos|].
    destruct (decide (x = d)) as [->|]; [rewrite mget_insert_eq; lia | rewrite mget_insert_ne by congruence; apply Hpos].
  - rewrite markets_of_tracking, decide_True, swap_remove_lookup by done. cbn [pr_indexPlusOne with_tracking].
    destruct (decide (x = m)) as [->|Hxm].
    { rewrite mget_delete_eq. split; [|lia]. intros [Hi [[Hik Hl]|[-> ->]]].
      - apply Hix in Hl. lia.
      - rewrite Hki in Hdi. lia. }
    rewrite mget_delete_ne by congruence. destruct (S k =? length l)%nat eqn:E.
    + apply Nat.eqb_eq in E. rewrite <- Hix. split.
      * intros [Hi [[Hik Hl]|[-> ->]]]; [done|lia].
      * intros Hl. pose proof (lookup_lt_Some _ _ _ Hl).
        assert (i <> k) by (intros ->; congruence). split; [lia|auto].
    + apply Nat.eqb_neq in E. destruct (decide (x = d)) as [->|Hxd].
      * rewrite mget_insert_eq. split; [|intros; split; [lia|right; split; [lia|done]]].
        intros [Hi [[Hik Hl]|[-> _]]]; [|done]. apply Hix in Hl. lia.
      * rewrite mget_insert_ne by congruence. rewrite <- Hix. split.
        -- intros [Hi [[Hik Hl]|[_ ?]]]; [done|congruence].
        -- intros Hl. pose proof (lookup_lt_Some _ _ _ Hl).
           assert (i <> k) by (intros ->; congruence).
           assert (i <> (length l - 1)%nat) by (intros ->; congruence). split; [lia|auto].
Qed.

Lemma untrack_elem user m r u x : indexed r user ->
  x ∈ markets_of (untrackUserMarket user m r) u <-> x ∈ markets_of r u /\ (u = user -> x <> m).
Proof.
  intros Hix. destruct (decide (u = user)) as [->|Hne].
  - rewrite indexed_elem by (by apply untrack_indexed). rewrite (indexed_elem r) by done.
    destruct (decide (m ∈ markets_of r user)) as [[k Hk]%list_elem_of_lookup|Hno].
    + rewrite (untrack_unfold user m r k Hk Hix). cbv zeta. set (l := markets_of r user) in *. cbn [pr_indexPlusOne with_tracking].
      destruct (decide (x = m)) as [->|Hxm]; [rewrite mget_delete_eq; naive_solver|].
      rewrite mget_delete_ne by congruence.
      pose proof (lookup_lt_Some _ _ _ Hk) as Hlt.
      destruct (lookup_lt_is_Some_2 l (length l - 1)) as [d Hd]; [lia|]. rewrite Hd. change (default 0 (Some d)) with d.
      destruct (S k =? length l)%nat; [naive_solver|]. destruct (decide (x = d)) as [->|];
        [rewrite mget_insert_eq; pose proof (proj1 (proj2 Hix _ _) Hd); split; [|lia]; intros; split; [lia|naive_solver]
        | rewrite mget_insert_ne by congruence; naive_solver].
    + unfold untrackUserMarket. rewrite indexed_elem in Hno by done. destruct (_ =? 0) eqn:E; [|bool_to_prop; done].
      bool_to_prop. split; [intros Hx; split; [done|intros _ ->; done] | by intros [? _]].
  - unfold untrackUserMarket. destruct (_ =? 0); [naive_solver|].
    destruct (if negb _ then _ else _). rewrite markets_of_tracking, decide_False by done. naive_solver.
Qed.

(** ** One fill *)

Section fills.
Context {T : Type} `{Erc20 T, !Erc20Laws T, OzMath, !OzMathLaws, Crypto}.
Implicit Types w : World T.

(** A stored position: an open one has a positive entry price, a flat one none. *)
Record pos_ok (p : Position) : Prop := {
  po_size : is_int (size p) = true;
  po_entry : is_uint (entryPriceX18 p) = true;
  po_open : size p <> 0 -> 0 < entryPriceX18 p;
  po_flat : size p = 0 -> entryPriceX18 p = 0;
}.

Lemma toInt256_ok x y w w' : is_uint x = true -> toInt256 x w = inr (y, w') -> y = x /\ x <= IMAX /\ w' = w.
Proof.
  intros Hx E. unfold toInt256 in E. tx_step E. rewrite oz_toInt256_spec in E by done.
  destruct (x <=? IMAX) eqn:L; [|discriminate]. injection E as <-. bool_to_prop. auto.
Qed.

Lemma abs_range x : is_int x = true -> oz_abs x = Z.abs x /\ is_uint (Z.abs x) = true.
Proof.
  intros Hx. split; [by apply oz_abs_spec|]. rewrite is_int_iff in Hx. rewrite is_uint_iff.
  unfold IMIN, IMAX, UMAX in *. lia.
Qed.

Lemma quot_near n k : 0 < k -> Z.abs (k * Z.quot n k - n) < k.
Proof. intros Hk. pose proof (Z.quot_rem' n k). pose proof (Z.rem_bound_abs n k). lia. Qed.

Ltac by_truncation n :=
  let Hq := fresh in
  pose proof (quot_near n E18 eq_refl) as Hq; revert Hq; generalize (Z.quot n E18); intros; lia.

(** The position a fill leaves behind, and what it realises: at any mark price
    the old position plus the traded quantity is worth the new position plus
    the realised profit, up to the truncation of the profit and the rounding
    of the average entry price. *)
Definition value_kept (p p' : Position) (d x r : Z) : Prop := forall mark,
  Z.abs ((E18 * r + size p' * (mark - entryPriceX18 p'))
         - (size p * (mark - entryPriceX18 p) + d * (mark - x))) < E18 + Z.abs (size p').

Record vwap_ok (p p' : Position) (d x r : Z) : Prop := {
  vo_size : size p' = size p + d;
  vo_int : is_int (size p') = true;
  vo_entry : is_uint (entryPriceX18 p') = true;
  vo_open : size p' <> 0 -> 0 < entryPriceX18 p';
  vo_funding : cumulativeFunding p' = cumulativeFunding p;
  vo_value : value_kept p p' d x r;
  vo_close : size p + d = 0 -> r = Z.quot (size p * (x - entryPriceX18 p)) E18;
}.

Lemma average_bounds a b e x : 0 <= a -> 0 <= b -> 0 < a + b -> 0 < e -> 0 < x ->
  0 < (a * e + b * x) / (a + b) /\
  0 <= (a * e + b * x) - (a + b) * ((a * e + b * x) / (a + b)) < a + b.
Proof.
  intros. pose proof (Z.div_mod (a * e + b * x) (a + b) ltac:(lia)).
  pose proof (Z.mod_pos_bound (a * e + b * x) (a + b) ltac:(lia)).
  split; [|lia]. apply Z.div_str_pos. nia.
Qed.

Lemma applyVwap_ok p d x w r p' w' :
  pos_ok p -> is_int d = true -> d <> 0 -> is_uint x = true -> 0 < x ->
  applyVwap p d x w = inr ((r, p'), w') -> vwap_ok p p' d x r /\ w' = w.
Proof.
  intros [Hs He Ho Hf] Hd Hd0 Hx Hx0 E. unfold applyVwap in E.
  tx_step E.
  destruct (_ =? 0) eqn:En.
  { (* full close *)
    bool_to_prop. tx_inv E.
    repeat match goal with
    | Hc : toInt256 _ _ = inr _ |- _ => apply toInt256_ok in Hc; [|done]; destruct Hc as (-> & _ & ->)
    end.
    assert (d = - size p) as -> by lia.
    split; [|done]. split; cbn; try done; try lia.
    intros mark. cbn. by_truncation (size p * (x - entryPriceX18 p)). }
  destruct (size p =? 0) eqn:Eo.
  { (* opening fill *)
    bool_to_prop. tx_inv E. split; [|done]. split; cbn; try done; try lia.
    intros mark. cbn. rewrite Eo in *. unfold E18. lia. }
  destruct (Bool.eqb (0 <? size p) (0 <? d)) eqn:Es.
  { (* same side *)
    apply eqb_prop in Es. tx_inv E. rewrite (oz_abs_spec (size p)), (oz_abs_spec d), (oz_abs_spec (size p + d)) in * by done.
    split; [|done]. bool_to_prop.
    assert (Habs : Z.abs (size p + d) = Z.abs (size p) + Z.abs d) by (destruct (0 <? size p) eqn:?; bool_to_prop; symmetry in Es; bool_to_prop; lia).
    rewrite Habs in *.
    pose proof (average_bounds (Z.abs (size p)) (Z.abs d) (entryPriceX18 p) x ltac:(lia) ltac:(lia) ltac:(lia) ltac:(auto) ltac:(lia)) as [Hpos Hrem].
    split; cbn; try done; try lia.
    intros mark. cbn. unfold E18.
    revert Hrem. generalize ((Z.abs (size p) * entryPriceX18 p + Z.abs d * x) / (Z.abs (size p) + Z.abs d)).
    intros q Hrem. destruct (0 <? size p) eqn:?; bool_to_prop; symmetry in Es; bool_to_prop.
    - rewrite (Z.abs_eq (size p)), (Z.abs_eq d) in * by lia. lia.
    - rewrite (Z.abs_neq (size p)), (Z.abs_neq d) in * by lia. lia. }
  destruct (negb (Bool.eqb (0 <? size p) (0 <? size p + d))) eqn:Ef.
  { (* flip *)
    tx_inv E.
    repeat match goal with
    | Hc : toInt256 _ _ = inr _ |- _ => apply toInt256_ok in Hc; [|done]; destruct Hc as (-> & _ & ->)
    end.
    split; [|done]. split; cbn; try done; try lia.
    intros mark. cbn. by_truncation (size p * (x - entryPriceX18 p)). }
  (* partial close *)
  pose proof (abs_range d Hd) as [Ha Hau]. tx_inv E. rewrite Ha in *.
  repeat match goal with
  | Hc : toInt256 _ _ = inr _ |- _ => apply toInt256_ok in Hc; [|done]; destruct Hc as (-> & _ & ->)
  end.
  split; [|done]. apply negb_false_iff, eqb_prop in Ef. apply eqb_false_iff in Es. bool_to_prop.
  split; cbn; try done; try lia.
  intros mark. cbn.
  assert (Hq : (if 0 <? size p then 1 else -1) * Z.abs d = - d).
  { destruct (0 <? size p) eqn:?, (0 <? d) eqn:?; try done; bool_to_prop; lia. }
  rewrite Hq in *. by_truncation (- d * (x - entryPriceX18 p)).
Qed.


(** ** The whole registry *)

Record tracked (r : PositionRegistry) : Prop := {
  tr_index : forall user, indexed r user;
  tr_open : forall user m, m ∈ markets_of r user <-> size (position_at r user m) <> 0;
  tr_pos : forall user m, pos_ok (position_at r user m);
}.

Lemma position_at_with_pos r user m p u x :
  position_at (with_pos (<[(user, m) := p]> (pr_positions r)) r) u x =
  if decide ((u, x) = (user, m)) then p else position_at r u x.
Proof.
  unfold position_at. cbn. case_decide as E.
  - rewrite E. by rewrite fin_maps.lookup_insert_eq.
  - by rewrite lookup_insert_ne.
Qed.

Lemma track_positions user m r : pr_positions (trackUserMarket user m r) = pr_positions r.
Proof. unfold trackUserMarket. by destruct (negb _). Qed.

Lemma untrack_positions user m r : pr_positions (untrackUserMarket user m r) = pr_positions r.
Proof. unfold untrackUserMarket. destruct (_ =? 0); [done|]. by destruct (if negb _ then _ else _). Qed.

Lemma track_elem user m r u x : indexed r user ->
  x ∈ markets_of (trackUserMarket user m r) u <-> x ∈ markets_of r u \/ (u = user /\ x = m).
Proof.
  intros Hix. rewrite track_markets by done. repeat case_decide; subst; rewrite ?elem_of_app, ?list_elem_of_singleton; naive_solver.
Qed.

(** Storing a position and keeping the list in step with it. *)
Definition store_position (user : Address) (m : Bytes32) (p : Position) (r : PositionRegistry) : PositionRegistry :=
  let r1 := trackUserMarket user m r in
  let r2 := if size p =? 0 then untrackUserMarket user m r1 else r1 in
  with_pos (<[(user, m) := p]> (pr_positions r2)) r2.

Lemma store_position_at user m p r u x :
  position_at (store_position user m p r) u x = if decide ((u, x) = (user, m)) then p else position_at r u x.
Proof.
  unfold store_position. rewrite position_at_with_pos. case_decide; [done|].
  unfold position_at. destruct (size p =? 0); by rewrite ?untrack_positions, track_positions.
Qed.

Lemma store_tracked user m p r : tracked r -> pos_ok p -> tracked (store_position user m p r).
Proof.
  intros [Hix Hop Hpo] Hp.
  assert (Ht : forall u, indexed (trackUserMarket user m r) u) by (intros; by apply track_indexed).
  split.
  - intros u. unfold store_position. change (indexed (if size p =? 0 then untrackUserMarket user m (trackUserMarket user m r)
      else trackUserMarket user m r) u). destruct (size p =? 0); [by apply untrack_indexed | apply Ht].
  - intros u x. rewrite store_position_at.
    change (markets_of (store_position user m p r) u) with
      (markets_of (if size p =? 0 then untrackUserMarket user m (trackUserMarket user m r) else trackUserMarket user m r) u).
    destruct (size p =? 0) eqn:E; bool_to_prop; rewrite ?untrack_elem, track_elem, Hop by done;
      case_decide as Eq; naive_solver.
  - intros u x. rewrite store_position_at. case_decide; [done | apply Hpo].
Qed.

Lemma settleFunding_ok p idx w c p' w' : settleFunding p idx w = inr ((c, p'), w') ->
  p' = mkPos (size p) (entryPriceX18 p) idx (lastUpdatedBlock p) /\ w' = w /\
  c = (if (size p =? 0) || (cumulativeFunding p =? idx) then 0
       else - Z.quot ((idx - cumulativeFunding p) * size p) E18).
Proof.
  intros E. unfold settleFunding in E. destruct (_ || _); tx_inv E; auto.
Qed.

Record fill_ok (sender user : Address) (m : Bytes32) (d x rp fd : Z) (w w' : World T) : Prop := {
  fo_world : w' = with_positions (w_positions w') w;
  fo_tracked : tracked (w_positions w');
  fo_sender : sender = pr_settlementEngine (w_positions w) \/ sender = pr_liquidationEngine (w_positions w);
  fo_args : user <> 0 /\ d <> 0 /\ 0 < x;
  fo_size : size (position_at (w_positions w') user m) = size (position_at (w_positions w) user m) + d;
  fo_value : value_kept (position_at (w_positions w) user m) (position_at (w_positions w') user m) d x rp;
  fo_close : size (position_at (w_positions w) user m) + d = 0 ->
    rp = Z.quot (size (position_at (w_positions w) user m) * (x - entryPriceX18 (position_at (w_positions w) user m))) E18;
  fo_funding : let p := position_at (w_positions w) user m in let idx := mget (pr_funding (w_positions w)) m in
    fd = (if (size p =? 0) || (cumulativeFunding p =? idx) then 0
          else - Z.quot ((idx - cumulativeFunding p) * size p) E18);
  fo_others : forall u k, (u, k) <> (user, m) -> position_at (w_positions w') u k = position_at (w_positions w) u k;
}.

Lemma applyFill_ok sender user m d x w rp fd w' :
  tracked (w_positions w) -> is_int d = true -> is_uint x = true ->
  applyFill sender user m d x w = inr ((rp, fd), w') -> fill_ok sender user m d x rp fd w w'.
Proof.
  intros Htr Hd Hx E. unfold applyFill, isMarketActive in E. tx_inv E.
  match goal with Hf : settleFunding _ _ _ = inr (?q, _) |- _ =>
    destruct q as [fd' p1]; apply settleFunding_ok in Hf; destruct Hf as (-> & -> & ->) end.
  tx_step E. match goal with Hv : applyVwap _ _ _ _ = inr (?q, _) |- _ => destruct q as [rp' p2] end. tx_inv E.
  bool_to_prop. pose proof (tr_pos _ Htr user m) as Hpo.
  match goal with Hv : applyVwap _ _ _ _ = _ |- _ => apply applyVwap_ok in Hv as [[Vs Vi Ve Vo Vf Vv Vc] ->] end;
    try done; [|by destruct Hpo].
  cbn in Vs, Vf, Vv, Vc.
  match goal with |- fill_ok _ _ _ _ _ _ _ _ (with_positions (with_pos (<[_ := ?p]> _) _) ?w0) =>
    set (p3 := p); set (wf := w0) end.
  match goal with |- fill_ok ?s ?u ?k ?e ?y ?r ?f ?w1 _ =>
    change (fill_ok s u k e y r f w1 (with_positions (store_position user m p3 (w_positions wf)) wf)) end.
  assert (Hp3 : pos_ok p3).
  { split; cbn; destruct (size p2 =? 0) eqn:?; bool_to_prop; try done; auto. }
  split; cbn [w_positions with_positions]; try done.
  - by apply store_tracked.
  - destruct (sender =? _) eqn:E1; bool_to_prop; [by left|]. destruct (_ =? pr_liquidationEngine _) eqn:E2; bool_to_prop; [by right|done].
  - by rewrite store_position_at, decide_True.
  - rewrite store_position_at, decide_True by done. intros mark. specialize (Vv mark). cbn in *.
    destruct (size p2 =? 0) eqn:Ez; bool_to_prop; [|done].
    rewrite Ez in Vv |- *. rewrite Z.mul_0_l in *. done.
  - intros u k Hne. by rewrite store_position_at, decide_False.
Qed.

(** ** Every reachable world *)

Definition params_ok (p : MarketParams) : Prop :=
  0 < mmRatioBps p < imRatioBps p /\ imRatioBps p <= MAX_IM_BPS /\ mmRatioBps p <= MAX_MM_BPS /\
  0 <= liqBonusBps p <= MAX_LIQ_BONUS_BPS /\ takerFeeBps p <= MAX_TAKER_FEE_BPS /\
  MIN_MAKER_REBATE_BPS <= makerRebateBps p <= MAX_MAKER_FEE_BPS.

Record wf (w : World T) : Prop := {
  wf_tracked : tracked (w_positions w);
  wf_prices : forall m, is_uint (mget (mo_prices (w_oracle w)) m) = true;
  wf_params : forall m, m ∈ mk_listed (w_markets w) -> params_ok (params_at (w_markets w) m);
}.

Definition keeps_wf : relation (World T) := fun w w' => wf w -> wf w'.

#[local] Instance keeps_wf_preorder : PreOrder keeps_wf.
Proof. split; unfold keeps_wf; [by intros w | intros a b c; auto]. Qed.

Definition registries (w : World T) := (w_positions w, w_oracle w, w_markets w).

Lemma same_keeps_wf {A} (m : Tx (World T) A) : pres (same registries) m -> pres keeps_wf m.
Proof.
  intros Hm w a w' E [? ? ?]. pose proof (Hm _ _ _ E) as Hs. unfold same, registries in Hs.
  injection Hs as E1 E2 E3. split; rewrite ?E1, ?E2, ?E3; done.
Qed.

Lemma wf_applyFill sender user m d x : is_int d = true -> is_uint x = true -> pres keeps_wf (applyFill sender user m d x).
Proof.
  intros Hd Hx w [rp fd] w' E [Ht Hp Hm]. destruct (applyFill_ok _ _ _ _ _ _ _ _ _ Ht Hd Hx E) as [Hw ? ? ? ? ? ? ?].
  rewrite Hw. by split.
Qed.

Ltac regs := apply same_keeps_wf; unfold_calls; pres_auto;
  first [by apply pres_token | apply pres_modify; intros; reflexivity].

Lemma wf_applySettlement sender user d : pres keeps_wf (applySettlement sender user d).
Proof. regs. Qed.
Lemma wf_toRaw d : pres keeps_wf (toRawUsdcDelta d).
Proof. apply same_keeps_wf. unfold_calls. pres_auto. Qed.
Lemma wf_onFill sender user m d r : pres keeps_wf (onFill sender user m d r).
Proof. regs. Qed.
Lemma wf_seize sender user l f b : pres keeps_wf (seizeForLiquidation sender user l f b).
Proof. regs. Qed.
Lemma wf_debit sender user l b : pres keeps_wf (debitToExternal sender user l b).
Proof. regs. Qed.
Lemma wf_health user m p : pres keeps_wf (healthFactor user m p).
Proof. apply same_keeps_wf. unfold_calls. pres_auto. Qed.
Lemma wf_active m : pres keeps_wf (isMarketActive m).
Proof. apply same_keeps_wf. unfold_calls. pres_auto. Qed.
Lemma wf_bonus m p s : pres keeps_wf (computeBonusUSDC m p s).
Proof. apply same_keeps_wf. unfold_calls. pres_auto. Qed.

#[local] Hint Resolve wf_applyFill wf_applySettlement wf_toRaw wf_onFill wf_seize wf_debit wf_health wf_active wf_bonus : frames.

Definition fill_args (f : Fill) : bool := is_int (f_sizeDelta f) && is_uint (f_priceX18 f) && is_int (f_fee f).

Lemma wf_settleFill hook f : fill_args f = true -> pres keeps_wf (settleFill hook f).
Proof.
  unfold fill_args. intros Hf. bool_to_prop. unfold settleFill, call_hook. pres_auto.
Qed.

Lemma tx_iter_pres {A} (f : A -> Tx (World T) unit) l :
  (forall a, a ∈ l -> pres keeps_wf (f a)) -> pres keeps_wf (tx_iter f l).
Proof.
  induction l as [|a l IH]; simpl; intros Hf; [apply pres_tx_ret; typeclasses eauto|].
  apply pres_tx_bind; [typeclasses eauto | apply Hf; by left|]. intros _. apply IH. intros b Hb. apply Hf. by right.
Qed.

Lemma wf_applyBatch fills nonce deadline sig :
  forallb fill_args fills = true -> pres keeps_wf (applyBatch fills nonce deadline sig).
Proof.
  intros Hf. unfold applyBatch. pres_step; [pres_auto|]. intros. repeat (pres_step; [pres_auto| intros]).
  all: try (apply tx_iter_pres; intros f Hin; apply wf_settleFill; rewrite forallb_forall in Hf; apply Hf; by apply list_elem_of_In).
  apply pres_modify. intros w [? ? ?]. by split.
Qed.

Lemma wf_price m : forall w p w', wf w -> priceX18 m w = inr (p, w') -> wf w' /\ is_uint p = true.
Proof. intros w p w' Hw E. unfold priceX18 in E. tx_inv E. split; [done | apply Hw]. Qed.

Lemma wf_closeAndSettle user m mark s : is_uint mark = true -> pres keeps_wf (closeAndSettle user m mark s).
Proof.
  intros Hm. unfold closeAndSettle. pres_step; [pres_auto|]. intros.
  eapply (pres_bind_dep wf (fun c => is_int c = true)).
  - intros w c w' Hw E. tx_inv E. done.
  - intros c Hc. pres_auto.
Qed.

Lemma wf_liquidate sender user m : pres keeps_wf (liquidate sender user m).
Proof.
  unfold liquidate. do 3 (pres_step; [pres_auto|]; intros).
  eapply (pres_bind_dep wf (fun p => is_uint p = true)); [apply wf_price|]. intros mark Hm.
  pose proof (wf_closeAndSettle user m mark). pres_auto.
Qed.

Lemma wf_adlOne m mark v c : is_uint mark = true -> is_int c = true -> pres keeps_wf (adlOne m mark v c).
Proof. intros Hm Hc. unfold adlOne. pres_auto. Qed.

Lemma wf_adl sender m vs cs : forallb is_int cs = true -> pres keeps_wf (adl sender m vs cs).
Proof.
  intros Hc. unfold adl, only. do 5 (pres_step; [pres_auto|]; intros).
  eapply (pres_bind_dep wf (fun p => is_uint p = true)); [apply wf_price|]. intros mark Hm.
  apply tx_iter_pres. intros [v c] Hin. apply wf_adlOne; [done|].
  rewrite forallb_forall in Hc. apply Hc, list_elem_of_In. by apply elem_of_zip_r in Hin.
Qed.

Lemma wf_oracle o w : wf w -> (forall m, is_uint (mget (mo_prices o) m) = true) -> wf (with_oracle o w).
Proof. intros [? ? ?] ?. by split. Qed.

Lemma wf_registry r w : wf w -> tracked r -> wf (with_positions r w).
Proof. intros [? ? ?] ?. by split. Qed.

Lemma price_insert (ps : gmap Z Z) k p : is_uint p = true ->
  (forall m, is_uint (mget ps m) = true) -> forall m, is_uint (mget (<[k := p]> ps) m) = true.
Proof.
  intros Hp Hps m. destruct (decide (k = m)) as [->|]; [by rewrite mget_insert_eq | by rewrite mget_insert_ne].
Qed.

Lemma wf_setPrices sender ms ps : forallb is_uint ps = true -> pres keeps_wf (setPrices sender ms ps).
Proof.
  intros Hps. unfold setPrices, only. do 3 (pres_step; [pres_auto|]; intros).
  apply tx_iter_pres. intros [m p] Hin. pres_auto. apply pres_modify. intros w Hw.
  apply wf_oracle; [done|]. apply price_insert; [|apply Hw].
  rewrite forallb_forall in Hps. apply Hps, list_elem_of_In. by apply elem_of_zip_r in Hin.
Qed.

Lemma validate_ok p w u w' : 0 <= imRatioBps p -> 0 <= mmRatioBps p -> 0 <= liqBonusBps p ->
  validate p w = inr (u, w') -> params_ok p /\ w' = w.
Proof.
  intros ? ? ? E. unfold validate in E. tx_inv E. bool_to_prop. unfold params_ok. split; [lia | done].
Qed.

Lemma wf_market (m : Bytes32) (p : MarketParams) l s w :
  wf w -> params_ok p -> (forall k, k ∈ s -> k = m \/ k ∈ mk_listed (w_markets w)) ->
  wf (with_markets (with_params l (<[m := p]> (mk_params (w_markets w))) s (w_markets w)) w).
Proof.
  intros [? ? Hm] Hp Hs. split; [done|done|]. intros k Hk. unfold params_at. cbn in *.
  destruct (decide (m = k)) as [->|]; [by rewrite fin_maps.lookup_insert_eq|].
  rewrite lookup_insert_ne by done. apply Hm. destruct (Hs k Hk); [congruence|done].
Qed.

Lemma wf_exec sender c : uint_args c = true -> pres keeps_wf (exec sender c).
Proof.
  destruct c; cbn [exec uint_args]; intros Hc; unfold void; try (by regs).
  - by apply wf_applyBatch.
  - bool_to_prop. pres_auto.
  - intros w u w' E Hw. unfold updateFunding in E. tx_inv E. apply wf_registry; [done|].
    destruct Hw as [[? ? ?] _ _]. by split.
  - intros w u w' E Hw. unfold setWiring, only, nonzero in E. tx_inv E. apply wf_registry; [done|].
    destruct Hw as [[? ? ?] _ _]. by split.
  - intros w u w' E Hw. unfold setFundingEngine, only, nonzero in E. tx_inv E. apply wf_registry; [done|].
    destruct Hw as [[? ? ?] _ _]. by split.
  - pres_auto. apply wf_liquidate.
  - by apply wf_adl.
  - intros w u w' E Hw. unfold applyFunding, isMarketActive, updateFunding, only in E. tx_inv E.
    all: destruct Hw as [[? ? ?] ? ?]; split; [by split|done|done].
  - intros w u w' E Hw. unfold setPrice, only in E. tx_inv E. apply wf_oracle; [done|].
    apply price_insert; [done | apply Hw].
  - by apply wf_setPrices.
  - intros w u w' E Hw. unfold listMarket, only in E. bool_to_prop. tx_inv E.
    match goal with Hv : validate _ _ = _ |- _ => apply validate_ok in Hv as [? ->]; try lia end.
    apply wf_market; [done|done|]. set_solver.
  - intros w u w' E Hw. unfold updateMarket, only in E. bool_to_prop. tx_inv E.
    match goal with Hv : validate _ _ = _ |- _ => apply validate_ok in Hv as [? ->]; try lia end.
    apply wf_market; [done|done|]. auto.
  - intros w u w' E Hw. unfold deactivateMarket, only in E. tx_inv E.
    apply wf_market; [done| |auto]. guards. by apply (wf_params _ Hw).
  - intros w u w' E Hw. unfold markets_transferOwnership, only, nonzero in E. tx_inv E.
    destruct Hw as [? ? ?]. by split.
Qed.

Lemma reach_wf w0 w : wf w0 -> reach w0 w -> wf w.
Proof.
  intros Hw. induction 1 as [|w sender c w' _ IH _ Hc E|w s b _ [? ? ?]]; [done| |by split].
  by eapply wf_exec.
Qed.

(** The contracts as their constructors leave them. *)
Record deployed (w : World T) : Prop := {
  dp_registry : pr_positions (w_positions w) = ∅ /\ pr_userMarkets (w_positions w) = ∅ /\
    pr_indexPlusOne (w_positions w) = ∅ /\ pr_funding (w_positions w) = ∅;
  dp_oracle : mo_prices (w_oracle w) = ∅;
  dp_markets : mk_listed (w_markets w) = ∅;
  dp_vault : v_balances (w_vault w) = ∅ /\ v_totalDeposits (w_vault w) = 0;
  dp_nonces : se_usedNonces (w_engine w) = ∅;
}.

Lemma deployed_wf w : deployed w -> wf w.
Proof.
  intros [(Hp & Hu & Hi & _) Ho Hm _ _]. split.
  - split.
    + intros user. split; [intros m; by rewrite Hi|]. intros i m. unfold markets_of. rewrite Hu, Hi, fin_maps.lookup_empty.
      split; [done|]. intros E. change (mget ∅ (user, m)) with 0 in E. lia.
    + intros user m. unfold markets_of, position_at. rewrite Hu, Hp. cbn. split; [by intros ?%elem_of_nil | done].
    + intros user m. unfold position_at. rewrite Hp. by split.
  - intros m. by rewrite Ho.
  - intros m. rewrite Hm. set_solver.
Qed.

(** C10: In every world that calls reach from a fresh deployment, the position
    registry is well formed: a user's market list has no duplicates and holds
    exactly the markets with an open position, an open position has a positive
    entry price, a flat one has none, sizes and prices fit their 256-bit types,
    and every listed market has a positive maintenance margin strictly below
    its initial margin, and every parameter (both margins, the liquidation
    bonus, the taker fee and the maker rebate) within the governance caps. *)
Theorem positions_well_formed (w0 w : World T) (user : Address) (m : Bytes32) :
  deployed w0 -> reach w0 w ->
  NoDup (markets_of (w_positions w) user) /\
  (m ∈ markets_of (w_positions w) user <-> size (position_at (w_positions w) user m) <> 0) /\
  pos_ok (position_at (w_positions w) user m) /\
  (m ∈ mk_listed (w_markets w) -> params_ok (params_at (w_markets w) m)).
Proof.
  intros Hd Hr. destruct (reach_wf _ _ (deployed_wf _ Hd) Hr) as [[Hix Hop Hpo] _ Hm].
  repeat split; try apply Hop; try apply Hpo; auto using indexed_NoDup; by apply Hm.
Qed.

(** C19: A fill the registry accepts adds its size to the position and keeps
    the account's value: at every mark price, realised profit plus the value of
    the new position equals the value of the old one plus that of the traded
    quantity, up to one unit of the truncated profit and the rounding of the
    average entry price.  No other position moves, the fill came from the
    settlement or the liquidation engine, and the registry is the only part of
    the chain that changed. *)
Theorem fill_keeps_value (w0 w w' : World T) sender user m d x rp fd :
  deployed w0 -> reach w0 w -> is_int d = true -> is_uint x = true ->
  applyFill sender user m d x w = inr ((rp, fd), w') ->
  size (position_at (w_positions w') user m) = size (position_at (w_positions w) user m) + d /\
  value_kept (position_at (w_positions w) user m) (position_at (w_positions w') user m) d x rp /\
  (forall u k, (u, k) <> (user, m) -> position_at (w_positions w') u k = position_at (w_positions w) u k) /\
  (sender = pr_settlementEngine (w_positions w) \/ sender = pr_liquidationEngine (w_positions w)) /\
  w' = with_positions (w_positions w') w.
Proof.
  intros Hd Hr Hi Hx E. pose proof (wf_tracked _ (reach_wf _ _ (deployed_wf _ Hd) Hr)) as Ht.
  destruct (applyFill_ok _ _ _ _ _ _ _ _ _ Ht Hi Hx E). auto.
Qed.

End fills.

(** ** A concrete run *)

Definition demo_crypto : Crypto := {|
  Signature := Z * Z;
  keccak_words := (fun l => fold_left (fun acc x => (acc * 31 + x) mod 2 ^ 256) l 7);
  keccak_text s := fold_left (fun acc c => (acc * 257 + Z.of_N (Ascii.N_of_ascii c)) mod 2 ^ 256) (String.list_ascii_of_string s) 0;
  hashTypedDataV4 d h := dm_chainId d + dm_contract d + h;
  ecrecover digest sg := if snd sg =? digest then Some (fst sg) else None;
  hook_accepts _ _ _ _ _ _ _ := true;
|}.
#[local] Existing Instance demo_crypto.

(** Addresses 1 to 8 are the contracts, 100 the deployer, 9 and 10 traders. *)
Definition demo_at : Addresses := mkAddresses 31337 1 2 3 4 5 6 7 8.

Definition demo_deploy : World ledger :=
  mkWorld demo_at (mkLedger ∅ ∅ 0) (mkOracle 100 ∅ ∅) (mkMarketRegistry 100 [] ∅ ∅)
    (mkPositionRegistry 0 0 0 0 100 ∅ ∅ ∅ ∅) (mkVault 4 6 ∅ 0) (mkEngine 100 100 0 ∅)
    (mkCounterparty 100 4 ∅ ∅ ∅ (mkPending 0 0)) 100 (mkFundingEngine 100 100 ∅) 100 1000 1.

Definition btc_params : MarketParams := mkParams 500 250 100 5 (-2) true.

(** The wiring and listing of the deployment script for one market, 77. *)
Definition demo_calls : list (Address * Call) :=
  [(100, CSetWiring 3 4 6); (100, CSetFillHook 5); (100, CSetCap 77 (100 * E18));
   (100, CListMarket 77 btc_params); (100, CSetPrices [77] [100000 * E18]);
   (9, CMint 9 (10 ^ 10)); (9, CApprove 3 (10 ^ 10)); (9, CDeposit (10 ^ 9))].

Fixpoint run_calls (cs : list (Address * Call)) : Tx (World ledger) unit :=
  match cs with
  | [] => mret tt
  | (sender, c) :: cs' => exec sender c ;; run_calls cs'
  end.

Definition world_after (cs : list (Address * Call)) (w : World ledger) : World ledger :=
  match run_calls cs w with inr (_, w') => w' | inl _ => w end.

Definition demo_world : World ledger := Eval vm_compute in world_after demo_calls demo_deploy.

Definition calls_ok (cs : list (Address * Call)) : bool :=
  forallb (fun '(s, c) => negb (s =? 3) && uint_args c) cs.

Lemma run_calls_reach cs w0 w w' : a_vault (w_at w) = 3 -> calls_ok cs = true -> reach w0 w ->
  run_calls cs w = inr (tt, w') -> reach w0 w'.
Proof.
  revert w. induction cs as [|[s c] cs IH]; cbn [run_calls calls_ok forallb]; intros w Hv Hok Hr E.
  - by apply ret_ok in E as [_ <-].
  - bool_to_prop. apply bind_ok in E. destruct E as ([] & w1 & E1 & E2).
    apply (IH w1); [|done| |done].
    + pose proof (frame_at s c _ _ _ E1) as Ha. unfold same in Ha. by rewrite Ha.
    + eapply reach_call; [done| |done|exact E1]. congruence.
Qed.

Lemma demo_reach : reach demo_deploy demo_world.
Proof.
  eapply (run_calls_reach demo_calls demo_deploy demo_deploy);
    [reflexivity | reflexivity | constructor | vm_compute; reflexivity].
Qed.

Lemma demo_deployed : deployed demo_deploy.
Proof. by split. Qed.

(** The trader of [demo_world] with a position of one BTC. *)
Definition demo_traded : World ledger :=
  Eval vm_compute in world_after [(4, CApplyFill 9 77 E18 (100000 * E18))] demo_world.

Lemma demo_traded_reach : reach demo_deploy demo_traded.
Proof.
  eapply (run_calls_reach [(4, CApplyFill 9 77 E18 (100000 * E18))] demo_deploy demo_world);
    [reflexivity | reflexivity | exact demo_reach | vm_compute; reflexivity].
Qed.

Lemma positions_well_formed_witness :
  markets_of (w_positions demo_traded) 9 = [77] /\ size (position_at (w_positions demo_traded) 9 77) <> 0 /\
  params_ok (params_at (w_markets demo_traded) 77).
Proof.
  destruct (positions_well_formed demo_deploy demo_traded 9 77 demo_deployed demo_traded_reach) as (_ & Hi & _ & Hp).
  split; [vm_compute; reflexivity|]. split; [apply Hi; vm_compute; left | apply Hp; vm_compute; reflexivity].
Defined.

Lemma fill_keeps_value_witness : exists w',
  applyFill 4 9 77 (5 * 10 ^ 17) (100000 * E18) demo_world = inr ((0, 0), w') /\
  size (position_at (w_positions w') 9 77) = 5 * 10 ^ 17.
Proof.
  eexists. split; [vm_compute; reflexivity|].
  refine (proj1 (fill_keeps_value demo_deploy demo_world _ 4 9 77 (5 * 10 ^ 17) (100000 * E18) 0 0
    demo_deployed demo_reach eq_refl eq_refl _)). vm_compute. reflexivity.
Defined.
