(* ===== verification/VaultThms.v ===== *)
(** * The vault, withdrawals and liquidations

    The collateral vault holds at least the tokens its books call deposits in
    every reachable world; a withdrawal goes through exactly when the
    documented margin rule allows it; a batch of fills settles once; and what a
    liquidation pays out. *)
From S2P Require Import Prelude Evm Contracts ChainSteps PositionThms.

Section vault.
Context {T : Type} `{Erc20 T, !Erc20Laws T, OzMath, !OzMathLaws, Crypto}.
Implicit Types w : World T.

(** ** Custody *)

Definition vault_tokens w : Z := balanceOf (w_token w) (a_vault (w_at w)).
Definition vault_balance w (user : Address) : Z := mget (v_balances (w_vault w)) user.

(** The vault, the counterparty and the fund live at different addresses. *)
Definition distinct (a : Addresses) : Prop := a_counterparty a <> a_vault a /\ a_fund a <> a_vault a /\ a_vault a <> 0.

Record custody w : Prop := {
  cu_distinct : distinct (w_at w);
  cu_total : 0 <= v_totalDeposits (w_vault w) <= vault_tokens w;
  cu_max : v_totalDeposits (w_vault w) <= UMAX;
  cu_balances : forall user, is_uint (vault_balance w user) = true;
  cu_allowance : forall s, allowance (w_token w) (a_vault (w_at w)) s <= 0;
}.

Definition keeps_custody : relation (World T) := fun w w' => custody w -> custody w'.

#[local] Instance keeps_custody_preorder : PreOrder keeps_custody.
Proof. split; unfold keeps_custody; [by intros w | intros a b c; auto]. Qed.

Definition held w := (w_at w, w_token w, w_vault w).

Lemma same_keeps_custody {A} (m : Tx (World T) A) : pres (same held) m -> pres keeps_custody m.
Proof.
  intros Hm w a w' E [? ? ? ? ?]. pose proof (Hm _ _ _ E) as Hs. unfold same, held in Hs.
  injection Hs as E1 E2 E3. unfold vault_tokens, vault_balance in *.
  split; unfold vault_tokens, vault_balance; rewrite ?E1, ?E2, ?E3; done.
Qed.

Lemma run_token_ok f w u w' : run_token f w = inr (u, w') -> exists t, f (w_token w) = Some t /\ w' = with_token t w.
Proof. unfold run_token. destruct (f (w_token w)); [|discriminate]. intros [= _ <-]. eauto. Qed.

Lemma shift_vault f to n a : 0 <= n -> f <> a -> 0 <= shift_balance f to n a.
Proof. intros ? ?. unfold shift_balance. repeat case_bool_decide; subst; try done; lia. Qed.

Lemma shift_any f to n a : 0 <= n -> - n <= shift_balance f to n a.
Proof. intros ?. unfold shift_balance. repeat case_bool_decide; lia. Qed.

Lemma custody_token t w : custody w -> vault_tokens w <= balanceOf t (a_vault (w_at w)) ->
  (forall s, allowance t (a_vault (w_at w)) s <= 0) -> custody (with_token t w).
Proof. intros [? ? ? ? ?] ? ?. split; try done. unfold vault_tokens in *. cbn in *. lia. Qed.

Lemma custody_mint to n : pres keeps_custody (run_token (tk_mint to n)).
Proof.
  intros w u w' E Hc. apply run_token_ok in E as (t & E & ->). apply custody_token; [done| |].
  - rewrite (tk_mint_balance _ _ _ _ E). unfold vault_tokens.
    pose proof (tk_amounts_unsigned 0 to 0 n _ _ (or_introl E)). case_bool_decide; lia.
  - intros s. rewrite (tk_mint_allowance _ _ _ _ E). apply Hc.
Qed.

Lemma custody_transferFrom s f to n : pres keeps_custody (run_token (tk_transferFrom s f to n)).
Proof.
  intros w u w' E Hc. apply run_token_ok in E as (t & E & ->).
  pose proof (tk_amounts_unsigned f to s n _ _ (or_intror (or_intror E))) as Hn.
  destruct (tk_transferFrom_allowance _ _ _ _ _ _ E) as [Ha Hle].
  apply custody_token; [done| |intros s'; etrans; [apply Hle | apply Hc]].
  rewrite (tk_transferFrom_balance _ _ _ _ _ _ E). fold (vault_tokens w).
  destruct (decide (f = a_vault (w_at w))) as [->|Hf].
  - pose proof (cu_allowance _ Hc s). pose proof (shift_any (a_vault (w_at w)) to n (a_vault (w_at w)) Hn). lia.
  - pose proof (shift_vault f to n _ Hn Hf). lia.
Qed.

Lemma custody_transfer f to n w t : tk_transfer f to n (w_token w) = Some t -> f <> a_vault (w_at w) ->
  custody w -> custody (with_token t w).
Proof.
  intros E Hf Hc. pose proof (tk_amounts_unsigned f to 0 n _ _ (or_intror (or_introl E))) as Hn.
  apply custody_token; [done| |].
  - rewrite (tk_transfer_balance _ _ _ _ _ E). fold (vault_tokens w). pose proof (shift_vault f to n _ Hn Hf). lia.
  - intros s. rewrite (tk_transfer_allowance _ _ _ _ _ E). apply Hc.
Qed.

Lemma custody_approve o s n w t : tk_approve o s n (w_token w) = Some t -> o <> a_vault (w_at w) ->
  custody w -> custody (with_token t w).
Proof.
  intros E Ho Hc. apply custody_token; [done| |].
  - by rewrite (proj2 (tk_approve_frame _ _ _ _ _ E)).
  - intros s'. rewrite (tk_approve_other _ _ _ _ _ E) by congruence. apply Hc.
Qed.

Lemma balance_insert (b : gmap Z Z) k v : is_uint v = true ->
  (forall u, is_uint (mget b u) = true) -> forall u, is_uint (mget (<[k := v]> b) u) = true.
Proof. apply price_insert. Qed.

(** Books and tokens change together. *)
Lemma custody_books b total t w : custody w -> (forall u, is_uint (mget b u) = true) ->
  0 <= total <= balanceOf t (a_vault (w_at w)) -> total <= UMAX -> (forall s, allowance t (a_vault (w_at w)) s <= 0) ->
  custody (with_token t (with_vault (with_balances b total (w_vault w)) w)).
Proof. intros [? ? ? ? ?] ? ? ? ?. by split. Qed.

Lemma custody_paid b n to w t : custody w -> (forall u, is_uint (mget b u) = true) ->
  is_uint (v_totalDeposits (w_vault w) - n) = true ->
  tk_transfer (a_vault (w_at w)) to n (w_token w) = Some t ->
  custody (with_token t (with_vault (with_balances b (v_totalDeposits (w_vault w) - n) (w_vault w)) w)).
Proof.
  intros Hc Hb Hn E. pose proof (tk_amounts_unsigned (a_vault (w_at w)) to 0 n _ _ (or_intror (or_introl E))) as Hn0.
  rewrite is_uint_iff in Hn. apply custody_books; [done|done| |lia|].
  - rewrite (tk_transfer_balance _ _ _ _ _ E). fold (vault_tokens w).
    pose proof (shift_any (a_vault (w_at w)) to n (a_vault (w_at w)) Hn0). pose proof (cu_total _ Hc). lia.
  - intros s. rewrite (tk_transfer_allowance _ _ _ _ _ E). apply Hc.
Qed.

Lemma custody_deposit sender n w u w' : sender <> a_vault (w_at w) -> custody w ->
  deposit sender n w = inr (u, w') -> custody w'.
Proof.
  intros Hs Hc E. unfold deposit in E. tx_inv E.
  match goal with Ht : run_token _ _ = _ |- _ => apply run_token_ok in Ht as (t & Htk & ->) end. cbn in *.
  destruct (tk_transferFrom_allowance _ _ _ _ _ _ Htk) as [_ Hle]. bool_to_prop.
  match goal with |- custody (with_vault ?v (with_token ?t ?w)) =>
    change (custody (with_token t (with_vault v w))) end.
  rewrite is_uint_iff in *. apply custody_books; [done| | |lia|intros s; etrans; [apply Hle | apply Hc]].
  - apply balance_insert; [by apply is_uint_iff | apply Hc].
  - rewrite (tk_transferFrom_balance _ _ _ _ _ _ Htk). unfold shift_balance.
    rewrite bool_decide_true, bool_decide_false by done. pose proof (cu_total _ Hc) as Hto. unfold vault_tokens in Hto. lia.
Qed.

Lemma custody_withdraw sender n : pres keeps_custody (withdraw sender n).
Proof.
  intros w u w' E Hc. unfold withdraw in E. tx_inv E.
  match goal with Hv : isWithdrawSafe _ _ _ = _ |- _ => apply view_isWithdrawSafe in Hv as -> end.
  apply run_token_ok in E as (t & E & ->). cbn in *.
  apply (custody_paid _ n sender); [done| |done|done]. apply balance_insert; [done | apply Hc].
Qed.

Lemma custody_applySettlement sender user d : pres keeps_custody (applySettlement sender user d).
Proof.
  intros w u w' E Hc. unfold applySettlement, toUint256 in E. tx_inv E; try done.
  all: destruct Hc as [? ? ? Hb ?]; split; try done; cbn; by apply balance_insert.
Qed.

(** Part of the tokens set aside for a payment under way. *)
Record reserved (k : Z) w : Prop := {
  rs_distinct : distinct (w_at w);
  rs_total : 0 <= v_totalDeposits (w_vault w) /\ v_totalDeposits (w_vault w) + k <= vault_tokens w;
  rs_max : v_totalDeposits (w_vault w) <= UMAX;
  rs_balances : forall user, is_uint (vault_balance w user) = true;
  rs_allowance : forall s, allowance (w_token w) (a_vault (w_at w)) s <= 0;
}.

Lemma reserved_custody k w : 0 <= k -> reserved k w -> custody w.
Proof. intros ? [? ? ? ? ?]. split; try done. lia. Qed.

Lemma reserved_pay k v to n w u w' : reserved k w -> v = a_vault (w_at w) -> 0 <= n ->
  (if 0 <? n then run_token (tk_transfer v to n) else mret tt) w = inr (u, w') ->
  reserved (k - n) w' /\ w_at w' = w_at w.
Proof.
  intros [? Ht ? ? Ha] -> Hn E. destruct (0 <? n) eqn:En; bool_to_prop.
  - apply run_token_ok in E as (t & E & ->). split; [|done]. split; try done.
    + unfold vault_tokens in *. cbn in *. rewrite (tk_transfer_balance _ _ _ _ _ E).
      pose proof (shift_any (a_vault (w_at w)) to n (a_vault (w_at w)) Hn). lia.
    + intros s. cbn. rewrite (tk_transfer_allowance _ _ _ _ _ E). apply Ha.
  - apply ret_ok in E as [_ <-]. split; [|done]. split; try done. lia.
Qed.

Lemma custody_seize sender user l f b : 0 <= b -> pres keeps_custody (seizeForLiquidation sender user l f b).
Proof.
  intros Hb w u w' E Hc. unfold seizeForLiquidation, only in E. tx_inv E.
  match type of E with context [if b <=? ?x then _ else _] => set (bal := x) in * end.
  destruct (if b <=? bal then _ else _) as [[bonus residual] shortfall] eqn:Es.
  apply bind_ok in E as ([] & w1 & E1 & E). apply bind_ok in E as ([] & w2 & E2 & E). apply ret_ok in E as [_ <-].
  match type of E1 with _ ?wb = _ => assert (Hr : reserved bal wb) end.
  { destruct Hc as [? Ht ? Hbal ?]. rewrite is_uint_iff in *. split; try done.
    - unfold vault_tokens in *. cbn. lia.
    - cbn. lia.
    - cbn. intros v. unfold vault_balance in *. cbn. by apply balance_insert. }
  assert (Hsum : 0 <= bonus /\ 0 <= residual /\ bonus + residual = bal).
  { assert (Hb0 : 0 <= bal) by (pose proof (cu_balances _ Hc user) as Hu; by apply is_uint_iff in Hu as [? _]).
    destruct (b <=? bal) eqn:Eb; bool_to_prop; injection Es as <- <- <-; lia. }
  destruct Hsum as (? & ? & Hsum).
  apply (reserved_pay bal) in E1 as [Hr1 Ha1]; [|done|done|done].
  apply (reserved_pay (bal - bonus)) in E2 as [Hr2 _]; [|done|by rewrite Ha1|done].
  eapply reserved_custody; [|exact Hr2]. lia.
Qed.

Lemma custody_debit sender user r n : pres keeps_custody (debitToExternal sender user r n).
Proof.
  intros w u w' E Hc. unfold debitToExternal, only, nonzero in E. tx_inv E; [done|].
  match goal with Ht : run_token _ _ = _ |- _ => apply run_token_ok in Ht as (t & Htk & ->) end. cbn in *.
  eapply custody_paid; [done| |done|exact Htk]. apply balance_insert; [done | apply Hc].
Qed.

Lemma custody_applyFill sender user m d x : pres keeps_custody (applyFill sender user m d x).
Proof.
  apply same_keeps_custody. unfold_calls. pres_auto. apply pres_modify. intros; reflexivity.
Qed.

Ltac holds := apply same_keeps_custody; unfold_calls; pres_auto; try (apply pres_modify; intros; reflexivity).

Lemma custody_onFill sender user m d r : pres keeps_custody (onFill sender user m d r).
Proof. holds. Qed.
Lemma custody_health user m p : pres keeps_custody (healthFactor user m p).
Proof. holds. Qed.
Lemma custody_active m : pres keeps_custody (isMarketActive m).
Proof. holds. Qed.
Lemma custody_price m : pres keeps_custody (priceX18 m).
Proof. holds. Qed.
Lemma custody_raw d : pres keeps_custody (toRawUsdcDelta d).
Proof. holds. Qed.

#[local] Hint Resolve custody_applySettlement custody_debit custody_applyFill custody_onFill custody_health
  custody_active custody_price custody_raw : frames.

Lemma custody_batch fills nonce deadline sig : pres keeps_custody (applyBatch fills nonce deadline sig).
Proof.
  unfold applyBatch, settleFill, call_hook. pres_auto. apply pres_modify. intros w [? ? ? ? ?]. by split.
Qed.

Lemma custody_liquidate sender user m : pres keeps_custody (liquidate sender user m).
Proof.
  unfold liquidate. do 8 (pres_step; [pres_auto|]; intros).
  eapply (pres_bind_dep custody (fun b => 0 <= b)).
  - intros w b w' Hc E. unfold computeBonusUSDC, getParams, notional_ in E. tx_inv E.
    split; [done|]. by match goal with Hu : is_uint (_ / USDC_TO_X18) = true |- _ => apply is_uint_iff in Hu as [? _] end.
  - intros b Hb. pose proof (custody_seize (a_liquidation a) user sender (a_fund a) b Hb). unfold closeAndSettle. pres_auto.
Qed.

Lemma custody_adl sender m vs cs : pres keeps_custody (adl sender m vs cs).
Proof. unfold adl, adlOne, only. pres_auto. Qed.

Lemma custody_exec sender c w w' : uint_args c = true -> sender <> a_vault (w_at w) -> custody w ->
  exec sender c w = inr (tt, w') -> custody w'.
Proof.
  intros Hc Hs Hw E. revert E Hw. destruct c; cbn [exec uint_args] in *; unfold void;
    try (solve [intros E; refine (same_keeps_custody _ _ _ _ _ E); unfold_calls; pres_auto;
                apply pres_modify; intros; reflexivity]).
  - apply custody_mint.
  - unfold approve. intros E Hw. apply run_token_ok in E as (t & E & ->). by eapply custody_approve.
  - intros E Hw. apply run_token_ok in E as (t & E & ->). by eapply custody_transfer.
  - apply custody_transferFrom.
  - intros E Hw. by eapply custody_deposit.
  - apply custody_withdraw.
  - apply custody_applySettlement.
  - apply is_uint_iff in Hc as [Hb _]. intros E. apply bind_ok in E as (x & w1 & E & [_ <-]%ret_ok). by eapply custody_seize.
  - intros E. apply bind_ok in E as (x & w1 & E & [_ <-]%ret_ok). by eapply custody_debit.
  - apply custody_batch.
  - intros E. apply bind_ok in E as (x & w1 & E & [_ <-]%ret_ok). by eapply custody_liquidate.
  - apply custody_adl.
  - unfold cp_deposit. intros E Hw. tx_inv E. by eapply custody_transferFrom.
  - unfold depositToVault, cp_owner_only, only. intros E Hw. tx_inv E.
    match goal with Ht : run_token _ _ = _ |- _ => apply run_token_ok in Ht as (t & Htk & ->) end.
    eapply custody_deposit; [| |exact E]; [apply Hw|]. eapply custody_approve; [exact Htk|apply Hw|done].
  - unfold executeWithdraw, cp_owner_only, only, nonzero, upd_counterparty. intros E Hw. tx_inv E.
    apply run_token_ok in E as (t & E & ->). cbn in *.
    eapply custody_transfer; [exact E|apply Hw|]. destruct Hw. by split.
  - unfold fund_deposit. intros E Hw. tx_inv E. by eapply custody_transferFrom.
  - unfold fund_withdraw, only, nonzero. intros E Hw. tx_inv E.
    apply run_token_ok in E as (t & E & ->). eapply custody_transfer; [exact E|apply Hw|done].
Qed.

(** A deployment whose vault has approved nobody. *)
Record fresh_chain w : Prop := {
  fc_deployed : deployed w;
  fc_distinct : distinct (w_at w);
  fc_allowance : forall s, allowance (w_token w) (a_vault (w_at w)) s <= 0;
}.

Lemma reach_custody w0 w : fresh_chain w0 -> reach w0 w -> custody w.
Proof.
  intros [[_ _ _ [Hb Ht] _] Hd Ha]. induction 1 as [|w sender c w' _ IH Hs Hc E|w s b _ [? ? ? ? ?]].
  - split; [done| | | |done].
    + rewrite Ht. split; [done|]. apply tk_balance_nonneg.
    + by rewrite Ht.
    + intros user. unfold vault_balance. by rewrite Hb.
  - by eapply custody_exec.
  - by split.
Qed.

(** C6: The vault never holds fewer tokens than its books count as deposits,
    whatever accounts call: in every world reached from a fresh deployment the
    token balance of the vault is at least totalDeposits, and no user's balance
    leaves the 256-bit range. *)
Theorem vault_holds_its_deposits (w0 w : World T) (user : Address) :
  fresh_chain w0 -> reach w0 w ->
  0 <= v_totalDeposits (w_vault w) <= vault_tokens w /\ 0 <= vault_balance w user <= UMAX.
Proof.
  intros Hf Hr. destruct (reach_custody _ _ Hf Hr) as [? Ht ? Hb ?]. split; [done|]. by apply is_uint_iff.
Qed.

(** ** Withdrawals *)

Definition paid_out (user : Address) (n : Z) w w' : Prop :=
  vault_balance w' user = vault_balance w user - n /\
  (forall u, u <> user -> vault_balance w' u = vault_balance w u) /\
  balanceOf (w_token w') user = balanceOf (w_token w) user + n /\
  v_totalDeposits (w_vault w') = v_totalDeposits (w_vault w) - n.

Lemma withdraw_pays sender n w w' : sender <> a_vault (w_at w) ->
  withdraw sender n w = inr (tt, w') -> paid_out sender n w w'.
Proof.
  intros Hs E. unfold withdraw in E. tx_inv E.
  match goal with Hv : isWithdrawSafe _ _ _ = _ |- _ => apply view_isWithdrawSafe in Hv as -> end.
  apply run_token_ok in E as (t & E & ->). unfold paid_out, vault_balance. cbn in *.
  rewrite mget_insert_eq, (tk_transfer_balance _ _ _ _ _ E). unfold shift_balance.
  rewrite bool_decide_true, bool_decide_false by done.
  repeat split; [|lia]. intros u Hu. by rewrite mget_insert_ne.
Qed.

(** In every reachable world a withdrawal is answered as follows: below
    the user's balance, safe by the registry's check and covered by the vault's
    total, it goes through and pays exactly the amount; otherwise it reverts
    with InsufficientBalance, with WithdrawalBlocked, or with the arithmetic
    panic of the books. *)
Theorem withdraw_branches (w0 w : World T) (user : Address) (n : Z) (safe : bool) :
  fresh_chain w0 -> reach w0 w -> user <> 0 -> user <> a_vault (w_at w) -> is_uint n = true ->
  isWithdrawSafe user n w = inr (safe, w) ->
  if vault_balance w user <? n then withdraw user n w = inl (Custom "InsufficientBalance")
  else if negb safe then withdraw user n w = inl (Custom "WithdrawalBlocked")
  else if v_totalDeposits (w_vault w) <? n then withdraw user n w = inl (Panic 17)
  else exists w', withdraw user n w = inr (tt, w') /\ paid_out user n w w'.
Proof.
  intros Hf Hr Hu Hv Hn Hsafe. destruct (reach_custody _ _ Hf Hr) as [(_ & _ & Hv0) Ht Hmax Hb _].
  specialize (Hb user). unfold vault_balance in *. apply is_uint_iff in Hn, Hb.
  set (bal := mget (v_balances (w_vault w)) user) in *.
  assert (Hrun : withdraw user n w =
    (revert_if (bal <? n) (Custom "InsufficientBalance") ;;
     revert_if (negb safe) (Custom "WithdrawalBlocked") ;;
     b ← usub bal n; t ← usub (v_totalDeposits (w_vault w)) n;
     modify (with_vault (with_balances (<[user := b]> (v_balances (w_vault w))) t (w_vault w))) ;;
     run_token (tk_transfer (a_vault (w_at w)) user n)) w).
  { unfold withdraw. rewrite !(bind_run (gets _) _ _ _ _ eq_refl). fold bal.
    destruct (bal <? n) eqn:E; [done|]. rewrite !(bind_run (revert_if _ _) _ w tt w) by done.
    by rewrite (bind_run _ _ _ _ _ Hsafe). }
  destruct (bal <? n) eqn:E1; [by rewrite Hrun|]. bool_to_prop.
  destruct safe; cbn [negb]; [|by rewrite Hrun].
  assert (Hsub : is_uint (bal - n) = true) by (apply is_uint_iff; lia).
  destruct (_ <? n) eqn:E2; bool_to_prop.
  - rewrite Hrun. cbn [negb revert_if]. unfold mbind, tx_bind, revert_if, usub, checked. rewrite Hsub. cbn.
    by replace (is_uint (v_totalDeposits (w_vault w) - n)) with false by (symmetry; apply not_true_iff_false; rewrite is_uint_iff; lia).
  - destruct (tk_transfer_total (a_vault (w_at w)) user n (w_token w)) as [t Htk]; [done|done|unfold vault_tokens in Ht; lia|].
    eexists. assert (E : withdraw user n w = inr (tt, with_token t (with_vault (with_balances
      (<[user := bal - n]> (v_balances (w_vault w))) (v_totalDeposits (w_vault w) - n) (w_vault w)) w))).
    { rewrite Hrun. unfold mbind, tx_bind, revert_if, usub, checked. rewrite Hsub. cbn.
      replace (is_uint (v_totalDeposits (w_vault w) - n)) with true by (symmetry; apply is_uint_iff; unfold UMAX in *; lia).
      cbn. unfold run_token. cbn. by rewrite Htk. }
    split; [exact E|]. by apply withdraw_pays.
Qed.

(** ** The margin rule of docs/margin-math.md, section 6 *)

Definition mark_of w (m : Bytes32) : Z := mget (mo_prices (w_oracle w)) m.

Definition upnl_of w (user : Address) (m : Bytes32) : Z :=
  let p := position_at (w_positions w) user m in Z.quot (size p * (mark_of w m - entryPriceX18 p)) E18.

Definition im_of w (user : Address) (m : Bytes32) : Z :=
  (Z.abs (size (position_at (w_positions w) user m)) * mark_of w m / E18)
  * imRatioBps (params_at (w_markets w) m) / 10000.

Lemma unrealisedPnl_ok p mark w u w' : pos_ok p -> is_uint mark = true ->
  unrealisedPnl_ p mark w = inr (u, w') -> u = Z.quot (size p * (mark - entryPriceX18 p)) E18 /\ w' = w.
Proof.
  intros Hp Hm E. unfold unrealisedPnl_ in E. destruct (size p =? 0) eqn:E0; bool_to_prop.
  - apply ret_ok in E as [<- <-]. by rewrite E0.
  - tx_inv E. repeat match goal with
    | Hc : toInt256 _ _ = inr _ |- _ => apply toInt256_ok in Hc; [|apply Hp || done]; destruct Hc as (-> & _ & ->)
    end. done.
Qed.

Lemma notional_ok sz mark w n w' : is_int sz = true -> notional_ sz mark w = inr (n, w') ->
  n = Z.abs sz * mark / E18 /\ w' = w.
Proof. intros Hs E. unfold notional_ in E. tx_inv E. by rewrite oz_abs_spec in *. Qed.

Lemma getParams_ok m w p w' : getParams m w = inr (p, w') ->
  p = params_at (w_markets w) m /\ m ∈ mk_listed (w_markets w) /\ w' = w.
Proof. intros E. unfold getParams in E. tx_inv E. guards. auto. Qed.

Lemma priceX18_ok m w p w' : priceX18 m w = inr (p, w') -> p = mark_of w m /\ w' = w /\ p <> 0.
Proof. intros E. unfold priceX18 in E. tx_inv E. bool_to_prop. auto. Qed.

Lemma withdraw_leg_ok user acc m w acc' w' : wf w ->
  withdraw_leg (w_positions w) user acc m w = inr (acc', w') ->
  acc' = (acc.1 + upnl_of w user m, acc.2 + im_of w user m) /\ w' = w /\
  (is_uint acc.2 = true -> is_uint (acc.2 + im_of w user m) = true).
Proof.
  intros Hw E. unfold withdraw_leg in E. destruct acc as [sU sI]. cbn [fst snd].
  destruct (size _ =? 0) eqn:E0; bool_to_prop.
  - apply ret_ok in E as [<- <-]. unfold upnl_of, im_of. rewrite E0. cbn. by rewrite !Z.add_0_r.
  - tx_inv E.
    match goal with Hg : getParams _ _ = _ |- _ => apply getParams_ok in Hg as (-> & _ & ->) end.
    match goal with Hg : priceX18 _ _ = _ |- _ => apply priceX18_ok in Hg as (-> & -> & _) end.
    match goal with Hg : unrealisedPnl_ _ _ _ = _ |- _ =>
      apply unrealisedPnl_ok in Hg as [-> ->]; [|apply (tr_pos _ (wf_tracked _ Hw))|apply (wf_prices _ Hw)] end.
    match goal with Hg : notional_ _ _ _ = _ |- _ =>
      apply notional_ok in Hg as [-> ->]; [|apply (po_size _ (tr_pos _ (wf_tracked _ Hw) user m))] end.
    done.
Qed.

Lemma withdraw_fold_ok user l : forall acc w acc' w', wf w ->
  tx_fold (withdraw_leg (w_positions w) user) acc l w = inr (acc', w') ->
  acc' = (acc.1 + zsum (upnl_of w user) l, acc.2 + zsum (im_of w user) l) /\ w' = w /\
  (is_uint acc.2 = true -> is_uint acc'.2 = true).
Proof.
  induction l as [|m l IH]; cbn [tx_fold]; intros acc w acc' w' Hw E.
  - apply ret_ok in E as [<- <-]. cbn. rewrite !Z.add_0_r. by destruct acc.
  - apply bind_ok in E as (acc1 & w1 & E1 & E2). apply withdraw_leg_ok in E1 as (-> & -> & Hu); [|done].
    apply IH in E2 as (-> & -> & Hu2); [|done]. rewrite !zsum_cons. cbn [fst snd] in *.
    split; [f_equal; lia | auto].
Qed.

Definition required_margin w (user : Address) (ms : list Bytes32) : Z := zsum (im_of w user) ms.

Definition equity_after w (user : Address) (n : Z) (ms : list Bytes32) : Z :=
  (vault_balance w user - n) * USDC_TO_X18 + zsum (upnl_of w user) ms.

Lemma zsum_flat w user (f : Bytes32 -> Z) ms : wf w -> NoDup ms ->
  (forall m, size (position_at (w_positions w) user m) <> 0 -> m ∈ ms) ->
  (forall m, size (position_at (w_positions w) user m) = 0 -> f m = 0) ->
  zsum f ms = zsum f (markets_of (w_positions w) user).
Proof.
  intros Hw Hnd Hall Hz. destruct (wf_tracked _ Hw) as [Hix Hop _].
  apply zsum_support; [by apply indexed_NoDup|done| |].
  - intros m Hm. apply Hall, Hop, Hm.
  - intros m _ Hm. apply Hz. destruct (Z.eq_dec (size (position_at (w_positions w) user m)) 0); [done|].
    by destruct Hm; apply Hop.
Qed.

(** The registry's withdrawal check decides the documented margin rule.
    For an amount within the user's balance it answers yes exactly when the
    balance left, plus the unrealised profit of all the user's open positions,
    covers the initial margin they require, whichever list of markets one sums
    over; so the market list it keeps loses no position. *)
Theorem withdraw_check_is_margin_rule (w0 w w' : World T) (user : Address) (n : Z) (safe : bool) (ms : list Bytes32) :
  fresh_chain w0 -> reach w0 w -> pr_collateralVault (w_positions w) = a_vault (w_at w) ->
  0 <= n <= vault_balance w user ->
  NoDup ms -> (forall m, size (position_at (w_positions w) user m) <> 0 -> m ∈ ms) ->
  isWithdrawSafe user n w = inr (safe, w') ->
  safe = (required_margin w user ms <=? equity_after w user n ms).
Proof.
  intros Hf Hr Hv Hn Hnd Hall E. pose proof (reach_wf _ _ (deployed_wf _ (fc_deployed _ Hf)) Hr) as Hw.
  pose proof (cu_distinct _ (reach_custody _ _ Hf Hr)) as (_ & _ & Hv0).
  unfold required_margin, equity_after.
  rewrite !(zsum_flat w user _ ms Hw Hnd Hall) by (intros m Hm; unfold im_of, upnl_of; by rewrite Hm).
  unfold isWithdrawSafe in E. apply bind_ok in E as (r & w1 & [<- <-]%gets_ok & E).
  destruct (length _ =? 0)%nat eqn:El.
  { apply ret_ok in E as [<- _]. apply Nat.eqb_eq, nil_length_inv in El. rewrite El. cbn.
    symmetry. apply Z.leb_le. unfold USDC_TO_X18. lia. }
  rewrite Hv in E. destruct (a_vault (w_at w) =? 0) eqn:E0; [bool_to_prop; done|].
  apply bind_ok in E as (bal & w1 & Eb & E).
  unfold vault_balance_of in Eb. rewrite !(bind_run (gets _) _ _ _ _ eq_refl), Hv, E0, Z.eqb_refl in Eb.
  tx_inv Eb. fold (vault_balance w1 user) in *.
  destruct (_ <? n) eqn:Elt; [bool_to_prop; lia|].
  apply bind_ok in E as ([sU sI] & w2 & Ef & E). apply withdraw_fold_ok in Ef as ([= -> ->] & -> & Hu); [|done].
  cbn [fst snd] in *. rewrite !Z.add_0_l in *. specialize (Hu eq_refl). tx_inv E.
  repeat match goal with
  | Hc : toInt256 _ _ = inr _ |- _ => apply toInt256_ok in Hc; [|done]; destruct Hc as (-> & _ & ->)
  end. done.
Qed.

(** ** Liquidations *)

Record settled (user : Address) (d : Z) w w' : Prop := {
  sd_world : w' = with_vault (w_vault w') w;
  sd_balance : vault_balance w' user = vault_balance w user + d;
  sd_others : forall u, u <> user -> vault_balance w' u = vault_balance w u;
  sd_total : v_totalDeposits (w_vault w') = v_totalDeposits (w_vault w);
  sd_engines : v_SETTLEMENT_ENGINE (w_vault w') = v_SETTLEMENT_ENGINE (w_vault w) /\
    v_LIQUIDATION_ENGINE (w_vault w') = v_LIQUIDATION_ENGINE (w_vault w);
  sd_uint : is_uint (vault_balance w' user) = true;
}.

Lemma settled_refl user w : custody w -> settled user 0 w w.
Proof. intros Hc. split; try done; [by destruct w | lia | apply Hc]. Qed.

Lemma applySettlement_ok sender user d w u w' : custody w -> is_int d = true ->
  applySettlement sender user d w = inr (u, w') -> settled user d w w'.
Proof.
  intros Hc Hd E. unfold applySettlement, toUint256 in E.
  apply bind_ok in E as (v & w1 & [<- <-]%gets_ok & E). apply bind_ok in E as (v & w1 & [_ <-]%revert_if_ok & E).
  destruct (d =? 0) eqn:E0; bool_to_prop.
  { apply ret_ok in E as [_ <-]. subst. by apply settled_refl. }
  destruct (0 <? d) eqn:E1; bool_to_prop; tx_inv E.
  - match goal with Hu : oz_toUint256 _ = Some _ |- _ => rewrite oz_toUint256_spec in Hu by done; destruct (d <? 0) eqn:?; [discriminate|]; injection Hu as <- end.
    split; try done; unfold vault_balance; cbn; rewrite ?mget_insert_eq; try done.
    intros v' Hv. by rewrite mget_insert_ne.
  - rewrite oz_abs_spec in * by done. rewrite (Z.abs_neq d) in * by lia.
    match goal with |- context [?x - - d] => replace (x - - d) with (x + d) in * by lia end.
    split; try done; unfold vault_balance; cbn; rewrite ?mget_insert_eq; try done.
    intros v' Hv. by rewrite mget_insert_ne.
Qed.

(** What the forced close of a whole position is worth, in token units. *)
Definition close_delta w (user : Address) (m : Bytes32) : Z :=
  let p := position_at (w_positions w) user m in
  let idx := mget (pr_funding (w_positions w)) m in
  let funding := if (size p =? 0) || (cumulativeFunding p =? idx) then 0
                 else - Z.quot ((idx - cumulativeFunding p) * size p) E18 in
  Z.quot (upnl_of w user m + funding) USDC_TO_X18.

Lemma closeAndSettle_ok user m w d w' : wf w -> custody w ->
  closeAndSettle user m (mark_of w m) (size (position_at (w_positions w) user m)) w = inr (d, w') ->
  d = close_delta w user m /\
  exists r, tracked r /\ size (position_at r user m) = 0 /\
    settled user d (with_positions r w) w'.
Proof.
  intros Hw Hc E. unfold closeAndSettle in E.
  apply bind_ok in E as (v & w1 & [<- <-]%gets_ok & E).
  apply bind_ok in E as (c & w1 & (Hi & -> & <-)%checked_ok & E).
  apply bind_ok in E as ([rp fd] & w1 & Ef & E).
  apply applyFill_ok in Ef; [|apply Hw|done|apply (wf_prices _ Hw)].
  destruct Ef as [Hw1 Ht _ _ Hsz _ Hcl Hfd _].
  apply bind_ok in E as (x & w2 & (_ & -> & <-)%checked_ok & E).
  apply bind_ok in E as (q & w2 & (_ & Hiq & -> & <-)%idiv_ok & E).
  rewrite Hcl in * by lia. cbv zeta in Hfd. rewrite Hfd in *.
  change (Z.quot (_ + _) USDC_TO_X18) with (close_delta w user m) in *.
  apply bind_ok in E as ([] & w3 & Es & [<- <-]%ret_ok).
  split; [done|]. exists (w_positions w1). split; [done|]. split; [lia|]. rewrite <- Hw1.
  assert (Hc1 : custody w1) by (rewrite Hw1; destruct Hc; by split).
  destruct (close_delta w user m =? 0) eqn:E0; cbn [negb] in Es; bool_to_prop.
  - apply ret_ok in Es as [_ <-]. rewrite E0. by apply settled_refl.
  - by apply applySettlement_ok in Es.
Qed.

(** The tokens a liquidation moves out of the vault. *)
Definition distributed w (liquidator fund : Address) (bonus residual : Z) w' : Prop :=
  forall a, balanceOf (w_token w') a
    = balanceOf (w_token w) a + shift_balance (a_vault (w_at w)) liquidator bonus a
      + shift_balance (a_vault (w_at w)) fund residual a.

Lemma transfer_pays n f to w u w' : 0 <= n ->
  (if 0 <? n then run_token (tk_transfer f to n) else mret tt) w = inr (u, w') ->
  w_vault w' = w_vault w /\ w_positions w' = w_positions w /\
  forall a, balanceOf (w_token w') a = balanceOf (w_token w) a + shift_balance f to n a.
Proof.
  intros Hn E. destruct (Z.ltb_spec 0 n) as [Hp|Hp].
  - apply run_token_ok in E as (t & Et & ->). split; [done|]. split; [done|]. apply (tk_transfer_balance _ _ _ _ _ Et).
  - apply ret_ok in E as [_ <-]. assert (n = 0) as -> by lia. split; [done|]. split; [done|]. intros a.
    unfold shift_balance. repeat case_bool_decide; lia.
Qed.

Lemma seize_ok sender user l f b w r w' : 0 <= b -> 0 <= vault_balance w user ->
  seizeForLiquidation sender user l f b w = inr (r, w') ->
  vault_balance w' user = 0 /\ w_positions w' = w_positions w /\ distributed w l f r.1.1 r.1.2 w' /\
  r = (if b <=? vault_balance w user then (b, vault_balance w user - b, 0)
       else (vault_balance w user, 0, b - vault_balance w user)).
Proof.
  intros Hb Hv E. unfold seizeForLiquidation, only in E. tx_inv E. unfold vault_balance in *.
  destruct (if b <=? _ then _ else _) as [[bonus residual] shortfall] eqn:Es.
  apply bind_ok in E as ([] & w1 & E1 & E). apply bind_ok in E as ([] & w2 & E2 & E). apply ret_ok in E as [<- <-].
  assert (Hpos : 0 <= bonus /\ 0 <= residual).
  { match type of Es with context [b <=? ?x] => destruct (Z.leb_spec b x) end; injection Es as <- <- <-; lia. }
  apply transfer_pays in E1 as (V1 & P1 & T1); [|apply Hpos]. apply transfer_pays in E2 as (V2 & P2 & T2); [|apply Hpos].
  rewrite V2, V1, P2, P1. cbn. rewrite mget_insert_eq. repeat split. intros who. cbn [fst snd]. by rewrite T2, T1.
Qed.

Lemma healthFactor_view user m p w h w' : healthFactor user m p w = inr (h, w') -> w' = w.
Proof. apply view_healthFactor. Qed.

Lemma active_view m w b w' : isMarketActive m w = inr (b, w') -> w' = w.
Proof. intros E. unfold isMarketActive in E. by tx_inv E. Qed.

Lemma computeBonus_ok user m w b w' : wf w ->
  computeBonusUSDC m (mark_of w m) (size (position_at (w_positions w) user m)) w = inr (b, w') ->
  b = (Z.abs (size (position_at (w_positions w) user m)) * mark_of w m / E18)
      * liqBonusBps (params_at (w_markets w) m) / 10000 / USDC_TO_X18 /\ 0 <= b /\ w' = w.
Proof.
  intros Hw E. unfold computeBonusUSDC in E.
  apply bind_ok in E as (p & w1 & (-> & _ & ->)%getParams_ok & E).
  apply bind_ok in E as (n & w1 & En & E).
  apply notional_ok in En as [-> ->]; [|apply (po_size _ (tr_pos _ (wf_tracked _ Hw) user m))].
  tx_inv E. split; [done|]. split; [|done].
  by match goal with Hu : is_uint (_ / USDC_TO_X18) = true |- _ => apply is_uint_iff in Hu as [? _] end.
Qed.

Definition bonus_due w (user : Address) (m : Bytes32) : Z :=
  (Z.abs (size (position_at (w_positions w) user m)) * mark_of w m / E18)
  * liqBonusBps (params_at (w_markets w) m) / 10000 / USDC_TO_X18.

Lemma liquidation_outcome (w0 w w' : World T) (sender user : Address) (m : Bytes32) bonus residual shortfall :
  fresh_chain w0 -> reach w0 w ->
  liquidate sender user m w = inr ((bonus, residual, shortfall), w') ->
  size (position_at (w_positions w) user m) <> 0 /\
  (exists hf, healthFactor user m (mark_of w m) w = inr (hf, w) /\ hf < E18) /\
  0 <= vault_balance w user + close_delta w user m /\
  bonus + residual = vault_balance w user + close_delta w user m /\
  bonus = Z.min (bonus_due w user m) (vault_balance w user + close_delta w user m) /\
  bonus + shortfall = bonus_due w user m /\
  size (position_at (w_positions w') user m) = 0 /\ vault_balance w' user = 0 /\
  distributed w sender (a_fund (w_at w)) bonus residual w'.
Proof.
  intros Hf Hr E. pose proof (reach_wf _ _ (deployed_wf _ (fc_deployed _ Hf)) Hr) as Hw.
  pose proof (reach_custody _ _ Hf Hr) as Hc. unfold liquidate, isMarketActive in E.
  apply bind_ok in E as (? & w1 & [<- <-]%gets_ok & E).
  apply bind_ok in E as (act & w1 & ->%active_view & E).
  apply bind_ok in E as (? & w1 & [_ <-]%revert_if_ok & E).
  apply bind_ok in E as (mark & w1 & (-> & -> & _)%priceX18_ok & E).
  apply bind_ok in E as (hf & w1 & Hh & E). pose proof (healthFactor_view _ _ _ _ _ _ Hh) as ->.
  apply bind_ok in E as (? & w1 & [Hlt <-]%revert_if_ok & E).
  apply bind_ok in E as (? & w1 & [<- <-]%gets_ok & E).
  apply bind_ok in E as (? & w1 & [Hnz <-]%revert_if_ok & E). bool_to_prop.
  apply bind_ok in E as (b & w1 & Hb & E). apply (computeBonus_ok user) in Hb as (Hbd & Hb0 & ->); [|done].
  fold (bonus_due w user m) in Hbd.
  apply bind_ok in E as (d & w1 & Hcl & E). apply closeAndSettle_ok in Hcl as (-> & r & _ & Hsz & Hset); [|done|done].
  pose proof (sd_balance _ _ _ _ Hset) as Hbal. pose proof (sd_uint _ _ _ _ Hset) as Hu. apply is_uint_iff in Hu as [Hu _].
  apply seize_ok in E as (Hz & Hp & Hpaid & Hres); [|done|done].
  rewrite (sd_world _ _ _ _ Hset) in Hpaid. change (distributed w sender (a_fund (w_at w)) (bonus, residual, shortfall).1.1 (bonus, residual, shortfall).1.2 w') in Hpaid. cbn [fst snd] in Hpaid.
  change (vault_balance (with_positions r w) user) with (vault_balance w user) in Hbal.
  split; [done|]. split; [by exists hf|]. assert (Hflat : size (position_at (w_positions w') user m) = 0) by (rewrite Hp, (sd_world _ _ _ _ Hset); exact Hsz).
  rewrite <- Hbal, <- Hbd. clear Hset Hp Hbd.
  destruct (b <=? _) eqn:Eb in Hres; bool_to_prop; injection Hres as -> -> ->; repeat split; try done; lia.
Qed.

(** C25: A liquidation that goes through found the position open and its
    health below one, closes it, and pays out all of the user's collateral:
    bonus and residual add up to the balance after the loss is settled, the
    bonus is the market's share of the notional as far as the balance reaches,
    the shortfall the rest of it; the user is left with nothing, and the tokens
    go from the vault to the liquidator (the bonus) and to the insurance fund
    (the residual) and to nobody else. *)
Theorem liquidation_distributes (w0 w w' : World T) (sender user : Address) (m : Bytes32) bonus residual shortfall :
  fresh_chain w0 -> reach w0 w ->
  liquidate sender user m w = inr ((bonus, residual, shortfall), w') ->
  size (position_at (w_positions w) user m) <> 0 /\
  (exists hf, healthFactor user m (mark_of w m) w = inr (hf, w) /\ hf < E18) /\
  0 <= vault_balance w user + close_delta w user m /\
  bonus + residual = vault_balance w user + close_delta w user m /\
  bonus = Z.min (bonus_due w user m) (vault_balance w user + close_delta w user m) /\
  bonus + shortfall = bonus_due w user m /\
  size (position_at (w_positions w') user m) = 0 /\ vault_balance w' user = 0 /\
  distributed w sender (a_fund (w_at w)) bonus residual w'.
Proof. apply liquidation_outcome. Qed.

(** An account whose loss exceeds its collateral cannot be liquidated:
    when closing the position would settle to less than nothing, every call to
    liquidate reverts, because the loss is debited from the vault before the
    shortfall is computed, and a debit beyond the balance reverts. *)
Theorem bankrupt_position_cannot_be_liquidated (w0 w : World T) (sender user : Address) (m : Bytes32) :
  fresh_chain w0 -> reach w0 w -> vault_balance w user + close_delta w user m < 0 ->
  exists e, liquidate sender user m w = inl e.
Proof.
  intros Hf Hr Hneg. destruct (liquidate sender user m w) as [e|[[[b rs] sf] w']] eqn:E; [by exists e|].
  destruct (liquidation_outcome _ _ _ _ _ _ _ _ _ Hf Hr E) as (_ & _ & ? & _). lia.
Qed.

(** ** Batches *)

Definition nonces_grow : relation (World T) := fun w w' => se_usedNonces (w_engine w) ⊆ se_usedNonces (w_engine w').

#[local] Instance nonces_grow_preorder : PreOrder nonces_grow.
Proof. split; unfold nonces_grow; [by intros w | intros a b c ? ?; etrans; eauto]. Qed.

Lemma grow_token g : pres nonces_grow (run_token g).
Proof. intros w u w' E. apply run_token_ok in E as (t & _ & ->). by unfold nonces_grow. Qed.

#[local] Hint Resolve grow_token : frames.

Lemma settleFill_nonces hook f : pres nonces_grow (settleFill hook f).
Proof. unfold_calls. pres_auto; apply pres_modify; intros; by unfold nonces_grow. Qed.

Lemma applyBatch_ok fills nonce deadline sig w w' : applyBatch fills nonce deadline sig w = inr (tt, w') ->
  fills <> [] /\ w_timestamp w <= deadline /\ nonce ∉ se_usedNonces (w_engine w) /\
  ecrecover (batch_digest (w_at w) fills nonce deadline) sig = Some (se_operator (w_engine w)) /\
  {[nonce]} ∪ se_usedNonces (w_engine w) ⊆ se_usedNonces (w_engine w').
Proof.
  intros E. unfold applyBatch in E.
  do 3 (apply bind_ok in E as (? & w1 & [<- <-]%gets_ok & E)).
  apply bind_ok in E as (? & w1 & [He <-]%revert_if_ok & E).
  apply bind_ok in E as (? & w1 & [Hd <-]%revert_if_ok & E).
  apply bind_ok in E as (? & w1 & [Hn <-]%revert_if_ok & E).
  apply bind_ok in E as (? & w1 & ->%modify_ok & E).
  apply bind_ok in E as (sg & w1 & [Hsg <-]%of_option_ok & E).
  apply bind_ok in E as (? & w1 & [Ho <-]%revert_if_ok & E). guards. subst sg.
  repeat split; try done; [by intros ->|].
  exact (pres_iter nonces_grow (settleFill _) fills (settleFill_nonces _) _ _ _ E).
Qed.

Lemma nonces_exec sender c : pres nonces_grow (exec sender c).
Proof.
  destruct c; try (solve [unfold exec, void; unfold_calls; pres_auto; apply pres_modify; intros; by unfold nonces_grow]);
    intros w0 [] w' E; cbn [exec] in E; unfold nonces_grow.
  - apply applyBatch_ok in E as (_ & _ & _ & _ & Hsub). etrans; [apply union_subseteq_r | exact Hsub].
  - unfold setOperator, only, nonzero in E. by tx_inv E.
  - unfold setFillHook, only in E. by tx_inv E.
  - unfold engine_transferOwnership, only, nonzero in E. by tx_inv E.
Qed.

Lemma nonces_reach w0 w : reach w0 w -> nonces_grow w0 w.
Proof.
  induction 1 as [|w sender c w' _ IH _ _ E|w sec b _ IH]; [reflexivity| |done].
  etransitivity; [exact IH | by eapply nonces_exec].
Qed.

(** C38: A batch of fills settles once and only under the operator's signature:
    when applyBatch goes through, the signature recovers to the operator over
    the digest of exactly these fills, the batch was not empty, not expired and
    its nonce not used; and in no world reached afterwards does any batch with
    that nonce go through again, whatever it carries. *)
Theorem batch_settles_once (w w' w'' : World T) fills nonce deadline sig fills2 deadline2 sig2 :
  applyBatch fills nonce deadline sig w = inr (tt, w') -> reach w' w'' ->
  ecrecover (batch_digest (w_at w) fills nonce deadline) sig = Some (se_operator (w_engine w)) /\
  fills <> [] /\ w_timestamp w <= deadline /\ nonce ∉ se_usedNonces (w_engine w) /\
  exists e, applyBatch fills2 nonce deadline2 sig2 w'' = inl e.
Proof.
  intros E Hr. destruct (applyBatch_ok _ _ _ _ _ _ E) as (? & ? & ? & ? & Hin).
  repeat split; try done. destruct (applyBatch fills2 nonce deadline2 sig2 w'') as [e|[[] w3]] eqn:E2; [by exists e|].
  destruct (applyBatch_ok _ _ _ _ _ _ E2) as (_ & _ & Hno & _). destruct Hno. apply (nonces_reach _ _ Hr), Hin. by apply elem_of_union_l, elem_of_singleton.
Qed.

End vault.

(** ** Concrete runs *)

#[local] Existing Instance demo_crypto.

Lemma demo_fresh : fresh_chain demo_deploy.
Proof. split; [apply demo_deployed | by split | done]. Qed.

Lemma vault_holds_its_deposits_witness : v_totalDeposits (w_vault demo_world) = 10 ^ 9 /\
  10 ^ 9 <= vault_tokens demo_world.
Proof.
  destruct (vault_holds_its_deposits demo_deploy demo_world 9 demo_fresh demo_reach) as [[_ Ht] _].
  split; [reflexivity | exact Ht].
Defined.

Lemma withdraw_branches_witness :
  exists w', withdraw 9 (4 * 10 ^ 8) demo_world = inr (tt, w') /\ vault_balance w' 9 = 6 * 10 ^ 8.
Proof.
  pose proof (withdraw_branches demo_deploy demo_world 9 (4 * 10 ^ 8) true demo_fresh demo_reach) as Hw.
  destruct Hw as (w' & E & Hp & _); [discriminate | discriminate | reflexivity | vm_compute; reflexivity |].
  exists w'. split; [exact E | exact Hp].
Defined.

(** The trader of [demo_world] buys one BTC at 100k through the engine. *)
Definition demo_fill : Fill := mkFill 9 77 E18 (100000 * E18) 0.
Definition demo_sig : Signature := (100, batch_digest demo_at [demo_fill] 1 2000).
Definition long_calls : list (Address * Call) := demo_calls ++ [(9, CApplyBatch [demo_fill] 1 2000 demo_sig)].
Definition long_world : World ledger := Eval vm_compute in world_after long_calls demo_deploy.

Lemma long_reach : reach demo_deploy long_world.
Proof.
  eapply (run_calls_reach long_calls demo_deploy demo_deploy);
    [reflexivity | reflexivity | constructor | vm_compute; reflexivity].
Qed.

Lemma withdraw_check_is_margin_rule_witness :
  isWithdrawSafe 9 (10 ^ 8) long_world = inr (false, long_world) /\
  (required_margin long_world 9 [77] <=? equity_after long_world 9 (10 ^ 8) [77]) = false.
Proof.
  split; [vm_compute; reflexivity|]. symmetry.
  apply (withdraw_check_is_margin_rule demo_deploy long_world long_world 9 (10 ^ 8) false [77] demo_fresh long_reach).
  - reflexivity.
  - vm_compute. split; discriminate.
  - apply NoDup_singleton.
  - intros m Hm. destruct (decide (m = 77)) as [->|Hne]; [by apply list_elem_of_singleton|].
    destruct Hm. unfold position_at. destruct (_ !! (9, m)) as [p|] eqn:E; [|reflexivity].
    apply elem_of_map_to_list in E. change (((9, m), p) ∈ [((9, 77), mkPos E18 (100000 * E18) 0 1)]) in E.
    apply list_elem_of_singleton in E. congruence.
  - vm_compute. reflexivity.
Defined.

(** The price halves: the trader's loss is far beyond the collateral. *)
Definition crash_calls : list (Address * Call) := long_calls ++ [(100, CSetPrice 77 (50000 * E18))].
Definition crash_world : World ledger := Eval vm_compute in world_after crash_calls demo_deploy.

Lemma crash_reach : reach demo_deploy crash_world.
Proof.
  eapply (run_calls_reach crash_calls demo_deploy demo_deploy);
    [reflexivity | reflexivity | constructor | vm_compute; reflexivity].
Qed.

Lemma bankrupt_position_cannot_be_liquidated_witness :
  healthFactor 9 77 (50000 * E18) crash_world = inr (0, crash_world) /\
  exists e, liquidate 10 9 77 crash_world = inl e.
Proof.
  split; [vm_compute; reflexivity|].
  apply (bankrupt_position_cannot_be_liquidated demo_deploy crash_world 10 9 77 demo_fresh crash_reach).
  vm_compute. reflexivity.
Defined.

(** A milder fall leaves something to distribute. *)
Definition dip_calls : list (Address * Call) := long_calls ++ [(100, CSetPrice 77 (99500 * E18))].
Definition dip_world : World ledger := Eval vm_compute in world_after dip_calls demo_deploy.

Lemma dip_reach : reach demo_deploy dip_world.
Proof.
  eapply (run_calls_reach dip_calls demo_deploy demo_deploy);
    [reflexivity | reflexivity | constructor | vm_compute; reflexivity].
Qed.

Lemma liquidation_distributes_witness : exists w',
  liquidate 10 9 77 dip_world = inr ((500000000, 0, 495000000), w') /\ vault_balance w' 9 = 0
  /\ balanceOf (w_token w') 10 = balanceOf (w_token dip_world) 10 + 500000000.
Proof.
  exists (world_after (dip_calls ++ [(10, CLiquidate 9 77)]) demo_deploy). split; [vm_compute; reflexivity|].
  pose proof (liquidation_distributes demo_deploy dip_world (world_after (dip_calls ++ [(10, CLiquidate 9 77)]) demo_deploy)
    10 9 77 500000000 0 495000000 demo_fresh dip_reach) as H.
  destruct H as (_ & _ & _ & _ & _ & _ & _ & Hz & Hp); [vm_compute; reflexivity|].
  split; [exact Hz|]. rewrite (Hp 10). vm_compute. reflexivity.
Defined.

Lemma batch_settles_once_witness :
  ecrecover (batch_digest demo_at [demo_fill] 1 2000) demo_sig = Some 100 /\
  exists e, applyBatch [demo_fill] 1 2000 demo_sig long_world = inl e.
Proof.
  destruct (batch_settles_once demo_world long_world long_world [demo_fill] 1 2000 demo_sig [demo_fill] 2000 demo_sig)
    as (Hs & _ & _ & _ & He); [vm_compute; reflexivity | constructor | split; [exact Hs | exact He]].
Defined.
