(* ===== verification/Scripts.v ===== *)
(** * The devnet scripts

    src/scripts: the helpers that load deployment files and ABIs and sign
    settlement batches, the seed script, the deposit smoke test and the Grafana
    dashboard check.  A script is a computation over the chain of Contracts.v
    that writes to the console and stops on an exit or an uncaught error
    ([Script]).

    The chain library the scripts import is the interface [Viem]; the file
    system and JSON.parse are arguments.  The contract a call goes to is the
    one the deployments file names for it; the file's addresses are used where
    the scripts pass them on. *)
From S2P Require Import Prelude JsNum JsText JsColl Evm Contracts ChainSteps.
From Stdlib Require Import Ascii.
#[local] Open Scope Z_scope.

(** ** src/scripts/lib/settlement.ts: the typed data of a batch *)

Inductive TdValue :=
| VWord (z : Z)
| VStruct (fields : list (string * TdValue))
| VArray (items : list TdValue).

Record TypedData := mkTypedData {
  td_domain : Domain;
  td_types : list (string * list (string * string));
  td_primaryType : string;
  td_message : TdValue;
}.

Definition TYPES : list (string * list (string * string)) :=
  [("Fill", [("user", "address"); ("marketId", "bytes32"); ("sizeDelta", "int256");
             ("priceX18", "uint256"); ("fee", "int256")]);
   ("Batch", [("nonce", "uint256"); ("deadline", "uint64"); ("fills", "Fill[]")])].

Definition fill_value (f : Fill) : TdValue :=
  VStruct [("user", VWord (f_user f)); ("marketId", VWord (f_marketId f)); ("sizeDelta", VWord (f_sizeDelta f));
           ("priceX18", VWord (f_priceX18 f)); ("fee", VWord (f_fee f))].

Definition batch_typed_data (chainId : Z) (engine : Address) (fills : list Fill) (nonce deadline : Z) : TypedData :=
  mkTypedData (mkDomain "Perplex" "1" chainId engine) TYPES "Batch"
    (VStruct [("nonce", VWord nonce); ("deadline", VWord deadline); ("fills", VArray (map fill_value fills))]).

(** *** EIP-712, the standard both sides follow *)

Fixpoint strip_array (ty : string) : string :=
  match ty with
  | "[]" => ""
  | String c s => String c (strip_array s)
  | EmptyString => ""
  end.

Definition type_text (types : list (string * list (string * string))) (name : string) : string :=
  name +:+ "(" +:+ str_join "," (map (fun '(n, t) => t +:+ " " +:+ n) (default [] (jm_get name types))) +:+ ")".

(** The struct types a type refers to, itself excluded. *)
Fixpoint referenced (fuel : nat) (types : list (string * list (string * string))) (seen : list string) (name : string) :
    list string :=
  match fuel with
  | O => seen
  | S k =>
      fold_left (fun seen '(_, t) =>
        let t' := strip_array t in
        if bool_decide (is_Some (jm_get t' types)) && negb (bool_decide (t' ∈ seen)) && negb (String.eqb t' name)
        then referenced k types (seen ++ [t']) t' else seen) (default [] (jm_get name types)) seen
  end.

Definition encodeType (types : list (string * list (string * string))) (name : string) : string :=
  type_text types name +:+
  str_join "" (map (type_text types) (js_sort (fun a b => String.ltb b a) (referenced (length types) types [] name))).

Section eip712.
Context `{Crypto}.

(** One member as a word: an atom is itself, a struct its hash, an array the
    hash of its encoded elements. *)
Fixpoint encode_value (types : list (string * list (string * string))) (v : TdValue) (ty : string) : Z :=
  match v with
  | VWord z => int_word z
  | VStruct fields =>
      let enc := map (fun nv => (fst nv, encode_value types (snd nv))) fields in
      keccak_words (keccak_text (encodeType types ty) ::
        map (fun '(n, t) => match jm_get n enc with Some f => f t | None => 0 end) (default [] (jm_get ty types)))
  | VArray items => keccak_words (map (fun v => encode_value types v (strip_array ty)) items)
  end.

Definition eip712_digest (td : TypedData) : Z :=
  hashTypedDataV4 (td_domain td) (encode_value (td_types td) (td_message td) (td_primaryType td)).

End eip712.

(** ** The chain library *)

Class Viem `{Crypto} := {
  privateKeyToAddress : string -> Address;
  parseUnits : string -> Z -> Z;
  toHex : string -> string;
  keccak256 : string -> Z;
  signTypedData : string -> TypedData -> Signature;
  revert_message : Revert -> string;
  showAddress : Address -> string;
}.

(** What its documentation promises: units are scaled by a power of ten, the
    hash of a hex-encoded text is the hash of the text, a signature over typed
    data recovers to the signing account, and the error of a failed call names
    the custom error. *)
Class ViemLaws `{Viem} : Prop := {
  parseUnits_spec : forall s n d, BigInt_of_string s = Ok n -> parseUnits s d = n * 10 ^ d;
  keccak256_toHex : forall s, keccak256 (toHex s) = keccak_text s;
  signTypedData_recovers : forall pk td,
    ecrecover (eip712_digest td) (signTypedData pk td) = Some (privateKeyToAddress pk);
  revert_message_names : forall name, str_includes name (revert_message (Custom name)) = true;
}.

(** ** src/scripts/lib: files and environment *)

Definition path_join (parts : list string) : string := str_join "/" parts.

(** The last component of a path, without the given extension. *)
Definition path_basename (path ext : string) : string :=
  let base := default "" (last (split_char "/"%char path)) in
  let keep := (String.length base - String.length ext)%nat in
  if String.eqb (str_drop keep base) ext && (1 <=? keep)%nat then str_take keep base else base.

Section files.
Context {Abi Json : Type} (files : string -> option string) (JSON_parse : string -> result Json).

(** [json.abi], present and truthy. *)
Context (json_abi : Json -> option Abi).

Definition loadAbi (ARTIFACT_ROOT sourceFile : string) (contractName : option string) : result Abi :=
  let name := default (path_basename sourceFile ".sol") contractName in
  let file := path_join [ARTIFACT_ROOT; sourceFile; name +:+ ".json"] in
  match files file with
  | None => throw_error ("ABI artefact missing: " +:+ file +:+ String "010"%char "Run: cd contracts && forge build")
  | Some text =>
      let! json := JSON_parse text in
      match json_abi json with
      | None => throw_error ("ABI missing in artefact " +:+ file)
      | Some abi => Ok abi
      end
  end.

Definition loadDeployments {D} (as_deployments : Json -> D) (REPO_ROOT network : string) : result D :=
  let file := path_join [REPO_ROOT; "deployments"; network +:+ ".json"] in
  match files file with
  | None => throw_error ("Deployments file not found: " +:+ file +:+ String "010"%char
      "Run: cd contracts && forge script script/Deploy.s.sol --rpc-url $RPC_URL --broadcast")
  | Some text => result_map as_deployments (JSON_parse text)
  end.

End files.

Record Deployments := mkDeployments {
  d_MockUSDC : Address;
  d_MockOracle : Address;
  d_MarketRegistry : Address;
  d_PositionRegistry : Address;
  d_CollateralVault : Address;
  d_SettlementEngine : Address;
  d_SyntheticCounterparty : Address;
  d_LiquidationEngine : Address;
  d_owner : Address;
  d_chainId : Z;
}.

Definition RPC_URL (env : option string) : string := default "http://localhost:8545" env.

Definition ANVIL_KEYS : list string := [
  "0xac0974bec39a17e36ba4a6b4d238ff944bacb478cbed5efcae784d7bf4f2ff80";
  "0x59c6995e998f97a5a0044966f0945389dc9e86dae88c7a8412f4603b6b78690d";
  "0x5de4111afa1a4b94908f83103eb1f1706367c2e68ca870fc3fb9a804cdab365a";
  "0x7c852118294e51e653712a81e05800f419141751be58f605c371e15141b007a6";
  "0x47e179ec197488593b187f80a00eb0da91f1b9d0b13f8733639f19c30a34926a";
  "0x8b3a350cf5c34c9194ca85829a2df0ec3153be0318b5e2d3348e872092edffba";
  "0x92db14e403b83dfe3df233f83dfa3a0d7096f21ca9b0d6d6b8d88b2b4ec1564e";
  "0x4bbbf85ce3377467afe5d46f804f221813b2bb87f24d81f60f1fcdbf7cbf4356";
  "0xdbda1821b80551c9d65939329250298aa3472ba22feea921c0cf5d620ea67b97";
  "0x2a871d0798f97d79848a013d4936a73bf4cc922c825d33c1cf7073dff6d409c6"].

(** ** Scripts *)

Inductive Stop :=
| Exit (code : Z)
| Uncaught (e : JsError).

Record Run (T : Type) := mkRun { rn_world : World T; rn_out : list string; rn_err : list string }.
Arguments mkRun {T}. Arguments rn_world {T}. Arguments rn_out {T}. Arguments rn_err {T}.

Definition Script (T A : Type) : Type := Run T -> (Stop + A) * Run T.

#[global] Instance script_ret T : MRet (Script T) := fun A a s => (inr a, s).
#[global] Instance script_bind T : MBind (Script T) := fun A B f m s =>
  match m s with
  | (inl e, s') => (inl e, s')
  | (inr a, s') => f a s'
  end.

Section scripts.
Context {T : Type} `{Erc20 T} `{OzMath} `{Viem}.
(** How far the chain's clock and height move when a transaction is mined. *)
Context (tick : World T -> N * N).

Definition log (line : string) : Script T unit := fun s => (inr tt, mkRun (rn_world s) (rn_out s ++ [line]) (rn_err s)).
Definition error (line : string) : Script T unit := fun s => (inr tt, mkRun (rn_world s) (rn_out s) (rn_err s ++ [line])).
Definition exit_ {A} (code : Z) : Script T A := fun s => (inl (Exit code), s).

Definition revert_error (e : Revert) : JsError := mkError "ContractFunctionExecutionError" (revert_message e).

Definition mined (w : World T) : World T := let '(s, b) := tick w in pass_time s b w.

(** A transaction sent and its receipt awaited; one that would revert is
    refused before it is sent and throws. *)
Definition writeContract {A} (tx : Tx (World T) A) : Script T unit := fun s =>
  match tx (rn_world s) with
  | inl e => (inl (Uncaught (revert_error e)), s)
  | inr (_, w') => (inr tt, mkRun (mined w') (rn_out s) (rn_err s))
  end.

Definition readContract {A} (view : Tx (World T) A) : Script T A := fun s =>
  match view (rn_world s) with
  | inl e => (inl (Uncaught (revert_error e)), s)
  | inr (a, _) => (inr a, s)
  end.

(** [try m catch handler]: an exit is not an exception. *)
Definition try_catch {A} (m : Script T A) (handler : JsError -> Script T A) : Script T A := fun s =>
  match m s with
  | (inl (Uncaught e), s') => handler e s'
  | r => r
  end.

Definition id_ (s : string) : Bytes32 := keccak256 (toHex s).

Definition signBatch (operatorPk : string) (chainId : Z) (settlementEngine : Address) (fills : list Fill)
    (nonce deadline : Z) : Signature :=
  signTypedData operatorPk (batch_typed_data chainId settlementEngine fills nonce deadline).

(** *** src/scripts/seed.ts *)

Definition TRADER_KEYS : list string := take 5 (drop 1 ANVIL_KEYS).
Definition MINT_AMT : Z := parseUnits "100000" 6.
Definition DEPOSIT_AMT : Z := parseUnits "50000" 6.

Definition bool_text (b : bool) : string := if b then "true" else "false".

Fixpoint for_each {A} (f : A -> Script T unit) (l : list A) : Script T unit :=
  match l with
  | [] => mret tt
  | a :: l' => f a ;; for_each f l'
  end.

Definition logMarketState : Script T unit :=
  for_each (fun marketKey =>
    act ← readContract (isMarketActive (id_ marketKey));
    price ← readContract (priceX18 (id_ marketKey));
    log ("  market " +:+ padEnd marketKey 8 " "%char +:+ " active=" +:+ bool_text act +:+ " price=" +:+ bigint_toString price))
    ["btc-usd"; "eth-usd"; "sol-usd"].

Definition seed_trader (d : Deployments) (key : string) : Script T unit :=
  let acct := privateKeyToAddress key in
  writeContract (mint acct MINT_AMT) ;;
  writeContract (approve acct (d_CollateralVault d) DEPOSIT_AMT) ;;
  writeContract (deposit acct DEPOSIT_AMT) ;;
  bal ← readContract (balances acct);
  log ("  trader " +:+ showAddress acct +:+ " vaultBalance=" +:+ bigint_toString bal).

Definition seed_main (d : Deployments) : Script T unit :=
  log "Seeding Perplex local devnet" ;;
  log ("  CollateralVault    " +:+ showAddress (d_CollateralVault d)) ;;
  log ("  PositionRegistry   " +:+ showAddress (d_PositionRegistry d)) ;;
  log ("  MarketRegistry     " +:+ showAddress (d_MarketRegistry d)) ;;
  log ("  MockOracle         " +:+ showAddress (d_MockOracle d)) ;;
  log ("  MockUSDC           " +:+ showAddress (d_MockUSDC d)) ;;
  log "" ;;
  logMarketState ;;
  log "" ;;
  for_each (seed_trader d) TRADER_KEYS ;;
  log (String "010"%char "Seed complete.").

(** [main().catch(e => { console.error(e); process.exit(1); })] *)
Definition run_main (main : Script T unit) : Script T unit :=
  try_catch main (fun e => error (err_message e) ;; exit_ 1).

(** *** src/scripts/smoke-deposit.ts *)

Definition DEPOSITOR_KEY : string := default "" (ANVIL_KEYS !! 9%nat).
Definition OPERATOR_KEY : string := default "" (ANVIL_KEYS !! 0%nat).

Definition assert_ (cond : bool) (msg : string) : Script T unit :=
  if negb cond then error ("ASSERTION FAILED: " +:+ msg) ;; exit_ 1 else mret tt.

Definition balanceOfVault (user : Address) : Script T Z := readContract (balances user).
Definition balanceOfUSDC (user : Address) : Script T Z := readContract (t ← gets w_token; mret (balanceOf t user)).

Definition smoke_fills (acct : Address) : list Fill :=
  [mkFill acct (id_ "btc-usd") (1 * 10 ^ 18) (100000 * 10 ^ 18) 0].

(** [now1], [now2]: what the two calls of Date.now() return, in milliseconds. *)
Definition smoke_deposit_main (d : Deployments) (now1 now2 : Z) : Script T unit :=
  let acct := privateKeyToAddress DEPOSITOR_KEY in
  log ("smoke-deposit: depositor = " +:+ showAddress acct) ;;
  let SEED := parseUnits "10000" 6 in
  let DEPOSIT := parseUnits "1000" 6 in
  let WITHDRAW := parseUnits "400" 6 in
  writeContract (mint acct SEED) ;;
  writeContract (approve acct (d_CollateralVault d) SEED) ;;
  vaultBefore ← balanceOfVault acct;
  usdcBefore ← balanceOfUSDC acct;
  writeContract (deposit acct DEPOSIT) ;;
  v1 ← balanceOfVault acct;
  assert_ (v1 =? vaultBefore + DEPOSIT) "vault balance did not increment by DEPOSIT" ;;
  u1 ← balanceOfUSDC acct;
  assert_ (u1 =? usdcBefore - DEPOSIT) "usdc balance did not decrement by DEPOSIT" ;;
  log ("  [1] deposit OK (+" +:+ bigint_toString DEPOSIT +:+ ")") ;;
  vaultPre2 ← balanceOfVault acct;
  usdcPre2 ← balanceOfUSDC acct;
  writeContract (withdraw acct WITHDRAW) ;;
  v2 ← balanceOfVault acct;
  assert_ (v2 =? vaultPre2 - WITHDRAW) "vault balance did not decrement by WITHDRAW" ;;
  u2 ← balanceOfUSDC acct;
  assert_ (u2 =? usdcPre2 + WITHDRAW) "usdc balance did not increment by WITHDRAW" ;;
  log ("  [2] withdraw OK (-" +:+ bigint_toString WITHDRAW +:+ ")") ;;
  let fills := smoke_fills acct in
  let nonce := now1 in
  let deadline := now2 / 1000 + 600 in
  let signature := signBatch OPERATOR_KEY (d_chainId d) (d_SettlementEngine d) fills nonce deadline in
  writeContract (applyBatch fills nonce deadline signature) ;;
  blocked ← try_catch (writeContract (withdraw acct (parseUnits "100" 6)) ;; mret false)
    (fun e =>
       assert_ (str_includes "WithdrawalBlocked" (err_message e))
         ("expected WithdrawalBlocked, got: " +:+ str_take 200 (err_message e)) ;;
       mret true);
  assert_ blocked "expected withdraw to revert after applyBatch, but it succeeded" ;;
  log "  [3] withdraw blocked after fill (WithdrawalBlocked) OK" ;;
  log (String "010"%char "smoke-deposit: PASS").

(** The third withdrawal is sent but its receipt is not awaited: the script
    only looks at whether sending throws. *)

End scripts.

(** *** src/scripts/smoke-trade.ts and smoke-liquidate.ts: placeholders *)

Definition smoke_trade {T} : Script T unit :=
  log "smoke-trade: matching engine arrives in Phase 3 — skipping for now" ;; exit_ 0.
Definition smoke_liquidate {T} : Script T unit :=
  log "smoke-liquidate: liquidator arrives in Phase 4 — skipping for now" ;; exit_ 0.
