(* ===== verification/ScriptsThms.v ===== *)
(** * What the scripts establish

    The batch the helper signs is the one the settlement engine recovers; the
    seed script funds every trader; the deposit smoke test passes on a correctly
    deployed chain and stops at the first wrong balance.  The statements are
    about every token, chain library and clock that keep the documented laws. *)
From S2P Require Import Prelude JsNum JsText JsColl Evm Contracts ChainSteps PositionThms VaultThms Scripts.
From Stdlib Require Import Ascii.
#[local] Open Scope Z_scope.

Section digest.
Context `{Crypto}.

(** The words of a fill are in range, as its Solidity types say. *)
Definition fill_words_ok (f : Fill) : bool :=
  is_uint (f_user f) && is_uint (f_marketId f) && is_uint (f_priceX18 f).

Lemma int_word_uint x : is_uint x = true -> int_word x = x.
Proof. intros Hx%is_uint_iff. unfold int_word, UMAX in *. apply Z.mod_small. lia. Qed.

Lemma fill_types : encodeType TYPES "Fill" = FILL_TYPE.
Proof. reflexivity. Qed.

Lemma batch_types : encodeType TYPES "Batch" = BATCH_TYPE.
Proof. reflexivity. Qed.

Lemma encode_fill f : fill_words_ok f = true -> encode_value TYPES (fill_value f) "Fill" = hashFill f.
Proof.
  intros Hf. unfold fill_words_ok in Hf. bool_to_prop.
  change (keccak_words [keccak_text (encodeType TYPES "Fill"); int_word (f_user f); int_word (f_marketId f);
    int_word (f_sizeDelta f); int_word (f_priceX18 f); int_word (f_fee f)] = hashFill f).
  rewrite fill_types. unfold hashFill.
  by rewrite (int_word_uint (f_user f)), (int_word_uint (f_marketId f)), (int_word_uint (f_priceX18 f)).
Qed.

Lemma digest_agrees (at_ : Addresses) (fills : list Fill) (nonce deadline : Z) :
  is_uint nonce = true -> is_uint deadline = true -> forallb fill_words_ok fills = true ->
  eip712_digest (batch_typed_data (a_chainid at_) (a_engine at_) fills nonce deadline)
  = batch_digest at_ fills nonce deadline.
Proof.
  intros Hn Hd Hf. unfold eip712_digest, batch_digest, batch_typed_data. cbn [td_domain td_types td_message td_primaryType].
  f_equal.
  change (keccak_words [keccak_text (encodeType TYPES "Batch"); int_word nonce; int_word deadline;
    keccak_words (map (fun v => encode_value TYPES v "Fill") (map fill_value fills))]
    = keccak_words [BATCH_TYPEHASH; nonce; deadline; hashFills fills]).
  rewrite batch_types, !int_word_uint by done. unfold hashFills. rewrite map_map.
  erewrite (map_ext_in _ hashFill); [done|]. intros f Hin. apply encode_fill.
  rewrite forallb_forall in Hf. by apply Hf.
Qed.

(** C22: The typed data signBatch hands to the wallet hashes, by the EIP-712
    rules, to exactly the digest SettlementEngine.applyBatch recovers the
    signer from: the type strings agree, and so do the encodings of the domain,
    the nonce, the deadline and every fill. *)
Theorem signed_digest_is_settled_digest (at_ : Addresses) (fills : list Fill) (nonce deadline : Z) :
  is_uint nonce = true -> is_uint deadline = true -> forallb fill_words_ok fills = true ->
  eip712_digest (batch_typed_data (a_chainid at_) (a_engine at_) fills nonce deadline)
  = batch_digest at_ fills nonce deadline.
Proof. apply digest_agrees. Qed.

End digest.

Section runs.
Context {T : Type} `{Erc20 T, !Erc20Laws T, OzMath, !OzMathLaws, Crypto, !Viem, !ViemLaws}.
Context (tick : World T -> N * N).
Implicit Types (w : World T) (s : Run T).

(** ** Single transactions that go through *)

(** What none of the transactions of an account touches. *)
Definition frame_of w := (w_at w, w_positions w, w_oracle w, w_markets w, w_engine w, w_counterparty w,
  v_SETTLEMENT_ENGINE (w_vault w), v_LIQUIDATION_ENGINE (w_vault w)).

(** The books around one account: its vault balance, its tokens, the vault's
    allowance from it, the token supply, the deposits and the vault's tokens. *)
Record books (user : Address) w (vb ub al su total vt : Z) : Prop := {
  bk_vault : vault_balance w user = vb;
  bk_token : balanceOf (w_token w) user = ub;
  bk_allow : allowance (w_token w) user (a_vault (w_at w)) = al;
  bk_supply : totalSupply (w_token w) = su;
  bk_total : v_totalDeposits (w_vault w) = total;
  bk_custody : vault_tokens w = vt;
}.

(** From [w] to [w']: only the account's books and the clock moved. *)
Record account_step (user : Address) w w' : Prop := {
  as_frame : frame_of w' = frame_of w;
  as_vault : forall u, u <> user -> vault_balance w' u = vault_balance w u;
  as_token : forall u, u <> user -> u <> a_vault (w_at w) -> balanceOf (w_token w') u = balanceOf (w_token w) u;
  as_time : w_timestamp w <= w_timestamp w';
}.

Lemma account_step_trans user w1 w2 w3 :
  account_step user w1 w2 -> account_step user w2 w3 -> account_step user w1 w3.
Proof.
  intros [F1 V1 T1 C1] [F2 V2 T2 C2]. assert (w_at w2 = w_at w1) as Ha by (unfold frame_of in F1; congruence).
  split; [congruence| | |lia].
  - intros u Hu. rewrite V2, V1; done.
  - intros u Hu Hv. rewrite T2, T1; try done. by rewrite Ha.
Qed.

Lemma mint_run user n w vb ub al su total vt : books user w vb ub al su total vt ->
  user <> 0 -> user <> a_vault (w_at w) -> 0 <= n -> su + n <= UMAX ->
  exists w', mint user n w = inr (tt, w') /\ account_step user w w' /\ w_timestamp w' = w_timestamp w /\
    books user w' vb (ub + n) al (su + n) total vt.
Proof.
  intros [Hv Hu Ha Hs Ht Hc] Hu0 Huv Hn Hsu. subst.
  destruct (tk_mint_total user n (w_token w)) as [t Et]; [done|done|done|].
  exists (with_token t w). split; [unfold mint, run_token; by rewrite Et|].
  pose proof (tk_mint_balance _ _ _ _ Et) as Hb.
  split; [|split; [done|]]; split; try done; cbn.
  - intros u Hne _. rewrite Hb, bool_decide_false by done. lia.
  - rewrite Hb, bool_decide_true by done. done.
  - apply (tk_mint_allowance _ _ _ _ Et).
  - apply (tk_mint_supply _ _ _ _ Et).
  - unfold vault_tokens. cbn. rewrite Hb, bool_decide_false by done. lia.
Qed.

Lemma approve_run user n w vb ub al su total vt : books user w vb ub al su total vt ->
  user <> 0 -> a_vault (w_at w) <> 0 ->
  exists w', approve user (a_vault (w_at w)) n w = inr (tt, w') /\ account_step user w w' /\
    w_timestamp w' = w_timestamp w /\ books user w' vb ub n su total vt.
Proof.
  intros [Hv Hu Ha Hs Ht Hc] Hu0 Hv0. subst.
  destruct (tk_approve_total user (a_vault (w_at w)) n (w_token w)) as [t Et]; [done|done|].
  exists (with_token t w). split; [unfold approve, run_token; by rewrite Et|].
  destruct (tk_approve_frame _ _ _ _ _ Et) as [Hsu Hb].
  split; [|split; [done|]]; split; try done; cbn; auto.
  - apply (tk_approve_allowance _ _ _ _ _ Et).
  - unfold vault_tokens. cbn. by rewrite Hb.
Qed.

Lemma deposit_run user n w vb ub al su total vt : books user w vb ub al su total vt ->
  user <> 0 -> a_vault (w_at w) <> 0 -> user <> a_vault (w_at w) -> 0 < n <= ub -> n <= al ->
  0 <= vb -> 0 <= total -> vb + n <= UMAX -> total + n <= UMAX ->
  exists w' al', deposit user n w = inr (tt, w') /\ account_step user w w' /\ w_timestamp w' = w_timestamp w /\
    books user w' (vb + n) (ub - n) al' su (total + n) (vt + n).
Proof.
  intros [Hv Hu Ha Hs Ht Hc] Hu0 Hv0 Huv Hn Hal Hvb Htot Hmax1 Hmax2. subst.
  destruct (tk_transferFrom_total (a_vault (w_at w)) user (a_vault (w_at w)) n (w_token w)) as [t Et];
    [done|done|done|lia|done|].
  pose proof (tk_transferFrom_balance _ _ _ _ _ _ Et) as Hb. unfold shift_balance in Hb.
  assert (Hr1 : is_uint (vault_balance w user + n) = true) by (apply is_uint_iff; lia).
  assert (Hr2 : is_uint (v_totalDeposits (w_vault w) + n) = true) by (apply is_uint_iff; lia).
  eexists (with_vault (with_balances (<[user := vault_balance w user + n]> (v_balances (w_vault w)))
    (v_totalDeposits (w_vault w) + n) (w_vault w)) (with_token t w)), _.
  split; [|split; [|split; [done|]]].
  - unfold deposit. rewrite (bind_run (gets _) _ _ _ _ eq_refl).
    rewrite (bind_run (require _ _) _ w tt w) by (unfold require, revert_if; by replace (0 <? n) with true by lia).
    rewrite (bind_run (run_token _) _ w tt (with_token t w)) by (unfold run_token; by rewrite Et).
    rewrite (bind_run (gets _) _ _ _ _ eq_refl). cbn [w_vault with_token]. fold (vault_balance w user).
    rewrite (bind_run (uadd (vault_balance w user) n) _ _ _ _ (checked_run is_uint _ _ Hr1)).
    by rewrite (bind_run (uadd (v_totalDeposits (w_vault w)) n) _ _ _ _ (checked_run is_uint _ _ Hr2)).
  - split; try done; cbn.
    + intros u Hne. unfold vault_balance. cbn. by rewrite mget_insert_ne.
    + intros u Hne Hnv. rewrite Hb, !bool_decide_false by done. lia.
  - split; cbn; try done.
    + unfold vault_balance. cbn. by rewrite mget_insert_eq.
    + rewrite Hb, bool_decide_false, bool_decide_true by done. lia.
    + apply (tk_transferFrom_supply _ _ _ _ _ _ Et).
    + unfold vault_tokens. cbn. rewrite Hb, bool_decide_true, bool_decide_false by done. lia.
Qed.

Lemma mined_step user w vb ub al su total vt : books user w vb ub al su total vt ->
  account_step user w (mined tick w) /\ books user (mined tick w) vb ub al su total vt.
Proof.
  intros [? ? ? ? ? ?]. unfold mined. destruct (tick w) as [sec blk].
  split; split; try done. cbn. lia.
Qed.

(** ** Running a script *)

Lemma script_bind_run {A B} (m : Script T A) (f : A -> Script T B) s a s' :
  m s = (inr a, s') -> (m ≫= f) s = f a s'.
Proof. intros E. unfold mbind, script_bind. by rewrite E. Qed.

Lemma script_bind_stop {A B} (m : Script T A) (f : A -> Script T B) s e s' :
  m s = (inl e, s') -> (m ≫= f) s = (inl e, s').
Proof. intros E. unfold mbind, script_bind. by rewrite E. Qed.

Lemma log_run {B} line (f : unit -> Script T B) s :
  (log line ≫= f) s = f tt (mkRun (rn_world s) (rn_out s ++ [line]) (rn_err s)).
Proof. done. Qed.

Lemma write_run {A B} (tx : Tx (World T) A) (f : unit -> Script T B) w out err a w' :
  tx w = inr (a, w') -> (writeContract tick tx ≫= f) (mkRun w out err) = f tt (mkRun (mined tick w') out err).
Proof. intros E. apply script_bind_run. unfold writeContract. cbn [rn_world]. by rewrite E. Qed.

Lemma read_run {A B} (view : Tx (World T) A) (f : A -> Script T B) w out err a w' :
  view w = inr (a, w') -> (readContract view ≫= f) (mkRun w out err) = f a (mkRun w out err).
Proof. intros E. apply script_bind_run. unfold readContract. cbn [rn_world]. by rewrite E. Qed.

Lemma balances_run user w : balances user w = inr (vault_balance w user, w).
Proof. done. Qed.

Lemma MINT_AMT_eq : MINT_AMT = 100000 * 10 ^ 6.
Proof. by apply parseUnits_spec. Qed.

Lemma DEPOSIT_AMT_eq : DEPOSIT_AMT = 50000 * 10 ^ 6.
Proof. by apply parseUnits_spec. Qed.

(** ** seed.ts *)

(** The accounts can be funded: real, distinct from the vault, and nothing
    overflows. *)
Record fundable (d : Deployments) w (accts : list Address) : Prop := {
  fu_vault : d_CollateralVault d = a_vault (w_at w) /\ a_vault (w_at w) <> 0;
  fu_nodup : NoDup accts;
  fu_accts : forall a, a ∈ accts -> a <> 0 /\ a <> a_vault (w_at w) /\ 0 <= vault_balance w a /\
    vault_balance w a + DEPOSIT_AMT <= UMAX;
  fu_total : 0 <= v_totalDeposits (w_vault w) /\
    v_totalDeposits (w_vault w) + Z.of_nat (length accts) * DEPOSIT_AMT <= UMAX;
  fu_supply : totalSupply (w_token w) + Z.of_nat (length accts) * MINT_AMT <= UMAX;
}.

Lemma seed_trader_run d key s : let a := privateKeyToAddress key in let w := rn_world s in
  fundable d w [a] ->
  exists s', seed_trader tick d key s = (inr tt, s') /\ account_step a w (rn_world s') /\
    vault_balance (rn_world s') a = vault_balance w a + DEPOSIT_AMT /\
    balanceOf (w_token (rn_world s')) a = balanceOf (w_token w) a + (MINT_AMT - DEPOSIT_AMT) /\
    totalSupply (w_token (rn_world s')) = totalSupply (w_token w) + MINT_AMT /\
    v_totalDeposits (w_vault (rn_world s')) = v_totalDeposits (w_vault w) + DEPOSIT_AMT.
Proof.
  destruct s as [w0 out err]. intros a w [[Hd Hv0] _ Ha Ht Hs]. cbn [rn_world] in w. destruct (Ha a) as (Ha0 & Hav & Hvb & Hmax); [by left|].
  cbn [length] in Ht, Hs. pose proof MINT_AMT_eq as HM. pose proof DEPOSIT_AMT_eq as HD.
  pose proof (tk_balance_nonneg (w_token w) a) as Hub.
  destruct (mint_run a MINT_AMT w _ _ _ _ _ _ (Build_books _ _ _ _ _ _ _ _ eq_refl eq_refl eq_refl eq_refl eq_refl eq_refl))
    as (w1 & E1 & S1 & _ & B1); [done|done|lia|lia|].
  destruct (mined_step a w1 _ _ _ _ _ _ B1) as [S1' B1']. pose proof (account_step_trans _ _ _ _ S1 S1') as S1t.
  assert (Hat1 : w_at (mined tick w1) = w_at w) by (pose proof (as_frame _ _ _ S1t) as F; unfold frame_of in F; congruence).
  destruct (approve_run a DEPOSIT_AMT _ _ _ _ _ _ _ B1') as (w2 & E2 & S2 & _ & B2); [done|by rewrite Hat1|].
  destruct (mined_step a w2 _ _ _ _ _ _ B2) as [S2' B2'].
  pose proof (account_step_trans _ _ _ _ S1t (account_step_trans _ _ _ _ S2 S2')) as S2t.
  assert (Hat2 : w_at (mined tick w2) = w_at w) by (pose proof (as_frame _ _ _ S2t) as F; unfold frame_of in F; congruence).
  destruct (deposit_run a DEPOSIT_AMT _ _ _ _ _ _ _ B2') as (w3 & al & E3 & S3 & _ & B3);
    rewrite ?Hat2; try done; try lia.
  destruct (mined_step a w3 _ _ _ _ _ _ B3) as [S3' B3'].
  pose proof (account_step_trans _ _ _ _ S2t (account_step_trans _ _ _ _ S3 S3')) as S3t.
  eexists. split.
  { unfold seed_trader. fold a. rewrite Hd, <- Hat1.
    rewrite (write_run _ _ _ _ _ _ _ E1), (write_run _ _ _ _ _ _ _ E2), (write_run _ _ _ _ _ _ _ E3).
    rewrite (read_run _ _ _ _ _ _ _ (balances_run _ _)). reflexivity. }
  cbn [rn_world]. destruct B3' as [V U _ S Tt _]. split; [exact S3t|]. rewrite V, U, S, Tt. lia.
Qed.

Lemma seed_traders_run d keys : forall s, let w := rn_world s in
  fundable d w (map privateKeyToAddress keys) ->
  exists s', for_each (seed_trader tick d) keys s = (inr tt, s') /\
    frame_of (rn_world s') = frame_of w /\
    (forall a, a ∈ map privateKeyToAddress keys ->
       vault_balance (rn_world s') a = vault_balance w a + DEPOSIT_AMT /\
       balanceOf (w_token (rn_world s')) a = balanceOf (w_token w) a + (MINT_AMT - DEPOSIT_AMT)) /\
    (forall a, a ∉ map privateKeyToAddress keys ->
       vault_balance (rn_world s') a = vault_balance w a /\
       (a <> a_vault (w_at w) -> balanceOf (w_token (rn_world s')) a = balanceOf (w_token w) a)).
Proof.
  induction keys as [|key keys IH]; intros s w Hf; cbn [for_each map].
  { exists s. split; [done|]. split; [done|]. split; [by intros a ?%elem_of_nil | done]. }
  cbn [map] in Hf. set (a := privateKeyToAddress key) in *.
  destruct Hf as [Hv Hnd Ha [Ht0 Ht] Hs]. apply NoDup_cons in Hnd as [Hnin Hnd].
  cbn [length] in Ht, Hs. pose proof MINT_AMT_eq as HM. pose proof DEPOSIT_AMT_eq as HD.
  destruct (seed_trader_run d key s) as (s1 & E1 & S1 & V1 & U1 & Su1 & To1); fold a w.
  { split; [done|apply NoDup_singleton| |cbn [length]; split; [done|lia]|cbn [length]; lia].
    intros b ->%list_elem_of_singleton. apply Ha. by left. }
  fold a w in S1, V1, U1, Su1, To1.
  pose proof (as_frame _ _ _ S1) as F1. assert (Hat : w_at (rn_world s1) = w_at w) by (unfold frame_of in F1; congruence).
  assert (Hne : forall b, b ∈ map privateKeyToAddress keys -> b <> a) by (intros b Hb ->; done).
  destruct (IH s1) as (s2 & E2 & F2 & I2 & O2).
  { split; [by rewrite Hat|done| |rewrite To1; split; lia|rewrite Su1; lia].
    intros b Hb. rewrite Hat, (as_vault _ _ _ S1) by auto. apply Ha. by right. }
  exists s2. split; [by rewrite (script_bind_run _ _ _ _ _ E1)|]. split; [congruence|]. split.
  - intros b [->|Hb]%elem_of_cons.
    + destruct (O2 a Hnin) as [V2 U2]. rewrite V2, U2, V1, U1; [done|]. rewrite Hat. apply (Ha a). by left.
    + destruct (I2 b Hb) as [V2 U2]. destruct (Ha b) as (_ & Hbv & _); [by right|].
      rewrite V2, U2, (as_vault _ _ _ S1), (as_token _ _ _ S1) by auto. done.
  - intros b Hb. apply not_elem_of_cons in Hb as [Hba Hb]. destruct (O2 b Hb) as [V2 U2].
    rewrite V2, (as_vault _ _ _ S1) by done. split; [done|]. intros Hbv.
    rewrite U2 by (by rewrite Hat). by rewrite (as_token _ _ _ S1).
Qed.

Lemma market_state_run s : (forall m, m ∈ ["btc-usd"; "eth-usd"; "sol-usd"] -> mark_of (rn_world s) (id_ m) <> 0) ->
  exists s', logMarketState s = (inr tt, s') /\ rn_world s' = rn_world s.
Proof.
  intros Hp.
  assert (Hr : forall m (w : World T), mark_of w (id_ m) <> 0 -> exists act, isMarketActive (id_ m) w = inr (act, w) /\
    priceX18 (id_ m) w = inr (mark_of w (id_ m), w)).
  { intros m w Hm. eexists. split; [reflexivity|]. unfold priceX18.
    rewrite (bind_run (gets _) _ _ _ _ eq_refl). fold (mark_of w (id_ m)). unfold mbind, tx_bind, revert_if.
    by replace (mark_of w (id_ m) =? 0) with false by lia. }
  unfold logMarketState. revert s Hp. generalize ["btc-usd"; "eth-usd"; "sol-usd"].
  induction l as [|m l IH]; intros s Hp; cbn [for_each]; [by exists s|].
  destruct (Hr m (rn_world s)) as (act & E1 & E2); [apply Hp; by left|].
  destruct s as [w0 out err]. cbn [rn_world rn_out rn_err] in *.
  erewrite script_bind_run; [|
    rewrite (read_run _ _ _ _ _ _ _ E1), (read_run _ _ _ _ _ _ _ E2); reflexivity].
  destruct (IH (mkRun w0 (out ++ ["  market " +:+ padEnd m 8 " "%char +:+ " active=" +:+ bool_text act
    +:+ " price=" +:+ bigint_toString (mark_of w0 (id_ m))]) err)) as (s' & E & Hw).
  { intros m' Hm'. apply Hp. by right. }
  exists s'. split; [exact E | exact Hw].
Qed.

(** The seed script funds every trader.  On a chain where the five trader
    accounts are distinct real accounts, the three markets have a price and no
    sum overflows, it runs to the end without an error; afterwards each trader
    has 50,000 USDC more in the vault and 50,000 more in the wallet, nobody
    else's vault balance or wallet moved, and no contract but the token and the
    vault changed, whatever the balances were before, so a second run credits
    the same amounts again. *)
Theorem seed_funds_traders (d : Deployments) (s : Run T) : let w := rn_world s in
  fundable d w (map privateKeyToAddress TRADER_KEYS) ->
  (forall m, m ∈ ["btc-usd"; "eth-usd"; "sol-usd"] -> mark_of w (id_ m) <> 0) ->
  exists s', run_main (seed_main tick d) s = (inr tt, s') /\ frame_of (rn_world s') = frame_of w /\
    (forall a, a ∈ map privateKeyToAddress TRADER_KEYS ->
       vault_balance (rn_world s') a = vault_balance w a + 50000 * 10 ^ 6 /\
       balanceOf (w_token (rn_world s')) a = balanceOf (w_token w) a + 50000 * 10 ^ 6) /\
    (forall a, a ∉ map privateKeyToAddress TRADER_KEYS ->
       vault_balance (rn_world s') a = vault_balance w a /\
       (a <> a_vault (w_at w) -> balanceOf (w_token (rn_world s')) a = balanceOf (w_token w) a)).
Proof.
  destruct s as [w0 out err]. intros w Hf Hp. cbn [rn_world] in w.
  unfold run_main, try_catch, seed_main. rewrite !log_run.
  match goal with |- context [(logMarketState ≫= _) ?s1] =>
    destruct (market_state_run s1 Hp) as (s2 & E2 & W2); rewrite (script_bind_run _ _ _ _ _ E2) end.
  rewrite log_run. cbn [rn_world] in W2.
  match goal with |- context [(for_each _ _ ≫= _) ?s1] =>
    destruct (seed_traders_run d TRADER_KEYS s1) as (s3 & E3 & F3 & I3 & O3);
      [cbn [rn_world]; by rewrite W2 | rewrite (script_bind_run _ _ _ _ _ E3)] end.
  cbn [rn_world] in *. rewrite W2 in *. eexists. split; [reflexivity|]. cbn [rn_world].
  split; [done|]. split; [|done]. intros a Ha. destruct (I3 a Ha) as [-> ->].
  by rewrite MINT_AMT_eq, DEPOSIT_AMT_eq.
Qed.

(** ** smoke-deposit.ts *)

Lemma withdraw_run user n w vb ub al su total vt : books user w vb ub al su total vt ->
  user <> 0 -> a_vault (w_at w) <> 0 -> user <> a_vault (w_at w) ->
  0 <= n <= vb -> n <= total -> n <= vt -> vb <= UMAX -> total <= UMAX ->
  isWithdrawSafe user n w = inr (true, w) ->
  exists w', withdraw user n w = inr (tt, w') /\ account_step user w w' /\ w_timestamp w' = w_timestamp w /\
    books user w' (vb - n) (ub + n) al su (total - n) (vt - n).
Proof.
  intros [Hv Hu Ha Hs Ht Hc] Hu0 Hv0 Huv Hn Hnt Hnv Hm1 Hm2 Hsafe. subst.
  destruct (tk_transfer_total (a_vault (w_at w)) user n (w_token w)) as [t Et]; [done|done|unfold vault_tokens in *; lia|].
  pose proof (tk_transfer_balance _ _ _ _ _ Et) as Hb. unfold shift_balance in Hb.
  assert (Hr1 : is_uint (vault_balance w user - n) = true) by (apply is_uint_iff; lia).
  assert (Hr2 : is_uint (v_totalDeposits (w_vault w) - n) = true) by (apply is_uint_iff; lia).
  exists (with_token t (with_vault (with_balances (<[user := vault_balance w user - n]> (v_balances (w_vault w)))
    (v_totalDeposits (w_vault w) - n) (w_vault w)) w)).
  split; [|split; [|split; [done|]]].
  - unfold withdraw. rewrite !(bind_run (gets _) _ _ _ _ eq_refl). fold (vault_balance w user).
    rewrite (bind_run (revert_if (vault_balance w user <? n) _) _ w tt w) by (unfold revert_if; by replace (_ <? n) with false by lia).
    rewrite (bind_run _ _ _ _ _ Hsafe). cbn [negb].
    rewrite (bind_run (revert_if false _) _ w tt w) by done.
    rewrite (bind_run (usub (vault_balance w user) n) _ _ _ _ (checked_run is_uint _ _ Hr1)).
    rewrite (bind_run (usub (v_totalDeposits (w_vault w)) n) _ _ _ _ (checked_run is_uint _ _ Hr2)).
    rewrite (bind_run (modify _) _ _ _ _ eq_refl). unfold run_token. cbn [w_token with_vault]. by rewrite Et.
  - split; try done; cbn.
    + intros u Hne. unfold vault_balance. cbn. by rewrite mget_insert_ne.
    + intros u Hne Hnv'. rewrite Hb, !bool_decide_false by done. lia.
  - split; cbn; try done.
    + unfold vault_balance. cbn. by rewrite mget_insert_eq.
    + rewrite Hb, bool_decide_true, bool_decide_false by done. lia.
    + apply (tk_transfer_allowance _ _ _ _ _ Et).
    + apply (tk_transfer_supply _ _ _ _ _ Et).
    + unfold vault_tokens. cbn. rewrite Hb, bool_decide_false, bool_decide_true by done. lia.
Qed.

Definition depositor : Address := privateKeyToAddress DEPOSITOR_KEY.
Definition btc : Bytes32 := id_ "btc-usd".

(** The devnet as the deployment script leaves it, with the depositor flat and
    not holding enough collateral for a 100,000 USDC position at 20x. *)
Record devnet (d : Deployments) w (now1 now2 : Z) : Prop := {
  dv_file : d_CollateralVault d = a_vault (w_at w) /\ d_SettlementEngine d = a_engine (w_at w) /\
    d_chainId d = a_chainid (w_at w);
  dv_addr : a_vault (w_at w) <> 0 /\ depositor <> 0 /\ depositor <> a_vault (w_at w) /\
    depositor <> a_counterparty (w_at w) /\ is_uint depositor = true /\ is_uint btc = true;
  dv_registry : tracked (w_positions w) /\ markets_of (w_positions w) depositor = [] /\
    pr_collateralVault (w_positions w) = a_vault (w_at w) /\ pr_settlementEngine (w_positions w) = a_engine (w_at w);
  dv_engine : se_operator (w_engine w) = privateKeyToAddress OPERATOR_KEY /\ now1 ∉ se_usedNonces (w_engine w) /\
    (se_fillHook (w_engine w) = 0 \/
     se_fillHook (w_engine w) = a_counterparty (w_at w) /\ sc_settlement (w_counterparty w) = a_engine (w_at w));
  dv_market : btc ∈ mk_listed (w_markets w) /\ active (params_at (w_markets w) btc) = true /\
    imRatioBps (params_at (w_markets w) btc) = 500 /\ mark_of w btc = 100000 * E18;
  dv_books : 0 <= vault_balance w depositor < 4500 * 10 ^ 6 /\ 0 <= v_totalDeposits (w_vault w) /\
    v_totalDeposits (w_vault w) + 10 ^ 10 <= UMAX /\ totalSupply (w_token w) + 10 ^ 10 <= UMAX;
  dv_clock : (forall w', (fst (tick w') <= 100)%N) /\ w_timestamp w <= now2 / 1000 /\
    is_uint now1 = true /\ is_uint (now2 / 1000 + 600) = true;
}.

Lemma checked_bind {B} ok x (f : Z -> Tx (World T) B) w : ok x = true -> (checked ok x ≫= f) w = f x w.
Proof. intros E. apply bind_run. by apply checked_run. Qed.

Lemma revert_if_bind {B} b e (f : unit -> Tx (World T) B) w : b = false -> (revert_if b e ≫= f) w = f tt w.
Proof. by intros ->. Qed.

Lemma gets_bind {A B} (g : World T -> A) (f : A -> Tx (World T) B) w : (gets g ≫= f) w = f (g w) w.
Proof. done. Qed.

(** The state after the registry opened a position for a flat account. *)
Record opened (user : Address) (m : Bytes32) (d x : Z) w w' : Prop := {
  op_world : w' = with_positions (w_positions w') w;
  op_wiring : pr_collateralVault (w_positions w') = pr_collateralVault (w_positions w);
  op_markets : markets_of (w_positions w') user = [m];
  op_position : size (position_at (w_positions w') user m) = d /\ entryPriceX18 (position_at (w_positions w') user m) = x;
}.

Lemma open_run sender user m d x w : tracked (w_positions w) -> markets_of (w_positions w) user = [] ->
  sender = pr_settlementEngine (w_positions w) -> m ∈ mk_listed (w_markets w) ->
  active (params_at (w_markets w) m) = true -> user <> 0 -> d <> 0 -> is_int d = true -> 0 < x ->
  exists w', applyFill sender user m d x w = inr ((0, 0), w') /\ opened user m d x w w'.
Proof.
  intros Htr Hmk Hs Hl Ha Hu Hd Hi Hx.
  assert (Hflat : size (position_at (w_positions w) user m) = 0).
  { destruct (Z.eq_dec (size (position_at (w_positions w) user m)) 0); [done|].
    apply (tr_open _ Htr) in n. rewrite Hmk in n. by apply elem_of_nil in n. }
  set (p := mkPos d x (mget (pr_funding (w_positions w)) m) (to_uint64 (w_number w))).
  exists (with_positions (store_position user m p (w_positions w)) w). split.
  - unfold applyFill, isMarketActive, require. rewrite !gets_bind.
    rewrite revert_if_bind by (rewrite Hs, Z.eqb_refl; done).
    rewrite (bind_run _ _ w true w) by (rewrite gets_bind; by rewrite bool_decide_true, Ha).
    rewrite !revert_if_bind by (try done; apply negb_false_iff; try apply negb_true_iff; lia).
    unfold settleFunding, applyVwap. rewrite Hflat. cbn [Z.eqb orb].
    rewrite (bind_run _ _ w _ w eq_refl). cbn [size entryPriceX18 cumulativeFunding lastUpdatedBlock]. unfold iadd. rewrite ?Hflat, ?Z.add_0_l.
    erewrite (bind_run _ _ w); [|rewrite (checked_bind is_int) by done; by replace (d =? 0) with false by lia].
    cbv beta iota. rewrite gets_bind. cbn [size entryPriceX18 cumulativeFunding lastUpdatedBlock].
    replace (d =? 0) with false by lia. rewrite (bind_run (modify _) _ _ _ _ eq_refl).
    unfold store_position. cbn [size p]. by replace (d =? 0) with false by lia.
  - assert (Hsz : size p =? 0 = false) by (cbn; lia).
    split; [done| | |].
    + cbn [w_positions with_positions]. unfold store_position. rewrite Hsz. unfold trackUserMarket. by destruct (negb _).
    + cbn [w_positions with_positions]. unfold store_position. rewrite Hsz.
      change (markets_of (trackUserMarket user m (w_positions w)) user = [m]).
      rewrite track_markets by apply Htr. rewrite decide_True, Hmk by done. rewrite decide_False; [done|]. by intros ?%elem_of_nil.
    + cbn [w_positions with_positions]. by rewrite store_position_at, decide_True.
Qed.

Lemma batch_run user m d x w nonce deadline sig :
  tracked (w_positions w) -> markets_of (w_positions w) user = [] ->
  pr_settlementEngine (w_positions w) = a_engine (w_at w) -> m ∈ mk_listed (w_markets w) ->
  active (params_at (w_markets w) m) = true -> user <> 0 -> user <> a_counterparty (w_at w) ->
  d <> 0 -> is_int d = true -> 0 < x ->
  (se_fillHook (w_engine w) = 0 \/
   se_fillHook (w_engine w) = a_counterparty (w_at w) /\ sc_settlement (w_counterparty w) = a_engine (w_at w)) ->
  w_timestamp w <= deadline -> nonce ∉ se_usedNonces (w_engine w) ->
  ecrecover (batch_digest (w_at w) [mkFill user m d x 0] nonce deadline) sig = Some (se_operator (w_engine w)) ->
  exists w' w1, applyBatch [mkFill user m d x 0] nonce deadline sig w = inr (tt, w') /\
    opened user m d x w1 w' /\ w1 = with_engine (w_engine w1) w.
Proof.
  intros Htr Hmk Hse Hl Ha Hu Huc Hd Hi Hx Hh Ht Hn Hsig.
  set (w1 := with_engine (mkEngine (se_owner (w_engine w)) (se_operator (w_engine w)) (se_fillHook (w_engine w))
    ({[nonce]} ∪ se_usedNonces (w_engine w))) w).
  destruct (open_run (a_engine (w_at w)) user m d x w1) as (w2 & E2 & O2); try done.
  exists w2, w1. split; [|split; [exact O2|done]].
  unfold applyBatch. rewrite !gets_bind. cbn [length Nat.eqb].
  rewrite !revert_if_bind by (try done; try lia; by apply bool_decide_eq_false).
  rewrite (bind_run (modify _) _ _ _ _ eq_refl). fold w1.
  rewrite (bind_run (of_option _ _) _ _ (se_operator (w_engine w)) w1) by (unfold of_option; by rewrite Hsig).
  rewrite revert_if_bind by (by rewrite Z.eqb_refl). cbn [tx_iter].
  erewrite (bind_run _ _ w1); [reflexivity|]. unfold settleFill. rewrite gets_bind.
  cbn [f_user f_marketId f_sizeDelta f_priceX18 f_fee]. rewrite (bind_run _ _ _ _ _ E2). cbv beta iota.
  unfold iadd. rewrite !(checked_bind is_int) by done.
  change (0 + 0 + 0 =? 0) with true. cbn [negb].
  rewrite (bind_run (mret tt) _ w2 tt w2) by done. unfold call_hook. rewrite !gets_bind.
  assert (Hw2 : w_at w2 = w_at w /\ w_counterparty w2 = w_counterparty w) by (by rewrite (op_world _ _ _ _ _ _ O2)).
  destruct Hw2 as (Hat & Hcp). destruct (se_fillHook (w_engine w) =? 0) eqn:E0; [done|]. bool_to_prop.
  destruct Hh as [?|[-> Hst]]; [done|]. rewrite Hat, Z.eqb_refl.
  unfold onFill, only. rewrite !gets_bind, Hcp, ?Hat, revert_if_bind by (by rewrite Hst, Z.eqb_refl).
  cbn [f_user]. rewrite (proj2 (Z.eqb_neq _ _) Huc). done.
Qed.

Lemma toInt256_run {B} x (f : Z -> Tx (World T) B) w : 0 <= x <= IMAX -> (toInt256 x ≫= f) w = f x w.
Proof.
  intros Hx. apply bind_run. unfold toInt256, of_option. rewrite oz_toInt256_spec by (apply is_uint_iff; unfold IMAX, UMAX in *; lia).
  by replace (x <=? IMAX) with true by lia.
Qed.

(** One BTC bought at the mark needs 5,000 USDC of initial margin. *)
Lemma leg_run user w : size (position_at (w_positions w) user btc) = E18 ->
  entryPriceX18 (position_at (w_positions w) user btc) = 100000 * E18 ->
  btc ∈ mk_listed (w_markets w) -> imRatioBps (params_at (w_markets w) btc) = 500 -> mark_of w btc = 100000 * E18 ->
  withdraw_leg (w_positions w) user (0, 0) btc w = inr ((0, 5000 * E18), w).
Proof.
  intros Hs He Hl Him Hp. unfold withdraw_leg. rewrite Hs. change (E18 =? 0) with false. cbv iota.
  unfold getParams, priceX18, unrealisedPnl_, notional_.
  rewrite (bind_run _ _ w (params_at (w_markets w) btc) w)
    by (rewrite gets_bind, revert_if_bind; [done | by rewrite bool_decide_true]).
  rewrite (bind_run _ _ w (100000 * E18) w)
    by (rewrite gets_bind; fold (mark_of w btc); rewrite Hp; by rewrite revert_if_bind).
  rewrite Hs, He, Him. change (E18 =? 0) with false. cbv iota.
  assert (Hr : 0 <= 100000 * E18 <= IMAX) by (split; by vm_compute).
  rewrite (bind_run (toInt256 (100000 * E18) ≫= _) _ w 0 w).
  2:{ rewrite !toInt256_run by exact Hr. unfold isub, imul. rewrite (checked_bind is_int) by (by vm_compute).
      rewrite (checked_bind is_int) by (by vm_compute). unfold idiv. change (E18 =? 0) with false. cbv iota.
      rewrite (checked_run is_int) by (by vm_compute). by vm_compute. }
  unfold iadd, uadd. rewrite (checked_bind is_int) by (by vm_compute).
  rewrite oz_abs_spec by (by vm_compute).
  rewrite (bind_run (umul _ _ ≫= _) _ w (100000 * E18) w).
  2:{ unfold umul. rewrite (checked_bind is_uint) by (by vm_compute). unfold udiv. change (E18 =? 0) with false. cbv iota.
      rewrite (checked_run is_uint) by (by vm_compute). by vm_compute. }
  unfold umul, udiv. rewrite (checked_bind is_uint) by (by vm_compute). change (10000 =? 0) with false. cbv iota.
  rewrite (checked_bind is_uint) by (by vm_compute). rewrite (checked_bind is_uint) by (by vm_compute).
  unfold mret, tx_ret. by vm_compute.
Qed.

Lemma blocked_run user w : size (position_at (w_positions w) user btc) = E18 ->
  entryPriceX18 (position_at (w_positions w) user btc) = 100000 * E18 -> markets_of (w_positions w) user = [btc] ->
  pr_collateralVault (w_positions w) = a_vault (w_at w) -> a_vault (w_at w) <> 0 ->
  btc ∈ mk_listed (w_markets w) -> imRatioBps (params_at (w_markets w) btc) = 500 -> mark_of w btc = 100000 * E18 ->
  100 * 10 ^ 6 <= vault_balance w user < 5100 * 10 ^ 6 ->
  withdraw user (100 * 10 ^ 6) w = inl (Custom "WithdrawalBlocked").
Proof.
  intros Hs He Hm Hv Hv0 Hl Him Hp Hb. unfold withdraw. rewrite !gets_bind. fold (vault_balance w user).
  rewrite revert_if_bind by lia.
  enough (isWithdrawSafe user (100 * 10 ^ 6) w = inr (false, w)) as E by (by rewrite (bind_run _ _ _ _ _ E)).
  unfold isWithdrawSafe. rewrite gets_bind, Hm. cbn [length Nat.eqb]. rewrite Hv.
  replace (a_vault (w_at w) =? 0) with false by lia.
  rewrite (bind_run _ _ w (vault_balance w user) w).
  2:{ unfold vault_balance_of. rewrite !gets_bind, Hv. replace (a_vault (w_at w) =? 0) with false by lia.
      by rewrite revert_if_bind by (by rewrite Z.eqb_refl). }
  replace (vault_balance w user <? 100 * 10 ^ 6) with false by lia. cbn [tx_fold].
  rewrite (bind_run _ _ w (0, 5000 * E18) w) by (by rewrite (bind_run _ _ _ _ _ (leg_run user w Hs He Hl Him Hp))).
  cbv beta iota. unfold usub, umul, iadd, USDC_TO_X18, E18 in *.
  rewrite (checked_bind is_uint) by (apply is_uint_iff; unfold UMAX; lia).
  rewrite (checked_bind is_uint) by (apply is_uint_iff; unfold UMAX; lia).
  rewrite toInt256_run by (unfold IMAX; lia).
  rewrite (checked_bind is_int) by (apply is_int_iff; unfold IMIN, IMAX; lia).
  rewrite toInt256_run by (unfold IMAX; lia). rewrite Z.add_0_r. unfold mret, tx_ret. do 2 f_equal. lia.
Qed.

Lemma mined_late w : (forall w', (fst (tick w') <= 100)%N) -> w_timestamp (mined tick w) <= w_timestamp w + 100.
Proof. intros Ht. specialize (Ht w). unfold mined. destruct (tick w). cbn in *. lia. Qed.

Lemma assert_bind {B} (b : bool) msg (f : unit -> Script T B) s : b = true -> (assert_ b msg ≫= f) s = f tt s.
Proof. by intros ->. Qed.

Lemma write_stop {A B} (tx : Tx (World T) A) (f : unit -> Script T B) w out err e :
  tx w = inl e -> (writeContract tick tx ≫= f) (mkRun w out err) = (inl (Uncaught (revert_error e)), mkRun w out err).
Proof. intros E. apply script_bind_stop. unfold writeContract. cbn [rn_world]. by rewrite E. Qed.

Lemma catch_run {A} (m : Script T A) h s e s' : m s = (inl (Uncaught e), s') -> try_catch m h s = h e s'.
Proof. intros E. unfold try_catch. by rewrite E. Qed.

Lemma usdc_run user w : (t ← gets w_token; mret (balanceOf t user)) w = inr (balanceOf (w_token w) user, w).
Proof. done. Qed.

Lemma frame_eqs w w' : frame_of w' = frame_of w ->
  w_at w' = w_at w /\ w_positions w' = w_positions w /\ w_oracle w' = w_oracle w /\ w_markets w' = w_markets w /\
  w_engine w' = w_engine w /\ w_counterparty w' = w_counterparty w.
Proof. unfold frame_of. by intros [= -> -> -> -> -> -> _ _]. Qed.

(** One transaction of the script, mined. *)
Lemma step_mined user w w1 vb ub al su total vt : account_step user w w1 -> w_timestamp w1 = w_timestamp w ->
  books user w1 vb ub al su total vt -> (forall w', (fst (tick w') <= 100)%N) ->
  account_step user w (mined tick w1) /\ books user (mined tick w1) vb ub al su total vt /\
  w_timestamp (mined tick w1) <= w_timestamp w + 100.
Proof.
  intros S E B Ht. destruct (mined_step user w1 _ _ _ _ _ _ B) as [S' B'].
  split; [by eapply account_step_trans|]. split; [done|]. rewrite <- E. by apply mined_late.
Qed.

(** Mint, approve, deposit and withdraw: the first two checks of the script. *)
Lemma smoke_first_half d now1 now2 w : devnet d w now1 now2 ->
  let M := 10000 * 10 ^ 6 in let D := 1000 * 10 ^ 6 in let W := 400 * 10 ^ 6 in
  exists w1 w2 w3 w4 al, let m1 := mined tick w1 in let m2 := mined tick w2 in let m3 := mined tick w3 in let m4 := mined tick w4 in
    mint depositor M w = inr (tt, w1) /\ approve depositor (a_vault (w_at w)) M m1 = inr (tt, w2) /\
    deposit depositor D m2 = inr (tt, w3) /\ withdraw depositor W m3 = inr (tt, w4) /\
    let vb := vault_balance w depositor in let ub := balanceOf (w_token w) depositor + M in
    let su := totalSupply (w_token w) + M in let to := v_totalDeposits (w_vault w) in let vt := vault_tokens w in
    books depositor m2 vb ub M su to vt /\
    books depositor m3 (vb + D) (ub - D) al su (to + D) (vt + D) /\
    books depositor m4 (vb + D - W) (ub - D + W) al su (to + D - W) (vt + D - W) /\
    frame_of m4 = frame_of w /\ w_timestamp m4 <= w_timestamp w + 400.
Proof.
  intros [_ (Hv0 & Hu0 & Huv & _) (Htr & Hmk & _) _ _ (Hvb & Hto & Hto2 & Hsu) (Hck & _)] M D W.
  pose proof (tk_balance_nonneg (w_token w) depositor) as Hub.
  pose proof (tk_balance_nonneg (w_token w) (a_vault (w_at w))) as Hvt. fold (vault_tokens w) in Hvt.
  destruct (mint_run depositor M w _ _ _ _ _ _ (Build_books _ _ _ _ _ _ _ _ eq_refl eq_refl eq_refl eq_refl eq_refl eq_refl))
    as (w1 & E1 & S1 & T1 & B1); [done|done|lia|lia|].
  destruct (step_mined _ _ _ _ _ _ _ _ _ S1 T1 B1 Hck) as (S1' & B1' & C1).
  destruct (frame_eqs _ _ (as_frame _ _ _ S1')) as (A1 & _).
  destruct (approve_run depositor M _ _ _ _ _ _ _ B1') as (w2 & E2 & S2 & T2 & B2); [done|by rewrite A1|].
  destruct (step_mined _ _ _ _ _ _ _ _ _ S2 T2 B2 Hck) as (S2' & B2' & C2).
  pose proof (account_step_trans _ _ _ _ S1' S2') as S2t. destruct (frame_eqs _ _ (as_frame _ _ _ S2t)) as (A2 & _).
  destruct (deposit_run depositor D _ _ _ _ _ _ _ B2') as (w3 & al & E3 & S3 & T3 & B3);
    rewrite ?A2; try done; unfold UMAX in *; try lia.
  destruct (step_mined _ _ _ _ _ _ _ _ _ S3 T3 B3 Hck) as (S3' & B3' & C3).
  pose proof (account_step_trans _ _ _ _ S2t S3') as S3t. destruct (frame_eqs _ _ (as_frame _ _ _ S3t)) as (A3 & P3 & _).
  destruct (withdraw_run depositor W _ _ _ _ _ _ _ B3') as (w4 & E4 & S4 & T4 & B4);
    rewrite ?A3; try done; unfold UMAX in *; try lia.
  { unfold isWithdrawSafe. rewrite gets_bind, P3, Hmk. done. }
  destruct (step_mined _ _ _ _ _ _ _ _ _ S4 T4 B4 Hck) as (S4' & B4' & C4).
  pose proof (account_step_trans _ _ _ _ S3t S4') as S4t.
  exists w1, w2, w3, w4, al. rewrite A1 in E2.
  repeat (split; [done|]). split; [exact (as_frame _ _ _ S4t)|lia].
Qed.

(** The signed fill settles, and then the account cannot withdraw. *)
Lemma smoke_second_half d now1 now2 w w4 : devnet d w now1 now2 -> frame_of (mined tick w4) = frame_of w ->
  w_timestamp (mined tick w4) <= w_timestamp w + 400 ->
  vault_balance (mined tick w4) depositor = vault_balance w depositor + 600 * 10 ^ 6 ->
  let dl := now2 / 1000 + 600 in
  exists w5, applyBatch (smoke_fills depositor) now1 dl
      (signBatch OPERATOR_KEY (d_chainId d) (d_SettlementEngine d) (smoke_fills depositor) now1 dl) (mined tick w4) = inr (tt, w5) /\
    withdraw depositor (100 * 10 ^ 6) (mined tick w5) = inl (Custom "WithdrawalBlocked").
Proof.
  intros Hdv F4 C4 Hb4 dl.
  destruct Hdv as [(Hf1 & Hf2 & Hf3) (Hv0 & Hu0 & Huv & Huc & Hun & Hbn) (Htr & Hmk & Hcv & Hse) (Hop & Hno & Hhk)
    (Hl & Hac & Him & Hpx) (Hvb & _) (_ & Hnow & Hn1 & Hn2)].
  destruct (frame_eqs _ _ F4) as (A4 & P4 & O4 & M4 & G4 & K4).
  assert (Hsig : ecrecover (batch_digest (w_at (mined tick w4)) (smoke_fills depositor) now1 (now2 / 1000 + 600))
    (signBatch OPERATOR_KEY (d_chainId d) (d_SettlementEngine d) (smoke_fills depositor) now1 (now2 / 1000 + 600))
    = Some (privateKeyToAddress OPERATOR_KEY)).
  { unfold signBatch. rewrite A4, Hf2, Hf3, <- digest_agrees; [apply signTypedData_recovers|done|done|]. cbn [smoke_fills forallb]. unfold fill_words_ok. cbn [f_user f_marketId f_priceX18].
    fold btc. rewrite Hun, Hbn. by vm_compute. }
  destruct (batch_run depositor btc E18 (100000 * E18) (mined tick w4) now1 (now2 / 1000 + 600)
    (signBatch OPERATOR_KEY (d_chainId d) (d_SettlementEngine d) (smoke_fills depositor) now1 (now2 / 1000 + 600)))
    as (w5 & w4' & E5 & [O5 Ow Om [Os Oe]] & Hw4'); rewrite ?P4, ?M4, ?A4, ?G4, ?K4; try done; try lia.
  { by rewrite Hop, <- A4. }
  assert (Hblk : withdraw depositor (100 * 10 ^ 6) (mined tick w5) = inl (Custom "WithdrawalBlocked")).
  { unfold mined. destruct (tick w5) as [sec blk].
    assert (w_at w5 = w_at w /\ w_markets w5 = w_markets w /\ w_oracle w5 = w_oracle w /\ w_vault w5 = w_vault (mined tick w4))
      as (A5 & M5 & R5 & V5) by (rewrite O5, Hw4'; cbn; auto).
    assert (Hcv5 : pr_collateralVault (w_positions w5) = a_vault (w_at w)) by (rewrite Ow, Hw4'; cbn; by rewrite P4).
    apply blocked_run; cbn [w_positions w_at w_markets w_oracle pass_time]; rewrite ?A5, ?M5; try done.
    - unfold mark_of. cbn. by rewrite R5.
    - unfold vault_balance in *. cbn. rewrite V5, Hb4. lia. }
  exists w5. split; [exact E5 | exact Hblk].
Qed.

(** The deposit smoke test passes on a correctly deployed chain.  On every
    devnet that the deployment script leaves with the depositor flat, whatever
    the token, the clock and the other accounts, the script runs through its
    three checks (deposit, withdrawal, withdrawal blocked after a signed fill)
    to its last line, writes nothing to stderr and does not exit early. *)
Theorem smoke_deposit_passes (d : Deployments) (now1 now2 : Z) (s : Run T) :
  devnet d (rn_world s) now1 now2 ->
  exists s', run_main (smoke_deposit_main tick d now1 now2) s = (inr tt, s') /\ rn_err s' = rn_err s /\
    last (rn_out s') = Some (String "010"%char "smoke-deposit: PASS").
Proof.
  destruct s as [w out err]. cbn [rn_world rn_err]. intros Hdv.
  destruct (smoke_first_half d now1 now2 w Hdv) as (w1 & w2 & w3 & w4 & al & E1 & E2 & E3 & E4 & B2 & B3 & B4 & F4 & C4).
  destruct (smoke_second_half d now1 now2 w w4 Hdv F4 C4) as (w5 & E5 & Hblk).
  { rewrite (bk_vault _ _ _ _ _ _ _ _ B4). lia. }
  destruct (dv_file _ _ _ _ Hdv) as (Hf1 & _).
  unfold run_main, try_catch, smoke_deposit_main. fold depositor.
  rewrite (parseUnits_spec "10000" 10000), (parseUnits_spec "1000" 1000), (parseUnits_spec "400" 400),
    (parseUnits_spec "100" 100) by done.
  rewrite log_run. cbn [rn_world rn_out rn_err]. rewrite Hf1.
  rewrite (write_run _ _ _ _ _ _ _ E1), (write_run _ _ _ _ _ _ _ E2).
  unfold balanceOfVault, balanceOfUSDC.
  rewrite (read_run _ _ _ _ _ _ _ (balances_run _ _)), (read_run _ _ _ _ _ _ _ (usdc_run _ _)).
  rewrite (write_run _ _ _ _ _ _ _ E3), (read_run _ _ _ _ _ _ _ (balances_run _ _)).
  destruct B2 as [V2 U2 _ _ _ _], B3 as [V3 U3 _ _ _ _], B4 as [V4 U4 _ _ _ _].
  rewrite assert_bind by (apply Z.eqb_eq; lia). rewrite (read_run _ _ _ _ _ _ _ (usdc_run _ _)).
  rewrite assert_bind by (apply Z.eqb_eq; lia). rewrite log_run. cbn [rn_world rn_out rn_err].
  rewrite (read_run _ _ _ _ _ _ _ (balances_run _ _)), (read_run _ _ _ _ _ _ _ (usdc_run _ _)).
  rewrite (write_run _ _ _ _ _ _ _ E4), (read_run _ _ _ _ _ _ _ (balances_run _ _)).
  rewrite assert_bind by (apply Z.eqb_eq; lia). rewrite (read_run _ _ _ _ _ _ _ (usdc_run _ _)).
  rewrite assert_bind by (apply Z.eqb_eq; lia). rewrite log_run. cbn [rn_world rn_out rn_err].
  rewrite (write_run _ _ _ _ _ _ _ E5).
  erewrite script_bind_run.
  2:{ rewrite (catch_run _ _ _ _ _ (write_stop _ _ _ _ _ _ Hblk)).
      cbn [revert_error err_message]. rewrite assert_bind by apply revert_message_names. reflexivity. }
  rewrite assert_bind by done. rewrite log_run. cbn [rn_world rn_out rn_err].
  eexists. split; [reflexivity|]. split; [done|]. cbn [rn_out]. by rewrite last_snoc.
Qed.

End runs.

(** ** A concrete devnet *)

#[local] Existing Instance demo_crypto.

Fixpoint key_index (key : string) (keys : list string) : Z :=
  match keys with
  | [] => 0
  | k :: ks => if String.eqb k key then 0 else 1 + key_index key ks
  end.

(** Key [i] belongs to account [100 + i]; the deployer is account 100. *)
#[local] Instance demo_viem : Viem := {|
  privateKeyToAddress key := 100 + key_index key ANVIL_KEYS;
  parseUnits s d := match BigInt_of_string s with Ok n => n * 10 ^ d | Throw _ => 0 end;
  toHex s := s;
  keccak256 s := keccak_text s;
  signTypedData pk td := (100 + key_index pk ANVIL_KEYS, eip712_digest td);
  revert_message e := match e with Custom name => name | Require_ msg => msg | _ => "" end;
  showAddress a := bigint_toString a;
|}.

Lemma startsWith_refl s : startsWith s s = true.
Proof. induction s as [|c s IH]; cbn; [done|]. by rewrite Ascii.eqb_refl. Qed.

#[local] Instance demo_viem_laws : ViemLaws.
Proof.
  split; cbn.
  - by intros s n d ->.
  - done.
  - intros pk td. by rewrite Z.eqb_refl.
  - intros name. destruct name; [done|]. cbn [str_includes]. by rewrite startsWith_refl.
Qed.

Definition devnet_calls : list (Address * Call) :=
  [(100, CSetWiring 3 4 6); (100, CSetFillHook 5);
   (100, CListMarket (id_ "btc-usd") btc_params); (100, CListMarket (id_ "eth-usd") btc_params);
   (100, CListMarket (id_ "sol-usd") (mkParams 1000 500 150 7 (-2) true));
   (100, CSetPrices [id_ "btc-usd"; id_ "eth-usd"; id_ "sol-usd"] [100000 * E18; 3500 * E18; 200 * E18])].

Definition devnet_world : World ledger := Eval vm_compute in world_after devnet_calls demo_deploy.
Definition devnet_file : Deployments := mkDeployments 1 0 0 2 3 4 5 6 100 31337.
Definition demo_tick (w : World ledger) : N * N := (2%N, 1%N).
Definition devnet_run : Run ledger := mkRun devnet_world [] [].

Lemma devnet_reach : reach demo_deploy devnet_world.
Proof.
  eapply (run_calls_reach devnet_calls demo_deploy demo_deploy);
    [reflexivity | reflexivity | constructor | vm_compute; reflexivity].
Qed.

Lemma devnet_holds : devnet demo_tick devnet_file devnet_world 1700000000000 1700000000000.
Proof.
  split.
  - vm_compute. repeat split; discriminate.
  - vm_compute. repeat split; discriminate.
  - split; [apply (wf_tracked _ (reach_wf _ _ (deployed_wf _ demo_deployed) devnet_reach))|]. repeat split; vm_compute; reflexivity.
  - split; [vm_compute; reflexivity|]. split; [vm_compute; intros Hin; by apply (bool_decide_pack _) in Hin|].
    right. split; vm_compute; reflexivity.
  - split; [by apply (bool_decide_unpack _); vm_compute|]. repeat split; vm_compute; reflexivity.
  - vm_compute. repeat split; discriminate.
  - split; [intros w; vm_compute; discriminate|]. repeat split; vm_compute; try reflexivity; discriminate.
Qed.

Lemma smoke_deposit_passes_witness : exists s',
  run_main (smoke_deposit_main demo_tick devnet_file 1700000000000 1700000000000) devnet_run = (inr tt, s') /\
  rn_err s' = [] /\ last (rn_out s') = Some (String "010"%char "smoke-deposit: PASS").
Proof.
  exact (smoke_deposit_passes demo_tick devnet_file 1700000000000 1700000000000 devnet_run devnet_holds).
Defined.

Lemma seed_funds_traders_witness : exists s',
  run_main (seed_main demo_tick devnet_file) devnet_run = (inr tt, s') /\
  vault_balance (rn_world s') 101 = 50000 * 10 ^ 6 /\ vault_balance (rn_world s') 109 = 0.
Proof.
  destruct (seed_funds_traders demo_tick devnet_file devnet_run) as (s' & E & _ & Hin & Hout).
  - split; [vm_compute; split; [reflexivity | discriminate]
           | apply (bool_decide_unpack _); vm_compute; reflexivity
           | | vm_compute; split; discriminate | vm_compute; discriminate].
    change (map privateKeyToAddress TRADER_KEYS) with [101; 102; 103; 104; 105].
    intros a Ha. repeat (apply elem_of_cons in Ha as [-> | Ha]; [vm_compute; repeat split; discriminate|]).
    by apply elem_of_nil in Ha.
  - intros m Hm. repeat (apply elem_of_cons in Hm as [-> | Hm]; [vm_compute; discriminate|]). by apply elem_of_nil in Hm.
  - exists s'. split; [exact E|]. split.
    + apply (Hin 101). vm_compute. left.
    + apply (Hout 109). apply (bool_decide_unpack _). vm_compute. reflexivity.
Defined.

Lemma signed_digest_is_settled_digest_witness :
  eip712_digest (batch_typed_data 31337 4 [demo_fill] 1 2000) = batch_digest demo_at [demo_fill] 1 2000.
Proof. apply (signed_digest_is_settled_digest demo_at [demo_fill] 1 2000); vm_compute; reflexivity. Defined.

(** The smoke test leaves its position open, so it cannot be run a second time
    on the same chain: the first withdrawal of the second run is blocked. *)
Lemma smoke_deposit_runs_once :
  let s1 := snd (run_main (smoke_deposit_main demo_tick devnet_file 1700000000000 1700000000000) devnet_run) in
  let '(r, s2) := run_main (smoke_deposit_main demo_tick devnet_file 1700000000001 1700000000001) s1 in
  r = inl (Exit 1) /\ rn_err s2 = ["WithdrawalBlocked"].
Proof. vm_compute. split; reflexivity. Qed.
