(* ===== verification/Grafana.v ===== *)
(** * The dashboard check

    src/scripts/smoke-grafana.ts: the metric names in a panel's expression, and
    the assertions the script makes about the dashboard file.  The check
    accepts exactly the dashboards that meet the conditions its header lists,
    and the names it extracts are the maximal identifier tokens with the
    agent's prefix. *)
From S2P Require Import Prelude JsNum JsText JsColl.
From Stdlib Require Import Ascii.
#[local] Open Scope Z_scope.

Definition EXPECTED_METRICS : list string := [
  "counterparty_realised_pnl_usdc"; "counterparty_inventory"; "counterparty_realised_vol";
  "counterparty_spread_bps"; "counterparty_skew_bps"; "counterparty_quote_places_total";
  "counterparty_quote_cancels_total"; "counterparty_fills_total"; "counterparty_kill_trips_total"].

(** (label, metric) *)
Definition REQUIRED_PANEL_METRICS : list (string * string) := [
  ("per-market PnL", "counterparty_realised_pnl_usdc");
  ("total inventory", "counterparty_inventory");
  ("quote-cancel rate", "counterparty_quote_cancels_total");
  ("fill share vs volume (fills)", "counterparty_fills_total");
  ("fill share vs volume (places)", "counterparty_quote_places_total")].

(** Optional fields as options; [..._uid] is [datasource?.uid]. *)
Record Target := mkTarget { tg_expr : option string; tg_uid : option string }.

Record Panel := mkPanel { pn_id : Z; pn_title : string; pn_uid : option string; pn_targets : option (list Target) }.

Record Dashboard := mkDashboard { ds_uid : option string; ds_title : option string; ds_panels : option (list Panel) }.

(** [process.exit(1)] with a line on stderr ends the script. *)
Definition fail {A} (msg : string) : result A := Throw (mkError "exit" ("ASSERTION FAILED: " +:+ msg)).

(** ** metricsInExpr: the matches of [([a-z_][a-z0-9_]* )] with the prefix *)

Definition tok_start (c : ascii) : bool := is_lower c || Ascii.eqb c "_"%char.
Definition tok_char (c : ascii) : bool := tok_start c || is_digit c.

Definition PREFIX : string := "counterparty_".

Definition emit (tok : string) : list string := if startsWith PREFIX tok then [tok] else [].

(** [tok] is the token being matched, empty between matches. *)
Fixpoint scan_tokens (s tok : string) : list string :=
  match s with
  | EmptyString => emit tok
  | String c s' =>
      if String.eqb tok "" then
        if tok_start c then scan_tokens s' (String c "") else scan_tokens s' ""
      else if tok_char c then scan_tokens s' (tok +:+ String c "")
      else emit tok ++ scan_tokens s' ""
  end.

Definition metricsInExpr (expr : string) : list string := scan_tokens expr "".

(** ** main *)

Definition undefined_text (o : option string) : string := default "undefined" o.

Fixpoint check_targets (p : Panel) (ts : list Target) (refs : list string) : result (list string) :=
  match ts with
  | [] => Ok refs
  | t :: ts' =>
      match tg_expr t with
      | None | Some EmptyString => fail ("panel " +:+ bigint_toString (pn_id p) +:+ " target missing expr")
      | Some expr =>
          let uid := match tg_uid t with Some u => Some u | None => pn_uid p end in
          if negb (bool_decide (uid = Some "prometheus")) then
            fail ("panel " +:+ bigint_toString (pn_id p) +:+ " target uses datasource uid=" +:+ undefined_text uid
                  +:+ ", expected prometheus")
          else check_targets p ts' (fold_left (fun s m => js_add m s) (metricsInExpr expr) refs)
      end
  end.

Fixpoint check_panels (ps : list Panel) (refs : list string) : result (list string) :=
  match ps with
  | [] => Ok refs
  | p :: ps' =>
      match pn_targets p with
      | None | Some [] =>
          fail ("panel " +:+ bigint_toString (pn_id p) +:+ " (" +:+ pn_title p +:+ ") has no targets")
      | Some ts => let! refs' := check_targets p ts refs in check_panels ps' refs'
      end
  end.

Fixpoint check_required (rs : list (string * string)) (refs : list string) : result unit :=
  match rs with
  | [] => Ok tt
  | (label, metric) :: rs' =>
      if negb (js_has metric refs) then
        fail ("required " +:+ label +:+ " panel missing — no panel references " +:+ metric)
      else check_required rs' refs
  end.

Fixpoint check_known (ms : list string) : result unit :=
  match ms with
  | [] => Ok tt
  | m :: ms' =>
      if negb (js_has m EXPECTED_METRICS) then
        fail ("dashboard references metric '" +:+ m +:+ "' which the agent does not emit. Keep " +:+
              "scripts/smoke-grafana.ts and crates/perplex-cli/src/metrics.rs in sync.")
      else check_known ms'
  end.

Definition check_dashboard (dash : Dashboard) : result (list string) :=
  if negb (bool_decide (ds_uid dash = Some "perplex-counterparty")) then
    let shown := undefined_text (ds_uid dash) in
    let quote := String "034"%char "" in
    fail ("expected uid=" +:+ quote +:+ "perplex-counterparty" +:+ quote +:+ ", got " +:+ shown)
  else
    match ds_panels dash with
    | None => fail "dashboard must have at least 4 panels, found 0"
    | Some ps =>
        if (length ps <? 4)%nat then
          fail ("dashboard must have at least 4 panels, found " +:+ bigint_toString (Z.of_nat (length ps)))
        else
          let! refs := check_panels ps [] in
          let! _ := check_required REQUIRED_PANEL_METRICS refs in
          let! _ := check_known refs in
          Ok (("grafana dashboard ok: " +:+ bigint_toString (Z.of_nat (length ps)) +:+ " panels, " +:+
               bigint_toString (Z.of_nat (length refs)) +:+ " metric series referenced.")
              :: map (fun '(label, metric) => "  [ok] " +:+ padEnd label 32 " "%char +:+ " -> " +:+ metric)
                   REQUIRED_PANEL_METRICS)
    end.

Definition grafana_main (files : string -> option string) (JSON_parse : string -> result Dashboard)
    (REPO_ROOT : string) : result (list string) :=
  let file := str_join "/" [REPO_ROOT; "infra"; "grafana"; "counterparty.json"] in
  match files file with
  | None => fail ("dashboard not found: " +:+ file)
  | Some raw =>
      match JSON_parse raw with
      | Throw err => fail ("dashboard JSON malformed: " +:+ err_message err)
      | Ok dash => check_dashboard dash
      end
  end.

(** ** What metricsInExpr extracts *)

(** Whether a text, read from outside ([st = false]) or from within a token,
    ends inside an identifier. *)
Fixpoint inside (st : bool) (s : string) : bool :=
  match s with
  | EmptyString => st
  | String c s' => inside (if st then tok_char c else tok_start c) s'
  end.

Fixpoint all_tok (s : string) : bool :=
  match s with EmptyString => true | String c s' => tok_char c && all_tok s' end.

Definition is_token (m : string) : bool :=
  match m with EmptyString => false | String c x => tok_start c && all_tok x end.

Definition token_ends (b : string) : bool :=
  match b with EmptyString => true | String c _ => negb (tok_char c) end.

(** [m] occurs in [s] as a whole identifier. *)
Definition occurs (st : bool) (m s : string) : Prop :=
  exists a b, s = a +:+ m +:+ b /\ inside st a = false /\ is_token m = true /\ token_ends b = true.

(** [m] is the token under way, [tok], completed by the beginning of [s]. *)
Definition completes (tok m s : string) : Prop :=
  exists x b, s = x +:+ b /\ all_tok x = true /\ token_ends b = true /\ m = tok +:+ x.

Lemma tok_start_char c : tok_start c = true -> tok_char c = true.
Proof. unfold tok_char. by intros ->. Qed.

Lemma occurs_skip (st : bool) c m s : (if st then True else tok_start c = false) ->
  occurs st m (String c s) <-> occurs (if st then tok_char c else tok_start c) m s.
Proof.
  intros Hc. split.
  - intros (a & b & E & Hi & Ht & He). destruct a as [|d a].
    + destruct st; [discriminate|]. destruct m as [|e m]; [discriminate|]. injection E as <- _.
      cbn in Ht. rewrite Hc in Ht. discriminate.
    + injection E as -> ->. exists a, b. auto.
  - intros (a & b & -> & Hi & Ht & He). exists (String c a), b. auto.
Qed.

Lemma occurs_start c m s : tok_start c = true ->
  occurs false m (String c s) <-> completes (String c "") m s \/ occurs true m s.
Proof.
  intros Hc. split.
  - intros (a & b & E & Hi & Ht & He). destruct a as [|d a].
    + destruct m as [|e m]; [discriminate|]. injection E as <- ->. cbn in Ht. rewrite Hc in Ht.
      left. exists m, b. auto.
    + injection E as -> ->. cbn in Hi. rewrite Hc in Hi. right. exists a, b. auto.
  - intros [(x & b & -> & Ha & He & ->)|(a & b & -> & Hi & Ht & He)].
    + change (String c "" +:+ x) with (String c x). exists "", b. cbn. rewrite Hc. auto.
    + exists (String c a), b. cbn. rewrite Hc. auto.
Qed.

Lemma completes_more tok c m s : tok_char c = true ->
  completes tok m (String c s) <-> completes (tok +:+ String c "") m s.
Proof.
  intros Hc. split.
  - intros (x & b & E & Ha & He & ->). destruct x as [|d x].
    + change (String c s = b) in E. subst b. cbn in He. rewrite Hc in He. discriminate.
    + injection E as <- ->. cbn in Ha. bool_to_prop. exists x, b. by rewrite <- str_app_assoc.
  - intros (x & b & -> & Ha & He & ->). exists (String c x), b. cbn. rewrite Hc, <- str_app_assoc. auto.
Qed.

Lemma completes_stop tok c m s : tok_char c = false -> completes tok m (String c s) <-> m = tok.
Proof.
  intros Hc. split.
  - intros (x & b & E & Ha & He & ->). destruct x as [|d x]; [by rewrite str_app_nil_r|].
    injection E as <- ->. cbn in Ha. rewrite Hc in Ha. discriminate.
  - intros ->. exists "", (String c s). cbn [token_ends]. rewrite Hc, str_app_nil_r. auto.
Qed.

Lemma completes_nil tok m : completes tok m "" <-> m = tok.
Proof.
  split; [intros (x & b & E & _ & _ & ->) | intros ->; exists "", ""; repeat split; by rewrite str_app_nil_r].
  destruct x; [by rewrite str_app_nil_r | discriminate].
Qed.

Lemma occurs_nil st m : ~ occurs st m "".
Proof.
  intros (a & b & E & _ & Ht & _). destruct a; [|discriminate]. destruct m; [discriminate|]. discriminate.
Qed.

Lemma elem_of_emit m tok : m ∈ emit tok <-> startsWith PREFIX m = true /\ m = tok.
Proof.
  unfold emit. destruct (startsWith PREFIX tok) eqn:E.
  - rewrite list_elem_of_singleton. split; [by intros -> | by intros [_ ->]].
  - rewrite elem_of_nil. split; [done|]. intros [Hp ->]. congruence.
Qed.

Lemma app_nonempty tok c : String.eqb (tok +:+ String c "") "" = false.
Proof. by destruct tok. Qed.

Lemma scan_tokens_spec m s : forall tok,
  m ∈ scan_tokens s tok <-> startsWith PREFIX m = true /\
    (if String.eqb tok "" then occurs false m s else completes tok m s \/ occurs true m s).
Proof.
  induction s as [|c s IH]; intros tok; cbn [scan_tokens].
  - rewrite elem_of_emit. destruct (String.eqb tok "") eqn:E; bool_to_prop.
    + subst. split; [intros [Hp ->]; discriminate | intros [_ []%occurs_nil]].
    + rewrite completes_nil. pose proof (occurs_nil true m). naive_solver.
  - destruct (String.eqb tok "") eqn:E; bool_to_prop.
    + destruct (tok_start c) eqn:Hc.
      * rewrite (IH (String c "")). cbn [String.eqb]. by rewrite occurs_start.
      * rewrite (IH ""). cbn [String.eqb]. by rewrite (occurs_skip false), Hc.
    + destruct (tok_char c) eqn:Hc.
      * rewrite IH, app_nonempty, completes_more, (occurs_skip true), Hc by done. done.
      * rewrite elem_of_app, elem_of_emit, (IH ""). cbn [String.eqb].
        rewrite completes_stop, (occurs_skip true), Hc by done. naive_solver.
Qed.

(** The names read from a panel expression are exactly the identifiers
    with the agent's prefix that occur in it whole: a name is extracted if and
    only if the expression splits into a part that does not end inside an
    identifier, the name, and a part that does not continue it. *)
Theorem metrics_are_whole_identifiers (expr m : string) :
  m ∈ metricsInExpr expr <-> startsWith PREFIX m = true /\ occurs false m expr.
Proof. unfold metricsInExpr. rewrite scan_tokens_spec. done. Qed.

(** ** What the script accepts *)

Definition target_uid (p : Panel) (t : Target) : option string :=
  match tg_uid t with Some u => Some u | None => pn_uid p end.

Definition target_ok (p : Panel) (t : Target) : Prop :=
  (exists e, tg_expr t = Some e /\ e <> "") /\ target_uid p t = Some "prometheus".

Definition panel_ok (p : Panel) : Prop :=
  exists ts, pn_targets p = Some ts /\ ts <> [] /\ forall t, t ∈ ts -> target_ok p t.

(** Some target of the panel names the metric. *)
Definition references (p : Panel) (m : string) : Prop :=
  exists ts t e, pn_targets p = Some ts /\ t ∈ ts /\ tg_expr t = Some e /\ m ∈ metricsInExpr e.

Definition dashboard_ok (dash : Dashboard) : Prop :=
  ds_uid dash = Some "perplex-counterparty" /\
  exists ps, ds_panels dash = Some ps /\ (4 <= length ps)%nat /\
    (forall p, p ∈ ps -> panel_ok p) /\
    (forall l m, (l, m) ∈ REQUIRED_PANEL_METRICS -> exists p, p ∈ ps /\ references p m) /\
    (forall p m, p ∈ ps -> references p m -> m ∈ EXPECTED_METRICS).

Lemma add_all_elem (ms refs : list string) m : m ∈ fold_left (fun s m => js_add m s) ms refs <-> m ∈ refs \/ m ∈ ms.
Proof.
  revert refs. induction ms as [|x ms IH]; intros refs; cbn [fold_left].
  - rewrite elem_of_nil. tauto.
  - rewrite IH, elem_of_cons, elem_of_js_add. tauto.
Qed.

(** The references collected from a list of targets. *)
Definition refs_of (ts : list Target) (m : string) : Prop :=
  exists t e, t ∈ ts /\ tg_expr t = Some e /\ m ∈ metricsInExpr e.

Lemma check_targets_ok p ts : forall refs,
  (forall out, check_targets p ts refs = Ok out ->
     (forall t, t ∈ ts -> target_ok p t) /\ forall m, m ∈ out <-> m ∈ refs \/ refs_of ts m) /\
  ((forall t, t ∈ ts -> target_ok p t) -> exists out, check_targets p ts refs = Ok out).
Proof.
  induction ts as [|t ts IH]; intros refs; cbn [check_targets].
  - split; [|eauto]. intros out [= <-]. split; [by intros t ?%elem_of_nil|].
    intros m. split; [auto|]. intros [?|(t & e & ?%elem_of_nil & _)]; done.
  - destruct (tg_expr t) as [[|c e]|] eqn:Ee.
    1, 3: split; [discriminate|]; intros Hall; destruct (Hall t ltac:(by left)) as [(e & E1 & E2) _]; congruence.
    fold (target_uid p t). case_bool_decide as Hu; cbn [negb].
    + specialize (IH (fold_left (fun s m => js_add m s) (metricsInExpr (String c e)) refs)). destruct IH as [IH1 IH2].
      assert (Ht : target_ok p t) by (split; [by exists (String c e)|done]). split.
      * intros out Hout. destruct (IH1 _ Hout) as [Hall Hm]. split.
        { intros t' [->|?]%elem_of_cons; auto. }
        intros m. rewrite Hm, add_all_elem. unfold refs_of. setoid_rewrite elem_of_cons.
        split; [intros [[?|?]|(t' & e' & ? & ? & ?)] | intros [?|(t' & e' & [->|?] & E & ?)]]; eauto 10.
        rewrite Ee in E. injection E as <-. auto.
      * intros Hall. apply IH2. intros t' Ht'. apply Hall. by right.
    + split; [discriminate|]. intros Hall. destruct (Hall t ltac:(by left)). done.
Qed.

Lemma check_panels_ok ps : forall refs,
  (forall out, check_panels ps refs = Ok out ->
     (forall p, p ∈ ps -> panel_ok p) /\ forall m, m ∈ out <-> m ∈ refs \/ exists p, p ∈ ps /\ references p m) /\
  ((forall p, p ∈ ps -> panel_ok p) -> exists out, check_panels ps refs = Ok out).
Proof.
  induction ps as [|p ps IH]; intros refs; cbn [check_panels].
  - split; [|eauto]. intros out [= <-]. split; [by intros p ?%elem_of_nil|].
    intros m. split; [auto|]. intros [?|(p & ?%elem_of_nil & _)]; done.
  - destruct (pn_targets p) as [[|t ts]|] eqn:Ep.
    1, 3: split; [discriminate|]; intros Hall; destruct (Hall p ltac:(by left)) as (ts & E & ? & _); congruence.
    destruct (check_targets_ok p (t :: ts) refs) as [H1 H2].
    destruct (check_targets p (t :: ts) refs) as [refs'|err] eqn:Ec; cbn [result_bind].
    + destruct (IH refs') as [IH1 IH2]. destruct (H1 _ eq_refl) as [Hts Hm1].
      assert (Hp : panel_ok p) by (exists (t :: ts); split; [done|]; split; [done|exact Hts]). split.
      * intros out Hout. destruct (IH1 _ Hout) as [Hall Hm]. split.
        { intros p' [->|?]%elem_of_cons; auto. }
        intros m. rewrite Hm, Hm1. unfold refs_of, references. setoid_rewrite elem_of_cons. split.
        -- intros [[?|(t' & e & Ht & E & ?)]|(p' & ? & ?)]; [auto| |eauto 10].
           right. exists p. split; [auto|]. exists (t :: ts), t', e. repeat split; try done. by apply elem_of_cons.
        -- intros [?|(p' & [->|?] & Hr)]; [auto| |eauto 10].
           destruct Hr as (ts' & t' & e & E & Ht & ? & ?). rewrite Ep in E. injection E as <-.
           apply elem_of_cons in Ht. eauto 10.
      * intros Hall. apply IH2. intros p' Hp'. apply Hall. by right.
    + split; [discriminate|]. intros Hall. destruct (Hall p ltac:(by left)) as (ts' & E & _ & Ht).
      rewrite Ep in E. injection E as <-. destruct (H2 Ht) as [out E]. congruence.
Qed.

Lemma check_required_ok rs refs : check_required rs refs = Ok tt <-> forall l m, (l, m) ∈ rs -> m ∈ refs.
Proof.
  induction rs as [|[l m] rs IH]; cbn [check_required].
  - split; [by intros _ l m ?%elem_of_nil | done].
  - unfold js_has. case_bool_decide as Hm; cbn [negb].
    + rewrite IH. setoid_rewrite elem_of_cons. split; [intros Hr l' m' [[= -> ->]|?]; eauto | eauto].
    + split; [discriminate|]. intros Hr. destruct Hm. apply (Hr l m). by left.
Qed.

Lemma check_known_ok ms : check_known ms = Ok tt <-> forall m, m ∈ ms -> m ∈ EXPECTED_METRICS.
Proof.
  induction ms as [|m ms IH]; cbn [check_known].
  - split; [by intros _ m ?%elem_of_nil | done].
  - unfold js_has. case_bool_decide as Hm; cbn [negb].
    + rewrite IH. split; [intros Hr m' [->|?]%elem_of_cons; [done | by apply Hr] | intros Hr m' Hin; apply Hr; by right].
    + split; [discriminate|]. intros Hr. destruct Hm. apply Hr. by left.
Qed.

(** The dashboard check passes exactly on the dashboards its header
    describes: the expected uid, at least four panels, every panel with
    targets that have an expression and the Prometheus datasource, every
    required metric referenced by some panel, and no metric referenced that
    the agent does not emit.  On every other dashboard it fails. *)
Theorem grafana_check_exact (dash : Dashboard) :
  (exists lines, check_dashboard dash = Ok lines) <-> dashboard_ok dash.
Proof.
  unfold check_dashboard, dashboard_ok. case_bool_decide as Hu; cbn [negb].
  2:{ split; [by intros [? ?] | by intros [? _]]. }
  destruct (ds_panels dash) as [ps|].
  2:{ split; [by intros [? ?] | by intros [_ (ps & ? & _)]]. }
  destruct (length ps <? 4)%nat eqn:El.
  { apply Nat.ltb_lt in El. split; [by intros [? ?]|]. intros [_ (ps' & [= <-] & ? & _)]. lia. }
  apply Nat.ltb_ge in El. destruct (check_panels_ok ps []) as [H1 H2].
  destruct (check_panels ps []) as [refs|err]; cbn [result_bind].
  - destruct (H1 _ eq_refl) as [Hall Hm].
    assert (Hm' : forall m, m ∈ refs <-> exists p, p ∈ ps /\ references p m).
    { intros m. rewrite Hm, elem_of_nil. tauto. }
    split.
    + intros [lines E]. destruct (check_required _ refs) as [[]|] eqn:Er; [|discriminate].
      destruct (check_known refs) as [[]|] eqn:Ek; [|discriminate].
      split; [done|]. exists ps. repeat split; try done.
      * intros l m Hin. apply Hm'. by eapply check_required_ok.
      * intros p m Hp Hr. apply (proj1 (check_known_ok refs)); [done|]. apply Hm'. eauto.
    + intros [_ (ps' & [= <-] & _ & _ & Hreq & Hkn)].
      rewrite (proj2 (check_required_ok _ refs)) by (intros l m Hin; apply Hm'; eauto).
      rewrite (proj2 (check_known_ok refs)) by (intros m (p & ? & ?)%Hm'; eauto).
      cbn [result_bind]. eauto.
  - split; [by intros [? ?]|]. intros [_ (ps' & [= <-] & _ & Hp & _)]. destruct (H2 Hp). discriminate.
Qed.

(** A label value with the prefix is taken for a metric, and so fails the
    check, although the comment on [metricsInExpr] says it does not match
    label values. *)
Lemma label_value_is_taken_for_metric :
  metricsInExpr ("up{job=" +:+ String "034"%char "counterparty_agent" +:+ String "034"%char "}")
  = ["counterparty_agent"] /\ "counterparty_agent" ∉ EXPECTED_METRICS.
Proof. split; [reflexivity|]. by apply (bool_decide_unpack _). Qed.
