(* ===== verification/SdkTypes.v ===== *)
(** * Wire types of the TypeScript SDK ([sdk/typescript/src/types.ts])

    The SDK keeps its own copy of the exchange's types, looser than the web
    application's: market ids are plain strings and some fields of an order
    are optional. *)

From S2P Require Import Prelude JsNum.

Module Sdk.

Inductive Side := buy | sell.
Inductive OrderType := market | limit.
Inductive TimeInForce := gtc | ioc | fok.
Inductive PositionSide := long | short.
Inductive Role := taker | maker.

Record MarketInfo := mkMarketInfo {
id : string; base : string; quote : string; active : bool; tickSize : string; lotSize : string;
maxLeverage : Z; imRatioBps : Z; mmRatioBps : Z; liqBonusBps : Z; takerFeeBps : Z; makerRebateBps : Z;
fundingIntervalSec : Z; indexPriceX18 : string
}.

Record MarketsResponse := mkMarketsResponse { markets : list MarketInfo }.

Record OrderbookSnapshot := mkOrderbookSnapshot {
ob_marketId : string; ob_sequence : Z; ob_bids : list (string * string); ob_asks : list (string * string);
ob_tsNs : string
}.

Record PublicTrade := mkPublicTrade {
tr_id : string; tr_marketId : string; tr_price : string; tr_qty : string; tr_side : Side; tr_tsNs : string
}.

Record TradesResponse := mkTradesResponse { trades : list PublicTrade; trades_nextBefore : option string }.

Record FundingHistoryPoint := mkFundingHistoryPoint { fh_tsNs : string; fh_rateBps : number }.

Record FundingResponse := mkFundingResponse {
fu_marketId : string; fu_currentRateBps : number; fu_nextSettlementTsNs : string;
fu_history : list FundingHistoryPoint
}.

Record PlaceOrderRequest := mkPlaceOrderRequest {
po_marketId : string; po_side : Side; po_type : OrderType; po_price : option string; po_qty : string;
po_timeInForce : TimeInForce; po_reduceOnly : option bool; po_postOnly : option bool;
po_clientOrderId : option string; po_nonce : string; po_signature : string
}.

Record PlaceOrderResponse := mkPlaceOrderResponse { pr_orderId : string; pr_status : string; pr_tsNs : string }.

Record CancelOrderResponse := mkCancelOrderResponse { co_orderId : string; co_status : string }.

Record OpenOrder := mkOpenOrder {
oo_id : string; oo_marketId : string; oo_side : Side; oo_type : OrderType; oo_price : string;
oo_qty : string; oo_remaining : string; oo_tsNs : string; oo_clientOrderId : option string
}.

Record OpenOrdersResponse := mkOpenOrdersResponse { orders : list OpenOrder }.

Record PositionInfo := mkPositionInfo {
pi_marketId : string; pi_size : string; pi_side : PositionSide; pi_entryPriceX18 : string;
pi_markPriceX18 : string; pi_notionalUsdc : string; pi_unrealisedPnlUsdc : string;
pi_realisedPnlUsdc : string; pi_leverage : string; pi_liquidationPriceX18 : string;
pi_fundingPaidUsdc : string; pi_lastUpdatedTsNs : string
}.

Record PositionsResponse := mkPositionsResponse {
ps_collateralUsdc : string; ps_freeCollateralUsdc : string; ps_totalUnrealisedPnlUsdc : string;
ps_totalNotionalUsdc : string; ps_positions : list PositionInfo
}.

Record FillInfo := mkFillInfo {
fi_id : string; fi_orderId : string; fi_marketId : string; fi_side : Side; fi_price : string;
fi_qty : string; fi_feeUsdc : string; fi_role : Role; fi_tsNs : string; fi_txHash : string
}.

Record FillsResponse := mkFillsResponse { fills : list FillInfo; fills_nextBefore : option string }.

Record SiweNonceResponse := mkSiweNonceResponse { nonce : string }.

Record SiweVerifyResponse := mkSiweVerifyResponse { jwt : string; expiresAt : string }.

Record BalanceResponse := mkBalanceResponse {
ba_vaultBalanceUsdc : string; ba_walletUsdcBalance : string
}.

(** The [error] object of an error body. *)
Record ApiErrorBody := mkApiErrorBody { code : string; message : string }.

End Sdk.
