(* ===== verification/SdkClient.v ===== *)
(** * The SDK's REST client ([sdk/typescript/src/client.ts])

    [PerplexClient] keeps a base URL, an optional token and a fetch function.
    A call builds one request; an error status becomes a [PerplexApiError]
    with the server's code when the body carries one. *)

From S2P Require Import Prelude JsNum JsText Session SdkTypes.
From Stdlib Require Import SpecFloat Ascii.
#[local] Open Scope Z_scope.

Record PerplexApiError := mkPerplexApiError {
  pe_status : Z; pe_code : string; pe_message : string; pe_retryAfterSecs : option number
}.

Record PerplexClient := mkPerplexClient { pc_baseUrl : string; pc_jwt : option string }.

(** [baseUrl.replace(/\/+$/, "")]. *)
Fixpoint drop_slashes (s : string) : string :=
  match s with
  | EmptyString => EmptyString
  | String c s' => if Ascii.eqb c "/"%char then drop_slashes s' else s
  end.

Definition strip_trailing_slashes (s : string) : string := str_rev (drop_slashes (str_rev s)).

Definition new_PerplexClient (baseUrl : string) (jwt : option string) : PerplexClient :=
  mkPerplexClient (strip_trailing_slashes baseUrl) jwt.

Definition setJwt (jwt : option string) (c : PerplexClient) : PerplexClient := mkPerplexClient (pc_baseUrl c) jwt.

(** [encodeURIComponent] on ASCII. *)
Definition uri_safe (c : ascii) : bool :=
  is_word c || existsb (Ascii.eqb c) ["-"; "."; "!"; "~"; "*"; "'"; "("; ")"]%char.

Fixpoint encodeURIComponent (s : string) : string :=
  match s with
  | EmptyString => EmptyString
  | String c s' => if uri_safe c then String c (encodeURIComponent s') else percent c +:+ encodeURIComponent s'
  end.

Inductive SdkBody :=
| SNone
| SAddress (address : string)
| SVerify (message signature : string)
| SOrder (req : Sdk.PlaceOrderRequest).

Definition has_body (b : SdkBody) : bool := match b with SNone => false | _ => true end.

Record SdkRequest := mkSdkRequest {
  sq_method : string; sq_url : string; sq_headers : list (string * string); sq_body : SdkBody
}.

(** A reply: its JSON is a value, an object with an [error], or not there. *)
Record SdkReply (T : Type) := mkSdkReply {
  sr_status : Z; sr_value : option T; sr_error : option Sdk.ApiErrorBody; sr_retryAfter : option string
}.
Arguments mkSdkReply {T}.
Arguments sr_status {T}.
Arguments sr_value {T}.
Arguments sr_error {T}.
Arguments sr_retryAfter {T}.

Inductive SdkFailure := SApi (e : PerplexApiError) | SThrown (e : JsError).

Section Client.
Context {T : Type}.
Variable fetchImpl : SdkRequest -> result (SdkReply T).

Definition request_headers (c : PerplexClient) (body : SdkBody) : list (string * string) :=
  [("accept", "application/json")] ++
  (if has_body body then [("content-type", "application/json")] else []) ++
  match truthy_item (pc_jwt c) with Some j => [("authorization", "Bearer " +:+ j)] | None => [] end.

Definition request (method path : string) (body : SdkBody) (c : PerplexClient) : T + SdkFailure :=
  match fetchImpl (mkSdkRequest method (pc_baseUrl c +:+ path) (request_headers c body) body) with
  | Throw e => inr (SThrown e)
  | Ok res =>
      if negb ((200 <=? sr_status res) && (sr_status res <=? 299)) then
        let code := match sr_error res with Some e => Sdk.code e | None => "HTTP_ERROR" end in
        let message := match sr_error res with
                       | Some e => Sdk.message e
                       | None => "request failed: " +:+ bigint_toString (sr_status res)
                       end in
        inr (SApi (mkPerplexApiError (sr_status res) code message (option_map parseInt10 (sr_retryAfter res))))
      else match sr_value res with
           | Some v => inl v
           | None => inr (SThrown SyntaxError_json)
           end
  end.
End Client.

(** Method, path and body of each call. *)
Inductive SdkCall :=
| listMarkets
| getOrderbook (marketId : string) (depth : Depth)
| getTrades (marketId : string) (lim : option Z) (before : option string)
| getFunding (marketId : string) (range : Range)
| siweNonce (address : string)
| siweVerify (message signature : string)
| placeOrder (req : Sdk.PlaceOrderRequest)
| cancelOrder (orderId : string)
| listOpenOrders
| listPositions
| listFills (marketId : option string) (lim : option Z) (before : option string)
| getBalance.

Definition some_param (k : string) (v : option string) : list (string * string) :=
  match v with Some s => [(k, s)] | None => [] end.

Definition sdk_call (c : SdkCall) : string * string * SdkBody :=
  match c with
  | listMarkets => ("GET", "/v1/markets", SNone)
  | getOrderbook m d => ("GET", "/v1/orderbook/" +:+ encodeURIComponent m +:+ "?depth=" +:+ depth_text d, SNone)
  | getTrades m l before =>
      ("GET", "/v1/trades/" +:+ encodeURIComponent m +:+ "?" +:+
              params_toString (some_param "limit" (option_map bigint_toString l) ++ some_param "before" before), SNone)
  | getFunding m r => ("GET", "/v1/funding/" +:+ encodeURIComponent m +:+ "?range=" +:+ range_text r, SNone)
  | siweNonce a => ("POST", "/v1/auth/siwe/nonce", SAddress a)
  | siweVerify m s => ("POST", "/v1/auth/siwe/verify", SVerify m s)
  | placeOrder r => ("POST", "/v1/orders", SOrder r)
  | cancelOrder id => ("DELETE", "/v1/orders/" +:+ encodeURIComponent id, SNone)
  | listOpenOrders => ("GET", "/v1/orders/open", SNone)
  | listPositions => ("GET", "/v1/positions", SNone)
  | listFills m l before =>
      ("GET", "/v1/fills?" +:+
              params_toString (some_param "marketId" (truthy_item m) ++
                               some_param "limit" (option_map bigint_toString l) ++ some_param "before" before), SNone)
  | getBalance => ("GET", "/v1/account/balance", SNone)
  end.

Definition run_sdk_call {T} (fetchImpl : SdkRequest -> result (SdkReply T)) (k : SdkCall) (c : PerplexClient) : T + SdkFailure :=
  let '(method, path, body) := sdk_call k in request fetchImpl method path body c.

(** [siweVerify] also keeps the token it is given. *)
Definition run_siweVerify (fetchImpl : SdkRequest -> result (SdkReply Sdk.SiweVerifyResponse))
    (message signature : string) (c : PerplexClient) : (Sdk.SiweVerifyResponse + SdkFailure) * PerplexClient :=
  match run_sdk_call fetchImpl (siweVerify message signature) c with
  | inl res => (inl res, setJwt (Some (Sdk.jwt res)) c)
  | inr e => (inr e, c)
  end.

(** ** What the client guarantees *)

(** No path segment or parameter can leave its place: an encoded component
    holds none of the characters that separate parts of a URL. *)
Fixpoint str_all (p : ascii -> bool) (s : string) : bool :=
  match s with EmptyString => true | String c s' => p c && str_all p s' end.

Definition url_component_char (c : ascii) : bool := uri_safe c || Ascii.eqb c "%"%char.

Lemma percent_component c : str_all url_component_char (percent c) = true.
Proof.
  unfold percent. cbn [str_all]. unfold url_component_char at 1. cbn.
  assert (H : forall n, (0 <= n < 16) -> url_component_char (hex_digit n) = true).
  { intros n Hn.
    assert (Hall : forallb (fun k => url_component_char (hex_digit (Z.of_nat k))) (seq 0 16) = true)
      by (vm_compute; reflexivity).
    rewrite List.forallb_forall in Hall. specialize (Hall (Z.to_nat n)). cbn beta in Hall.
    rewrite Z2Nat.id in Hall by lia. apply Hall, List.in_seq. lia. }
  pose proof (N_ascii_bounded c) as Hb.
  rewrite !H; [done| |].
  - apply Z.mod_pos_bound. lia.
  - split; [apply Z.div_pos; lia|]. apply Z.div_lt_upper_bound; lia.
Qed.

Lemma str_all_app p a b : str_all p (a +:+ b) = str_all p a && str_all p b.
Proof.
  induction a as [|c a IH]; [done|]. change (String c a +:+ b) with (String c (a +:+ b)).
  cbn [str_all]. by rewrite IH, andb_assoc.
Qed.

(** Path safety of the SDK's requests.  Whatever text is passed as an
    order id, the path of a cancellation is the orders path followed by one
    URL component: no slash, question mark, hash or other separator from the
    argument reaches the URL. *)
Theorem cancel_path_is_one_component id :
  exists comp, sdk_call (cancelOrder id) = ("DELETE", "/v1/orders/" +:+ comp, SNone) /\
    str_all url_component_char comp = true /\
    str_all (fun c => negb (existsb (Ascii.eqb c) ["/"; "?"; "#"; "&"; "="; " "]%char)) comp = true.
Proof.
  exists (encodeURIComponent id). split; [done|].
  assert (H : str_all url_component_char (encodeURIComponent id) = true).
  { induction id as [|c s IH]; [done|]. cbn [encodeURIComponent]. destruct (uri_safe c) eqn:E.
    - cbn [str_all]. unfold url_component_char at 1. by rewrite E.
    - rewrite str_all_app, percent_component. done. }
  split; [done|]. revert H. generalize (encodeURIComponent id). clear.
  assert (Hc : forall c, url_component_char c = true ->
            negb (existsb (Ascii.eqb c) ["/"; "?"; "#"; "&"; "="; " "]%char) = true).
  { intros [[] [] [] [] [] [] [] []]; vm_compute; done. }
  induction s as [|c s IH]; [done|]. cbn [str_all]. intros [H1 H2]%andb_true_iff. by rewrite Hc, IH.
Qed.
