(* ===== verification/SdkWs.v ===== *)
(** * The SDK's WebSocket client ([sdk/typescript/src/ws.ts])

    The class [PerplexWs] of the SDK as a state machine, like the web
    application's in [WsClient] but with its own rules: listeners are counted
    per channel, frames are dropped while the socket is not open, handlers
    act on the client's current socket rather than on the one they were
    installed on, and [close] does not cancel a pending reconnect. *)

From S2P Require Import Prelude JsNum JsText JsColl Contract Browser WsClient WsClientFacts.
From Stdlib Require Import SpecFloat Ascii.
#[local] Open Scope Z_scope.

Module SdkWs.

(** [WsChannelMessage]: the fields the client reads. *)
Record WsChannelMessage := mkChannelMessage {
cm_type : string; cm_channel : option string; cm_message : option string
}.

(** How a pending authentication ended. *)
Inductive AuthResult := AuthOk | AuthRejected (msg : string).

Record Client := mkClient {
ws : option nat;
subs : list (string * list nat);      (** channel, listeners *)
jwt : option string;
reconnect : bool;
backoffMs : Z;
destroyed : bool;
(** [authPromise], with the socket its listener is attached to. *)
authPromise : option (option nat)
}.

Record World := mkWorld {
client : Client;
sockets : list Socket;
timers : list Z;                       (** delays of the pending reconnects *)
delivered : list (nat * WsChannelMessage);
(** [waitForOpen] promises: the socket each waits on and its token. *)
waiters : list (option nat * string);
auths : list AuthResult
}.

Definition set_client (c : Client) (w : World) : World :=
mkWorld c (sockets w) (timers w) (delivered w) (waiters w) (auths w).
Definition set_sockets (s : list Socket) (w : World) : World :=
mkWorld (client w) s (timers w) (delivered w) (waiters w) (auths w).

Definition with_ws (x : option nat) (c : Client) : Client :=
mkClient x (subs c) (jwt c) (reconnect c) (backoffMs c) (destroyed c) (authPromise c).
Definition with_subs (x : list (string * list nat)) (c : Client) : Client :=
mkClient (ws c) x (jwt c) (reconnect c) (backoffMs c) (destroyed c) (authPromise c).
Definition with_jwt (x : option string) (c : Client) : Client :=
mkClient (ws c) (subs c) x (reconnect c) (backoffMs c) (destroyed c) (authPromise c).
Definition with_backoff (x : Z) (c : Client) : Client :=
mkClient (ws c) (subs c) (jwt c) (reconnect c) x (destroyed c) (authPromise c).
Definition with_destroyed (x : bool) (c : Client) : Client :=
mkClient (ws c) (subs c) (jwt c) (reconnect c) (backoffMs c) x (authPromise c).
Definition with_auth (x : option (option nat)) (c : Client) : Client :=
mkClient (ws c) (subs c) (jwt c) (reconnect c) (backoffMs c) (destroyed c) x.

Definition initial_backoff : Z := 500.
Definition max_backoff : Z := 10000.

(** The constructor; it throws without a WebSocket implementation. *)
Definition new_client (has_ctor : bool) (token : option string) (rec : option bool) : result Client :=
if has_ctor then Ok (mkClient None [] token (default true rec) initial_backoff false None)
else throw_error "no WebSocket implementation found; pass wsImpl from `ws` on Node".

Definition setJwt (token : option string) (w : World) : World := set_client (with_jwt token (client w)) w.

Definition state_of (i : nat) (w : World) : option ReadyState := sk_state <$> sockets w !! i.

Definition upd (i : nat) (f : Socket -> Socket) (w : World) : World := set_sockets (alter f i (sockets w)) w.

Definition connect (w : World) : World :=
match ws (client w) with
| Some _ => w
| None =>
    let i := length (sockets w) in
    set_client (with_ws (Some i) (with_destroyed false (client w)))
      (set_sockets (sockets w ++ [mkSocket CONNECTING []]) w)
end.

(** Frames leave only through an open current socket. *)
Definition send (m : WsOutbound) (w : World) : World :=
match ws (client w) with
| Some i =>
    if bool_decide (state_of i w = Some OPEN) then
      upd i (fun s => mkSocket (sk_state s) (sk_sent s ++ [m])) w
    else w
| None => w
end.

Definition close (w : World) : World :=
let c := with_subs [] (with_destroyed true (client w)) in
let w1 := set_client c w in
match ws c with
| Some i =>
    let w2 := upd i (fun s => match sk_state s with
                              | CONNECTING | OPEN => mkSocket CLOSING (sk_sent s)
                              | _ => s
                              end) w1 in
    set_client (with_ws None (client w2)) w2
| None => w1
end.

Definition subscribe (channel : string) (listener : nat) (w : World) : World :=
match jm_get channel (subs (client w)) with
| Some ls => set_client (with_subs (jm_set channel (js_add listener ls) (subs (client w))) (client w)) w
| None =>
    let w1 := set_client (with_subs (jm_set channel [] (subs (client w))) (client w)) w in
    let w2 := send (WsSubscribe channel) w1 in
    set_client (with_subs (jm_set channel [listener] (subs (client w2))) (client w2)) w2
end.

Definition unsubscribe (channel : string) (listener : nat) (w : World) : World :=
match jm_get channel (subs (client w)) with
| None => w
| Some ls =>
    let ls' := js_del listener ls in
    if bool_decide (ls' = []) then
      send (WsUnsubscribe channel) (set_client (with_subs (jm_delete channel (subs (client w))) (client w)) w)
    else set_client (with_subs (jm_set channel ls' (subs (client w))) (client w)) w
end.

(** The second half of [authenticate], once a socket is open. *)
Definition auth_send (token : string) (w : World) : World :=
match authPromise (client w) with
| Some _ => w
| None => send (WsAuth token) (set_client (with_auth (Some (ws (client w))) (client w)) w)
end.

(** [waitForOpen] on a socket that is not open: the promise joins the waiters of
    the current socket. *)
Definition waitForOpen (token : string) (w : World) : World :=
mkWorld (client w) (sockets w) (timers w) (delivered w) (waiters w ++ [(ws (client w), token)]) (auths w).

Definition authenticate (token : string) (w : World) : World :=
let w1 := setJwt (Some token) w in
let is_open := match ws (client w1) with Some i => bool_decide (state_of i w1 = Some OPEN) | None => false end in
if is_open then auth_send token w1
else waitForOpen token (connect w1).

Definition onOpen (w : World) : World :=
let w1 := set_client (with_backoff initial_backoff (client w)) w in
let w2 := match jwt (client w1) with
          | Some t => if str_truthy t then send (WsAuth t) w1 else w1
          | None => w1
          end in
foldl (fun w ch => send (WsSubscribe ch) w) w2 (jm_keys (subs (client w2))).

(** [None]: the frame is not a JSON text. *)
Definition onMessage (m : option WsChannelMessage) (w : World) : World :=
match m with
| None => w
| Some msg =>
    if String.eqb (cm_type msg) "ping" then send WsPong w
    else match cm_channel msg with
    | Some ch =>
        match jm_get ch (subs (client w)) with
        | Some ls =>
            mkWorld (client w) (sockets w) (timers w) (delivered w ++ map (fun l => (l, msg)) ls) (waiters w) (auths w)
        | None => w
        end
    | None => w
    end
end.

(** The listener [authenticate] adds to its socket. *)
Definition auth_listener (i : nat) (m : option WsChannelMessage) (w : World) : World :=
match authPromise (client w), m with
| Some (Some j), Some msg =>
    if Nat.eqb i j then
      let settle r := mkWorld (with_auth None (client w)) (sockets w) (timers w) (delivered w) (waiters w) (auths w ++ [r]) in
      if String.eqb (cm_type msg) "auth" then settle AuthOk
      else if String.eqb (cm_type msg) "error" then settle (AuthRejected (default "auth failed" (cm_message msg)))
      else w
    else w
| _, _ => w
end.

Definition onClose (w : World) : World :=
let w1 := set_client (with_ws None (client w)) w in
let c := client w1 in
if destroyed c || negb (reconnect c) then w1
else
  mkWorld (with_backoff (Z.min (backoffMs c * 2) max_backoff) c) (sockets w1) (timers w1 ++ [backoffMs c])
    (delivered w1) (waiters w1) (auths w1).

(** ** The event loop *)

Inductive action :=
| Connect | Close | Subscribe (channel : string) (l : nat) | Unsubscribe (channel : string) (l : nat)
| SetJwt (token : option string) | Authenticate (token : string)
| Opened (i : nat) | Message (i : nat) (m : option WsChannelMessage) | Closed (i : nat) | Timer (n : nat).

(** A socket that opens runs [onOpen] and then the waiters it has. *)
Definition opened (i : nat) (w : World) : World :=
let w1 := onOpen (upd i (fun s => mkSocket OPEN (sk_sent s)) w) in
let mine := List.filter (fun x => bool_decide (x.1 = Some i)) (waiters w1) in
let w2 := mkWorld (client w1) (sockets w1) (timers w1) (delivered w1)
            (List.filter (fun x => negb (bool_decide (x.1 = Some i))) (waiters w1)) (auths w1) in
foldl (fun w x => auth_send x.2 w) w2 mine.

Definition step (a : action) (w : World) : option World :=
match a with
| Connect => Some (connect w)
| Close => Some (close w)
| Subscribe ch l => Some (subscribe ch l w)
| Unsubscribe ch l => Some (unsubscribe ch l w)
| SetJwt t => Some (setJwt t w)
| Authenticate t => Some (authenticate t w)
| Opened i => if bool_decide (state_of i w = Some CONNECTING) then Some (opened i w) else None
| Message i m => if bool_decide (state_of i w = Some OPEN) then Some (auth_listener i m (onMessage m w)) else None
| Closed i =>
    match state_of i w with
    | None | Some CLOSED => None
    | Some _ => Some (onClose (upd i (fun s => mkSocket CLOSED (sk_sent s)) w))
    end
| Timer n =>
    match timers w !! n with
    | None => None
    | Some _ => Some (connect (mkWorld (client w) (sockets w) (take n (timers w) ++ drop (S n) (timers w))
                                 (delivered w) (waiters w) (auths w)))
    end
end.

Fixpoint run (acts : list action) (w : World) : option World :=
match acts with
| [] => Some w
| a :: acts' => match step a w with Some w' => run acts' w' | None => None end
end.

Definition start (c : Client) : World := mkWorld c [] [] [] [] [].

(** ** Backoff and counting *)

Definition backoff_ok (w : World) : Prop :=
initial_backoff <= backoffMs (client w) <= max_backoff /\
Forall (fun d => initial_backoff <= d <= max_backoff) (timers w).

Lemma send_client m w : client (send m w) = client w /\ timers (send m w) = timers w.
Proof. unfold send. destruct (ws (client w)); [|done]. by case_bool_decide. Qed.

Lemma fold_send_client {B} (f : B -> WsOutbound) l : forall w,
client (foldl (fun w x => send (f x) w) w l) = client w /\ timers (foldl (fun w x => send (f x) w) w l) = timers w.
Proof.
induction l as [|x l IH]; simpl; intros w; [done|]. destruct (IH (send (f x) w)) as [-> ->]. apply send_client.
Qed.

Lemma auth_send_backoff t w : backoffMs (client (auth_send t w)) = backoffMs (client w) /\ timers (auth_send t w) = timers w.
Proof.
unfold auth_send. destruct (authPromise (client w)); [done|].
match goal with |- context [send ?m ?w1] => destruct (send_client m w1) as [-> ->] end. done.
Qed.

Lemma onOpen_backoff w : backoffMs (client (onOpen w)) = initial_backoff /\ timers (onOpen w) = timers w.
Proof.
unfold onOpen. set (w1 := set_client _ w). cbv zeta. set (w2 := match jwt _ with Some _ => _ | None => _ end).
destruct (fold_send_client WsSubscribe (jm_keys (subs (client w2))) w2) as [-> ->].
unfold w2. destruct (jwt (client w1)) as [t|]; [|done]. destruct (str_truthy t); [|done].
destruct (send_client (WsAuth t) w1) as [-> ->]. done.
Qed.

Lemma auth_listener_backoff i m w :
backoffMs (client (auth_listener i m w)) = backoffMs (client w) /\ timers (auth_listener i m w) = timers w.
Proof.
unfold auth_listener. destruct (authPromise (client w)) as [[j|]|], m as [m|]; try done.
destruct (Nat.eqb i j); [|done]. destruct (String.eqb _ _); [done|]. by destruct (String.eqb _ _).
Qed.

Lemma step_backoff a w w' : backoff_ok w -> step a w = Some w' -> backoff_ok w'.
Proof.
intros [Hb Ht] Hs. unfold backoff_ok in *. destruct a; simpl in Hs; simplify_eq.
- unfold connect. by destruct (ws (client w)).
- unfold close. by destruct (ws _).
- unfold subscribe. destruct (jm_get _ _); [done|]. simpl.
  match goal with |- context [send ?m ?x] => destruct (send_client m x) as [-> ->] end. done.
- unfold unsubscribe. destruct (jm_get _ _); [|done]. case_bool_decide; [|done].
  match goal with |- context [send ?m ?x] => destruct (send_client m x) as [-> ->] end. done.
- done.
- unfold authenticate. case_match.
  + match goal with |- context [auth_send ?m ?x] => destruct (auth_send_backoff m x) as [-> ->] end. done.
  + simpl. unfold connect. by destruct (ws _).
- case_bool_decide; [|done]. simplify_eq. unfold opened.
  match goal with |- context [onOpen ?x] => pose proof (onOpen_backoff x) as [E1 E2]; set (w1 := onOpen x) in * end.
  assert (Hf : forall l w0, backoffMs (client (foldl (fun w x => auth_send x.2 w) w0 l)) = backoffMs (client w0) /\
                            timers (foldl (fun (w : World) (x : option nat * string) => auth_send x.2 w) w0 l) = timers w0).
  { induction l as [|x l IH]; simpl; intros w0; [done|]. destruct (IH (auth_send x.2 w0)) as [-> ->]. apply auth_send_backoff. }
  match goal with |- context [foldl _ ?x ?l] => destruct (Hf l x) as [-> ->] end. simpl. rewrite E1, E2. unfold initial_backoff, max_backoff. simpl. split; [lia|done].
- case_bool_decide; [|done]. simplify_eq.
  assert (H1 : backoffMs (client (onMessage m w)) = backoffMs (client w) /\ timers (onMessage m w) = timers w).
  { unfold onMessage. destruct m as [m|]; [|done]. destruct (String.eqb _ _).
    { destruct (send_client WsPong w) as [E1 E2]. by rewrite E1, E2. }
    destruct (cm_channel m); [|done]. by destruct (jm_get _ _). }
  destruct H1 as [H1 H2], (auth_listener_backoff i m (onMessage m w)) as [H3 H4].
  by rewrite H3, H4, H1, H2.
- destruct (state_of i w) as [[]|]; simplify_eq; unfold onClose; simpl; (case_match; [done|]); simpl;
    (split; [unfold max_backoff, initial_backoff in *; lia|]); apply Forall_app; (split; [done|]); by apply Forall_singleton.
- destruct (timers w !! n) eqn:E; [|done]. simplify_eq. unfold connect.
  assert (Hf : Forall (fun d => initial_backoff <= d <= max_backoff) (take n (timers w) ++ drop (S n) (timers w))).
  { apply Forall_app. split; [by apply Forall_take|by apply Forall_drop]. }
  destruct (ws _); done.
Qed.

Lemma run_inv (P : World -> Prop) acts :
(forall a w w', P w -> step a w = Some w' -> P w') ->
forall w w', P w -> run acts w = Some w' -> P w'.
Proof.
intros Hs. induction acts as [|a acts IH]; simpl; intros w w' Hw Hr; [by simplify_eq|].
destruct (step a w) as [w1|] eqn:E; [|done]. eauto.
Qed.

(** Backoff of the SDK.  In every run, the delay of each pending reconnect
  and the next delay lie between half a second and ten seconds, and a
  connection that opens starts again from half a second. *)
Theorem sdk_backoff_bounded c acts w :
backoffMs c = initial_backoff ->
run acts (start c) = Some w ->
backoff_ok w /\
forall i w', state_of i w = Some CONNECTING -> step (Opened i) w = Some w' -> backoffMs (client w') = initial_backoff.
Proof.
intros Hc Hr. split.
- revert Hr. apply (run_inv backoff_ok acts step_backoff). split; [|constructor].
  simpl. rewrite Hc. unfold initial_backoff, max_backoff. lia.
- intros i w' Hi Hs. simpl in Hs. rewrite bool_decide_true in Hs by done. injection Hs as <-. unfold opened.
  match goal with |- context [onOpen ?x] => pose proof (onOpen_backoff x) as [E1 _] end.
  match goal with |- backoffMs (client (foldl ?f _ _)) = _ =>
    assert (Hf : forall xs w0, backoffMs (client (foldl f w0 xs)) = backoffMs (client w0)) end.
  { induction xs as [|x xs IH]; simpl; intros w0; [done|]. rewrite IH. apply auth_send_backoff. }
  rewrite Hf. exact E1.
Qed.

(** Listeners are counted.  On an open socket, removing a listener that is
  not the last one of its channel sends nothing and leaves the others;
  removing the last one drops the channel and sends one unsubscribe. *)
Theorem sdk_unsubscribe_counts w i sent ch l ls :
ws (client w) = Some i -> sockets w !! i = Some (mkSocket OPEN sent) ->
jm_get ch (subs (client w)) = Some ls ->
let w' := unsubscribe ch l w in
if bool_decide (js_del l ls = []) then
  jm_get ch (subs (client w')) = None /\
  sockets w' !! i = Some (mkSocket OPEN (sent ++ [WsUnsubscribe ch]))
else
  jm_get ch (subs (client w')) = Some (js_del l ls) /\ sockets w' = sockets w.
Proof.
intros Hw Hs Hg. unfold unsubscribe. rewrite Hg. case_bool_decide as Hd.
- unfold send. simpl. rewrite Hw. unfold state_of. simpl. rewrite Hs. simpl.
  rewrite list_lookup_alter_eq, Hs. split; [|done]. rewrite jm_get_delete. by rewrite decide_True.
- simpl. rewrite jm_get_set, decide_True by done. done.
Qed.

(** *** Two ways a closed client comes back *)

Definition demo_client : Client := mkClient None [] None true initial_backoff false None.

(** Closing does not cancel a pending reconnect.  A connection drops, the
  caller closes the client before the reconnect fires: the timer still
  fires, clears the closed mark and opens a new socket. *)
Theorem sdk_timer_reopens_closed_client :
exists w, run [Connect; Opened 0; Closed 0; Close] (start demo_client) = Some w /\
  destroyed (client w) = true /\
  exists w', step (Timer 0) w = Some w' /\
    destroyed (client w') = false /\ ws (client w') = Some 1%nat /\ state_of 1 w' = Some CONNECTING.
Proof.
eexists. split; [vm_compute; reflexivity|]. split; [reflexivity|].
eexists. split; [vm_compute; reflexivity|]. repeat split.
Qed.

(** The close event of an old socket drops the new one.  After [close] and
  an immediate [connect], the old socket's late close event is taken for
  the new one's: the client forgets the live socket and schedules a third,
  and every broadcast is then delivered once per socket. *)
Theorem sdk_stale_close_drops_live_socket :
exists w, run [Connect; Opened 0; Close; Connect; Opened 1; Closed 0] (start demo_client) = Some w /\
  ws (client w) = None /\ state_of 1 w = Some OPEN /\ length (timers w) = 1%nat /\
  exists w', run [Timer 0; Opened 2; Subscribe "trades.btc-usd" 7;
                  Message 1 (Some (mkChannelMessage "trade" (Some "trades.btc-usd") None));
                  Message 2 (Some (mkChannelMessage "trade" (Some "trades.btc-usd") None))] w = Some w' /\
    ws (client w') = Some 2%nat /\ state_of 1 w' = Some OPEN /\ length (delivered w') = 2%nat.
Proof.
eexists. split; [vm_compute; reflexivity|]. do 3 (split; [reflexivity|]).
eexists. split; [vm_compute; reflexivity|]. repeat split.
Qed.

(** *** Witnesses *)

Lemma sdk_backoff_bounded_witness :
exists w, run [Connect; Closed 0; Timer 0; Closed 1] (start demo_client) = Some w /\ backoff_ok w.
Proof.
eexists. split; [vm_compute; reflexivity|].
apply (proj1 (sdk_backoff_bounded demo_client [Connect; Closed 0; Timer 0; Closed 1] _ eq_refl eq_refl)).
Defined.

Definition demo_world : World :=
mkWorld (mkClient (Some 0%nat) [("trades.btc-usd", [1%nat])] None true 500 false None)
  [mkSocket OPEN []] [] [] [] [].

Lemma sdk_unsubscribe_counts_witness :
sockets (unsubscribe "trades.btc-usd" 1 demo_world) !! 0%nat =
Some (mkSocket OPEN ([] ++ [WsUnsubscribe "trades.btc-usd"])).
Proof.
apply (sdk_unsubscribe_counts demo_world 0 [] "trades.btc-usd" 1 [1%nat]); reflexivity.
Defined.

End SdkWs.
