(* ===== verification/SdkAuth.v ===== *)
(** * The SDK's authentication promise

    What happens to [authenticate] of sdk/typescript/src/ws.ts when the
    connection drops before the server has answered. *)
From S2P Require Import Prelude JsNum JsText JsColl Contract Browser WsClient WsClientFacts SdkWs.
#[local] Open Scope Z_scope.
Import SdkWs.SdkWs.

(** ** Frames: what leaves the promise and a closed socket alone *)

(** The promise, how authentications ended, and that socket [j] is closed. *)
Definition keeps (j : nat) (w w' : World) : Prop :=
  authPromise (client w') = authPromise (client w) /\ auths w' = auths w /\
  (state_of j w = Some CLOSED -> state_of j w' = Some CLOSED).

#[local] Instance keeps_preorder j : PreOrder (keeps j).
Proof.
  split; [by repeat split|]. intros x y z (A1 & B1 & C1) (A2 & B2 & C2). unfold keeps. rewrite A2, B2, A1, B1. auto.
Qed.

Create HintDb sdk_frames.

Lemma upd_keeps j i f w :
  (forall s, sk_state s = CLOSED -> sk_state (f s) = CLOSED) -> keeps j w (upd i f w).
Proof.
  intros Hf. repeat split. unfold state_of, upd. cbn. intros E.
  destruct (decide (i = j)) as [->|Hn].
  - rewrite list_lookup_alter_eq. destruct (sockets w !! j) as [s|]; [|done]. cbn in *. injection E as E. by rewrite Hf.
  - by rewrite list_lookup_alter_ne.
Qed.

(** Another socket may change as it likes. *)
Lemma upd_other_keeps j i f w : i <> j -> keeps j w (upd i f w).
Proof. intros Hn. repeat split. unfold state_of, upd. cbn. by rewrite list_lookup_alter_ne. Qed.

Lemma send_keeps j m w : keeps j w (send m w).
Proof. unfold send. destruct (ws (client w)); [|reflexivity]. case_bool_decide; [by apply upd_keeps | reflexivity]. Qed.

Lemma fold_send_keeps {B} j (f : B -> WsOutbound) l w : keeps j w (foldl (fun w x => send (f x) w) w l).
Proof.
  revert w. induction l as [|x l IH]; intros w; cbn; [reflexivity|]. transitivity (send (f x) w); [apply send_keeps | apply IH].
Qed.

Lemma client_keeps j c w : authPromise c = authPromise (client w) -> keeps j w (set_client c w).
Proof. intros E. by repeat split. Qed.

Lemma connect_keeps j w : keeps j w (connect w).
Proof.
  unfold connect. destruct (ws (client w)); [reflexivity|]. repeat split. unfold state_of. cbn. intros E.
  destruct (sockets w !! j) as [s|] eqn:Es; [|done]. by rewrite (lookup_app_l_Some _ _ _ _ Es).
Qed.

Lemma close_keeps j w : keeps j w (close w).
Proof.
  unfold close. cbn. destruct (ws (client w)) as [i|]; [|by repeat split].
  etransitivity; [|by apply client_keeps]. etransitivity; [by apply (client_keeps j (with_subs [] (with_destroyed true (client w))))|].
  apply upd_keeps. intros s E. by rewrite E.
Qed.

Lemma subscribe_keeps j ch l w : keeps j w (subscribe ch l w).
Proof.
  unfold subscribe. destruct (jm_get ch (subs (client w))); [by apply client_keeps|]. cbn.
  etransitivity; [|by apply client_keeps]. etransitivity; [|apply send_keeps]. by apply client_keeps.
Qed.

Lemma unsubscribe_keeps j ch l w : keeps j w (unsubscribe ch l w).
Proof.
  unfold unsubscribe. destruct (jm_get ch (subs (client w))); [|reflexivity]. case_bool_decide; [|by apply client_keeps].
  etransitivity; [|apply send_keeps]. by apply client_keeps.
Qed.

Lemma onOpen_keeps j w : keeps j w (onOpen w).
Proof.
  unfold onOpen. etransitivity; [|apply fold_send_keeps]. etransitivity; [by apply (client_keeps j (with_backoff initial_backoff (client w)))|].
  cbn. destruct (jwt (client w)) as [t|]; [|reflexivity]. destruct (str_truthy t); [apply send_keeps | reflexivity].
Qed.

Lemma onMessage_keeps j m w : keeps j w (onMessage m w).
Proof.
  unfold onMessage. destruct m as [m|]; [|reflexivity]. destruct (String.eqb _ _); [apply send_keeps|].
  destruct (cm_channel m) as [ch|]; [|reflexivity]. destruct (jm_get ch _); [by repeat split | reflexivity].
Qed.

(** While a promise is pending, sending another authentication does nothing. *)
Lemma auth_send_pending t w p : authPromise (client w) = Some p -> auth_send t w = w.
Proof. intros E. unfold auth_send. by rewrite E. Qed.

#[local] Hint Resolve send_keeps connect_keeps close_keeps subscribe_keeps unsubscribe_keeps onOpen_keeps onMessage_keeps : sdk_frames.

(** ** The stuck promise *)

(** An authentication waits for a socket that is closed. *)
Definition stranded (j : nat) (done : list AuthResult) (w : World) : Prop :=
  authPromise (client w) = Some (Some j) /\ state_of j w = Some CLOSED /\ auths w = done.

Lemma stranded_keeps j d w w' : keeps j w w' -> stranded j d w -> stranded j d w'.
Proof. intros (A & B & C) (E1 & E2 & E3). unfold stranded. rewrite A, B. auto. Qed.

Lemma opened_stranded j d i w : i <> j -> stranded j d w -> stranded j d (opened i w).
Proof.
  intros Hn Hw. unfold opened. set (w1 := onOpen _).
  assert (H1 : stranded j d w1) by (eapply stranded_keeps, Hw; etransitivity; [by apply upd_other_keeps | apply onOpen_keeps]).
  set (w2 := mkWorld _ _ _ _ _ _). assert (H2 : stranded j d w2) by exact H1. clearbody w2.
  generalize (List.filter (fun x => bool_decide (x.1 = Some i)) (waiters w1)). intros l.
  induction l as [|x l IH]; [done|]. cbn. rewrite (auth_send_pending _ _ (Some j)); [done | apply H2].
Qed.

Lemma step_stranded j d a w w' : stranded j d w -> step a w = Some w' -> stranded j d w'.
Proof.
  intros Hw. destruct a as [| |ch l|ch l|t|t|i|i m|i|n]; cbn [step]; intros E; try (injection E as <-).
  - eapply stranded_keeps, Hw. auto with sdk_frames.
  - eapply stranded_keeps, Hw. auto with sdk_frames.
  - eapply stranded_keeps, Hw. auto with sdk_frames.
  - eapply stranded_keeps, Hw. auto with sdk_frames.
  - done.
  - unfold authenticate. case_match.
    + by rewrite (auth_send_pending _ _ (Some j)) by apply Hw.
    + eapply (stranded_keeps j d (connect (setJwt (Some t) w))); [by repeat split|].
      eapply stranded_keeps; [apply connect_keeps | done].
  - case_bool_decide as Ho; [|done]. injection E as <-. apply opened_stranded; [|done].
    intros ->. destruct Hw as (_ & Hc & _). congruence.
  - case_bool_decide as Ho; [|done]. injection E as <-.
    assert (Hn : i <> j) by (intros ->; destruct Hw as (_ & Hc & _); congruence).
    assert (H1 : stranded j d (onMessage m w)) by (eapply stranded_keeps, Hw; apply onMessage_keeps).
    unfold auth_listener. destruct H1 as (E1 & E2 & E3). rewrite E1. destruct m as [m|]; [|done].
    by rewrite (proj2 (Nat.eqb_neq i j) Hn).
  - assert (H1 : stranded j d (upd i (fun s => mkSocket CLOSED (sk_sent s)) w)) by (eapply stranded_keeps, Hw; by apply upd_keeps).
    assert (w' = onClose (upd i (fun s => mkSocket CLOSED (sk_sent s)) w)) as -> by (destruct (state_of i w) as [[]|]; congruence).
    set (u := upd _ _ _) in *. clearbody u. unfold onClose. cbv zeta. by destruct (destroyed _ || negb _).
  - destruct (timers w !! n); [|done]. injection E as <-. eapply stranded_keeps; [apply connect_keeps | done].
Qed.

(** An authentication that loses its connection never settles, and blocks
    every later one.  Once the socket that carries an unanswered authentication
    has closed, then whatever happens next (reconnects, new sockets that open,
    further calls of authenticate, any server message), the promise that
    [authenticate] returns stays the same pending one and no authentication is
    ever reported as done or refused. *)
Theorem sdk_auth_promise_stuck (j : nat) (acts : list action) (w w' : World) :
  authPromise (client w) = Some (Some j) -> state_of j w = Some CLOSED -> run acts w = Some w' ->
  authPromise (client w') = Some (Some j) /\ auths w' = auths w.
Proof.
  intros Ha Hc Hr. assert (H : stranded j (auths w) w') by (eapply (run_inv (stranded j (auths w)) acts); [|by repeat split | exact Hr]; intros; by eapply step_stranded).
  split; apply H.
Qed.

(** The connection drops right after the request; the client reconnects, and a
    second attempt on the new socket is answered by the server. *)
Lemma sdk_auth_promise_stuck_witness :
  exists w w', run [Authenticate "t"; Opened 0; Closed 0] (start demo_client) = Some w /\
    run [Timer 0; Opened 1; Authenticate "t"; Message 1 (Some (mkChannelMessage "auth" None None))] w = Some w' /\
    auths w' = [].
Proof.
  eexists. eexists. split; [vm_compute; reflexivity|].
  match goal with |- run ?acts ?w = Some ?w' /\ _ => assert (E : run acts w = Some w') by (vm_compute; reflexivity);
    split; [exact E | exact (proj2 (sdk_auth_promise_stuck 0 acts w w' eq_refl eq_refl E))] end.
Defined.
