(* ===== verification/Replay.v ===== *)
(** * The market-maker replay

    [scripts/replay-binance.ts] and its library [scripts/lib/sim/]: the quoting
    strategy, the rolling volatility window, the counterparty that fills the
    quotes against one-minute bars, the two sources of bars, and the command
    line tool that decides whether the strategy loses money.

    The strategy, the window and the counterparty are written over the
    arithmetic interface, so that the accounting is stated in rationals and
    the program runs in binary64.  [Math.log], [Math.exp], [Math.cos],
    [Math.sqrt] and [**] are approximations that the language leaves to the
    engine: [MathFns] holds them and no property depends on their values. *)

From S2P Require Import Prelude JsNum JsText.
From Stdlib Require Import SpecFloat Ascii.
#[local] Open Scope Z_scope.

Record MathFns (A : Type) := mkMath {
  m_log : A -> A;
  m_exp : A -> A;
  m_cos : A -> A;
  m_sqrt : A -> A;
  m_pow : A -> A -> A
}.

Arguments m_log {A} _ _.
Arguments m_exp {A} _ _.
Arguments m_cos {A} _ _.
Arguments m_sqrt {A} _ _.
Arguments m_pow {A} _ _ _.

(** ** lib/sim/strategy.ts *)

Record StrategyParams (A : Type) := mkStrategy {
  baseSpreadBps : A;
  invPenaltyBpsAtMax : A;
  invMax : A;
  volMultBps : A;
  invSkewBpsAtMax : A
}.

Arguments mkStrategy {A} _ _ _ _ _.
Arguments baseSpreadBps {A} _.
Arguments invPenaltyBpsAtMax {A} _.
Arguments invMax {A} _.
Arguments volMultBps {A} _.
Arguments invSkewBpsAtMax {A} _.

Record Quotes (A : Type) := mkQuotes {
  q_bid : A;
  q_ask : A;
  q_spreadBps : A;
  q_skewBps : A
}.

Arguments mkQuotes {A} _ _ _ _.
Arguments q_bid {A} _.
Arguments q_ask {A} _.
Arguments q_spreadBps {A} _.
Arguments q_skewBps {A} _.

Definition DEFAULT_STRATEGY {A} `{Arith A} : StrategyParams A := {|
  baseSpreadBps := nint 10;
  invPenaltyBpsAtMax := nint 20;
  invMax := nint 100;
  volMultBps := nint 1000;
  invSkewBpsAtMax := nint 5
|}.

Section Strategy.
Context {A : Type} `{Arith A}.

Definition clamp (x lo hi : A) : A :=
  if (x <? lo)%num then lo else if (x >? hi)%num then hi else x.

Definition quotes (p : StrategyParams A) (mid inventory realisedVol : A) : Quotes A :=
  let invRatioSigned :=
    if (invMax p >? nint 0)%num then clamp (inventory / invMax p)%num (nint (-1)) (nint 1)
    else nint 0 in
  let invPenBps := (n_abs invRatioSigned * invPenaltyBpsAtMax p)%num in
  let volPenBps := (n_max realisedVol (nint 0) * volMultBps p)%num in
  let spreadBps := (baseSpreadBps p + invPenBps + volPenBps)%num in
  let skewBps := (- invRatioSigned * invSkewBpsAtMax p)%num in
  let skewedMid := (mid * (nint 1 + skewBps / nint 10000))%num in
  let halfSpread := (spreadBps / nint 2 / nint 10000)%num in
  {| q_bid := (skewedMid * (nint 1 - halfSpread))%num;
     q_ask := (skewedMid * (nint 1 + halfSpread))%num;
     q_spreadBps := spreadBps;
     q_skewBps := skewBps |}.
End Strategy.

(** ** lib/sim/vol.ts *)

Record Sample (A : Type) := mkSample { s_tsMs : A; s_mid : A }.
Arguments mkSample {A} _ _.
Arguments s_tsMs {A} _.
Arguments s_mid {A} _.

Record VolWindow (A : Type) := mkVol { v_samples : list (Sample A); v_windowMs : A }.
Arguments mkVol {A} _ _.
Arguments v_samples {A} _.
Arguments v_windowMs {A} _.

Section Vol.
Context {A : Type} `{Arith A} (M : MathFns A).

Definition new_VolWindow (windowMs : A) : VolWindow A := mkVol [] windowMs.

(** The [while] loop of [record]: [shift] while the oldest sample is stale. *)
Fixpoint evict (cutoff : A) (samples : list (Sample A)) : list (Sample A) :=
  match samples with
  | s :: rest => if (s_tsMs s <? cutoff)%num then evict cutoff rest else samples
  | [] => []
  end.

Definition record (tsMs mid : A) (v : VolWindow A) : VolWindow A :=
  if (mid <=? nint 0)%num then v
  else
    let samples := v_samples v ++ [mkSample tsMs mid] in
    mkVol (evict (tsMs - v_windowMs v)%num samples) (v_windowMs v).

(** The loop over the samples; [prev] is [null] on the first one. *)
Fixpoint log_returns (prev : option A) (samples : list (Sample A)) : list A :=
  match samples with
  | [] => []
  | s :: rest =>
      let here := match prev with
                  | Some p => if (p >? nint 0)%num && (s_mid s >? nint 0)%num
                              then [m_log M (s_mid s / p)%num] else []
                  | None => []
                  end in
      here ++ log_returns (Some (s_mid s)) rest
  end.

Definition realisedVol (v : VolWindow A) : A :=
  if bool_decide (length (v_samples v) < 2)%nat then nint 0
  else
    let returns := log_returns None (v_samples v) in
    match returns with
    | [] => nint 0
    | _ =>
        let len := nint (Z.of_nat (length returns)) in
        let mean := (fold_left (fun a b => a + b)%num returns (nint 0) / len)%num in
        let variance :=
          (fold_left (fun a r => a + m_pow M (r - mean) (nint 2))%num returns (nint 0) / len)%num in
        m_sqrt M variance
    end.
End Vol.

(** ** lib/sim/counterparty.ts *)

Record Bar (A : Type) := mkBar { tsMs : A; b_open : A; b_high : A; b_low : A; b_close : A }.
Arguments mkBar {A} _ _ _ _ _.
Arguments tsMs {A} _.
Arguments b_open {A} _.
Arguments b_high {A} _.
Arguments b_low {A} _.
Arguments b_close {A} _.

Record SimConfig (A : Type) := mkSimConfig {
  strategy : StrategyParams A;
  quoteSize : A;
  volWindowMs : A;
  killThresholdUsdc : A
}.
Arguments mkSimConfig {A} _ _ _ _.
Arguments strategy {A} _.
Arguments quoteSize {A} _.
Arguments volWindowMs {A} _.
Arguments killThresholdUsdc {A} _.

Record MarketResult (A : Type) := mkResult {
  r_market : string;
  r_fills : nat;
  r_bidFills : nat;
  r_askFills : nat;
  r_realisedPnl : A;
  r_finalInventory : A;
  r_markToMarketPnl : A;
  r_killed : bool
}.
Arguments mkResult {A} _ _ _ _ _ _ _ _.
Arguments r_market {A} _.
Arguments r_fills {A} _.
Arguments r_bidFills {A} _.
Arguments r_askFills {A} _.
Arguments r_realisedPnl {A} _.
Arguments r_finalInventory {A} _.
Arguments r_markToMarketPnl {A} _.
Arguments r_killed {A} _.

Inductive LotSide := long_lot | short_lot.

#[export] Instance LotSide_eq_dec : EqDecision LotSide.
Proof. solve_decision. Defined.

Record Lot (A : Type) := mkLot { l_side : LotSide; l_size : A; l_price : A }.
Arguments mkLot {A} _ _ _.
Arguments l_side {A} _.
Arguments l_size {A} _.
Arguments l_price {A} _.

Section Counterparty.
Context {A : Type} `{Arith A} (M : MathFns A).

(** The matching loop of [applyFill].  A pass either removes the head lot or
    uses up the fill, so one pass more than there are lots is enough
    ([match_lots_total]); [None] is a loop that was still running. *)
Fixpoint match_lots (fuel : nat) (lots : list (Lot A)) (side : LotSide) (remaining price realised : A)
  : option (list (Lot A) * A * A) :=
  match lots with
  | head :: rest =>
      if (remaining >? nint 0)%num && negb (bool_decide (l_side head = side)) then
        match fuel with
        | O => None
        | S fuel =>
            let closed := n_min (l_size head) remaining in
            let pnl := match l_side head with
                       | long_lot => ((price - l_price head) * closed)%num
                       | short_lot => ((l_price head - price) * closed)%num
                       end in
            let head' := mkLot (l_side head) (l_size head - closed)%num (l_price head) in
            let lots' := if (l_size head' <=? n_lit 1 (-12))%num then rest else head' :: rest in
            match_lots fuel lots' side (remaining - closed)%num price (realised + pnl)%num
        end
      else Some (lots, remaining, realised)
  | [] => Some (lots, remaining, realised)
  end.

(** The mutated lots and the realised profit. *)
Definition applyFill (lots : list (Lot A)) (side : LotSide) (size price : A)
  : option (list (Lot A) * A) :=
  match match_lots (S (length lots)) lots side size price (nint 0) with
  | Some (lots', remaining, realised) =>
      Some (if (remaining >? nint 0)%num then lots' ++ [mkLot side remaining price] else lots', realised)
  | None => None
  end.

(** The local variables of [simulateMarket]. *)
Record SimState := mkSim {
  vol : VolWindow A;
  lots : list (Lot A);
  inventory : A;
  realisedPnl : A;
  bidFills : nat;
  askFills : nat;
  killed : bool;
  priorMid : A
}.

Definition bid_leg (cfg : SimConfig A) (q : Quotes A) (bar : Bar A) (s : SimState) : option SimState :=
  if (b_low bar <=? q_bid q)%num then
    match applyFill (lots s) long_lot (quoteSize cfg) (q_bid q) with
    | Some (lots', realised) =>
        Some (mkSim (vol s) lots' (inventory s + quoteSize cfg)%num (realisedPnl s + realised)%num
                    (S (bidFills s)) (askFills s) (killed s) (priorMid s))
    | None => None
    end
  else Some s.

Definition ask_leg (cfg : SimConfig A) (q : Quotes A) (bar : Bar A) (s : SimState) : option SimState :=
  if (b_high bar >=? q_ask q)%num then
    match applyFill (lots s) short_lot (quoteSize cfg) (q_ask q) with
    | Some (lots', realised) =>
        Some (mkSim (vol s) lots' (inventory s - quoteSize cfg)%num (realisedPnl s + realised)%num
                    (bidFills s) (S (askFills s)) (killed s) (priorMid s))
    | None => None
    end
  else Some s.

(** The trading half of the loop body. *)
Definition trade_bar (cfg : SimConfig A) (bar : Bar A) (s : SimState) : option SimState :=
  if killed s then Some s
  else
    let q := quotes (strategy cfg) (priorMid s) (inventory s) (realisedVol M (vol s)) in
    match bid_leg cfg q bar s with
    | Some s1 =>
        match ask_leg cfg q bar s1 with
        | Some s2 =>
            Some (if (realisedPnl s2 <? - killThresholdUsdc cfg)%num
                  then mkSim (vol s2) (lots s2) (inventory s2) (realisedPnl s2)
                             (bidFills s2) (askFills s2) true (priorMid s2)
                  else s2)
        | None => None
        end
    | None => None
    end.

(** The whole loop body: trade, then record the close. *)
Definition sim_bar (cfg : SimConfig A) (s : SimState) (bar : Bar A) : option SimState :=
  match trade_bar cfg bar s with
  | Some s => Some (mkSim (record (tsMs bar) (b_close bar) (vol s)) (lots s) (inventory s) (realisedPnl s)
                          (bidFills s) (askFills s) (killed s) (b_close bar))
  | None => None
  end.

Fixpoint sim_bars (cfg : SimConfig A) (bars : list (Bar A)) (s : SimState) : option SimState :=
  match bars with
  | [] => Some s
  | bar :: bars => match sim_bar cfg s bar with Some s => sim_bars cfg bars s | None => None end
  end.

Definition sim_init (cfg : SimConfig A) (first : Bar A) : SimState :=
  mkSim (record (tsMs first) (b_close first) (new_VolWindow (volWindowMs cfg)))
        [] (nint 0) (nint 0) 0 0 false (b_close first).

Definition lot_value (finalClose : A) (lot : Lot A) : A :=
  let sign := match l_side lot with long_lot => nint 1 | short_lot => nint (-1) end in
  (sign * l_size lot * (finalClose - l_price lot))%num.

Definition mark_lots (finalClose : A) (lots : list (Lot A)) : A :=
  fold_left (fun acc lot => (acc + lot_value finalClose lot)%num) lots (nint 0).

Definition simulateMarket (market : string) (bars : list (Bar A)) (cfg : SimConfig A)
  : option (MarketResult A) :=
  match bars with
  | first :: _ :: _ =>
      match sim_bars cfg (tail bars) (sim_init cfg first) with
      | Some s =>
          let finalClose := b_close (List.last bars first) in
          Some {| r_market := market;
                  r_fills := bidFills s + askFills s;
                  r_bidFills := bidFills s;
                  r_askFills := askFills s;
                  r_realisedPnl := realisedPnl s;
                  r_finalInventory := inventory s;
                  r_markToMarketPnl := (realisedPnl s + mark_lots finalClose (lots s))%num;
                  r_killed := killed s |}
      | None => None
      end
  | _ => Some (mkResult market 0 0 0 (nint 0) (nint 0) (nint 0) false)
  end.
End Counterparty.

Arguments mkSim {A} _ _ _ _ _ _ _ _.
Arguments vol {A} _.
Arguments lots {A} _.
Arguments inventory {A} _.
Arguments realisedPnl {A} _.
Arguments bidFills {A} _.
Arguments askFills {A} _.
Arguments killed {A} _.
Arguments priorMid {A} _.
