(* ===== verification/ReplayTape.v ===== *)
(** * Bars and the command line of the replay

    [scripts/lib/sim/tape.ts] (the seeded synthetic tape and the download of
    Binance klines) and [scripts/replay-binance.ts] (argument parsing, the run
    over the three markets, the exit code).  Everything here is binary64; the
    generator's integers are kept at 32 bits with the sign the operators of
    the language give them. *)

From S2P Require Import Prelude JsNum JsText Replay.
From Stdlib Require Import SpecFloat Ascii.
#[local] Open Scope Z_scope.

Record TapeMarketSpec := mkSpec {
  t_market : string;
  binanceSymbol : string;
  startPrice : number;
  annualVol : number
}.

Definition DEFAULT_MARKETS : list TapeMarketSpec := [
  mkSpec "btc-usd" "BTCUSDT" (nint 100000) (n_lit 55 (-2));
  mkSpec "eth-usd" "ETHUSDT" (nint 3500) (n_lit 70 (-2));
  mkSpec "sol-usd" "SOLUSDT" (nint 200) (n_lit 90 (-2))
].

Definition ONE_MIN_MS : Z := 60000.
Definition ONE_DAY_MS : Z := 24 * 60 * 60000.
Definition MIN_PER_YEAR : Z := 525600.

(** ** The generator *)

(** [x >>> n]: an unsigned shift of [ToUint32 x]. *)
Definition ushr (x n : Z) : Z := Z.shiftr (toUint32 x) n.

(** [x ^ y] and [x | y]: on the 32-bit values, with a signed result. *)
Definition bxor (x y : Z) : Z := toInt32 (Z.lxor (toInt32 x) (toInt32 y)).
Definition bor (x y : Z) : Z := toInt32 (Z.lor (toInt32 x) (toInt32 y)).

(** FNV-1a over the code units. *)
Fixpoint hash_from (h : Z) (s : string) : Z :=
  match s with
  | EmptyString => h
  | String c s => hash_from (imul (bxor h (Z.of_N (N_of_ascii c))) 16777619) s
  end.

Definition hashString (s : string) : Z := ushr (hash_from 2166136261 s) 0.

(** One call of the closure [mulberry32] returns: the new value of [a] and
    the 32-bit word that is divided by 2^32. *)
Definition mulberry_next (a : Z) : Z * Z :=
  let a := ushr (a + 1831565813) 0 in
  let t := a in
  let t := imul (bxor t (ushr t 15)) (bor t 1) in
  let t := bxor t (t + imul (bxor t (ushr t 7)) (bor t 61)) in
  (a, ushr (bxor t (ushr t 14)) 0).

Definition mulberry32 (seed : Z) : Z := ushr seed 0.

Definition rng (a : Z) : Z * number :=
  let '(a, w) := mulberry_next a in (a, (num_of_Z w / num_of_Z 4294967296)%num).

Definition Math_PI : number := n_lit 3141592653589793 (-15).

Section Tape.
Variable M : MathFns number.

Definition gauss (a : Z) : Z * number :=
  let '(a, r1) := rng a in
  let u1 := n_max r1 (n_lit 1 (-12)) in
  let '(a, u2) := rng a in
  (a, (m_sqrt M (nint (-2) * m_log M u1) * m_cos M (nint 2 * Math_PI * u2))%num).

(** [Math.max] and [Math.min] of the four prices of a bar. *)
Definition max4 (w x y z : number) : number := n_max (n_max (n_max w x) y) z.
Definition min4 (w x y z : number) : number := n_min (n_min (n_min w x) y) z.

Definition synthetic_tick (sigmaPerMin : number) (a : Z) (from : number) : Z * number :=
  let '(a, g) := gauss a in
  (a, (from * m_exp M (sigmaPerMin * g * n_lit 5 (-1)))%num).

(** The loop of [generateSyntheticTape], [n] bars from index [i]. *)
Fixpoint synthetic_bars (n : nat) (i : Z) (startMs sigmaPerMin : number) (a : Z) (close : number)
  : list (Bar number) :=
  match n with
  | O => []
  | S n =>
      let open := close in
      let '(a, tick1) := synthetic_tick sigmaPerMin a open in
      let '(a, tick2) := synthetic_tick sigmaPerMin a tick1 in
      let '(a, tick3) := synthetic_tick sigmaPerMin a tick2 in
      let close := tick3 in
      mkBar (startMs + num_of_Z i * num_of_Z ONE_MIN_MS)%num open
            (max4 open tick1 tick2 tick3) (min4 open tick1 tick2 tick3) close
      :: synthetic_bars n (i + 1) startMs sigmaPerMin a close
  end.

(** [new Array(len)] of a number: an array length is an integer below 2^32,
    anything else is a RangeError. *)
Definition array_length (x : number) : option nat :=
  let z := num_trunc x in
  if (num_of_Z z =? x)%num && (0 <=? z) && (z <? 2 ^ 32) then Some (Z.to_nat z) else None.

Definition generateSyntheticTape (spec : TapeMarketSpec) (days startMs : number)
  : result (list (Bar number)) :=
  let minutes := (days * nint 24 * nint 60)%num in
  let dt := (nint 1 / num_of_Z MIN_PER_YEAR)%num in
  let sigmaPerMin := (annualVol spec * m_sqrt M dt)%num in
  let a := mulberry32 (hashString (t_market spec +:+ ":" +:+ num_toString startMs)) in
  match array_length minutes with
  | Some n => Ok (synthetic_bars n 0 startMs sigmaPerMin a (startPrice spec))
  | None => Throw (mkError "RangeError" "Invalid array length")
  end.

(** ** Binance klines *)

(** The cells of a kline row that are read: the opening time is a number,
    the prices are decimal strings. *)
Record Kline := mkKline { k_ts : number; k_open : string; k_high : string; k_low : string; k_close : string }.

Definition bar_of_kline (row : Kline) : Bar number :=
  mkBar (k_ts row) (Number_of_string (k_open row)) (Number_of_string (k_high row))
        (Number_of_string (k_low row)) (Number_of_string (k_close row)).

(** What one request gives: a rejected promise, or a reply with its [ok]
    flag, its status, and the body that [resp.json()] resolves to. *)
Record KlineReply := mkReply { rep_ok : bool; rep_status : Z; rep_json : result (list Kline) }.

(** The network answers the [n]-th request for a URL. *)
Variable fetch : nat -> string -> result KlineReply.

Definition kline_url (spec : TapeMarketSpec) (cursor : number) : string :=
  "https://api.binance.com/api/v3/klines?symbol=" +:+ binanceSymbol spec +:+
  "&interval=1m&startTime=" +:+ num_toString cursor +:+ "&limit=1000".

(** The download loop.  Every page that does not end it brings a bar, so
    [minutes] passes are enough; [None] is a loop that was still running. *)
Fixpoint fetch_pages (fuel : nat) (k : nat) (spec : TapeMarketSpec) (minutes cursor : number)
  (bars : list (Bar number)) : option (nat * result (list (Bar number))) :=
  if (num_of_Z (Z.of_nat (length bars)) <? minutes)%num then
    match fuel with
    | O => None
    | S fuel =>
        match fetch k (kline_url spec cursor) with
        | Throw e => Some (S k, Throw e)
        | Ok resp =>
            if negb (rep_ok resp) then
              Some (S k, throw_error ("binance fetch " +:+ binanceSymbol spec +:+ ": " +:+ bigint_toString (rep_status resp)))
            else
              match rep_json resp with
              | Throw e => Some (S k, Throw e)
              | Ok [] => Some (S k, Ok bars)
              | Ok (row :: rows) =>
                  let lastRow := List.last (row :: rows) row in
                  fetch_pages fuel (S k) spec minutes (k_ts lastRow + num_of_Z ONE_MIN_MS)%num
                    (bars ++ map bar_of_kline (row :: rows))
              end
        end
    end
  else Some (k, Ok bars).

(** [bars.slice(0, end)]: [end] is truncated, NaN is 0, and a negative end
    counts from the back. *)
Definition slice_end (x : number) (bars : list (Bar number)) : list (Bar number) :=
  match x with
  | S754_infinity false => bars
  | S754_infinity true => []
  | _ =>
      let z := num_trunc x in
      if z <? 0 then take (Z.to_nat (Z.of_nat (length bars) + z)) bars else take (Z.to_nat z) bars
  end.

Definition fetchBinanceTape (fuel : nat) (k : nat) (spec : TapeMarketSpec) (days endMs : number)
  : option (nat * result (list (Bar number))) :=
  let minutes := (days * nint 24 * nint 60)%num in
  let cursor := (endMs - days * num_of_Z ONE_DAY_MS)%num in
  match fetch_pages fuel k spec minutes cursor [] with
  | Some (k, r) => Some (k, result_map (slice_end minutes) r)
  | None => None
  end.
End Tape.

(** ** replay-binance.ts *)

Inductive Source := synthetic | binance.

Record CliArgs := mkArgs {
  a_source : Source;
  a_days : number;
  a_quoteSize : number;
  a_killUsdc : number;
  a_startMs : number
}.

Definition default_args : CliArgs :=
  mkArgs synthetic (nint 30) (n_lit 5 (-2)) (nint 500) (nint 1745539200000).

(** [Number(argv[++i])]: the value after the flag, [undefined] at the end. *)
Definition Number_arg (v : option string) : number :=
  match v with Some s => Number_of_string s | None => NaN end.

Fixpoint parse_flags (argv : list string) (out : CliArgs) : result CliArgs :=
  match argv with
  | [] => Ok out
  | flag :: rest =>
      let value := head rest in
      let continue (out : CliArgs) :=
        match rest with
        | [] => Ok out
        | _ :: rest' => parse_flags rest' out
        end in
      if String.eqb flag "--source" then
        match value with
        | Some "synthetic" => continue (mkArgs synthetic (a_days out) (a_quoteSize out) (a_killUsdc out) (a_startMs out))
        | Some "binance" => continue (mkArgs binance (a_days out) (a_quoteSize out) (a_killUsdc out) (a_startMs out))
        | v => throw_error ("--source must be synthetic|binance (got " +:+ default "undefined" v +:+ ")")
        end
      else if String.eqb flag "--days" then
        continue (mkArgs (a_source out) (Number_arg value) (a_quoteSize out) (a_killUsdc out) (a_startMs out))
      else if String.eqb flag "--quote-size" then
        continue (mkArgs (a_source out) (a_days out) (Number_arg value) (a_killUsdc out) (a_startMs out))
      else if String.eqb flag "--kill-usdc" then
        continue (mkArgs (a_source out) (a_days out) (a_quoteSize out) (Number_arg value) (a_startMs out))
      else if String.eqb flag "--start-ms" then
        continue (mkArgs (a_source out) (a_days out) (a_quoteSize out) (a_killUsdc out) (Number_arg value))
      else throw_error ("unknown flag: " +:+ flag)
  end.

Definition parseArgs (argv : list string) : result CliArgs := parse_flags argv default_args.

Definition fmt (n : number) (digits : nat) : string :=
  (if (n >=? nint 0)%num then "+" else "") +:+ toFixed n digits.

(** What the tool does that can be observed: lines on the two consoles and
    the exit code of the process. *)
Inductive Console := log_line (s : string) | error_line (s : string) | error_value (e : JsError).

Section Main.
Variable M : MathFns number.
Variable fetch : nat -> string -> result KlineReply.
Variable now : nat -> number.
Variable fuel : nat.

(** [k] counts the requests made, and [now k] is the clock when [Date.now]
    is read after them. *)
Definition loadTape (k : nat) (spec : TapeMarketSpec) (args : CliArgs)
  : option (nat * result (list (Bar number))) :=
  match a_source args with
  | binance => fetchBinanceTape fetch fuel k spec (a_days args) (now k)
  | synthetic => Some (k, generateSyntheticTape M spec (a_days args) (a_startMs args))
  end.

Definition nat_text (n : nat) : string := bigint_toString (Z.of_nat n).

Definition market_line (spec : TapeMarketSpec) (r : MarketResult number) : string :=
  "  " +:+ padEnd (t_market spec) 8 " " +:+ " fills=" +:+ padStart (nat_text (r_fills r)) 5 " " +:+ " " +:+
  "bid=" +:+ padStart (nat_text (r_bidFills r)) 5 " " +:+ " ask=" +:+ padStart (nat_text (r_askFills r)) 5 " " +:+ " " +:+
  "realised=" +:+ fmt (r_realisedPnl r) 2 +:+ " inv=" +:+ fmt (r_finalInventory r) 4 +:+ " " +:+
  "m2m=" +:+ fmt (r_markToMarketPnl r) 2 +:+ (if r_killed r then " KILLED" else "").

(** The loop over the markets: the lines printed, and the results or the
    error that left the loop. *)
Fixpoint run_markets (k : nat) (specs : list TapeMarketSpec) (args : CliArgs) (cfg : SimConfig number)
  (results : list (MarketResult number)) (out : list Console)
  : option (list Console * result (list (MarketResult number))) :=
  match specs with
  | [] => Some (out, Ok results)
  | spec :: specs =>
      match loadTape k spec args with
      | None => None
      | Some (_, Throw e) => Some (out, Throw e)
      | Some (k, Ok bars) =>
          match simulateMarket M (t_market spec) bars cfg with
          | None => None
          | Some r => run_markets k specs args cfg (results ++ [r]) (out ++ [log_line (market_line spec r)])
          end
      end
  end.

Definition net_pnl (results : list (MarketResult number)) : number :=
  fold_left (fun a r => (a + r_markToMarketPnl r)%num) results (nint 0).

Definition loss_lines (results : list (MarketResult number)) : list Console :=
  flat_map (fun r => if (r_markToMarketPnl r <? nint 0)%num
                     then [error_line ("  " +:+ r_market r +:+ ": " +:+ fmt (r_markToMarketPnl r) 2 +:+ " USDC")]
                     else []) results.

Definition config_of (args : CliArgs) : SimConfig number :=
  mkSimConfig DEFAULT_STRATEGY (a_quoteSize args) (nint (15 * 60 * 1000)) (a_killUsdc args).

Definition banner (args : CliArgs) : string :=
  "replay-sim source=" +:+ (match a_source args with synthetic => "synthetic" | binance => "binance" end) +:+
  " days=" +:+ num_toString (a_days args) +:+ " quote_size=" +:+ num_toString (a_quoteSize args) +:+ " " +:+
  "kill_usdc=" +:+ num_toString (a_killUsdc args).

Definition newline : string := String (ascii_of_nat 10) "".

(** [main] with its [catch]: the consoles and the exit code. *)
Definition main (argv : list string) : option (list Console * Z) :=
  match parseArgs argv with
  | Throw e => Some ([error_value e], 1)
  | Ok args =>
      match run_markets 0 DEFAULT_MARKETS args (config_of args) [] [log_line (banner args)] with
      | None => None
      | Some (out, Throw e) => Some (out ++ [error_value e], 1)
      | Some (out, Ok results) =>
          let netPnl := net_pnl results in
          let out := out ++ [log_line ("net counterparty PnL = " +:+ fmt netPnl 2 +:+ " USDC")] in
          if (netPnl <? nint 0)%num then
            Some (out ++ [error_line (newline +:+ "FAIL: net counterparty PnL is negative at default params.");
                          error_line "Loss attribution:"] ++ loss_lines results, 1)
          else Some (out ++ [log_line "PASS: net counterparty PnL >= 0 at default params."], 0)
      end
  end.
End Main.
