(* ===== verification/ReplayThms.v ===== *)
(** * What the replay guarantees

    Termination and the kill switch hold of the binary64 program, whatever the
    numbers (NaN and infinities included); the accounting identity and the
    shape of the quotes are stated in exact rationals. *)

From S2P Require Import Prelude JsNum JsText FloatFacts Replay ReplayTape.
From Stdlib Require Import SpecFloat Ascii QArith Qabs Lqa.
#[local] Open Scope Z_scope.

(** ** Termination *)

Lemma num_sub_self x :
  num_sub x x = S754_zero false \/ num_sub x x = S754_nan.
Proof.
  destruct x as [[]|[]| |s m e]; cbn; auto. left.
  unfold num_sub, SFsub. rewrite Z.min_id. unfold shl_align. rewrite Z.sub_diag. cbn.
  destruct s; cbn; rewrite ?Z.pos_sub_diag; reflexivity.
Qed.

(** A pass that keeps the head lot has used up the fill; the one exception is
    a head of size -Infinity, whose size becomes NaN. *)
Lemma kept_head_ends size remaining :
  SFltb (nint 0) remaining = true ->
  SFleb (num_sub size (num_min size remaining)) (num_lit 1 (-12)) = false ->
  SFltb (nint 0) (num_sub remaining (num_min size remaining)) = false \/
  num_sub size (num_min size remaining) = S754_nan.
Proof.
  intros Hpos Hkeep.
  assert (Hmin : num_min size remaining = size \/ num_min size remaining = remaining \/
                 num_min size remaining = S754_nan).
  { destruct size as [[]|[]| |[]], remaining as [[]|[]| |[]]; unfold num_min; auto; try done;
      try match goal with |- context [if ?b then _ else _] => destruct b; auto end. }
  destruct Hmin as [E|[E|E]]; rewrite E in *.
  - destruct (num_sub_self size) as [E'|E']; [|by right].
    rewrite E' in Hkeep. vm_compute in Hkeep. done.
  - left. destruct (num_sub_self remaining) as [E'|E']; by rewrite E'.
  - right. by destruct size as [[]|[]| |].
Qed.

Lemma num_sub_nan x : num_sub x S754_nan = S754_nan.
Proof. by destruct x as [[]|[]| |]. Qed.

Lemma match_lots_stop fuel (lots : list (Lot number)) side remaining price realised :
  n_ltb (nint 0) remaining = false ->
  exists r, match_lots fuel lots side remaining price realised = Some r.
Proof. intros H. destruct fuel, lots as [|head rest]; cbn [match_lots]; rewrite ?H; by eexists. Qed.

Lemma match_lots_total side price : forall fuel (lots : list (Lot number)) remaining realised,
  (length lots < fuel)%nat ->
  exists r, match_lots fuel lots side remaining price realised = Some r.
Proof.
  induction fuel as [|fuel IH]; intros [|head rest] remaining realised Hf; simpl in Hf; try lia;
    [by eexists|].
  cbn [match_lots]. case_match eqn:Eg; [|by eexists].
  apply andb_true_iff in Eg as [Hpos Hside].
  case_match eqn:Ekeep; [apply IH; lia|].
  destruct (kept_head_ends (l_size head) remaining) as [Hstop|Hnan]; [done|done|..].
  - by apply match_lots_stop.
  - destruct fuel as [|fuel]; [lia|]. cbn [match_lots]. case_match; [|by eexists].
    apply match_lots_stop. cbn [l_size n_sub n_min B64]. rewrite Hnan. cbn [num_min].
    by rewrite num_sub_nan.
Qed.

Lemma applyFill_total (lots : list (Lot number)) side size price :
  exists r, applyFill lots side size price = Some r.
Proof.
  unfold applyFill. destruct (match_lots_total side price (S (length lots)) lots size (nint 0)) as [[[l r] p] ->];
    [lia|]. by eexists.
Qed.

Lemma sim_bar_total M cfg (s : SimState (A := number)) bar : exists s', sim_bar M cfg s bar = Some s'.
Proof.
  unfold sim_bar, trade_bar. destruct (killed s); [by eexists|].
  set (q := quotes _ _ _ _). unfold bid_leg.
  assert (Hask : forall s1, exists s2, ask_leg cfg q bar s1 = Some s2).
  { intros s1. unfold ask_leg. case_match; [|by eexists].
    destruct (applyFill_total (lots s1) short_lot (quoteSize cfg) (q_ask q)) as [[? ?] ->]. by eexists. }
  destruct (n_leb (b_low bar) (q_bid q)); [destruct (applyFill_total (lots s) long_lot (quoteSize cfg) (q_bid q)) as [[? ?] ->]|];
    (match goal with |- context [ask_leg _ _ _ ?s1] => destruct (Hask s1) as [? ->] end); by eexists.
Qed.

Lemma sim_bars_total M cfg bars : forall s : SimState (A := number), exists s', sim_bars M cfg bars s = Some s'.
Proof.
  induction bars as [|bar bars IH]; intros s; cbn; [by eexists|].
  destruct (sim_bar_total M cfg s bar) as [s1 ->]. apply IH.
Qed.

(** ** The kill switch *)

(** The fields a trade changes. *)
Definition book_of {A} (s : SimState (A := A)) : list (Lot A) * A * A * nat * nat :=
  (lots s, inventory s, realisedPnl s, bidFills s, askFills s).

Lemma sim_bar_killed {A} `{Arith A} M cfg (s s' : SimState (A := A)) bar :
  killed s = true -> sim_bar M cfg s bar = Some s' -> killed s' = true /\ book_of s' = book_of s.
Proof. unfold sim_bar, trade_bar. intros Hk. rewrite Hk. by intros [= <-]. Qed.

Lemma sim_bars_killed {A} `{Arith A} M cfg bars : forall s s' : SimState (A := A),
  killed s = true -> sim_bars M cfg bars s = Some s' -> killed s' = true /\ book_of s' = book_of s.
Proof.
  induction bars as [|bar bars IH]; intros s s' Hk; cbn; [by intros [= <-]|].
  case_match eqn:E; [|done]. intros Hr. destruct (sim_bar_killed _ _ _ _ _ Hk E) as [Hk' Hb].
  destruct (IH _ _ Hk' Hr) as [? ->]. by rewrite Hb.
Qed.

Lemma leg_keeps_switch {A} `{Arith A} cfg q bar (s s1 s2 : SimState (A := A)) :
  bid_leg cfg q bar s = Some s1 -> ask_leg cfg q bar s1 = Some s2 -> killed s2 = killed s.
Proof.
  unfold bid_leg, ask_leg. intros H1 H2.
  assert (killed s1 = killed s) as <- by (repeat case_match; simplify_eq/=; done).
  repeat case_match; simplify_eq/=; done.
Qed.

Lemma sim_bar_switch {A} `{Arith A} M cfg (s s' : SimState (A := A)) bar :
  killed s = false -> sim_bar M cfg s bar = Some s' ->
  killed s' = n_ltb (realisedPnl s') (n_neg (killThresholdUsdc cfg)).
Proof.
  unfold sim_bar, trade_bar. intros Hk. rewrite Hk.
  destruct (bid_leg _ _ _ _) as [s1|] eqn:E1; [|done].
  destruct (ask_leg _ _ _ _) as [s2|] eqn:E2; [|done].
  pose proof (leg_keeps_switch _ _ _ _ _ _ E1 E2) as Hs. rewrite Hk in Hs.
  intros [= <-]. cbn. destruct (n_ltb (realisedPnl s2) _) eqn:E; cbn; by rewrite E.
Qed.

Lemma kill_switch_trips {A} `{Arith A} M cfg bars : forall s s' : SimState (A := A),
  killed s = false -> sim_bars M cfg bars s = Some s' ->
  if killed s' then
    exists before bar after s1, bars = before ++ bar :: after /\
      sim_bars M cfg (before ++ [bar]) s = Some s1 /\
      n_ltb (realisedPnl s1) (n_neg (killThresholdUsdc cfg)) = true /\
      (forall pre s0, pre `prefix_of` before -> pre <> [] -> sim_bars M cfg pre s = Some s0 ->
         n_ltb (realisedPnl s0) (n_neg (killThresholdUsdc cfg)) = false) /\
      book_of s' = book_of s1
  else
    forall pre s0, pre `prefix_of` bars -> pre <> [] -> sim_bars M cfg pre s = Some s0 ->
      n_ltb (realisedPnl s0) (n_neg (killThresholdUsdc cfg)) = false.
Proof.
  induction bars as [|bar bars IH]; intros s s' Hk.
  { cbn. intros [= <-]. rewrite Hk. intros pre s0 Hp Hne. by apply prefix_nil_inv in Hp. }
  cbn [sim_bars]. destruct (sim_bar M cfg s bar) as [s1|] eqn:E; [|done]. intros Hr.
  pose proof (sim_bar_switch _ _ _ _ _ Hk E) as Hsw.
  destruct (killed s1) eqn:Hk1.
  - destruct (sim_bars_killed _ _ _ _ _ Hk1 Hr) as [-> Hb].
    exists [], bar, bars, s1. cbn. rewrite E. repeat split; try done.
    intros pre s0 Hp Hne. by apply prefix_nil_inv in Hp.
  - assert (Hstep : forall l pre s0, pre `prefix_of` bar :: l -> pre <> [] -> sim_bars M cfg pre s = Some s0 ->
      (forall pre s0, pre `prefix_of` l -> pre <> [] -> sim_bars M cfg pre s1 = Some s0 ->
        n_ltb (realisedPnl s0) (n_neg (killThresholdUsdc cfg)) = false) ->
      n_ltb (realisedPnl s0) (n_neg (killThresholdUsdc cfg)) = false).
    { intros l [|b pre] s0 Hp Hne Hs Hl; [done|]. apply prefix_cons_inv_1 in Hp as Hb. subst b.
      apply prefix_cons_inv_2 in Hp. cbn [sim_bars] in Hs. rewrite E in Hs.
      destruct pre as [|b pre]; [by injection Hs as <-|]. by eapply Hl. }
    specialize (IH s1 s' Hk1 Hr). destruct (killed s').
    + destruct IH as (before & b & after & s2 & -> & Hs2 & Hlt & Hpre & Hb).
      exists (bar :: before), b, after, s2. cbn. rewrite E. repeat split; try done.
      intros pre s0 Hp Hne Hs. by eapply Hstep.
    + intros pre s0 Hp Hne Hs. by eapply Hstep.
Qed.

(** C40: the simulation of a market returns on every tape, whatever the numbers
    are, and its kill switch is final.  When the result is [killed] there is a
    bar at which the realised profit first fell below the threshold, and the
    lots, inventory, profit and fill counts of the result are those at that
    bar; when it is not, the realised profit stayed at or above the threshold
    (or was not a number) at every bar. *)
Theorem kill_switch_is_final (M : MathFns number) market first second rest cfg :
  let bars := first :: second :: rest in
  let below s := n_ltb (realisedPnl s) (n_neg (killThresholdUsdc cfg)) in
  let after_bars pre := sim_bars M cfg pre (sim_init cfg first) in
  exists r s, simulateMarket M market bars cfg = Some r /\
    after_bars (second :: rest) = Some s /\
    r_killed r = killed s /\ r_realisedPnl r = realisedPnl s /\
    r_bidFills r = bidFills s /\ r_askFills r = askFills s /\ r_finalInventory r = inventory s /\
    if r_killed r then
      exists before bar after s1, second :: rest = before ++ bar :: after /\
        after_bars (before ++ [bar]) = Some s1 /\ below s1 = true /\
        (forall pre s0, pre `prefix_of` before -> pre <> [] -> after_bars pre = Some s0 -> below s0 = false) /\
        book_of s = book_of s1
    else
      forall pre s0, pre `prefix_of` second :: rest -> pre <> [] -> after_bars pre = Some s0 -> below s0 = false.
Proof.
  cbn zeta. destruct (sim_bars_total M cfg (second :: rest) (sim_init cfg first)) as [s Hs].
  unfold simulateMarket. cbn [tail]. rewrite Hs. do 2 eexists. split; [done|]. cbn. repeat split; try done.
  apply (kill_switch_trips M cfg (second :: rest) (sim_init cfg first) s eq_refl Hs).
Qed.

(** ** FIFO accounting *)

Definition signQ (side : LotSide) : Q := match side with long_lot => 1 | short_lot => -(1) end.

(** Lots of one side, all of the size that is quoted. *)
Definition uniform (q : Q) (ls : list (Lot Q)) : Prop :=
  exists side, Forall (fun l => l_side l = side /\ l_size l = q) ls.

Lemma nint_Q z : nint z = inject_Z z.
Proof. unfold nint. cbn -[Z.mul]. by rewrite Z.mul_1_r. Qed.

Lemma lot_value_Q F l : (lot_value F l == signQ (l_side l) * l_size l * (F - l_price l))%Q.
Proof. unfold lot_value. destruct (l_side l); cbn [n_mul n_sub QArithI]; rewrite nint_Q; cbn [signQ]; unfold inject_Z; ring. Qed.

Lemma mark_acc F (ls : list (Lot Q)) : forall a,
  (fold_left (fun acc lot => (acc + lot_value F lot)%num) ls a == a + mark_lots F ls)%Q.
Proof.
  induction ls as [|l ls IH]; intros a; unfold mark_lots; cbn [fold_left]; [rewrite nint_Q; cbn; ring|].
  rewrite IH. cbn [n_add QArithI]. rewrite (IH (nint 0 + _)%Q), nint_Q. unfold inject_Z. ring.
Qed.

Lemma mark_nil F : (mark_lots (A := Q) F [] == 0)%Q.
Proof. reflexivity. Qed.

Lemma mark_cons F l (ls : list (Lot Q)) : (mark_lots F (l :: ls) == lot_value F l + mark_lots F ls)%Q.
Proof. unfold mark_lots at 1. cbn [fold_left]. rewrite mark_acc, nint_Q. cbn [n_add QArithI]. unfold inject_Z. ring. Qed.

Lemma mark_app F (ls ls' : list (Lot Q)) : (mark_lots F (ls ++ ls') == mark_lots F ls + mark_lots F ls')%Q.
Proof.
  induction ls as [|l ls IH]; cbn [app]; [rewrite mark_nil; ring|]. rewrite !mark_cons, IH. ring.
Qed.

(** A fill against lots of its own size closes the oldest opposite lot or
    opens a new one; what it realises is the value the position loses. *)
Lemma applyFill_uniform q ls side price :
  (0 < q)%Q -> uniform q ls ->
  exists ls' realised, applyFill ls side q price = Some (ls', realised) /\ uniform q ls' /\
    forall F, (realised + mark_lots F ls' == mark_lots F ls + signQ side * q * (F - price))%Q.
Proof.
  intros Hq [sd Hall].
  assert (Hlt : n_ltb (nint 0) q = true) by (rewrite nint_Q; by apply Qltb_lt).
  assert (Hz : n_ltb (nint 0) (n_sub q q) = false) by (rewrite nint_Q; apply Qltb_ge; cbn; unfold inject_Z; lra).
  assert (Hdust : n_leb (n_sub q q) (n_lit 1 (-12)) = true).
  { apply Qle_bool_iff. apply Qle_trans with 0%Q; [cbn; lra|]. vm_compute. discriminate. }
  assert (Hmin : n_min q q = q) by (cbn; by destruct (Qltb q q)).
  assert (Hopen : uniform q (ls ++ [mkLot side q price]) ->
    exists ls' realised, Some (ls ++ [mkLot side q price], nint 0) = Some (ls', realised) /\ uniform q ls' /\
      forall F, (realised + mark_lots F ls' == mark_lots F ls + signQ side * q * (F - price))%Q).
  { intros Hu. do 2 eexists. split; [done|]. split; [done|].
    intros F. rewrite mark_app, mark_cons, mark_nil, lot_value_Q, nint_Q. cbn. unfold inject_Z. ring. }
  unfold applyFill. destruct ls as [|head rest].
  { cbn [match_lots length]. rewrite Hlt. apply Hopen. exists side. by repeat constructor. }
  inversion Hall as [|? ? [Hside Hsize] Hrest]; subst.
  cbn [match_lots length]. rewrite Hlt. destruct (decide (l_side head = side)) as [Heq|Hne].
  - rewrite bool_decide_true by done. cbn [negb andb]. rewrite Hlt. apply Hopen.
    exists (l_side head). apply Forall_app. split; [done|]. by repeat constructor.
  - rewrite bool_decide_false by done. cbn [negb andb l_size]. rewrite Hmin, Hdust.
    exists rest. eexists. split; [|split; [by exists (l_side head)|]].
    { destruct rest; cbn [match_lots length]; repeat (rewrite Hz; cbn [andb]); reflexivity. }
    intros F. rewrite mark_cons, lot_value_Q, nint_Q.
    destruct (l_side head), side; try done; cbn; unfold inject_Z; ring.
Qed.

(** The trades of a bar and of a tape, as an outside observer records them:
    the side and the price of each fill. *)
Definition bar_trades {A} `{Arith A} (M : MathFns A) cfg (s : SimState (A := A)) bar : list (LotSide * A) :=
  if killed s then []
  else
    let q := quotes (strategy cfg) (priorMid s) (inventory s) (realisedVol M (vol s)) in
    (if n_leb (b_low bar) (q_bid q) then [(long_lot, q_bid q)] else []) ++
    (if n_leb (q_ask q) (b_high bar) then [(short_lot, q_ask q)] else []).

Fixpoint tape_trades {A} `{Arith A} (M : MathFns A) cfg bars (s : SimState (A := A)) : list (LotSide * A) :=
  match bars with
  | [] => []
  | bar :: bars =>
      bar_trades M cfg s bar ++
      match sim_bar M cfg s bar with Some s' => tape_trades M cfg bars s' | None => [] end
  end.

(** Cash paid and received for trades of size [q]. *)
Fixpoint cash (q : Q) (trades : list (LotSide * Q)) : Q :=
  match trades with
  | [] => 0
  | (side, price) :: trades => cash q trades - signQ side * q * price
  end.

Definition side_count (side : LotSide) {A} (trades : list (LotSide * A)) : nat :=
  length (filter (fun t => t.1 = side) trades).

Lemma cash_app q t t' : (cash q (t ++ t') == cash q t + cash q t')%Q.
Proof. induction t as [|[sd p] t IH]; cbn [app cash]; [ring|]. rewrite IH. ring. Qed.

Lemma side_count_app side {A} (t t' : list (LotSide * A)) :
  side_count side (t ++ t') = (side_count side t + side_count side t')%nat.
Proof. unfold side_count. by rewrite filter_app, length_app. Qed.

Lemma side_count_one side side' {A} (p : A) :
  side_count side [(side', p)] = if decide (side' = side) then 1%nat else 0%nat.
Proof. by destruct side, side'. Qed.

Lemma side_count_total {A} (t : list (LotSide * A)) :
  (side_count long_lot t + side_count short_lot t)%nat = length t.
Proof.
  induction t as [|[sd p] t IH]; [done|]. change ((sd, p) :: t) with ([(sd, p)] ++ t).
  rewrite !side_count_app, !side_count_one, length_app. cbn [length].
  destruct sd; [rewrite decide_True, decide_False by done|rewrite decide_False, decide_True by done]; lia.
Qed.

(** The books balance: at every price, realised profit plus the value of the
    open lots is the cash of the trades plus the value of the inventory. *)
Definition balanced (q : Q) (trades : list (LotSide * Q)) (s : SimState (A := Q)) : Prop :=
  uniform q (lots s) /\
  bidFills s = side_count long_lot trades /\ askFills s = side_count short_lot trades /\
  (inventory s == q * (inject_Z (Z.of_nat (bidFills s)) - inject_Z (Z.of_nat (askFills s))))%Q /\
  forall F, (realisedPnl s + mark_lots F (lots s) == cash q trades + inventory s * F)%Q.

Lemma inject_S n : (inject_Z (Z.of_nat (S n)) == inject_Z (Z.of_nat n) + 1)%Q.
Proof. rewrite Nat2Z.inj_succ, <- Z.add_1_r, inject_Z_plus. reflexivity. Qed.

Lemma bid_leg_balanced cfg q bar trades (s : SimState (A := Q)) :
  (0 < quoteSize cfg)%Q -> balanced (quoteSize cfg) trades s ->
  exists s', bid_leg cfg q bar s = Some s' /\ vol s' = vol s /\ priorMid s' = priorMid s /\ killed s' = killed s /\
    balanced (quoteSize cfg)
      (trades ++ if n_leb (b_low bar) (q_bid q) then [(long_lot, q_bid q)] else []) s'.
Proof.
  intros Hq (Hu & Hb & Ha & Hi & Hm). unfold bid_leg. case_match eqn:E.
  - destruct (applyFill_uniform _ _ long_lot (q_bid q) Hq Hu) as (ls' & rl & -> & Hu' & Hv).
    eexists. split; [done|]. do 3 (split; [done|]).
    split; [done|]. cbn [bidFills askFills inventory realisedPnl lots].
    rewrite !side_count_app, !side_count_one.
    rewrite decide_True, decide_False by done. repeat split; [lia|lia|..].
    + rewrite inject_S. cbn [n_add QArithI]. rewrite Hi. ring.
    + intros F. rewrite cash_app. cbn [n_add QArithI].
      specialize (Hm F). specialize (Hv F). cbn [signQ cash] in *. lra.
  - eexists. split; [done|]. rewrite app_nil_r. by repeat split.
Qed.

Lemma ask_leg_balanced cfg q bar trades (s : SimState (A := Q)) :
  (0 < quoteSize cfg)%Q -> balanced (quoteSize cfg) trades s ->
  exists s', ask_leg cfg q bar s = Some s' /\ vol s' = vol s /\ priorMid s' = priorMid s /\ killed s' = killed s /\
    balanced (quoteSize cfg)
      (trades ++ if n_leb (q_ask q) (b_high bar) then [(short_lot, q_ask q)] else []) s'.
Proof.
  intros Hq (Hu & Hb & Ha & Hi & Hm). unfold ask_leg. case_match eqn:E.
  - destruct (applyFill_uniform _ _ short_lot (q_ask q) Hq Hu) as (ls' & rl & -> & Hu' & Hv).
    eexists. split; [done|]. do 3 (split; [done|]).
    split; [done|]. cbn [bidFills askFills inventory realisedPnl lots].
    rewrite !side_count_app, !side_count_one.
    rewrite decide_False, decide_True by done. repeat split; [lia|lia|..].
    + rewrite inject_S. cbn [n_sub QArithI]. rewrite Hi. ring.
    + intros F. rewrite cash_app. cbn [n_add n_sub QArithI].
      specialize (Hm F). specialize (Hv F). cbn [signQ cash] in *. lra.
  - eexists. split; [done|]. rewrite app_nil_r. by repeat split.
Qed.

Lemma sim_bar_balanced M cfg bar trades (s : SimState (A := Q)) :
  (0 < quoteSize cfg)%Q -> balanced (quoteSize cfg) trades s ->
  exists s', sim_bar M cfg s bar = Some s' /\ balanced (quoteSize cfg) (trades ++ bar_trades M cfg s bar) s'.
Proof.
  intros Hq Hs. unfold sim_bar, trade_bar, bar_trades. destruct (killed s).
  { eexists. split; [done|]. by rewrite app_nil_r. }
  set (q := quotes _ _ _ _).
  destruct (bid_leg_balanced cfg q bar trades s Hq Hs) as (s1 & -> & _ & _ & _ & H1).
  destruct (ask_leg_balanced cfg q bar _ s1 Hq H1) as (s2 & -> & _ & _ & _ & H2).
  eexists. split; [done|]. rewrite app_assoc. destruct (n_ltb (realisedPnl s2) _); exact H2.
Qed.

Lemma sim_bars_balanced M cfg bars : forall trades (s : SimState (A := Q)),
  (0 < quoteSize cfg)%Q -> balanced (quoteSize cfg) trades s ->
  exists s', sim_bars M cfg bars s = Some s' /\ balanced (quoteSize cfg) (trades ++ tape_trades M cfg bars s) s'.
Proof.
  induction bars as [|bar bars IH]; intros trades s Hq Hs; cbn.
  { eexists. split; [done|]. by rewrite app_nil_r. }
  destruct (sim_bar_balanced M cfg bar trades s Hq Hs) as (s1 & E & H1). rewrite E.
  destruct (IH _ s1 Hq H1) as (s2 & -> & H2). eexists. split; [done|]. by rewrite app_assoc.
Qed.

(** C35: the profit the replay reports is the profit of its trades.  For every
    tape and every positive quote size, in exact arithmetic, the FIFO matching
    of lots leaves a marked-to-market profit equal to the cash paid and
    received over all fills plus the final inventory valued at the last close;
    the inventory is the quote size times the fills bought less the fills
    sold, and the fill counts are those of the trades made. *)
Theorem replay_profit_is_cash_plus_position (M : MathFns Q) market first second rest cfg :
  (0 < quoteSize cfg)%Q ->
  let bars := first :: second :: rest in
  let trades := tape_trades M cfg (second :: rest) (sim_init cfg first) in
  exists r, simulateMarket M market bars cfg = Some r /\
    (r_markToMarketPnl r == cash (quoteSize cfg) trades + r_finalInventory r * b_close (List.last bars first))%Q /\
    (r_finalInventory r ==
       quoteSize cfg * (inject_Z (Z.of_nat (r_bidFills r)) - inject_Z (Z.of_nat (r_askFills r))))%Q /\
    r_bidFills r = side_count long_lot trades /\ r_askFills r = side_count short_lot trades /\
    r_fills r = length trades.
Proof.
  intros Hq bars trades.
  destruct (sim_bars_balanced M cfg (second :: rest) [] (sim_init cfg first) Hq) as (s & E & Hs).
  { split; [by exists long_lot|]. do 2 (split; [done|]).
    unfold sim_init. cbn [inventory bidFills askFills realisedPnl lots cash Z.of_nat].
    rewrite !nint_Q. unfold inject_Z. split; [ring|]. intros F. rewrite mark_nil. ring. }
  destruct Hs as (_ & Hb & Ha & Hi & Hm). unfold simulateMarket. cbn [tail bars]. rewrite E.
  eexists. split; [done|]. cbn [r_markToMarketPnl r_finalInventory r_bidFills r_askFills r_fills].
  split; [apply Hm|]. split; [done|]. split; [done|]. split; [done|].
  rewrite Hb, Ha. apply side_count_total.
Qed.

Definition zeroMath : MathFns Q := mkMath Q (fun _ => 0%Q) (fun _ => 1%Q) (fun _ => 1%Q) (fun x => x) (fun x _ => x * x)%Q.

Definition demo_tape : list (Bar Q) :=
  [mkBar 0 100 100 100 100; mkBar 60000 100 101 99 100; mkBar 120000 100 100 99 99]%Q.

Lemma replay_profit_is_cash_plus_position_witness :
  exists r, simulateMarket zeroMath "btc-usd" demo_tape (mkSimConfig DEFAULT_STRATEGY (1#20) 900000 500)%Q = Some r /\
    r_fills r = 3%nat.
Proof.
  destruct (replay_profit_is_cash_plus_position zeroMath "btc-usd" (mkBar 0 100 100 100 100)%Q
    (mkBar 60000 100 101 99 100)%Q [mkBar 120000 100 100 99 99]%Q
    (mkSimConfig DEFAULT_STRATEGY (1#20) 900000 500)%Q ltac:(reflexivity)) as (r & E & _ & _ & _ & _ & H).
  exists r. split; [exact E|]. rewrite H. vm_compute. reflexivity.
Defined.

(** ** The quotes *)

Lemma clamp_Q x : let r := clamp x (nint (-1)) (nint 1) in
  (-(1) <= r <= 1)%Q /\ (0 <= x -> 0 <= r)%Q /\ (x <= 0 -> r <= 0)%Q.
Proof.
  unfold clamp. rewrite !nint_Q. cbn [n_ltb QArithI].
  destruct (Qltb x (inject_Z (-1))) eqn:E1; [apply Qltb_lt in E1|apply Qltb_ge in E1];
    [|destruct (Qltb (inject_Z 1) x) eqn:E2; [apply Qltb_lt in E2|apply Qltb_ge in E2]];
    unfold inject_Z in *; cbn zeta; repeat split; intros; lra.
Qed.

(** The signed inventory ratio is in [-1, 1] and has the sign of the
    inventory. *)
Lemma inventory_ratio_Q (p : StrategyParams Q) inv :
  let r := if n_ltb (nint 0) (invMax p) then clamp (n_div inv (invMax p)) (nint (-1)) (nint 1) else nint 0 in
  (-(1) <= r <= 1)%Q /\ (0 <= inv -> 0 <= r)%Q /\ (inv <= 0 -> r <= 0)%Q.
Proof.
  destruct (n_ltb (nint 0) (invMax p)) eqn:E; cbn zeta.
  - rewrite nint_Q in E. apply Qltb_lt in E.
    assert (Hi : (0 < / invMax p)%Q) by by apply Qinv_lt_0_compat.
    destruct (clamp_Q (n_div inv (invMax p))) as (Hb & Hp & Hn). cbn zeta in *. split; [done|].
    cbn [n_div QArithI] in *. unfold Qdiv in *. split; intros; [apply Hp|apply Hn]; nra.
  - rewrite nint_Q. unfold inject_Z. repeat split; intros; lra.
Qed.

(** The strategy quotes a positive two-sided market and leans against its
    inventory.  For a positive mid and parameters whose spread and skew stay
    below 200% and 100%, the bid is positive and below the ask; the gap is
    exactly [spreadBps] of their midpoint; the spread is at least the base
    spread and at most the base plus the full inventory and volatility
    penalties; the skew is bounded by [invSkewBpsAtMax]; and the midpoint is
    at or below [mid] when the inventory is long, at or above it when short. *)
Theorem quotes_two_sided (p : StrategyParams Q) mid inv v :
  let q := quotes p mid inv v in
  let centre := ((q_bid q + q_ask q) / 2)%Q in
  (0 < mid -> 0 < baseSpreadBps p -> 0 <= invPenaltyBpsAtMax p -> 0 <= volMultBps p ->
   0 <= invSkewBpsAtMax p -> invSkewBpsAtMax p < 10000 -> q_spreadBps q < 20000 ->
   0 < q_bid q /\ q_bid q < q_ask q /\
   q_ask q - q_bid q == centre * q_spreadBps q / 10000 /\
   baseSpreadBps p <= q_spreadBps q /\
   q_spreadBps q <= baseSpreadBps p + invPenaltyBpsAtMax p + n_max v 0 * volMultBps p /\
   - invSkewBpsAtMax p <= q_skewBps q /\ q_skewBps q <= invSkewBpsAtMax p /\
   (0 <= inv -> centre <= mid) /\ (inv <= 0 -> mid <= centre))%Q.
Proof.
  destruct (inventory_ratio_Q p inv) as ([Hlo Hhi] & Hp & Hn). unfold quotes. cbn zeta in *.
  lazymatch type of Hhi with (?x <= _)%Q => set (r := x) in * end. clearbody r.
  assert (Habs : (0 <= Qabs r <= 1)%Q) by (split; [apply Qabs_nonneg|apply Qabs_Qle_condition; lra]).
  assert (Hv : (0 <= n_max v (nint 0))%Q).
  { rewrite nint_Q. cbn. destruct (Qltb v (inject_Z 0)) eqn:E; [|apply Qltb_ge in E]; unfold inject_Z in *; lra. }
  change (n_max v 0%Q) with (n_max v (nint 0)). set (w := n_max v (nint 0)) in *. clearbody w.
  cbn [q_bid q_ask q_spreadBps q_skewBps n_add n_sub n_mul n_div n_neg n_abs QArithI]. rewrite !nint_Q.
  set (a := Qabs r) in *. clearbody a. unfold inject_Z.
  intros Hmid Hbase Hpen Hvm Hsk0 Hsk Hspread.
  set (spread := (baseSpreadBps p + a * invPenaltyBpsAtMax p + w * volMultBps p)%Q) in *.
  set (skew := (- r * invSkewBpsAtMax p)%Q) in *.
  assert (Hs1 : (baseSpreadBps p <= spread)%Q) by (unfold spread; nra).
  assert (Hs2 : (spread <= baseSpreadBps p + invPenaltyBpsAtMax p + w * volMultBps p)%Q) by (unfold spread; nra).
  assert (Hk1 : (- invSkewBpsAtMax p <= skew)%Q) by (unfold skew; nra).
  assert (Hk2 : (skew <= invSkewBpsAtMax p)%Q) by (unfold skew; nra).
  assert (Hk3 : (0 <= inv -> skew <= 0)%Q) by (intros; unfold skew; specialize (Hp ltac:(done)); nra).
  assert (Hk4 : (inv <= 0 -> 0 <= skew)%Q) by (intros; unfold skew; specialize (Hn ltac:(done)); nra).
  clearbody spread skew.
  change (10000 # 1)%Q with 10000%Q. change (2 # 1)%Q with 2%Q. change (1 # 1)%Q with 1%Q.
  assert (Hc : ((mid * (1 + skew / 10000) * (1 - spread / 2 / 10000) +
                 mid * (1 + skew / 10000) * (1 + spread / 2 / 10000)) / 2 == mid * (1 + skew / 10000))%Q) by field.
  set (c := (mid * (1 + skew / 10000))%Q) in *.
  assert (Hcpos : (0 < c)%Q) by (unfold c, Qdiv; change (/ 10000)%Q with (1 # 10000)%Q; nra).
  assert (Hcl : (0 <= inv -> c <= mid)%Q)
    by (intros; unfold c, Qdiv; change (/ 10000)%Q with (1 # 10000)%Q; specialize (Hk3 ltac:(done)); nra).
  assert (Hcr : (inv <= 0 -> mid <= c)%Q)
    by (intros; unfold c, Qdiv; change (/ 10000)%Q with (1 # 10000)%Q; specialize (Hk4 ltac:(done)); nra).
  clearbody c.
  assert (Hh : (spread / 2 / 10000 == spread * (1 # 20000))%Q) by field.
  repeat split; try done; rewrite ?Hc; auto; rewrite ?Hh; first [nra | field].
Qed.

Lemma quotes_two_sided_witness :
  let q := quotes DEFAULT_STRATEGY 100000%Q 50%Q (1 # 1000)%Q in (0 < q_bid q /\ q_bid q < q_ask q)%Q.
Proof.
  destruct (quotes_two_sided DEFAULT_STRATEGY 100000%Q 50%Q (1 # 1000)%Q) as (H1 & H2 & _);
    try reflexivity; try (vm_compute; discriminate). exact (conj H1 H2).
Defined.

(** ** The generator *)

(** mulberry32 on unsigned 32-bit words: every operation modulo 2^32. *)
Definition mulberry_word (a : Z) : Z :=
  let w x := x mod 2 ^ 32 in
  let t := w (Z.lxor a (Z.shiftr a 15) * Z.lor a 1) in
  let t := Z.lxor t (w (t + w (Z.lxor t (Z.shiftr t 7) * Z.lor t 61))) in
  Z.lxor t (Z.shiftr t 14).

Lemma toUint32_toInt32 x : toUint32 (toInt32 x) = toUint32 x.
Proof.
  unfold toUint32, toInt32. rewrite Zminus_mod_idemp_l. f_equal. lia.
Qed.

Lemma toUint32_ones x : toUint32 x = Z.land x (Z.ones 32).
Proof. unfold toUint32. by rewrite Z.land_ones. Qed.

Lemma toUint32_range x : 0 <= toUint32 x < 2 ^ 32.
Proof. apply Z.mod_pos_bound. lia. Qed.

Lemma toUint32_idemp x : toUint32 (toUint32 x) = toUint32 x.
Proof. unfold toUint32. by rewrite Zmod_mod. Qed.

Lemma bxor_word x y : toUint32 (bxor x y) = Z.lxor (toUint32 x) (toUint32 y).
Proof.
  unfold bxor. rewrite toUint32_toInt32, <- (toUint32_toInt32 x), <- (toUint32_toInt32 y), !toUint32_ones.
  apply Z.bits_inj'. intros n Hn. rewrite !Z.lxor_spec, !Z.land_spec, Z.lxor_spec.
  by destruct (Z.testbit (toInt32 x) n), (Z.testbit (toInt32 y) n), (Z.testbit (Z.ones 32) n).
Qed.

Lemma bor_word x y : toUint32 (bor x y) = Z.lor (toUint32 x) (toUint32 y).
Proof.
  unfold bor. rewrite toUint32_toInt32, <- (toUint32_toInt32 x), <- (toUint32_toInt32 y), !toUint32_ones.
  apply Z.bits_inj'. intros n Hn. rewrite !Z.lor_spec, !Z.land_spec, Z.lor_spec.
  by destruct (Z.testbit (toInt32 x) n), (Z.testbit (toInt32 y) n), (Z.testbit (Z.ones 32) n).
Qed.

Lemma imul_word x y : toUint32 (imul x y) = toUint32 (toUint32 x * toUint32 y).
Proof. unfold imul. rewrite toUint32_toInt32. unfold toUint32. by rewrite <- Z.mul_mod by lia. Qed.

Lemma add_word x y : toUint32 (x + y) = toUint32 (toUint32 x + toUint32 y).
Proof. unfold toUint32. by rewrite <- Z.add_mod by lia. Qed.

Lemma ushr_word x n : 0 <= n -> toUint32 (ushr x n) = Z.shiftr (toUint32 x) n.
Proof.
  intros Hn. unfold ushr. unfold toUint32 at 1. apply Z.mod_small.
  pose proof (toUint32_range x). split; [apply Z.shiftr_nonneg; lia|].
  rewrite Z.shiftr_div_pow2 by done. eapply Z.le_lt_trans; [|apply H].
  apply Z.div_le_upper_bound; [lia|]. assert (1 <= 2 ^ n) by (apply Z.pow_le_mono_r with (b := 0); lia). nia.
Qed.

(** The tape's generator is mulberry32 on unsigned words.  Whatever the
    state, the signed 32-bit operators of the language compute the same word
    as arithmetic modulo 2^32, the word and the next state are in
    [0, 2^32) (so the quotient by 2^32 is below 1), and the state walks
    through 2^32 by a fixed odd step, so that it only returns to its start
    after 2^32 calls. *)
Theorem mulberry_is_word_arithmetic a :
  let '(a', w) := mulberry_next a in
  a' = (a + 1831565813) mod 2 ^ 32 /\ w = mulberry_word a' /\
  0 <= w < 2 ^ 32 /\ 0 <= a' < 2 ^ 32 /\
  forall n, 0 < n < 2 ^ 32 -> (a' + n * 1831565813) mod 2 ^ 32 <> a'.
Proof.
  unfold mulberry_next.
  assert (Ha : ushr (a + 1831565813) 0 = toUint32 (a + 1831565813)) by (unfold ushr; by rewrite Z.shiftr_0_r).
  rewrite Ha. set (b := toUint32 (a + 1831565813)).
  assert (Hb : toUint32 b = b) by apply toUint32_idemp.
  pose proof (toUint32_range (a + 1831565813)) as Hr. fold b in Hr.
  split; [done|]. split.
  - unfold mulberry_word. unfold ushr at 1. rewrite Z.shiftr_0_r.
    assert (E1 : forall x, x mod 2 ^ 32 = toUint32 x) by done.
    rewrite !bxor_word, !ushr_word by lia. rewrite !bxor_word, add_word, !imul_word, !bxor_word, !bor_word, !ushr_word by lia.
    rewrite !imul_word, !bxor_word, !bor_word, !ushr_word, Hb by lia. cbn zeta. rewrite !E1.
    change (toUint32 1) with 1. change (toUint32 61) with 61.
    reflexivity.
  - unfold ushr at 1. rewrite Z.shiftr_0_r. split; [apply toUint32_range|]. split; [done|].
    intros n Hn Heq.
    assert (Hd : (2 ^ 32 | n * 1831565813)).
    { apply Z.mod_divide; [lia|]. replace (n * 1831565813) with (b + n * 1831565813 - b) by lia.
      rewrite Zminus_mod, Heq, (Z.mod_small b), Z.sub_diag by lia. done. }
    rewrite Z.mul_comm in Hd. apply Z.gauss in Hd; [|reflexivity].
    apply Z.divide_pos_le in Hd; lia.
Qed.

(** ** The acceptance check *)

(** Nothing was bought or sold, whatever the counters say. *)
Definition idle (s : SimState (A := number)) : Prop := lots s = [] /\ realisedPnl s = nint 0.

Lemma sim_bar_idle M cfg (s s' : SimState (A := number)) bar :
  n_ltb (nint 0) (quoteSize cfg) = false -> idle s -> sim_bar M cfg s bar = Some s' -> idle s'.
Proof.
  intros Hq [Hl Hp]. unfold sim_bar, trade_bar. destruct (killed s); [by intros [= <-]|].
  set (q := quotes _ _ _ _).
  assert (Hfill : forall side price, applyFill [] side (quoteSize cfg) price = Some ([], nint 0)).
  { intros. unfold applyFill. cbn [match_lots length]. by rewrite Hq. }
  assert (H1 : exists s1, bid_leg cfg q bar s = Some s1 /\ idle s1).
  { unfold bid_leg. rewrite Hl, Hfill, Hp. destruct (n_leb _ _); eexists; split; done. }
  destruct H1 as (s1 & -> & Hl1 & Hp1).
  assert (H2 : exists s2, ask_leg cfg q bar s1 = Some s2 /\ idle s2).
  { unfold ask_leg. rewrite Hl1, Hfill, Hp1. destruct (n_leb _ _); eexists; split; done. }
  destruct H2 as (s2 & -> & Hl2 & Hp2). intros [= <-]. by destruct (SFltb (realisedPnl s2) _).
Qed.

Lemma sim_bars_idle M cfg bars : forall s s' : SimState (A := number),
  n_ltb (nint 0) (quoteSize cfg) = false -> idle s -> sim_bars M cfg bars s = Some s' -> idle s'.
Proof.
  induction bars as [|bar bars IH]; intros s s' Hq Hs; cbn; [by intros [= <-]|].
  destruct (sim_bar M cfg s bar) as [s1|] eqn:E; [|done]. apply IH; [done|]. by apply (sim_bar_idle M cfg s s1 bar).
Qed.

Lemma simulateMarket_idle (M : MathFns number) market bars cfg :
  n_ltb (nint 0) (quoteSize cfg) = false ->
  exists r, simulateMarket M market bars cfg = Some r /\ r_markToMarketPnl r = nint 0.
Proof.
  intros Hq. unfold simulateMarket.
  destruct bars as [|first [|second rest]]; [by eexists..|]. cbn [tail].
  destruct (sim_bars_total M cfg (second :: rest) (sim_init cfg first)) as [s Hs]. rewrite Hs.
  eexists. split; [done|]. cbn [r_markToMarketPnl].
  destruct (sim_bars_idle M cfg (second :: rest) (sim_init cfg first) s Hq) as [-> ->]; [by split|done|done].
Qed.

Lemma generateSyntheticTape_month M spec startMs :
  exists bars, generateSyntheticTape M spec (nint 30) startMs = Ok bars.
Proof.
  unfold generateSyntheticTape. cbn zeta.
  unfold array_length. set (m := (nint 30 * nint 24 * nint 60)%num).
  assert (E : (n_eqb (num_of_Z (num_trunc m)) m && (0 <=? num_trunc m)%Z && (num_trunc m <? 2 ^ 32)%Z)%bool = true)
    by (vm_compute; reflexivity).
  rewrite E. by eexists.
Qed.

(** The acceptance check passes when no trade has a size.  With
    [--quote-size] set to anything that is not a positive number, a word
    included, the counterparty counts fills but books none, the net profit is
    zero, and the tool prints PASS and exits with code 0. *)
Theorem unusable_quote_size_passes M fetch now fuel v :
  n_ltb (nint 0) (Number_of_string v) = false ->
  exists out, main M fetch now fuel ["--quote-size"; v] =
    Some (out ++ [log_line "PASS: net counterparty PnL >= 0 at default params."], 0).
Proof.
  intros Hv. unfold main, parseArgs. cbn [parse_flags head String.eqb Ascii.eqb Bool.eqb Number_arg default_args
    a_source a_days a_quoteSize a_killUsdc a_startMs].
  set (args := mkArgs synthetic _ _ _ _).
  assert (Hload : forall k spec, exists bars, loadTape M fetch now fuel k spec args = Some (k, Ok bars)).
  { intros k spec. destruct (generateSyntheticTape_month M spec (a_startMs args)) as [bars E].
    exists bars. unfold loadTape. cbn [a_source args]. by rewrite <- E. }
  assert (Hsim : forall spec bars, exists r, simulateMarket M (t_market spec) bars (config_of args) = Some r /\
            r_markToMarketPnl r = nint 0) by (intros; by apply simulateMarket_idle).
  assert (Hrun : forall specs k results out, Forall (fun r => r_markToMarketPnl r = nint 0) results ->
    exists out' results', run_markets M fetch now fuel k specs args (config_of args) results out = Some (out', Ok results')
      /\ Forall (fun r => r_markToMarketPnl r = nint 0) results').
  { induction specs as [|spec specs IH]; intros k results out Hres; cbn [run_markets]; [by do 2 eexists|].
    destruct (Hload k spec) as [bars ->]. destruct (Hsim spec bars) as (r & -> & Hr).
    apply IH, Forall_app. by repeat constructor. }
  destruct (Hrun DEFAULT_MARKETS 0%nat [] [log_line (banner args)] ltac:(constructor)) as (out & results & -> & Hres).
  assert (Hnet : net_pnl results = nint 0).
  { unfold net_pnl. induction Hres as [|r results Hr Hres IH]; [done|]. cbn [fold_left]. by rewrite Hr. }
  cbn zeta. rewrite Hnet. eexists. reflexivity.
Qed.

Definition roughMath : MathFns number :=
  mkMath number (fun x => x) (fun x => x) (fun x => x) num_sqrt (fun x _ => num_mul x x).

Lemma unusable_quote_size_passes_witness :
  exists out, main roughMath (fun _ _ => throw_error "offline") (fun _ => num_zero) 0 ["--quote-size"; "small"] =
    Some (out ++ [log_line "PASS: net counterparty PnL >= 0 at default params."], 0).
Proof. apply unusable_quote_size_passes. vm_compute. reflexivity. Defined.
