(* ===== verification/LoadTest.v ===== *)
(** * The load test

    scripts/load/k6-rest-and-ws.js: two workloads against the edge, a fleet of
    WebSocket subscribers that ramps up and holds, and a constant stream of
    orders.  The load generator runs the schedule; what it documents of a
    ramping executor is the hypothesis of the section [schedule]. *)
From S2P Require Import Prelude JsNum JsText JsColl Contract.
From Stdlib Require Import Ascii.
#[local] Open Scope Z_scope.

(** ** The options *)

(** Durations in seconds. *)
Record Stage := mkStage { sg_duration : Z; sg_target : Z }.

Record WsScenario := mkWsScenario { ws_startVUs : Z; ws_stages : list Stage; ws_gracefulRampDown : Z }.

Record OrderScenario := mkOrderScenario {
  os_rate : Z; os_timeUnit : Z; os_duration : Z; os_preAllocatedVUs : Z; os_maxVUs : Z; os_startTime : Z
}.

Record Options := mkOptions { o_websockets : WsScenario; o_orders : OrderScenario; o_thresholds : list (string * string) }.

Definition options : Options :=
  mkOptions
    (mkWsScenario 0 [mkStage 30 1000; mkStage 30 5000; mkStage 300 5000; mkStage 10 0] 10)
    (mkOrderScenario 2000 1 300 200 1000 60)
    [("order_ack_ms", "p(99)<30"); ("http_req_failed{scenario:orders}", "rate<0.01")].

Definition MARKETS : list MarketId := ["btc-usd"; "eth-usd"; "sol-usd"].

(** [MARKETS[n % MARKETS.length]]. *)
Definition market_of (n : Z) : MarketId := nth (Z.to_nat (n mod 3)) MARKETS EmptyString.

(** ** A subscriber *)

Inductive WsFrame := frame_subscribe (channel : string) | frame_pong.

Definition on_open (vu : Z) : list WsFrame :=
  [frame_subscribe ("orderbook." +:+ market_of vu); frame_subscribe ("trades." +:+ market_of vu)].

(** A frame that does not parse, or is not a ping, is ignored. *)
Definition on_message (type : option string) : list WsFrame :=
  match type with Some t => if String.eqb t "ping" then [frame_pong] else [] | None => [] end.

(** ** An order *)

Record LoadOrder := mkLoadOrder {
  lo_marketId : MarketId; lo_side : Side; lo_type : OrderType; lo_price : string; lo_qty : string;
  lo_timeInForce : TimeInForce; lo_nonce : string; lo_signature : string
}.

Definition placeOrder (now iter : Z) : LoadOrder :=
  mkLoadOrder (market_of iter) (if iter mod 2 =? 0 then buy else sell) limit "100000.0" "0.001" ioc
    (bigint_toString now +:+ bigint_toString iter)
    ("0x" +:+ str_join EmptyString (repeat "00" 65)).

(** The token the orders are sent with, from the environment or from the edge's
    development endpoint: its status and body. *)
Definition strip_bearer (s : string) : string := if String.prefix "Bearer " s then String.substring 7 (String.length s - 7) s else s.

Definition devToken (reply : Z * string) (trim : string -> string) : option string :=
  let '(status, body) := reply in if negb (status =? 200) then None else Some (strip_bearer (trim body)).

(** ** The schedule *)

(** When each stage begins and ends and where it leads, from where. *)
Fixpoint stage_spans (from at_ : Z) (ss : list Stage) : list (Z * Z * Z * Z) :=
  match ss with
  | [] => []
  | s :: ss => (at_, at_ + sg_duration s, from, sg_target s) :: stage_spans (sg_target s) (at_ + sg_duration s) ss
  end.

Definition spans : list (Z * Z * Z * Z) := stage_spans (ws_startVUs (o_websockets options)) 0 (ws_stages (o_websockets options)).

Section schedule.
(** The number of subscribers over time: during a stage it lies between the
    number the stage starts from and its target. *)
Variable vus : Z -> Z.
Hypothesis ramping : forall t0 t1 from target t,
  (t0, t1, from, target) ∈ spans -> t0 <= t <= t1 -> Z.min from target <= vus t <= Z.max from target.

(** The order load runs against the full fleet: from the first order to
    the last, five thousand subscribers are connected, and the stream makes up
    the two thousand orders a second for five minutes. *)
Theorem orders_meet_full_fleet t :
  os_startTime (o_orders options) <= t <= os_startTime (o_orders options) + os_duration (o_orders options) ->
  vus t = 5000 /\ os_rate (o_orders options) * (os_duration (o_orders options) / os_timeUnit (o_orders options)) = 600000.
Proof.
  cbn. intros Ht. split; [|done].
  assert (Hs : (60, 360, 5000, 5000) ∈ spans) by (apply (bool_decide_unpack _); vm_compute; exact I).
  pose proof (ramping _ _ _ _ t Hs Ht). lia.
Qed.
End schedule.

(** The subscribers are spread over the three markets: among any three
    consecutive ones each market is taken once. *)
Theorem fleet_covers_markets vu :
  0 <= vu -> Permutation [market_of vu; market_of (vu + 1); market_of (vu + 2)] MARKETS.
Proof.
  intros Hv. unfold market_of.
  assert (Hm : vu mod 3 = 0 \/ vu mod 3 = 1 \/ vu mod 3 = 2) by (pose proof (Z.mod_pos_bound vu 3); lia).
  rewrite (Z.add_mod vu 1), (Z.add_mod vu 2) by done.
  destruct Hm as [-> | [-> | ->]]; vm_compute (_ mod _); unfold MARKETS; cbn.
  - done.
  - symmetry. apply (Permutation_cons_append ["eth-usd"; "sol-usd"] "btc-usd").
  - apply (Permutation_cons_append ["btc-usd"; "eth-usd"] "sol-usd").
Qed.
