(* ===== verification/Matching.v ===== *)
(** * The matching engine

    crates/perplex-matching: the order book of one market ([book.rs],
    [order.rs], [fill.rs], [error.rs]), the position tracker it consults
    ([position_tracker.rs]) and the worker that owns the book and publishes
    fills and level deltas ([dispatcher.rs]).

    Prices and quantities are exact decimals in the source; here they are
    integers, counts of the market's smallest price and quantity unit, which the
    engine only compares, adds and subtracts.  A side of the book, a map from
    price to a queue, is the list of its levels from the best price on; the map
    of order ids is a finite map.  A submission returns its result together with
    the book it leaves behind, since the source changes the book in place and a
    rejection does not undo what was changed.  Every order of a book is of the
    book's market, so the market is left out of orders, fills and positions. *)
From S2P Require Import Prelude Contract.
#[local] Open Scope Z_scope.

(** ** Orders and fills *)

Record Order := mkOrder {
  o_id : Z;
  o_owner : Z;
  o_side : Side;
  o_type : OrderType;
  o_price : Z;
  o_qty : Z;
  o_remaining : Z;
  o_tif : TimeInForce;
  o_post_only : bool;
  o_reduce_only : bool;
  o_ts_ns : Z;
}.

Definition with_remaining (r : Z) (o : Order) : Order :=
  mkOrder (o_id o) (o_owner o) (o_side o) (o_type o) (o_price o) (o_qty o) r (o_tif o) (o_post_only o)
    (o_reduce_only o) (o_ts_ns o).

(** True if a taker would cross a maker at this price. *)
Definition crosses (tk : Order) (maker_price : Z) : bool :=
  match o_side tk, o_type tk with
  | _, market => true
  | buy, limit => maker_price <=? o_price tk
  | sell, limit => o_price tk <=? maker_price
  end.

Record Fill := mkFill {
  f_id : Z;
  f_maker_order_id : Z;
  f_taker_order_id : Z;
  f_maker_user : Z;
  f_taker_user : Z;
  f_price : Z;
  f_qty : Z;
  f_taker_side : Side;
  f_ts_ns : Z;
}.

Inductive SubmitError :=
| PostOnlyWouldCross
| FokUnfillable
| ReduceOnlyWouldIncrease
| SelfTradeRejected
| ZeroQty
| ZeroPrice
| MarketNoLiquidity.

Inductive SelfTradeMode := CancelNewest | CancelBoth | Allow.

Definition opposite (s : Side) : Side := match s with buy => sell | sell => buy end.

(** ** The position tracker *)

Definition PositionTracker := gmap Z Z.

Definition pt_get (user : Z) (t : PositionTracker) : Z := default 0 (t !! user).

Definition pt_set (user size : Z) (t : PositionTracker) : PositionTracker :=
  if size =? 0 then delete user t else <[user := size]> t.

Definition pt_apply_fill (user : Z) (side : Side) (qty : Z) (t : PositionTracker) : PositionTracker :=
  pt_set user (pt_get user t + match side with buy => qty | sell => - qty end) t.

Definition would_reduce (user : Z) (side : Side) (qty : Z) (t : PositionTracker) : bool :=
  let cur := pt_get user t in
  if cur =? 0 then false
  else match 0 <=? cur, side with
       | true, sell => qty <=? cur
       | false, buy => qty <=? - cur
       | _, _ => false
       end.

(** ** The book *)

Definition Level : Type := Z * list Order.

Record Orderbook := mkBook {
  bk_bids : list Level;      (** best, highest price first *)
  bk_asks : list Level;      (** best, lowest price first *)
  bk_by_id : gmap Z Side;
  bk_next_fill_id : Z;
  bk_self_trade : SelfTradeMode;
}.

Definition new_book (mode : SelfTradeMode) : Orderbook := mkBook [] [] ∅ 0 mode.

Definition side_of (s : Side) (b : Orderbook) : list Level := match s with buy => bk_bids b | sell => bk_asks b end.

Definition with_side (s : Side) (ls : list Level) (b : Orderbook) : Orderbook :=
  match s with
  | buy => mkBook ls (bk_asks b) (bk_by_id b) (bk_next_fill_id b) (bk_self_trade b)
  | sell => mkBook (bk_bids b) ls (bk_by_id b) (bk_next_fill_id b) (bk_self_trade b)
  end.

Definition with_ids (ids : gmap Z Side) (n : Z) (b : Orderbook) : Orderbook :=
  mkBook (bk_bids b) (bk_asks b) ids n (bk_self_trade b).

Definition best (s : Side) (b : Orderbook) : option Z := fst <$> head (side_of s b).
Definition best_bid : Orderbook -> option Z := best buy.
Definition best_ask : Orderbook -> option Z := best sell.

(** The lookup of a level by its price. *)
Fixpoint level_at (price : Z) (ls : list Level) : option (list Order) :=
  match ls with
  | [] => None
  | (p, q) :: ls => if p =? price then Some q else level_at price ls
  end.

Definition queue_qty (q : list Order) : Z := foldr (fun o acc => o_remaining o + acc) 0 q.

Definition level_qty (s : Side) (price : Z) (b : Orderbook) : Z := from_option queue_qty 0 (level_at price (side_of s b)).

(** ** Crossing *)

(** The part of the book a crossing changes besides the queues. *)
Record Cross := mkCross {
  x_taker : Order;
  x_ids : gmap Z Side;
  x_next : Z;
  x_fills : list Fill;       (** in order *)
}.

Definition trade (price : Z) (mk : Order) (x : Cross) : Order * Cross :=
  let t := x_taker x in
  let traded := Z.min (o_remaining t) (o_remaining mk) in
  let mk' := with_remaining (o_remaining mk - traded) mk in
  let id := x_next x + 1 in
  (mk',
   mkCross (with_remaining (o_remaining t - traded) t) (x_ids x) id
     (x_fills x ++ [mkFill id (o_id mk) (o_id t) (o_owner mk) (o_owner t) price traded (o_side t) (o_ts_ns t)])).

Definition drop_id (id : Z) (x : Cross) : Cross := mkCross (x_taker x) (delete id (x_ids x)) (x_next x) (x_fills x).

(** The loop over the queue of one level.  The queue that is left is returned
    twice: as the loop leaves it, with the consumed makers still in place (what
    a rejection leaves behind), and compacted (what the level keeps otherwise). *)
Fixpoint cross_queue (mode : SelfTradeMode) (price : Z) (q : list Order) (x : Cross)
    : bool * list Order * list Order * Cross :=
  match q with
  | [] => (true, [], [], x)
  | mk :: q' =>
      if o_remaining (x_taker x) <=? 0 then (true, q, q, x)
      else
        let own := o_owner mk =? o_owner (x_taker x) in
        match own, mode with
        | true, CancelNewest => (false, q, q, x)
        | true, CancelBoth =>
            let '(ok, raw, kept, x') := cross_queue mode price q' (drop_id (o_id mk) x) in
            (ok, mk :: raw, kept, x')
        | _, _ =>
            let '(mk', x1) := trade price mk x in
            if o_remaining mk' =? 0 then
              let '(ok, raw, kept, x') := cross_queue mode price q' (drop_id (o_id mk) x1) in
              (ok, mk' :: raw, kept, x')
            else (true, mk' :: q', mk' :: q', x1)
        end
  end.

(** The loop over the levels: a level that was emptied is removed.  A level that
    was not is left by a taker with nothing remaining, so
    the next pass of the source's loop returns at its first test. *)
Fixpoint cross_levels (mode : SelfTradeMode) (ls : list Level) (x : Cross) : bool * list Level * Cross :=
  match ls with
  | [] => (true, [], x)
  | (price, q) :: ls' =>
      if o_remaining (x_taker x) <=? 0 then (true, ls, x)
      else if negb (crosses (x_taker x) price) then (true, ls, x)
      else
        let '(ok, raw, kept, x1) := cross_queue mode price q x in
        if negb ok then (false, (price, raw) :: ls', x1)
        else match kept with
             | [] => cross_levels mode ls' x1
             | _ => (true, (price, kept) :: ls', x1)
             end
  end.

(** ** Resting and removing *)

(** [or_default().push_back(order)] at the order's price. *)
Fixpoint push_level (better : Z -> Z -> bool) (o : Order) (ls : list Level) : list Level :=
  match ls with
  | [] => [(o_price o, [o])]
  | (p, q) :: ls' =>
      if p =? o_price o then (p, q ++ [o]) :: ls'
      else if better (o_price o) p then (o_price o, [o]) :: ls
      else (p, q) :: push_level better o ls'
  end.

(** Bids are best when high, asks when low. *)
Definition better (s : Side) (p p' : Z) : bool := match s with buy => p' <? p | sell => p <? p' end.

Definition rest (o : Order) (b : Orderbook) : Orderbook :=
  with_side (o_side o) (push_level (better (o_side o)) o (side_of (o_side o) b))
    (with_ids (<[o_id o := o_side o]> (bk_by_id b)) (bk_next_fill_id b) b).

Fixpoint remove_order (id : Z) (q : list Order) : option (list Order) :=
  match q with
  | [] => None
  | o :: q' => if o_id o =? id then Some q' else cons o <$> remove_order id q'
  end.

(** The first level that holds the order loses it, and goes when it is empty. *)
Fixpoint remove_from_side (id : Z) (ls : list Level) : list Level :=
  match ls with
  | [] => []
  | (p, q) :: ls' =>
      match remove_order id q with
      | Some [] => ls'
      | Some q' => (p, q') :: ls'
      | None => (p, q) :: remove_from_side id ls'
      end
  end.

Definition cancel (id : Z) (b : Orderbook) : bool * Orderbook :=
  match bk_by_id b !! id with
  | None => (false, b)
  | Some s => (true, with_side s (remove_from_side id (side_of s b)) (with_ids (delete id (bk_by_id b)) (bk_next_fill_id b) b))
  end.

(** ** Submitting *)

Fixpoint crossable_qty (tk : Order) (ls : list Level) : Z :=
  match ls with
  | [] => 0
  | (p, q) :: ls' => if negb (crosses tk p) then 0 else queue_qty q + crossable_qty tk ls'
  end.

Record SubmitOutcome := mkOutcome { so_fills : list Fill; so_resting : option Z; so_remaining : Z }.

Definition would_cross (o : Order) (b : Orderbook) : bool :=
  match best (opposite (o_side o)) b with
  | Some p => match o_side o with buy => p <=? o_price o | sell => o_price o <=? p end
  | None => false
  end.

(** The checks before anything is changed. *)
Definition precheck (order : Order) (tracker : PositionTracker) (b : Orderbook) : option SubmitError :=
  if o_qty order <=? 0 then Some ZeroQty
  else if match o_type order with limit => o_price order <=? 0 | market => false end then Some ZeroPrice
  else if o_post_only order && would_cross order b then Some PostOnlyWouldCross
  else if o_reduce_only order && negb (would_reduce (o_owner order) (o_side order) (o_qty order) tracker)
  then Some ReduceOnlyWouldIncrease
  else if match o_tif order with fok => crossable_qty order (side_of (opposite (o_side order)) b) <? o_qty order | _ => false end
  then Some FokUnfillable
  else None.

Definition rests (o : Order) : bool :=
  (0 <? o_remaining o) && match o_type o, o_tif o with limit, gtc => true | _, _ => false end.

Definition submit (order0 : Order) (tracker : PositionTracker) (b : Orderbook) : (SubmitError + SubmitOutcome) * Orderbook :=
  match precheck order0 tracker b with
  | Some e => (inl e, b)
  | None =>
      let order := with_remaining (o_qty order0) order0 in
      let s := opposite (o_side order) in
      let '(ok, ls, x) := cross_levels (bk_self_trade b) (side_of s b) (mkCross order (bk_by_id b) (bk_next_fill_id b) []) in
      let b1 := with_side s ls (with_ids (x_ids x) (x_next x) b) in
      let t := x_taker x in
      if negb ok then (inl SelfTradeRejected, b1)
      else if match o_type t with market => 0 <? o_remaining t | limit => false end then (inl MarketNoLiquidity, b1)
      else if rests t then (inr (mkOutcome (x_fills x) (Some (o_id t)) (o_remaining t)), rest t b1)
      else (inr (mkOutcome (x_fills x) None (o_remaining t)), b1)
  end.

(** ** The worker of a market *)

Record BookDelta := mkDelta { d_sequence : Z; d_side : Side; d_price : Z; d_qty : Z; d_ts_ns : Z }.

Record Worker := mkWorker {
  wk_book : Orderbook;
  wk_sequence : Z;
  wk_fills : list Fill;      (** appended to the fill stream *)
  wk_deltas : list BookDelta; (** appended to the delta stream *)
}.

Definition new_worker (mode : SelfTradeMode) : Worker := mkWorker (new_book mode) 0 [] [].

Definition push_delta (s : Side) (price ts : Z) (w : Worker) : Worker :=
  let n := wk_sequence w + 1 in
  mkWorker (wk_book w) n (wk_fills w) (wk_deltas w ++ [mkDelta n s price (level_qty s price (wk_book w)) ts]).

Definition push_fill (taker_side : Side) (w : Worker) (f : Fill) : Worker :=
  push_delta (opposite taker_side) (f_price f) (f_ts_ns f)
    (mkWorker (wk_book w) (wk_sequence w) (wk_fills w ++ [f]) (wk_deltas w)).

Inductive EngineCmd :=
| CmdSubmit (order : Order) (tracker : PositionTracker)
| CmdCancel (id : Z)
| CmdTop.

Definition run_cmd (w : Worker) (c : EngineCmd) : Worker :=
  match c with
  | CmdSubmit order tracker =>
      let '(outcome, b) := submit order tracker (wk_book w) in
      let w1 := mkWorker b (wk_sequence w) (wk_fills w) (wk_deltas w) in
      match outcome with
      | inl _ => w1
      | inr out =>
          let w2 := foldl (push_fill (o_side order)) w1 (so_fills out) in
          match so_resting out with
          | Some _ => push_delta (o_side order) (o_price order) (o_ts_ns order) w2
          | None => w2
          end
      end
  | CmdCancel id => mkWorker (snd (cancel id (wk_book w))) (wk_sequence w) (wk_fills w) (wk_deltas w)
  | CmdTop => w
  end.
