(* ===== verification/MatchingFacts.v ===== *)
(** * How the matching engine crosses and rests

    The lemmas behind [MatchingThms]: the engine's nested loops are one sweep
    over the opposite side in priority order, the sweep's fills in closed form,
    and the invariant [BookOk] through crossing, resting and removing. *)
From Stdlib Require Import Sorted Permutation.
From S2P Require Import Prelude Contract Matching.
#[local] Open Scope Z_scope.

(** ** The book as one queue *)

(** The resting orders of a side in priority order, each with its level's price. *)
Definition flat (ls : list Level) : list (Z * Order) := ls ≫= fun '(p, q) => (pair p) <$> q.

Definition ids (ms : list (Z * Order)) : list Z := (fun m => o_id m.2) <$> ms.

Definition total (ms : list (Z * Order)) : Z := queue_qty ms.*2.

Lemma flat_cons p q ls : flat ((p, q) :: ls) = (pair p <$> q) ++ flat ls.
Proof. done. Qed.

Lemma ids_app ms ms' : ids (ms ++ ms') = ids ms ++ ids ms'.
Proof. apply fmap_app. Qed.

Lemma queue_qty_cons o q : queue_qty (o :: q) = o_remaining o + queue_qty q.
Proof. done. Qed.

Lemma queue_qty_app q q' : queue_qty (q ++ q') = queue_qty q + queue_qty q'.
Proof. induction q as [|o q IH]; [done|]. simpl app. rewrite !queue_qty_cons. lia. Qed.

Lemma total_app ms ms' : total (ms ++ ms') = total ms + total ms'.
Proof. unfold total. by rewrite fmap_app, queue_qty_app. Qed.

Lemma total_cons p o ms : total ((p, o) :: ms) = o_remaining o + total ms.
Proof. done. Qed.

(** Every resting order has quantity left. *)
Definition Live (ms : list (Z * Order)) : Prop := Forall (fun m => 0 < o_remaining m.2) ms.

Lemma total_nonneg ms : Live ms -> 0 <= total ms.
Proof. induction 1 as [|[p o] ms H _ IH]; [done|]. rewrite total_cons. simpl in H. lia. Qed.

(** ** Crossing, one order at a time *)

Fixpoint sweep (mode : SelfTradeMode) (ms : list (Z * Order)) (x : Cross) : bool * list (Z * Order) * Cross :=
  match ms with
  | [] => (true, [], x)
  | (p, mk) :: ms' =>
      if o_remaining (x_taker x) <=? 0 then (true, ms, x)
      else if negb (crosses (x_taker x) p) then (true, ms, x)
      else match o_owner mk =? o_owner (x_taker x), mode with
           | true, CancelNewest => (false, ms, x)
           | true, CancelBoth => sweep mode ms' (drop_id (o_id mk) x)
           | _, _ =>
               let '(mk', x1) := trade p mk x in
               if o_remaining mk' =? 0 then sweep mode ms' (drop_id (o_id mk) x1)
               else (true, (p, mk') :: ms', x1)
           end
  end.

(** The engine's nested loops are the one loop over the flattened side. *)
Lemma cross_queue_sweep mode p q x ok raw kept x' tail :
  crosses (x_taker x) p = true ->
  cross_queue mode p q x = (ok, raw, kept, x') ->
  crosses (x_taker x') p = true /\
  sweep mode ((pair p <$> q) ++ tail) x =
    if ok then match kept with [] => sweep mode tail x' | _ => (true, (pair p <$> kept) ++ tail, x') end
    else (false, (pair p <$> kept) ++ tail, x').
Proof.
  revert x ok raw kept. induction q as [|mk q IH]; intros x ok raw kept Hc H; simpl in *; [by simplify_eq|].
  destruct (o_remaining (x_taker x) <=? 0) eqn:Hr; [by simplify_eq|]. rewrite Hc. simpl.
  assert (Hrec : forall y, crosses (x_taker y) p = true ->
    forall m, (let '(ok, raw, kept, x') := cross_queue mode p q y in (ok, m :: raw, kept, x')) = (ok, raw, kept, x') ->
    crosses (x_taker x') p = true /\ sweep mode ((pair p <$> q) ++ tail) y =
      if ok then match kept with [] => sweep mode tail x' | _ => (true, (pair p <$> kept) ++ tail, x') end
      else (false, (pair p <$> kept) ++ tail, x')).
  { intros y Hy m E. destruct (cross_queue mode p q y) as [[[? ?] ?] ?] eqn:Eq. simplify_eq. eapply IH; [exact Hy | exact Eq]. }
  destruct (o_owner mk =? o_owner (x_taker x)), mode; simpl in H |- *;
    try (simplify_eq; done); try (eapply Hrec; [|exact H]; exact Hc);
    destruct (o_remaining mk - Z.min (o_remaining (x_taker x)) (o_remaining mk) =? 0);
    try (eapply Hrec; [|exact H]; exact Hc); by simplify_eq.
Qed.

Lemma cross_levels_sweep mode ls x ok ls' x' :
  Forall (fun l => l.2 <> []) ls ->
  cross_levels mode ls x = (ok, ls', x') ->
  exists ms, sweep mode (flat ls) x = (ok, ms, x') /\ (ok = true -> ms = flat ls').
Proof.
  intros Hne. revert x. induction Hne as [|[p q] ls Hq Hne IH]; intros x H; simpl in H; [simplify_eq; by exists []|].
  destruct q as [|mk q]; [done|].
  destruct (o_remaining (x_taker x) <=? 0) eqn:Hr; [simplify_eq; eexists; split; [simpl; by rewrite Hr | done]|].
  destruct (crosses (x_taker x) p) eqn:Hc; cycle 1; [simpl in H; simplify_eq; eexists; split; [simpl; by rewrite Hr, Hc | done]|].
  cbn [negb] in H. rewrite flat_cons.
  destruct (cross_queue mode p (mk :: q) x) as [[[ok1 raw] kept] x1] eqn:E.
  destruct (cross_queue_sweep _ _ _ _ _ _ _ _ (flat ls) Hc E) as [_ ->].
  destruct ok1; simpl in H; [|simplify_eq; by eexists].
  destruct kept as [|k kept]; [by apply IH|]. simplify_eq. by eexists.
Qed.

(** ** Price-time priority *)

(** [m] ranks no worse than anything after it on side [s]. *)
Definition Ranked (s : Side) : list (Z * Order) -> Prop := StronglySorted (fun m m' => better s m'.1 m.1 = false).

(** Whom the taker may trade with: not with itself, unless the mode allows it. *)
Definition tradable (mode : SelfTradeMode) (t mk : Order) : bool :=
  match mode with Allow => true | _ => negb (o_owner mk =? o_owner t) end.

Definition eligible (mode : SelfTradeMode) (t : Order) (ms : list (Z * Order)) : list (Z * Order) :=
  List.filter (fun m => crosses t m.1 && tradable mode t m.2) ms.

(** The fills of a taker with [r] left against a queue of makers, in order. *)
Fixpoint allot (t : Order) (n r : Z) (ms : list (Z * Order)) : list Fill :=
  match ms with
  | [] => []
  | (p, mk) :: ms' =>
      if r <=? 0 then []
      else
        let q := Z.min r (o_remaining mk) in
        mkFill (n + 1) (o_id mk) (o_id t) (o_owner mk) (o_owner t) p q (o_side t) (o_ts_ns t) :: allot t (n + 1) (r - q) ms'
  end.

(** In closed form: the [i]-th maker gets what the makers before it left, up to
    what it offers. *)
Definition share (t : Order) (n r : Z) (ms : list (Z * Order)) (i : nat) : option Fill :=
  '(p, mk) ← ms !! i;
  let before := total (take i ms) in
  if before <? r
  then Some (mkFill (n + 1 + Z.of_nat i) (o_id mk) (o_id t) (o_owner mk) (o_owner t) p
               (Z.min (o_remaining mk) (r - before)) (o_side t) (o_ts_ns t))
  else None.

Definition fills_qty (fs : list Fill) : Z := foldr (fun f acc => f_qty f + acc) 0 fs.

Lemma allot_spent t n r ms : r <= 0 -> allot t n r ms = [].
Proof. destruct ms as [|[p mk] ms]; simpl; [done|]. intros. by case_match; [|lia]. Qed.

Lemma allot_taker k t n r ms : allot (with_remaining k t) n r ms = allot t n r ms.
Proof. revert n r. induction ms as [|[p mk] ms IH]; intros n r; cbn; [done|]. by rewrite IH. Qed.

Lemma allot_share t n r ms i : Live ms -> allot t n r ms !! i = share t n r ms i.
Proof.
  intros HL. revert n r i. induction HL as [|[p mk] ms Hm HL IH]; intros n r i; [by destruct i|].
  simpl in Hm. unfold share. destruct i as [|i]; cbn [allot].
  - change (total (take 0 ((p, mk) :: ms))) with 0. cbn. destruct (Z.leb_spec r 0), (Z.ltb_spec 0 r); try lia; [done|].
    cbn. do 2 f_equal; lia.
  - cbn [lookup list_lookup take]. rewrite total_cons. specialize (total_nonneg (take i ms) (Forall_take _ _ _ HL)) as Hp.
    destruct (Z.leb_spec r 0).
    + destruct (ms !! i) as [[? ?]|]; cbn; [|done]. by destruct (Z.ltb_spec (o_remaining mk + total (take i ms)) r); [lia|].
    + cbn [lookup list_lookup]. rewrite IH. unfold share. destruct (ms !! i) as [[p' mk']|]; cbn; [|done].
      destruct (Z.leb_spec r (o_remaining mk)).
      * destruct (Z.ltb_spec (total (take i ms)) (r - Z.min r (o_remaining mk))),
          (Z.ltb_spec (o_remaining mk + total (take i ms)) r); try done; lia.
      * destruct (Z.ltb_spec (total (take i ms)) (r - Z.min r (o_remaining mk))),
          (Z.ltb_spec (o_remaining mk + total (take i ms)) r); try done; try lia. do 2 f_equal; lia.
Qed.

Lemma allot_qty t n r ms : Live ms -> 0 <= r -> fills_qty (allot t n r ms) = Z.min r (total ms).
Proof.
  intros HL. revert n r. induction HL as [|[p mk] ms Hm HL IH]; intros n r Hr; [cbn; lia|].
  simpl in Hm. rewrite total_cons. specialize (total_nonneg _ HL). cbn [allot].
  destruct (Z.leb_spec r 0); cbn; [lia|]. fold (fills_qty (allot t (n + 1) (r - Z.min r (o_remaining mk)) ms)).
  rewrite IH by lia. lia.
Qed.

Lemma filter_live f ms : Live ms -> Live (List.filter f ms).
Proof. induction 1; cbn; [constructor|]. case_match; [by constructor | done]. Qed.

Lemma crosses_worse t p p' :
  crosses t p = false -> better (opposite (o_side t)) p' p = false -> crosses t p' = false.
Proof. unfold crosses, better. destruct (o_type t), (o_side t); simpl; try done; intros; apply Z.leb_gt; lia. Qed.

Lemma eligible_cons mode t p mk ms :
  crosses t p = true ->
  eligible mode t ((p, mk) :: ms) = if tradable mode t mk then (p, mk) :: eligible mode t ms else eligible mode t ms.
Proof. intros H. unfold eligible. simpl. by rewrite H. Qed.

Lemma eligible_taker mode k t ms : eligible mode (with_remaining k t) ms = eligible mode t ms.
Proof. done. Qed.

Lemma none_eligible mode t p mk ms :
  Ranked (opposite (o_side t)) ((p, mk) :: ms) -> crosses t p = false -> eligible mode t ((p, mk) :: ms) = [].
Proof.
  intros HR Hc. unfold eligible. apply StronglySorted_inv in HR as [_ HR]. simpl. rewrite Hc. simpl.
  induction HR as [|[p' mk'] ms H _ IH]; simpl in *; [done|]. by rewrite (crosses_worse _ _ _ Hc H).
Qed.

(** One step of the sweep: a maker the taker may not trade with is passed over,
    any other is traded with. *)
Lemma sweep_cons mode p mk ms x ms' x' :
  0 < o_remaining (x_taker x) -> crosses (x_taker x) p = true -> sweep mode ((p, mk) :: ms) x = (true, ms', x') ->
  if tradable mode (x_taker x) mk then
    let '(mk', x1) := trade p mk x in
    if o_remaining mk' =? 0 then sweep mode ms (drop_id (o_id mk) x1) = (true, ms', x')
    else ms' = (p, mk') :: ms /\ x' = x1
  else mode = CancelBoth /\ sweep mode ms (drop_id (o_id mk) x) = (true, ms', x').
Proof.
  intros Hr Hc H. cbn [sweep] in H. destruct (Z.leb_spec (o_remaining (x_taker x)) 0); [lia|].
  rewrite Hc in H. unfold tradable. destruct (o_owner mk =? o_owner (x_taker x)), mode; simpl in *; try done;
    destruct (o_remaining mk - Z.min (o_remaining (x_taker x)) (o_remaining mk) =? 0); by simplify_eq.
Qed.

(** The sweep stops at a taker that is done, or at a maker it does not cross. *)
Lemma sweep_stop mode p mk ms x :
  o_remaining (x_taker x) <= 0 \/ crosses (x_taker x) p = false -> sweep mode ((p, mk) :: ms) x = (true, (p, mk) :: ms, x).
Proof. intros [H|H]; cbn [sweep]; [|rewrite H]; destruct (Z.leb_spec (o_remaining (x_taker x)) 0); try done; lia. Qed.

Lemma with_remaining_id r o : r = o_remaining o -> with_remaining r o = o.
Proof. intros ->. by destruct o. Qed.

(** What one pass of the engine over the opposite side does to taker and fills. *)
Lemma sweep_allot mode ms x ms' x' :
  sweep mode ms x = (true, ms', x') -> Live ms -> Ranked (opposite (o_side (x_taker x))) ms -> 0 <= o_remaining (x_taker x) ->
  x_fills x' = x_fills x ++ allot (x_taker x) (x_next x) (o_remaining (x_taker x)) (eligible mode (x_taker x) ms) /\
  x_taker x' = with_remaining (Z.max 0 (o_remaining (x_taker x) - total (eligible mode (x_taker x) ms))) (x_taker x).
Proof.
  revert x. induction ms as [|[p mk] ms IH]; intros x H HL HR H0.
  { simpl in H. simplify_eq. rewrite app_nil_r. by rewrite with_remaining_id by (cbn; lia). }
  assert (0 <= total (eligible mode (x_taker x) ((p, mk) :: ms))) by by apply total_nonneg, filter_live.
  apply Forall_cons_1 in HL as [Hm HL]. simpl in Hm.
  destruct (Z.leb_spec (o_remaining (x_taker x)) 0).
  { rewrite sweep_stop in H by auto. simplify_eq. rewrite allot_spent, app_nil_r by lia. by rewrite with_remaining_id by lia. }
  destruct (crosses (x_taker x) p) eqn:Hc; cycle 1.
  { rewrite sweep_stop in H by auto. simplify_eq. rewrite none_eligible, app_nil_r by done. by rewrite with_remaining_id by (cbn; lia). }
  apply sweep_cons in H; [|done..]. apply StronglySorted_inv in HR as [HR _].
  rewrite (eligible_cons _ _ _ _ _ Hc) in *.
  destruct (tradable mode (x_taker x) mk); [|by destruct H as [_ H]; apply IH in H].
  assert (0 <= total (eligible mode (x_taker x) ms)) by by apply total_nonneg, filter_live.
  rewrite total_cons. unfold trade in H. cbn [allot]. destruct (Z.leb_spec (o_remaining (x_taker x)) 0); [lia|].
  cbn [o_remaining with_remaining] in H. case_match eqn:E.
  - apply Z.eqb_eq in E. apply IH in H as [-> ->]; [|exact HL|exact HR|cbn; lia].
    cbn [x_taker x_next x_fills drop_id]. rewrite allot_taker, eligible_taker, <- app_assoc. split; [done|].
    unfold with_remaining. cbn [o_remaining]. f_equal. lia.
  - apply Z.eqb_neq in E. destruct H as [-> ->]. rewrite allot_spent by lia. split; [done|].
    cbn [x_taker]. unfold with_remaining. f_equal. lia.
Qed.

(** ** Well-formed books *)

Definition OrderOk (s : Side) (p : Z) (o : Order) : Prop := o_side o = s /\ o_price o = p /\ 0 < o_remaining o.

(** A side: its levels strictly from best to worst, none empty, every order in
    the queue of its own side and price with quantity left. *)
Record SideOk (s : Side) (ls : list Level) : Prop := {
  side_sorted : StronglySorted (fun l l' => better s l.1 l'.1 = true) ls;
  side_levels : Forall (fun l => l.2 <> [] /\ Forall (OrderOk s l.1) l.2) ls;
}.

(** A book: both sides well formed, no bid at or above an ask, the id index
    exactly the resting orders, no id twice. *)
Record BookOk (b : Orderbook) : Prop := {
  book_sides : forall s, SideOk s (side_of s b);
  book_uncrossed : forall l l', l ∈ bk_bids b -> l' ∈ bk_asks b -> l.1 < l'.1;
  book_index : forall id s, bk_by_id b !! id = Some s <-> id ∈ ids (flat (side_of s b));
  book_nodup : forall s, NoDup (ids (flat (side_of s b)));
}.

Lemma side_nonempty s ls : SideOk s ls -> Forall (fun l => l.2 <> []) ls.
Proof. intros [_ H]. eapply Forall_impl; [exact H|]. by intros l [? _]. Qed.

Lemma side_cons s p q ls :
  SideOk s ((p, q) :: ls) <->
  q <> [] /\ Forall (OrderOk s p) q /\ Forall (fun l => better s p l.1 = true) ls /\ SideOk s ls.
Proof.
  split.
  - intros [Hs Hl]. apply StronglySorted_inv in Hs as [Hs Hp]. apply Forall_cons_1 in Hl as [[Hq Ho] Hl]. done.
  - intros (Hq & Ho & Hp & [Hs Hl]). by split; constructor.
Qed.

Lemma side_nil s : SideOk s [].
Proof. by split; constructor. Qed.

Lemma elem_of_flat p o ls : (p, o) ∈ flat ls <-> exists q, (p, q) ∈ ls /\ o ∈ q.
Proof.
  unfold flat. rewrite list_elem_of_bind. split.
  - intros ([p' q] & Hin & Hl). apply list_elem_of_fmap in Hin as (? & [= -> ->] & Hin). by exists q.
  - intros (q & Hl & Ho). exists (p, q). split; [|done]. by apply list_elem_of_fmap_2.
Qed.

Lemma side_live s ls : SideOk s ls -> Live (flat ls).
Proof.
  intros [_ H]. apply Forall_forall. intros [p o] Hin. apply elem_of_flat in Hin as (q & Hl & Ho).
  rewrite Forall_forall in H. apply H in Hl as [_ Hl]. rewrite Forall_forall in Hl. by apply Hl in Ho as (_ & _ & ?).
Qed.

Lemma rank_asym s p p' : better s p p' = true -> better s p' p = false.
Proof. destruct s; simpl; rewrite Z.ltb_lt, Z.ltb_ge; lia. Qed.

Lemma rank_irrefl s p : better s p p = false.
Proof. destruct s; apply Z.ltb_irrefl. Qed.

Lemma side_ranked s ls : SideOk s ls -> Ranked s (flat ls).
Proof.
  induction ls as [|[p q] ls IH]; [by constructor|]. intros (_ & _ & Hp & Hls)%side_cons. specialize (IH Hls). clear Hls.
  rewrite flat_cons. induction q as [|o q IHq]; [done|]. simpl. constructor; [done|].
  apply Forall_app. split.
  - apply Forall_fmap, Forall_true. intros o'. apply rank_irrefl.
  - apply Forall_forall. intros [p' o'] (q' & Hl & _)%elem_of_flat. rewrite Forall_forall in Hp. by apply rank_asym, (Hp _ Hl).
Qed.

(** ** Submitting, in closed form *)

Definition start_cross (t : Order) (b : Orderbook) : Cross := mkCross (with_remaining (o_qty t) t) (bk_by_id b) (bk_next_fill_id b) [].

Definition rival (t : Order) (b : Orderbook) : list Level := side_of (opposite (o_side t)) b.

Definition after_cross (t : Order) (ls : list Level) (x : Cross) (b : Orderbook) : Orderbook :=
  with_side (opposite (o_side t)) ls (with_ids (x_ids x) (x_next x) b).

(** An accepted submission passed the checks, crossed, and rested what is left
    of a good-till-cancelled limit order. *)
Lemma submit_accepted t tr b out b' :
  submit t tr b = (inr out, b') ->
  precheck t tr b = None /\ exists ls x,
    cross_levels (bk_self_trade b) (rival t b) (start_cross t b) = (true, ls, x) /\
    (o_type (x_taker x) = market -> o_remaining (x_taker x) <= 0) /\
    so_fills out = x_fills x /\ so_remaining out = o_remaining (x_taker x) /\
    (so_resting out, b') = if rests (x_taker x) then (Some (o_id (x_taker x)), rest (x_taker x) (after_cross t ls x b))
                           else (None, after_cross t ls x b).
Proof.
  unfold submit. destruct (precheck t tr b); [done|]. cbn [o_side with_remaining].
  fold (start_cross t b). fold (rival t b).
  destruct (cross_levels _ _ _) as [[ok ls] x]. intros H. split; [done|]. exists ls, x.
  destruct ok; simpl in H; [|done]. destruct (o_type (x_taker x)) eqn:Ht.
  - destruct (Z.ltb_spec 0 (o_remaining (x_taker x))); [done|]. split; [done|]. split; [lia|]. by destruct (rests _); simplify_eq.
  - split; [done|]. split; [done|]. by destruct (rests _); simplify_eq.
Qed.

Lemma precheck_none t tr b :
  precheck t tr b = None ->
  0 < o_qty t /\ (o_post_only t = true -> would_cross t b = false) /\ (o_tif t = fok -> o_qty t <= crossable_qty t (rival t b)).
Proof.
  unfold precheck. destruct (Z.leb_spec (o_qty t) 0); [done|]. intros Hp. split; [done|].
  destruct (match o_type t with market => _ | limit => _ end); [done|].
  destruct (o_post_only t && would_cross t b) eqn:Hpo; [done|].
  split; [intros Hx; by rewrite Hx in Hpo|]. intros Hf. rewrite Hf in Hp.
  destruct (o_reduce_only t && _); [done|]. fold (rival t b) in Hp. by destruct (Z.ltb_spec (crossable_qty t (rival t b)) (o_qty t)).
Qed.

Lemma precheck_passed t tr b : precheck t tr b = None -> 0 < o_qty t.
Proof. by intros [? _]%precheck_none. Qed.

(** The outcome of crossing a well-formed book. *)
Lemma cross_outcome b t ls x :
  BookOk b -> 0 < o_qty t ->
  cross_levels (bk_self_trade b) (rival t b) (start_cross t b) = (true, ls, x) ->
  let es := eligible (bk_self_trade b) t (flat (rival t b)) in
  x_fills x = allot t (bk_next_fill_id b) (o_qty t) es /\
  x_taker x = with_remaining (Z.max 0 (o_qty t - total es)) t.
Proof.
  intros HB Hq H. pose proof (book_sides _ HB (opposite (o_side t))) as HS. fold (rival t b) in HS.
  destruct (cross_levels_sweep _ _ _ _ _ _ (side_nonempty _ _ HS) H) as (ms & Hsw & _).
  apply sweep_allot in Hsw as [Hf Ht]; [|by eapply side_live|by apply side_ranked|simpl; lia].
  cbn [start_cross x_taker x_fills x_next o_remaining with_remaining] in *. rewrite allot_taker in Hf. done.
Qed.

(** ** The invariant *)

(** Every level left has a price that was there, whatever the side-changing
    operation did to its queue. *)
Definition PricesKept (ls ls' : list Level) : Prop := forall l', l' ∈ ls' -> exists l, l ∈ ls /\ l.1 = l'.1.

Lemma prices_cons l ls ls' : PricesKept ls ls' -> PricesKept (l :: ls) ls'.
Proof. intros H l' Hl'. destruct (H _ Hl') as (k & ? & ?). exists k. by split; [right|]. Qed.

Lemma prices_head p q q' ls ls' : PricesKept ls ls' -> PricesKept ((p, q) :: ls) ((p, q') :: ls').
Proof.
  intros H l' [->|Hl']%elem_of_cons; [exists (p, q); by split; [left|]|].
  destruct (H _ Hl') as (k & ? & ?). exists k. by split; [right|].
Qed.

Lemma prices_refl ls : PricesKept ls ls.
Proof. intros l Hl. by exists l. Qed.

Lemma prices_forall (P : Z -> Prop) ls ls' :
  PricesKept ls ls' -> Forall (fun l => P l.1) ls -> Forall (fun l => P l.1) ls'.
Proof.
  intros Hk H. rewrite Forall_forall in *. intros l' Hl'. destruct (Hk _ Hl') as (l & Hl & <-). by apply H.
Qed.

Lemma cross_queue_kept s mode p q x ok raw kept x' :
  Forall (OrderOk s p) q -> cross_queue mode p q x = (ok, raw, kept, x') -> Forall (OrderOk s p) kept.
Proof.
  intros Hq. revert x ok raw. induction Hq as [|mk q Hm Hq IH]; intros x ok raw H; simpl in H; [by simplify_eq|].
  case_match; [simplify_eq; by constructor|].
  assert (Hrec : forall y m, (let '(ok, raw, kept, x') := cross_queue mode p q y in (ok, m :: raw, kept, x')) = (ok, raw, kept, x') ->
    Forall (OrderOk s p) kept).
  { intros y m E. destruct (cross_queue mode p q y) as [[[? ?] ?] ?] eqn:Eq. simplify_eq. by eapply IH. }
  destruct (o_owner mk =? o_owner (x_taker x)), mode; simpl in H;
    try (simplify_eq; by constructor); try (by eapply Hrec); case_match eqn:E; try (by eapply Hrec);
    apply Z.eqb_neq in E; destruct Hm as (? & ? & ?); simplify_eq; constructor; try done;
    (repeat split; [done..|simpl; lia]).
Qed.

Lemma cross_levels_side s mode ls x ls' x' :
  SideOk s ls -> cross_levels mode ls x = (true, ls', x') -> SideOk s ls' /\ PricesKept ls ls'.
Proof.
  revert x. induction ls as [|[p q] ls IH]; intros x HS H; simpl in H; [simplify_eq; by auto using prices_refl|].
  case_match; [simplify_eq; by auto using prices_refl|]. case_match; [simplify_eq; by auto using prices_refl|].
  destruct (cross_queue mode p q x) as [[[ok raw] kept] x1] eqn:E.
  destruct ok; simpl in H; [|done]. apply side_cons in HS as (_ & Hq & Hp & HS).
  eapply cross_queue_kept in E; [|exact Hq]. destruct kept as [|k kept].
  - apply IH in H as [? ?]; auto using prices_cons.
  - simplify_eq. split; [by apply side_cons | by apply prices_head, prices_refl].
Qed.

(** The makers that are gone are the first ones, and they left the index. *)
Lemma sweep_ids mode ms x ms' x' :
  sweep mode ms x = (true, ms', x') ->
  exists gone, ids ms = gone ++ ids ms' /\ forall id, x_ids x' !! id = if decide (id ∈ gone) then None else x_ids x !! id.
Proof.
  revert x. induction ms as [|[p mk] ms IH]; intros x H.
  { simpl in H. simplify_eq. exists []. split; [done|]. intros id. by rewrite decide_False by apply not_elem_of_nil. }
  destruct (Z.leb_spec (o_remaining (x_taker x)) 0) as [Hr|Hr].
  { rewrite sweep_stop in H by auto. simplify_eq. exists []. split; [done|]. intros id. by rewrite decide_False by apply not_elem_of_nil. }
  destruct (crosses (x_taker x) p) eqn:Hc; cycle 1.
  { rewrite sweep_stop in H by auto. simplify_eq. exists []. split; [done|]. intros id. by rewrite decide_False by apply not_elem_of_nil. }
  apply sweep_cons in H; [|done..].
  assert (Hrec : forall y, x_ids y = x_ids x -> sweep mode ms (drop_id (o_id mk) y) = (true, ms', x') ->
    exists gone, ids ((p, mk) :: ms) = gone ++ ids ms' /\ forall id, x_ids x' !! id = if decide (id ∈ gone) then None else x_ids x !! id).
  { intros y Hy (gone & Hg & Hi)%IH. exists (o_id mk :: gone). split; [by cbn; f_equal|]. intros id. rewrite Hi. cbn. rewrite Hy.
    destruct (decide (id ∈ gone)) as [Hin|Hin]; [by rewrite decide_True by by right|].
    destruct (decide (id = o_id mk)) as [->|Hne]; [by rewrite decide_True, lookup_delete_eq by by left|].
    rewrite decide_False by (by intros [?|?]%elem_of_cons). by apply lookup_delete_ne. }
  destruct (tradable mode (x_taker x) mk); [|destruct H as [_ H]; by eapply Hrec in H].
  unfold trade in H. cbn in H. case_match; [by eapply Hrec in H|]. destruct H as [-> ->].
  exists []. split; [done|]. intros id. by rewrite decide_False by apply not_elem_of_nil.
Qed.

(** A taker with something left met no more makers it crosses. *)
Lemma sweep_left mode ms x ms' x' :
  sweep mode ms x = (true, ms', x') -> Ranked (opposite (o_side (x_taker x))) ms -> 0 < o_remaining (x_taker x') ->
  Forall (fun m => crosses (x_taker x') m.1 = false) ms'.
Proof.
  revert x. induction ms as [|[p mk] ms IH]; intros x H HR H0; [simpl in H; by simplify_eq|].
  destruct (Z.leb_spec (o_remaining (x_taker x)) 0) as [Hr|Hr].
  { rewrite sweep_stop in H by auto. simplify_eq. lia. }
  pose proof (StronglySorted_inv HR) as [HR' Hw]. destruct (crosses (x_taker x) p) eqn:Hc; cycle 1.
  { rewrite sweep_stop in H by auto. simplify_eq. constructor; [done|].
    eapply Forall_impl; [exact Hw|]. intros [p' o']. by apply crosses_worse. }
  apply sweep_cons in H; [|done..].
  destruct (tradable mode (x_taker x) mk); [|destruct H as [_ H]; by apply IH in H].
  unfold trade in H. cbn in H. case_match eqn:E; [by apply IH in H|]. apply Z.eqb_neq in E. destruct H as [-> ->]. cbn in H0. lia.
Qed.

Lemma side_of_same s ls b : side_of s (with_side s ls b) = ls.
Proof. by destruct s. Qed.

Lemma side_of_other s s' ls b : s <> s' -> side_of s' (with_side s ls b) = side_of s' b.
Proof. by destruct s, s'. Qed.

Lemma by_id_with_side s ls b : bk_by_id (with_side s ls b) = bk_by_id b.
Proof. by destruct s. Qed.

Lemma opposite_ne s : opposite s <> s.
Proof. by destruct s. Qed.

Lemma other_side s s' : s' <> s -> s' = opposite s.
Proof. by destruct s, s'. Qed.

Lemma side_of_with_ids s m n b : side_of s (with_ids m n b) = side_of s b.
Proof. by destruct s. Qed.

(** To check a book whose side [s] and index changed: the side, its prices
    against the other side, the index. *)
Lemma book_ok_change b s ls m n :
  BookOk b -> SideOk s ls ->
  (forall l l', l ∈ ls -> l' ∈ side_of (opposite s) b -> match s with buy => l.1 < l'.1 | sell => l'.1 < l.1 end) ->
  NoDup (ids (flat ls)) ->
  (forall id, m !! id = Some s <-> id ∈ ids (flat ls)) ->
  (forall id, m !! id = Some (opposite s) <-> bk_by_id b !! id = Some (opposite s)) ->
  BookOk (with_side s ls (with_ids m n b)).
Proof.
  intros HB HS Hun Hnd Hix Hix'. split.
  - intros s'. destruct (decide (s' = s)) as [->|Hne]; [by rewrite side_of_same|].
    rewrite side_of_other, side_of_with_ids by done. apply (book_sides _ HB).
  - destruct s; simpl in *; intros l l' Hl Hl'; by apply Hun.
  - intros id s'. rewrite by_id_with_side. cbn. destruct (decide (s' = s)) as [->|Hne]; [by rewrite side_of_same|].
    rewrite side_of_other, side_of_with_ids, (other_side _ _ Hne), Hix' by done. apply (book_index _ HB).
  - intros s'. destruct (decide (s' = s)) as [->|Hne]; [by rewrite side_of_same|].
    rewrite side_of_other, side_of_with_ids by done. apply (book_nodup _ HB).
Qed.

(** The two sides of a well-formed book do not meet. *)
Lemma sides_apart b s l l' :
  BookOk b -> l ∈ side_of s b -> l' ∈ side_of (opposite s) b -> match s with buy => l.1 < l'.1 | sell => l'.1 < l.1 end.
Proof. intros HB Hl Hl'. by destruct s; apply (book_uncrossed _ HB). Qed.

Lemma cross_ok b t ls x :
  BookOk b -> cross_levels (bk_self_trade b) (rival t b) (start_cross t b) = (true, ls, x) -> BookOk (after_cross t ls x b).
Proof.
  intros HB H. unfold rival in H. set (s := opposite (o_side t)) in *.
  destruct (cross_levels_sweep _ _ _ _ _ _ (side_nonempty _ _ (book_sides _ HB s)) H) as (ms & Hsw & Hms).
  rewrite (Hms eq_refl) in Hsw. clear ms Hms.
  destruct (sweep_ids _ _ _ _ _ Hsw) as (gone & Hg & Hi). cbn in Hi.
  destruct (cross_levels_side _ _ _ _ _ _ (book_sides _ HB s) H) as [HS Hp].
  pose proof (book_nodup _ HB s) as Hnd. rewrite Hg in Hnd. apply NoDup_app in Hnd as (_ & Hdis & Hnd).
  pose proof (book_index _ HB) as Hix. unfold after_cross. fold s.
  apply book_ok_change; try done.
  - intros l l' Hl Hl'. destruct (Hp _ Hl) as (k & Hk & <-). by apply (sides_apart b).
  - intros id. rewrite Hi. destruct (decide (id ∈ gone)) as [Hin|Hin].
    + split; [done|]. intros Hin'. by destruct (Hdis _ Hin).
    + rewrite Hix, Hg, elem_of_app. naive_solver.
  - intros id. rewrite Hi. destruct (decide (id ∈ gone)) as [Hin|Hin]; [|done]. split; [done|].
    assert (bk_by_id b !! id = Some s) as -> by (apply Hix; rewrite Hg; by apply elem_of_app; left).
    intros [= Hs]. by destruct (opposite_ne s).
Qed.

Lemma push_level_ids s o ls : ids (flat (push_level (better s) o ls)) ≡ₚ o_id o :: ids (flat ls).
Proof.
  induction ls as [|[p q] ls IH]; [done|]. cbn [push_level]. case_match; [|case_match; [done|]]; rewrite !flat_cons, !ids_app.
  - rewrite fmap_app, ids_app. cbn. by rewrite <- app_assoc, Permutation_middle.
  - by rewrite IH, Permutation_middle.
Qed.

Lemma push_level_prices s o ls l : l ∈ push_level (better s) o ls -> l.1 = o_price o \/ exists k, k ∈ ls /\ k.1 = l.1.
Proof.
  induction ls as [|[p q] ls IH]; cbn [push_level].
  - intros ->%list_elem_of_singleton. by left.
  - case_match eqn:E; [|case_match].
    + apply Z.eqb_eq in E as ->. intros [->|Hl]%elem_of_cons; [by left|]. right. exists l. by split; [right|].
    + intros [->|Hl]%elem_of_cons; [by left|]. right. by exists l.
    + intros [->|Hl]%elem_of_cons; [right; exists (p, q); by split; [left|]|].
      destruct (IH Hl) as [?|(k & ? & ?)]; [by left|]. right. exists k. by split; [right|].
Qed.

Lemma rank_total s p p' : p <> p' -> better s p p' = false -> better s p' p = true.
Proof. destruct s; simpl; rewrite Z.ltb_lt, Z.ltb_ge; lia. Qed.

Lemma rank_trans s p p' p'' : better s p p' = true -> better s p' p'' = true -> better s p p'' = true.
Proof. destruct s; simpl; rewrite !Z.ltb_lt; lia. Qed.

Lemma push_level_side s o ls :
  OrderOk s (o_price o) o -> SideOk s ls -> SideOk s (push_level (better s) o ls).
Proof.
  intros Ho. induction ls as [|[p q] ls IH]; intros HS; cbn [push_level].
  - apply side_cons. repeat split; try done; by constructor.
  - pose proof HS as (Hq & Hqs & Hp & HS')%side_cons. case_match eqn:E; [|case_match eqn:E'].
    + apply Z.eqb_eq in E as ->. apply side_cons. split; [by destruct q|]. split; [|done].
      apply Forall_app. split; [done|]. by constructor.
    + apply side_cons. split; [done|]. split; [by constructor|]. split; [|done]. constructor; [done|].
      eapply Forall_impl; [exact Hp|]. intros l. by apply rank_trans.
    + apply side_cons. split; [done|]. split; [done|]. split; [|by apply IH].
      apply Z.eqb_neq in E. apply Forall_forall. intros l [->|(k & Hk & <-)]%push_level_prices.
      * apply rank_total; [congruence | done].
      * rewrite Forall_forall in Hp. by apply Hp.
Qed.

Lemma rest_ok b o :
  BookOk b -> 0 < o_remaining o -> o_type o = limit -> bk_by_id b !! o_id o = None ->
  (forall l, l ∈ side_of (opposite (o_side o)) b -> crosses o l.1 = false) -> BookOk (rest o b).
Proof.
  intros HB Hr Hty Hid Hnc. unfold rest. set (s := o_side o) in *.
  assert (HS : SideOk s (push_level (better s) o (side_of s b))) by (apply push_level_side; [done|]; apply (book_sides _ HB)).
  pose proof (push_level_ids s o (side_of s b)) as Hpi. pose proof (book_index _ HB) as Hix.
  apply book_ok_change; try done.
  - intros l l' Hl Hl'. apply push_level_prices in Hl as [->|(k & Hk & <-)]; [|by apply (sides_apart b)].
    apply Hnc in Hl'. unfold crosses in Hl'. rewrite Hty in Hl'. fold s in Hl'. destruct s; apply Z.leb_gt in Hl'; lia.
  - rewrite Hpi. constructor; [|by apply (book_nodup _ HB)]. rewrite <- Hix. by rewrite Hid.
  - intros id. rewrite Hpi, elem_of_cons, <- Hix. destruct (decide (id = o_id o)) as [->|Hne].
    + rewrite fin_maps.lookup_insert_eq. naive_solver.
    + rewrite lookup_insert_ne by done. naive_solver.
  - intros id. destruct (decide (id = o_id o)) as [->|Hne]; [|by rewrite lookup_insert_ne].
    rewrite fin_maps.lookup_insert_eq, Hid. split; [|done]. intros [= Hs]. by destruct (opposite_ne s).
Qed.

Lemma elem_side_flat s b l : BookOk b -> l ∈ side_of s b -> exists o, (l.1, o) ∈ flat (side_of s b).
Proof.
  intros HB Hl. pose proof (side_nonempty _ _ (book_sides _ HB s)) as Hne. rewrite Forall_forall in Hne. specialize (Hne _ Hl).
  destruct l as [p [|o q]]; [done|]. exists o. apply elem_of_flat. eexists. split; [done|]. by left.
Qed.

(** Unless a self trade stopped it, a submission keeps the book well formed. *)
Lemma submit_ok b t tr r b' :
  BookOk b -> bk_by_id b !! o_id t = None -> submit t tr b = (r, b') -> r <> inl SelfTradeRejected -> BookOk b'.
Proof.
  intros HB Hid H Hr. unfold submit in H. destruct (precheck t tr b) eqn:Hpre; [by simplify_eq|]. cbn [o_side with_remaining] in H.
  fold (start_cross t b) in H. fold (rival t b) in H.
  destruct (cross_levels _ _ _) as [[ok ls] x] eqn:Hx. fold (after_cross t ls x b) in H.
  destruct ok; simpl in H; [|by simplify_eq]. pose proof (cross_ok _ _ _ _ HB Hx) as HB1.
  apply precheck_passed in Hpre. destruct (cross_outcome _ _ _ _ HB Hpre Hx) as [_ Ht].
  case_match; [by simplify_eq|]. destruct (rests (x_taker x)) eqn:Hrs; [|by simplify_eq].
  unfold rests in Hrs. apply andb_true_iff in Hrs as [Hrem%Z.ltb_lt Hty].
  simplify_eq. apply rest_ok; [done|done|by destruct (o_type (x_taker x))|..].
  - destruct (cross_levels_sweep _ _ _ _ _ _ (side_nonempty _ _ (book_sides _ HB _)) Hx) as (ms & Hsw & _).
    destruct (sweep_ids _ _ _ _ _ Hsw) as (gone & _ & Hi). unfold after_cross. rewrite by_id_with_side. cbn.
    rewrite Hi, Ht. cbn. rewrite Hid. by case_decide.
  - intros l Hl. rewrite Ht in Hl. cbn [o_side with_remaining] in Hl.
    destruct (elem_side_flat _ _ _ HB1 Hl) as [o Ho]. unfold after_cross in Ho. rewrite side_of_same in Ho.
    destruct (cross_levels_sweep _ _ _ _ _ _ (side_nonempty _ _ (book_sides _ HB _)) Hx) as (ms & Hsw & Hms).
    rewrite (Hms eq_refl) in Hsw. eapply sweep_left in Hsw; [|by apply side_ranked, (book_sides _ HB)|done].
    rewrite Forall_forall in Hsw. by apply Hsw in Ho.
Qed.

(** ** Cancelling *)

Fixpoint drop1 (id : Z) (ms : list (Z * Order)) : list (Z * Order) :=
  match ms with
  | [] => []
  | m :: ms' => if o_id m.2 =? id then ms' else m :: drop1 id ms'
  end.

Lemma remove_order_drop1 id p q tail :
  match remove_order id q with
  | Some q' => drop1 id ((pair p <$> q) ++ tail) = (pair p <$> q') ++ tail
  | None => drop1 id ((pair p <$> q) ++ tail) = (pair p <$> q) ++ drop1 id tail
  end.
Proof.
  induction q as [|o q IH]; [done|]. cbn. destruct (o_id o =? id); [done|]. destruct (remove_order id q); cbn; by rewrite IH.
Qed.

Lemma remove_from_side_flat id ls : flat (remove_from_side id ls) = drop1 id (flat ls).
Proof.
  induction ls as [|[p q] ls IH]; [done|]. cbn [remove_from_side]. rewrite flat_cons.
  pose proof (remove_order_drop1 id p q (flat ls)) as H. destruct (remove_order id q) as [[|o q']|]; rewrite H; try done.
  by rewrite flat_cons, IH.
Qed.

Lemma drop1_ids id ms : id ∈ ids ms -> ids ms ≡ₚ id :: ids (drop1 id ms).
Proof.
  induction ms as [|m ms IH]; [by intros ?%not_elem_of_nil|]. cbn [drop1]. case_match eqn:E.
  - apply Z.eqb_eq in E as <-. done.
  - apply Z.eqb_neq in E. cbn. intros [->|H]%elem_of_cons; [done|]. rewrite (IH H). apply perm_swap.
Qed.

Lemma drop1_total id ms : Live ms -> id ∈ ids ms -> total (drop1 id ms) < total ms.
Proof.
  induction 1 as [|[p o] ms Hm HL IH]; [by intros ?%not_elem_of_nil|]. cbn [drop1 snd]. case_match eqn:E.
  - intros _. rewrite total_cons. simpl in Hm. lia.
  - apply Z.eqb_neq in E. change (ids ((p, o) :: ms)) with (o_id o :: ids ms). intros [->|H]%elem_of_cons; [done|].
    specialize (IH H). rewrite !total_cons. lia.
Qed.

Lemma remove_order_forall (P : Order -> Prop) id q q' : remove_order id q = Some q' -> Forall P q -> Forall P q'.
Proof.
  revert q'. induction q as [|o q IH]; intros q' H HF; [done|]. apply Forall_cons_1 in HF as [? ?]. cbn in H.
  destruct (o_id o =? id); [by simplify_eq|]. destruct (remove_order id q); cbn in H; [|done]. simplify_eq. constructor; auto.
Qed.

Lemma remove_from_side_ok s id ls :
  SideOk s ls -> SideOk s (remove_from_side id ls) /\ PricesKept ls (remove_from_side id ls).
Proof.
  induction ls as [|[p q] ls IH]; [by auto using prices_refl|]. intros (Hq & Hqs & Hp & HS)%side_cons. cbn [remove_from_side].
  destruct (IH HS) as [HS' Hk]. destruct (remove_order id q) as [[|o q']|] eqn:E.
  - split; [done|]. apply prices_cons, prices_refl.
  - split; [|by apply prices_head, prices_refl]. apply side_cons. split; [done|]. split; [|done]. by eapply remove_order_forall.
  - split; [|by apply prices_head]. apply side_cons. split; [done|]. split; [done|]. split; [|done].
    exact (prices_forall (fun p' => better s p p' = true) _ _ Hk Hp).
Qed.

Lemma cancel_ok id b : BookOk b -> BookOk (cancel id b).2.
Proof.
  intros HB. unfold cancel. destruct (bk_by_id b !! id) as [s|] eqn:Hid; [|done]. cbn [snd].
  destruct (remove_from_side_ok s id _ (book_sides _ HB s)) as [HS Hk].
  pose proof (book_index _ HB) as Hix. pose proof (book_nodup _ HB s) as Hnd.
  assert (Hin : id ∈ ids (flat (side_of s b))) by by apply Hix.
  pose proof (drop1_ids _ _ Hin) as Hpi. rewrite Hpi in Hnd. apply NoDup_cons in Hnd as [Hni Hnd].
  apply book_ok_change; try done; rewrite ?remove_from_side_flat; try done.
  - intros l l' Hl Hl'. destruct (Hk _ Hl) as (k & ? & <-). by apply (sides_apart b).
  - intros id'. destruct (decide (id' = id)) as [->|Hne]; [rewrite lookup_delete_eq; naive_solver|].
    rewrite lookup_delete_ne, Hix, Hpi, elem_of_cons by done. naive_solver.
  - intros id'. destruct (decide (id' = id)) as [->|Hne]; [|by rewrite lookup_delete_ne].
    rewrite lookup_delete_eq, Hid. split; [done|]. intros [= Hs]. by destruct (opposite_ne s).
Qed.
