(* ===== verification/MatchingThms.v ===== *)
(** * What the matching engine guarantees

    Theorems on [Matching]: a book stays well formed (sorted, uncrossed, its id
    index exact) through submissions and cancellations; fills go to the resting
    orders in price-time priority and conserve quantity; fill-or-kill and
    post-only do what they promise; the published deltas rebuild the levels.
    The exceptions are theorems too: a market order that outsizes the book, a
    self trade met halfway, a cancellation the feed never mentions. *)
From S2P Require Import Prelude Contract Matching MatchingFacts.
#[local] Open Scope Z_scope.

(** ** What the book promises *)

(** The book's life: submissions under fresh ids, cancellations. *)
Inductive book_step (b : Orderbook) : Orderbook -> Prop :=
| step_submit t tr r b' :
    bk_by_id b !! o_id t = None -> submit t tr b = (r, b') -> r <> inl SelfTradeRejected -> book_step b b'
| step_cancel id : book_step b (cancel id b).2.

Lemma new_book_ok mode : BookOk (new_book mode).
Proof.
  split; cbn.
  - intros []; apply side_nil.
  - by intros l l' ?%not_elem_of_nil.
  - intros id []; cbn; rewrite lookup_empty; by split; [|intros ?%not_elem_of_nil].
  - intros []; constructor.
Qed.

Lemma book_step_ok b b' : BookOk b -> book_step b b' -> BookOk b'.
Proof. intros HB []; [by eapply submit_ok | by apply cancel_ok]. Qed.

(** C8: from the empty book on, whatever is submitted under fresh ids and
    whatever is cancelled, in any order, as long as no submission is stopped by
    a self trade: both sides stay sorted with no empty level and no spent order,
    the best bid stays below the best ask, and the id index names exactly the
    resting orders. *)
Theorem book_stays_well_formed mode b : rtc book_step (new_book mode) b -> BookOk b.
Proof.
  intros H. remember (new_book mode) as b0 eqn:E. assert (BookOk b0) as H0 by (subst; apply new_book_ok). clear E.
  induction H as [|b0 b1 b2 Hs _ IH]; [done|]. by eapply IH, book_step_ok.
Qed.

(** C7: an accepted order trades in price-time priority.  Number the resting
    orders it may trade with from the best price on, within a price from the
    oldest on: the [i]-th fill is with the [i]-th of them, at its price, for
    what it offers or what the ones before it left of the order, whichever is
    less; nobody further down gets anything.  What no eligible order covers
    remains. *)
Theorem price_time_priority b t tr out b' :
  BookOk b -> submit t tr b = (inr out, b') ->
  let es := eligible (bk_self_trade b) t (flat (rival t b)) in
  (forall i, so_fills out !! i = share t (bk_next_fill_id b) (o_qty t) es i) /\
  so_remaining out = Z.max 0 (o_qty t - total es).
Proof.
  intros HB (Hpre & ls & x & Hx & _ & -> & -> & _)%submit_accepted es.
  destruct (cross_outcome b t ls x HB (precheck_passed _ _ _ Hpre) Hx) as [-> ->]. split; [|done].
  intros i. apply allot_share, filter_live. eapply side_live, HB.
Qed.

(** No quantity is made or lost by an accepted order: what its fills trade
    and what remains of it add up to what was ordered. *)
Theorem accepted_quantity_conserved b t tr out b' :
  BookOk b -> submit t tr b = (inr out, b') -> fills_qty (so_fills out) + so_remaining out = o_qty t.
Proof.
  intros HB (Hpre & ls & x & Hx & _ & -> & -> & _)%submit_accepted. apply precheck_passed in Hpre.
  destruct (cross_outcome b t ls x HB Hpre Hx) as [-> ->].
  assert (Live (eligible (bk_self_trade b) t (flat (rival t b)))) as HL by (eapply filter_live, side_live, HB).
  rewrite allot_qty by (done || lia). cbn [o_remaining with_remaining]. specialize (total_nonneg _ HL). lia.
Qed.

(** With the self-trade check out of play the modes agree. *)
Lemma sweep_allow mode ms x ms' x' :
  mode <> CancelBoth -> sweep mode ms x = (true, ms', x') -> sweep Allow ms x = (true, ms', x').
Proof.
  intros Hm. revert x. induction ms as [|[p mk] ms IH]; intros x H; [done|]. cbn [sweep] in *.
  repeat (case_match; [done|]). destruct (o_owner mk =? o_owner (x_taker x)), mode; try done; case_match; case_match; auto.
Qed.

Lemma cross_outcome_allow b t ls x :
  BookOk b -> bk_self_trade b <> CancelBoth -> 0 < o_qty t ->
  cross_levels (bk_self_trade b) (rival t b) (start_cross t b) = (true, ls, x) ->
  x_taker x = with_remaining (Z.max 0 (o_qty t - total (eligible Allow t (flat (rival t b))))) t.
Proof.
  intros HB Hm Hq H. pose proof (book_sides _ HB (opposite (o_side t))) as HS. fold (rival t b) in HS.
  destruct (cross_levels_sweep _ _ _ _ _ _ (side_nonempty _ _ HS) H) as (ms & Hsw & _).
  apply sweep_allow in Hsw; [|done].
  apply sweep_allot in Hsw as [_ Ht]; [done|by eapply side_live|by apply side_ranked|simpl; lia].
Qed.

Lemma eligible_level_all t p q ls :
  crosses t p = true -> eligible Allow t (flat ((p, q) :: ls)) = (pair p <$> q) ++ eligible Allow t (flat ls).
Proof.
  intros H. rewrite flat_cons. induction q as [|o q IH]; [done|]. cbn [fmap list_fmap app].
  rewrite eligible_cons by done. cbn [tradable]. by f_equal.
Qed.

Lemma crossable_total t ls :
  SideOk (opposite (o_side t)) ls -> crossable_qty t ls = total (eligible Allow t (flat ls)).
Proof.
  induction ls as [|[p q] ls IH]; [done|]. intros HS. cbn [crossable_qty]. destruct (crosses t p) eqn:Hc; cbn [negb].
  - rewrite eligible_level_all, total_app by done. apply side_cons in HS as (_ & _ & _ & HS).
    rewrite IH by done. f_equal. unfold total. f_equal. clear. induction q; cbn; congruence.
  - pose proof (side_ranked _ _ HS) as HR. apply side_cons in HS as (Hq & _). destruct q as [|o q]; [done|].
    rewrite flat_cons in *. cbn [fmap list_fmap app] in *. by rewrite none_eligible.
Qed.

(** Fill or kill.  Where the engine does not cancel both sides of a self
    trade, an accepted fill-or-kill order is filled to the last unit and never
    rests. *)
Theorem fok_fills_whole b t tr out b' :
  BookOk b -> bk_self_trade b <> CancelBoth -> o_tif t = fok -> submit t tr b = (inr out, b') ->
  so_remaining out = 0 /\ fills_qty (so_fills out) = o_qty t /\ so_resting out = None.
Proof.
  intros HB Hm Hf H. pose proof H as (Hpre & ls & x & Hx & _ & Hfs & Hrem & Hres)%submit_accepted.
  pose proof (precheck_passed _ _ _ Hpre) as Hq. pose proof (cross_outcome_allow _ _ _ _ HB Hm Hq Hx) as Ht.
  assert (o_qty t <= total (eligible Allow t (flat (rival t b)))) as Hen.
  { rewrite <- crossable_total by apply (book_sides _ HB). apply precheck_none in Hpre. tauto. }
  rewrite Z.max_l in Ht by lia. rewrite Ht in *. cbn in Hrem, Hres. simplify_eq.
  split; [done|]. split; [|done]. destruct (cross_outcome _ _ _ _ HB Hq Hx) as [Hfl Ht'].
  rewrite Hfs, Hfl. rewrite Ht' in Ht. apply (f_equal o_remaining) in Ht. cbn in Ht.
  assert (Live (eligible (bk_self_trade b) t (flat (rival t b)))) as HL by (eapply filter_live, side_live, HB).
  rewrite allot_qty by (done || lia). lia.
Qed.

(** A post-only limit order that is accepted trades nothing. *)
Lemma would_cross_none b t : BookOk b -> o_type t = limit -> would_cross t b = false ->
  forall mode, eligible mode t (flat (rival t b)) = [].
Proof.
  intros HB Hty Hw mode. unfold would_cross, best in Hw. fold (rival t b) in Hw.
  pose proof (book_sides _ HB (opposite (o_side t))) as HS. fold (rival t b) in HS.
  destruct (rival t b) as [|[p q] ls]; [done|]. pose proof (side_ranked _ _ HS) as HR. apply side_cons in HS as (Hq & _).
  destruct q as [|o q]; [done|]. rewrite flat_cons in *. cbn [fmap list_fmap app] in *.
  apply none_eligible; [done|]. unfold crosses. rewrite Hty. cbn in Hw. by destruct (o_side t).
Qed.

(** Post only.  An accepted post-only limit order takes nothing from the
    book, and unless it is immediate it rests whole. *)
Theorem post_only_never_takes b t tr out b' :
  BookOk b -> o_post_only t = true -> o_type t = limit -> submit t tr b = (inr out, b') ->
  so_fills out = [] /\ so_remaining out = o_qty t /\ (o_tif t = gtc -> so_resting out = Some (o_id t)).
Proof.
  intros HB Hp Hty (Hpre & ls & x & Hx & _ & Hfs & Hrem & Hres)%submit_accepted.
  pose proof (precheck_none _ _ _ Hpre) as (Hq & Hw & _).
  destruct (cross_outcome _ _ _ _ HB Hq Hx) as [Hfl Ht]. rewrite would_cross_none in Hfl, Ht by auto.
  rewrite Hfs, Hrem, Ht. cbn. split; [done|]. split; [lia|]. intros Hg.
  rewrite Ht in Hres. unfold rests in Hres. cbn in Hres. rewrite Hty, Hg in Hres.
  destruct (Z.ltb_spec 0 (Z.max 0 (o_qty t - 0))); [|lia]. cbn in Hres. by simplify_eq.
Qed.

(** A reduce-only order that passes the checks and fills, in part or whole,
    brings its owner's position towards zero and never past it. *)
Theorem reduce_only_reduces t tr b filled :
  precheck t tr b = None -> o_reduce_only t = true -> 0 < filled <= o_qty t ->
  let before := pt_get (o_owner t) tr in
  let after := pt_get (o_owner t) (pt_apply_fill (o_owner t) (o_side t) filled tr) in
  Z.abs after < Z.abs before /\ 0 <= before * after.
Proof.
  unfold PositionTracker in tr. intros Hp Hr Hf. assert (Hw : would_reduce (o_owner t) (o_side t) (o_qty t) tr = true).
  { unfold precheck in Hp. rewrite Hr in Hp. destruct (would_reduce _ _ _ _); [done|]. cbn in Hp. by repeat case_match. }
  unfold would_reduce in Hw. unfold pt_apply_fill, pt_set. set (cur := pt_get (o_owner t) tr) in *. cbn zeta.
  assert (Hget : forall n, pt_get (o_owner t) (if n =? 0 then delete (o_owner t) tr else <[o_owner t := n]> tr) = n).
  { intros n. unfold pt_get. destruct (Z.eqb_spec n 0) as [->|]; [by rewrite (lookup_delete_eq tr) | by rewrite (fin_maps.lookup_insert_eq tr)]. }
  rewrite Hget. destruct (Z.eqb_spec cur 0); [done|]. destruct (Z.leb_spec 0 cur), (o_side t); try done; apply Z.leb_le in Hw; nia.
Qed.

(** ** Where the book loses trades *)

Lemma sweep_tradable mode ms x : Forall (fun m => tradable mode (x_taker x) m.2 = true) ms -> (sweep mode ms x).1.1 = true.
Proof.
  intros H. revert x H. induction ms as [|[p mk] ms IH]; intros x H; [done|]. apply Forall_cons_1 in H as [Hm H]. cbn [sweep].
  do 2 (case_match; [done|]). cbn in Hm. unfold tradable in Hm.
  destruct (o_owner mk =? o_owner (x_taker x)), mode; try done; unfold trade; case_match; try done; by apply IH.
Qed.

Lemma flat_nil ls : Forall (fun l => l.2 <> []) ls -> flat ls = [] -> ls = [].
Proof. intros H. destruct H as [|[p q] ls Hq H]; [done|]. by destruct q. Qed.

Lemma eligible_all mode t ms :
  o_type t = market -> Forall (fun m => tradable mode t m.2 = true) ms -> eligible mode t ms = ms.
Proof.
  intros Hty. induction 1 as [|[p mk] ms Hm _ IH]; [done|]. cbn in Hm.
  rewrite eligible_cons, Hm, IH; [done|]. unfold crosses. rewrite Hty. by destruct (o_side t).
Qed.

(** A market order for more than the book holds is refused, and yet it has
    emptied the opposite side: every resting order there is consumed, and
    neither the fill stream nor the delta stream is told. *)
Theorem outsized_market_order_sweeps_silently w t tr :
  BookOk (wk_book w) ->
  o_type t = market -> o_tif t <> fok -> o_post_only t = false -> o_reduce_only t = false ->
  Forall (fun m => tradable (bk_self_trade (wk_book w)) t m.2 = true) (flat (rival t (wk_book w))) ->
  total (flat (rival t (wk_book w))) < o_qty t ->
  let w' := run_cmd w (CmdSubmit t tr) in
  (submit t tr (wk_book w)).1 = inl MarketNoLiquidity /\
  rival t (wk_book w') = [] /\ wk_fills w' = wk_fills w /\ wk_deltas w' = wk_deltas w.
Proof.
  intros HB Hty Htif Hpo Hro Htr Htot. set (b := wk_book w) in *.
  assert (HS := book_sides _ HB (opposite (o_side t))). fold (rival t b) in HS.
  assert (0 <= total (flat (rival t b))) by by eapply total_nonneg, side_live.
  assert (Hpre : precheck t tr b = None).
  { unfold precheck. destruct (Z.leb_spec (o_qty t) 0); [lia|]. rewrite Hty, Hpo, Hro. cbn. by destruct (o_tif t). }
  destruct (cross_levels (bk_self_trade b) (rival t b) (start_cross t b)) as [[ok ls] x] eqn:Hx.
  destruct (cross_levels_sweep _ _ _ _ _ _ (side_nonempty _ _ HS) Hx) as (ms & Hsw & Hms).
  assert (ok = true) as ->. { pose proof (sweep_tradable (bk_self_trade b) _ (start_cross t b) Htr) as Hok. by rewrite Hsw in Hok. }
  rewrite (Hms eq_refl) in Hsw. assert (Hq : 0 < o_qty t) by lia.
  destruct (cross_outcome _ _ _ _ HB Hq Hx) as [_ Ht]. rewrite eligible_all in Ht by done.
  pose proof Hsw as Hl. apply sweep_left in Hl; [|by apply side_ranked|rewrite Ht; cbn; lia].
  assert (ls = []) as ->.
  { destruct (cross_levels_side _ _ _ _ _ _ HS Hx) as [HS' _]. apply flat_nil; [by eapply side_nonempty|].
    destruct (flat ls) as [|m ms']; [done|]. apply Forall_cons_1 in Hl as [Hl _]. rewrite Ht in Hl. unfold crosses in Hl.
    cbn in Hl. rewrite Hty in Hl. by destruct (o_side t). }
  assert (Hsub : submit t tr b = (inl MarketNoLiquidity, after_cross t [] x b)).
  { unfold submit. rewrite Hpre. cbn [o_side with_remaining]. fold (start_cross t b). fold (rival t b). rewrite Hx. cbn [negb].
    rewrite Ht. cbn. rewrite Hty. destruct (Z.ltb_spec 0 (Z.max 0 (o_qty t - total (flat (rival t b))))); [done|lia]. }
  unfold run_cmd. fold b. rewrite Hsub. cbn. unfold rival, after_cross. by rewrite side_of_same.
Qed.

(** A self trade met halfway.  The taker first trades with somebody else's
    order and then meets its own: it is rejected, but the first maker has
    already been consumed.  It stays on the book with nothing left, no fill is
    reported, and since it left the index it can no longer be cancelled. *)
Theorem self_trade_leaves_ghost b t tr p m0 m1 q ls :
  bk_self_trade b = CancelNewest -> precheck t tr b = None -> rival t b = (p, m0 :: m1 :: q) :: ls -> crosses t p = true ->
  o_owner m0 <> o_owner t -> o_owner m1 = o_owner t -> 0 < o_remaining m0 < o_qty t ->
  exists b', submit t tr b = (inl SelfTradeRejected, b') /\
    rival t b' = (p, with_remaining 0 m0 :: m1 :: q) :: ls /\ cancel (o_id m0) b' = (false, b').
Proof.
  intros Hm Hpre Hr Hc H0 H1 Hrem. pose proof (precheck_passed _ _ _ Hpre) as Hq.
  eexists. unfold submit. rewrite Hpre. cbn [o_side with_remaining]. fold (rival t b). rewrite Hr, Hm.
  cbn [cross_levels x_taker o_remaining with_remaining]. destruct (Z.leb_spec (o_qty t) 0); [lia|].
  replace (crosses (with_remaining (o_qty t) t) p) with true by by rewrite <- Hc. cbn.
  destruct (Z.leb_spec (o_qty t) 0); [lia|]. rewrite (proj2 (Z.eqb_neq _ _) H0), H1, Z.eqb_refl.
  rewrite Z.min_r, Z.sub_diag by lia. cbn. destruct (Z.leb_spec (o_qty t - o_remaining m0) 0); [lia|]. cbn.
  split; [done|]. split; [unfold rival; by rewrite side_of_same|].
  unfold cancel. rewrite by_id_with_side. cbn. by rewrite lookup_delete_eq.
Qed.

(** ** The published feed *)

(** What a subscriber holds: per side and price the last quantity it was told. *)
Definition apply_delta (v : Side -> Z -> Z) (d : BookDelta) : Side -> Z -> Z :=
  fun s p => if bool_decide (s = d_side d /\ p = d_price d) then d_qty d else v s p.

Definition subscriber : list BookDelta -> Side -> Z -> Z := foldl apply_delta (fun _ _ => 0).

Definition InSync (w : Worker) : Prop := forall s p, subscriber (wk_deltas w) s p = level_qty s p (wk_book w).

(** Fills are only appended. *)
Lemma cross_queue_fills mode price q x ok raw kept x' :
  mode <> CancelBoth -> cross_queue mode price q x = (ok, raw, kept, x') ->
  exists fs, x_fills x' = x_fills x ++ fs /\
    (ok = true -> q <> [] -> 0 < o_remaining (x_taker x) -> exists f, f ∈ fs /\ f_price f = price).
Proof.
  intros Hm. revert x ok raw kept. induction q as [|mk q IH]; intros x ok raw kept H; simpl in H.
  { simplify_eq. exists []. by rewrite app_nil_r. }
  destruct (Z.leb_spec (o_remaining (x_taker x)) 0).
  { simplify_eq. exists []. rewrite app_nil_r. split; [done|]. lia. }
  assert (Hrec : forall y m f, f_price f = price -> x_fills y = x_fills x ++ [f] ->
    (let '(ok, raw, kept, x') := cross_queue mode price q y in (ok, m :: raw, kept, x')) = (ok, raw, kept, x') ->
    exists fs, x_fills x' = x_fills x ++ fs /\
      (ok = true -> mk :: q <> [] -> 0 < o_remaining (x_taker x) -> exists f, f ∈ fs /\ f_price f = price)).
  { intros y m f Hf Hy E. destruct (cross_queue mode price q y) as [[[? ?] ?] ?] eqn:Eq. simplify_eq.
    apply IH in Eq as (fs & -> & _). exists (f :: fs). rewrite Hy, <- app_assoc. split; [done|]. intros. exists f. by split; [left|]. }
  destruct (o_owner mk =? o_owner (x_taker x)), mode; simpl in H; try done;
    try (simplify_eq; exists []; rewrite app_nil_r; by split);
    case_match; try (eapply Hrec; cycle 2; [exact H | | cbn; reflexivity]; reflexivity);
    simplify_eq; eexists; (split; [done|]); intros; eexists; (split; [by left|done]).
Qed.

(** A level the crossing did not trade on is as it was. *)
Lemma cross_levels_untouched mode ls x ls' x' p :
  mode <> CancelBoth -> Forall (fun l => l.2 <> []) ls -> cross_levels mode ls x = (true, ls', x') ->
  exists fs, x_fills x' = x_fills x ++ fs /\ (p ∉ f_price <$> fs -> level_at p ls' = level_at p ls).
Proof.
  intros Hm Hne. revert x. induction Hne as [|[pr q] ls Hq Hne IH]; intros x H; simpl in H.
  { simplify_eq. exists []. by rewrite app_nil_r. }
  destruct (Z.leb_spec (o_remaining (x_taker x)) 0). { simplify_eq. exists []. by rewrite app_nil_r. }
  case_match. { simplify_eq. exists []. by rewrite app_nil_r. }
  destruct (cross_queue mode pr q x) as [[[ok raw] kept] x1] eqn:E.
  apply cross_queue_fills in E as (fs & Hfs & Hin); [|done]. destruct ok; simpl in H; [|done].
  destruct Hin as (f & Hf & Hp); [done..|].
  assert (Hpr : forall fs', p ∉ f_price <$> fs ++ fs' -> (pr =? p) = false).
  { intros fs' Hni. apply Z.eqb_neq. intros ->. apply Hni. rewrite fmap_app. apply elem_of_app. left.
    apply list_elem_of_fmap. by exists f. }
  destruct kept as [|k kept].
  - apply IH in H as (fs' & -> & Hl). exists (fs ++ fs'). rewrite Hfs, app_assoc. split; [done|].
    intros Hni. cbn [level_at]. rewrite (Hpr fs' Hni). apply Hl. rewrite fmap_app in Hni. set_solver.
  - simplify_eq. exists fs. split; [done|]. intros Hni. cbn [level_at]. rewrite (Hpr []) by by rewrite app_nil_r. done.
Qed.

Lemma push_level_other s o ls p : p <> o_price o -> level_at p (push_level (better s) o ls) = level_at p ls.
Proof.
  intros Hp. induction ls as [|[pr q] ls IH]; cbn [push_level level_at].
  - by rewrite (proj2 (Z.eqb_neq _ _)) by congruence.
  - case_match eqn:E; [|case_match]; cbn [level_at].
    + apply Z.eqb_eq in E. by rewrite (proj2 (Z.eqb_neq _ _)) by congruence.
    + by rewrite (proj2 (Z.eqb_neq _ _)) by congruence.
    + by rewrite IH.
Qed.

Lemma push_fills_feed side fs w :
  wk_book (foldl (push_fill side) w fs) = wk_book w /\
  wk_fills (foldl (push_fill side) w fs) = wk_fills w ++ fs /\
  forall s p, subscriber (wk_deltas (foldl (push_fill side) w fs)) s p =
    if bool_decide (s = opposite side /\ p ∈ f_price <$> fs) then level_qty s p (wk_book w) else subscriber (wk_deltas w) s p.
Proof.
  revert w. induction fs as [|f fs IH]; intros w.
  - split; [done|]. split; [by rewrite app_nil_r|]. intros s p. rewrite bool_decide_eq_false_2; [done|]. by intros [_ ?%not_elem_of_nil].
  - cbn [foldl]. destruct (IH (push_fill side w f)) as (-> & -> & H). split; [done|]. split; [cbn; by rewrite <- app_assoc|].
    intros s p. rewrite H. clear H IH. cbn [wk_book push_fill push_delta wk_deltas]. unfold subscriber. rewrite foldl_snoc. unfold apply_delta at 1.
    cbn [d_side d_price d_qty]. cbn [fmap list_fmap]. repeat case_bool_decide; set_solver.
Qed.

Lemma rest_other o b s p : ~ (s = o_side o /\ p = o_price o) -> level_qty s p (rest o b) = level_qty s p b.
Proof.
  intros Hn. unfold level_qty, rest. destruct (decide (s = o_side o)) as [->|Hne].
  - rewrite side_of_same, push_level_other by naive_solver. done.
  - rewrite side_of_other by done. by rewrite side_of_with_ids.
Qed.

(** An accepted order changes no level but those it traded on and the one it
    rests on. *)
Lemma accepted_untouched b t tr out b' s p :
  BookOk b -> bk_self_trade b <> CancelBoth -> submit t tr b = (inr out, b') ->
  ~ (s = opposite (o_side t) /\ p ∈ f_price <$> so_fills out) ->
  ~ (is_Some (so_resting out) /\ s = o_side t /\ p = o_price t) -> level_qty s p b' = level_qty s p b.
Proof.
  intros HB Hm (Hpre & ls & x & Hx & _ & Hfs & _ & Hres)%submit_accepted Hp Hrs.
  destruct (cross_outcome _ _ _ _ HB (precheck_passed _ _ _ Hpre) Hx) as [_ Ht].
  assert (Hc : level_qty s p (after_cross t ls x b) = level_qty s p b).
  { unfold level_qty, after_cross. destruct (decide (s = opposite (o_side t))) as [->|Hne].
    - rewrite side_of_same. f_equal.
      destruct (cross_levels_untouched _ _ _ _ _ p Hm (side_nonempty _ _ (book_sides _ HB _)) Hx) as (fs & Hf & Hl).
      cbn in Hf. rewrite Hfs, Hf in Hp. apply Hl. tauto.
    - rewrite side_of_other by done. by rewrite side_of_with_ids. }
  destruct (rests (x_taker x)); injection Hres as Hr ->; [|done].
  rewrite rest_other; [done|]. rewrite Ht. cbn. rewrite Hr in Hrs. naive_solver.
Qed.

(** C9: the delta feed is exact for accepted orders under the self-trade modes
    CancelNewest (the default) and Allow.  If the book is well formed (C8) and a
    subscriber's picture agrees with it, then after an accepted order, and once
    its deltas are applied, it agrees again at every price of both sides.  Under
    CancelBoth it does not: the taker's own makers are removed with no delta
    (see [cancel_both_leaves_feed_behind]). *)
Theorem feed_follows_accepted_orders w t tr out b' :
  BookOk (wk_book w) -> bk_self_trade (wk_book w) <> CancelBoth -> InSync w ->
  submit t tr (wk_book w) = (inr out, b') -> InSync (run_cmd w (CmdSubmit t tr)).
Proof.
  intros HB Hm HI Hs. unfold run_cmd. rewrite Hs. set (w1 := mkWorker b' (wk_sequence w) (wk_fills w) (wk_deltas w)).
  destruct (push_fills_feed (o_side t) (so_fills out) w1) as (Hb & _ & Hfeed). cbn in Hb.
  pose proof (fun s p => accepted_untouched _ _ _ _ _ s p HB Hm Hs) as Hsame.
  destruct (so_resting out) as [i|] eqn:Hr; intros s p.
  - cbn [push_delta wk_deltas wk_book]. unfold subscriber. rewrite foldl_snoc. fold (subscriber (wk_deltas (foldl (push_fill (o_side t)) w1 (so_fills out)))).
    unfold apply_delta. cbn [d_side d_price d_qty]. case_bool_decide as E; [by destruct E as [-> ->]|].
    rewrite Hfeed, Hb. case_bool_decide; [done|]. cbn [w1 wk_deltas]. rewrite (HI s p), <- Hsame; naive_solver.
  - rewrite Hfeed, Hb. case_bool_decide; [done|]. cbn [w1 wk_deltas]. rewrite (HI s p), <- Hsame; naive_solver.
Qed.

(** The quantity of the level an order is removed from goes down. *)
Lemma level_gone p s q ls : SideOk s ((p, q) :: ls) -> level_at p ls = None.
Proof.
  intros (_ & _ & Hp & _)%side_cons. induction Hp as [|[p' q'] ls H _ IH]; [done|]. cbn in *.
  destruct (Z.eqb_spec p' p) as [->|]; [by rewrite rank_irrefl in H | done].
Qed.

Lemma remove_order_qty s p id q q' : Forall (OrderOk s p) q -> remove_order id q = Some q' -> queue_qty q' < queue_qty q.
Proof.
  intros H. revert q'. induction H as [|o q (_ & _ & Hr) _ IH]; intros q' E; [done|]. cbn in E. rewrite queue_qty_cons.
  destruct (o_id o =? id); [simplify_eq; lia|]. destruct (remove_order id q) as [q1|]; cbn in E; [|done]. simplify_eq.
  rewrite queue_qty_cons. specialize (IH _ eq_refl). lia.
Qed.

Lemma remove_order_none id p q : remove_order id q = None -> id ∉ ids (pair p <$> q).
Proof.
  induction q as [|o q IH]; [intros _; apply not_elem_of_nil|]. cbn. destruct (Z.eqb_spec (o_id o) id); [done|].
  destruct (remove_order id q); [done|]. intros _ [?|?]%elem_of_cons; [done|]. by apply IH.
Qed.

Lemma remove_level_qty s id ls :
  SideOk s ls -> id ∈ ids (flat ls) -> exists p, is_Some (level_at p ls) /\
  from_option queue_qty 0 (level_at p (remove_from_side id ls)) < from_option queue_qty 0 (level_at p ls).
Proof.
  induction ls as [|[p q] ls IH]; intros HS Hin; [by apply not_elem_of_nil in Hin|].
  pose proof (level_gone _ _ _ _ HS) as Hg. apply side_cons in HS as (_ & Hq & _ & HS). cbn [remove_from_side].
  destruct (remove_order id q) as [[|o q']|] eqn:E.
  - exists p. cbn [level_at]. rewrite Z.eqb_refl, Hg. split; [done|]. exact (remove_order_qty s p id _ _ Hq E).
  - exists p. cbn [level_at]. rewrite Z.eqb_refl. split; [done|]. exact (remove_order_qty s p id _ _ Hq E).
  - rewrite flat_cons, ids_app, elem_of_app in Hin. destruct Hin as [Hin|Hin]; [by destruct (remove_order_none _ p _ E)|].
    destruct (IH HS Hin) as (p' & Hs & Hlt). exists p'. cbn [level_at].
    destruct (Z.eqb_spec p p') as [<-|]; [by rewrite Hg in Hs; destruct Hs | done].
Qed.

(** A cancellation is missing from the delta feed.  Whenever a resting order
    is cancelled, a subscriber that had the book exactly does not any more: some
    level is shown with more than it holds. *)
Theorem cancel_leaves_feed_behind w id :
  BookOk (wk_book w) -> InSync w -> is_Some (bk_by_id (wk_book w) !! id) ->
  let w' := run_cmd w (CmdCancel id) in
  wk_deltas w' = wk_deltas w /\ exists s p, level_qty s p (wk_book w') < subscriber (wk_deltas w') s p.
Proof.
  intros HB HI [s Hs]. split; [done|]. pose proof (proj1 (book_index _ HB _ _) Hs) as Hin.
  destruct (remove_level_qty s id _ (book_sides _ HB s) Hin) as (p & _ & Hlt). exists s, p.
  cbn. rewrite (HI s p). unfold cancel. rewrite Hs. unfold level_qty at 1. cbn [snd]. by rewrite side_of_same.
Qed.

(** The deltas of a worker are numbered from 1 without a gap. *)
Definition Numbered (w : Worker) : Prop :=
  wk_sequence w = Z.of_nat (length (wk_deltas w)) /\
  forall i d, wk_deltas w !! i = Some d -> d_sequence d = Z.of_nat i + 1.

Lemma push_delta_numbered s p ts w : Numbered w -> Numbered (push_delta s p ts w).
Proof.
  intros [Hn Hd]. split; cbn.
  - rewrite length_app. cbn. lia.
  - intros i d [H|[Hi H]]%lookup_app_Some; [by apply Hd|]. apply list_lookup_singleton_Some in H as [? <-]. cbn. lia.
Qed.

Lemma push_fills_numbered side fs w : Numbered w -> Numbered (foldl (push_fill side) w fs).
Proof. revert w. induction fs as [|f fs IH]; intros w Hw; [done|]. cbn. by apply IH, push_delta_numbered. Qed.

(** The deltas of a market's worker carry the sequence numbers 1, 2, 3, ...
    without a gap or a repeat, over any history of commands, which is what the
    subscribers' gap detection relies on. *)
Theorem worker_deltas_gapless mode cmds i d :
  wk_deltas (foldl run_cmd (new_worker mode) cmds) !! i = Some d -> d_sequence d = Z.of_nat i + 1.
Proof.
  enough (H : forall w, Numbered w -> Numbered (foldl run_cmd w cmds)) by (apply (H (new_worker mode)); split; [done|]; by intros).
  induction cmds as [|c cmds IH]; intros w Hw; [done|]. cbn. apply IH. destruct c as [t tr|id|]; cbn; [|done..].
  destruct (submit t tr (wk_book w)) as [[e|out] b]; [done|].
  assert (Numbered (foldl (push_fill (o_side t)) (mkWorker b (wk_sequence w) (wk_fills w) (wk_deltas w)) (so_fills out)))
    by by apply push_fills_numbered.
  destruct (so_resting out); [by apply push_delta_numbered | done].
Qed.

(** ** A worked book *)

(** A book built by submissions that are all accepted under fresh ids. *)
Fixpoint build (os : list Order) (b : Orderbook) : option Orderbook :=
  match os with
  | [] => Some b
  | o :: os =>
      match bk_by_id b !! o_id o, submit o ∅ b with
      | None, (inr _, b') => build os b'
      | _, _ => None
      end
  end.

Lemma build_ok os b b' : BookOk b -> build os b = Some b' -> BookOk b'.
Proof.
  revert b. induction os as [|o os IH]; intros b HB H; cbn in H; [by simplify_eq|].
  destruct (bk_by_id b !! o_id o) eqn:Hid; [done|]. destruct (submit o ∅ b) as [[e|out] b1] eqn:Hs; [done|].
  eapply IH; [|exact H]. by eapply submit_ok.
Qed.

Definition gtc_order (id owner : Z) (s : Side) (price qty : Z) : Order := mkOrder id owner s limit price qty 0 gtc false false 0.

(** Five bid at 100; four, then two asked at 101; six asked at 102. *)
Definition demo_orders : list Order :=
  [gtc_order 1 10 buy 100 5; gtc_order 2 11 sell 101 4; gtc_order 3 12 sell 102 6; gtc_order 4 13 sell 101 2].

Definition demo (mode : SelfTradeMode) : Orderbook := default (new_book mode) (build demo_orders (new_book mode)).

Lemma demo_ok mode : BookOk (demo mode).
Proof.
  destruct (build demo_orders (new_book mode)) as [b|] eqn:E; unfold demo; rewrite E; cbn; [|apply new_book_ok].
  by eapply build_ok; [apply new_book_ok|].
Qed.

(** An outcome read off a run. *)
Lemma submit_outcome t tr b r : (submit t tr b).1 = r -> submit t tr b = (r, (submit t tr b).2).
Proof. intros <-. by destruct (submit t tr b). Qed.

Definition taker_buy : Order := gtc_order 9 20 buy 102 8.

Definition fill_to (n mk_id mk_user price qty : Z) : Fill := mkFill n mk_id 9 mk_user 20 price qty buy 0.

Lemma price_time_priority_witness :
  (submit taker_buy ∅ (demo CancelNewest)).1 =
    inr (mkOutcome [fill_to 1 2 11 101 4; fill_to 2 4 13 101 2; fill_to 3 3 12 102 2] None 0) /\
  share taker_buy 0 8 (eligible CancelNewest taker_buy (flat (rival taker_buy (demo CancelNewest)))) 2 = Some (fill_to 3 3 12 102 2).
Proof.
  split; [by vm_compute|].
  edestruct (price_time_priority (demo CancelNewest) taker_buy ∅) as [Hf _];
    [apply demo_ok | apply submit_outcome; vm_compute; reflexivity|].
  specialize (Hf 2%nat). symmetry. exact Hf.
Defined.

Lemma accepted_quantity_conserved_witness :
  exists out, (submit taker_buy ∅ (demo Allow)).1 = inr out /\ fills_qty (so_fills out) + so_remaining out = 8.
Proof.
  eexists. split; [vm_compute; reflexivity|].
  apply (accepted_quantity_conserved (demo Allow) taker_buy ∅ _ (submit taker_buy ∅ (demo Allow)).2);
    [apply demo_ok | apply submit_outcome; by vm_compute].
Defined.

Lemma book_stays_well_formed_witness : BookOk (cancel 2 (submit taker_buy ∅ (new_book Allow)).2).2.
Proof.
  apply (book_stays_well_formed Allow).
  eapply rtc_l; [eapply (step_submit _ taker_buy ∅); [|by apply submit_outcome|]; by vm_compute|].
  eapply rtc_l; [apply (step_cancel _ 2)|]. apply rtc_refl.
Defined.

Definition fok_buy (qty owner : Z) : Order := mkOrder 9 owner buy limit 102 qty 0 fok false false 0.

Lemma fok_fills_whole_witness :
  exists out, (submit (fok_buy 8 20) ∅ (demo CancelNewest)).1 = inr out /\ fills_qty (so_fills out) = 8.
Proof.
  eexists. split; [vm_compute; reflexivity|].
  apply (fok_fills_whole (demo CancelNewest) (fok_buy 8 20) ∅ _ (submit (fok_buy 8 20) ∅ (demo CancelNewest)).2);
    [apply demo_ok | by vm_compute | done | apply submit_outcome; by vm_compute].
Defined.

(** Under [CancelBoth] it is not: the taker's own resting order counts as
    liquidity in the check and is then cancelled instead of traded with, so a
    fill-or-kill order for twelve is accepted and filled for eight. *)
Theorem fok_partial_under_cancel_both :
  exists out, (submit (fok_buy 12 11) ∅ (demo CancelBoth)).1 = inr out /\
    fills_qty (so_fills out) = 8 /\ so_remaining out = 4.
Proof. eexists. split; [vm_compute; reflexivity | by vm_compute]. Qed.

Definition post_only_sell : Order := mkOrder 9 20 sell limit 101 8 0 gtc true false 0.

Lemma post_only_never_takes_witness :
  exists out, (submit post_only_sell ∅ (demo CancelNewest)).1 = inr out /\ so_fills out = [] /\ so_remaining out = 8.
Proof.
  eexists. split; [vm_compute; reflexivity|].
  edestruct (post_only_never_takes (demo CancelNewest) post_only_sell ∅) as (Hf & Hr & _);
    [apply demo_ok | done | done | apply submit_outcome; vm_compute; reflexivity | by split].
Defined.

Definition market_buy : Order := mkOrder 9 20 buy market 0 100 0 ioc false false 0.

Definition demo_worker : Worker := mkWorker (demo CancelNewest) 0 [] [].

Lemma outsized_market_order_sweeps_silently_witness :
  total (flat (rival market_buy (wk_book demo_worker))) = 12 /\
  rival market_buy (wk_book (run_cmd demo_worker (CmdSubmit market_buy ∅))) = [].
Proof.
  split; [by vm_compute|].
  destruct (outsized_market_order_sweeps_silently demo_worker market_buy ∅) as (_ & H & _); try done;
    [apply demo_ok | vm_compute; by repeat constructor].
Defined.

Definition self_buy : Order := gtc_order 9 13 buy 102 5.

Lemma self_trade_leaves_ghost_witness :
  exists b', submit self_buy ∅ (demo CancelNewest) = (inl SelfTradeRejected, b') /\ cancel 2 b' = (false, b').
Proof.
  edestruct (self_trade_leaves_ghost (demo CancelNewest) self_buy ∅ 101) as (b' & Hs & _ & Hc);
    [by vm_compute | by vm_compute | vm_compute; reflexivity | by vm_compute.. |].
  exists b'. split; [exact Hs | exact Hc].
Defined.

Definition one_worker : Worker := run_cmd (new_worker CancelNewest) (CmdSubmit (gtc_order 2 11 sell 101 4) ∅).

Lemma one_worker_in_sync : InSync one_worker.
Proof.
  intros s p. destruct (decide (s = sell /\ p = 101)) as [[-> ->]|Hn]; [by vm_compute|].
  change (subscriber (wk_deltas one_worker)) with (apply_delta (fun _ _ => 0) (mkDelta 1 sell 101 4 0)). unfold apply_delta.
  rewrite bool_decide_eq_false_2 by done. destruct s; [done|]. unfold level_qty.
  change (side_of sell (wk_book one_worker)) with [(101, [with_remaining 4 (gtc_order 2 11 sell 101 4)])]. cbn [level_at].
  rewrite (proj2 (Z.eqb_neq _ _)); [done|]. intros <-. by destruct Hn.
Qed.

Lemma one_worker_ok : BookOk (wk_book one_worker).
Proof.
  apply (submit_ok (new_book CancelNewest) (gtc_order 2 11 sell 101 4) ∅ (inr (mkOutcome [] (Some 2) 4))); [apply new_book_ok | | |done];
    by vm_compute.
Qed.

Lemma feed_follows_accepted_orders_witness :
  InSync (run_cmd one_worker (CmdSubmit taker_buy ∅)) /\ length (wk_deltas (run_cmd one_worker (CmdSubmit taker_buy ∅))) = 3%nat.
Proof.
  split; [|by vm_compute].
  eapply (feed_follows_accepted_orders one_worker taker_buy ∅);
    [apply one_worker_ok | by vm_compute | apply one_worker_in_sync | apply submit_outcome; vm_compute; reflexivity].
Defined.

(** Under [CancelBoth] an accepted order removes the taker's own resting order
    and tells the feed nothing. *)
Example cancel_both_leaves_feed_behind :
  let w0 := run_cmd (new_worker CancelBoth) (CmdSubmit (gtc_order 1 11 sell 101 4) ∅) in
  let w := run_cmd w0 (CmdSubmit (gtc_order 2 11 buy 101 4) ∅) in
  subscriber (wk_deltas w0) sell 101 = 4 /\ level_qty sell 101 (wk_book w0) = 4
  /\ subscriber (wk_deltas w) sell 101 = 4 /\ level_qty sell 101 (wk_book w) = 0.
Proof. by vm_compute. Qed.

Lemma cancel_leaves_feed_behind_witness :
  exists s p, level_qty s p (wk_book (run_cmd one_worker (CmdCancel 2))) < subscriber (wk_deltas (run_cmd one_worker (CmdCancel 2))) s p.
Proof.
  apply (cancel_leaves_feed_behind one_worker 2); [apply one_worker_ok | apply one_worker_in_sync | vm_compute; by eexists].
Defined.

Lemma worker_deltas_gapless_witness :
  d_sequence <$> wk_deltas (foldl run_cmd (new_worker CancelNewest) ((fun o => CmdSubmit o ∅) <$> demo_orders)) !! 3%nat = Some 4.
Proof.
  destruct (wk_deltas (foldl run_cmd (new_worker CancelNewest) ((fun o => CmdSubmit o ∅) <$> demo_orders)) !! 3%nat) as [d|] eqn:E.
  - apply worker_deltas_gapless in E. cbn. by rewrite E.
  - vm_compute in E. done.
Defined.
