(* ===== verification/Dispatch.v ===== *)
(** * The dispatcher: one worker per market

    [Dispatcher] of crates/perplex-matching/src/dispatcher.rs: a map from the
    listed markets to their workers' queues.  Each worker takes the commands of
    its queue one at a time, so a run of the dispatcher is some interleaving of
    the workers' commands; [dispatch] is one command being taken and answered.
    A worker runs until the dispatcher is shut down, which is not modelled.
    The theorem says that the interleaving does not matter. *)
From S2P Require Import Prelude Contract Matching.
#[local] Open Scope Z_scope.

(** What is sent back on a command's reply channel. *)
Inductive Reply :=
| ReplySubmit (r : SubmitError + SubmitOutcome)
| ReplyCancel (removed : bool)
| ReplyTop (best_bid best_ask : option Z).

Definition reply_of (w : Worker) (c : EngineCmd) : Reply :=
  match c with
  | CmdSubmit order tracker => ReplySubmit (submit order tracker (wk_book w)).1
  | CmdCancel id => ReplyCancel (cancel id (wk_book w)).1
  | CmdTop => ReplyTop (best_bid (wk_book w)) (best_ask (wk_book w))
  end.

(** The workers by market. *)
Definition Dispatcher := gmap Z Worker.

Definition start (markets : list Z) (self_trade : SelfTradeMode) : Dispatcher :=
  foldl (fun d m => <[m := new_worker self_trade]> d) ∅ markets.

(** What a caller gets for a market that is not listed; [None] is the answer of
    [top]. *)
Definition unlisted (c : EngineCmd) : option Reply :=
  match c with
  | CmdSubmit _ _ => Some (ReplySubmit (inl MarketNoLiquidity))
  | CmdCancel _ => Some (ReplyCancel false)
  | CmdTop => None
  end.

Definition dispatch (d : Dispatcher) (m : Z) (c : EngineCmd) : option Reply * Dispatcher :=
  match d !! m with
  | None => (unlisted c, d)
  | Some w => (Some (reply_of w c), <[m := run_cmd w c]> d)
  end.

(** A run: the replies in the order the commands were taken. *)
Fixpoint run (d : Dispatcher) (cs : list (Z * EngineCmd)) : list (Z * option Reply) * Dispatcher :=
  match cs with
  | [] => ([], d)
  | (m, c) :: cs' =>
      let '(r, d1) := dispatch d m c in
      let '(rs, d2) := run d1 cs' in ((m, r) :: rs, d2)
  end.

(** ** One market alone *)

Definition only {A} (m : Z) (xs : list (Z * A)) : list A := (filter (fun x => x.1 = m) xs).*2.

(** The market's own queue, run by its worker alone. *)
Fixpoint run_worker (w : Worker) (cs : list EngineCmd) : list (option Reply) * Worker :=
  match cs with
  | [] => ([], w)
  | c :: cs' => let '(rs, w') := run_worker (run_cmd w c) cs' in (Some (reply_of w c) :: rs, w')
  end.

Lemma only_same {A} m (a : A) xs : only m ((m, a) :: xs) = a :: only m xs.
Proof. unfold only. by rewrite filter_cons_True. Qed.

Lemma only_other {A} m m' (a : A) xs : m' <> m -> only m ((m', a) :: xs) = only m xs.
Proof. intros. unfold only. by rewrite filter_cons_False. Qed.

Lemma dispatch_other d m m' c : m' <> m -> (dispatch d m' c).2 !! m = d !! m.
Proof. intros. unfold dispatch. destruct (d !! m'); [|done]. by apply (lookup_insert_ne d). Qed.

Lemma run_market cs d m w :
  d !! m = Some w ->
  only m (run d cs).1 = (run_worker w (only m cs)).1 /\ (run d cs).2 !! m = Some (run_worker w (only m cs)).2.
Proof.
  revert d w. induction cs as [|[m' c] cs IH]; intros d w Hw; [done|]. cbn [run].
  destruct (dispatch d m' c) as [r d1] eqn:Ed. destruct (run d1 cs) as [rs d2] eqn:Er.
  destruct (decide (m' = m)) as [->|Hne].
  - unfold dispatch in Ed. rewrite Hw in Ed. injection Ed as <- <-.
    destruct (IH (<[m := run_cmd w c]> d) (run_cmd w c)) as [H1 H2]; [apply (fin_maps.lookup_insert_eq d)|].
    rewrite Er in H1, H2. cbn [fst snd] in *. rewrite !only_same. cbn [run_worker].
    destruct (run_worker _ _). cbn [fst snd] in *. by rewrite H1, H2.
  - destruct (IH d1 w) as [H1 H2]; [by rewrite <- Hw, <- (dispatch_other d m m' c Hne), Ed|].
    rewrite Er in H1, H2. cbn [fst snd] in *. rewrite !only_other by done. done.
Qed.

Lemma start_listed markets mode m : m ∈ markets -> start markets mode !! m = Some (new_worker mode).
Proof.
  unfold start, Dispatcher. generalize (∅ : gmap Z Worker). induction markets as [|m' ms IH] using rev_ind; [by intros d ?%not_elem_of_nil|].
  intros d [Hm|Hm%list_elem_of_singleton]%elem_of_app; rewrite foldl_snoc.
  - destruct (decide (m' = m)) as [->|Hne]; [apply (fin_maps.lookup_insert_eq (M := gmap Z))|].
    etrans; [by apply (lookup_insert_ne (M := gmap Z))|]. by apply IH.
  - subst. apply (fin_maps.lookup_insert_eq (M := gmap Z)).
Qed.

(** The markets do not interfere: whatever the interleaving of the commands, the
    replies of a listed market, its book and what it published are those of its
    own commands run alone in their order.  In particular two interleavings of
    the same queues agree on every market. *)
Theorem markets_are_independent markets mode cs m :
  m ∈ markets ->
  only m (run (start markets mode) cs).1 = (run_worker (new_worker mode) (only m cs)).1 /\
  (run (start markets mode) cs).2 !! m = Some (run_worker (new_worker mode) (only m cs)).2.
Proof. intros Hm. by apply run_market, start_listed. Qed.

(** Two markets, their commands interleaved in two ways. *)
Lemma markets_are_independent_witness :
  let o := mkOrder 1 10 sell limit 101 4 0 gtc false false 0 in
  only 7 (run (start [7; 8] CancelNewest) [(7, CmdSubmit o ∅); (8, CmdTop); (7, CmdTop)]).1 =
  only 7 (run (start [7; 8] CancelNewest) [(8, CmdTop); (7, CmdSubmit o ∅); (7, CmdTop)]).1.
Proof.
  intros o. assert (H7 : 7 ∈ [7; 8]) by by left.
  rewrite (proj1 (markets_are_independent [7; 8] CancelNewest [(7, CmdSubmit o ∅); (8, CmdTop); (7, CmdTop)] 7 H7)).
  by rewrite (proj1 (markets_are_independent [7; 8] CancelNewest [(8, CmdTop); (7, CmdSubmit o ∅); (7, CmdTop)] 7 H7)).
Defined.
