(* ===== verification/TradePanels.v ===== *)
(** * The panels of the trading screen

    What [web/components/trade/Orderbook.tsx], [PositionPanel.tsx],
    [TradeTape.tsx], [MarketHeader.tsx], [TradeLayout.tsx] and
    [web/components/chart/PriceChart.tsx] compute from the data they are given:
    the rows and cells they show, the handlers they attach, and the state they
    keep.  Markup and colours are not modelled.

    The folds over quantities ([groupLevels], [aggregateFills]) are written
    over the arithmetic interface with the string conversion [Number] as an
    argument; the program uses them at binary64. *)

From S2P Require Import Prelude JsNum JsText JsColl Contract Format UiStore LiveBook.
From Stdlib Require Import SpecFloat Ascii.
#[local] Open Scope Z_scope.

(** ** Orderbook.tsx *)

Definition ROWS : nat := 14.

Definition tickPrecisionOf (s : string) : nat :=
  let i := indexOf_char "."%char s in
  if i <? 0 then O else Z.to_nat (strlen s - i - 1).

Section Grouping.
Context {A : Type} `{Arith A} (Number : string -> A).

(** [rows.map(([px, q]) => { cum += q; ... })]. *)
Fixpoint cumulate (cum : A) (rows : list (string * A)) : list (string * A * A) :=
  match rows with
  | [] => []
  | (px, q) :: rows => (px, q, cum + q)%num :: cumulate (cum + q)%num rows
  end.

Definition bucket_row (bucket : list OrderbookLevel) : list (string * A) :=
  match bucket with
  | [] => []
  | (px, _) :: _ => [(px, fold_left (fun s l => s + Number l.2)%num bucket (nint 0))]
  end.

(** The [for] loop, from the levels that are left; a step of at least one
    level ends it within as many passes as there are levels. *)
Fixpoint buckets (fuel : nat) (g : nat) (levels : list OrderbookLevel) : list (string * A) :=
  match fuel, levels with
  | S fuel, _ :: _ => bucket_row (take g levels) ++ buckets fuel g (drop g levels)
  | _, _ => []
  end.

(** Both sides take the first price of a bucket. *)
Definition groupLevels (levels : list OrderbookLevel) (groupMultiplier : nat) : list (string * A * A) :=
  match levels with
  | [] => []
  | _ =>
      if Nat.eqb groupMultiplier 1 then cumulate (nint 0) (map (fun l => (l.1, Number l.2)) levels)
      else cumulate (nint 0) (buckets (length levels) groupMultiplier levels)
  end.

Definition totalOf (rows : list (string * A * A)) : A :=
  match rows with [] => nint 0 | r :: rs => (List.last rows r).2 end.
End Grouping.

Definition group_options : list nat := [1; 5; 10; 50]%nat.

(** The option's caption: a price step. *)
Definition group_caption (step : number) (o : nat) (dec : nat) : string :=
  toFixed (step * num_of_Z (Z.of_nat o))%num dec.

Record MidSpread := mkMid { ms_mid : option number; ms_spread : option number; ms_spreadBps : option number }.

(** [best && ...]: an absent or empty price is falsy. *)
Definition best_of (levels : list OrderbookLevel) : option string :=
  match levels with (px, _) :: _ => if str_truthy px then Some px else None | [] => None end.

Definition mid_spread (ob : option LiveOrderbook) : MidSpread :=
  match ob with
  | Some ob =>
      match best_of (lv_bids ob), best_of (lv_asks ob) with
      | Some bb, Some ba =>
          let mid := ((Number_of_string bb + Number_of_string ba) / nint 2)%num in
          let spread := (Number_of_string ba - Number_of_string bb)%num in
          mkMid (Some mid) (Some spread)
            (if num_truthy spread && num_truthy mid then Some (spread / mid * nint 10000)%num else None)
      | _, _ => mkMid None None None
      end
  | None => mkMid None None None
  end.

Definition opt_fixed (v : option number) (dec : nat) : string :=
  match v with Some n => toFixed n dec | None => dash end.

Definition mid_spread_cells (m : MidSpread) (dec : nat) : list string :=
  [opt_fixed (ms_mid m) dec; opt_fixed (ms_spread m) dec; opt_fixed (ms_spreadBps m) 2].

Inductive BookLayout := split | bids_only | asks_only.

Record BookRow := mkRow { br_cells : list string; br_fillPct : number; br_click : string }.

Definition book_row (maxTotal : number) (tickDec qtyDec : nat) (r : string * number * number) : BookRow :=
  let '(px, qty, cum) := r in
  mkRow [toFixed (Number_of_string px) tickDec; toFixed qty qtyDec; toFixed cum qtyDec]
        (n_min (nint 100) (cum / maxTotal * nint 100))%num px.

(** The asks and the bids that are drawn. *)
Definition orderbook_view (ob : option LiveOrderbook) (m : option Market) (grouping : nat) (layout : BookLayout)
  : list BookRow * list BookRow :=
  let groupedBids := match ob with Some ob => groupLevels Number_of_string (lv_bids ob) grouping | None => [] end in
  let groupedAsks := match ob with Some ob => groupLevels Number_of_string (lv_asks ob) grouping | None => [] end in
  let maxTotal := n_max (n_max (totalOf groupedBids) (totalOf groupedAsks)) (nint 1) in
  let tickDec := match m with Some m => tickPrecisionOf (mk_tickSize m) | None => 2%nat end in
  let qtyDec := match m with Some m => tickPrecisionOf (mk_lotSize m) | None => 4%nat end in
  let draw rows := map (book_row maxTotal tickDec qtyDec) (take ROWS rows) in
  match layout with
  | split => (draw groupedAsks, draw groupedBids)
  | bids_only => ([], draw groupedBids)
  | asks_only => (draw groupedAsks, [])
  end.

(** ** PositionPanel.tsx *)

Inductive Scope := scope_current | scope_all.

(** [scope === "all" || !marketId || row.marketId === marketId]. *)
Definition in_scope (scope : Scope) (marketId : option MarketId) (row : MarketId) : bool :=
  match scope, marketId with
  | scope_all, _ | _, None => true
  | scope_current, Some m => String.eqb m "" || String.eqb row m
  end.

(** The query's market filter: the fills tab asks the server. *)
Definition fills_market (scope : Scope) (marketId : option MarketId) : option MarketId :=
  match scope with scope_current => marketId | scope_all => None end.

Record PanelRows := mkPanel {
  pp_positions : list Position;
  pp_orders : list OpenOrder;
  pp_optimistic : list OptimisticOrder;
  pp_counts : nat * nat * nat
}.

Definition position_panel (scope : Scope) (marketId : option MarketId) (positions : option PositionsResponse)
    (orders : option OpenOrdersResponse) (fills : option FillsResponse) (ui : UiState) : PanelRows :=
  let ps := List.filter (fun p => in_scope scope marketId (p_marketId p))
              (match positions with Some r => pr_positions r | None => [] end) in
  let os := List.filter (fun o => in_scope scope marketId (oo_marketId o))
              (match orders with Some r => oor_orders r | None => [] end) in
  let opt := List.filter (fun o => in_scope scope marketId (oo_marketId (op_order o))) (ui_optimisticOrders ui) in
  mkPanel ps os opt
    (length ps, (length os + length opt)%nat, match fills with Some r => length (fsr_fills r) | None => 0%nat end).

(** [onCancel]: the toast that follows the reply of the server. *)
Definition on_cancel (reply : result unit) (s : Stamp) (ui : UiState) : UiState :=
  match reply with
  | Ok _ => pushToast s kind_success "Order cancelled" None ui
  | Throw e => pushToast s kind_error "Cancel failed" (Some (err_message e)) ui
  end.

(** A row's Close button: [closingId] is set while [closePosition] runs and
    cleared when it settles either way. *)
Definition close_pressed (p : Position) : option MarketId := Some (p_marketId p).
Definition close_settled (r : result unit) : option MarketId := None.
Definition close_button (closingId : option MarketId) (p : Position) : bool * string :=
  let busy := bool_decide (closingId = Some (p_marketId p)) in
  (busy, if busy then "Closing…" else "Close").

Definition position_cells (p : Position) : list string :=
  let cell v d pre signed := sp_text (NumberDisplay v d pre "" signed false) in
  [ toUpperCase (replace_first "-"%char "/" (p_marketId p));
    (match p_side p with long => "LONG" | short => "SHORT" end);
    cell (VStr (p_size p)) 4%nat "" false;
    cell (VNum (x18ToDollars (VStr (p_entryPriceX18 p)))) 2%nat "$" false;
    cell (VNum (x18ToDollars (VStr (p_markPriceX18 p)))) 2%nat "$" false;
    cell (VNum (usdc6ToDollars (VStr (p_notionalUsdc p)))) 2%nat "$" false;
    cell (VNum (usdc6ToDollars (VStr (p_unrealisedPnlUsdc p)))) 2%nat "$" true;
    toFixed (Number_of_string (p_leverage p)) 1 +:+ "x";
    cell (VNum (x18ToDollars (VStr (p_liquidationPriceX18 p)))) 2%nat "$" false;
    cell (VNum (usdc6ToDollars (VStr (p_fundingPaidUsdc p)))) 2%nat "$" true ].

Section Fills.
Context {A : Type} `{Arith A} (Number : string -> A).

Record FillRow := mkFillRow {
  g_id : string;
  g_orderId : string;
  g_marketId : MarketId;
  g_side : Side;
  g_role : FillRole;
  g_qty : A;
  g_notional : A;
  g_fee : A;
  g_tsNs : string;
  g_legs : nat
}.

Definition first_leg (f : Fill) : FillRow :=
  let qty := Number (f_qty f) in
  mkFillRow (f_id f) (f_orderId f) (f_marketId f) (f_side f) (f_role f) qty
    (qty * Number (f_price f))%num (Number (f_feeUsdc f)) (f_tsNs f) 1.

Definition next_leg (f : Fill) (g : FillRow) : result FillRow :=
  let qty := Number (f_qty f) in
  let! new := BigInt_of_string (f_tsNs f) in
  let! old := BigInt_of_string (g_tsNs g) in
  Ok (mkFillRow (g_id g) (g_orderId g) (g_marketId g) (g_side g) (g_role g) (g_qty g + qty)%num
    (g_notional g + qty * Number (f_price f))%num (g_fee g + Number (f_feeUsdc f))%num
    (if new <? old then f_tsNs f else g_tsNs g) (S (g_legs g))).

Definition group_fill (groups : list (string * FillRow)) (f : Fill) : result (list (string * FillRow)) :=
  match jm_get (f_orderId f) groups with
  | None => Ok (jm_set (f_orderId f) (first_leg f) groups)
  | Some g => let! g' := next_leg f g in Ok (jm_set (f_orderId f) g' groups)
  end.

Fixpoint group_fills (groups : list (string * FillRow)) (fills : list Fill) : result (list (string * FillRow)) :=
  match fills with
  | [] => Ok groups
  | f :: fills => let! groups := group_fill groups f in group_fills groups fills
  end.

(** The instants the comparator reads. *)
Fixpoint row_times (rows : list FillRow) : result (list (Z * FillRow)) :=
  match rows with
  | [] => Ok []
  | r :: rows =>
      let! t := BigInt_of_string (g_tsNs r) in
      let! rest := row_times rows in
      Ok ((t, r) :: rest)
  end.

(** [sort] calls its comparator on every element when there are two or
    more, and on none otherwise. *)
Definition sort_rows (rows : list FillRow) : result (list FillRow) :=
  match rows with
  | [] | [_] => Ok rows
  | _ => let! timed := row_times rows in
         Ok (map snd (js_sort (fun a b => a.1 <? b.1) timed))
  end.

Definition aggregateFills (fills : list Fill) : result (list FillRow) :=
  let! groups := group_fills [] fills in sort_rows (jm_values groups).

Definition avg_price (r : FillRow) : A :=
  if (g_qty r >? nint 0)%num then (g_notional r / g_qty r)%num else nint 0.
End Fills.

Arguments g_id {A} _.
Arguments g_orderId {A} _.
Arguments g_marketId {A} _.
Arguments g_side {A} _.
Arguments g_role {A} _.
Arguments g_qty {A} _.
Arguments g_notional {A} _.
Arguments g_fee {A} _.
Arguments g_tsNs {A} _.
Arguments g_legs {A} _.
Arguments mkFillRow {A} _ _ _ _ _ _ _ _ _ _.

(** ** PriceChart.tsx *)

Record Candle := mkCandle { c_time : Z; c_open : number; c_high : number; c_low : number; c_close : number }.

Definition TF_SECONDS : Z := 60.

(** One bar of [seedCandles] from its three draws; its volume takes a fourth. *)
Definition seed_candle (anchor : number) (t : Z) (price r1 r2 r3 : number) : Candle :=
  let drift := ((r1 - n_lit 5 (-1)) * anchor * n_lit 25 (-4))%num in
  let open := price in
  let close := n_max (n_lit 1 (-4)) (open + drift)%num in
  let high := (n_max open close + r2 * anchor * n_lit 15 (-4))%num in
  let low := (n_min open close - r3 * anchor * n_lit 15 (-4))%num in
  mkCandle t open high low close.

Definition seed_volume (anchor r4 : number) : number :=
  (r4 * anchor * n_lit 5 (-1) + anchor * n_lit 1 (-1))%num.

(** [draw k] is the [k]-th value of [Math.random]; four per candle. *)
Fixpoint seed_candles_from (draw : nat -> number) (anchor : number) (start : Z) (n i k : nat) (price : number)
  : list (Candle * number) :=
  match n with
  | O => []
  | S n =>
      let c := seed_candle anchor (start + Z.of_nat i * TF_SECONDS) price (draw k) (draw (k + 1)%nat) (draw (k + 2)%nat) in
      (c, seed_volume anchor (draw (k + 3)%nat)) ::
      seed_candles_from draw anchor start n (S i) (k + 4) (c_close c)
  end.

Definition seedCandles (draw : nat -> number) (anchor : number) (nowSec : Z) (count : nat) : list (Candle * number) :=
  seed_candles_from draw anchor (nowSec - Z.of_nat count * TF_SECONDS) count 0 0 anchor.

(** An oracle tick: the candle that is current afterwards and whether the
    chart was updated.  [ready] is that the series exists. *)
Definition oracle_tick (ready : bool) (oracle : option WsOracle) (nowMs : Z) (current : option Candle)
  : option Candle * bool :=
  match oracle with
  | Some o =>
      if negb ready then (current, false)
      else
        let px := x18ToDollars (VStr (wo_priceX18 o)) in
        if negb (num_isFinite px) || (px <=? nint 0)%num then (current, false)
        else
          let nowSec := nowMs / 1000 in
          let bucketStart := nowSec / TF_SECONDS * TF_SECONDS in
          match current with
          | Some c =>
              if c_time c =? bucketStart then
                (Some (mkCandle (c_time c) (c_open c) (n_max (c_high c) px) (n_min (c_low c) px) px), true)
              else (Some (mkCandle bucketStart (c_close c) px px px), true)
          | None => (Some (mkCandle bucketStart px px px px), true)
          end
  | None => (current, false)
  end.

(** ** TradeLayout.tsx *)

Definition anchor_of (markets : option MarketsResponse) (marketId : MarketId) : number :=
  match markets with
  | Some r =>
      match find (fun m => String.eqb (mk_id m) marketId) (mr_markets r) with
      | Some m => (Number_of_string (mk_indexPriceX18 m) / n_lit 1 18)%num
      | None => if String.eqb marketId "btc-usd" then nint 100000
                else if String.eqb marketId "eth-usd" then nint 3500 else nint 200
      end
  | None => if String.eqb marketId "btc-usd" then nint 100000
            else if String.eqb marketId "eth-usd" then nint 3500 else nint 200
  end.

(** ** MarketHeader.tsx *)

(** [x | 0] of a number: its integer part modulo 2^32, signed. *)
Definition num_or_zero (x : number) : Z := toInt32 (num_trunc x).

(** The opening price the header invents on the first finite price. *)
Definition open_price (cur : number) : number :=
  let seed := js_rem (num_or_zero (cur * nint 100)%num) 40 in
  (cur * (n_lit 98 (-2) + num_of_Z seed / nint 40 * n_lit 4 (-2)))%num.

Record HeaderStats := mkHeader {
  hd_cur : number;
  hd_live : bool;
  hd_openPrice : option number;
  hd_change : number;
  hd_changeAbs : number;
  hd_fundingBps : number;
  hd_nextFundingTsNs : string;
  hd_volume24h : number;
  hd_openInterest : number
}.

Definition opt_usdc (v : option string) : number :=
  match v with Some s => if str_truthy s then usdc6ToDollars (VStr s) else nint 0 | None => nint 0 end.

Definition market_header (oracle : option WsOracle) (funding : option WsFunding) (m : option Market)
    (openPrice : option number) : HeaderStats :=
  let oraclePx := match oracle with Some o => x18ToDollars (VStr (wo_priceX18 o)) | None => NaN end in
  let indexPx := match m with Some m => x18ToDollars (VStr (mk_indexPriceX18 m)) | None => NaN end in
  let cur := if num_isFinite oraclePx then oraclePx else indexPx in
  let openPrice := match openPrice with
                   | None => if num_isFinite cur then Some (open_price cur) else None
                   | o => o
                   end in
  let ready := match openPrice with Some p => num_truthy p && num_isFinite cur | None => false end in
  let open := default NaN openPrice in
  mkHeader cur (bool_decide (is_Some oracle)) openPrice
    (if ready then ((cur - open) / open * nint 100)%num else nint 0)
    (if ready then (cur - open)%num else nint 0)
    (match funding with
     | Some f => wf_currentRateBps f
     | None => match m with Some m => default (nint 0) (mk_fundingRateBps m) | None => nint 0 end
     end)
    (match funding with
     | Some f => wf_nextSettlementTsNs f
     | None => match m with Some m => default "0" (mk_nextFundingTsNs m) | None => "0" end
     end)
    (match m with Some m => opt_usdc (mk_volume24hUsdc m) | None => nint 0 end)
    (match m with Some m => opt_usdc (mk_openInterestUsdc m) | None => nint 0 end).

Definition priceDecimals (m : option Market) : nat :=
  match m with
  | None => 2
  | Some m =>
      let i := indexOf_char "."%char (mk_tickSize m) in
      if i <? 0 then 0 else Nat.max 2 (Z.to_nat (strlen (mk_tickSize m) - i - 1))
  end.

(** ** TradeTape.tsx *)

(** The effect that flashes the newest trade: the id it remembers, and the
    trade whose row is flashed. *)
Definition flash_effect (trades : list PublicTrade) (lastId : option string) : option string * option PublicTrade :=
  match trades with
  | [] => (lastId, None)
  | first :: _ =>
      if bool_decide (lastId = Some (pt_id first)) then (lastId, None) else (Some (pt_id first), Some first)
  end.
