(* ===== verification/TradePanelsThms.v ===== *)
(** * What the trading panels guarantee

    Grouping the ladder conserves depth, the fills table is the per-order
    aggregate of the fills (both in exact rationals), and where a candle's
    range can miss its opening price. *)

From S2P Require Import Prelude JsNum JsText JsColl Contract Format UiStore LiveBook TradePanels.
From Stdlib Require Import SpecFloat Ascii QArith Lqa Permutation Sorted.
#[local] Open Scope Z_scope.

(** ** Grouping *)

Section Grouping.
Variable Number : string -> Q.

(** The size of a run of levels. *)
Fixpoint depth_of (levels : list OrderbookLevel) : Q :=
  match levels with [] => 0 | l :: levels => Number l.2 + depth_of levels end.

Lemma depth_of_app l l' : (depth_of (l ++ l') == depth_of l + depth_of l')%Q.
Proof. induction l as [|x l IH]; cbn [app depth_of]; [ring|]. rewrite IH. ring. Qed.

Lemma fold_depth levels : forall a : Q,
  (fold_left (fun s l => s + Number l.2)%num levels a == a + depth_of levels)%Q.
Proof.
  induction levels as [|l levels IH]; intros a; cbn [fold_left depth_of]; [ring|].
  rewrite IH. cbn [n_add QArithI]. ring.
Qed.

(** The running totals of rows that start after a total of [cum]. *)
Fixpoint running (cum : Q) (rows : list (string * Q * Q)) : Prop :=
  match rows with
  | [] => True
  | (_, q, c) :: rows => (c == cum + q)%Q /\ running (cum + q) rows
  end.

(** Row [i] of a ladder grouped by [g] stands for levels [i*g .. i*g+g-1]. *)
Fixpoint grouped (g : nat) (cum : Q) (levels : list OrderbookLevel) (rows : list (string * Q * Q)) : Prop :=
  match rows with
  | [] => levels = []
  | (px, q, c) :: rows =>
      (exists q0, head levels = Some (px, q0)) /\
      (q == depth_of (take g levels))%Q /\ (c == cum + depth_of (take g levels))%Q /\
      grouped g (cum + depth_of (take g levels)) (drop g levels) rows
  end.

Lemma grouped_proper g rows : forall levels cum cum', (cum == cum')%Q ->
  grouped g cum levels rows -> grouped g cum' levels rows.
Proof.
  induction rows as [|[[px q] c] rows IH]; intros levels cum cum' E; cbn [grouped]; [done|].
  intros (H1 & H2 & H3 & H4). split; [done|]. split; [done|]. split; [by rewrite <- E|].
  eapply IH; [|exact H4]. by rewrite E.
Qed.

Lemma buckets_grouped g fuel : forall levels (cum : Q), (0 < g)%nat -> (length levels <= fuel)%nat ->
  grouped g cum levels (cumulate cum (buckets Number fuel g levels)).
Proof.
  induction fuel as [|fuel IH]; intros [|[px q] levels] cum Hg Hf; simpl in Hf; try lia; try done.
  destruct g as [|g]; [lia|]. cbn [buckets take drop bucket_row app cumulate grouped fold_left head].
  assert (Hs : (fold_left (fun s l => s + Number l.2)%num (take g levels) (nint 0 + Number q)%num
                == depth_of ((px, q) :: take g levels))%Q).
  { rewrite fold_depth. cbn [depth_of n_add QArithI snd]. change (nint 0) with 0%Q. ring. }
  split; [by eexists|]. split; [exact Hs|].
  split; [cbn [n_add QArithI]; by rewrite Hs|].
  eapply grouped_proper; [|apply IH; [lia|rewrite length_drop; lia]]. cbn [n_add QArithI]. by rewrite Hs.
Qed.

Lemma single_grouped levels : forall cum : Q,
  grouped 1 cum levels (cumulate cum (map (fun l => (l.1, Number l.2)) levels)).
Proof.
  induction levels as [|[px q] levels IH]; intros cum; cbn [map cumulate grouped]; [done|].
  cbn [head take drop depth_of fst snd]. rewrite take_0, drop_0. cbn [depth_of].
  split; [by eexists|]. split; [ring|]. cbn [n_add QArithI]. split; [ring|].
  eapply grouped_proper; [|apply IH]. ring.
Qed.

Lemma grouped_total g rows : forall levels cum r, (0 < g)%nat -> grouped g cum levels rows ->
  rows <> [] -> ((List.last rows r).2 == cum + depth_of levels)%Q.
Proof.
  induction rows as [|[[px q] c] rows IH]; intros levels cum r Hg; [done|]. cbn [grouped].
  intros (_ & _ & Hc & Hrest) _. destruct rows as [|r2 rows].
  - cbn [grouped] in Hrest. cbn [List.last snd].
    assert (E : take g levels = levels) by (rewrite <- (take_drop g levels) at 2; by rewrite Hrest, app_nil_r).
    rewrite E in Hc. exact Hc.
  - change (List.last ((px, q, c) :: r2 :: rows) r) with (List.last (r2 :: rows) r).
    rewrite (IH (drop g levels) (cum + depth_of (take g levels))%Q r Hg Hrest) by done.
    assert (E : (depth_of levels == depth_of (take g levels) + depth_of (drop g levels))%Q)
      by (rewrite <- depth_of_app; by rewrite take_drop).
    rewrite E. ring.
Qed.

Lemma grouped_count g rows : forall levels cum, (0 < g)%nat -> grouped g cum levels rows ->
  (length levels <= g * length rows < length levels + g)%nat.
Proof.
  induction rows as [|[[px q] c] rows IH]; intros levels cum Hg; cbn [grouped].
  - intros ->. simpl. lia.
  - intros ((q0 & Hh) & _ & _ & Hrest). apply IH in Hrest; [|done]. rewrite length_drop in Hrest.
    destruct levels; [done|]. cbn [length] in *. destruct (length rows) as [|n]; rewrite ?Nat.mul_succ_r in *; lia.
Qed.
End Grouping.

(** Grouping the ladder conserves it.  For every list of levels and every
    grouping of at least one level, in exact arithmetic, each row carries the
    first price of its run of [g] adjacent levels, the summed size of the run
    and the running total; the number of rows is the number of levels over
    [g], rounded up; and the total that scales the depth bars is the size of
    the whole side. *)
Theorem grouping_conserves_depth (Number : string -> Q) levels g :
  (0 < g)%nat ->
  let rows := groupLevels Number levels g in
  grouped Number g 0 levels rows /\
  (length levels <= g * length rows < length levels + g)%nat /\
  (totalOf rows == depth_of Number levels)%Q.
Proof.
  intros Hg rows.
  assert (Hgr : grouped Number g 0 levels rows).
  { unfold rows, groupLevels. destruct levels as [|l levels]; [done|].
    destruct (Nat.eqb_spec g 1) as [->|Hne].
    - apply single_grouped.
    - apply buckets_grouped; [done|]. reflexivity. }
  split; [done|]. split; [by eapply grouped_count|].
  unfold totalOf. destruct rows as [|r rs] eqn:E; [by rewrite Hgr|].
  rewrite (grouped_total Number g (r :: rs) levels 0 r Hg Hgr) by done. ring.
Qed.

Definition units (s : string) : Q := inject_Z (num_trunc (Number_of_string s)).

Lemma grouping_conserves_depth_witness :
  map (fun r => r.1.1) (groupLevels units [("9","1"); ("8","2"); ("7","3"); ("6","4"); ("5","5"); ("4","6")] 5) = ["9"; "4"] /\
  (totalOf (groupLevels units [("9","1"); ("8","2"); ("7","3"); ("6","4"); ("5","5"); ("4","6")] 5) == 21)%Q.
Proof.
  split; [vm_compute; reflexivity|].
  destruct (grouping_conserves_depth units [("9","1"); ("8","2"); ("7","3"); ("6","4"); ("5","5"); ("4","6")] 5
    ltac:(lia)) as (_ & _ & H). rewrite H. vm_compute. reflexivity.
Defined.

(** ** The fills table *)

Section Fills.
Variable Number : string -> Q.

Definition time_of (s : string) : Z := match BigInt_of_string s with Ok z => z | Throw _ => 0 end.
Definition readable (s : string) : Prop := exists z, BigInt_of_string s = Ok z.

Definition of_order (id : string) (fills : list Fill) : list Fill :=
  List.filter (fun f => String.eqb (f_orderId f) id) fills.

Fixpoint sum_of (v : Fill -> Q) (fills : list Fill) : Q :=
  match fills with [] => 0 | f :: fills => v f + sum_of v fills end.

Lemma sum_of_app v l l' : (sum_of v (l ++ l') == sum_of v l + sum_of v l')%Q.
Proof. induction l as [|x l IH]; cbn [app sum_of]; [ring|]. rewrite IH. ring. Qed.

(** [r] is the aggregate of the fills [fs] of its order. *)
Definition aggregates (fs : list Fill) (r : FillRow (A := Q)) : Prop :=
  (g_qty r == sum_of (fun f => Number (f_qty f)) fs)%Q /\
  (g_notional r == sum_of (fun f => Number (f_qty f) * Number (f_price f)) fs)%Q /\
  (g_fee r == sum_of (fun f => Number (f_feeUsdc f)) fs)%Q /\
  g_legs r = length fs /\
  g_tsNs r ∈ map f_tsNs fs /\ Forall (fun f => time_of (g_tsNs r) <= time_of (f_tsNs f)) fs /\
  exists f, head fs = Some f /\ g_id r = f_id f /\ g_marketId r = f_marketId f /\
    g_side r = f_side f /\ g_role r = f_role f.

(** The table after the fills [pre]: one entry per order, each the
    aggregate of that order's fills. *)
Definition groups_ok (pre : list Fill) (groups : list (string * FillRow (A := Q))) : Prop :=
  jm_wf groups /\ forall id,
    match jm_get id groups with
    | Some r => g_orderId r = id /\ aggregates (of_order id pre) r
    | None => of_order id pre = []
    end.

Lemma readable_time s z : BigInt_of_string s = Ok z -> time_of s = z.
Proof. unfold time_of. by intros ->. Qed.

Lemma of_order_snoc id pre f :
  of_order id (pre ++ [f]) = of_order id pre ++ if String.eqb (f_orderId f) id then [f] else [].
Proof. unfold of_order. rewrite List.filter_app. cbn. by destruct (String.eqb _ _). Qed.

Lemma of_order_readable id pre :
  Forall (fun f => readable (f_tsNs f)) pre -> Forall (fun f => readable (f_tsNs f)) (of_order id pre).
Proof.
  induction 1 as [|f pre Hf Hpre IH]; cbn; [constructor|]. destruct (String.eqb _ _); [by constructor|done].
Qed.

Lemma next_leg_aggregates fs f r :
  readable (f_tsNs f) -> Forall (fun f => readable (f_tsNs f)) fs -> aggregates fs r ->
  exists r', next_leg Number f r = Ok r' /\ g_orderId r' = g_orderId r /\ aggregates (fs ++ [f]) r'.
Proof.
  intros [new Hnew] Hfs (Hq & Hn & Hfee & Hl & Hin & Hmin & f0 & Hh & Hid).
  assert (Hold : readable (g_tsNs r)).
  { apply list_elem_of_fmap in Hin as (f1 & -> & Hin). rewrite Forall_forall in Hfs. by apply Hfs. }
  destruct Hold as [old Hold]. unfold next_leg. rewrite Hnew, Hold. cbn [result_bind].
  eexists. split; [done|]. split; [done|]. unfold aggregates.
  cbn [g_qty g_notional g_fee g_legs g_tsNs g_id g_marketId g_side g_role n_add n_mul QArithI].
  rewrite !sum_of_app. cbn [sum_of]. split; [rewrite Hq; ring|]. split; [rewrite Hn; ring|]. split; [rewrite Hfee; ring|].
  split; [rewrite length_app, Hl; simpl; lia|].
  apply readable_time in Hnew, Hold. rewrite map_app, elem_of_app, Forall_app. cbn [map].
  split; [destruct (new <? old); [right; by apply list_elem_of_singleton|by left]|].
  split; [|exists f0; split; [by destruct fs|done]].
  destruct (Z.ltb_spec new old) as [Hlt|Hge].
  - split; [|by constructor]. eapply Forall_impl; [exact Hmin|]. cbn beta. intros g Hg. lia.
  - split; [done|]. constructor; [lia|constructor].
Qed.

Lemma group_fill_ok pre groups f :
  readable (f_tsNs f) -> Forall (fun f => readable (f_tsNs f)) pre -> groups_ok pre groups ->
  exists groups', group_fill Number groups f = Ok groups' /\ groups_ok (pre ++ [f]) groups'.
Proof.
  intros Hf Hpre [Hwf Hg].
  assert (Hset : forall r, g_orderId r = f_orderId f -> aggregates (of_order (f_orderId f) (pre ++ [f])) r ->
            groups_ok (pre ++ [f]) (jm_set (f_orderId f) r groups)).
  { intros r Hr Ha. split; [by apply jm_set_wf|]. intros id. rewrite jm_get_set.
    destruct (decide (id = f_orderId f)) as [->|Hne]; [done|].
    specialize (Hg id). rewrite of_order_snoc, string_eqb_ne, app_nil_r by done. done. }
  unfold group_fill. specialize (Hg (f_orderId f)).
  assert (Hso : of_order (f_orderId f) (pre ++ [f]) = of_order (f_orderId f) pre ++ [f])
    by by rewrite of_order_snoc, string_eqb_refl.
  destruct (jm_get (f_orderId f) groups) as [r|].
  - destruct Hg as [Hid Ha].
    destruct (next_leg_aggregates _ f r Hf (of_order_readable _ _ Hpre) Ha) as (r' & -> & Hid' & Ha').
    eexists. split; [done|]. apply Hset; [by rewrite Hid', Hid|]. by rewrite Hso.
  - eexists. split; [done|]. apply Hset; [done|]. rewrite Hso, Hg. unfold aggregates. cbn [app sum_of first_leg g_qty g_notional g_fee g_legs g_tsNs].
    repeat split; try (cbn [n_mul QArithI]; ring).
    + cbn. set_solver.
    + constructor; [lia|constructor].
    + by exists f.
Qed.

Lemma group_fills_ok fills : forall pre groups,
  Forall (fun f => readable (f_tsNs f)) fills -> Forall (fun f => readable (f_tsNs f)) pre ->
  groups_ok pre groups ->
  exists groups', group_fills Number groups fills = Ok groups' /\ groups_ok (pre ++ fills) groups'.
Proof.
  induction fills as [|f fills IH]; intros pre groups Hfs Hpre Hg; cbn [group_fills].
  { eexists. split; [done|]. by rewrite app_nil_r. }
  apply Forall_cons in Hfs as [Hf Hfs].
  destruct (group_fill_ok pre groups f Hf Hpre Hg) as (g1 & -> & Hg1). cbn [result_bind].
  destruct (IH (pre ++ [f]) g1 Hfs) as (g2 & -> & Hg2); [by apply Forall_app; repeat constructor|done|].
  eexists. split; [done|]. by rewrite <- app_assoc in Hg2.
Qed.

Lemma row_times_ok (rows : list (FillRow (A := Q))) :
  Forall (fun r => readable (g_tsNs r)) rows ->
  row_times rows = Ok (map (fun r => (time_of (g_tsNs r), r)) rows).
Proof.
  induction 1 as [|r rows [z Hz] Hrows IH]; cbn [row_times map]; [done|].
  by rewrite Hz, IH, (readable_time _ _ Hz).
Qed.

Definition newest_first (rows : list (FillRow (A := Q))) : Prop :=
  StronglySorted (fun a b => time_of (g_tsNs b) <= time_of (g_tsNs a)) rows.

Lemma sort_rows_ok (rows : list (FillRow (A := Q))) :
  Forall (fun r => readable (g_tsNs r)) rows ->
  exists rows', sort_rows rows = Ok rows' /\ rows' ≡ₚ rows /\ newest_first rows'.
Proof.
  intros Hr. destruct rows as [|r1 [|r2 rows]].
  1,2: eexists; split; [done|]; split; [done|]; repeat constructor.
  unfold sort_rows. rewrite row_times_ok by done. cbn [result_bind]. set (rs := r1 :: r2 :: rows) in *.
  set (gt := fun a b : Z * FillRow (A := Q) => a.1 <? b.1).
  eexists. split; [done|]. split.
  { rewrite (js_sort_perm gt), map_map. cbn. by rewrite List.map_id. }
  set (P := fun a : Z * FillRow (A := Q) => a.1 = time_of (g_tsNs a.2)).
  assert (Hc : gt_consistent gt P) by (split; unfold gt; intros; lia).
  assert (HP : Forall P (map (fun r => (time_of (g_tsNs r), r)) rs)).
  { apply List.Forall_map, Forall_forall. by intros. }
  pose proof (js_sort_sorted gt Hc _ HP) as Hs. rewrite <- (js_sort_perm gt) in HP.
  revert Hs HP. generalize (js_sort gt (map (fun r => (time_of (g_tsNs r), r)) rs)). clear.
  intros l Hs. induction Hs as [|a l Hs IH Ha]; intros HP; cbn [map]; [constructor|].
  apply Forall_cons in HP as [Ha' HP]. constructor; [by apply IH|].
  apply List.Forall_map. rewrite Forall_forall in *. intros b Hb. unfold P, gt in *.
  specialize (Ha b Hb). specialize (HP b Hb). cbn in *. lia.
Qed.
End Fills.

(** C37: the fills table is the per-order aggregate of the fills.  When every
    time stamp is an integer, in exact arithmetic, the table has exactly one
    row per order that filled, newest first; each row carries the order's
    summed quantity, notional and fees, the number of its fills, the earliest
    of their time stamps, and the identity of its first fill.  So the average
    price shown is the volume-weighted average. *)
Theorem fills_table_aggregates (Number : string -> Q) fills :
  Forall (fun f => readable (f_tsNs f)) fills ->
  exists rows, aggregateFills Number fills = Ok rows /\
    NoDup (map g_orderId rows) /\
    (forall id, id ∈ map g_orderId rows <-> id ∈ map f_orderId fills) /\
    (forall r, r ∈ rows -> aggregates Number (of_order (g_orderId r) fills) r) /\
    newest_first rows.
Proof.
  intros Hfs. unfold aggregateFills.
  destruct (group_fills_ok Number fills [] [] Hfs) as (groups & -> & Hwf & Hg);
    [constructor|split; [constructor|done]|]. cbn [app result_bind] in *.
  assert (Hrow : forall r, r ∈ jm_values groups -> aggregates Number (of_order (g_orderId r) fills) r /\
            jm_get (g_orderId r) groups = Some r).
  { intros r Hr. apply list_elem_of_fmap in Hr as ([id r'] & -> & Hin). cbn.
    apply jm_get_elem in Hin as Hget; [|done]. specialize (Hg id) as Hid. rewrite Hget in Hid.
    destruct Hid as [-> Ha]. done. }
  assert (Hids : map g_orderId (jm_values groups) = jm_keys groups).
  { unfold jm_values, jm_keys. rewrite <- list_fmap_compose. apply list_fmap_ext. intros i [id r] Hi. cbn.
    apply list_elem_of_lookup_2, jm_get_elem in Hi; [|done]. specialize (Hg id). rewrite Hi in Hg. by destruct Hg. }
  destruct (sort_rows_ok (jm_values groups)) as (rows & -> & Hp & Hs).
  { apply Forall_forall. intros r Hr. destruct (Hrow r Hr) as [(_ & _ & _ & _ & Hin & _) _].
    apply list_elem_of_fmap in Hin as (f & -> & Hin). pose proof (of_order_readable (g_orderId r) fills Hfs) as H.
    rewrite Forall_forall in H. by apply H. }
  assert (Hk : map g_orderId rows ≡ₚ jm_keys groups) by (rewrite <- Hids; by apply Permutation_map).
  exists rows. split; [done|]. split; [by rewrite Hk|]. split; [|split; [|done]].
  - intros id. rewrite Hk. specialize (Hg id). destruct (jm_get id groups) as [r|] eqn:E.
    + split; intros _.
      * destruct Hg as (_ & _ & _ & _ & _ & _ & _ & f & Hh & _).
        assert (Hin : f ∈ of_order id fills) by (destruct (of_order id fills); [done|]; simplify_eq/=; by left).
        unfold of_order in Hin. apply list_elem_of_In, List.filter_In in Hin as [Hin Heq].
        apply String.eqb_eq in Heq. apply list_elem_of_fmap. exists f. split; [done|]. by apply list_elem_of_In.
      * apply jm_get_elem in E; [|done]. by apply (list_elem_of_fmap_2 fst) in E.
    + apply jm_get_None in E. split; intros Hin; [done|].
      apply list_elem_of_fmap in Hin as (f & -> & Hin). exfalso.
      assert (f ∈ of_order (f_orderId f) fills); [|by rewrite Hg in *; set_solver].
      unfold of_order. apply list_elem_of_In, List.filter_In. rewrite string_eqb_refl. split; [|done].
      by apply list_elem_of_In.
  - intros r. rewrite Hp. apply Hrow.
Qed.

Definition two_level_fill : list Fill :=
  [mkFill "f1" "o1" "btc-usd" buy "100" "2" "3" taker "50" "0x1";
   mkFill "f2" "o2" "btc-usd" sell "90" "1" "1" maker "70" "0x2";
   mkFill "f3" "o1" "btc-usd" buy "110" "2" "3" taker "40" "0x3"].

Lemma fills_table_aggregates_witness :
  exists rows, aggregateFills units two_level_fill = Ok rows /\ NoDup (map g_orderId rows) /\
    map g_orderId rows = ["o2"; "o1"].
Proof.
  destruct (fills_table_aggregates units two_level_fill) as (rows & E & Hnd & _).
  { repeat constructor; eexists; vm_compute; reflexivity. }
  exists rows. split; [exact E|]. split; [exact Hnd|].
  assert (E' : result_map (map g_orderId) (aggregateFills units two_level_fill) = Ok ["o2"; "o1"])
    by (vm_compute; reflexivity).
  rewrite E in E'. by injection E'.
Defined.

(** ** Candles *)

(** A candle can leave its opening price outside its range.  When an
    oracle tick starts a new minute below the close of the previous candle,
    the new candle opens at that close with high and low at the tick, so its
    high is below its open. *)
Theorem new_candle_misses_open o nowMs c :
  let px := x18ToDollars (VStr (wo_priceX18 o)) in
  num_isFinite px = true -> n_ltb (nint 0) px = true -> n_ltb px (c_close c) = true ->
  c_time c <> nowMs / 1000 / TF_SECONDS * TF_SECONDS ->
  exists c', oracle_tick true (Some o) nowMs (Some c) = (Some c', true) /\
    c_open c' = c_close c /\ c_high c' = px /\ n_ltb (c_high c') (c_open c') = true.
Proof.
  cbn zeta. intros Hfin Hpos Hlt Ht. unfold oracle_tick. cbn [negb]. rewrite Hfin. cbn [negb orb].
  assert (Hle : n_leb (x18ToDollars (VStr (wo_priceX18 o))) (nint 0) = false).
  { revert Hfin Hpos. generalize (x18ToDollars (VStr (wo_priceX18 o))). intros x Hfin Hpos.
    assert (Hn : num_isNaN x = false) by (by destruct x).
    cbn [n_ltb n_leb B64] in *. rewrite num_ltb_negb_leb in Hpos by done. by destruct (SFleb x (nint 0)). }
  rewrite Hle. apply Z.eqb_neq in Ht. rewrite Ht. eexists. split; [reflexivity|]. done.
Qed.

Lemma new_candle_misses_open_witness :
  exists c', oracle_tick true (Some (mkWsOracle "oracle.btc-usd" "99000000000000000000000" "0" "0" "0")) 120000
      (Some (mkCandle 60 (nint 100000) (nint 100000) (nint 100000) (nint 100000))) = (Some c', true) /\
    n_ltb (c_high c') (c_open c') = true.
Proof.
  destruct (new_candle_misses_open (mkWsOracle "oracle.btc-usd" "99000000000000000000000" "0" "0" "0") 120000
      (mkCandle 60 (nint 100000) (nint 100000) (nint 100000) (nint 100000)))
    as (c' & E & _ & _ & H); try (vm_compute; reflexivity); [vm_compute; discriminate|].
  exists c'. split; [exact E|exact H].
Defined.
