(* ===== verification/Pages.v ===== *)
(** * The pages around the trading screen

    What [web/app/(app)/markets/page.tsx], [wallet/page.tsx],
    [portfolio/page.tsx] and [history/page.tsx] compute and do, with
    [MarketSwitcher.tsx] and [ToastViewport.tsx].  Locale functions of the
    engine ([localeCompare], [Intl.NumberFormat], [toLocaleString]) and
    [Math.sin] are arguments. *)

From S2P Require Import Prelude JsNum JsText JsColl Contract Format UiStore.
From Stdlib Require Import SpecFloat Ascii.
#[local] Open Scope Z_scope.

(** ** markets/page.tsx *)

Inductive SortKey := by_volume | by_change | by_name.

(** [h = (h * 31 + code) >>> 0] over the code points. *)
Fixpoint hash_base_from (h : Z) (s : string) : Z :=
  match s with
  | EmptyString => h
  | String c s => hash_base_from (toUint32 (h * 31 + Z.of_N (N_of_ascii c))) s
  end.

Definition hashBase (m : Market) : Z := hash_base_from 0 (mk_base m).

Definition pseudoChange (m : Market) : number :=
  (num_of_Z (js_rem (hashBase m) 1601 - 800) / nint 100)%num.

Definition volume_of (m : Market) : number := Number_of_string (default "0" (mk_volume24hUsdc m)).

Section MarketsPage.
(** [a.localeCompare(b)]: negative, zero or positive. *)
Variable localeCompare : string -> string -> Z.

Definition market_after (sortBy : SortKey) (a b : Market) : bool :=
  match sortBy with
  | by_name => 0 <? localeCompare (mk_base a) (mk_base b)
  | by_volume => SFltb num_zero (num_sub (volume_of b) (volume_of a))
  | by_change => SFltb num_zero (num_sub (pseudoChange b) (pseudoChange a))
  end.

Definition visible_markets (data : option MarketsResponse) (query : string) (sortBy : SortKey) : list Market :=
  let list := match data with Some r => mr_markets r | None => [] end in
  let filtered :=
    if str_truthy query
    then List.filter (fun m => str_includes (toLowerCase query) (toLowerCase (mk_base m))) list
    else list in
  js_sort (market_after sortBy) filtered.
End MarketsPage.

(** [m.volume24hUsdc ? usdc6ToDollars(m.volume24hUsdc) : 0]. *)
Definition dollars_or_zero (v : option string) : number :=
  match v with Some s => if str_truthy s then usdc6ToDollars (VStr s) else nint 0 | None => nint 0 end.

Definition total_of (field : Market -> option string) (data : option MarketsResponse) : number :=
  fold_left (fun sum m => sum + dollars_or_zero (field m))%num
    (match data with Some r => mr_markets r | None => [] end) (nint 0).

Definition totalVolume : option MarketsResponse -> number := total_of mk_volume24hUsdc.
Definition totalOpenInterest : option MarketsResponse -> number := total_of mk_openInterestUsdc.

Definition fmtCompactUsd (compact : number -> string) (n : number) : string :=
  if negb (num_isFinite n) || (n =? nint 0)%num then "$0" else "$" +:+ compact n.

(** A card shows the funding channel only; a table row falls back on the
    market's own rate. *)
Definition card_funding (funding : option WsFunding) : string :=
  match funding with Some f => toFixed (wf_currentRateBps f / nint 100)%num 4 +:+ "%" | None => dash end.

Definition row_funding (funding : option WsFunding) (m : Market) : string :=
  match (match funding with Some f => Some (wf_currentRateBps f) | None => mk_fundingRateBps m end) with
  | Some bps => toFixed (bps / nint 100)%num 4 +:+ "%"
  | None => dash
  end.

Definition change_caption (m : Market) : string :=
  let change := pseudoChange m in
  (if (change >=? nint 0)%num then "+" else "") +:+ toFixed change 2 +:+ "%".

(** Clicking a card or a row. *)
Definition open_market (m : Market) (u : UiState) : UiState * string :=
  (setSelectedMarket (mk_id m) u, "/trade/" +:+ mk_id m).

Section Spark.
Variable sin : number -> number.

Definition code_at (s : string) (i : nat) : number :=
  match String.get i s with Some c => num_of_Z (Z.of_N (N_of_ascii c)) | None => NaN end.

Fixpoint spark_from (draw : nat -> number) (anchor seedNum : number) (n i : nat) (v : number) : list number :=
  match n with
  | O => []
  | S n =>
      let v := (v + (sin (num_of_Z (Z.of_nat i) * n_lit 7 (-1) + seedNum) + draw i * n_lit 4 (-1) - n_lit 2 (-1))
                    * (anchor * n_lit 3 (-3)))%num in
      v :: spark_from draw anchor seedNum n (S i) v
  end.

Definition seed (draw : nat -> number) (anchor : number) (n : nat) (salt : string) : list number :=
  let seedNum := (code_at salt 0 + code_at salt (String.length salt - 1))%num in
  spark_from draw anchor seedNum n 0 anchor.

(** The interval of [useSparkline]: drop the oldest point, add one. *)
Definition spark_tick (r anchor : number) (series : list number) : list number :=
  tail series ++ [(List.last series NaN + (r - n_lit 5 (-1)) * (anchor * n_lit 1 (-3)))%num].
End Spark.

Definition spark_point (points : list number) (i : nat) (v : number) : string :=
  let mn := fold_left n_min points Infinity in
  let mx := fold_left n_max points (SFopp Infinity) in
  let span := n_max (nint 1) (mx - mn)%num in
  let sx := (num_of_Z (Z.of_nat i) / (num_of_Z (Z.of_nat (length points)) - nint 1) * nint 240)%num in
  let sy := (nint 56 - nint 4 - (v - mn) / span * (nint 56 - nint 8))%num in
  (if Nat.eqb i 0 then "M" else "L") +:+ toFixed sx 1 +:+ "," +:+ toFixed sy 1.

Definition spark_path (points : list number) : string :=
  str_join " " (imap (spark_point points) points).

(** ** wallet/page.tsx *)

Inductive Mode := deposit | withdraw.

Record WalletForm := mkWallet { w_mode : Mode; w_amount : string; w_submitting : bool }.

Definition wallet_initial : WalletForm := mkWallet deposit "" false.

Definition wallet_balances (b : option BalanceResponse) : number * number :=
  match b with
  | Some b => (usdc6ToDollars (VStr (br_walletUsdcBalance b)), usdc6ToDollars (VStr (br_vaultBalanceUsdc b)))
  | None => (nint 0, nint 0)
  end.

Definition w_source (b : option BalanceResponse) (w : WalletForm) : number :=
  let '(walletBal, vaultBal) := wallet_balances b in
  match w_mode w with deposit => walletBal | withdraw => vaultBal end.

Definition w_target (b : option BalanceResponse) (w : WalletForm) : number :=
  let '(walletBal, vaultBal) := wallet_balances b in
  match w_mode w with deposit => vaultBal | withdraw => walletBal end.

(** [Number(amount) || 0]. *)
Definition w_amt (w : WalletForm) : number :=
  let n := Number_of_string (w_amount w) in if num_truthy n then n else nint 0.

Definition w_insufficient (b : option BalanceResponse) (w : WalletForm) : bool := (w_amt w >? w_source b w)%num.

Definition w_disabled (b : option BalanceResponse) (w : WalletForm) : bool :=
  negb (num_truthy (w_amt w)) || w_insufficient b w.

(** A percentage button. *)
Definition w_percent (b : option BalanceResponse) (pct : number) (w : WalletForm) : WalletForm :=
  mkWallet (w_mode w) (toFixed (w_source b w * pct)%num 2) (w_submitting w).

Definition after_transfer (b : option BalanceResponse) (w : WalletForm) : string :=
  "$" +:+ toFixed (w_target b w + w_amt w)%num 2.

(** [onSubmit] up to its pause, and what runs when the pause is over: the
    amount and mode are those of the render that was clicked. *)
Definition wallet_submit (w : WalletForm) : WalletForm :=
  if num_truthy (w_amt w) then mkWallet (w_mode w) (w_amount w) true else w.

Definition wallet_resume (clicked : WalletForm) (s : Stamp) (w : WalletForm) (u : UiState) : WalletForm * UiState :=
  (mkWallet (w_mode w) "" false,
   pushToast s kind_success
     (match w_mode clicked with deposit => "Deposit submitted" | withdraw => "Withdrawal submitted" end)
     (Some (toFixed (w_amt clicked) 2 +:+ " USDC · pending confirmation")) u).

Definition shortAddr (a : string) : string :=
  if str_truthy a then str_take 6 a +:+ "…" +:+ str_last 4 a else dash.

(** ** portfolio/page.tsx *)

Record Portfolio := mkPortfolio {
  po_collateral : number; po_free : number; po_used : number;
  po_notional : number; po_pnl : number; po_equity : number
}.

Definition portfolio (positions : option PositionsResponse) : Portfolio :=
  let field f := match positions with Some r => usdc6ToDollars (VStr (f r)) | None => nint 0 end in
  let collateral := field pr_collateralUsdc in
  let free := field pr_freeCollateralUsdc in
  let pnl := field pr_totalUnrealisedPnlUsdc in
  mkPortfolio collateral free (collateral - free)%num (field pr_totalNotionalUsdc) pnl (collateral + pnl)%num.

(** The width of a margin bar, in percent. *)
Definition bar_pct (value mx : number) : number :=
  if (mx >? nint 0)%num then n_min (nint 100) (value / mx * nint 100)%num else nint 0.

(** ** history/page.tsx *)

Definition history_counts (fills : option FillsResponse) (b : option BalanceResponse) : list nat :=
  [ match fills with Some r => length (fsr_fills r) | None => 0%nat end;
    match b with Some b => length (br_pendingDeposits b) | None => 0%nat end;
    match b with Some b => length (br_pendingWithdrawals b) | None => 0%nat end;
    0%nat ].

Definition fill_notional (f : Fill) : Span :=
  NumberDisplay (VNum (Number_of_string (f_price f) * Number_of_string (f_qty f))%num) 2 "$" "" false false.

Definition transfer_cells (toLocaleString : Z -> string) (t : PendingTransfer) : result (list string) :=
  let! time := formatDateTime toLocaleString (tf_tsNs t) in
  Ok [ time;
       sp_text (NumberDisplay (VNum (usdc6ToDollars (VStr (tf_amountUsdc t)))) 2 "$" "" false false);
       str_take 10 (tf_txHash t) +:+ "…" ].

(** ** MarketSwitcher.tsx *)

Definition switcher_pick (m : Market) (u : UiState) : UiState * bool * string :=
  (setSelectedMarket (mk_id m) u, false, "/trade/" +:+ mk_id m).

(** ** ToastViewport.tsx

    The effect runs when the list of toasts changes: the cleanup of the last
    run cancels every timer, the new run starts one of 4.5 s for each toast.
    A timer is a due time and the toast it dismisses. *)

Definition TOAST_MS : Z := 4500.

Definition toast_timers (now : Z) (toasts : list Toast) : list (Z * string) :=
  map (fun t => (now + TOAST_MS, to_id t)) toasts.

(** The clock reaches [now]: the first timer that is due fires. *)
Definition toast_due (now : Z) (timers : list (Z * string)) (u : UiState) : option UiState :=
  match find (fun t => t.1 <=? now) timers with
  | Some (_, id) => Some (dismissToast id u)
  | None => None
  end.

(** ** Facts *)

(** The synthetic change is within eight percent, in hundredths. *)
Lemma pseudo_change_range m : -800 <= js_rem (hashBase m) 1601 - 800 <= 800.
Proof.
  assert (H : forall s h, 0 <= h -> 0 <= hash_base_from h s).
  { induction s as [|c s IH]; intros h Hh; cbn [hash_base_from]; [done|].
    apply IH, Z.mod_pos_bound. lia. }
  specialize (H (mk_base m) 0 ltac:(lia)). unfold js_rem, hashBase.
  rewrite Z.rem_mod_nonneg by lia. pose proof (Z.mod_pos_bound (hash_base_from 0 (mk_base m)) 1601). lia.
Qed.

(** Searching never invents or repeats a market. *)
Lemma visible_markets_sublist lc data query key :
  exists l, l `sublist_of` (match data with Some r => mr_markets r | None => [] end) /\
    Permutation (visible_markets lc data query key) l.
Proof.
  unfold visible_markets. eexists. split; [|apply js_sort_perm].
  destruct (str_truthy query); [|done]. induction (match data with Some r => mr_markets r | None => [] end) as [|m l IH];
    cbn; [done|]. destruct (str_includes _ _); [by apply sublist_skip|by apply sublist_cons].
Qed.

(** A negative amount passes the form's checks. *)
Example negative_amount_enabled : w_disabled None (mkWallet deposit "-5" false) = false.
Proof. vm_compute. reflexivity. Qed.
