(* ===== verification/Shell.v ===== *)
(** * The application shell

    What surrounds the trading pages: the wallet button with its automatic
    sign-in prompt (web/components/layout/WalletButton.tsx), the navigation bars
    (TopNav.tsx, MobileTabBar.tsx), the theme toggle and the celebration
    overlay (web/components/common), the providers that boot the mock backend
    (web/app/providers.tsx, web/mocks/browser.ts), the chains offered to the
    wallet library (web/lib/wallet/wagmi-config.ts), the contract addresses
    (web/lib/contracts/addresses.ts), the market page's guard and the shared
    button, tab and input components.

    A component is a function from its inputs to what it shows (texts, links,
    which handlers are attached); an effect is a function of the values its
    dependencies hold when it runs.  Class names are modelled where the code
    computes them with [cn]; fixed styles and icon drawings are not. *)
From S2P Require Import Prelude JsNum JsText JsColl Contract Browser WsClient UiStore Session.
From Stdlib Require Import Ascii.
#[local] Open Scope Z_scope.

(** ** Class names: web/lib/cn.ts *)

(** [filter(Boolean).join(" ")]; [None] stands for false, null and undefined. *)
Definition cn (parts : list (option string)) : string :=
  str_join " " (omap (fun p => match p with Some s => if str_truthy s then Some s else None | None => None end) parts).

(** ** Chains: web/lib/wallet/wagmi-config.ts *)

Record Chain := mkChain { ch_id : Z; ch_name : string; ch_rpc : list string; ch_testnet : bool }.

Definition localAnvil : Chain := mkChain 31337 "Anvil" ["http://127.0.0.1:8545"] true.

Inductive Connector := conn_injected | conn_coinbase | conn_walletConnect (projectId : string).

Record WagmiConfig := mkWagmi { wg_chains : list Chain; wg_connectors : list Connector; wg_transports : list Z }.

Section wagmi.
(** The two chains the wallet library ships. *)
Context (arbitrum arbitrumSepolia : Chain).

Definition PROD_CHAINS : list Chain := [arbitrum; arbitrumSepolia].
Definition DEV_CHAINS : list Chain := [localAnvil; arbitrumSepolia; arbitrum].
Definition IS_DEV_PROFILE (NODE_ENV : string) : bool := negb (String.eqb NODE_ENV "production").
Definition APP_CHAINS (NODE_ENV : string) : list Chain := if IS_DEV_PROFILE NODE_ENV then DEV_CHAINS else PROD_CHAINS.

Definition WC_PROJECT_ID (env : option string) : string :=
  match env with Some s => if str_truthy s then s else "perplex-dev-placeholder" | None => "perplex-dev-placeholder" end.

Definition buildWagmiConfig (NODE_ENV : string) (wc_env : option string) (isBrowser : bool) : WagmiConfig :=
  mkWagmi (APP_CHAINS NODE_ENV)
    ([conn_injected; conn_coinbase] ++ (if isBrowser then [conn_walletConnect (WC_PROJECT_ID wc_env)] else []))
    (let t := js_add (ch_id arbitrumSepolia) (js_add (ch_id arbitrum) []) in
     if IS_DEV_PROFILE NODE_ENV then js_add (ch_id localAnvil) t else t).

End wagmi.

(** ** Contract addresses: web/lib/contracts/addresses.ts *)

Record ContractAddresses := mkContractAddresses { ca_collateralVault : string; ca_usdc : string }.

Definition ADDRESSES : list (Z * ContractAddresses) :=
  [(31337, mkContractAddresses "0xDc64a140Aa3E981100a9becA4E685f962f0cF6C9"
                               "0x5FbDB2315678afecb367f032d93F642f64180aa3")].

Definition getAddresses (chainId : option Z) : option ContractAddresses :=
  match chainId with
  | None => None
  | Some c => jm_get c ADDRESSES
  end.

(** ** Wallet button: web/components/layout/WalletButton.tsx *)

Definition shortAddr (a : string) : string := str_take 6 a +:+ "…" +:+ str_last 4 a.

Definition CHAIN_LABEL : list (Z * string) :=
  [(1, "Ethereum"); (42161, "Arbitrum"); (421614, "Arb Sepolia"); (31337, "Anvil")].

Definition chain_text (chainId : Z) : string := default (bigint_toString chainId) (jm_get chainId CHAIN_LABEL).

(** [parseInt(s, 16)]: leading blanks, a sign, an optional 0x, then digits as
    far as they go; [None] is NaN. *)
Fixpoint hex_prefix (s : string) (acc : option Z) : option Z :=
  match s with
  | EmptyString => acc
  | String c s' =>
      match hex_val c with
      | Some v => hex_prefix s' (Some (default 0 acc * 16 + v))
      | None => acc
      end
  end.

Definition parseInt16 (s : string) : option Z :=
  let '(neg, body) := scan_sign (trim_left s) in
  let body := if startsWith "0x" body || startsWith "0X" body then str_drop 2 body else body in
  option_map (fun z => if neg : bool then - z else z) (hex_prefix body None).

Definition nan_text (o : option Z) : string := match o with Some z => bigint_toString z | None => "NaN" end.

Definition avatarGradient (addr : string) : string :=
  let h := parseInt16 (str_take 6 (str_drop 2 addr)) in
  let a := option_map (fun h => Z.rem h 360) h in
  let b := option_map (fun a => Z.rem (a + 60) 360) a in
  "linear-gradient(135deg, hsl(" +:+ nan_text a +:+ ",85%,60%) 0%, hsl(" +:+ nan_text b +:+ ",90%,50%) 100%)".

Inductive AccountStatus := st_connected | st_connecting | st_reconnecting | st_disconnected.
#[global] Instance AccountStatus_eq_dec : EqDecision AccountStatus.
Proof. solve_decision. Defined.

(** The effect's dependencies: wallet status and address, and the session. *)
Record WalletInputs := mkWalletInputs {
  wi_status : AccountStatus;
  wi_address : option string;
  wi_hasJwt : bool;
  wi_isSigning : bool;
}.

(** An address that is there and not empty. *)
Definition wi_connected (i : WalletInputs) : option string :=
  if bool_decide (wi_status i = st_connected)
  then match wi_address i with Some a => if str_truthy a then Some a else None | None => None end
  else None.

(** One run of the prompt effect: the new value of the ref, and whether the
    signature is requested. *)
Definition prompt_effect (i : WalletInputs) (promptedFor : option string) : option string * bool :=
  match wi_connected i with
  | None => (None, false)
  | Some address =>
      if wi_hasJwt i || wi_isSigning i then (promptedFor, false)
      else if bool_decide (promptedFor = Some address) then (promptedFor, false)
      else (Some address, true)
  end.

(** The addresses prompted for over a sequence of runs, [None] where a run did
    not prompt. *)
Fixpoint prompts (ref : option string) (runs : list WalletInputs) : list (option string) :=
  match runs with
  | [] => []
  | i :: runs' =>
      let '(ref', p) := prompt_effect i ref in
      (if p then ref' else None) :: prompts ref' runs'
  end.

Inductive MenuItem :=
| item_copy (address : string)
| item_explorer (href : string)
| item_sign_in (label : string) (disabled : bool)
| item_disconnect.

Record Menu := mkMenu { mn_avatar : string; mn_title : string; mn_subtitle : string; mn_items : list MenuItem }.

Inductive WalletView :=
| view_connected (avatar label chain : string) (menu : option Menu)
| view_connect (label : string) (spinning disabled : bool) (choices : option (list (string * (string * string)))).

(** The first letter or symbol shown for a connector, with its colour. *)
Definition ConnectorIcon (name : string) : string * string :=
  let lower := toLowerCase name in
  if str_includes "metamask" lower then ("#f6851b", "M")
  else if str_includes "walletconnect" lower then ("#3b99fc", "W")
  else if str_includes "coinbase" lower then ("#0052ff", "C")
  else if str_includes "rabby" lower then ("#7084ff", "R")
  else if str_includes "safe" lower then ("#12ff80", "S")
  else if str_includes "injected" lower then ("#9ca3af", "⌬")
  else ("#5e35b1", str_take 1 name).

Definition WalletButton (i : WalletInputs) (connectorName : option string) (connectors : list string)
    (isPending : bool) (chainId : Z) (open : bool) : WalletView :=
  match wi_connected i with
  | Some address =>
      view_connected (avatarGradient address) (shortAddr address) (chain_text chainId)
        (if open then Some (mkMenu (avatarGradient address) (shortAddr address)
           (default "" connectorName +:+ " · " +:+ chain_text chainId)
           ([item_copy address; item_explorer ("https://arbiscan.io/address/" +:+ address)]
            ++ (if negb (wi_hasJwt i)
                then [item_sign_in (if wi_isSigning i then "Signing in…" else "Sign in (SIWE)") (wi_isSigning i)]
                else [])
            ++ [item_disconnect]))
         else None)
  | None =>
      view_connect (if isPending then "Connecting…" else "Connect wallet") isPending isPending
        (if open then Some (map (fun n => (n, ConnectorIcon n)) connectors) else None)
  end.

(** What a click in the menu does: to the browser (session, clipboard as the
    text copied), to the wallet connection, and to the menu. *)
Record ClickEffect := mkClick {
  ck_browser : Browser; ck_copied : option string; ck_signIn : bool; ck_disconnect : bool; ck_open : bool }.

Definition click_item (it : MenuItem) (b : Browser) : ClickEffect :=
  match it with
  | item_copy address => mkClick b (Some address) false false false
  | item_explorer _ => mkClick b None false false true
  | item_sign_in _ disabled => if disabled then mkClick b None false false true else mkClick b None true false false
  | item_disconnect => mkClick (signOut b) None false true false
  end.

(** ** Navigation: TopNav.tsx and MobileTabBar.tsx *)

Record NavItem := mkNav { nv_href : string; nv_label : string }.

Definition NAV : list NavItem :=
  [mkNav "/trade" "Trade"; mkNav "/markets" "Markets"; mkNav "/portfolio" "Portfolio";
   mkNav "/history" "History"; mkNav "/wallet" "Wallet"].

Definition ITEMS : list NavItem :=
  [mkNav "/trade" "Trade"; mkNav "/markets" "Markets"; mkNav "/portfolio" "Portfolio"; mkNav "/history" "History"].

(** The entries' [match]: a prefix for the trade pages, equality elsewhere. *)
Definition nav_match (n : NavItem) (p : string) : bool :=
  if String.eqb (nv_href n) "/trade" then startsWith "/trade" p || String.eqb p "/" else String.eqb p (nv_href n).

Record NavLink := mkLink { lk_href : string; lk_label : string; lk_active : bool; lk_class : string }.

Definition nav_links (cls : bool -> string) (items : list NavItem) (pathname : string) (selectedMarket : MarketId) : list NavLink :=
  map (fun n =>
    let active := nav_match n pathname in
    mkLink (if String.eqb (nv_href n) "/trade" then "/trade/" +:+ selectedMarket else nv_href n) (nv_label n) active (cls active))
    items.

Definition TopNav (pathname : string) (selectedMarket : MarketId) : list NavLink :=
  nav_links (fun active => cn [Some "px-3 h-9 inline-flex items-center text-[13px] rounded-[var(--radius-sm)] transition-colors";
                               Some (if active then "text-fg bg-bg-2" else "text-fg-muted hover:text-fg hover:bg-bg-2")])
    NAV pathname selectedMarket.

Definition MobileTabBar (pathname : string) (selectedMarket : MarketId) : list NavLink :=
  nav_links (fun active => cn [Some "flex flex-col items-center justify-center gap-0.5 text-[10px]";
                               Some (if active then "text-accent" else "text-fg-muted")])
    ITEMS pathname selectedMarket.

(** ** The market page: web/app/(app)/trade/[marketId]/page.tsx *)

Definition VALID : list MarketId := ["btc-usd"; "eth-usd"; "sol-usd"].

(** [None] is the not-found page. *)
Definition TradePage (marketId : string) : option MarketId :=
  if negb (bool_decide (marketId ∈ VALID)) then None else Some marketId.

Definition generateStaticParams : list MarketId := VALID.

(** ** Theme: web/components/common/ThemeToggle.tsx *)

Inductive Theme := light | dark.
#[global] Instance Theme_eq_dec : EqDecision Theme.
Proof. solve_decision. Defined.

Definition theme_text (t : Theme) : string := match t with light => "light" | dark => "dark" end.

Definition STORAGE_KEY : string := "perplex-theme".

Definition readInitial (b : Browser) : Theme :=
  if negb (b_window b) then light
  else match getItem STORAGE_KEY b with
       | Some "light" => light
       | Some "dark" => dark
       | _ => light
       end.

(** The two classes of the document root: (dark, light). *)
Definition applyTheme (t : Theme) : bool * bool := (bool_decide (t = dark), bool_decide (t = light)).

Record ThemeUi := mkThemeUi { th_theme : Theme; th_mounted : bool; th_root : bool * bool }.

(** First render, then the effect that runs once. *)
Definition theme_mount (root : bool * bool) (b : Browser) : ThemeUi :=
  let theme := readInitial b in mkThemeUi theme true (applyTheme theme).

Definition theme_toggle (u : ThemeUi) (b : Browser) : ThemeUi * Browser :=
  let next := if bool_decide (th_theme u = dark) then light else dark in
  (mkThemeUi next (th_mounted u) (applyTheme next), setItem STORAGE_KEY (theme_text next) b).

Inductive ThemeIcon := sun | moon.
Definition theme_view (u : ThemeUi) : string * ThemeIcon :=
  let isDark := bool_decide (th_theme u = dark) in
  (if isDark then "Switch to light theme" else "Switch to dark theme", if th_mounted u && isDark then sun else moon).

(** ** Celebration: web/components/common/CelebrationOverlay.tsx *)

Definition AUTO_DISMISS_MS : Z := 2500.

(** The store, the overlay's pending timer as its due time, and the clock. *)
Record Overlay := mkOverlay { ov_ui : UiState; ov_timer : option Z; ov_now : Z }.

(** The effect after the celebration changed: its cleanup drops the old timer. *)
Definition overlay_effect (o : Overlay) : Overlay :=
  mkOverlay (ov_ui o)
    (match ui_celebration (ov_ui o) with None => None | Some _ => Some (ov_now o + AUTO_DISMISS_MS) end) (ov_now o).

Inductive OverlayEvent :=
| ev_celebrate (st : Stamp) (title : string) (body : option string)
| ev_other (f : UiState -> UiState)
| ev_click
| ev_wait (ms : N).

Definition overlay_step (o : Overlay) (e : OverlayEvent) : Overlay :=
  match e with
  | ev_celebrate st title body => overlay_effect (mkOverlay (celebrate st title body (ov_ui o)) (ov_timer o) (ov_now o))
  | ev_other f => mkOverlay (f (ov_ui o)) (ov_timer o) (ov_now o)
  | ev_click =>
      match ui_celebration (ov_ui o) with
      | None => o
      | Some _ => overlay_effect (mkOverlay (dismissCelebration (ov_ui o)) (ov_timer o) (ov_now o))
      end
  | ev_wait ms =>
      let now := ov_now o + Z.of_N ms in
      match ov_timer o with
      | Some due =>
          if due <=? now then overlay_effect (mkOverlay (dismissCelebration (ov_ui o)) (ov_timer o) now)
          else mkOverlay (ov_ui o) (ov_timer o) now
      | None => mkOverlay (ov_ui o) None now
      end
  end.

(** What the overlay shows: nothing, or title and body when there is one. *)
Definition overlay_view (o : Overlay) : option (string * option string) :=
  match ui_celebration (ov_ui o) with
  | None => None
  | Some c => Some (ce_title c, match ce_body c with Some s => if str_truthy s then Some s else None | None => None end)
  end.

(** ** Boot: web/app/providers.tsx and web/mocks/browser.ts *)

(** startMocks: the module's [started] flag, whether the socket mock threw and
    whether the worker came up; the worker is started only once it succeeded. *)
Record MockModule := mkMockModule { mm_started : bool; mm_ws_starts : nat; mm_worker_starts : nat; mm_log : list string }.

Definition startMocks (ws : result unit) (worker : result unit) (m : MockModule) : result unit * MockModule :=
  if mm_started m then (Ok tt, m) else
  let log1 := match ws with Throw _ => mm_log m ++ ["[perplex] mock-socket boot failed"] | Ok _ => mm_log m end in
  match worker with
  | Throw e => (Throw e, mkMockModule false (S (mm_ws_starts m)) (S (mm_worker_starts m)) log1)
  | Ok _ => (Ok tt, mkMockModule true (S (mm_ws_starts m)) (S (mm_worker_starts m)) (log1 ++ ["[perplex] mock backend ready"]))
  end.

(** The providers' state, with the effect's locals: is the timer pending, was
    the effect cleaned up, and how often the queries were invalidated. *)
Record Boot := mkBoot {
  bt_ready : bool;
  bt_error : option string;
  bt_timer : bool;
  bt_cancelled : bool;
  bt_waiting : bool;
  bt_invalidated : nat;
}.

Definition boot_init (useMocks : bool) : Boot := mkBoot (negb useMocks) None useMocks false useMocks 0.

Definition TIMEOUT_MESSAGE : string :=
  "Mock backend did not start within 10s. Reload the page or check the browser console.".

Inductive BootEvent :=
| bt_timeout
| bt_started
| bt_failed (msg : string)
| bt_unmount.

Definition boot_step (s : Boot) (e : BootEvent) : Boot :=
  match e with
  | bt_timeout =>
      if negb (bt_timer s) then s else
      if negb (bt_cancelled s) then mkBoot true (Some TIMEOUT_MESSAGE) false false (bt_waiting s) (bt_invalidated s)
      else mkBoot (bt_ready s) (bt_error s) false true (bt_waiting s) (bt_invalidated s)
  | bt_started =>
      if negb (bt_waiting s) then s else
      if bt_cancelled s then mkBoot (bt_ready s) (bt_error s) (bt_timer s) true false (bt_invalidated s)
      else mkBoot true (bt_error s) false false false (S (bt_invalidated s))
  | bt_failed msg =>
      if negb (bt_waiting s) then s else
      if bt_cancelled s then mkBoot (bt_ready s) (bt_error s) (bt_timer s) true false (bt_invalidated s)
      else mkBoot true (Some msg) false false false (bt_invalidated s)
  | bt_unmount => mkBoot (bt_ready s) (bt_error s) false true (bt_waiting s) (bt_invalidated s)
  end.

(** Whether the page or the splash is shown, and the banner. *)
Definition Providers (s : Boot) : bool * option string :=
  (bt_ready s, match bt_error s with Some m => if str_truthy m then Some m else None | None => None end).

(** The defaults of the query client: refetch on focus, retries, stale time. *)
Definition makeQueryClient : bool * Z * Z := (false, 2, 5000).

(** ** Shared controls: web/components/ui *)

Inductive ButtonVariant := v_primary | v_secondary | v_ghost | v_long | v_short | v_danger.
Inductive ButtonSize := s_sm | s_md | s_lg.

Definition sizeCls (s : ButtonSize) : string :=
  match s with
  | s_sm => "h-8 px-3 text-xs rounded-[var(--radius-sm)]"
  | s_md => "h-10 px-4 text-sm rounded-[var(--radius-md)]"
  | s_lg => "h-12 px-5 text-[15px] rounded-[var(--radius-md)]"
  end.

Definition variantCls (v : ButtonVariant) : string :=
  match v with
  | v_primary => "bg-accent text-white hover:bg-accent-strong active:translate-y-px font-medium shadow-[0_0_0_1px_var(--accent-strong)]"
  | v_secondary => "bg-bg-2 text-fg hover:bg-bg-hover border border-border hover:border-border-strong font-medium"
  | v_ghost => "bg-transparent text-fg-mid hover:text-fg hover:bg-bg-2"
  | v_long => "bg-long text-white hover:bg-long-strong font-semibold shadow-[0_0_0_1px_var(--long-strong)]"
  | v_short => "bg-short text-white hover:bg-short-strong font-semibold shadow-[0_0_0_1px_var(--short-strong)]"
  | v_danger => "bg-short-soft text-short border border-[var(--short-strong)] hover:bg-short hover:text-white"
  end.

(** [cond && text] as an argument of [cn]. *)
Definition when (b : bool) (text : string) : option string := if b then Some text else None.

Record ButtonView := mkButton { bn_disabled : bool; bn_spinner : bool; bn_class : string }.

Definition Button (variant : option ButtonVariant) (size : option ButtonSize) (loading block disabled : bool)
    (className : option string) : ButtonView :=
  mkButton (disabled || loading) loading
    (cn [Some "inline-flex items-center justify-center gap-2 transition-colors duration-150 select-none";
         Some "disabled:opacity-50 disabled:cursor-not-allowed";
         Some (sizeCls (default s_md size)); Some (variantCls (default v_secondary variant));
         when block "w-full"; className]).

Inductive TabsVariant := tv_underline | tv_pill | tv_segmented.
#[global] Instance TabsVariant_eq_dec : EqDecision TabsVariant.
Proof. solve_decision. Defined.

Record TabItem := mkTabItem { ti_value : string; ti_label : string; ti_count : option Z }.
Record TabView := mkTab {
  tb_value : string; tb_selected : bool; tb_class : string; tb_label : string; tb_count : option (Z * string) }.

Definition tab_class (variant : TabsVariant) (small active : bool) : string :=
  cn [Some "transition-colors duration-150 select-none whitespace-nowrap";
      Some (if small then "text-[12px]" else "text-[13px]");
      when (bool_decide (variant = tv_underline))
        (cn [Some "h-9 -mb-px border-b-2 px-1";
             Some (if active then "text-fg border-accent" else "text-fg-muted hover:text-fg-mid border-transparent")]);
      when (bool_decide (variant = tv_pill))
        (cn [Some "h-8 px-3 rounded-[var(--radius-sm)]";
             Some (if active then "bg-accent-soft text-accent" else "text-fg-muted hover:text-fg")]);
      when (bool_decide (variant = tv_segmented))
        (cn [Some "h-7 px-3 rounded-[var(--radius-sm)] font-medium flex-1 text-center";
             Some (if active then "bg-bg-hover text-fg" else "text-fg-muted hover:text-fg")])].

(** The tab list's class, and one button per item; clicking one reports its
    value. *)
Definition Tabs (variant : TabsVariant) (small : bool) (className : option string) (value : string)
    (items : list TabItem) : string * list TabView :=
  (cn [Some "flex items-center";
       when (bool_decide (variant = tv_segmented)) "p-1 bg-bg-2 border border-border rounded-[var(--radius-md)] gap-1";
       when (bool_decide (variant = tv_underline)) "gap-4 border-b border-border";
       when (bool_decide (variant = tv_pill)) "gap-1"; className],
   map (fun it =>
     let active := String.eqb (ti_value it) value in
     mkTab (ti_value it) active (tab_class variant small active) (ti_label it)
       (option_map (fun n => (n, cn [Some "px-1.5 h-4 inline-flex items-center justify-center text-[10px] rounded-full font-mono";
                                     Some (if active then "bg-accent-soft text-accent" else "bg-bg-2 text-fg-muted")]))
          (ti_count it))) items).

Definition truthy_opt (o : option string) : bool := match o with Some s => str_truthy s | None => false end.
Definition shown (o : option string) : option string := if truthy_opt o then o else None.

Record InputView := mkInput {
  in_id : option string; in_label : option string; in_box : string; in_prefix : option string; in_suffix : option string;
  in_invalid : bool; in_class : string; in_note : option (string * string) }.

(** The note below the field is [error ?? hint], shown when either is truthy. *)
Definition Input (label suffix prefix error hint className id name : option string) (mono : bool) : InputView :=
  mkInput (match id with Some i => Some i | None => name end) (shown label)
    (cn [Some "flex items-center h-10 px-3 gap-2 bg-bg-2 border border-border rounded-[var(--radius-md)]";
         Some "focus-within:border-accent transition-colors"; when (truthy_opt error) "border-short"; className])
    (shown prefix) (shown suffix) (truthy_opt error)
    (cn [Some "flex-1 min-w-0 bg-transparent outline-none text-fg placeholder:text-fg-dim text-sm"; when mono "font-mono"])
    (if truthy_opt error || truthy_opt hint
     then Some (default "" (match error with Some e => Some e | None => hint end),
                cn [Some "text-[11px]"; Some (if truthy_opt error then "text-short" else "text-fg-muted")])
     else None).

Record ErrorView := mkErrorView { er_class : string; er_title : string; er_description : option string; er_retry : bool }.

Definition ErrorState (title description className : option string) (compact onRetry : bool) : ErrorView :=
  mkErrorView
    (cn [Some "flex flex-col items-center justify-center text-center gap-3 rounded-[var(--radius-md)] border border-[color-mix(in_oklab,var(--short-strong),transparent_70%)] bg-short-soft";
         Some (if compact then "p-6" else "p-10"); className])
    (default "Something went wrong" title) (shown description) onRetry.
