(* ===== verification/ShellThms.v ===== *)
(** * Properties of the application shell

    One sign-in prompt per connection, a boot that always ends in a usable
    page, a celebration that always goes away, a theme that survives a reload,
    and the facts about chains, navigation and market pages the rest of the
    interface relies on. *)
From S2P Require Import Prelude JsNum JsText JsColl Contract Browser WsClient UiStore Session Shell.
#[local] Open Scope Z_scope.

(** ** The sign-in prompt *)

Definition needs_prompt (i : WalletInputs) : bool := negb (wi_hasJwt i || wi_isSigning i).

Definition prompt_count (ps : list (option string)) : nat := length (filter (fun p => is_Some p) ps).

Lemma prompt_effect_connected i ref a : wi_connected i = Some a ->
  prompt_effect i ref = if needs_prompt i && negb (bool_decide (ref = Some a)) then (Some a, true) else (ref, false).
Proof.
  intros Hi. unfold prompt_effect, needs_prompt. rewrite Hi.
  destruct (wi_hasJwt i || wi_isSigning i); [done|]. by case_bool_decide.
Qed.

Lemma prompts_cons i ref runs a : wi_connected i = Some a ->
  prompt_count (prompts ref (i :: runs)) =
  (if needs_prompt i && negb (bool_decide (ref = Some a)) then S (prompt_count (prompts (Some a) runs))
   else prompt_count (prompts ref runs)).
Proof.
  intros Hi. cbn [prompts]. rewrite (prompt_effect_connected _ _ _ Hi).
  destruct (needs_prompt i && _); unfold prompt_count; rewrite filter_cons; [rewrite decide_True by done; done|].
  rewrite decide_False; [done|]. by intros [? ?].
Qed.

Lemma prompts_after a runs : (forall i, i ∈ runs -> wi_connected i = Some a) ->
  prompt_count (prompts (Some a) runs) = 0%nat.
Proof.
  induction runs as [|i runs IH]; intros Hc; [done|]. rewrite (prompts_cons _ _ _ a) by (apply Hc; by left).
  rewrite bool_decide_true by done. rewrite andb_false_r. apply IH. intros j Hj. apply Hc. by right.
Qed.

(** While the wallet stays connected with one address, the signature
    request pops up exactly once if some render finds no session and no
    signing in progress, and not at all if none does or if it was already
    requested for that address, however often the effect runs. *)
Theorem one_prompt_per_connection (ref : option string) (a : string) (runs : list WalletInputs) :
  (forall i, i ∈ runs -> wi_connected i = Some a) ->
  prompt_count (prompts ref runs) = if bool_decide (ref = Some a) then 0%nat
    else if existsb needs_prompt runs then 1%nat else 0%nat.
Proof.
  intros Hc. case_bool_decide as Hr; [subst; by apply prompts_after|].
  induction runs as [|i runs IH]; [done|].
  assert (Hc' : forall j, j ∈ runs -> wi_connected j = Some a) by (intros j Hj; apply Hc; by right).
  rewrite (prompts_cons _ _ _ a) by (apply Hc; by left). rewrite bool_decide_false by done. cbn [existsb negb].
  rewrite andb_true_r. destruct (needs_prompt i); cbn [orb]; [by rewrite prompts_after | by apply IH].
Qed.

Lemma one_prompt_per_connection_witness :
  prompt_count (prompts None [mkWalletInputs st_connected (Some "0xabc") false false;
                              mkWalletInputs st_connected (Some "0xabc") false true;
                              mkWalletInputs st_connected (Some "0xabc") false false]) = 1%nat.
Proof.
  apply (one_prompt_per_connection None "0xabc"). intros i Hi.
  repeat (apply elem_of_cons in Hi as [-> | Hi]; [reflexivity|]). by apply elem_of_nil in Hi.
Defined.

(** ** Boot *)

Definition is_unmount (e : BootEvent) : bool := match e with bt_unmount => true | _ => false end.

(** The events up to the unmount. *)
Fixpoint mounted_part (es : list BootEvent) : list BootEvent :=
  match es with [] => [] | e :: es' => if is_unmount e then [] else e :: mounted_part es' end.

Definition boot_run (useMocks : bool) (es : list BootEvent) : Boot := fold_left boot_step es (boot_init useMocks).

Definition boot_failure (e : BootEvent) : bool := match e with bt_timeout | bt_failed _ => true | _ => false end.

Lemma boot_frozen s es : bt_cancelled s = true -> bt_timer s = false ->
  bt_ready (fold_left boot_step es s) = bt_ready s /\ bt_error (fold_left boot_step es s) = bt_error s.
Proof.
  revert s. induction es as [|e es IH]; intros s Hc Ht; [done|]. cbn [fold_left].
  assert (Hs : bt_cancelled (boot_step s e) = true /\ bt_timer (boot_step s e) = false /\
    bt_ready (boot_step s e) = bt_ready s /\ bt_error (boot_step s e) = bt_error s).
  { destruct e; cbn; rewrite ?Ht, ?Hc; cbn; try done; by destruct (bt_waiting s); cbn. }
  destruct Hs as (? & ? & E1 & E2). destruct (IH (boot_step s e)) as [-> ->]; done.
Qed.

(** Before the first event: splash up, timer running, result awaited. *)
Definition booting (s : Boot) : Prop :=
  bt_ready s = false /\ bt_error s = None /\ bt_timer s = true /\ bt_cancelled s = false /\ bt_waiting s = true.

Lemma boot_ready_stays s es : bt_ready s = true -> bt_ready (fold_left boot_step es s) = true.
Proof.
  revert s. induction es as [|e es IH]; intros s Hr; [done|]. cbn [fold_left]. apply IH.
  destruct e; cbn; destruct (bt_timer s), (bt_waiting s), (bt_cancelled s); cbn; done.
Qed.

Lemma boot_quiet es s : bt_error s = None -> existsb boot_failure (mounted_part es) = false ->
  (bt_cancelled s = true -> bt_timer s = false) -> bt_error (fold_left boot_step es s) = None.
Proof.
  revert s. induction es as [|e es IH]; intros s He Hf Hc; [done|]. cbn [fold_left mounted_part existsb] in *.
  destruct e; cbn in Hf; try discriminate.
  - assert (Hs : bt_error (boot_step s bt_started) = None /\
      (bt_cancelled (boot_step s bt_started) = true -> bt_timer (boot_step s bt_started) = false)).
    { cbn. destruct (bt_waiting s), (bt_cancelled s) eqn:E; cbn; rewrite ?E; auto. }
    destruct Hs. by apply IH.
  - by destruct (boot_frozen (boot_step s bt_unmount) es) as [_ ->].
Qed.

(** The splash screen always gives way: with the mock backend on, the page
    is shown exactly when, before the provider unmounted, the backend reported
    success or failure or the ten-second timer fired; without it the page is
    shown from the start.  The error banner appears only after a failure or the
    timer. *)
Theorem boot_always_unblocks (useMocks : bool) (es : list BootEvent) :
  bt_ready (boot_run useMocks es) = negb useMocks || negb (bool_decide (mounted_part es = [])) /\
  (existsb boot_failure (mounted_part es) = false -> bt_error (boot_run useMocks es) = None).
Proof.
  unfold boot_run. split; [|intros Hf; by apply boot_quiet]. destruct useMocks; cbn [negb orb].
  2: by apply boot_ready_stays.
  destruct es as [|e es]; [done|]. cbn [fold_left mounted_part].
  destruct e; cbn [is_unmount]; rewrite ?bool_decide_true by done; rewrite ?bool_decide_false by done; cbn [negb].
  1, 2, 3: by apply boot_ready_stays.
  by destruct (boot_frozen (boot_step (boot_init true) bt_unmount) es) as [-> _].
Qed.

Lemma boot_always_unblocks_witness :
  let s := boot_run true [bt_started; bt_timeout; bt_unmount; bt_failed "late"] in bt_ready s = true /\ bt_error s = None.
Proof.
  destruct (boot_always_unblocks true [bt_started; bt_timeout; bt_unmount; bt_failed "late"]) as [Hr _].
  destruct (boot_always_unblocks true [bt_started; bt_unmount; bt_failed "late"]) as [_ He].
  split; [exact Hr|]. exact (He eq_refl).
Defined.

(** ** Celebration *)

(** Shown exactly while a timer is pending, which is due within 2.5 s. *)
Definition overlay_ok (o : Overlay) : Prop :=
  match ui_celebration (ov_ui o), ov_timer o with
  | None, None => True
  | Some _, Some due => ov_now o < due <= ov_now o + AUTO_DISMISS_MS
  | _, _ => False
  end.

Inductive overlay_reach : Overlay -> Prop :=
| or_init u now : ui_celebration u = None -> overlay_reach (mkOverlay u None now)
| or_step o e : overlay_reach o ->
    (forall f, e = ev_other f -> forall u, ui_celebration (f u) = ui_celebration u) ->
    overlay_reach (overlay_step o e).

Lemma overlay_reach_ok (o : Overlay) : overlay_reach o -> overlay_ok o.
Proof.
  induction 1 as [u now Hu|o e _ IH Hf]; unfold overlay_ok in *; [by cbn; rewrite Hu|].
  destruct e as [st title body|f| |ms]; cbn [overlay_step].
  - cbn. unfold AUTO_DISMISS_MS. lia.
  - cbn [ov_ui ov_timer ov_now]. by rewrite (Hf f eq_refl).
  - destruct (ui_celebration (ov_ui o)) eqn:E; [done|]. by rewrite E.
  - destruct (ov_timer o) as [due|].
    + destruct (Z.leb_spec due (ov_now o + Z.of_N ms)); cbn; [done|].
      destruct (ui_celebration (ov_ui o)); [lia|done].
    + cbn. by destruct (ui_celebration (ov_ui o)).
Qed.

(** Every celebration goes away by itself: in every run, the overlay shows
    one exactly while its timer is pending, that timer is due at most 2.5
    seconds from now and not yet overdue (a new celebration replaces the old
    one's timer, so the old one cannot dismiss it early), and once 2.5 seconds
    pass without a new celebration nothing is shown. *)
Theorem celebration_always_ends (o : Overlay) : overlay_reach o ->
  overlay_ok o /\ forall ms, AUTO_DISMISS_MS <= Z.of_N ms -> overlay_view (overlay_step o (ev_wait ms)) = None.
Proof.
  intros Hr. pose proof (overlay_reach_ok o Hr) as Hok. split; [done|]. intros ms Hms.
  unfold overlay_ok in Hok. cbn [overlay_step]. destruct (ov_timer o) as [due|].
  - destruct (ui_celebration (ov_ui o)); [|done]. by rewrite (proj2 (Z.leb_le due _)) by lia.
  - unfold overlay_view. cbn. by destruct (ui_celebration (ov_ui o)).
Qed.

Definition demo_overlay : Overlay :=
  overlay_step (overlay_step (mkOverlay initial_ui None 1000) (ev_celebrate (mkStamp 1000 "0.abcdefgh") "Filled" None)) (ev_wait 2400).

Lemma celebration_always_ends_witness :
  ov_now demo_overlay < 3500 <= ov_now demo_overlay + AUTO_DISMISS_MS /\
  overlay_view demo_overlay = Some ("Filled", None) /\ overlay_view (overlay_step demo_overlay (ev_wait 2500)) = None.
Proof.
  destruct (celebration_always_ends demo_overlay) as [Hok Hend].
  { unfold demo_overlay. repeat (apply or_step; [|intros f Hf; discriminate Hf]). by constructor. }
  split; [exact Hok|]. split; [reflexivity|]. by apply Hend.
Defined.

(** ** Theme *)

Lemma theme_text_read t b : b_window b = true -> getItem STORAGE_KEY b = Some (theme_text t) -> readInitial b = t.
Proof. intros Hw Hg. unfold readInitial. rewrite Hw, Hg. by destruct t. Qed.

(** Toggling is remembered by the next page load, and undone by a second
    toggle; the document root carries exactly the class of the theme. *)
Lemma theme_round_trip u b root : b_window b = true ->
  let '(u1, b1) := theme_toggle u b in let '(u2, b2) := theme_toggle u1 b1 in
  th_theme (theme_mount root b1) = th_theme u1 /\ th_theme u1 <> th_theme u /\ th_theme u2 = th_theme u /\
  th_root u1 = applyTheme (th_theme u1) /\ fst (th_root u1) = negb (snd (th_root u1)).
Proof.
  intros Hw. unfold theme_toggle. cbn [th_theme th_root theme_mount].
  destruct (th_theme u); cbn [bool_decide decide_rel]; split;
    try (apply theme_text_read; [done|]; unfold getItem, setItem, STORAGE_KEY; cbn; by rewrite fin_maps.lookup_insert_eq); done.
Qed.

(** ** Chains, navigation, market pages *)

(** Every chain offered has a transport, and the local chain is offered
    exactly outside production. *)
Lemma chains_have_transports arb sep env wc br :
  let cfg := buildWagmiConfig arb sep env wc br in
  (forall c, c ∈ wg_chains cfg -> ch_id c ∈ wg_transports cfg) /\
  (ch_id arb <> 31337 -> ch_id sep <> 31337 ->
   (31337 ∈ map ch_id (wg_chains cfg) <-> IS_DEV_PROFILE env = true)).
Proof.
  cbn [buildWagmiConfig wg_chains wg_transports]. unfold APP_CHAINS. destruct (IS_DEV_PROFILE env); cbn [PROD_CHAINS DEV_CHAINS map].
  - split.
    + intros c Hc. rewrite !elem_of_js_add. unfold DEV_CHAINS in Hc.
      repeat (apply elem_of_cons in Hc as [->|Hc]; [tauto|]). by apply elem_of_nil in Hc.
    + intros _ _. split; [done|]. intros _. by left.
  - split.
    + intros c Hc. rewrite !elem_of_js_add. unfold PROD_CHAINS in Hc.
      repeat (apply elem_of_cons in Hc as [->|Hc]; [tauto|]). by apply elem_of_nil in Hc.
    + intros Ha Hs. split; [|done]. rewrite !elem_of_cons, elem_of_nil. intros [E|[E|E]]; [by destruct Ha|by destruct Hs|done].
Qed.

(** At most one entry of the bar is highlighted, whatever the path. *)
Lemma nav_highlights_one (n m : NavItem) p : n ∈ NAV -> m ∈ NAV -> nav_match n p = true -> nav_match m p = true -> n = m.
Proof.
  unfold NAV. intros Hn Hm. rewrite !elem_of_cons, elem_of_nil in Hn, Hm.
  destruct Hn as [->|[->|[->|[->|[->|[]]]]]], Hm as [->|[->|[->|[->|[->|[]]]]]]; try done;
    unfold nav_match; cbn [nv_href String.eqb]; intros H1 H2;
    try (apply String.eqb_eq in H2; subst p); try (apply String.eqb_eq in H1; subst p); discriminate.
Qed.

Lemma trade_page_valid m : is_Some (TradePage m) <-> m ∈ market_ids.
Proof.
  unfold TradePage. change VALID with market_ids. case_bool_decide; cbn [negb]; split; try done; by intros [? ?].
Qed.

(** Disconnecting from the menu forgets the session. *)
Lemma disconnect_signs_out b : b_window b = true -> signed_out (ck_browser (click_item item_disconnect b)).
Proof. apply clearJwt_signed_out. Qed.
