(* ===== verification/TicketView.v ===== *)
(** * What the order ticket shows and how its controls act
    ([web/components/trade/OrderForm.tsx], from the markup on)

    [OrderForm] is the rendered ticket as a record: side buttons, tabs, fields,
    leverage controls, toggles, the summary rows and the button at the bottom.
    [ticket_step] is one user action on a control that is on screen and
    enabled; [offered] says which ones are.  The figures come from
    [OrderTicket]. *)
From S2P Require Import Prelude JsNum FloatFacts JsText JsColl Contract Format UiStore OrderTicket OrderTicketThms Session Shell.
From Stdlib Require Import SpecFloat.
#[local] Open Scope Z_scope.

(** ** Parts of the form *)

Record RowView := mkRowView { rw_label : string; rw_value : string; rw_title : option string; rw_dot : bool; rw_class : string }.

Inductive Highlight := hl_warn | hl_short.

Definition Row (label value : string) (muted : bool) (highlight : option Highlight) (help : option string) : RowView :=
  let valueClass :=
    match highlight with
    | Some hl_warn => "text-warn"
    | Some hl_short => "text-short font-semibold"
    | None => if muted then "text-fg-mid" else "text-fg"
    end in
  mkRowView label value help (truthy_opt help) (cn [Some "font-mono tabular-nums"; Some valueClass]).

Record ToggleView := mkToggle {
  tg_title : string; tg_label : string; tg_class : string; tg_text : string; tg_track : string; tg_knob : string;
  tg_checked : bool; tg_disabled : bool }.

Definition Toggle (label help : string) (checked disabled : bool) : ToggleView :=
  mkToggle help label
    (cn [Some "flex items-center justify-between gap-2 h-8 px-2 rounded-[var(--radius-sm)] border border-border cursor-pointer select-none transition-colors hover:border-border-strong";
         when checked "bg-accent-soft border-accent"; when disabled "opacity-40 cursor-not-allowed"])
    (cn [Some (if checked then "text-accent font-medium" else "text-fg-mid")])
    (cn [Some "relative inline-block w-7 h-4 rounded-full transition-colors"; Some (if checked then "bg-accent" else "bg-bg-3")])
    (cn [Some "absolute top-0.5 size-3 bg-white rounded-full shadow-sm transition-transform";
         Some (if checked then "translate-x-3.5" else "translate-x-0.5")])
    checked disabled.

Record SideView := mkSideView {
  sv_class : string; sv_pressed : bool; sv_sheen : bool; sv_iconClass : string; sv_up : bool; sv_text : string;
  sv_badgeClass : string; sv_badge : string }.

Definition SideButton (side : Side) (active : bool) : SideView :=
  let isLong := bool_decide (side = buy) in
  mkSideView
    (cn [Some "group relative overflow-hidden h-12 rounded-[var(--radius-md)] text-[14px] font-semibold transition-all duration-150";
         Some (if active then
                 if isLong then "bg-gradient-to-br from-[#1ad094] to-[#0c8f63] text-white shadow-[0_2px_0_rgba(0,0,0,0.15),0_8px_22px_-6px_rgba(26,208,148,0.45),inset_0_1px_0_rgba(255,255,255,0.18)]"
                 else "bg-gradient-to-br from-[#ff5a6a] to-[#c52030] text-white shadow-[0_2px_0_rgba(0,0,0,0.15),0_8px_22px_-6px_rgba(255,90,106,0.45),inset_0_1px_0_rgba(255,255,255,0.18)]"
               else if isLong then "bg-bg-2 text-fg-mid hover:text-long border border-border hover:border-[color-mix(in_oklab,var(--long),transparent_55%)]"
               else "bg-bg-2 text-fg-mid hover:text-short border border-border hover:border-[color-mix(in_oklab,var(--short),transparent_55%)]")])
    active active
    (cn [Some "inline-flex items-center justify-center size-6 rounded-full";
         Some (if active then "bg-white/18" else if isLong then "bg-long-soft text-long" else "bg-short-soft text-short")])
    isLong (if isLong then "Long" else "Short")
    (cn [Some "font-mono text-[10px] uppercase tracking-[0.16em] opacity-80 inline-flex items-center h-4 px-1.5 rounded-[4px]";
         Some (if active then "bg-white/15" else "bg-bg-1 border border-border")])
    (if isLong then "BUY" else "SELL").

Definition TIF_HELP (t : TimeInForce) : string :=
  match t with
  | gtc => "Good till cancelled · rests in the book until filled or you cancel it"
  | ioc => "Immediate or cancel · fills what's available now, kills the rest"
  | fok => "Fill or kill · fully fills instantly or rejects the entire order"
  end.

Definition tif_text (t : TimeInForce) : string := match t with gtc => "gtc" | ioc => "ioc" | fok => "fok" end.
Definition type_value (t : OrderType) : string := match t with market => "market" | limit => "limit" end.

(** ** The rendered ticket *)

Definition max_leverage (mkt : option Market) : Z := match mkt with Some m => mk_maxLeverage m | None => 20 end.

(** How far the slider's track is filled, in percent. *)
Definition slider_fill (e : TicketEnv) (t : Ticket) : string :=
  num_toString (num_mul (num_div (num_sub (t_leverage t) (num_of_Z 1)) (num_sub (num_of_Z (max_leverage (te_market e))) (num_of_Z 1)))
                  (num_of_Z 100)) +:+ "%".

Definition slider_background (e : TicketEnv) (t : Ticket) : string :=
  "linear-gradient(to right, var(--accent) 0%, var(--accent) " +:+ slider_fill e t +:+ ", var(--bg-3) "
  +:+ slider_fill e t +:+ ", var(--bg-3) 100%)".

Definition preset_class (t : Ticket) (l : Z) : string :=
  cn [Some "flex-1 h-7 text-[11px] font-mono font-medium rounded-[var(--radius-xs)] border transition-colors";
      Some (if SFeqb (t_leverage t) (num_of_Z l) then "bg-accent-soft border-accent text-accent"
            else "bg-bg-1 border-border text-fg-mid hover:text-fg hover:border-border-strong")].

Definition tif_class (t : Ticket) (f : TimeInForce) : string :=
  cn [Some "h-6 px-2 rounded-[var(--radius-xs)] uppercase font-mono text-[10px] font-medium border transition-colors";
      Some (if bool_decide (t_tif t = f) then "bg-accent-soft text-accent border-accent" else "text-fg-mid border-border hover:text-fg")].

Definition quick_captions : list (Z * string) :=
  map (fun pct => (pct, if pct =? 100 then "MAX" else bigint_toString pct +:+ "%")) [25; 50; 75; 100].

Definition liq_help (e : TicketEnv) (t : Ticket) : string :=
  "Liq. price = entry × (1 − 1/leverage + maint. margin) for longs (inverse for shorts). Entry is the volume-weighted fill price, so larger sizes that walk the book widen slippage and shift liq. Move leverage to see it shift further. Current entry: $"
  +:+ commaFmt (effPrice e t) (tickDec e) +:+ " (" +:+ match t_side t with buy => "buy" | sell => "sell" end +:+ ").".

Definition ticket_rows (e : TicketEnv) (t : Ticket) : list RowView :=
  [Row "Order value" (dollar_row (notional e t)) false None None;
   Row "Margin required" (dollar_row (margin e t)) false (if insufficient e t then Some hl_short else None) None;
   Row "Est. fee" (dollar_row (fee e t)) true None None;
   Row ("Liquidation @ " +:+ num_toString (t_leverage t) +:+ "x")
     (match liqEst e t with Some l => "$" +:+ commaFmt l (tickDec e) | None => dash end) false
     (match liqEst e t with Some _ => Some hl_warn | None => None end) (Some (liq_help e t));
   Row "Free collateral" (match free e with Some f => "$" +:+ commaFmt f 2 | None => dash end) true None None].

(** The button at the bottom connects a wallet or submits. *)
Inductive BottomButton :=
| connect_button (b : ButtonView) (caption : string)
| submit_button (b : ButtonView) (caption : string).

Definition bottom_button (e : TicketEnv) (t : Ticket) (connecting : bool) : BottomButton :=
  if negb (te_connected e)
  then connect_button (Button (Some v_primary) (Some s_lg) connecting true false None) "Connect wallet to trade"
  else submit_button (Button (Some (match t_side t with buy => v_long | sell => v_short end)) (Some s_lg)
                        (te_placePending e) true (negb (canSubmit e t)) None) (submit_caption e t).

Record TicketView := mkTicketView {
  tv_sides : SideView * SideView;
  tv_types : string * list TabView;
  tv_price : option (InputView * string);
  tv_size : InputView * string;
  tv_quick : list (Z * string);
  tv_leverage : string;
  tv_slider : Z * Z * number * string;
  tv_presets : list (Z * string);
  tv_toggles : ToggleView * ToggleView;
  tv_tif : option (list (string * string) * string);
  tv_rows : list RowView;
  tv_button : BottomButton;
}.

(** A field with its value. *)
Definition field (label suffix value : string) : InputView * string :=
  (Input (Some label) (Some suffix) None None None None None None true, value).

Definition OrderForm (e : TicketEnv) (t : Ticket) (connecting : bool) : TicketView :=
  mkTicketView
    (SideButton buy (bool_decide (t_side t = buy)), SideButton sell (bool_decide (t_side t = sell)))
    (Tabs tv_segmented false None (type_value (t_type t)) [mkTabItem "market" "Market" None; mkTabItem "limit" "Limit" None])
    (if bool_decide (t_type t = limit) then Some (field "Price" "USD" (t_priceInput t)) else None)
    (field "Size" (match te_market e with Some m => mk_base m | None => "" end) (t_qtyInput t))
    quick_captions (num_toString (t_leverage t))
    (1, max_leverage (te_market e), t_leverage t, slider_background e t)
    (map (fun l => (l, preset_class t l)) (leverage_buttons (te_market e)))
    (Toggle "Reduce only" "Order can only shrink your existing position, never flip or grow it." (t_reduceOnly t) false,
     Toggle "Post only" "Cancel if this order would take liquidity (always rest as maker)." (t_postOnly t)
       (bool_decide (t_type t = market)))
    (if bool_decide (t_type t = limit)
     then Some (map (fun f => (tif_text f, tif_class t f)) [gtc; ioc; fok], TIF_HELP (t_tif t)) else None)
    (ticket_rows e t) (bottom_button e t connecting).

(** ** Actions on the controls *)

Inductive TicketEvent :=
| on_side (s : Side)
| on_type (ty : OrderType)
| on_price (s : string)
| on_size (s : string)
| on_quick (pct : Z)
| on_slider (n : Z)
| on_preset (l : Z)
| on_reduceOnly (b : bool)
| on_postOnly (b : bool)
| on_tif (f : TimeInForce)
| on_rendered
| on_order_filled.

(** Which actions the rendered form offers.  A range input only reports whole
    steps between its bounds. *)
Definition offered (e : TicketEnv) (t : Ticket) (ev : TicketEvent) : bool :=
  match ev with
  | on_price _ | on_tif _ => bool_decide (t_type t = limit)
  | on_quick pct => bool_decide (pct ∈ [25; 50; 75; 100])
  | on_slider n => (1 <=? n) && (n <=? max_leverage (te_market e))
  | on_preset l => bool_decide (l ∈ leverage_buttons (te_market e))
  | on_postOnly _ => negb (bool_decide (t_type t = market))
  | _ => true
  end.

(** [on_rendered] runs the prefill effect; [on_order_filled] is the reset of
    the size after an accepted order. *)
Definition ticket_act (e : TicketEnv) (t : Ticket) (ev : TicketEvent) : Ticket :=
  match ev with
  | on_side s => setSide s t
  | on_type ty => setType ty t
  | on_price s => setPriceInput s t
  | on_size s => setQtyInput s t
  | on_quick pct => quick_size e t pct
  | on_slider n => setLeverage (num_of_Z n) t
  | on_preset l => setLeverage (num_of_Z l) t
  | on_reduceOnly b => setReduceOnly b t
  | on_postOnly b => setPostOnly b t
  | on_tif f => setTif f t
  | on_rendered => prefill_effect e t
  | on_order_filled => setQtyInput "" t
  end.

Definition ticket_step (t : Ticket) (i : TicketEnv * TicketEvent) : Ticket :=
  let '(e, ev) := i in if offered e t ev then ticket_act e t ev else t.

Definition ticket_run (evs : list (TicketEnv * TicketEvent)) : Ticket := foldl ticket_step new_ticket evs.

(** ** Properties *)

(** The largest leverage any market shown so far allowed; a new ticket starts
    at two. *)
Definition leverage_cap (evs : list (TicketEnv * TicketEvent)) : Z :=
  foldr Z.max 2 (map (fun i => max_leverage (te_market i.1)) evs).

Lemma leverage_cap_snoc evs i : leverage_cap (evs ++ [i]) = Z.max (leverage_cap evs) (max_leverage (te_market i.1)).
Proof.
  unfold leverage_cap. rewrite map_app. cbn [map]. induction (map _ evs) as [|z zs IH]; cbn; [lia|]. rewrite IH. lia.
Qed.

Lemma leverage_buttons_range mkt l : l ∈ leverage_buttons mkt -> 1 <= l <= max_leverage mkt.
Proof.
  unfold leverage_buttons, max_leverage. intros Hl. apply list_elem_of_In, filter_In in Hl as [Hin Hle].
  apply Z.leb_le in Hle. split; [|exact Hle]. unfold LEVERAGE_PRESETS in Hin. cbn in Hin. lia.
Qed.

(** Only the slider and the presets touch the leverage. *)
Lemma act_leverage e t ev : offered e t ev = true ->
  t_leverage (ticket_act e t ev) = t_leverage t \/
  exists n, 1 <= n <= max_leverage (te_market e) /\ t_leverage (ticket_act e t ev) = num_of_Z n.
Proof.
  destruct ev; cbn [offered ticket_act]; intros Ho; try by left.
  - left. unfold quick_size. destruct (free e); [|done]. by destruct (_ || _).
  - right. exists n. apply andb_true_iff in Ho as [H1 H2]. apply Z.leb_le in H1, H2. done.
  - right. exists l. split; [|done]. apply leverage_buttons_range. by apply bool_decide_eq_true in Ho.
  - left. unfold prefill_effect. destruct (t_type t), (t_lastType t) as [[]|], (markPx e); done.
Qed.

Lemma num_of_Z_positive n : 0 < n -> SFltb num_zero (num_of_Z n) = true.
Proof.
  intros Hn. unfold SFltb, num_of_Z. change num_zero with (S754_zero false).
  rewrite binary_normalize_sign by done. by rewrite (proj2 (Z.compare_lt_iff 0 n)).
Qed.


(** What the submit button says is what it sends: when the button is
    enabled and pressing it sends an order, its caption names the side of the
    order and the market's base asset, the order has the ticket's market, type,
    time in force and flags, the size field rounded to the lot, the typed
    price on a limit order, a positive typed size, and, if the free collateral
    is known, a margin it covers. *)
Theorem ticket_sends_what_it_shows keccak256 toHex parseUnits sign place e t now rnd36 connecting b caption r :
  bottom_button e t connecting = submit_button b caption -> bn_disabled b = false ->
  tr_request (onSubmit keccak256 toHex parseUnits sign place e t now rnd36) = Some r ->
  exists m, te_market e = Some m /\
    caption = direction (or_side r) +:+ " " +:+ mk_base m /\ or_marketId r = te_marketId e /\
    or_side r = t_side t /\ or_type r = t_type t /\ or_timeInForce r = t_tif t /\
    or_reduceOnly r = t_reduceOnly t /\ or_postOnly r = t_postOnly t /\
    or_qty r = toFixed (qty t) (lotDec e) /\ (t_type t = limit -> or_price r = t_priceInput t) /\
    SFltb num_zero (qty t) = true /\ (forall f, free e = Some f -> SFltb f (margin e t) = false).
Proof.
  unfold bottom_button. destruct (te_connected e) eqn:Hc; [|discriminate]. cbn [negb]. intros [= <- <-].
  cbn [Button bn_disabled]. intros Hd Hr. apply orb_false_iff in Hd as [Hs Hp]. apply negb_false_iff in Hs.
  unfold canSubmit in Hs. rewrite !andb_true_iff in Hs. destruct Hs as [[[[[_ _] Hq] _] Hi] _].
  apply negb_true_iff in Hi. unfold submit_caption. rewrite Hi.
  revert Hr. unfold onSubmit. destruct (te_market e) as [m|]; [|done]. destruct (te_address e) as [a|]; [|done].
  destruct (negb (str_truthy a)); [done|]. cbv zeta.
  destruct (sign_order _ _ _ _ _ _) as [[sg|msg] signed]; [|done].
  destruct (place _); cbn [tr_request]; intros [= <-]; exists m; cbn; repeat split; try done; try (by intros ->);
    intros f Hf; unfold insufficient in Hi; by rewrite Hf in Hi.
Qed.

Lemma ticket_sends_what_it_shows_witness :
  let t := setQtyInput "0.001" new_ticket in
  exists m, te_market btc_env = Some m /\ "Long BTC" = direction buy +:+ " " +:+ mk_base m /\
    "0.0010" = toFixed (qty t) (lotDec btc_env) /\ forall f, free btc_env = Some f -> SFltb f (margin btc_env t) = false.
Proof.
  destruct (ticket_sends_what_it_shows (fun s => s) (fun s => s) (fun _ _ => Ok 0) (fun _ _ => Failed None)
    (fun _ => Failed None) btc_env (setQtyInput "0.001" new_ticket) 5 "0.abcdefghijkl" false
    (Button (Some v_long) (Some s_lg) false true false None) "Long BTC"
    (mkOrderRequest "btc-usd" buy market "60000.00" "0.0010" gtc false false "cli_abcdefghij" "5000000" "0x0000"))
    as (m & H1 & H2 & _ & _ & _ & _ & _ & _ & H3 & _ & _ & H4); [vm_compute; reflexivity..|].
  exists m. repeat split; assumption.
Defined.

(** The bound is over every market shown so far: a leverage chosen before the
    market's own, lower maximum is known is kept when it loads. *)
Lemma leverage_survives_lower_maximum :
  let small := mkMarket "sol-usd" "SOL" "USD" true "0.01" "0.01" 10 1000 500 100 5 (-2) 28800 "200000000000000000000" None None None None in
  let loading := mkTicketEnv "sol-usd" None None None None true (Some "0xabc") None false in
  let loaded := mkTicketEnv "sol-usd" (Some small) None None None true (Some "0xabc") None false in
  let t := ticket_run [(loading, on_preset 20); (loaded, on_rendered)] in
  t_leverage t = num_of_Z 20 /\ max_leverage (te_market loaded) = 10 /\
  map fst (tv_presets (OrderForm loaded t false)) = [1; 2; 5; 10].
Proof. vm_compute. repeat split. Qed.
