(* ===== verification/LayoutView.v ===== *)
(** * The trading screen's layout ([web/components/trade/TradeLayout.tsx])

    Which widgets are mounted, and what mounting and unmounting them does to
    the shared WebSocket client.  The desktop grid is always in the page (it is
    hidden by style only); the mobile pane mounts the widgets of the selected
    tab.  A widget mounts its live hooks, each with a listener of its own; when
    the tab changes, the hooks of the old pane clean up before those of the new
    pane start. *)
From S2P Require Import Prelude JsNum JsText JsColl Contract Format UiStore Browser WsClient WsClientFacts LiveBook Shell.
#[local] Open Scope Z_scope.

Inductive MobileTab := tab_chart | tab_book | tab_form | tab_position.
#[global] Instance MobileTab_eq_dec : EqDecision MobileTab.
Proof. solve_decision. Defined.

Definition tab_value (t : MobileTab) : string :=
  match t with tab_chart => "chart" | tab_book => "book" | tab_form => "form" | tab_position => "position" end.

Definition mobile_tabs (t : MobileTab) : string * list TabView :=
  Tabs tv_segmented false None (tab_value t)
    [mkTabItem "chart" "Chart" None; mkTabItem "book" "Book" None;
     mkTabItem "form" "Trade" None; mkTabItem "position" "Position" None].

Inductive Widget := MarketHeader_ | PriceChart_ | Orderbook_ | TradeTape_ | OrderForm_ | PositionPanel_.

(** The channels of a widget's live hooks, in the order of their effects. *)
Definition widget_channels (m : MarketId) (c : Widget) : list string :=
  match c with
  | MarketHeader_ => [oracle_channel m; funding_channel m]
  | PriceChart_ | OrderForm_ => [oracle_channel m]
  | Orderbook_ => [book_channel m]
  | TradeTape_ => [trades_channel m]
  | PositionPanel_ => []
  end.

Definition desktop_widgets : list Widget :=
  [MarketHeader_; PriceChart_; Orderbook_; TradeTape_; OrderForm_; PositionPanel_].

Definition mobile_widgets (t : MobileTab) : list Widget :=
  match t with
  | tab_chart => [PriceChart_]
  | tab_book => [Orderbook_; TradeTape_]
  | tab_form => [OrderForm_]
  | tab_position => [PositionPanel_]
  end.

(** The mobile pane's hooks as channel and listener; [ly_next] is the next
    listener to be created. *)
Record Layout := mkLayout { ly_tab : MobileTab; ly_pane : list (string * nat); ly_next : nat; ly_world : World }.

Definition hooks_of (m : MarketId) (next : nat) (cs : list Widget) : list (string * nat) :=
  let chs := concat (map (widget_channels m) cs) in zip chs (seq next (length chs)).

Section layout.
Context (rnd : nat -> number) (url_ok : bool).

Definition start_hooks (hs : list (string * nat)) (w : World) : World :=
  foldl (fun w '(ch, l) => run_calls rnd url_ok (effect_calls ch l) w) w hs.

Definition stop_hooks (hs : list (string * nat)) (w : World) : World :=
  foldl (fun w '(ch, l) => run_calls rnd url_ok (cleanup_calls ch l) w) w hs.

Definition layout_mount (m : MarketId) (next : nat) (w : World) : Layout :=
  let desk := hooks_of m next desktop_widgets in
  let pane := hooks_of m (next + length desk) (mobile_widgets tab_chart) in
  mkLayout tab_chart pane (next + length desk + length pane) (start_hooks pane (start_hooks desk w)).

Definition setMobileTab (m : MarketId) (l : Layout) (t : MobileTab) : Layout :=
  if bool_decide (t = ly_tab l) then l else
  let pane := hooks_of m (ly_next l) (mobile_widgets t) in
  mkLayout t pane (ly_next l + length pane) (start_hooks pane (stop_hooks (ly_pane l) (ly_world l))).

(** The screen after a sequence of tab presses. *)
Definition layout_run (m : MarketId) (next : nat) (w : World) (ts : list MobileTab) : Layout :=
  foldl (setMobileTab m) (layout_mount m next w) ts.

(** ** Subscriptions and listeners *)

Lemma send_keeps_client m w : c_subs (w_client (send m w)) = c_subs (w_client w) /\ c_listeners (w_client (send m w)) = c_listeners (w_client w).
Proof. unfold send. destruct (c_ws (w_client w)) as [i|]; [|done]. by case_bool_decide. Qed.

Lemma subscribe_subs ch w x : x ∈ c_subs (w_client (subscribe ch w)) <-> x = ch \/ x ∈ c_subs (w_client w).
Proof.
  unfold subscribe, js_has. case_bool_decide as E; [naive_solver|].
  rewrite (proj1 (send_keeps_client _ _)). cbn. apply elem_of_js_add.
Qed.

Lemma unsubscribe_subs ch w x : x ∈ c_subs (w_client (unsubscribe ch w)) <-> x <> ch /\ x ∈ c_subs (w_client w).
Proof.
  unfold unsubscribe, js_has. case_bool_decide as E; cbn [negb]; [|naive_solver].
  rewrite (proj1 (send_keeps_client _ _)). cbn. rewrite elem_of_js_del. naive_solver.
Qed.

Lemma subscribe_listeners ch w : c_listeners (w_client (subscribe ch w)) = c_listeners (w_client w).
Proof. unfold subscribe. destruct (js_has _ _); [done|]. by rewrite (proj2 (send_keeps_client _ _)). Qed.

Lemma unsubscribe_listeners ch w : c_listeners (w_client (unsubscribe ch w)) = c_listeners (w_client w).
Proof. unfold unsubscribe. destruct (negb _); [done|]. by rewrite (proj2 (send_keeps_client _ _)). Qed.

Lemma start_subs hs w x : x ∈ c_subs (w_client (start_hooks hs w)) <-> x ∈ map fst hs \/ x ∈ c_subs (w_client w).
Proof.
  unfold start_hooks. revert w. induction hs as [|[ch l] hs IH]; intros w; cbn [foldl map fst]; [set_solver|].
  rewrite IH. cbn. rewrite subscribe_subs. cbn. set_solver.
Qed.

Lemma stop_subs hs w x : x ∈ c_subs (w_client (stop_hooks hs w)) <-> x ∉ map fst hs /\ x ∈ c_subs (w_client w).
Proof.
  unfold stop_hooks. revert w. induction hs as [|[ch l] hs IH]; intros w; cbn [foldl map fst]; [set_solver|].
  rewrite IH. cbn. rewrite unsubscribe_subs. set_solver.
Qed.

Lemma start_listeners hs w x : x ∈ c_listeners (w_client (start_hooks hs w)) <-> x ∈ map snd hs \/ x ∈ c_listeners (w_client w).
Proof.
  unfold start_hooks. revert w. induction hs as [|[ch l] hs IH]; intros w; cbn [foldl map snd]; [set_solver|].
  rewrite IH. cbn. rewrite subscribe_listeners. cbn. rewrite elem_of_js_add. set_solver.
Qed.

Lemma stop_listeners hs w x : x ∈ c_listeners (w_client (stop_hooks hs w)) <-> x ∉ map snd hs /\ x ∈ c_listeners (w_client w).
Proof.
  unfold stop_hooks. revert w. induction hs as [|[ch l] hs IH]; intros w; cbn [foldl map snd]; [set_solver|].
  rewrite IH. cbn. rewrite elem_of_js_del, unsubscribe_listeners. set_solver.
Qed.

Lemma zip_seq_fst {A} (chs : list A) n : map fst (zip chs (seq n (length chs))) = chs.
Proof. revert n. induction chs as [|c chs IH]; intros n; cbn; [done|]. by rewrite IH. Qed.

Lemma hooks_fst m next cs : map fst (hooks_of m next cs) = concat (map (widget_channels m) cs).
Proof. apply zip_seq_fst. Qed.

Lemma hooks_snd m next cs x : x ∈ map snd (hooks_of m next cs) -> (next <= x)%nat.
Proof.
  unfold hooks_of. intros Hx. apply list_elem_of_fmap in Hx as ([ch l] & -> & Hin).
  apply elem_of_zip_r in Hin. apply elem_of_seq in Hin. cbn. lia.
Qed.

(** The state between two presses: the pane's hooks are those of its tab, with
    listeners younger than the header's first one. *)
Record pane_ok (m : MarketId) (next : nat) (l : Layout) : Prop := {
  po_hooks : map fst (ly_pane l) = concat (map (widget_channels m) (mobile_widgets (ly_tab l)));
  po_young : forall x, x ∈ map snd (ly_pane l) -> (next < x)%nat;
  po_next : (next < ly_next l)%nat;
  po_header : next ∈ c_listeners (w_client (ly_world l));
  po_oracle : oracle_channel m ∈ c_subs (w_client (ly_world l)) <-> ly_tab l ∈ [tab_chart; tab_form];
  po_funding : funding_channel m ∈ c_subs (w_client (ly_world l));
}.

(** The pane's channels: the oracle's on two tabs, the funding's on none. *)
Lemma pane_channels m t : (oracle_channel m ∈ concat (map (widget_channels m) (mobile_widgets t)) <-> t ∈ [tab_chart; tab_form]) /\
  funding_channel m ∉ concat (map (widget_channels m) (mobile_widgets t)).
Proof.
  assert (D : oracle_channel m <> book_channel m /\ oracle_channel m <> trades_channel m /\ funding_channel m <> oracle_channel m /\
    funding_channel m <> book_channel m /\ funding_channel m <> trades_channel m) by (repeat split; discriminate).
  destruct t; cbn; set_solver.
Qed.

Lemma mount_pane_ok m next w : pane_ok m next (layout_mount m next w).
Proof.
  assert (Hh : (oracle_channel m, next) ∈ hooks_of m next desktop_widgets /\ funding_channel m ∈ map fst (hooks_of m next desktop_widgets)).
  { cbn. set_solver. }
  destruct Hh as [Ho Hf]. constructor; cbn [layout_mount ly_pane ly_tab ly_next ly_world].
  - apply hooks_fst.
  - intros x Hx. apply hooks_snd in Hx. cbn in Hx. lia.
  - cbn. lia.
  - rewrite !start_listeners. right; left. apply list_elem_of_fmap. by exists (oracle_channel m, next).
  - rewrite !start_subs. split; [by left|]. intros _. left. cbn. by left.
  - rewrite !start_subs. auto.
Qed.

Lemma press_pane_ok m next l t : pane_ok m next l -> pane_ok m next (setMobileTab m l t).
Proof.
  intros [Hh Hy Hn Hl Ho Hf]. unfold setMobileTab. case_bool_decide as E; [by constructor|].
  destruct (pane_channels m t) as [Ct Ft]. destruct (pane_channels m (ly_tab l)) as [Cl Fl].
  constructor; cbn [ly_pane ly_tab ly_next ly_world].
  - apply hooks_fst.
  - intros x Hx. apply hooks_snd in Hx. lia.
  - lia.
  - rewrite start_listeners, stop_listeners. right. split; [|done]. intros Hx. apply Hy in Hx. lia.
  - rewrite start_subs, stop_subs, hooks_fst, Hh, Ct. tauto.
  - rewrite start_subs, stop_subs, hooks_fst, Hh. tauto.
Qed.

(** The market header is on screen on every tab and shows the oracle
    price, but its oracle channel is subscribed exactly while the Chart or the
    Trade tab is selected: leaving such a tab for Book or Position
    unsubscribes the channel the header still listens on, whatever was pressed
    before.  Its funding channel, which no pane uses, stays subscribed. *)
Theorem header_price_follows_tab (m : MarketId) (next : nat) (w : World) (ts : list MobileTab) :
  let l := layout_run m next w ts in
  next ∈ c_listeners (w_client (ly_world l)) /\
  (oracle_channel m ∈ c_subs (w_client (ly_world l)) <-> ly_tab l = tab_chart \/ ly_tab l = tab_form) /\
  funding_channel m ∈ c_subs (w_client (ly_world l)).
Proof.
  assert (H : pane_ok m next (layout_run m next w ts)).
  { unfold layout_run. induction ts as [|t ts IH] using rev_ind; [apply mount_pane_ok|].
    rewrite foldl_app. by apply press_pane_ok. }
  cbn zeta. destruct H as [_ _ _ Hl Ho Hf]. split; [done|]. split; [|done]. rewrite Ho. set_solver.
Qed.

End layout.
