(* ===== verification/ToastView.v ===== *)
(** * Toasts on screen ([web/components/common/ToastViewport.tsx])

    The viewport's timers as a machine over the store: pushing or dismissing a
    toast changes the list, which re-runs the effect, which cancels every timer
    and starts a new one of 4.5 s for each toast left; the effect has run before
    the next timer fires.  [tick] lets time pass and fires what becomes due. *)
From S2P Require Import Prelude JsNum JsText JsColl Contract Format UiStore Pages Session Shell.
#[local] Open Scope Z_scope.

Definition kindCls (k : ToastKind) : string :=
  match k with
  | kind_info => "border-border bg-bg-2 text-fg"
  | kind_success => "border-[var(--long-strong)] bg-long-soft text-fg"
  | kind_warn => "border-[var(--warn)] bg-warn-soft text-fg"
  | kind_error => "border-[var(--short-strong)] bg-short-soft text-fg"
  end.

#[global] Instance ToastKind_eq_dec : EqDecision ToastKind.
Proof. solve_decision. Defined.

Record ToastView := mkToastView { tw_id : string; tw_class : string; tw_dot : string; tw_title : string; tw_body : option string }.

Definition toast_view (t : Toast) : ToastView :=
  let is_kind k := bool_decide (to_kind t = k) in
  mkToastView (to_id t)
    (cn [Some "border rounded-[var(--radius-md)] px-3 py-2.5 shadow-[var(--shadow-elev-2)] flex items-start gap-2 animate-[fadeIn_180ms_ease-out]";
         Some (kindCls (to_kind t))])
    (cn [Some "mt-1 size-1.5 rounded-full shrink-0"; when (is_kind kind_success) "bg-long"; when (is_kind kind_error) "bg-short";
         when (is_kind kind_warn) "bg-warn"; when (is_kind kind_info) "bg-accent"])
    (to_title t) (shown (to_body t)).

Definition ToastViewport (u : UiState) : list ToastView := map toast_view (ui_toasts u).

(** ** The timers *)

Record Viewport := mkViewport { vp_ui : UiState; vp_timers : list (Z * string); vp_now : Z }.

(** The effect after the list changed. *)
Definition viewport_effect (v : Viewport) : Viewport :=
  mkViewport (vp_ui v) (toast_timers (vp_now v) (ui_toasts (vp_ui v))) (vp_now v).

(** Time passes up to [target]: the first timer that is due by then fires at
    its due time, and its dismissal re-runs the effect. *)
Fixpoint tick (fuel : nat) (target : Z) (v : Viewport) : Viewport :=
  match fuel with
  | O => v
  | S fuel =>
      match find (fun t => t.1 <=? target) (vp_timers v) with
      | Some (due, id) => tick fuel target (viewport_effect (mkViewport (dismissToast id (vp_ui v)) (vp_timers v) due))
      | None => mkViewport (vp_ui v) (vp_timers v) target
      end
  end.

Inductive ViewportEvent :=
| vp_push (st : Stamp) (k : ToastKind) (title : string) (body : option string)
| vp_dismiss (id : string)
| vp_wait (ms : N).

(** One timer per toast: waiting needs no more firings than there are toasts. *)
Definition viewport_step (v : Viewport) (e : ViewportEvent) : Viewport :=
  match e with
  | vp_push st k title body => viewport_effect (mkViewport (pushToast st k title body (vp_ui v)) (vp_timers v) (vp_now v))
  | vp_dismiss id =>
      if bool_decide (id ∈ map to_id (ui_toasts (vp_ui v)))
      then viewport_effect (mkViewport (dismissToast id (vp_ui v)) (vp_timers v) (vp_now v)) else v
  | vp_wait ms => tick (S (length (ui_toasts (vp_ui v)))) (vp_now v + Z.of_N ms) v
  end.

Definition viewport_run (v : Viewport) (es : list ViewportEvent) : Viewport := foldl viewport_step v es.

(** ** How long toasts stay *)

Definition set_timers_at (d : Z) (toasts : list Toast) : list (Z * string) := map (fun t => (d, to_id t)) toasts.

(** All timers share one due time, at most 4.5 s ahead and not past. *)
Definition viewport_ok (v : Viewport) : Prop :=
  exists d, vp_timers v = set_timers_at d (ui_toasts (vp_ui v)) /\ vp_now v < d <= vp_now v + TOAST_MS.

Lemma effect_ok u ts now : viewport_ok (viewport_effect (mkViewport u ts now)).
Proof. exists (now + TOAST_MS). unfold TOAST_MS. cbn. split; [done|lia]. Qed.

Lemma find_timer d target toasts :
  find (fun t : Z * string => t.1 <=? target) (set_timers_at d toasts) =
  match toasts with t :: _ => if d <=? target then Some (d, to_id t) else None | [] => None end.
Proof.
  destruct toasts as [|t ts]; [done|]. cbn. destruct (d <=? target) eqn:E; [done|].
  induction ts as [|t' ts IH]; cbn; [done|]. by rewrite E.
Qed.

Lemma dismiss_shorter t ts : (length (List.filter (fun x => negb (String.eqb (to_id x) (to_id t))) (t :: ts)) <= length ts)%nat.
Proof. cbn. rewrite String.eqb_refl. cbn. apply filter_length_le. Qed.

Lemma tick_ok fuel target v : viewport_ok v -> vp_now v <= target -> (length (ui_toasts (vp_ui v)) < fuel)%nat ->
  viewport_ok (tick fuel target v) /\ vp_now (tick fuel target v) = target.
Proof.
  revert v. induction fuel as [|fuel IH]; intros v (d & Ht & Hd) Hn Hf; [lia|]. cbn [tick].
  rewrite Ht, find_timer. destruct (ui_toasts (vp_ui v)) as [|t ts] eqn:Eu.
  - split; [|done]. exists (target + TOAST_MS). unfold TOAST_MS. cbn. rewrite Eu. split; [done|lia].
  - destruct (d <=? target) eqn:E; bool_to_prop.
    + apply IH; [apply effect_ok|done|]. cbn [vp_ui viewport_effect dismissToast ui_toasts]. rewrite Eu.
      pose proof (dismiss_shorter t ts). cbn [length] in Hf. lia.
    + split; [|done]. exists d. cbn [vp_timers vp_ui vp_now]. rewrite Eu. split; [done|lia].
Qed.

Lemma viewport_step_ok v e : viewport_ok v -> viewport_ok (viewport_step v e).
Proof.
  intros Hv. destruct e as [st k title body|id|ms]; cbn [viewport_step].
  - apply effect_ok.
  - case_bool_decide; [apply effect_ok|done].
  - apply tick_ok; [done|lia|lia].
Qed.

Lemma viewport_run_ok v es : viewport_ok v -> viewport_ok (viewport_run v es).
Proof. unfold viewport_run. revert v. induction es as [|e es IH]; intros v Hv; [done|]. cbn. by apply IH, viewport_step_ok. Qed.

(** How many of the timers fire by [target] when the first is due at [d]. *)
Definition fired (d target : Z) : nat := if target <? d then 0 else Z.to_nat (1 + (target - d) / TOAST_MS).

Lemma fired_next d target : d <= target -> fired d target = S (fired (d + TOAST_MS) target).
Proof.
  intros H. unfold fired, TOAST_MS. destruct (Z.ltb_spec target d); [lia|].
  destruct (Z.ltb_spec target (d + 4500)).
  - by rewrite Z.div_small by lia.
  - replace (target - d) with (target - (d + 4500) + 1 * 4500) by lia. rewrite Z.div_add by lia.
    pose proof (Z.div_pos (target - (d + 4500)) 4500). lia.
Qed.

Lemma tick_drops fuel target v d : vp_timers v = set_timers_at d (ui_toasts (vp_ui v)) ->
  NoDup (map to_id (ui_toasts (vp_ui v))) -> (length (ui_toasts (vp_ui v)) < fuel)%nat ->
  ui_toasts (vp_ui (tick fuel target v)) = drop (fired d target) (ui_toasts (vp_ui v)).
Proof.
  revert v d. induction fuel as [|fuel IH]; intros v d Ht Hn Hf; [lia|]. cbn [tick]. rewrite Ht, find_timer.
  destruct (ui_toasts (vp_ui v)) as [|t ts] eqn:Eu; [cbn; by rewrite Eu, drop_nil|].
  destruct (d <=? target) eqn:E; bool_to_prop.
  - cbn [map] in Hn. apply NoDup_cons in Hn as [Hnot Hn].
    set (v' := viewport_effect _).
    assert (Ev : ui_toasts (vp_ui v') = ts).
    { cbn [v' viewport_effect vp_ui dismissToast ui_toasts]. rewrite Eu. cbn. rewrite String.eqb_refl. cbn.
      apply forallb_filter_id, forallb_forall. intros x Hx. apply negb_true_iff, String.eqb_neq. intros Heq.
      apply Hnot. rewrite <- Heq. apply list_elem_of_fmap. exists x. split; [done|]. by apply list_elem_of_In. }
    rewrite fired_next by done. cbn [drop]. rewrite <- Ev. apply (IH v' (d + TOAST_MS)).
    + rewrite Ev. cbn [v' viewport_effect vp_timers vp_ui vp_now]. by rewrite <- Ev.
    + by rewrite Ev.
    + rewrite Ev. cbn [length] in Hf. lia.
  - cbn [vp_ui]. rewrite Eu. unfold fired. destruct (Z.ltb_spec target d); [done|lia].
Qed.

(** Toasts leave the screen oldest first and one at a time, 4.5 seconds
    apart.  In every state that pushes, clicks and waiting lead to, with
    distinct toast ids, there is an instant within the next 4.5 seconds at
    which the oldest toast goes, and while nothing is pushed or clicked each
    further one goes 4.5 seconds after the one before; so n toasts are all
    gone after n times 4.5 seconds, and not sooner than that from the last
    change on. *)
Theorem toasts_leave_one_by_one (now : Z) (es : list ViewportEvent) :
  let v := viewport_run (mkViewport initial_ui [] now) es in
  let toasts := ui_toasts (vp_ui v) in
  NoDup (map to_id toasts) ->
  exists d, vp_now v < d <= vp_now v + TOAST_MS /\
    (forall ms, ui_toasts (vp_ui (viewport_step v (vp_wait ms))) = drop (fired d (vp_now v + Z.of_N ms)) toasts) /\
    (forall ms, TOAST_MS * Z.of_nat (length toasts) <= Z.of_N ms -> ui_toasts (vp_ui (viewport_step v (vp_wait ms))) = []).
Proof.
  intros v toasts Hn. destruct (viewport_run_ok (mkViewport initial_ui [] now) es) as (d & Ht & Hd).
  { exists (now + TOAST_MS). unfold TOAST_MS. cbn. split; [done|lia]. }
  fold v in Ht, Hd.
  assert (Hs : forall ms, ui_toasts (vp_ui (viewport_step v (vp_wait ms))) = drop (fired d (vp_now v + Z.of_N ms)) toasts).
  { intros ms. cbn [viewport_step]. apply tick_drops; [done|done|unfold toasts; lia]. }
  exists d. split; [done|]. split; [done|]. intros ms Hms. rewrite Hs. apply drop_ge.
  unfold fired. unfold TOAST_MS in *. destruct (Z.ltb_spec (vp_now v + Z.of_N ms) d).
  - destruct toasts; [done|]. cbn [length] in Hms. lia.
  - assert (Hq : Z.of_nat (length toasts) - 1 <= (vp_now v + Z.of_N ms - d) / 4500) by (apply Z.div_le_lower_bound; lia). lia.
Qed.

(** Two toasts at once: the second is still there nine tenths of a second
    before the ninth second, and gone after it. *)
Definition two_toasts : list ViewportEvent :=
  [vp_push (mkStamp 0 "0.aaaaaaa") kind_info "Long BTC accepted" None;
   vp_push (mkStamp 0 "0.bbbbbbb") kind_success "Position opened" None].

Lemma toasts_leave_one_by_one_witness :
  let v := viewport_run (mkViewport initial_ui [] 0) two_toasts in
  (exists d, vp_now v < d <= vp_now v + TOAST_MS) /\
  map to_title (ui_toasts (vp_ui (viewport_step v (vp_wait 8100)))) = ["Position opened"] /\
  ui_toasts (vp_ui (viewport_step v (vp_wait 9000))) = [].
Proof.
  destruct (toasts_leave_one_by_one 0 two_toasts) as (d & Hd & _ & Hend).
  { apply (bool_decide_unpack _). vm_compute. reflexivity. }
  split; [by exists d|]. split; [vm_compute; reflexivity|]. apply Hend. vm_compute. discriminate.
Defined.
