(* ===== verification/PanelViews.v ===== *)
(** * The panels of the trading screen, as rendered

    [PositionPanel.tsx] with its three tables and the close buttons,
    [MarketHeader.tsx], [TradeTape.tsx], [MarketSwitcher.tsx] and
    [EmptyState.tsx]: what each shows, built from the figures [TradePanels]
    computes.  A cell is its class and its spans.  A time stamp that cannot be
    read makes the rendering throw, so tables with times are results. *)
From S2P Require Import Prelude JsNum JsText JsColl Contract Format UiStore Pages TradePanels Session Shell.
From Stdlib Require Import SpecFloat Ascii.
#[local] Open Scope Z_scope.

Record EmptyView := mkEmpty { em_class : string; em_title : string; em_description : option string }.

Definition EmptyState (title : string) (description className : option string) (compact : bool) : EmptyView :=
  mkEmpty (cn [Some "flex flex-col items-center justify-center text-center gap-2 grid-dots rounded-[var(--radius-md)]";
               Some (if compact then "p-6" else "p-10"); className]) title (shown description).

(** ** Tables *)

Definition Th (label : string) (right : bool) : string * string :=
  (label, cn [Some "px-3 py-2 font-medium text-[10px] uppercase tracking-wider"; Some (if right then "text-right" else "text-left")]).

(** A cell's class, the class of the badge around its content if there is one,
    and the content. *)
Record Cell := mkCell { cl_class : string; cl_badge : option string; cl_spans : list Span }.

Definition Td (right : bool) (className : option string) (spans : list Span) : Cell :=
  mkCell (cn [Some "px-3 py-2"; Some (if right then "text-right" else "text-left"); className]) None spans.

Definition badge_cell (badge text : string) : Cell :=
  mkCell (cl_class (Td false None [])) (Some badge) [mkSpan text tone_none].

Definition plain (s : string) : Span := mkSpan s tone_none.
Definition text_cell (s : string) : Cell := Td false None [plain s].
Definition num_cell (sp : Span) : Cell := Td true None [sp].

Record TableRow := mkTableRow { rw_key : string; rw_cells : list Cell; rw_button : option (ButtonView * string) }.

(** An empty table shows a placeholder instead. *)
Inductive TableView := empty_table (e : EmptyView) | table (head : list (string * string)) (rows : list TableRow).

Definition table_rows (t : TableView) : list TableRow := match t with empty_table _ => [] | table _ rows => rows end.

Definition usd (v : number) (signed : bool) : Span := NumberDisplay (VNum v) 2 "$" "" signed signed.

(** *** Positions *)

Definition position_head : list (string * string) :=
  [Th "Market" false; Th "Side" false; Th "Size" true; Th "Entry" true; Th "Mark" true; Th "Notional" true; Th "PnL" true;
   Th "Leverage" true; Th "Liq. price" true; Th "Funding" true; Th "" true].

Definition side_badge (s : PositionSide) : string :=
  cn [Some "inline-flex items-center gap-1 px-1.5 h-5 rounded-[var(--radius-xs)] text-[10px] font-semibold";
      Some (match s with long => "bg-long-soft text-long" | short => "bg-short-soft text-short" end)].

Definition position_row (closingId : option MarketId) (p : Position) : TableRow :=
  let '(busy, caption) := close_button closingId p in
  mkTableRow (p_marketId p)
    [text_cell (toUpperCase (replace_first "-"%char "/" (p_marketId p)));
     badge_cell (side_badge (p_side p)) (match p_side p with long => "LONG" | short => "SHORT" end);
     num_cell (NumberDisplay (VStr (p_size p)) 4 "" "" false false);
     num_cell (usd (x18ToDollars (VStr (p_entryPriceX18 p))) false);
     num_cell (usd (x18ToDollars (VStr (p_markPriceX18 p))) false);
     num_cell (usd (usdc6ToDollars (VStr (p_notionalUsdc p))) false);
     num_cell (usd (usdc6ToDollars (VStr (p_unrealisedPnlUsdc p))) true);
     num_cell (plain (toFixed (Number_of_string (p_leverage p)) 1 +:+ "x"));
     Td true (Some "text-warn") [usd (x18ToDollars (VStr (p_liquidationPriceX18 p))) false];
     num_cell (usd (usdc6ToDollars (VStr (p_fundingPaidUsdc p))) true)]
    (Some (Button (Some v_danger) (Some s_sm) false false busy None, caption)).

Definition PositionsTable (closingId : option MarketId) (ps : list Position) : TableView :=
  if (length ps =? 0)%nat
  then empty_table (EmptyState "No open positions" (Some "Place an order to open a long or short position.") None false)
  else table position_head (map (position_row closingId) ps).

(** *** Open orders *)

Section times.
Variables (LocalTime : Z -> Z) (toLocaleString : Z -> string).

Definition order_head : list (string * string) :=
  [Th "Time" false; Th "Market" false; Th "Side" false; Th "Type" false; Th "Price" true; Th "Filled / Size" true;
   Th "Total" true; Th "" true].

Definition order_type_text (t : OrderType) : string := match t with market => "market" | limit => "limit" end.
Definition order_side_class (s : Side) : string := match s with buy => "text-long" | sell => "text-short" end.

(** A row of an order; the optimistic ones are marked and cannot be cancelled. *)
Definition order_row (optimistic : bool) (o : OpenOrder) : result TableRow :=
  let! time := formatTimeOfDay LocalTime (oo_tsNs o) in
  let price := Number_of_string (oo_price o) in
  let qty := Number_of_string (oo_qty o) in
  Ok (mkTableRow (oo_id o)
    [text_cell time; text_cell (toUpperCase (oo_marketId o));
     Td false (Some (order_side_class (oo_side o))) [plain (match oo_side o with buy => "Long" | sell => "Short" end)];
     Td false None (plain (order_type_text (oo_type o)) :: (if optimistic then [plain "syncing…"] else []));
     num_cell (NumberDisplay (VStr (oo_price o)) 2 "" "" false false);
     Td true None [NumberDisplay (VNum (num_sub qty (Number_of_string (oo_remaining o)))) 4 "" "" false false; plain " / ";
                   NumberDisplay (VStr (oo_qty o)) 4 "" "" false false];
     num_cell (usd (num_mul price qty) false)]
    (if optimistic then None else Some (Button (Some v_ghost) (Some s_sm) false false false None, "Cancel"))).

Fixpoint rows_of {A} (f : A -> result TableRow) (l : list A) : result (list TableRow) :=
  match l with
  | [] => Ok []
  | x :: l => let! r := f x in let! rs := rows_of f l in Ok (r :: rs)
  end.

Definition OrdersTable (orders : list OpenOrder) (optimistic : list OptimisticOrder) : result TableView :=
  if (length orders + length optimistic =? 0)%nat
  then Ok (empty_table (EmptyState "No open orders" (Some "Place a limit order to see it here.") None false))
  else
    let! top := rows_of (fun o => order_row true (op_order o)) optimistic in
    let! rest := rows_of (order_row false) orders in
    Ok (table order_head (top ++ rest)).

(** *** Fills *)

Definition fill_head : list (string * string) :=
  [Th "Time" false; Th "Market" false; Th "Side" false; Th "Avg price" true; Th "Size" true; Th "Total" true; Th "Fee" true;
   Th "Role" false].

Definition fill_row (r : @FillRow number) : result TableRow :=
  let! time := formatDateTime toLocaleString (g_tsNs r) in
  Ok (mkTableRow (g_orderId r)
    [text_cell time; text_cell (toUpperCase (g_marketId r));
     Td false (Some (order_side_class (g_side r))) [plain (match g_side r with buy => "Buy" | sell => "Sell" end)];
     num_cell (NumberDisplay (VNum (avg_price r)) 2 "" "" false false);
     Td true None (NumberDisplay (VNum (g_qty r)) 4 "" "" false false ::
                   (if (1 <? g_legs r)%nat then [plain ("(" +:+ bigint_toString (Z.of_nat (g_legs r)) +:+ " fills)")] else []));
     num_cell (usd (g_notional r) false);
     num_cell (usd (usdc6ToDollars (VNum (g_fee r))) false);
     Td false (Some "text-fg-muted") [plain (match g_role r with maker => "maker" | taker => "taker" end)]] None).

Definition FillsTable (fills : list Fill) : result TableView :=
  if (length fills =? 0)%nat
  then Ok (empty_table (EmptyState "No fills yet" (Some "Recent trades will appear here once you trade.") None false))
  else
    let! rows := aggregateFills Number_of_string fills in
    let! trs := rows_of fill_row rows in
    Ok (table fill_head trs).

(** *** The panel *)

Inductive PanelTab := pt_positions | pt_orders | pt_fills.
Definition panel_tab_value (t : PanelTab) : string :=
  match t with pt_positions => "positions" | pt_orders => "orders" | pt_fills => "fills" end.

Definition scope_buttons (scope : Scope) (marketId : option MarketId) : list (string * string) :=
  match shown marketId with
  | None => []
  | Some m =>
      map (fun s =>
        (match s with scope_current => default "" (head (split_char "-"%char m)) | scope_all => "All" end,
         cn [Some "px-2.5 h-6 rounded-full text-[10px] font-medium uppercase tracking-[0.1em] transition-colors";
             Some (match scope, s with
                   | scope_current, scope_current | scope_all, scope_all => "bg-accent-soft text-accent"
                   | _, _ => "text-fg-mid hover:text-fg" end)])) [scope_current; scope_all]
  end.

Record PanelView := mkPanelView { pv_tabs : string * list TabView; pv_scope : list (string * string); pv_table : TableView }.

Definition PositionPanel (tab : PanelTab) (scope : Scope) (marketId : option MarketId) (closingId : option MarketId)
    (positions : option PositionsResponse) (orders : option OpenOrdersResponse) (fills : option FillsResponse)
    (ui : UiState) : result PanelView :=
  let rows := position_panel scope marketId positions orders fills ui in
  let '(nPositions, nOrders, nFills) := pp_counts rows in
  let tabs := Tabs tv_underline false None (panel_tab_value tab)
    [mkTabItem "positions" "Positions" (Some (Z.of_nat nPositions)); mkTabItem "orders" "Open orders" (Some (Z.of_nat nOrders));
     mkTabItem "fills" "Fills" (Some (Z.of_nat nFills))] in
  let! t := match tab with
            | pt_positions => Ok (PositionsTable closingId (pp_positions rows))
            | pt_orders => OrdersTable (pp_orders rows) (pp_optimistic rows)
            | pt_fills => FillsTable (match fills with Some r => fsr_fills r | None => [] end)
            end in
  Ok (mkPanelView tabs (scope_buttons scope marketId) t).

(** ** TradeTape.tsx *)

Definition tickPrecOf (s : string) : nat :=
  let i := indexOf_char "."%char s in if i <? 0 then O else Z.to_nat (strlen s - i - 1).

Record TapeRow := mkTapeRow { tp_id : string; tp_class : string; tp_cells : list string }.

Fixpoint tape_rows (tickDec qtyDec : nat) (ts : list PublicTrade) : result (list TapeRow) :=
  match ts with
  | [] => Ok []
  | t :: ts =>
      let! time := formatTimeOfDay LocalTime (pt_tsNs t) in
      let! rest := tape_rows tickDec qtyDec ts in
      Ok (mkTapeRow (pt_id t) (cn [Some "text-left whitespace-nowrap"; Some (order_side_class (pt_side t))])
            [toFixed (Number_of_string (pt_price t)) tickDec; toFixed (Number_of_string (pt_qty t)) qtyDec; time] :: rest)
  end.

(** The unit of the size column, and the rows; ten bars while there are none. *)
Definition TradeTape (m : option Market) (trades : list PublicTrade) : result (string * (nat + list TapeRow)) :=
  let tickDec := match m with Some m => Nat.max 2 (tickPrecOf (mk_tickSize m)) | None => 2%nat end in
  let qtyDec := match m with Some m => tickPrecOf (mk_lotSize m) | None => 4%nat end in
  let unit := match m with Some m => mk_base m | None => "" end in
  if (length trades =? 0)%nat then Ok (unit, inl 10%nat)
  else let! rows := tape_rows tickDec qtyDec trades in Ok (unit, inr rows).

End times.

(** ** MarketHeader.tsx *)

Record PillView := mkPill { pl_title : string; pl_class : string; pl_dot : string; pl_text : string }.

Definition SourcePill (live : bool) : PillView :=
  mkPill (if live then "Live Pyth Hermes price — updates every ~500ms" else "Static seed price — oracle relayer not running")
    (cn [Some "inline-flex items-center gap-1 px-1.5 h-4 rounded-[var(--radius-xs)] font-mono text-[9px] uppercase tracking-wider border";
         Some (if live then "bg-long-soft text-long border-[color-mix(in_oklab,var(--long),transparent_55%)]"
               else "bg-bg-2 text-fg-muted border-border")])
    (cn [Some "inline-block size-1.5 rounded-full"; Some (if live then "bg-long animate-pulse" else "bg-fg-muted")])
    (if live then "Pyth" else "static").

(** The statistics strip: label and spans; the pill beside the price. *)
Definition MarketHeader (h : HeaderStats) (m : option Market) (nowMs : number) : result (PillView * list (string * list Span)) :=
  let! countdown := formatCountdown (hd_nextFundingTsNs h) nowMs in
  let dec := priceDecimals m in
  let fundingTone := if SFleb num_zero (hd_fundingBps h) then tone_long else tone_short in
  Ok (SourcePill (hd_live h),
    [("Oracle", [NumberDisplay (VNum (hd_cur h)) dec "$" "" false false]);
     ("24h change", [NumberDisplay (VNum (hd_change h)) 2 "" "%" true true; NumberDisplay (VNum (hd_changeAbs h)) dec "" "" true true]);
     ("24h volume", [usd (hd_volume24h h) false]);
     ("Open interest", [usd (hd_openInterest h) false]);
     ("Funding (8h)", [mkSpan (toFixed (num_div (hd_fundingBps h) (num_of_Z 100)) 4 +:+ "%") fundingTone]);
     ("Next funding", [plain countdown]);
     ("Max leverage", [plain (match m with Some m => bigint_toString (mk_maxLeverage m) | None => dash end +:+ "x")])]).

(** ** MarketSwitcher.tsx *)

Definition BASE_LABEL : list (MarketId * string) := [("btc-usd", "BTC"); ("eth-usd", "ETH"); ("sol-usd", "SOL")].
Definition ICON : list (MarketId * string) := [("btc-usd", "#f7931a"); ("eth-usd", "#627eea"); ("sol-usd", "#14f195")].

Definition perp_label (m : MarketId) : string := default "" (jm_get m BASE_LABEL) +:+ "-PERP".

Record SwitcherRow := mkSwitcherRow { sr_market : MarketId; sr_selected : bool; sr_class : string; sr_label : string; sr_price : Span }.

Definition switcher_row (current : MarketId) (oracle : MarketId -> option WsOracle) (m : Market) : SwitcherRow :=
  let selected := String.eqb (mk_id m) current in
  mkSwitcherRow (mk_id m) selected
    (cn [Some "flex items-center justify-between gap-3 h-12 px-2 rounded-[var(--radius-sm)] text-left";
         Some (if selected then "bg-accent-soft" else "hover:bg-bg-hover")])
    (perp_label (mk_id m))
    (NumberDisplay (match oracle (mk_id m) with Some o => VNum (x18ToDollars (VStr (wo_priceX18 o))) | None => VNull end) 2 "$" "" false false).

(** The caption of the button, and the list when it is open. *)
Definition MarketSwitcher (current : MarketId) (open : bool) (data : option MarketsResponse) (oracle : MarketId -> option WsOracle)
  : string * option (list SwitcherRow) :=
  (perp_label current,
   if open then Some (map (switcher_row current oracle) (match data with Some r => mr_markets r | None => [] end)) else None).

Definition MarketBadge (m : MarketId) : string * string :=
  ("radial-gradient(circle at 30% 30%, " +:+ default "undefined" (jm_get m ICON) +:+ "40, transparent 70%), var(--bg-2)",
   default "" (jm_get m BASE_LABEL)).

(** ** Closing positions

    The close button of the positions table while closes are in flight: one
    [closingId] for the whole table, set by a press and cleared when any close
    settles. *)

Record Closing := mkClosing { cg_id : option MarketId; cg_flying : list MarketId }.

Fixpoint remove_first (m : MarketId) (l : list MarketId) : list MarketId :=
  match l with [] => [] | x :: l => if String.eqb x m then l else x :: remove_first m l end.

Inductive ClosingEvent := cg_press (m : MarketId) | cg_settle (m : MarketId).

(** A press needs an enabled button, a close settles once. *)
Definition closing_step (c : Closing) (e : ClosingEvent) : Closing :=
  match e with
  | cg_press m => if bool_decide (cg_id c = Some m) then c else mkClosing (Some m) (m :: cg_flying c)
  | cg_settle m =>
      if bool_decide (m ∈ cg_flying c) then mkClosing None (remove_first m (cg_flying c)) else c
  end.

Definition closing_run (es : list ClosingEvent) : Closing := foldl closing_step (mkClosing None []) es.

(** ** Facts *)

(** A disabled close button belongs to a close in flight, so no button stays
    disabled once every close has settled. *)
Lemma closing_button_recovers es m : cg_id (closing_run es) = Some m -> m ∈ cg_flying (closing_run es).
Proof.
  unfold closing_run. induction es as [|e es IH] using rev_ind; [done|]. rewrite foldl_app. cbn [foldl].
  set (c := foldl closing_step _ es) in *. destruct e as [k|k]; cbn [closing_step]; case_bool_decide as E; try done.
  cbn. intros [= ->]. by left.
Qed.

(** With two closes in flight the table forgets the second when the first
    settles: its button is enabled again and a second close of the same
    position can be sent while the first is still under way. *)
Lemma second_close_can_be_repeated :
  let c := closing_run [cg_press "btc-usd"; cg_press "eth-usd"; cg_settle "btc-usd"] in
  cg_id c = None /\ cg_flying c = ["eth-usd"] /\
  cg_flying (closing_step c (cg_press "eth-usd")) = ["eth-usd"; "eth-usd"].
Proof. vm_compute. repeat split. Qed.

Lemma rows_of_length {A} (f : A -> result TableRow) l rows : rows_of f l = Ok rows -> length rows = length l.
Proof.
  revert rows. induction l as [|x l IH]; intros rows; cbn [rows_of]; [by intros [= <-]|].
  destruct (f x); [|done]. cbn [result_bind]. destruct (rows_of f l) as [rs|]; [|done]. cbn [result_bind].
  intros [= <-]. cbn. by rewrite (IH rs).
Qed.

Lemma rows_of_nil {A} (f : A -> result TableRow) : rows_of f [] = Ok [].
Proof. reflexivity. Qed.

Lemma orders_table_rows lt os opt t : OrdersTable lt os opt = Ok t -> length (table_rows t) = (length os + length opt)%nat.
Proof.
  unfold OrdersTable. destruct (_ =? 0)%nat eqn:E.
  - intros [= <-]. apply Nat.eqb_eq in E. by rewrite E.
  - destruct (rows_of _ opt) as [top|] eqn:E1; [|done]. cbn [result_bind].
    destruct (rows_of _ os) as [rest|] eqn:E2; [|done]. cbn [result_bind]. intros [= <-]. cbn.
    rewrite length_app, (rows_of_length _ _ _ E1), (rows_of_length _ _ _ E2). lia.
Qed.

(** The positions and the orders tab count exactly the rows their tables show
    (the orders tab with the optimistic ones). *)
Lemma tab_counts_are_rows lt ls tab scope mkt closing ps os fs ui v :
  PositionPanel lt ls tab scope mkt closing ps os fs ui = Ok v -> tab <> pt_fills ->
  Some (Z.of_nat (length (table_rows (pv_table v)))) =
  match find (fun t => tb_selected t) (snd (pv_tabs v)) with Some t => option_map fst (tb_count t) | None => None end.
Proof.
  intros Hv Ht. unfold PositionPanel in Hv. cbn [position_panel pp_counts pp_positions pp_orders pp_optimistic] in Hv.
  destruct tab; [| |done].
  - cbn [result_bind] in Hv. injection Hv as <-. cbn. unfold PositionsTable.
    destruct (_ =? 0)%nat eqn:E; cbn; [apply Nat.eqb_eq in E; by rewrite E|]. by rewrite length_map.
  - destruct (OrdersTable lt _ _) as [t|] eqn:E; [|done]. cbn [result_bind] in Hv. injection Hv as <-. cbn.
    by rewrite (orders_table_rows _ _ _ _ E).
Qed.
