(* ===== verification/PageViews.v ===== *)
(** * The pages around the trading screen, as rendered

    [markets/page.tsx], [wallet/page.tsx], [portfolio/page.tsx] and
    [history/page.tsx] under [web/app/(app)], with [CoinIcon.tsx] and the cards
    of [web/components/ui/Card.tsx]: what each shows, from the figures of
    [Pages].  The wallet page is also a small machine: its pause, its buttons
    and what they do. *)
From S2P Require Import Prelude JsNum JsText JsColl Contract Format UiStore Pages TradePanels Session Shell PanelViews.
From Stdlib Require Import SpecFloat Ascii.
#[local] Open Scope Z_scope.

(** ** Cards and icons *)

Definition Card (raised bordered : bool) (className : option string) : string :=
  cn [Some "rounded-[var(--radius-lg)] overflow-hidden"; Some (if raised then "bg-bg-2" else "bg-bg-1");
      when bordered "border border-border"; className].

Definition CardHeader (className : option string) : string :=
  cn [Some "flex items-center justify-between px-4 h-11 border-b border-border text-[12px] uppercase tracking-wider text-fg-muted font-medium";
      className].

Definition CardBody (className : option string) : string := cn [Some "p-4"; className].

Definition STYLE : list (string * (string * string)) :=
  [("btc-usd", ("#f7931a", "#ffffff")); ("eth-usd", ("#627eea", "#ffffff")); ("sol-usd", ("#000000", "#14f195"))].

Inductive Mark := BtcMark | EthMark | SolMark.

(** Background, and the mark with its size and colour; [Math.round] of a
    positive number is the floor of it plus a half. *)
Definition CoinIcon (marketId : MarketId) (size : Z) : string * option (Mark * number * string) :=
  let '(bg, fg) := default ("#1a1830", "#ffffff") (jm_get marketId STYLE) in
  let round k := num_floor (num_add (num_mul (num_of_Z size) (num_lit k (-2))) (num_lit 5 (-1))) in
  (bg, if String.eqb marketId "btc-usd" then Some (BtcMark, round 58, fg)
       else if String.eqb marketId "eth-usd" then Some (EthMark, round 60, fg)
       else if String.eqb marketId "sol-usd" then Some (SolMark, round 58, fg) else None).

(** ** markets/page.tsx *)

Inductive StatTone := st_accent | st_long | st_muted.

Definition StatBlock (label badge value : string) (tone : StatTone) : string * string * string * string :=
  (label, badge, value,
   cn [Some "font-mono text-[22px] font-semibold tabular-nums";
       Some (match tone with st_accent => "text-accent" | st_long => "text-long" | st_muted => "text-fg" end)]).

Record Cat := mkCat { ct_label : string; ct_active : bool; ct_badge : option string; ct_soon : bool }.

Definition CATS : list Cat :=
  [mkCat "All" true (Some "3") false; mkCat "Crypto" false (Some "3") false; mkCat "Layer 1" false (Some "2") false;
   mkCat "Layer 2" false (Some "1") false; mkCat "Forex" false None true; mkCat "RWA" false None true;
   mkCat "Gaming" false None true].

Record CatView := mkCatView { cv_label : string; cv_disabled : bool; cv_class : string; cv_badge : option string; cv_soon : bool }.

Definition CategoryTabs : list CatView :=
  map (fun c => mkCatView (ct_label c) (ct_soon c)
    (cn [Some "inline-flex items-center gap-2 h-8 px-3 rounded-full text-[12px] font-medium whitespace-nowrap transition-colors border";
         Some (if ct_active c then "bg-accent-soft text-accent border-[color-mix(in_oklab,var(--accent),transparent_60%)]"
               else if ct_soon c then "bg-bg-1 text-fg-muted border-border opacity-60 cursor-not-allowed"
               else "bg-bg-1 text-fg-mid border-border hover:text-fg hover:border-border-strong")])
    (shown (ct_badge c)) (ct_soon c)) CATS.

Definition BASE_GLOW : list (MarketId * string) :=
  [("btc-usd", "radial-gradient(circle, rgba(247,147,26,0.6), transparent 70%)");
   ("eth-usd", "radial-gradient(circle, rgba(98,126,234,0.6), transparent 70%)");
   ("sol-usd", "radial-gradient(circle, rgba(20,241,149,0.6), transparent 70%)")].

Definition BASE_LINE : list (MarketId * string) :=
  [("btc-usd", "rgba(247,147,26,0.7)"); ("eth-usd", "rgba(98,126,234,0.7)"); ("sol-usd", "rgba(20,241,149,0.7)")].

Definition tone_class (nonneg : bool) : string := if nonneg then "text-long" else "text-short".

Record CardView := mkCardView {
  fc_href : string; fc_glow : string; fc_line : string; fc_title : string; fc_pair : string; fc_leverage : string;
  fc_price : string; fc_change : string * string; fc_spark : string * string; fc_funding : string * string }.

(** [price.toLocaleString("en-US", ...)] is an argument. *)
Definition FeaturedCard (locale : number -> string) (oracle : option WsOracle) (funding : option WsFunding) (spark : list number)
    (m : Market) : CardView :=
  let price := option_map (fun o => x18ToDollars (VStr (wo_priceX18 o))) oracle in
  let positive := (pseudoChange m >=? nint 0)%num in
  let fundingPct := option_map (fun f => (wf_currentRateBps f / nint 100)%num) funding in
  mkCardView ("/trade/" +:+ mk_id m) (default "var(--accent)" (jm_get (mk_id m) BASE_GLOW))
    ("linear-gradient(90deg, transparent, " +:+ default "var(--accent)" (jm_get (mk_id m) BASE_LINE) +:+ ", transparent)")
    (mk_base m +:+ "-PERP") (mk_base m +:+ "/USDC") ("up to " +:+ bigint_toString (mk_maxLeverage m) +:+ "×")
    (match price with None => dash | Some p => "$" +:+ locale p end)
    (change_caption m,
     cn [Some "text-[12px] font-mono mt-2 tabular-nums inline-flex items-center gap-1.5"; Some (tone_class positive)])
    (spark_path spark +:+ " L 240,56 L 0,56 Z", if positive then "var(--long)" else "var(--short)")
    (card_funding funding, cn [Some "font-medium"; Some (tone_class (default (nint 0) fundingPct >=? nint 0)%num)]).

(** The price the sparkline is drawn around. *)
Definition spark_anchor (oracle : option WsOracle) : number :=
  match oracle with Some o => x18ToDollars (VStr (wo_priceX18 o)) | None => nint 100 end.

(** The gradient's identifier: the letters of the colour. *)
Fixpoint letters (s : string) : string :=
  match s with
  | EmptyString => ""
  | String c s => if is_lower c || is_upper c then String c (letters s) else letters s
  end.

Definition spark_id (color : string) : string := "sparkfill-" +:+ letters color.

Record MarketRowView := mkMarketRow { mv_href : string; mv_title : string; mv_hint : string; mv_cells : list Span; mv_leverage : string }.

Definition MarketRow (oracle : option WsOracle) (funding : option WsFunding) (m : Market) : MarketRowView :=
  let price := match oracle with Some o => VNum (x18ToDollars (VStr (wo_priceX18 o))) | None => VNull end in
  let bps := match funding with Some f => Some (wf_currentRateBps f) | None => mk_fundingRateBps m end in
  let pct := match bps with Some b => (b / nint 100)%num | None => nint 0 end in
  mkMarketRow ("/trade/" +:+ mk_id m) (mk_base m +:+ "-PERP") ("Cross-margin · Tick " +:+ mk_tickSize m)
    [NumberDisplay price 2 "$" "" false false; NumberDisplay (VNum (pseudoChange m)) 2 "" "%" true true;
     NumberDisplay (VNum (dollars_or_zero (mk_volume24hUsdc m))) 0 "$" "" false false;
     mkSpan (row_funding funding m) (if (pct >=? nint 0)%num then tone_long else tone_short)]
    (bigint_toString (mk_maxLeverage m) +:+ "×").

Definition sort_text (k : SortKey) : string := match k with by_volume => "volume" | by_change => "change" | by_name => "name" end.

Definition sort_buttons (sortBy : SortKey) : list (string * string) :=
  map (fun k => (sort_text k,
    cn [Some "px-3 h-7 rounded-full text-[11px] font-medium uppercase tracking-[0.1em] transition-colors";
        Some (if String.eqb (sort_text sortBy) (sort_text k) then "bg-accent-soft text-accent" else "text-fg-mid hover:text-fg")]))
    [by_volume; by_change; by_name].

(** How the markets query stands. *)
Inductive QueryState := q_loading | q_error (message : string) | q_done.

Record MarketsView := mkMarketsView {
  mp_label : string; mp_stats : list (string * string * string * string); mp_cards : list CardView; mp_sort : list (string * string);
  mp_error : option ErrorView; mp_skeletons : nat; mp_rows : list MarketRowView; mp_none : option string }.

Section markets.
Variables (localeCompare : string -> string -> Z) (compact locale : number -> string) (API_BASE : string).

Definition MarketsPage (label : option string) (st : QueryState) (data : option MarketsResponse) (query : string) (sortBy : SortKey)
    (oracle : MarketId -> option WsOracle) (funding : MarketId -> option WsFunding) (spark : MarketId -> list number) : MarketsView :=
  let markets := visible_markets localeCompare data query sortBy in
  mkMarketsView (default "Local · dev" label)
    [StatBlock "Trading volume" "24h" (fmtCompactUsd compact (totalVolume data)) st_accent;
     StatBlock "Open interest" "current" (fmtCompactUsd compact (totalOpenInterest data)) st_long;
     StatBlock "Fees generated" "24h" "$3,279.51" st_muted]
    (map (fun m => FeaturedCard locale (oracle (mk_id m)) (funding (mk_id m)) (spark (mk_id m)) m) (take 3 markets))
    (sort_buttons sortBy)
    (match st with
     | q_error msg => Some (ErrorState (Some "Failed to load markets")
         (Some (msg +:+ " — GET " +:+ API_BASE +:+ "/v1/markets. Is perplex-edge running and reachable from the browser?")) None false true)
     | _ => None
     end)
    (match st with q_loading => 3%nat | _ => 0%nat end)
    (map (fun m => MarketRow (oracle (mk_id m)) (funding (mk_id m)) m) markets)
    (match st with
     | q_loading => None
     | _ => if (length markets =? 0)%nat then Some ("No markets match " +:+ String "034"%char query +:+ String "034"%char ".") else None
     end).

End markets.

(** ** wallet/page.tsx *)

Definition BalanceCard (label : string) (value : number) (hint : string) (info : bool) : string * Span * string * string :=
  (label, NumberDisplay (VNum value) 2 "$" "" false false, hint, if info then "var(--info)" else "var(--accent)").

Definition FromTo (m : Mode) : string * string := match m with deposit => ("Wallet", "Vault") | withdraw => ("Vault", "Wallet") end.

Definition RowKV (label value : string) (muted : bool) : string * string * string :=
  (label, value, cn [Some "font-mono tabular-nums"; Some (if muted then "text-fg-mid" else "text-fg")]).

Definition mode_buttons (mode : Mode) : list (string * string) :=
  map (fun m => (match m with deposit => "Deposit" | withdraw => "Withdraw" end,
    cn [Some "h-7 px-3 text-[12px] rounded-[3px] font-medium";
        Some (match mode, m with deposit, deposit | withdraw, withdraw => "bg-bg-hover text-fg" | _, _ => "text-fg-muted hover:text-fg" end)]))
    [deposit; withdraw].

Definition percent_captions : list (number * string) :=
  map (fun pct => (pct, if (pct =? nint 1)%num then "MAX" else num_toString (pct * nint 100)%num +:+ "%"))
    [num_lit 25 (-2); num_lit 5 (-1); num_lit 75 (-2); nint 1].

Record WalletPageView := mkWalletPage {
  wp_cards : list (string * Span * string * string); wp_modes : list (string * string); wp_from_to : string * string;
  wp_amount : InputView * string; wp_percents : list (number * string); wp_rows : list (string * string * string);
  wp_button : ButtonView * string }.

(** [None] is the placeholder shown without a wallet. *)
Definition WalletPage (connected : bool) (address : option string) (b : option BalanceResponse) (w : WalletForm) :
    EmptyView + WalletPageView :=
  if negb connected
  then inl (EmptyState "Wallet not connected" (Some "Connect a wallet from the top-right to deposit USDC and start trading.") None false)
  else
    let '(walletBal, vaultBal) := wallet_balances b in
    inr (mkWalletPage
      [BalanceCard "Wallet USDC" walletBal (Pages.shortAddr (default "" address)) true;
       BalanceCard "Vault USDC" vaultBal "Available for margin" false]
      (mode_buttons (w_mode w)) (FromTo (w_mode w))
      (Input (Some "Amount") (Some "USDC") None (if w_insufficient b w then Some "Exceeds available balance" else None) None None None None true,
       w_amount w)
      percent_captions
      [RowKV "Available" ("$" +:+ toFixed (w_source b w) 2) false; RowKV "After transfer" (after_transfer b w) false;
       RowKV "Network fee" "est. on mainnet" true]
      (Button (Some v_primary) (Some s_lg) (w_submitting w) true (w_disabled b w) None,
       match w_mode w with deposit => "Deposit USDC" | withdraw => "Withdraw USDC" end)).

(** The page with its pending pauses, each with the form it was clicked on. *)
Record WalletRun := mkWalletRun { wr_form : WalletForm; wr_pauses : list WalletForm; wr_ui : UiState }.

Inductive WalletEvent := wv_mode (m : Mode) | wv_amount (s : string) | wv_percent (pct : number) | wv_press | wv_resume (st : Stamp).

Definition wallet_step (b : option BalanceResponse) (r : WalletRun) (e : WalletEvent) : WalletRun :=
  let w := wr_form r in
  match e with
  | wv_mode m => mkWalletRun (mkWallet m (w_amount w) (w_submitting w)) (wr_pauses r) (wr_ui r)
  | wv_amount s => mkWalletRun (mkWallet (w_mode w) s (w_submitting w)) (wr_pauses r) (wr_ui r)
  | wv_percent pct => mkWalletRun (w_percent b pct w) (wr_pauses r) (wr_ui r)
  | wv_press =>
      if w_disabled b w || w_submitting w then r
      else mkWalletRun (wallet_submit w) (wr_pauses r ++ (if num_truthy (w_amt w) then [w] else [])) (wr_ui r)
  | wv_resume st =>
      match wr_pauses r with
      | [] => r
      | clicked :: rest => let '(w', u') := wallet_resume clicked st w (wr_ui r) in mkWalletRun w' rest u'
      end
  end.

(** ** portfolio/page.tsx *)

Definition Bar (label : string) (value max : number) (color : string) : string * Span * string * string :=
  (label, NumberDisplay (VNum value) 2 "$" "" false false, num_toString (bar_pct value max) +:+ "%", color).

Definition portfolio_row (p : Position) : TableRow :=
  mkTableRow (p_marketId p)
    [mkCell "px-4 py-3 text-fg" None [plain (toUpperCase (p_marketId p))];
     mkCell "px-4 py-3"
       (Some (cn [Some "inline-flex items-center px-1.5 h-5 rounded-[var(--radius-xs)] text-[10px] font-semibold";
                  Some (match p_side p with long => "bg-long-soft text-long" | short => "bg-short-soft text-short" end)]))
       [plain (match p_side p with long => "LONG" | short => "SHORT" end)];
     mkCell "px-4 py-3 text-right" None [NumberDisplay (VStr (p_size p)) 4 "" "" false false];
     mkCell "px-4 py-3 text-right" None [usd (usdc6ToDollars (VStr (p_notionalUsdc p))) false];
     mkCell "px-4 py-3 text-right" None [usd (x18ToDollars (VStr (p_entryPriceX18 p))) false];
     mkCell "px-4 py-3 text-right" None [usd (x18ToDollars (VStr (p_markPriceX18 p))) false];
     mkCell "px-4 py-3 text-right" None [usd (usdc6ToDollars (VStr (p_unrealisedPnlUsdc p))) true];
     mkCell "px-4 py-3 text-right text-warn" None [usd (x18ToDollars (VStr (p_liquidationPriceX18 p))) false]] None.

Inductive PositionsView := pos_loading (skeletons : nat) | pos_empty (e : EmptyView) | pos_table (rows : list TableRow).

Record PortfolioView := mkPortfolioView {
  pf_stats : list (string * Span); pf_bars : list (string * Span * string * string); pf_positions : PositionsView }.

Definition PortfolioPage (positions : option PositionsResponse) (isLoading : bool) (b : option BalanceResponse) : PortfolioView :=
  let p := portfolio positions in
  mkPortfolioView
    [("Account equity", usd (po_equity p) false); ("Unrealised PnL", usd (po_pnl p) true);
     ("Free collateral", usd (po_free p) false); ("Total notional", usd (po_notional p) false)]
    [Bar "Used margin" (po_used p) (po_collateral p) "var(--warn)"; Bar "Free collateral" (po_free p) (po_collateral p) "var(--long)";
     Bar "Wallet USDC" (match b with Some b => usdc6ToDollars (VStr (br_walletUsdcBalance b)) | None => nint 0 end) (po_collateral p) "var(--accent)"]
    (if isLoading then pos_loading 2
     else match positions with
          | Some r => if (length (pr_positions r) =? 0)%nat
                      then pos_empty (EmptyState "No open positions" (Some "Trades you place will appear here as positions.") None false)
                      else pos_table (map portfolio_row (pr_positions r))
          | None => pos_empty (EmptyState "No open positions" (Some "Trades you place will appear here as positions.") None false)
          end).

(** ** history/page.tsx *)

Section history.
Variable toLocaleString : Z -> string.

Definition history_fill_row (f : Fill) : result TableRow :=
  let! time := formatDateTime toLocaleString (f_tsNs f) in
  Ok (mkTableRow (f_id f)
    [mkCell "px-4 py-2.5 text-fg-mid" None [plain time];
     mkCell "px-4 py-2.5 text-fg" None [plain (toUpperCase (f_marketId f))];
     mkCell (cn [Some "px-4 py-2.5"; Some (order_side_class (f_side f))]) None [plain (match f_side f with buy => "Buy" | sell => "Sell" end)];
     mkCell "px-4 py-2.5 text-right" None [NumberDisplay (VStr (f_price f)) 2 "" "" false false];
     mkCell "px-4 py-2.5 text-right" None [NumberDisplay (VStr (f_qty f)) 4 "" "" false false];
     mkCell "px-4 py-2.5 text-right" None [fill_notional f];
     mkCell "px-4 py-2.5 text-right" None [usd (usdc6ToDollars (VStr (f_feeUsdc f))) false];
     mkCell "px-4 py-2.5 text-fg-muted" None [plain (match f_role f with maker => "maker" | taker => "taker" end)];
     mkCell "px-4 py-2.5 font-mono text-[11px] text-accent" None [plain (str_take 8 (f_txHash f) +:+ "…")]] None).

Definition transfer_row (t : PendingTransfer) : result TableRow :=
  let! cells := transfer_cells toLocaleString t in
  Ok (mkTableRow (tf_id t) (map (fun c => mkCell "" None [plain c]) cells) None).

Definition TransferList (items : list PendingTransfer) (emptyTitle emptyHint : string) : result (EmptyView + list TableRow) :=
  if (length items =? 0)%nat then Ok (inl (EmptyState emptyTitle (Some emptyHint) None false))
  else let! rows := rows_of transfer_row items in Ok (inr rows).

Inductive HistoryTab := ht_fills | ht_deposits | ht_withdrawals | ht_funding.
Definition history_tab_value (t : HistoryTab) : string :=
  match t with ht_fills => "fills" | ht_deposits => "deposits" | ht_withdrawals => "withdrawals" | ht_funding => "funding" end.

Definition HistoryPage (tab : HistoryTab) (fills : option FillsResponse) (b : option BalanceResponse) :
    result ((string * list TabView) * (EmptyView + list TableRow)) :=
  let items := map (fun '(v, l, n) => mkTabItem v l (Some (Z.of_nat n)))
    (zip [("fills", "Fills"); ("deposits", "Deposits"); ("withdrawals", "Withdrawals"); ("funding", "Funding")] (history_counts fills b)) in
  let! body := match tab with
    | ht_fills =>
        match fills with
        | Some r => if (length (fsr_fills r) =? 0)%nat
                    then Ok (inl (EmptyState "No fills yet" (Some "Once you trade, your fills appear here.") None false))
                    else let! rows := rows_of history_fill_row (fsr_fills r) in Ok (inr rows)
        | None => Ok (inl (EmptyState "No fills yet" (Some "Once you trade, your fills appear here.") None false))
        end
    | ht_deposits => TransferList (match b with Some b => br_pendingDeposits b | None => [] end) "No deposits" "Deposits will appear here once submitted."
    | ht_withdrawals => TransferList (match b with Some b => br_pendingWithdrawals b | None => [] end) "No withdrawals" "Withdrawals will appear here once submitted."
    | ht_funding => Ok (inl (EmptyState "No funding payments yet" (Some "Funding is applied every 8h while you hold a position.") None false))
    end in
  Ok (Tabs tv_underline false None (history_tab_value tab) items, body).

End history.

(** ** Facts *)

(** The transfer button's pause: the form is marked as submitting exactly
    while one pause is pending, and there is never a second one. *)
Lemma one_transfer_at_a_time b es :
  let r := foldl (wallet_step b) (mkWalletRun wallet_initial [] initial_ui) es in
  length (wr_pauses r) = if w_submitting (wr_form r) then 1%nat else 0%nat.
Proof.
  cbn zeta. induction es as [|e es IH] using rev_ind; [done|]. rewrite foldl_app. cbn [foldl].
  set (r := foldl _ _ es) in *. destruct e; cbn [wallet_step wr_pauses wr_form w_submitting w_percent]; try done.
  - destruct (w_disabled b (wr_form r)) eqn:Ed; cbn [orb]; [done|]. destruct (w_submitting (wr_form r)) eqn:Es; [by rewrite Es|].
    unfold wallet_submit. unfold w_disabled in Ed. apply orb_false_iff in Ed as [Ed _]. apply negb_false_iff in Ed. rewrite Ed.
    cbn. by rewrite length_app, IH.
  - destruct (wr_pauses r) as [|c rest] eqn:Ep; [by rewrite Ep|]. cbn in *. destruct (w_submitting (wr_form r)); [|done]. lia.
Qed.

(** The MAX button rounds to cents, so it can fill in more than is there. *)
Example wallet_max_exceeds_balance :
  let b := Some (mkBalanceResponse "0" "15625" [] []) in
  let w := w_percent b (nint 1) wallet_initial in
  w_amount w = "0.02" /\ w_insufficient b w = true.
Proof. vm_compute. split; reflexivity. Qed.
