(* ===== verification/ChartView.v ===== *)
(** * The price chart's lifecycle

    The effects of [web/components/chart/PriceChart.tsx] around the candles of
    TradePanels.v: the chart is created, seeded and observed when the market or
    the anchor price changes, fed by oracle ticks, resized with its container
    and removed with the effect's cleanup.  The charting library is not part of
    the repository, so the component's state keeps the calls made to it
    ([ChartCall], newest first), and [protocol] is what the library documents
    of them: data in ascending time order, no update older than the last bar,
    no value beyond 9e13 (the bound the component's own comment quotes), no
    call on a removed chart. *)
From S2P Require Import Prelude JsNum JsText JsColl Contract Format UiStore LiveBook TradePanels.
From Stdlib Require Import SpecFloat.
#[local] Open Scope Z_scope.

(** ** The calls made to the library *)

Inductive ChartCall :=
| CreateChart (id : nat) (width height : number)
| Observe (id : nat)
| AddCandleSeries (id : nat) (precision : Z)
| AddVolumeSeries (id : nat)
| ScaleVolume (id : nat)
| SetCandles (id : nat) (data : list Candle)
| SetVolumes (id : nat) (data : list (Z * number * bool))
| FitContent (id : nat)
| ResizeChart (id : nat) (width height : number)
| UpdateCandle (id : nat) (c : Candle)
| UpdateVolume (id : nat) (time : Z) (value : number) (up : bool)
| Disconnect (id : nat)
| RemoveChart (id : nat).

(** What the component reads of its surroundings while an effect runs: the
    clock, the values [Math.random] will return and the container's size. *)
Record ChartEnv := mkEnv {
  e_nowMs : Z;
  e_draw : nat -> number;
  e_container : option (number * number);
}.

Record ChartSt := mkChart {
  ch_mounted : bool;
  ch_market : MarketId;
  ch_anchor : number;
  ch_oracle : option WsOracle;
  ch_chartRef : option nat;
  ch_candleSeriesRef : option nat;
  ch_volSeriesRef : option nat;
  ch_currentCandleRef : option Candle;
  ch_cleanup : option nat;
  ch_next : nat;
  ch_calls : list ChartCall;
}.

Definition chart_init : ChartSt := mkChart false EmptyString (nint 0) None None None None None None O [].

(** ** The effects *)

Definition precision_of (anchor : number) : Z :=
  if (nint 1000 <=? anchor)%num then 1 else if (nint 100 <=? anchor)%num then 2 else 4.

(** The colour of a bar says whether it closed at or above its open. *)
Definition volume_bar (p : Candle * number) : Z * number * bool :=
  (c_time p.1, p.2, (c_open p.1 <=? c_close p.1)%num).

(** The setup effect; without a container it does nothing and leaves no
    cleanup. *)
Definition setup_effect (e : ChartEnv) (st : ChartSt) : ChartSt :=
  match e_container e with
  | None => mkChart (ch_mounted st) (ch_market st) (ch_anchor st) (ch_oracle st) (ch_chartRef st)
              (ch_candleSeriesRef st) (ch_volSeriesRef st) (ch_currentCandleRef st) None (ch_next st) (ch_calls st)
  | Some (clientWidth, clientHeight) =>
      let id := ch_next st in
      let seeded := seedCandles (e_draw e) (ch_anchor st) (e_nowMs e / 1000) 240 in
      let candles := map fst seeded in
      mkChart (ch_mounted st) (ch_market st) (ch_anchor st) (ch_oracle st) (Some id) (Some id) (Some id)
        (last candles) (Some id) (S id)
        (FitContent id :: SetVolumes id (map volume_bar seeded) :: SetCandles id candles ::
         ScaleVolume id :: AddVolumeSeries id :: AddCandleSeries id (precision_of (ch_anchor st)) :: Observe id ::
         CreateChart id clientWidth clientHeight :: ch_calls st)
  end.

Definition cleanup_effect (st : ChartSt) : ChartSt :=
  match ch_cleanup st with
  | None => st
  | Some id =>
      mkChart (ch_mounted st) (ch_market st) (ch_anchor st) (ch_oracle st) None None None None None (ch_next st)
        (RemoveChart id :: Disconnect id :: ch_calls st)
  end.

(** The tick effect.  [oracle_tick] says which candle is current afterwards; a
    candle with a new opening time also gets a volume bar. *)
Definition tick_effect (e : ChartEnv) (st : ChartSt) : ChartSt :=
  match ch_candleSeriesRef st with
  | None => st
  | Some id =>
      match oracle_tick true (ch_oracle st) (e_nowMs e) (ch_currentCandleRef st) with
      | (Some c, true) =>
          let fresh := match ch_currentCandleRef st with Some c0 => negb (c_time c0 =? c_time c) | None => true end in
          let vol := match ch_volSeriesRef st with
                     | Some v => if fresh then [UpdateVolume v (c_time c) (e_draw e O * nint 200)%num (c_open c <=? c_close c)%num]
                                 else []
                     | None => []
                     end in
          mkChart (ch_mounted st) (ch_market st) (ch_anchor st) (ch_oracle st) (ch_chartRef st) (ch_candleSeriesRef st)
            (ch_volSeriesRef st) (Some c) (ch_cleanup st) (ch_next st) (vol ++ UpdateCandle id c :: ch_calls st)
      | (_, _) => st
      end
  end.

Definition with_oracle_msg (o : option WsOracle) (st : ChartSt) : ChartSt :=
  mkChart (ch_mounted st) (ch_market st) (ch_anchor st) o (ch_chartRef st) (ch_candleSeriesRef st)
    (ch_volSeriesRef st) (ch_currentCandleRef st) (ch_cleanup st) (ch_next st) (ch_calls st).

Definition with_props (mounted : bool) (m : MarketId) (anchor : number) (st : ChartSt) : ChartSt :=
  mkChart mounted m anchor (ch_oracle st) (ch_chartRef st) (ch_candleSeriesRef st)
    (ch_volSeriesRef st) (ch_currentCandleRef st) (ch_cleanup st) (ch_next st) (ch_calls st).

(** ** What happens to the component *)

Inductive ChartEvent :=
| ChMount (m : MarketId) (anchor : number)
| ChProps (m : MarketId) (anchor : number)
| ChMessage (o : WsOracle)
| ChResize (entries : list (number * number))
| ChUnmount.

(** [Object.is] on numbers, by which React compares dependencies. *)
Definition object_is (a b : number) : bool :=
  match a, b with
  | S754_zero s, S754_zero s' => Bool.eqb s s'
  | _, _ => (a =? b)%num || num_isNaN a && num_isNaN b
  end.

Definition same_deps (m m' : MarketId) (a a' : number) : bool := String.eqb m m' && object_is a a'.

Definition chart_step (e : ChartEnv) (ev : ChartEvent) (st : ChartSt) : ChartSt :=
  match ev with
  | ChMount m anchor =>
      if ch_mounted st then st
      else tick_effect e (setup_effect e (with_oracle_msg None (with_props true m anchor st)))
  | ChProps m anchor =>
      if negb (ch_mounted st) then st
      else if same_deps (ch_market st) m (ch_anchor st) anchor then st
      else
        (* [useLiveOracle] forgets the price of another market; the tick effect
           then runs on no price *)
        let o := if String.eqb (ch_market st) m then ch_oracle st else None in
        with_oracle_msg o (setup_effect e (with_props true m anchor (cleanup_effect st)))
  | ChMessage o =>
      if ch_mounted st && String.eqb (wo_channel o) ("oracle." +:+ ch_market st)
      then tick_effect e (with_oracle_msg (Some o) st) else st
  | ChResize entries =>
      match ch_cleanup st, entries with
      | Some id, (width, height) :: _ =>
          if (nint 0 <? width)%num && (nint 0 <? height)%num then
            mkChart (ch_mounted st) (ch_market st) (ch_anchor st) (ch_oracle st) (ch_chartRef st) (ch_candleSeriesRef st)
              (ch_volSeriesRef st) (ch_currentCandleRef st) (ch_cleanup st) (ch_next st)
              (ResizeChart id width height :: ch_calls st)
          else st
      | _, _ => st
      end
  | ChUnmount =>
      if ch_mounted st then with_oracle_msg None (with_props false (ch_market st) (ch_anchor st) (cleanup_effect st)) else st
  end.

(** ** What the library asks for *)

(** The chart that is live, with the times of its last candle and volume bar
    once it has data. *)
Record Live := mkLive { lv_id : nat; lv_candle : option Z; lv_volume : option Z }.

Fixpoint ascending (ts : list Z) : bool :=
  match ts with
  | t :: (t' :: _) as rest => (t <? t') && ascending rest
  | _ => true
  end.

Definition not_older (last_time : option Z) (t : Z) : bool :=
  match last_time with Some u => u <=? t | None => true end.

(** The values the library takes. *)
Definition value_bound : number := n_lit 9 13.
Definition in_range (v : number) : bool := (v <=? value_bound)%num && (n_lit (-9) 13 <=? v)%num.

Definition candle_in_range (c : Candle) : bool :=
  in_range (c_open c) && in_range (c_high c) && in_range (c_low c) && in_range (c_close c).

(** One call against the live chart: [None] when the library would reject it. *)
Definition accept (lv : option Live) (c : ChartCall) : option (option Live) :=
  match c, lv with
  | CreateChart id _ _, None => Some (Some (mkLive id None None))
  | CreateChart _ _ _, Some _ => None
  | SetCandles id data, Some l =>
      if Nat.eqb id (lv_id l) && ascending (map c_time data) && forallb candle_in_range data
      then Some (Some (mkLive id (last (map c_time data)) (lv_volume l))) else None
  | SetVolumes id data, Some l =>
      if Nat.eqb id (lv_id l) && ascending (map (fun b => b.1.1) data) && forallb (fun b => in_range b.1.2) data
      then Some (Some (mkLive id (lv_candle l) (last (map (fun b => b.1.1) data)))) else None
  | UpdateCandle id cd, Some l =>
      if Nat.eqb id (lv_id l) && not_older (lv_candle l) (c_time cd) && candle_in_range cd
      then Some (Some (mkLive id (Some (c_time cd)) (lv_volume l))) else None
  | UpdateVolume id t v _, Some l =>
      if Nat.eqb id (lv_id l) && not_older (lv_volume l) t && in_range v
      then Some (Some (mkLive id (lv_candle l) (Some t))) else None
  | RemoveChart id, Some l => if Nat.eqb id (lv_id l) then Some None else None
  | (Observe id | AddCandleSeries id _ | AddVolumeSeries id | ScaleVolume id | FitContent id
    | ResizeChart id _ _ | Disconnect id), Some l =>
      if Nat.eqb id (lv_id l) then Some lv else None
  | _, None => None
  end.

(** The calls from the first one on; the list has the newest first. *)
Fixpoint protocol (calls : list ChartCall) : option (option Live) :=
  match calls with
  | [] => Some None
  | c :: older => lv ← protocol older; accept lv c
  end.

(** ** Runs *)

(** The values an event brings are the library's: the seeded candles and
    volumes of an anchor, the dollars of an oracle price and the volume drawn
    for it.  The component itself only asks a price to be finite and
    positive. *)
Definition seeds_in_range (e : ChartEnv) (anchor : number) : bool :=
  forallb (fun p => candle_in_range p.1 && in_range p.2) (seedCandles (e_draw e) anchor (e_nowMs e / 1000) 240).

Definition tame (e : ChartEnv) (ev : ChartEvent) : bool :=
  match ev with
  | ChMount _ anchor | ChProps _ anchor => seeds_in_range e anchor
  | ChMessage o => in_range (x18ToDollars (VStr (wo_priceX18 o))) && in_range (e_draw e O * nint 200)%num
  | ChResize _ | ChUnmount => true
  end.

(** A run under a clock that does not go back, on values in range. *)
Inductive chart_run : Z -> ChartSt -> Prop :=
| chart_run_init t : chart_run t chart_init
| chart_run_step t st e ev :
    chart_run t st -> t <= e_nowMs e -> tame e ev = true -> chart_run (e_nowMs e) (chart_step e ev st).

(** ** Facts *)

Lemma num_max_choice a b : num_max a b = S754_nan /\ (a = S754_nan \/ b = S754_nan) \/ num_max a b = a \/ num_max a b = b.
Proof. unfold num_max. destruct a as [[]| | |], b as [[]| | |]; auto; case_match; auto. Qed.

Lemma num_min_choice a b : num_min a b = S754_nan /\ (a = S754_nan \/ b = S754_nan) \/ num_min a b = a \/ num_min a b = b.
Proof. unfold num_min. destruct a as [[]| | |], b as [[]| | |]; auto; case_match; auto. Qed.

Lemma in_range_nan : in_range S754_nan = false.
Proof. reflexivity. Qed.

Lemma in_range_max a b : in_range a = true -> in_range b = true -> in_range (num_max a b) = true.
Proof.
  pose proof in_range_nan. destruct (num_max_choice a b) as [[_ [-> | ->]]|[-> | ->]]; congruence.
Qed.

Lemma in_range_min a b : in_range a = true -> in_range b = true -> in_range (num_min a b) = true.
Proof.
  pose proof in_range_nan. destruct (num_min_choice a b) as [[_ [-> | ->]]|[-> | ->]]; congruence.
Qed.

Lemma candle_range c :
  candle_in_range c = true <->
  in_range (c_open c) = true /\ in_range (c_high c) = true /\ in_range (c_low c) = true /\ in_range (c_close c) = true.
Proof. unfold candle_in_range. rewrite !andb_true_iff. tauto. Qed.

Lemma seed_times draw anchor start n i k price :
  map (fun p => c_time p.1) (seed_candles_from draw anchor start n i k price)
  = map (fun j => start + Z.of_nat j * TF_SECONDS) (seq i n).
Proof.
  revert i k price. induction n as [|n IH]; intros i k price; [done|].
  cbn [seed_candles_from seq map]. by rewrite IH.
Qed.

Lemma ascending_steps start n i : ascending (map (fun j => start + Z.of_nat j * TF_SECONDS) (seq i n)) = true.
Proof.
  revert i. induction n as [|n IH]; intros i; [done|]. destruct n as [|n]; [done|].
  cbn [seq map ascending]. apply andb_true_intro. split; [apply Z.ltb_lt; unfold TF_SECONDS; lia | apply (IH (S i))].
Qed.

Lemma last_map_some {A B} (f : A -> B) l : last (map f l) = f <$> last l.
Proof. induction l as [|x [|y l] IH]; [done | done |]. exact IH. Qed.

(** The opening times of a seeded chart: ascending, the last a minute ago. *)
Definition seed_grid (nowSec : Z) : list Z :=
  map (fun j => nowSec - Z.of_nat 240 * TF_SECONDS + Z.of_nat j * TF_SECONDS) (seq 0 240).

Lemma seed_grid_last nowSec : last (seed_grid nowSec) = Some (nowSec - 60).
Proof.
  unfold seed_grid. rewrite (seq_app 239 1), map_app. cbn [seq map]. rewrite last_snoc. f_equal.
  change (nowSec - 240 * 60 + 239 * 60 = nowSec - 60). lia.
Qed.

Lemma seeded_candle_times draw anchor nowSec :
  map c_time (map fst (seedCandles draw anchor nowSec 240)) = seed_grid nowSec.
Proof. unfold seedCandles. rewrite map_map. apply seed_times. Qed.

Lemma seeded_volume_times draw anchor nowSec :
  map (fun b => b.1.1) (map volume_bar (seedCandles draw anchor nowSec 240)) = seed_grid nowSec.
Proof. unfold seedCandles. rewrite map_map. apply seed_times. Qed.

#[local] Opaque seedCandles.

(** The minute a time in milliseconds belongs to. *)
Definition bucket_of (nowMs : Z) : Z := nowMs / 1000 / TF_SECONDS * TF_SECONDS.

Lemma bucket_mono t t' : t <= t' -> bucket_of t <= bucket_of t'.
Proof.
  intros Ht. unfold bucket_of, TF_SECONDS. apply Z.mul_le_mono_nonneg_r; [lia|].
  apply Z.div_le_mono; [lia|]. apply Z.div_le_mono; lia.
Qed.

Lemma bucket_recent t : t / 1000 - 60 <= bucket_of t.
Proof. unfold bucket_of, TF_SECONDS. pose proof (Z.mod_pos_bound (t / 1000) 60). pose proof (Z.div_mod (t / 1000) 60). lia. Qed.

(** A tick leaves the candle alone, extends it within its minute or starts the
    one of the current minute. *)
Lemma oracle_tick_cases o nowMs c :
  oracle_tick true o nowMs (Some c) = (Some c, false) \/
  exists c', oracle_tick true o nowMs (Some c) = (Some c', true) /\
    (c_time c' = c_time c \/ c_time c' = bucket_of nowMs) /\
    forall m, o = Some m -> in_range (x18ToDollars (VStr (wo_priceX18 m))) = true ->
      candle_in_range c = true -> candle_in_range c' = true.
Proof.
  unfold oracle_tick. destruct o as [o|]; [|auto]. cbn [negb].
  destruct (negb (num_isFinite _) || _); [auto|]. right.
  destruct (c_time c =? nowMs / 1000 / TF_SECONDS * TF_SECONDS); eexists; (split; [reflexivity|]);
    (split; [auto|]); intros ? [= <-] Hp (H1 & H2 & H3 & H4)%candle_range; apply candle_range; cbn;
    repeat split; auto using in_range_max, in_range_min.
Qed.

(** ** The invariant *)

Definition chart_inv (t : Z) (st : ChartSt) : Prop :=
  match ch_cleanup st with
  | None => protocol (ch_calls st) = Some None /\ ch_candleSeriesRef st = None /\ ch_currentCandleRef st = None
  | Some id =>
      ch_mounted st = true /\ ch_candleSeriesRef st = Some id /\ ch_volSeriesRef st = Some id /\
      exists c, ch_currentCandleRef st = Some c /\ c_time c <= bucket_of t /\ candle_in_range c = true /\
        protocol (ch_calls st) = Some (Some (mkLive id (Some (c_time c)) (Some (c_time c))))
  end.

Lemma chart_inv_later t t' st : t <= t' -> chart_inv t st -> chart_inv t' st.
Proof.
  unfold chart_inv. intros Ht. destruct (ch_cleanup st); [|done].
  intros (? & ? & ? & c & ? & ? & ? & ?). repeat split; auto. exists c. repeat split; auto.
  pose proof (bucket_mono t t' Ht). lia.
Qed.

Lemma cleanup_inv t st : chart_inv t st -> chart_inv t (cleanup_effect st) /\ ch_cleanup (cleanup_effect st) = None.
Proof.
  unfold cleanup_effect, chart_inv. destruct (ch_cleanup st) as [id|] eqn:E; [|by rewrite E].
  intros (_ & _ & _ & c & _ & _ & _ & Hp). cbn. rewrite Hp. cbn. rewrite Nat.eqb_refl. cbn. by rewrite Nat.eqb_refl.
Qed.

Lemma protocol_setup calls id w h pr cs vs :
  protocol calls = Some None -> ascending (map c_time cs) = true -> ascending (map (fun b => b.1.1) vs) = true ->
  forallb candle_in_range cs = true -> forallb (fun b => in_range b.1.2) vs = true ->
  protocol (FitContent id :: SetVolumes id vs :: SetCandles id cs :: ScaleVolume id :: AddVolumeSeries id
            :: AddCandleSeries id pr :: Observe id :: CreateChart id w h :: calls)
  = Some (Some (mkLive id (last (map c_time cs)) (last (map (fun b => b.1.1) vs)))).
Proof.
  intros Hp Hc Hv Rc Rv. cbn -[map last ascending forallb]. rewrite Hp. cbn -[map last ascending forallb].
  repeat (rewrite ?Nat.eqb_refl, ?Hc, ?Hv, ?Rc, ?Rv; cbn -[map last ascending forallb]). done.
Qed.

Lemma forallb_map_sub {A B} (f : A -> B) (p : B -> bool) (q : A -> bool) l :
  (forall x, q x = true -> p (f x) = true) -> forallb q l = true -> forallb p (map f l) = true.
Proof. intros H. rewrite !forallb_forall. intros Hq y (x & <- & Hx)%in_map_iff. auto. Qed.

Lemma seeds_split e anchor : seeds_in_range e anchor = true ->
  let seeded := seedCandles (e_draw e) anchor (e_nowMs e / 1000) 240 in
  forallb candle_in_range (map fst seeded) = true /\ forallb (fun b => in_range b.1.2) (map volume_bar seeded) = true.
Proof.
  unfold seeds_in_range. generalize (seedCandles (e_draw e) anchor (e_nowMs e / 1000) 240). intros l Hl.
  split; (eapply forallb_map_sub; [|exact Hl]); by intros x [? ?]%andb_true_iff.
Qed.

Lemma setup_inv e st :
  seeds_in_range e (ch_anchor st) = true ->
  chart_inv (e_nowMs e) st -> ch_cleanup st = None -> ch_mounted st = true -> chart_inv (e_nowMs e) (setup_effect e st).
Proof.
  intros [Rc Rv]%seeds_split Hst E Hm. unfold chart_inv in Hst. rewrite E in Hst. destruct Hst as (Hp & Hs & Hc).
  unfold setup_effect. destruct (e_container e) as [[cw chh]|]; [|unfold chart_inv; cbn; auto].
  set (seeded := seedCandles _ _ _ _) in *. unfold chart_inv. cbn [ch_cleanup ch_mounted ch_candleSeriesRef ch_volSeriesRef].
  split; [done|]. split; [done|]. split; [done|].
  assert (Hl : exists c, last (map fst seeded) = Some c /\ c_time c = e_nowMs e / 1000 - 60).
  { pose proof (seed_grid_last (e_nowMs e / 1000)) as Hg.
    rewrite <- (seeded_candle_times (e_draw e) (ch_anchor st)) in Hg. fold seeded in Hg.
    rewrite last_map_some in Hg. destruct (last (map fst seeded)) as [c|]; [|done]. exists c. by injection Hg. }
  destruct Hl as (c & Hl & Hct). exists c. cbn [ch_currentCandleRef ch_calls]. split; [done|].
  split; [rewrite Hct; apply bucket_recent|].
  split.
  { rewrite forallb_forall in Rc. apply Rc, list_elem_of_In. rewrite last_lookup in Hl. by eapply list_elem_of_lookup_2. }
  rewrite (protocol_setup _ _ _ _ _ (map fst seeded) (map volume_bar seeded) Hp).
  - unfold seeded. by rewrite seeded_volume_times, seeded_candle_times, seed_grid_last, Hct.
  - unfold seeded. rewrite seeded_candle_times. apply ascending_steps.
  - unfold seeded. rewrite seeded_volume_times. apply ascending_steps.
  - exact Rc.
  - exact Rv.
Qed.

Lemma tick_inv e st :
  (forall o, ch_oracle st = Some o -> tame e (ChMessage o) = true) ->
  chart_inv (e_nowMs e) st -> chart_inv (e_nowMs e) (tick_effect e st).
Proof.
  unfold tick_effect. intros Htame Hst. destruct (ch_candleSeriesRef st) as [sid|] eqn:Es; [|done].
  unfold chart_inv in Hst. destruct (ch_cleanup st) as [id|] eqn:Ec; [|destruct Hst as (_ & ? & _); congruence].
  destruct Hst as (Hm & Hs & Hv & c & Hc & Hle & Hr & Hp). assert (sid = id) as -> by congruence.
  destruct (ch_oracle st) as [o|] eqn:Eo.
  2:{ rewrite Hc. cbn [oracle_tick]. unfold chart_inv. rewrite ?Ec. repeat split; auto. exists c. auto. }
  destruct (andb_true_iff (in_range (x18ToDollars (VStr (wo_priceX18 o)))) (in_range (e_draw e O * nint 200)%num)) as [Hand _].
  destruct (Hand (Htame o eq_refl)) as [Ro Rv]. clear Hand.
  rewrite Hc, Hv. destruct (oracle_tick_cases (Some o) (e_nowMs e) c) as [-> | (c' & -> & Ht & Hkeep)].
  - unfold chart_inv. rewrite ?Ec. repeat split; auto. exists c. auto.
  - specialize (Hkeep o eq_refl Ro Hr). unfold chart_inv. cbn. rewrite ?Ec. repeat split; auto. exists c'. split; [done|].
    assert (Hmid : c_time c <= c_time c' <= bucket_of (e_nowMs e)) by (destruct Ht as [-> | ->]; lia).
    split; [lia|]. split; [done|].
    destruct (Z.eqb_spec (c_time c) (c_time c')) as [Heq|Hne]; cbn -[in_range candle_in_range];
      rewrite Hp; cbn -[in_range candle_in_range];
      rewrite Nat.eqb_refl, (proj2 (Z.leb_le _ _) (proj1 Hmid)), Hkeep; cbn -[in_range candle_in_range]; [by rewrite Heq|].
    rewrite Nat.eqb_refl, (proj2 (Z.leb_le _ _) (proj1 Hmid)). cbn -[in_range] in Rv |- *. by rewrite Rv.
Qed.

Lemma oracle_msg_inv t o st : chart_inv t (with_oracle_msg o st) <-> chart_inv t st.
Proof. done. Qed.

Lemma props_inv t m a st : chart_inv t st -> chart_inv t (with_props true m a st).
Proof. unfold chart_inv. cbn. by destruct (ch_cleanup st); [intros (? & ?)|]. Qed.

Lemma chart_step_inv e ev st : tame e ev = true -> chart_inv (e_nowMs e) st -> (ch_mounted st = false -> ch_cleanup st = None) ->
  chart_inv (e_nowMs e) (chart_step e ev st).
Proof.
  intros Htame Hst Hoff. destruct ev as [m a|m a|o|entries|]; cbn [chart_step].
  - destruct (ch_mounted st) eqn:Hm; [done|]. apply tick_inv; [by intros o; unfold setup_effect; destruct (e_container e) as [[??]|]|].
    cbn [tame] in Htame. apply setup_inv; cbn [ch_anchor with_props with_oracle_msg]; [exact Htame| |by apply Hoff|done].
    apply oracle_msg_inv. by apply props_inv.
  - destruct (negb (ch_mounted st)); [done|]. destruct (same_deps _ _ _ _); [done|]. apply oracle_msg_inv.
    destruct (cleanup_inv _ _ Hst) as [Hcl Hnone]. cbn [tame] in Htame.
    apply setup_inv; cbn [ch_anchor with_props]; [exact Htame | by apply props_inv | done | done].
  - destruct (ch_mounted st && _); [|done]. apply tick_inv; [by intros ? [= <-]|by apply oracle_msg_inv].
  - unfold chart_inv in *. destruct (ch_cleanup st) as [id|] eqn:Ec; [|by rewrite ?Ec].
    destruct entries as [|[w h] entries]; [by rewrite ?Ec|]. destruct (_ && _); [|by rewrite ?Ec].
    cbn. rewrite ?Ec. destruct Hst as (? & ? & ? & c & ? & ? & ? & Hp). repeat split; auto. exists c.
    rewrite Hp. cbn. by rewrite Nat.eqb_refl.
  - destruct (ch_mounted st); [|done]. destruct (cleanup_inv _ _ Hst) as [Hcl Hnone].
    unfold chart_inv in *. cbn. by rewrite Hnone in *.
Qed.

Lemma unmounted_clean t st : chart_inv t st -> ch_mounted st = false -> ch_cleanup st = None.
Proof. unfold chart_inv. destruct (ch_cleanup st); [intros [? _]; congruence | done]. Qed.

Lemma chart_run_inv t st : chart_run t st -> chart_inv t st.
Proof.
  induction 1 as [t | t st e ev _ IH Ht Htame]; [done|].
  pose proof (chart_inv_later _ _ _ Ht IH). apply chart_step_inv; [done | done | by eapply unmounted_clean].
Qed.

(** ** What the chart guarantees *)

(** C36: The charting library is used as it asks to be.  However the chart is
    mounted, switched to other markets and anchors, fed with oracle ticks,
    resized and unmounted, as long as the clock does not go back and the
    seeded values and the oracle's prices are within the library's 9e13 (which
    the component does not check), the library accepts every call: there is
    never a second chart beside a live one and no call to a removed one, the
    seeded candles and volumes ascend in time, no update is older than the
    last bar, and every candle built from the ticks is in range again.  While
    the component is unmounted no chart is left. *)
Theorem chart_calls_accepted (t : Z) (st : ChartSt) :
  chart_run t st ->
  exists lv, protocol (ch_calls st) = Some lv /\ (ch_mounted st = false -> lv = None).
Proof.
  intros Hr. pose proof (chart_run_inv _ _ Hr) as Hi. pose proof (unmounted_clean _ _ Hi) as Hu.
  unfold chart_inv in Hi. destruct (ch_cleanup st) as [id|].
  - destruct Hi as (Hm & _ & _ & c & _ & _ & _ & Hp). eexists. split; [exact Hp|]. congruence.
  - destruct Hi as [Hp _]. by exists None.
Qed.

Definition demo_env (nowMs : Z) : ChartEnv := mkEnv nowMs (fun _ => n_lit 5 (-1)) (Some (nint 800, nint 400)).
Definition demo_tick : WsOracle := mkWsOracle "oracle.btc-usd" "99000000000000000000000" "0" "0" "0".

Definition demo_chart : ChartSt :=
  chart_step (demo_env 190000) ChUnmount
    (chart_step (demo_env 185000) (ChMessage demo_tick)
      (chart_step (demo_env 180000) (ChProps "btc-usd" (nint 99000))
        (chart_step (demo_env 125000) (ChMessage demo_tick)
          (chart_step (demo_env 120000) (ChMount "btc-usd" (nint 100000)) chart_init)))).

Lemma chart_calls_accepted_witness :
  protocol (ch_calls demo_chart) = Some None /\ length (ch_calls demo_chart) = 24%nat.
Proof.
  split; [|vm_compute; reflexivity].
  destruct (chart_calls_accepted 190000 demo_chart) as (lv & E & H).
  - apply (chart_run_step 185000 _ (demo_env 190000) ChUnmount); [|cbn; lia|reflexivity].
    apply (chart_run_step 180000 _ (demo_env 185000) (ChMessage demo_tick)); [|cbn; lia|vm_compute; reflexivity].
    apply (chart_run_step 125000 _ (demo_env 180000) (ChProps "btc-usd" (nint 99000))); [|cbn; lia|vm_compute; reflexivity].
    apply (chart_run_step 120000 _ (demo_env 125000) (ChMessage demo_tick)); [|cbn; lia|vm_compute; reflexivity].
    apply (chart_run_step 0 _ (demo_env 120000) (ChMount "btc-usd" (nint 100000)) (chart_run_init 0)); [cbn; lia|vm_compute; reflexivity].
  - rewrite E. f_equal. apply H. vm_compute. reflexivity.
Defined.

(** The guard lets a price through that the library rejects: with a tick of
    ten to the fourteen dollars, finite and positive, the candle handed to it
    is out of range. *)
Theorem chart_forwards_huge_price :
  let huge := mkWsOracle "oracle.btc-usd" "100000000000000000000000000000000" "0" "0" "0" in
  let st := chart_step (demo_env 125000) (ChMessage huge)
              (chart_step (demo_env 120000) (ChMount "btc-usd" (nint 100000)) chart_init) in
  protocol (ch_calls st) = None /\ protocol (drop 2 (ch_calls st)) <> None.
Proof. vm_compute. split; [reflexivity|discriminate]. Qed.
