(* ===== verification/Jsx.v ===== *)
(** * Rendered trees

    What a component of the marketing site and the documentation renders: a
    tree of elements with their attributes and texts, in the order of the
    source.  Class names, inline styles, strokes and React keys are left out.
    A component that is called with properties is a function to trees, so a
    page is composed of its parts as the source composes it; [Frag] stands for
    a fragment, an array of children or a conditional child.

    The traversals collect what the site's integrity depends on: the anchors
    ([ids]), the links ([hrefs]) and the text a reader sees ([text_of]). *)
From S2P Require Import Prelude JsText JsColl.
From Stdlib Require Import Ascii.

Inductive Jsx :=
| Txt (s : string)
| El (tag : string) (attrs : list (string * string)) (kids : list Jsx).

Definition Frag (kids : list Jsx) : Jsx := El "" [] kids.

(** The quotation mark, for texts that hold one. *)
Definition dq : string := String "034"%char EmptyString.

(** The same for texts that hold many, written with a tilde for each. *)
Fixpoint unq (s : string) : string :=
  match s with
  | EmptyString => EmptyString
  | String c s' => String (if Ascii.eqb c "~"%char then "034"%char else c) (unq s')
  end.

(** ** Traversals *)

(** Folding a tree: what each element adds, in document order. *)
Fixpoint jsx_collect {A} (text : string -> list A) (el : string -> list (string * string) -> list A) (j : Jsx) : list A :=
  match j with
  | Txt s => text s
  | El tag attrs kids => el tag attrs ++ flat_map (jsx_collect text el) kids
  end.

(** The values of one attribute. *)
Definition attr_values (name : string) : Jsx -> list string :=
  jsx_collect (fun _ => []) (fun _ attrs => omap (fun '(n, v) => if String.eqb n name then Some v else None) attrs).

Definition ids : Jsx -> list string := attr_values "id".
Definition hrefs : Jsx -> list string := attr_values "href".

Definition texts : Jsx -> list string := jsx_collect (fun s => [s]) (fun _ _ => []).
Definition text_of (j : Jsx) : string := str_join "" (texts j).

(** The elements with a given tag. *)
Fixpoint by_tag (tag : string) (j : Jsx) : list Jsx :=
  match j with
  | Txt _ => []
  | El t attrs kids => (if String.eqb t tag then [j] else []) ++ flat_map (by_tag tag) kids
  end.

Definition attr (name : string) (j : Jsx) : option string :=
  match j with
  | Txt _ => None
  | El _ attrs _ => snd <$> List.find (fun p => String.eqb (fst p) name) attrs
  end.

(** ** Facts *)

Lemma collect_frag {A} (text : string -> list A) el kids :
  el "" [] = [] -> jsx_collect text el (Frag kids) = flat_map (jsx_collect text el) kids.
Proof. intros E. cbn. by rewrite E. Qed.

Lemma collect_map {A B} (text : string -> list A) el (f : B -> Jsx) (g : B -> list A) l :
  (forall x, jsx_collect text el (f x) = g x) -> flat_map (jsx_collect text el) (map f l) = flat_map g l.
Proof. intros E. induction l as [|x l IH]; cbn; [done|]. by rewrite E, IH. Qed.

(** ** Links *)

(** Where a link leads: another site, an anchor of the same page, or a path of
    this site with an optional anchor. *)
Inductive Target := External (url : string) | Anchor (id : string) | Internal (path : string) (anchor : option string).

Fixpoint split_at_hash (s : string) : string * option string :=
  match s with
  | EmptyString => (EmptyString, None)
  | String c s' =>
      if Ascii.eqb c "#"%char then (EmptyString, Some s')
      else let '(a, b) := split_at_hash s' in (String c a, b)
  end.

Definition target_of (href : string) : Target :=
  if String.prefix "https://" href || String.prefix "http://" href then External href
  else match split_at_hash href with
       | (EmptyString, Some a) => Anchor a
       | (p, a) => Internal p a
       end.
