(* ===== verification/DocsParts.v ===== *)
(** * The parts of the documentation

    The building blocks of the documentation page: sections, call-outs, code
    blocks with their copy button, steps and questions
    (web/components/spark/docs), and the cards of
    web/app/(marketing)/docs/page.tsx.  A code block keeps state; the others are
    functions of their properties. *)
From S2P Require Import Prelude JsText JsColl Jsx.
From Stdlib Require Import Ascii.
#[local] Open Scope Z_scope.

(** ** Section.tsx *)

Definition DocSection (id : string) (eyebrow : option string) (title : string) (icon : option Jsx) (children : list Jsx) : Jsx :=
  El "section" [("id", id)] [Frag (match eyebrow with Some e => if str_truthy e then [El "div" [] [Txt e]] else [] | None => [] end);
    El "h2" [] [Frag (match icon with Some i => [El "span" [] [i]] | None => [] end);
      El "span" [] [Txt title];
      El "a" [("href", "#" +:+ id); ("aria-label", "Anchor")] [Txt "#"]];
    El "div" [] [Frag children]].

(** ** Callout.tsx *)

Inductive Kind := kind_info | kind_warn | kind_tip.

Record CalloutStyle := mkCalloutStyle { cs_bg : string; cs_border : string; cs_icon : string; cs_label : string }.

Definition STYLE (kind : Kind) : CalloutStyle :=
  match kind with
  | kind_info => mkCalloutStyle "color-mix(in oklab, var(--info), transparent 88%)" "var(--info)" "i" "Note"
  | kind_warn => mkCalloutStyle "color-mix(in oklab, var(--warn), transparent 86%)" "var(--warn)" "!" "Warning"
  | kind_tip => mkCalloutStyle "color-mix(in oklab, var(--accent), transparent 88%)" "var(--accent)" "★" "Tip"
  end.

Definition Callout (kind : Kind) (children : list Jsx) : Jsx :=
  let s := STYLE kind in
  El "div" [("style.background", cs_bg s); ("style.borderColor", cs_border s)] [El "span" [("style.background", cs_border s)] [Txt (cs_icon s)];
    El "div" [] [El "div" [] [Txt (cs_label s)];
      Frag children]].

(** ** Steps.tsx and FAQ.tsx *)

Definition Steps (steps : list (string * list Jsx)) : Jsx :=
  El "ol" [] [Frag (imap (fun i s => El "li" [] [El "div" [] [Txt (padStart (bigint_toString (Z.of_nat (S i))) 2 "0"%char)];
          El "div" [] [El "h4" [] [Txt (fst s)];
            El "div" [] [Frag (snd s)]]]) steps)].

Definition FAQ (items : list (string * list Jsx)) : Jsx :=
  El "div" [] [Frag (map (fun it => El "details" [] [El "summary" [] [El "span" [] [Txt (fst it)];
            El "span" [] [El "svg" [("width", "14"); ("height", "14"); ("viewBox", "0 0 24 24"); ("fill", "none")] [El "path" [("d", "M12 5v14M5 12h14")] []]]];
          El "div" [] [Frag (snd it)]]) items)].

(** ** Code.tsx *)

Definition Code_view (copied : bool) (language text : string) : Jsx :=
  El "div" [] [El "div" [] [El "div" [] [El "span" [] [];
        El "span" [] [];
        El "span" [] [];
        El "span" [] [Txt language]];
      El "button" [("onClick", "copy"); ("aria-label", "Copy code")] [Frag (if copied then [El "svg" [("width", "11"); ("height", "11"); ("viewBox", "0 0 24 24"); ("fill", "none")] [El "path" [("d", "M5 13l4 4L19 7")] []];
            Txt "Copied"] else [El "svg" [("width", "11"); ("height", "11"); ("viewBox", "0 0 24 24"); ("fill", "none")] [El "rect" [("x", "8"); ("y", "8"); ("width", "13"); ("height", "13"); ("rx", "2")] [];
              El "path" [("d", "M16 8V5a2 2 0 00-2-2H5a2 2 0 00-2 2v9a2 2 0 002 2h3")] []];
            Txt "Copy"])]];
    El "pre" [] [El "code" [] [Txt text]]].

(** What the page shows before anyone has copied anything. *)
Definition Code_first (language text : string) : Jsx := Code_view false language text.

(** ** The cards of docs/page.tsx *)

Inductive Tone := tone_warm | tone_cool.

Definition warm (t : Tone) : bool := match t with tone_warm => true | tone_cool => false end.

Definition StatCard (label value : string) : Jsx :=
  El "div" [] [El "div" [] [Txt label];
    El "div" [] [Txt value]].

Definition TifCard (tag name body : string) : Jsx :=
  El "div" [] [El "div" [] [Txt tag];
    El "div" [] [Txt name];
    El "p" [] [Txt body]].

Definition FeeCard (label value note : string) (tone : Tone) : Jsx :=
  let tag := if warm tone then "var(--accent-soft)" else "color-mix(in oklab, var(--long), transparent 86%)" in
  let valColor := if warm tone then "var(--accent-strong)" else "var(--long-strong)" in
  El "div" [] [El "div" [] [El "div" [] [Txt label];
      El "div" [] [Txt note]];
    El "div" [("style.background", tag); ("style.color", valColor)] [Txt value]].

Definition OrderTypeCard (name role : string) (tone : Tone) (body : string) (bullets : list string) (icon : Jsx) : Jsx :=
  let accent := if warm tone then "var(--accent)" else "var(--info)" in
  let accentStrong := if warm tone then "var(--accent-strong)" else "#1c6bc4" in
  let tint := if warm tone then "color-mix(in oklab, var(--accent), transparent 92%)"
    else "color-mix(in oklab, var(--info), transparent 92%)" in
  El "div" [("style.borderColor", accent); ("style.background", tint)] [El "div" [("style.background", accent)] [];
    El "div" [] [El "div" [("style.background", accentStrong)] [icon];
      El "span" [("style.background", accentStrong)] [Txt role]];
    El "h4" [("style.color", accentStrong)] [Txt name];
    El "p" [] [Txt body];
    El "ul" [] [Frag (map (fun b => El "li" [] [El "svg" [("width", "12"); ("height", "12"); ("viewBox", "0 0 24 24"); ("fill", "none")] [El "path" [("d", "M5 13l4 4L19 7")] []];
            Txt b]) bullets)]].

Definition ModifierCard (name body : string) (icon : Jsx) : Jsx :=
  El "div" [] [El "div" [] [icon];
    El "div" [] [Txt name];
    El "p" [] [Txt body]].

Record Palette := mkPalette { pl_color : string; pl_strong : string; pl_bg : string }.

Definition method_palette (method : string) : Palette :=
  if String.eqb method "GET" then mkPalette "var(--info)" "#1c6bc4" "color-mix(in oklab, var(--info), transparent 94%)"
  else if String.eqb method "POST" then mkPalette "var(--long)" "var(--long-strong)" "color-mix(in oklab, var(--long), transparent 94%)"
  else mkPalette "var(--short)" "var(--short-strong)" "color-mix(in oklab, var(--short), transparent 94%)".

Definition Endpoint (method path desc : string) : Jsx :=
  let palette := method_palette method in
  El "div" [] [El "div" [("style.background", pl_bg palette)] [El "span" [("style.color", pl_strong palette)] [Txt method]];
    El "div" [] [El "span" [] [Txt path];
      El "span" [] [Txt desc]]].

(** ** The copy button of Code.tsx

    The label, and the due times of the timers that will clear it; a click
    whose clipboard write fails changes nothing. *)
Record CodeUi := mkCodeUi { cd_copied : bool; cd_timers : list Z; cd_now : Z }.

Definition code_init (now : Z) : CodeUi := mkCodeUi false [] now.

Definition COPIED_MS : Z := 1400.

Definition copy (written : bool) (u : CodeUi) : CodeUi :=
  if written then mkCodeUi true (cd_timers u ++ [cd_now u + COPIED_MS]) (cd_now u) else u.

(** Time passes: every timer that is due clears the label. *)
Definition code_wait (ms : N) (u : CodeUi) : CodeUi :=
  let now := cd_now u + Z.of_N ms in
  let due := List.filter (fun t => t <=? now) (cd_timers u) in
  mkCodeUi (match due with [] => cd_copied u | _ => false end) (List.filter (fun t => negb (t <=? now)) (cd_timers u)) now.

Inductive CodeEvent := code_click (written : bool) | code_time (ms : N).

Definition code_step (u : CodeUi) (e : CodeEvent) : CodeUi :=
  match e with code_click b => copy b u | code_time ms => code_wait ms u end.

(** While the label says copied, a timer that will clear it is pending, due
    within the 1400 milliseconds. *)
Lemma code_step_inv u e :
  (cd_copied u = true -> exists t, t ∈ cd_timers u /\ t <= cd_now u + COPIED_MS) ->
  cd_copied (code_step u e) = true -> exists t, t ∈ cd_timers (code_step u e) /\ t <= cd_now (code_step u e) + COPIED_MS.
Proof.
  intros Hu. destruct e as [[] | ms]; cbn.
  - intros _. exists (cd_now u + COPIED_MS). split; [set_solver | lia].
  - done.
  - destruct (List.filter (fun t => t <=? cd_now u + Z.of_N ms) (cd_timers u)) eqn:E; [|done].
    intros Hc. destruct (Hu Hc) as (t & Ht & Hle). exists t. split; [|lia].
    apply list_elem_of_In, filter_In. apply list_elem_of_In in Ht. split; [done|].
    destruct (Z.leb_spec t (cd_now u + Z.of_N ms)); [|done].
    assert (Hf : In t (List.filter (fun t => t <=? cd_now u + Z.of_N ms) (cd_timers u)))
      by (apply filter_In; split; [done | lia]).
    by rewrite E in Hf.
Qed.

(** The copied label always goes away: whatever was clicked before, 1400
    milliseconds without a click are enough. *)
Theorem copied_label_clears (now : Z) (es : list CodeEvent) (ms : N) :
  COPIED_MS <= Z.of_N ms -> cd_copied (code_step (foldl code_step (code_init now) es) (code_time ms)) = false.
Proof.
  intros Hms.
  assert (Hinv : forall u, (cd_copied u = true -> exists t, t ∈ cd_timers u /\ t <= cd_now u + COPIED_MS) ->
    let v := foldl code_step u es in cd_copied v = true -> exists t, t ∈ cd_timers v /\ t <= cd_now v + COPIED_MS).
  { induction es as [|e es IH]; [done|]. intros u Hu. cbn. apply IH. by apply code_step_inv. }
  specialize (Hinv (code_init now)). cbn zeta in Hinv. set (v := foldl code_step (code_init now) es) in *. cbn.
  destruct (List.filter _ (cd_timers v)) as [|t l] eqn:E; [|done].
  destruct (cd_copied v) eqn:Ec; [|done]. destruct Hinv as (t & Ht & Hle); [done | done |].
  apply list_elem_of_In in Ht. exfalso. assert (Hf : In t []) by (rewrite <- E; apply filter_In; split; [done | lia]). done.
Qed.

Lemma copied_label_clears_witness :
  cd_copied (code_step (foldl code_step (code_init 0) [code_click true; code_time 1000; code_click true]) (code_time 1400)) = false.
Proof. apply (copied_label_clears 0 [code_click true; code_time 1000; code_click true] 1400). vm_compute. discriminate. Defined.
