(* ===== verification/DocsDiagrams.v ===== *)
(** * The diagrams of the documentation

    web/components/spark/docs/Diagram.tsx: the three inline drawings, with the
    geometry and the texts of their shapes. *)
From S2P Require Import Prelude JsText JsColl Jsx.

Definition MarginDiagram : Jsx :=
  El "div" [] [El "div" [] [];
    El "div" [] [El "div" [] [El "div" [] [Txt "Collateral mechanics"];
        El "div" [] [Txt "cross-margin"]];
      El "svg" [("viewBox", "0 0 640 260")] [El "defs" [] [El "linearGradient" [("id", "usedG"); ("x1", "0"); ("y1", "0"); ("x2", "1"); ("y2", "1")] [El "stop" [("offset", "0"); ("stopColor", "#ffb27a")] [];
            El "stop" [("offset", "1"); ("stopColor", "#d9531d")] []];
          El "linearGradient" [("id", "freeG"); ("x1", "0"); ("y1", "0"); ("x2", "1"); ("y2", "1")] [El "stop" [("offset", "0"); ("stopColor", "#a78bfa")] [];
            El "stop" [("offset", "1"); ("stopColor", "#5e35b1")] []];
          El "filter" [("id", "cardShadow"); ("x", "-10%"); ("y", "-10%"); ("width", "120%"); ("height", "130%")] [El "feDropShadow" [("dx", "0"); ("dy", "6"); ("stdDeviation", "10"); ("floodColor", "#000"); ("floodOpacity", "0.15")] []]];
        El "text" [("x", "320"); ("y", "32"); ("textAnchor", "middle"); ("fill", "var(--fg)"); ("fontFamily", "var(--font-space-grotesk)"); ("fontSize", "16"); ("fontWeight", "700")] [Txt "Total USDC collateral"];
        El "g" [("filter", "url(#cardShadow)")] [El "rect" [("x", "40"); ("y", "70"); ("width", "560"); ("height", "80"); ("rx", "20"); ("fill", "var(--bg-2)")] [];
          El "rect" [("x", "44"); ("y", "74"); ("width", "208"); ("height", "72"); ("rx", "16"); ("fill", "url(#usedG)")] [];
          El "rect" [("x", "256"); ("y", "74"); ("width", "340"); ("height", "72"); ("rx", "16"); ("fill", "url(#freeG)")] []];
        El "text" [("x", "148"); ("y", "108"); ("textAnchor", "middle"); ("fill", "white"); ("fontFamily", "var(--font-space-grotesk)"); ("fontSize", "20"); ("fontWeight", "800"); ("letterSpacing", "2")] [Txt "USED"];
        El "text" [("x", "148"); ("y", "130"); ("textAnchor", "middle"); ("fill", "rgba(255,255,255,0.78)"); ("fontFamily", "var(--font-jbmono)"); ("fontSize", "11")] [Txt "37% of collateral"];
        El "text" [("x", "426"); ("y", "108"); ("textAnchor", "middle"); ("fill", "white"); ("fontFamily", "var(--font-space-grotesk)"); ("fontSize", "20"); ("fontWeight", "800"); ("letterSpacing", "2")] [Txt "FREE"];
        El "text" [("x", "426"); ("y", "130"); ("textAnchor", "middle"); ("fill", "rgba(255,255,255,0.78)"); ("fontFamily", "var(--font-jbmono)"); ("fontSize", "11")] [Txt "63% of collateral"];
        El "path" [("d", "M 44 168 L 44 178 L 252 178 L 252 168"); ("fill", "none")] [];
        El "path" [("d", "M 256 168 L 256 178 L 596 178 L 596 168"); ("fill", "none")] [];
        El "text" [("x", "148"); ("y", "200"); ("textAnchor", "middle"); ("fill", "#d9531d"); ("fontFamily", "var(--font-space-grotesk)"); ("fontSize", "15"); ("fontWeight", "700")] [Txt "Initial Margin"];
        El "text" [("x", "148"); ("y", "220"); ("textAnchor", "middle"); ("fill", "var(--fg-mid)"); ("fontFamily", "var(--font-jbmono)"); ("fontSize", "12")] [Txt "notional × IM%"];
        El "text" [("x", "148"); ("y", "240"); ("textAnchor", "middle"); ("fill", "var(--fg-muted)"); ("fontFamily", "var(--font-jbmono)"); ("fontSize", "11")] [Txt "locked until close"];
        El "text" [("x", "426"); ("y", "200"); ("textAnchor", "middle"); ("fill", "#5e35b1"); ("fontFamily", "var(--font-space-grotesk)"); ("fontSize", "15"); ("fontWeight", "700")] [Txt "Free collateral"];
        El "text" [("x", "426"); ("y", "220"); ("textAnchor", "middle"); ("fill", "var(--fg-mid)"); ("fontFamily", "var(--font-jbmono)"); ("fontSize", "12")] [Txt "backs PnL swings + new trades"];
        El "text" [("x", "426"); ("y", "240"); ("textAnchor", "middle"); ("fill", "var(--fg-muted)"); ("fontFamily", "var(--font-jbmono)"); ("fontSize", "11")] [Txt "withdrawable any time"]]]].

Definition FundingDiagram : Jsx :=
  El "div" [] [El "div" [] [];
    El "div" [] [El "div" [] [El "div" [] [Txt "Funding flow · every 8h"];
        El "div" [] [Txt "arrow reverses when funding < 0"]];
      El "svg" [("viewBox", "0 0 720 240")] [El "defs" [] [El "marker" [("id", "arrowR"); ("viewBox", "0 0 10 10"); ("refX", "8"); ("refY", "5"); ("markerWidth", "6"); ("markerHeight", "6"); ("orient", "auto")] [El "path" [("d", "M0 0 L10 5 L0 10 z"); ("fill", "#d9531d")] []];
          El "linearGradient" [("id", "longBox"); ("x1", "0"); ("y1", "0"); ("x2", "1"); ("y2", "1")] [El "stop" [("offset", "0"); ("stopColor", "#34c485")] [];
            El "stop" [("offset", "1"); ("stopColor", "#0a8a57")] []];
          El "linearGradient" [("id", "shortBox"); ("x1", "0"); ("y1", "0"); ("x2", "1"); ("y2", "1")] [El "stop" [("offset", "0"); ("stopColor", "#ff7e8e")] [];
            El "stop" [("offset", "1"); ("stopColor", "#b32034")] []];
          El "linearGradient" [("id", "arrowG"); ("x1", "0"); ("y1", "0"); ("x2", "1"); ("y2", "0")] [El "stop" [("offset", "0"); ("stopColor", "#ffb27a")] [];
            El "stop" [("offset", "1"); ("stopColor", "#d9531d")] []]];
        El "rect" [("x", "30"); ("y", "60"); ("width", "200"); ("height", "120"); ("rx", "18"); ("fill", "url(#longBox)")] [];
        El "text" [("x", "130"); ("y", "106"); ("textAnchor", "middle"); ("fill", "white"); ("fontFamily", "var(--font-space-grotesk)"); ("fontSize", "26"); ("fontWeight", "800"); ("letterSpacing", "2")] [Txt "LONGS"];
        El "text" [("x", "130"); ("y", "138"); ("textAnchor", "middle"); ("fill", "rgba(255,255,255,0.85)"); ("fontFamily", "var(--font-jbmono)"); ("fontSize", "12")] [Txt "pay when"];
        El "text" [("x", "130"); ("y", "156"); ("textAnchor", "middle"); ("fill", "rgba(255,255,255,0.85)"); ("fontFamily", "var(--font-jbmono)"); ("fontSize", "12")] [Txt "funding > 0"];
        El "text" [("x", "360"); ("y", "92"); ("textAnchor", "middle"); ("fill", "#d9531d"); ("fontFamily", "var(--font-jbmono)"); ("fontSize", "13"); ("fontWeight", "700")] [Txt "fundingRate"];
        El "text" [("x", "360"); ("y", "112"); ("textAnchor", "middle"); ("fill", "#d9531d"); ("fontFamily", "var(--font-jbmono)"); ("fontSize", "13"); ("fontWeight", "700")] [Txt "× notional × Δt"];
        El "line" [("x1", "250"); ("y1", "135"); ("x2", "470"); ("y2", "135"); ("markerEnd", "url(#arrowR)")] [];
        El "rect" [("x", "490"); ("y", "60"); ("width", "200"); ("height", "120"); ("rx", "18"); ("fill", "url(#shortBox)")] [];
        El "text" [("x", "590"); ("y", "106"); ("textAnchor", "middle"); ("fill", "white"); ("fontFamily", "var(--font-space-grotesk)"); ("fontSize", "26"); ("fontWeight", "800"); ("letterSpacing", "2")] [Txt "SHORTS"];
        El "text" [("x", "590"); ("y", "138"); ("textAnchor", "middle"); ("fill", "rgba(255,255,255,0.85)"); ("fontFamily", "var(--font-jbmono)"); ("fontSize", "12")] [Txt "receive when"];
        El "text" [("x", "590"); ("y", "156"); ("textAnchor", "middle"); ("fill", "rgba(255,255,255,0.85)"); ("fontFamily", "var(--font-jbmono)"); ("fontSize", "12")] [Txt "funding > 0"];
        El "text" [("x", "360"); ("y", "215"); ("textAnchor", "middle"); ("fill", "var(--fg-muted)"); ("fontFamily", "var(--font-jbmono)"); ("fontSize", "11")] [Txt "Settles every 28 800 seconds  ·  paid in USDC"]]]].

Definition LiqDiagram : Jsx :=
  El "div" [] [El "div" [] [];
    El "div" [] [El "div" [] [El "div" [] [Txt "Long position · liquidation zone"];
        El "div" [] [Txt "10× leverage example"]];
      El "svg" [("viewBox", "0 0 720 220")] [El "defs" [] [El "linearGradient" [("id", "trackG"); ("x1", "0"); ("y1", "0"); ("x2", "1"); ("y2", "0")] [El "stop" [("offset", "0"); ("stopColor", "#d63044")] [];
            El "stop" [("offset", "0.25"); ("stopColor", "#ffb27a")] [];
            El "stop" [("offset", "0.55"); ("stopColor", "#34c485")] [];
            El "stop" [("offset", "1"); ("stopColor", "#0a8a57")] []]];
        El "rect" [("x", "40"); ("y", "100"); ("width", "640"); ("height", "18"); ("rx", "9"); ("fill", "url(#trackG)")] [];
        El "line" [("x1", "400"); ("y1", "76"); ("x2", "400"); ("y2", "142")] [];
        El "circle" [("cx", "400"); ("cy", "109"); ("r", "7"); ("fill", "var(--fg)")] [];
        El "rect" [("x", "344"); ("y", "48"); ("width", "112"); ("height", "24"); ("rx", "7"); ("fill", "var(--fg)")] [];
        El "text" [("x", "400"); ("y", "65"); ("textAnchor", "middle"); ("fill", "white"); ("fontFamily", "var(--font-jbmono)"); ("fontSize", "11"); ("fontWeight", "700")] [Txt "MARK · $100k"];
        El "line" [("x1", "320"); ("y1", "86"); ("x2", "320"); ("y2", "134")] [];
        El "rect" [("x", "258"); ("y", "146"); ("width", "124"); ("height", "24"); ("rx", "7"); ("fill", "#d9531d")] [];
        El "text" [("x", "320"); ("y", "163"); ("textAnchor", "middle"); ("fill", "white"); ("fontFamily", "var(--font-jbmono)"); ("fontSize", "11"); ("fontWeight", "700")] [Txt "ENTRY · $98.5k"];
        El "line" [("x1", "100"); ("y1", "86"); ("x2", "100"); ("y2", "134")] [];
        El "rect" [("x", "44"); ("y", "146"); ("width", "112"); ("height", "24"); ("rx", "7"); ("fill", "#d63044")] [];
        El "text" [("x", "100"); ("y", "163"); ("textAnchor", "middle"); ("fill", "white"); ("fontFamily", "var(--font-jbmono)"); ("fontSize", "11"); ("fontWeight", "700")] [Txt "LIQ · $94.2k"];
        El "text" [("x", "40"); ("y", "200"); ("fill", "var(--short)"); ("fontFamily", "var(--font-jbmono)"); ("fontSize", "11"); ("fontWeight", "600")] [Txt "← danger zone"];
        El "text" [("x", "680"); ("y", "200"); ("textAnchor", "end"); ("fill", "var(--long-strong)"); ("fontFamily", "var(--font-jbmono)"); ("fontSize", "11"); ("fontWeight", "600")] [Txt "safe zone →"]]]].
