(* ===== verification/DocsSidebar.v ===== *)
(** * The documentation's sidebar

    web/components/spark/docs/Sidebar.tsx: the table of contents, and the
    observer that highlights the section being read. *)
From S2P Require Import Prelude JsNum JsText JsColl FloatFacts Jsx.
From Stdlib Require Import SpecFloat Sorted.

Definition PlayIcon : Jsx :=
  El "svg" [("width", "11"); ("height", "11"); ("viewBox", "0 0 12 12"); ("fill", "currentColor")] [El "path" [("d", "M3 1.6v8.8L10 6z")] []].

Definition BookIcon : Jsx :=
  El "svg" [("width", "11"); ("height", "11"); ("viewBox", "0 0 24 24"); ("fill", "none")] [El "path" [("d", "M4 5h16M4 9h10M4 13h16M4 17h8")] []].

Definition ChartIcon : Jsx :=
  El "svg" [("width", "11"); ("height", "11"); ("viewBox", "0 0 24 24"); ("fill", "none")] [El "path" [("d", "M3 17l5-5 4 3 8-9")] [];
    El "path" [("d", "M14 6h6v6")] []].

Definition CompassIcon : Jsx :=
  El "svg" [("width", "11"); ("height", "11"); ("viewBox", "0 0 24 24"); ("fill", "none")] [El "circle" [("cx", "12"); ("cy", "12"); ("r", "9")] [];
    El "path" [("d", "M16 8l-2.5 5.5L8 16l2.5-5.5z"); ("fill", "currentColor")] []].

Definition CodeIcon : Jsx :=
  El "svg" [("width", "11"); ("height", "11"); ("viewBox", "0 0 24 24"); ("fill", "none")] [El "path" [("d", "M8 6l-6 6 6 6M16 6l6 6-6 6")] []].

Definition HelpIcon : Jsx :=
  El "svg" [("width", "11"); ("height", "11"); ("viewBox", "0 0 24 24"); ("fill", "none")] [El "circle" [("cx", "12"); ("cy", "12"); ("r", "9")] [];
    El "path" [("d", "M9.5 9a2.5 2.5 0 015 0c0 1.5-2.5 2-2.5 3.5M12 16h.01")] []].

Record Item := mkItem { it_id : string; it_label : string }.

Record Group := mkGroup { gr_title : string; gr_icon : Jsx; gr_items : list Item }.

Definition GROUPS : list Group :=
  [mkGroup "Getting started" PlayIcon
    [mkItem "intro" "Introduction"; mkItem "quickstart" "Quickstart"; mkItem "deposit" "Deposit USDC"];
    mkGroup "Concepts" BookIcon
    [mkItem "what-is-perp" "What is a perpetual?"; mkItem "margin" "Margin & leverage"; mkItem "funding" "Funding rates"; mkItem "liquidation" "Liquidation"];
    mkGroup "Trading" ChartIcon
    [mkItem "order-types" "Order types"; mkItem "tif" "Time in force"; mkItem "session-keys" "Session keys"; mkItem "eip712" "EIP-712 orders"; mkItem "fees" "Fees"];
    mkGroup "Tutorials" CompassIcon
    [mkItem "tut-first-long" "Open your first long"; mkItem "tut-limit" "Place a limit order"; mkItem "tut-session" "Approve a session key"; mkItem "tut-close" "Close a position"];
    mkGroup "Developers" CodeIcon
    [mkItem "api-rest" "REST API"; mkItem "api-ws" "WebSocket channels"];
    mkGroup "Other" HelpIcon
    [mkItem "faq" "FAQ"; mkItem "risk" "Risk disclosure"]].

Definition Sidebar_view (active : string) : Jsx :=
  El "nav" [("aria-label", "Documentation")] [El "ul" [] [Frag (map (fun g => El "li" [] [El "div" [] [El "span" [] [gr_icon g];
              El "span" [] [Txt (gr_title g)]];
            El "ul" [] [Frag (map (fun it => El "li" [] [El "a" [("href", "#" +:+ it_id it); ("className", if String.eqb active (it_id it) 
                then "block py-2 px-3 transition-colors bg-[var(--accent-soft)] text-[var(--fg)] font-semibold rounded-[10px]"
                else "block py-2 px-3 transition-colors border-l border-[var(--border)] -ml-px text-[var(--fg-mid)] hover:text-[var(--fg)] hover:border-[var(--border-strong)]")] [Txt (it_label it)]]) (gr_items g))]]) GROUPS)]].

Definition INITIAL_ACTIVE : string := "intro".

(** The elements the effect observes, in order. *)
Definition spy_ids : list string := flat_map (fun g => map it_id (gr_items g)) GROUPS.

(** ** The observer's callback *)

Record Entry := mkEntry { en_id : string; en_isIntersecting : bool; en_top : number }.

(** The comparator of the sort is positive. *)
Definition below (a b : Entry) : bool := (nint 0 <? en_top a - en_top b)%num.

Definition spy (active : string) (entries : list Entry) : string :=
  match js_sort below (List.filter en_isIntersecting entries) with
  | e :: _ => en_id e
  | [] => active
  end.

(** ** What is highlighted *)

(** A position in the viewport is a finite number. *)
Definition placed (e : Entry) : Prop := valid (en_top e) = true /\ num_isFinite (en_top e) = true.

Lemma below_ltb a b : placed a -> placed b -> below a b = SFltb (en_top b) (en_top a).
Proof. intros [? ?] [? ?]. by apply num_sub_pos. Qed.

Lemma placed_not_nan e : placed e -> num_isNaN (en_top e) = false.
Proof. intros [_ H]. by destruct (en_top e). Qed.

Lemma below_consistent : gt_consistent below placed.
Proof.
  split.
  - intros x y Hx Hy. rewrite !below_ltb by done. intros E. rewrite num_ltb_negb_leb by by apply placed_not_nan.
    apply negb_false_iff. exact (ltb_leb (A := number) (en_top y) (en_top x) E).
  - intros x y z Hx Hy Hz. rewrite !below_ltb by done.
    rewrite !num_ltb_negb_leb by by apply placed_not_nan. rewrite !negb_false_iff. intros. by eapply num_leb_trans.
Qed.

Lemma elem_of_visible e entries :
  e ∈ List.filter en_isIntersecting entries <-> e ∈ entries /\ en_isIntersecting e = true.
Proof. by rewrite !list_elem_of_In, filter_In. Qed.

(** The head of the sorted visible entries is the topmost of them. *)
Lemma sorted_head_topmost entries e l :
  Forall placed entries -> js_sort below (List.filter en_isIntersecting entries) = e :: l ->
  e ∈ entries /\ en_isIntersecting e = true /\
  forall e', e' ∈ entries -> en_isIntersecting e' = true -> SFleb (en_top e) (en_top e') = true.
Proof.
  intros Hp E. rewrite Forall_forall in Hp.
  assert (Hv : Forall placed (List.filter en_isIntersecting entries))
    by (apply Forall_forall; intros x [Hx _]%elem_of_visible; by apply Hp).
  pose proof (js_sort_perm below (List.filter en_isIntersecting entries)) as Hperm.
  pose proof (js_sort_sorted below below_consistent _ Hv) as Hs. rewrite E in Hperm, Hs.
  assert (He : e ∈ List.filter en_isIntersecting entries) by (rewrite <- Hperm; constructor).
  apply elem_of_visible in He as [He Hi]. split; [done|]. split; [done|].
  intros e' He' Hi'. apply StronglySorted_inv in Hs as [_ Hs]. rewrite Forall_forall in Hs.
  assert (Hin : e' ∈ e :: l) by (rewrite Hperm; by apply elem_of_visible).
  apply elem_of_cons in Hin as [Heq | Hin]; [subst e'; exact (leb_refl (A := number) (en_top e) (placed_not_nan e (Hp e He)))|].
  specialize (Hs _ Hin). rewrite below_ltb in Hs by auto.
  rewrite num_ltb_negb_leb in Hs by (apply placed_not_nan; auto). by apply negb_false_iff in Hs.
Qed.

(** The sidebar highlights the section being read.  When the observer
    reports sections, the highlight moves to the topmost one that is visible,
    and stays where it was when none is; since only sections of the table of
    contents are observed, what is highlighted is always an entry of it. *)
Theorem sidebar_highlights_topmost (active : string) (entries : list Entry) :
  Forall placed entries -> Forall (fun e => en_id e ∈ spy_ids) entries -> active ∈ spy_ids ->
  spy active entries ∈ spy_ids /\
  ((forall e, e ∈ entries -> en_isIntersecting e = false) -> spy active entries = active) /\
  ((exists e, e ∈ entries /\ en_isIntersecting e = true) ->
   exists e, e ∈ entries /\ en_isIntersecting e = true /\ spy active entries = en_id e /\
     forall e', e' ∈ entries -> en_isIntersecting e' = true -> SFleb (en_top e) (en_top e') = true).
Proof.
  intros Hp Hid Ha. unfold spy. rewrite Forall_forall in Hid.
  destruct (js_sort below (List.filter en_isIntersecting entries)) as [|e l] eqn:E.
  - split; [done|]. split; [done|]. intros (e & He & Hi). exfalso.
    assert (Hin : e ∈ js_sort below (List.filter en_isIntersecting entries))
      by (rewrite (js_sort_perm below); by apply elem_of_visible).
    rewrite E in Hin. by apply not_elem_of_nil in Hin.
  - destruct (sorted_head_topmost _ _ _ Hp E) as (He & Hi & Hmin). split; [by apply Hid|]. split.
    + intros Hnone. by rewrite (Hnone _ He) in Hi.
    + intros _. exists e. auto.
Qed.

Lemma sidebar_highlights_topmost_witness :
  spy "intro" [mkEntry "margin" true (nint 300); mkEntry "funding" false (nint 10); mkEntry "deposit" true (nint 120)]
    ∈ spy_ids /\
  spy "intro" [mkEntry "margin" true (nint 300); mkEntry "funding" false (nint 10); mkEntry "deposit" true (nint 120)]
    = "deposit".
Proof.
  split; [|vm_compute; reflexivity].
  apply (sidebar_highlights_topmost "intro"
    [mkEntry "margin" true (nint 300); mkEntry "funding" false (nint 10); mkEntry "deposit" true (nint 120)]).
  - repeat constructor.
  - repeat constructor; apply (bool_decide_unpack _); vm_compute; exact I.
  - apply (bool_decide_unpack _). vm_compute. exact I.
Defined.
