(* ===== verification/DocsPage.v ===== *)
(** * The documentation page

    web/app/(marketing)/docs/page.tsx: its header, its twenty sections and its
    closing card, built from the parts of DocsParts.v, DocsDiagrams.v and
    DocsSidebar.v. *)
From S2P Require Import Prelude JsText JsColl Jsx DocsParts DocsDiagrams DocsSidebar.

(** ** Icons *)

Definition PinIcon : Jsx :=
  El "svg" [("width", "16"); ("height", "16"); ("viewBox", "0 0 24 24"); ("fill", "none")] [El "path" [("d", "M12 2v8M5 10h14l-2 4H7l-2-4zM12 14v8")] []].

Definition PlayIcon : Jsx :=
  El "svg" [("width", "18"); ("height", "18"); ("viewBox", "0 0 12 12"); ("fill", "currentColor")] [El "path" [("d", "M3 1.6v8.8L10 6z")] []].

Definition BoltIcon : Jsx :=
  El "svg" [("width", "18"); ("height", "18"); ("viewBox", "0 0 24 24"); ("fill", "currentColor")] [El "path" [("d", "M13 2L4 14h7l-1 8 9-12h-7l1-8z")] []].

Definition CoinIcon : Jsx :=
  El "svg" [("width", "18"); ("height", "18"); ("viewBox", "0 0 24 24"); ("fill", "none")] [El "circle" [("cx", "12"); ("cy", "12"); ("r", "9")] [];
    El "path" [("d", "M9 9.5c.5-1 1.8-1.5 3-1.5 1.7 0 3 .8 3 2s-1 1.7-3 2-3 1-3 2 1.3 2 3 2c1.3 0 2.5-.5 3-1.5M12 6v12")] []].

Definition InfinityIcon : Jsx :=
  El "svg" [("width", "18"); ("height", "18"); ("viewBox", "0 0 24 24"); ("fill", "none")] [El "path" [("d", "M5 12c0-3 2.5-5 5-5s5 3 5 5 2.5 5 5 5-2.5-5-5-5-2.5 5-5 5-5-2-5-5z")] []].

Definition ShieldIcon : Jsx :=
  El "svg" [("width", "18"); ("height", "18"); ("viewBox", "0 0 24 24"); ("fill", "none")] [El "path" [("d", "M12 3l8 3v6c0 5-3.5 8-8 9-4.5-1-8-4-8-9V6l8-3z")] []].

Definition RefreshIcon : Jsx :=
  El "svg" [("width", "18"); ("height", "18"); ("viewBox", "0 0 24 24"); ("fill", "none")] [El "path" [("d", "M3 12a9 9 0 0114-7.5L21 8M3 8v0M21 12a9 9 0 01-14 7.5L3 16M21 16v0")] []].

Definition WarnIcon : Jsx :=
  El "svg" [("width", "18"); ("height", "18"); ("viewBox", "0 0 24 24"); ("fill", "none")] [El "path" [("d", "M12 4l9 16H3L12 4zM12 10v5M12 18h.01")] []].

Definition OrderIcon : Jsx :=
  El "svg" [("width", "18"); ("height", "18"); ("viewBox", "0 0 24 24"); ("fill", "none")] [El "rect" [("x", "4"); ("y", "5"); ("width", "16"); ("height", "14"); ("rx", "2")] [];
    El "path" [("d", "M4 10h16")] []].

Definition ClockIcon : Jsx :=
  El "svg" [("width", "12"); ("height", "12"); ("viewBox", "0 0 24 24"); ("fill", "none")] [El "circle" [("cx", "12"); ("cy", "12"); ("r", "9")] [];
    El "path" [("d", "M12 7v5l3 2")] []].

Definition KeyIcon : Jsx :=
  El "svg" [("width", "18"); ("height", "18"); ("viewBox", "0 0 24 24"); ("fill", "none")] [El "circle" [("cx", "8"); ("cy", "15"); ("r", "3.5")] [];
    El "path" [("d", "M10.5 13L20 3.5M16 7l2 2M18 5l2 2")] []].

Definition SignIcon : Jsx :=
  El "svg" [("width", "18"); ("height", "18"); ("viewBox", "0 0 24 24"); ("fill", "none")] [El "path" [("d", "M3 17c2-2 5-3 7-1s5 0 7-2 4-1 4-1")] [];
    El "path" [("d", "M3 21h18")] []].

Definition RocketIcon : Jsx :=
  El "svg" [("width", "18"); ("height", "18"); ("viewBox", "0 0 24 24"); ("fill", "none")] [El "path" [("d", "M5 19l-2-2 3-3M9 15l-4 4M13 4s7 1 7 7-7 7-7 7-7-7-7-7M14 10a1.5 1.5 0 100-3 1.5 1.5 0 000 3z")] []].

Definition TargetIcon : Jsx :=
  El "svg" [("width", "18"); ("height", "18"); ("viewBox", "0 0 24 24"); ("fill", "none")] [El "circle" [("cx", "12"); ("cy", "12"); ("r", "9")] [];
    El "circle" [("cx", "12"); ("cy", "12"); ("r", "5")] [];
    El "circle" [("cx", "12"); ("cy", "12"); ("r", "1.5"); ("fill", "currentColor")] []].

Definition ExitIcon : Jsx :=
  El "svg" [("width", "18"); ("height", "18"); ("viewBox", "0 0 24 24"); ("fill", "none")] [El "path" [("d", "M14 3h5v18h-5M3 12h12M11 8l4 4-4 4")] []].

Definition ServerIcon : Jsx :=
  El "svg" [("width", "18"); ("height", "18"); ("viewBox", "0 0 24 24"); ("fill", "none")] [El "rect" [("x", "3"); ("y", "4"); ("width", "18"); ("height", "6"); ("rx", "1.5")] [];
    El "rect" [("x", "3"); ("y", "14"); ("width", "18"); ("height", "6"); ("rx", "1.5")] [];
    El "path" [("d", "M7 7h.01M7 17h.01")] []].

Definition BroadcastIcon : Jsx :=
  El "svg" [("width", "18"); ("height", "18"); ("viewBox", "0 0 24 24"); ("fill", "none")] [El "circle" [("cx", "12"); ("cy", "12"); ("r", "2")] [];
    El "path" [("d", "M16 8a5 5 0 010 8M8 8a5 5 0 000 8M19 5a9 9 0 010 14M5 5a9 9 0 000 14")] []].

Definition HelpIcon : Jsx :=
  El "svg" [("width", "18"); ("height", "18"); ("viewBox", "0 0 24 24"); ("fill", "none")] [El "circle" [("cx", "12"); ("cy", "12"); ("r", "9")] [];
    El "path" [("d", "M9.5 9a2.5 2.5 0 015 0c0 1.5-2.5 2-2.5 3.5M12 16h.01")] []].

Definition GitHubIcon : Jsx :=
  El "svg" [("width", "12"); ("height", "12"); ("viewBox", "0 0 24 24"); ("fill", "currentColor")] [El "path" [("fillRule", "evenodd"); ("clipRule", "evenodd"); ("d", "M12 .297c-6.63 0-12 5.373-12 12 0 5.303 3.438 9.8 8.205 11.385.6.113.82-.258.82-.577 0-.285-.01-1.04-.015-2.04-3.338.724-4.042-1.61-4.042-1.61C4.422 18.07 3.633 17.7 3.633 17.7c-1.087-.744.084-.729.084-.729 1.205.084 1.838 1.236 1.838 1.236 1.07 1.835 2.809 1.305 3.495.998.108-.776.417-1.305.76-1.605-2.665-.3-5.466-1.332-5.466-5.93 0-1.31.465-2.38 1.235-3.22-.135-.303-.54-1.523.105-3.176 0 0 1.005-.322 3.3 1.23.96-.267 1.98-.4 3-.405 1.02.005 2.04.138 3 .405 2.28-1.552 3.285-1.23 3.285-1.23.645 1.653.24 2.873.12 3.176.765.84 1.23 1.91 1.23 3.22 0 4.61-2.805 5.625-5.475 5.92.42.36.81 1.096.81 2.22 0 1.606-.015 2.896-.015 3.286 0 .315.21.69.825.57C20.565 22.092 24 17.592 24 12.297c0-6.627-5.373-12-12-12")] []].

(** ** The header *)

Definition ApiPreview : Jsx :=
  El "div" [] [El "div" [] [];
    El "div" [] [El "div" [] [El "div" [] [El "span" [] [];
          El "span" [] [];
          El "span" [] [];
          El "span" [] [Txt "perplex-api · place order"]];
        El "span" [] [Txt "200 OK · 14 ms"]];
      El "pre" [] [Txt (unq "POST /v1/orders
{
  ~market~:  ~BTC-USD~,
  ~side~:    ~buy~,
  ~type~:    ~limit~,
  ~size~:    ~0.25~,
  ~price~:   ~98500~,
  ~tif~:     ~GTC~,
  ~sig~:     ~0x7c…91a~
}

← 200
{
  ~id~:      ~ord_7ZQK9P~,
  ~status~:  ~open~,
  ~filled~:  ~0~,
  ~remain~:  ~0.25~
}")];
      El "div" [] [El "span" [] [];
        Txt "live mainnet · arbitrum"]];
    El "div" [] [El "span" [] [BoltIcon];
      El "div" [] [El "div" [] [Txt "avg fill"];
        El "div" [] [Txt "14 ms"]]]].

Definition docs_header : Jsx :=
  El "header" [] [El "div" [] [El "div" [] [El "div" [] [El "span" [] [El "span" [] [];
            Txt "Docs · v1.1"];
          El "span" [] [ClockIcon;
            Txt "~12 min read"];
          El "a" [("href", "https://github.com/ozpool/Perplex"); ("target", "_blank"); ("rel", "noopener noreferrer")] [GitHubIcon;
            Txt "Edit on GitHub"]];
        El "h1" [] [Txt "Everything you need to";
          Txt " ";
          El "span" [] [Txt "trade Perplex."]];
        El "p" [] [Txt "Concepts, order mechanics, signed messages, API surface, and step-by-step tutorials. Start at the top or jump to a topic."]];
      ApiPreview];
    El "div" [] [StatCard "Sections" "17";
      StatCard "Concepts" "4";
      StatCard "Tutorials" "4";
      StatCard "API endpoints" "10+"]].

(** ** The sections *)

Definition sec_intro : Jsx :=
  DocSection "intro" (Some "Getting started") "Introduction" (Some (PlayIcon)) [El "p" [] [Txt "Perplex is a non-custodial perpetual futures exchange. You trade BTC, ETH and SOL perps with up to 20× cross-margin leverage, your collateral never leaves your wallet until you sign an order, and every fill settles onchain on Arbitrum."];
    El "p" [] [Txt "The frontend you are reading these docs from is one of many possible deployments of the open Perplex protocol. The protocol is governed by a smart-contract Settlement Engine on Arbitrum and a public REST + WebSocket API spec defined in";
      Txt " ";
      El "code" [] [Txt "api-contract.md"];
      Txt "."]].

Definition sec_quickstart : Jsx :=
  DocSection "quickstart" (Some "Getting started") "Quickstart" (Some (BoltIcon)) [El "p" [] [Txt "From zero to your first trade in four steps."];
    Steps [("Connect a wallet", [Txt "MetaMask, Rabby, Coinbase Wallet, or any WalletConnect-compatible wallet on Arbitrum."]);
      ("Sign in with Ethereum", [Txt "Perplex uses SIWE for session auth. One signature, no email, no password."]);
      ("Deposit USDC", [Txt "Open the ";
          El "Link" [("href", "/wallet")] [Txt "Wallet"];
          Txt " tab and transfer USDC from your wallet to the trading vault."]);
      ("Place an order", [Txt "Head to ";
          El "Link" [("href", "/trade/btc-usd")] [Txt "Trade"];
          Txt ", pick Long or Short, set size + leverage, hit the button. Sign the EIP-712 prompt, fill acks in <15ms."])]].

Definition sec_deposit : Jsx :=
  DocSection "deposit" (Some "Getting started") "Deposit USDC" (Some (CoinIcon)) [El "p" [] [Txt "Your trading vault is a smart-contract balance bound to your wallet address. To deposit, approve USDC spending and call ";
      El "code" [] [Txt "vault.deposit(amount)"];
      Txt ". The Wallet UI does this for you."];
    Callout kind_info [Txt "Deposits become tradeable on the next block (~250ms on Arbitrum). Withdrawals are instant onchain — no waiting queue, no bridge, no operator approval."]].

Definition sec_what_is_perp : Jsx :=
  DocSection "what-is-perp" (Some "Concepts") "What is a perpetual?" (Some (InfinityIcon)) [El "p" [] [Txt "A perpetual future (perp) is a leveraged derivative that tracks the spot price of an asset and never expires. Unlike a dated future, there is no settlement date — instead, a continuous ";
      El "strong" [] [Txt "funding rate"];
      Txt " nudges the perp price back toward the underlying index by periodically transferring USDC between longs and shorts."];
    El "p" [] [Txt "On Perplex, every market is quoted in USD and collateralised in USDC. Going";
      Txt " ";
      El "strong" [] [Txt "long"];
      Txt " profits when the index rises; going ";
      El "strong" [] [Txt "short"];
      Txt " ";
      Txt "profits when it falls. Leverage multiplies both."]].

Definition sec_margin : Jsx :=
  DocSection "margin" (Some "Concepts") "Margin & leverage" (Some (ShieldIcon)) [El "p" [] [Txt "Perplex uses ";
      El "strong" [] [Txt "cross-margin"];
      Txt ": one USDC collateral pool backs every open position. Unrealised PnL counts as margin in real time, so winners free up capital and losers consume it."];
    MarginDiagram;
    El "p" [] [Txt "Each market has two key ratios:"];
    El "ul" [] [El "li" [] [El "strong" [] [Txt "Initial Margin (IM)"];
        Txt " — collateral required to open. Default 5% (20× max leverage)."];
      El "li" [] [El "strong" [] [Txt "Maintenance Margin (MM)"];
        Txt " — collateral required to stay open. Default 2.5%. Drop below MM → liquidation."]];
    Code_first "formula" "liquidationPrice = entryPrice × (1 − 1/leverage + MM)   for longs
liquidationPrice = entryPrice × (1 + 1/leverage − MM)   for shorts";
    El "p" [] [Txt "The order form previews your liquidation price before you sign. Always check it."]].

Definition sec_funding : Jsx :=
  DocSection "funding" (Some "Concepts") "Funding rates" (Some (RefreshIcon)) [El "p" [] [Txt "Funding is the mechanism that ties perpetual prices to the index. It settles every 8 hours."];
    FundingDiagram;
    El "ul" [] [El "li" [] [El "strong" [] [Txt "Positive funding"];
        Txt " — perp trading above index. Longs pay shorts."];
      El "li" [] [El "strong" [] [Txt "Negative funding"];
        Txt " — perp trading below index. Shorts pay longs."]];
    Code_first "formula" "fundingAmount = positionNotional × fundingRate × (intervalSec / yearSec)";
    El "p" [] [Txt "Current funding rate + countdown to next settlement is in the market header on the Trade screen. Historical funding is available via ";
      El "code" [] [Txt "/v1/funding/";
        Txt "{marketId}"];
      Txt "."]].

Definition sec_liquidation : Jsx :=
  DocSection "liquidation" (Some "Concepts") "Liquidation" (Some (WarnIcon)) [El "p" [] [Txt "A position is liquidated when its collateral falls below the Maintenance Margin threshold. Liquidations are handled by the Settlement Engine — no manual keeper rent."];
    LiqDiagram;
    El "p" [] [Txt "When liquidated, your position is closed at the oracle price minus a";
      Txt " ";
      El "strong" [] [Txt "liquidation bonus"];
      Txt " (default 1%), paid to the insurance fund. The rest of your collateral is preserved."];
    Callout kind_warn [Txt "Watch ";
      El "strong" [] [Txt "free collateral"];
      Txt " on the Trade screen. The WS account stream emits a ";
      El "code" [] [Txt "liquidation.warning"];
      Txt " when your health factor drops below 1.05."]].

Definition sec_order_types : Jsx :=
  DocSection "order-types" (Some "Trading") "Order types" (Some (OrderIcon)) [El "p" [] [Txt "Perplex supports two order types and three modifiers."];
    El "div" [] [OrderTypeCard "Market" "Taker" tone_warm "Fills immediately against the best opposing levels in the book. No price guarantee — you get what's available." ["Instant execution"; "Always crosses spread"; "Pays taker fee"] (BoltIcon);
      OrderTypeCard "Limit" "Maker / Taker" tone_cool "Rests on the book at your price. Becomes a taker if it crosses, otherwise sits and waits as a maker." ["Price guarantee"; "Can earn maker rebate"; "Sits until filled or cancelled"] (TargetIcon)];
    El "p" [] [Txt "Limit orders accept three modifiers:"];
    El "div" [] [ModifierCard "Post-only" "Reject if the order would cross the spread. Guarantees maker status and the maker rebate." (PinIcon);
      ModifierCard "Reduce-only" "Only allow this order to decrease your position size. Useful for stop-losses and take-profits." (ShieldIcon);
      ModifierCard "Time-in-force" "Pick GTC, IOC or FOK to control how aggressively the order tries to fill. See next section." (ClockIcon)]].

Definition sec_tif : Jsx :=
  DocSection "tif" (Some "Trading") "Time in force" (Some (ClockIcon)) [El "div" [] [TifCard "GTC" "Good-Til-Cancelled" "Order rests until filled or you cancel.";
      TifCard "IOC" "Immediate-Or-Cancel" "Fill what you can right now, cancel the rest.";
      TifCard "FOK" "Fill-Or-Kill" "Fill the entire size now, or cancel the whole order."]].

Definition sec_session_keys : Jsx :=
  DocSection "session-keys" (Some "Trading") "Session keys" (Some (KeyIcon)) [El "p" [] [Txt "Signing every order with your main wallet would mean a popup every few seconds. Session keys solve this."];
    El "p" [] [Txt "You sign ";
      El "strong" [] [Txt "one"];
      Txt " SessionKey approval. The approval creates an in-browser keypair bounded by:"];
    El "ul" [] [El "li" [] [El "strong" [] [Txt "Expiry"];
        Txt " — wall-clock seconds (default 4h)."];
      El "li" [] [El "strong" [] [Txt "Max notional"];
        Txt " — cap on total USDC notional that can be opened."];
      El "li" [] [El "strong" [] [Txt "Allowed markets"];
        Txt " — array of market IDs this session can trade."]];
    El "p" [] [Txt "The session private key lives in IndexedDB, encrypted with a passphrase if you set one. Every subsequent order is signed by the session key, never your wallet. Revoke any time from ";
      El "Link" [("href", "/wallet")] [Txt "Wallet → Sessions"];
      Txt "."];
    Callout kind_tip [Txt "For read-only sessions, set max notional to 0 and only allow query endpoints."]].

Definition sec_eip712 : Jsx :=
  DocSection "eip712" (Some "Trading") "EIP-712 signed orders" (Some (SignIcon)) [El "p" [] [Txt "Every Perplex order is an EIP-712 typed-data signature over the Order struct. The hash is what the Settlement Engine verifies onchain."];
    Code_first "solidity" ("struct Order {
  address owner;
  bytes32 marketId;     // keccak256(market id, e.g. " +:+ dq +:+ "btc-usd" +:+ dq +:+ ")
  uint8   side;         // 0 = buy, 1 = sell
  uint8   orderType;    // 0 = market, 1 = limit
  uint256 price;        // 1e18-scaled
  uint256 qty;          // 1e18-scaled
  uint8   timeInForce;  // 0 = gtc, 1 = ioc, 2 = fok
  bool    reduceOnly;
  bool    postOnly;
  uint256 nonce;        // ns timestamp
  uint64  expiryTsSec;  // 0 = no expiry
}");
    El "p" [] [Txt "Domain separator: ";
      El "code" [] [Txt ("name=" +:+ dq +:+ "Perplex" +:+ dq)];
      Txt ", ";
      El "code" [] [Txt ("version=" +:+ dq +:+ "1" +:+ dq)];
      Txt ",";
      Txt " ";
      El "code" [] [Txt "chainId"];
      Txt ", ";
      El "code" [] [Txt "verifyingContract=SettlementEngine"];
      Txt "."]].

Definition sec_fees : Jsx :=
  DocSection "fees" (Some "Trading") "Fees" (Some (CoinIcon)) [El "div" [] [FeeCard "Taker" "5 bps" "0.05% of fill notional" tone_warm;
      FeeCard "Maker rebate" "−2 bps" "0.02% credited at fill" tone_cool;
      FeeCard "Gas" "$0" "Deployer pays. Trading is gas-free." tone_cool;
      FeeCard "Withdrawal" "~$0.10" "One Arbitrum tx in ETH" tone_warm];
    El "p" [] [Txt "No volume tiers, no subscription, no referral cuts. Same fees for everyone."]].

Definition sec_tut_first_long : Jsx :=
  DocSection "tut-first-long" (Some "Tutorials") "Open your first long" (Some (RocketIcon)) [Steps [("Open BTC-PERP", [Txt "Head to the ";
          El "Link" [("href", "/trade/btc-usd")] [Txt "BTC-PERP trade page"];
          Txt "."]);
      ("Select Long", [Txt "In the order form, ensure ";
          El "strong" [] [Txt "Long"];
          Txt " is selected."]);
      ("Switch to Market", [Txt "Tab over to ";
          El "strong" [] [Txt "Market"];
          Txt " for an immediate fill."]);
      ("Enter size", [Txt "Type a size in BTC (e.g. ";
          El "code" [] [Txt "0.01"];
          Txt "). The form previews margin required, fee, and liq price."]);
      ("Set leverage", [Txt "Drag the leverage slider — start with 2× until comfortable."]);
      ("Sign", [Txt "Click ";
          El "strong" [] [Txt "Long BTC"];
          Txt ". Wallet asks to sign the EIP-712 Order. The order shows ";
          El "code" [] [Txt "syncing…"];
          Txt " for ~50ms then drops into ";
          El "strong" [] [Txt "Positions"];
          Txt "."])]].

Definition sec_tut_limit : Jsx :=
  DocSection "tut-limit" (Some "Tutorials") "Place a limit order" (Some (TargetIcon)) [El "p" [] [Txt "Limit orders rest on the orderbook at your price. If your price crosses the spread, the order fills as a taker."];
    Steps [("Switch to Limit", [Txt "Click ";
          El "strong" [] [Txt "Limit"];
          Txt " on the Trade screen."]);
      ("Set price", [Txt "Type a price below mid (for a long) or above mid (for a short)."]);
      ("Modifiers", [Txt "Optional: tick ";
          El "strong" [] [Txt "Post-only"];
          Txt " (refuse cross), ";
          El "strong" [] [Txt "Reduce-only"];
          Txt " (stops only)."]);
      ("Time in force", [Txt "GTC to rest, IOC to fill-or-cancel, FOK to fill-in-full-or-cancel."]);
      ("Sign", [Txt "The order lives in ";
          El "strong" [] [Txt "Open orders"];
          Txt " until it fills or you cancel."])]].

Definition sec_tut_session : Jsx :=
  DocSection "tut-session" (Some "Tutorials") "Approve a session key" (Some (KeyIcon)) [Steps [("Open Sessions", [Txt "Go to ";
          El "Link" [("href", "/wallet")] [Txt "Wallet → Sessions"];
          Txt "."]);
      ("New session", [Txt "Click ";
          El "strong" [] [Txt "New session"];
          Txt "."]);
      ("Set bounds", [Txt "Expiry (default 4h), max notional, allowed markets."]);
      ("Sign once", [Txt "Sign the SessionKey approval with your wallet. The only popup for the session lifetime."]);
      ("Trade", [Txt "Orders are auto-signed by the session keypair stored in IndexedDB."])];
    Callout kind_warn [Txt "If you log out of the browser or clear site data, the session keypair is destroyed. You will need to approve a new session."]].

Definition sec_tut_close : Jsx :=
  DocSection "tut-close" (Some "Tutorials") "Close a position" (Some (ExitIcon)) [Steps [("Find your position", [Txt "From ";
          El "strong" [] [Txt "Positions"];
          Txt ", click your position row."]);
      ("Close", [Txt "Click ";
          El "strong" [] [Txt "Close"];
          Txt " — places a reduce-only market order for the full size on the opposite side."]);
      ("Sign", [Txt "Position closes at the next best opposing price, realising PnL into your collateral."])];
    El "p" [] [Txt "For partial closes, place a manual reduce-only order with the size you want to unwind."]].

Definition sec_api_rest : Jsx :=
  DocSection "api-rest" (Some "Developers") "REST API" (Some (ServerIcon)) [El "p" [] [Txt "Base URL ";
      El "code" [] [Txt "http://localhost:8080"];
      Txt " in dev,";
      Txt " ";
      El "code" [] [Txt "https://api.perplex.fi"];
      Txt " in prod."];
    El "div" [] [Endpoint "GET" "/v1/markets" "All active markets + risk params";
      Endpoint "GET" "/v1/orderbook/{marketId}" "L2 snapshot";
      Endpoint "GET" "/v1/trades/{marketId}" "Recent public fills";
      Endpoint "GET" "/v1/funding/{marketId}" "Current rate + history";
      Endpoint "POST" "/v1/orders" "Place signed order (SIWE JWT)";
      Endpoint "DELETE" "/v1/orders/{orderId}" "Cancel";
      Endpoint "GET" "/v1/orders/open" "Open orders for caller";
      Endpoint "GET" "/v1/positions" "Positions + collateral";
      Endpoint "GET" "/v1/fills" "Historical fills";
      Endpoint "GET" "/v1/account/balance" "Vault + wallet USDC"];
    El "p" [] [Txt "Full schema with example payloads lives in ";
      El "code" [] [Txt "api-contract.md"];
      Txt "."]].

Definition sec_api_ws : Jsx :=
  DocSection "api-ws" (Some "Developers") "WebSocket channels" (Some (BroadcastIcon)) [El "p" [] [Txt "Connect to ";
      El "code" [] [Txt "ws://localhost:8081"];
      Txt " (dev) or";
      Txt " ";
      El "code" [] [Txt "wss://ws.perplex.fi"];
      Txt " (prod). Subscribe via JSON envelope:"];
    Code_first "json" (unq "{ ~op~: ~subscribe~, ~channel~: ~orderbook.btc-usd~ }");
    El "p" [] [Txt "Public channels:"];
    El "ul" [] [El "li" [] [El "code" [] [Txt "orderbook.";
          Txt "{marketId}"];
        Txt " — snapshot + sequenced deltas at 10/s."];
      El "li" [] [El "code" [] [Txt "trades.";
          Txt "{marketId}"];
        Txt " — every public fill."];
      El "li" [] [El "code" [] [Txt "oracle.";
          Txt "{marketId}"];
        Txt " — index price ticks."];
      El "li" [] [El "code" [] [Txt "funding.";
          Txt "{marketId}"];
        Txt " — funding rate + countdown."]];
    El "p" [] [Txt "Private channel (requires JWT in connect query):"];
    El "ul" [] [El "li" [] [El "code" [] [Txt "account.";
          Txt "{wallet}"];
        Txt " — order acks, fills, position updates, liquidation warnings, funding payments."]];
    Callout kind_info [Txt "Apply orderbook deltas in ";
      El "code" [] [Txt "sequence"];
      Txt " order. A gap means you missed a packet — drop and resubscribe."]].

Definition sec_faq : Jsx :=
  DocSection "faq" (Some "Other") "FAQ" (Some (HelpIcon)) [FAQ [("Do I need to KYC?", [Txt "No. Connect a wallet, trade."]);
      ("Where does my USDC sit?", [Txt "In the Vault smart contract on Arbitrum. Withdraw any time."]);
      ("What chain runs the matching engine?", [Txt "Off-chain matching, on-chain settlement on Arbitrum. Matching is faster than block time; settlement is final."]);
      ("Can I trade from mobile?", [Txt "Yes. The Trade screen collapses to a tabbed layout at 768px."]);
      ("Are oracle prices manipulable?", [Txt "Mark prices come from multiple sources with confidence intervals. Liquidation triggers fire only after consensus."]);
      ("What if I lose internet during a trade?", [Txt "Signed orders are honored once the matching engine has them. Positions persist onchain regardless of connectivity."]);
      ("Is there an insurance fund?", [Txt "Yes — funded by the 1% liquidation bonus. Backstops liquidations that fill below MM."]);
      ("Can I run my own frontend?", [Txt "Yes. Perplex is open-source. Clone the repo, point at the public REST + WS endpoints, ship your own UI."])]].

Definition sec_risk : Jsx :=
  DocSection "risk" (Some "Other") "Risk disclosure" (Some (WarnIcon)) [El "p" [] [Txt "Trading perpetual futures with leverage carries substantial risk. Funding rates, liquidation thresholds and oracle conditions vary per market. You may lose your entire collateral. Nothing in these docs is legal, financial, tax or investment advice. Perform your own research before placing any trade."]].

Definition docs_cta : Jsx :=
  El "div" [] [El "div" [] [];
    El "div" [] [El "div" [] [El "h3" [] [Txt "Ready to trade?"];
        El "p" [] [Txt "Connect a wallet, deposit USDC, place an order. Sub-second settlement on Arbitrum."]];
      El "div" [] [El "Link" [("href", "/trade/btc-usd")] [Txt "Start trading";
          El "svg" [("width", "12"); ("height", "12"); ("viewBox", "0 0 24 24"); ("fill", "none")] [El "path" [("d", "M5 12h14M13 6l6 6-6 6")] []]];
        El "a" [("href", "https://github.com/ozpool/Perplex"); ("target", "_blank"); ("rel", "noopener noreferrer")] [GitHubIcon;
          Txt " Star on GitHub"]]]].

(** ** The page *)

Definition docs_sections : list Jsx :=
  [sec_intro;
    sec_quickstart;
    sec_deposit;
    sec_what_is_perp;
    sec_margin;
    sec_funding;
    sec_liquidation;
    sec_order_types;
    sec_tif;
    sec_session_keys;
    sec_eip712;
    sec_fees;
    sec_tut_first_long;
    sec_tut_limit;
    sec_tut_session;
    sec_tut_close;
    sec_api_rest;
    sec_api_ws;
    sec_faq;
    sec_risk].

Definition DocsPage (active : string) : Jsx :=
  El "section" [] [El "div" [] []; El "div" [] [];
    El "div" [] [docs_header;
      El "div" [] [Sidebar_view active; El "article" [] (docs_sections ++ [docs_cta])]]].
