(* ===== verification/Landing.v ===== *)
(** * The landing page

    web/app/(marketing): the landing page with its navigation bar and the
    sections of web/components/spark.  The two price tiles, the counters and
    the navigation bar keep state; the arithmetic of the tiles and counters is
    written over the interface of JsNum.v and used at binary64. *)
From S2P Require Import Prelude JsNum JsText JsColl Jsx.
From Stdlib Require Import SpecFloat Ascii QArith.
#[local] Open Scope Z_scope.

(** ** PerplexMark.tsx *)

Definition PerplexMark (size : Z) : Jsx :=
  El "span" [("style.width", bigint_toString size); ("style.height", bigint_toString size);
             ("style.maskImage", "url(/perplex-mark.png)")] [].

(** ** The tickers of PriceTile.tsx and LogoCard.tsx *)

Record Ticker (A : Type) := mkTicker { tk_price : A; tk_series : list A }.
Arguments mkTicker {A}. Arguments tk_price {A}. Arguments tk_series {A}.

Section ticker.
Context {A : Type} `{Arith A}.
Implicit Types t : Ticker A.

Definition first_of (s : list A) : A := match s with x :: _ => x | [] => nint 0 end.
Definition last_of (s : list A) : A := default (nint 0) (last s).

(** One firing of the interval: the series drops its oldest value and takes the
    next one, which is also the price shown. *)
Definition ticker_tick (amplitude random : A) t : Ticker A :=
  let next := (last_of (tk_series t) + (random - n_lit 5 (-1)) * amplitude)%num in
  mkTicker next (tl (tk_series t) ++ [next]).

(** [Math.min(...series)] and [Math.max(...series)]. *)
Definition tk_min t : A := match tk_series t with x :: s => foldl n_min x s | [] => nint 0 end.
Definition tk_max t : A := match tk_series t with x :: s => foldl n_max x s | [] => nint 0 end.
Definition tk_span t : A := n_max (nint 1) (tk_max t - tk_min t)%num.

Definition spark_x t (i : nat) : A := (nint (Z.of_nat i) / nint (Z.of_nat (length (tk_series t)) - 1) * nint 100)%num.
Definition spark_y t (v : A) : A := (nint 32 - nint 2 - (v - tk_min t) / tk_span t * (nint 32 - nint 6))%num.

Definition tk_positive t : bool := (first_of (tk_series t) <=? last_of (tk_series t))%num.
Definition tk_stroke t : string := if tk_positive t then "#1ad094" else "#ff5a6a".
Definition tk_change t : A :=
  ((last_of (tk_series t) - first_of (tk_series t)) / first_of (tk_series t) * nint 100)%num.
End ticker.

Definition sparkline (t : Ticker number) : string :=
  str_join " " (imap (fun i v => (if Nat.eqb i 0 then "M" else "L") +:+ toFixed (spark_x t i) 1 +:+ "," +:+ toFixed (spark_y t v) 1) (tk_series t)).

Module PriceTile.

Definition INITIAL_PRICE {A} `{Arith A} : A := n_lit 10012436 (-2).

Definition INITIAL_ANCHOR {A} `{Arith A} : A := nint 100000.

Definition SERIES_LEN : nat := 22.

Definition init {A} `{Arith A} : Ticker A := mkTicker INITIAL_PRICE (repeat INITIAL_ANCHOR SERIES_LEN).

Definition tick {A} `{Arith A} (random : A) (t : Ticker A) : Ticker A := ticker_tick (nint 60) random t.

Definition view (toLocaleString : number -> string) (t : Ticker number) : Jsx :=
  El "div" [] [El "div" [] [El "div" [] [El "div" [("aria-label", "Bitcoin")] [El "svg" [("width", "12"); ("height", "12"); ("viewBox", "0 0 32 32")] [El "path" [("fill", "#ffffff"); ("d", "M21.66 14.36c.34-2.27-1.39-3.49-3.76-4.31l.77-3.09-1.88-.47-.75 3.01c-.49-.12-1-.24-1.5-.35l.75-3.03-1.88-.47-.77 3.09c-.41-.09-.81-.18-1.2-.28v-.01l-2.6-.65-.5 2.01s1.4.32 1.37.34c.76.19.9.7.88 1.1l-.88 3.52c.05.01.12.03.2.06l-.2-.05-1.23 4.93c-.09.23-.33.58-.86.45.02.03-1.37-.34-1.37-.34l-.93 2.15 2.45.61c.46.11.9.23 1.34.34l-.78 3.13 1.88.47.77-3.09c.51.14 1.01.26 1.5.38l-.77 3.07 1.88.47.78-3.12c3.21.61 5.62.36 6.64-2.55.82-2.34-.04-3.69-1.73-4.57 1.23-.28 2.16-1.09 2.41-2.77zm-4.31 6.04c-.58 2.34-4.52 1.07-5.8.75l1.03-4.14c1.28.32 5.38.95 4.77 3.39zm.59-6.08c-.53 2.13-3.81 1.05-4.87.78l.94-3.75c1.07.27 4.49.77 3.93 2.97z")] []]];
        El "span" [] [Txt "BTC-PERP"]];
      El "span" [] []];
    El "div" [] [Txt "$";
      Txt (toLocaleString (tk_price t))];
    El "div" [] [El "span" [("style.color", tk_stroke t)] [Txt (if tk_positive t then "+" else "−");
        Txt (toFixed (n_abs (tk_change t)) 2);
        Txt "%"];
      El "svg" [("viewBox", "0 0 100 32")] [El "path" [("d", sparkline t); ("fill", "none")] []]]].

End PriceTile.

Module LogoCard.

Definition INITIAL_PRICE {A} `{Arith A} : A := n_lit 384255 (-2).

Definition INITIAL_ANCHOR {A} `{Arith A} : A := nint 3820.

Definition SERIES_LEN : nat := 22.

Definition init {A} `{Arith A} : Ticker A := mkTicker INITIAL_PRICE (repeat INITIAL_ANCHOR SERIES_LEN).

Definition tick {A} `{Arith A} (random : A) (t : Ticker A) : Ticker A := ticker_tick (nint 8) random t.

Definition view (toLocaleString : number -> string) (t : Ticker number) : Jsx :=
  El "div" [] [El "div" [] [El "div" [] [El "div" [("aria-label", "Ethereum")] [El "svg" [("width", "11"); ("height", "11"); ("viewBox", "0 0 32 32")] [El "path" [("fill", "#ffffff"); ("d", "M16 3l-9 14 9 5 9-5z"); ("opacity", "0.85")] [];
            El "path" [("fill", "#ffffff"); ("d", "M16 3l-9 14 9-4z")] [];
            El "path" [("fill", "#ffffff"); ("d", "M16 23.5l-9-5.5 9 12 9-12z"); ("opacity", "0.85")] [];
            El "path" [("fill", "#ffffff"); ("d", "M16 23.5l-9-5.5 9 4z")] []]];
        El "span" [] [Txt "ETH-PERP"]];
      El "span" [] []];
    El "div" [] [Txt "$";
      Txt (toLocaleString (tk_price t))];
    El "div" [] [El "span" [("style.color", tk_stroke t)] [Txt (if tk_positive t then "+" else "−");
        Txt (toFixed (n_abs (tk_change t)) 2);
        Txt "%"];
      El "svg" [("viewBox", "0 0 100 32")] [El "path" [("d", sparkline t); ("fill", "none")] []]]].

End LogoCard.

Module Hero.

Definition PlayIcon : Jsx :=
  El "svg" [("width", "11"); ("height", "11"); ("viewBox", "0 0 12 12"); ("fill", "currentColor")] [El "path" [("d", "M3 1.6v8.8L10 6z")] []].

Definition Hero (RingBg LogoCard PriceTile LogoCard_sm PriceTile_sm : Jsx) : Jsx :=
  El "section" [] [RingBg;
    El "div" [] [El "h1" [] [El "span" [] [El "span" [] [Txt "Signed. Settled."];
          El "span" [] [Txt "Sovereign."]]];
      El "div" [] [El "div" [] [LogoCard];
        El "div" [] [PriceTile];
        El "div" [] [El "div" [] [LogoCard_sm];
          El "div" [] [PriceTile_sm]]];
      El "div" [] [El "div" [] [El "p" [] [Txt "Up to 20× leverage on BTC, ETH, SOL. EIP-712 signed orders. Sub-second settlement on Arbitrum. Self-custody, no KYC."];
          El "Link" [("id", "hero-cta"); ("href", "/markets")] [El "span" [] [PlayIcon];
            Txt "Get Started"]]]]].

End Hero.

Module Features.

Definition KeyIcon : Jsx :=
  El "svg" [("width", "20"); ("height", "20"); ("viewBox", "0 0 24 24"); ("fill", "none")] [El "circle" [("cx", "8"); ("cy", "15"); ("r", "3.5")] [];
    El "path" [("d", "M10.5 13L20 3.5M16 7l2 2M18 5l2 2")] []].

Definition ChartIcon : Jsx :=
  El "svg" [("width", "20"); ("height", "20"); ("viewBox", "0 0 24 24"); ("fill", "none")] [El "path" [("d", "M3 17l5-5 4 3 8-9")] [];
    El "path" [("d", "M14 6h6v6")] []].

Definition BoltIcon : Jsx :=
  El "svg" [("width", "20"); ("height", "20"); ("viewBox", "0 0 24 24"); ("fill", "currentColor")] [El "path" [("d", "M13 2L4 14h7l-1 8 9-12h-7l1-8z")] []].

Definition SignIcon : Jsx :=
  El "svg" [("width", "20"); ("height", "20"); ("viewBox", "0 0 24 24"); ("fill", "none")] [El "path" [("d", "M3 17c2-2 5-3 7-1s5 0 7-2 4-1 4-1")] [];
    El "path" [("d", "M3 21h18")] []].

Definition BookIcon : Jsx :=
  El "svg" [("width", "20"); ("height", "20"); ("viewBox", "0 0 24 24"); ("fill", "none")] [El "path" [("d", "M4 5h16M4 9h10M4 13h16M4 17h8")] []].

Definition LockIcon : Jsx :=
  El "svg" [("width", "20"); ("height", "20"); ("viewBox", "0 0 24 24"); ("fill", "none")] [El "rect" [("x", "4"); ("y", "11"); ("width", "16"); ("height", "10"); ("rx", "2")] [];
    El "path" [("d", "M8 11V7a4 4 0 018 0v4")] []].

Record Feature := mkFeature { ft_title : string; ft_body : string; ft_icon : Jsx }.

Definition FEATURES : list Feature :=
  [mkFeature "Self-custody" "Your keys, your collateral. No custodian touches your USDC, ever." KeyIcon;
    mkFeature "20× leverage" "Cross-margin across BTC, ETH, SOL. Capital-efficient by default." ChartIcon;
    mkFeature "Sub-second fills" "EIP-712 signed orders match offchain, settle onchain in under a second." BoltIcon;
    mkFeature "Session keys" "Sign once, trade for hours. No wallet popup per order. Revoke anytime." SignIcon;
    mkFeature "50-level orderbook" "Real L2 depth. Group ticks, see cumulative size, click to set price." BookIcon;
    mkFeature "No KYC" "Connect a wallet and trade. No emails, no accounts, no waiting lists." LockIcon].

Definition Features : Jsx :=
  El "section" [("id", "features")] [El "div" [] [El "h2" [] [Txt "One simple choice, ";
        El "br" [] [];
        El "span" [] [Txt "Many perks."]];
      El "p" [] [Txt "Built for traders who want centralised-exchange ergonomics without handing over their keys or their KYC."];
      El "div" [] [Frag (map (fun f => El "div" [] [El "div" [] [ft_icon f];
              El "h3" [] [Txt (ft_title f)];
              El "p" [] [Txt (ft_body f)]]) FEATURES)]]].

End Features.

Module HowItWorks.

Record HowStep := mkHowStep { hs_n : string; hs_title : string; hs_body : string }.

Definition STEPS : list HowStep :=
  [mkHowStep "01" "Connect wallet" "MetaMask, Rabby, Coinbase, WalletConnect — any EVM wallet on Arbitrum. SIWE login, no email.";
    mkHowStep "02" "Sign + fill" "EIP-712 typed-data signature on every order. Match offchain in under 15ms, no wallet popup spam thanks to session keys.";
    mkHowStep "03" "Settle onchain" "Fills hit Arbitrum sub-second. Collateral, PnL, funding — all on the chain you can verify yourself."].

Definition HowItWorks : Jsx :=
  El "section" [("id", "how")] [El "div" [] [El "div" [] [El "h2" [] [Txt "How it ";
          El "span" [] [Txt "works"]];
        El "p" [] [Txt "Three steps. No bridges, no waiting queues, no custodial holds."]];
      El "ol" [] [Frag (imap (fun i s => El "li" [] [El "span" [] [Txt "Step ";
                Txt (hs_n s)];
              El "h3" [] [Txt (hs_title s)];
              El "p" [] [Txt (hs_body s)];
              El "span" [("className", "absolute -bottom-6 font-display text-[120px] font-bold leading-none select-none bg-clip-text text-transparent " +:+ (if Nat.eqb i 0 then "right-2" else "-right-6"))] [Txt (bigint_toString (Z.of_nat (i + 1)))]]) STEPS)];
      El "div" [] [El "Link" [("href", "/docs#intro")] [Txt "Read the full walkthrough in the docs";
          El "span" [] [El "svg" [("width", "13"); ("height", "13"); ("viewBox", "0 0 24 24"); ("fill", "none")] [El "path" [("d", "M5 12h14M13 5l7 7-7 7")] []]]]]]].

End HowItWorks.

Module Testimonials.

Record Quote := mkQuote { qt_body : string; qt_name : string; qt_handle : string; qt_avatarColor : string; qt_initials : string }.

Definition QUOTES : list Quote :=
  [mkQuote "Finally a DEX that feels like a real exchange. Order form, books, fills — all snappy. Custody never left my wallet." "Jules Park" "Quant trader" "#ff6b1a" "JP";
    mkQuote "Self-custody perps without the usual jank. No bridges, no funding queues, no 'pending withdrawal' purgatory. Just trades." "Mira Okafor" "DeFi researcher" "#d9531d" "MO";
    mkQuote "Fastest fills I've seen outside of a CEX. Session keys saved my mouse hand — no popup every five seconds." "Ravi Iyer" "Market maker" "#8b3a14" "RI"].

Definition Quotes : Jsx :=
  El "svg" [("width", "28"); ("height", "22"); ("viewBox", "0 0 28 22"); ("fill", "var(--s-accent)")] [El "path" [("d", "M0 22V12C0 5.4 4.4 0.8 11 0v4.4C7.6 5 5.6 7.4 5.4 11H11v11H0zm17 0V12c0-6.6 4.4-11.2 11-12v4.4C24.6 5 22.6 7.4 22.4 11H28v11H17z")] []].

Definition Testimonials : Jsx :=
  El "section" [("id", "testimonials")] [El "div" [] [El "div" [] [El "h2" [] [Txt "Traders who ";
          El "br" [] [];
          El "span" [] [Txt "already shipped."]];
        El "p" [] [Txt "What people who actually trade on Perplex have to say."]];
      El "div" [] [Frag (map (fun q => El "figure" [] [Quotes;
              El "blockquote" [] [Txt (qt_body q)];
              El "figcaption" [] [El "div" [("style.background", qt_avatarColor q)] [Txt (qt_initials q)];
                El "div" [] [El "span" [] [Txt (qt_name q)];
                  El "span" [] [Txt (qt_handle q)]]]]) QUOTES)]]].

End Testimonials.

Module ContactFooter.

Definition GitHubIcon : Jsx :=
  El "svg" [("width", "16"); ("height", "16"); ("viewBox", "0 0 24 24"); ("fill", "currentColor")] [El "path" [("d", "M12 1a11 11 0 00-3.5 21.4c.5.1.7-.3.7-.6v-2c-3 .6-3.8-1.4-3.8-1.4-.6-1.3-1.4-1.7-1.4-1.7-1.1-.7.1-.7.1-.7 1.3.1 2 1.3 2 1.3 1.1 1.9 3 1.4 3.8 1 .1-.8.5-1.4.8-1.7-2.5-.3-5-1.3-5-5.6 0-1.2.4-2.2 1.2-3-.1-.3-.5-1.5.1-3.1 0 0 1-.3 3.2 1.2a11 11 0 016 0c2.2-1.5 3.2-1.2 3.2-1.2.6 1.6.2 2.8.1 3.1.7.8 1.2 1.8 1.2 3 0 4.3-2.5 5.3-5 5.6.4.4.8 1.1.8 2.2v3.3c0 .3.2.7.7.6A11 11 0 0012 1z")] []].

Definition ContactFooter (year : Z) : Jsx :=
  El "section" [("id", "contact")] [El "div" [] [El "div" [] [El "p" [] [El "span" [] [Txt "Reach the team on"];
          El "Link" [("href", "https://github.com/ozpool/Perplex"); ("target", "_blank"); ("rel", "noopener noreferrer")] [GitHubIcon;
            El "span" [] [Txt "GitHub."]]]];
      El "h2" [] [El "Link" [("href", "/"); ("aria-label", "Perplex home")] [Txt "perplex";
          El "span" [] [Txt "."]]];
      El "div" [] [El "span" [] [Txt "© ";
          Txt (bigint_toString year);
          Txt " Perplex Labs. Trading derivatives carries substantial risk."];
        El "span" [] [Txt "v1.1.0 · arb-mainnet"]]]].

End ContactFooter.

Module RingBg.

Record Coin := mkCoin { cn_symbol : string; cn_glyph : string; cn_bg : string; cn_fg : string; cn_r : Z; cn_start : Z; cn_dur : Z; cn_ccw : bool }.

Definition COINS : list Coin :=
  [mkCoin "BTC" "₿" "#f7931a" "#ffffff" 395 20 28 false;
    mkCoin "ETH" "Ξ" "#627eea" "#ffffff" 490 130 36 true;
    mkCoin "SOL" "◎" "#9945ff" "#ffffff" 585 240 44 false;
    mkCoin "ZEC" "Z" "#ecb244" "#1d1606" 680 70 54 true;
    mkCoin "DOGE" "Ð" "#c2a633" "#ffffff" 775 310 64 false].

Definition ring_r (i : nat) : Z := 110 + Z.of_nat i * 95.

Definition ring_opacity {A} `{Arith A} (i : nat) : A := n_max (n_lit 25 (-3)) (n_lit 16 (-2) - nint (Z.of_nat i) * n_lit 11 (-3))%num.

Definition rings : list (Z * number) := map (fun i => (ring_r i, ring_opacity i)) (seq 0 14).

Definition delay (c : Coin) : number := (- (nint (cn_start c) / nint 360) * nint (cn_dur c))%num.

Definition coin_y (c : Coin) : Z := 900 - cn_r c.

Definition ring_view (r : Z * number) : Jsx :=
  El "circle" [("cx", "1300"); ("cy", "900"); ("r", bigint_toString (fst r)); ("fill", "none"); ("strokeOpacity", num_toString (snd r))] [].

Definition coin_view (c : Coin) : Jsx :=
  let timing := [("style.--orbit-dur", bigint_toString (cn_dur c) +:+ "s"); ("style.animationDelay", num_toString (delay c) +:+ "s")] in
  El "g" (("className", (if cn_ccw c then "orbit-ccw" else "orbit-cw") +:+ " orbit-coin") :: timing)
    [El "g" [("transform", "translate(1300 " +:+ bigint_toString (coin_y c) +:+ ")")]
      [El "g" (("className", if cn_ccw c then "orbit-counter-ccw" else "orbit-counter-cw") :: timing)
        [El "circle" [("r", "50"); ("fill", "#ffffff"); ("opacity", "0.96")] [];
         El "circle" [("r", "44"); ("fill", cn_bg c)] [];
         El "text" [("x", "0"); ("y", "0"); ("textAnchor", "middle"); ("dominantBaseline", "central"); ("fill", cn_fg c)] [Txt (cn_glyph c)]]]].

Definition RingBg : Jsx :=
  El "div" [] [El "svg" [("width", "2600"); ("height", "1800"); ("viewBox", "0 0 2600 1800")]
    [Frag (map ring_view rings); Frag (map coin_view COINS)]].

End RingBg.

Module Stats.

Record Bar := mkBar { br_label : string; br_h : Z }.

Definition BARS : list Bar :=
  [mkBar "Mon" 38;
    mkBar "Tue" 52;
    mkBar "Wed" 44;
    mkBar "Thu" 70;
    mkBar "Fri" 86;
    mkBar "Sat" 64;
    mkBar "Sun" 92].

Record Counters (A : Type) := mkCounters { st_vol : A; st_oi : A; st_fills : Z }.
Arguments mkCounters {A}. Arguments st_vol {A}. Arguments st_oi {A}. Arguments st_fills {A}.

Definition init {A} `{Arith A} : Counters A := mkCounters (n_lit 242 (-2)) (n_lit 8914 (-1)) 184320000.

(** One firing of the interval, from its three draws; [floor] is
    [Math.floor]. *)
Definition tick {A} `{Arith A} (floor : A -> Z) (r1 r2 r3 : A) (s : Counters A) : Counters A :=
  mkCounters (st_vol s + r1 * n_lit 2 (-3))%num (st_oi s + r2 * n_lit 4 (-2))%num (st_fills s + floor (r3 * nint 80)%num).

Definition KvCard (label value : string) : Jsx :=
  El "div" [] [El "span" [] [Txt label];
    El "span" [] [Txt value]].

Definition view (toLocaleString : Z -> string) (s : Counters number) : Jsx :=
  El "section" [("id", "stats")] [El "div" [] [El "h2" [] [Txt "The benefits, by the numbers."];
      El "div" [] [El "div" [] [El "div" [] [Txt "24h volume"];
          El "div" [] [El "div" [] [Txt "$";
              Txt (toFixed (st_vol s) 2);
              El "span" [] [Txt "B"]];
            El "div" [] [Txt "+4.8% vs 7d avg"]]];
        El "div" [] [El "div" [] [Txt "Open interest"];
          El "div" [] [El "div" [] [Txt "$";
              Txt (toFixed (st_oi s) 1);
              El "span" [] [Txt "M"]];
            El "div" [] [Txt "across 3 markets"]]];
        El "div" [] [El "div" [] [El "div" [] [El "div" [] [Txt "Weekly fills"];
              El "div" [] [Txt (toLocaleString (st_fills s))]];
            El "span" [] [El "span" [] [];
              Txt "Live"]];
          El "div" [] [Frag (map (fun b => El "div" [] [El "div" [("style.height", bigint_toString (br_h b) +:+ "%")] [];
                  El "span" [] [Txt (br_label b)]]) BARS)]]];
      El "div" [] [KvCard "Avg fill latency" "<15ms";
        KvCard "Max leverage" "20×";
        KvCard "Settlement" "Arbitrum L2"]]].

End Stats.

Module PillNav.

Record NavEntry := mkNavEntry { ne_label : string; ne_href : string }.

Definition NAV : list NavEntry :=
  [mkNavEntry "Features" "/#features";
    mkNavEntry "How it works" "/#how";
    mkNavEntry "Docs" "/docs";
    mkNavEntry "Stats" "/#stats";
    mkNavEntry "Contact" "/#contact"].

Definition ArbitrumMark : Jsx :=
  El "img" [("src", "/arbitrum.png"); ("alt", ""); ("width", "20"); ("height", "20")] [].

(** What the effect watches: the scroll position, or whether the hero's button is
    in view on a page that has one. *)
Inductive Watch := watch_none | watch_scroll | watch_hero.

Record NavUi := mkNavUi { nv_open : bool; nv_scrolled : bool; nv_watch : Watch }.

Definition init : NavUi := mkNavUi false false watch_none.

Definition showNav (pathname : string) : bool := String.eqb pathname "/".

(** [toggle] is the theme button. *)
Definition view (toggle : Jsx) (pathname : string) (u : NavUi) : Jsx :=
  El "header" [] [El "div" [] [El "Link" [("href", "/"); ("className", "flex items-center gap-2 shrink-0 text-[var(--s-text)] transition-opacity duration-700 ease-out " +:+ (if nv_scrolled u then "opacity-0 pointer-events-none" else "opacity-100")); ("aria-label", "Perplex home")] [PerplexMark 30;
        El "span" [] [Txt "perplex";
          El "span" [] [Txt "."]]];
      Frag (if showNav pathname then [El "nav" [("aria-label", "Primary")] [El "ul" [] [Frag (map (fun n => El "li" [] [El "a" [("href", ne_href n)] [Txt (ne_label n)]]) NAV)]]] else []);
      El "div" [] [El "Link" [("href", "/markets")] [El "span" [] [];
          Txt "Live"];
        El "a" [("href", "https://arbitrum.io"); ("target", "_blank"); ("rel", "noopener noreferrer"); ("aria-label", "Built on Arbitrum")] [ArbitrumMark;
          Txt "Arbitrum"];
        El "Link" [("href", "https://github.com/ozpool/Perplex"); ("target", "_blank"); ("rel", "noopener noreferrer"); ("aria-label", "GitHub")] [El "svg" [("width", "20"); ("height", "20"); ("viewBox", "0 0 24 24"); ("fill", "currentColor")] [El "path" [("fillRule", "evenodd"); ("clipRule", "evenodd"); ("d", "M12 .297c-6.63 0-12 5.373-12 12 0 5.303 3.438 9.8 8.205 11.385.6.113.82-.258.82-.577 0-.285-.01-1.04-.015-2.04-3.338.724-4.042-1.61-4.042-1.61C4.422 18.07 3.633 17.7 3.633 17.7c-1.087-.744.084-.729.084-.729 1.205.084 1.838 1.236 1.838 1.236 1.07 1.835 2.809 1.305 3.495.998.108-.776.417-1.305.76-1.605-2.665-.3-5.466-1.332-5.466-5.93 0-1.31.465-2.38 1.235-3.22-.135-.303-.54-1.523.105-3.176 0 0 1.005-.322 3.3 1.23.96-.267 1.98-.4 3-.405 1.02.005 2.04.138 3 .405 2.28-1.552 3.285-1.23 3.285-1.23.645 1.653.24 2.873.12 3.176.765.84 1.23 1.91 1.23 3.22 0 4.61-2.805 5.625-5.475 5.92.42.36.81 1.096.81 2.22 0 1.606-.015 2.896-.015 3.286 0 .315.21.69.825.57C20.565 22.092 24 17.592 24 12.297c0-6.627-5.373-12-12-12")] []]];
        toggle];
      El "button" [("aria-label", "Open menu"); ("onClick", "toggle")] [El "svg" [("width", "18"); ("height", "18"); ("viewBox", "0 0 24 24"); ("fill", "none")] [El "path" [("d", if nv_open u then "M6 6l12 12M18 6L6 18" else "M4 7h16M4 12h16M4 17h16")] []]]];
    Frag (if nv_open u then [El "div" [] [El "ul" [] [Frag (if showNav pathname then [Frag (map (fun n => El "li" [] [El "a" [("href", ne_href n); ("onClick", "close")] [Txt (ne_label n)]]) NAV)] else []);
            El "li" [] [El "Link" [("href", "/markets"); ("onClick", "close")] [Txt "Get Started"]]]]] else [])].

(** ** The bar's behaviour *)

Definition past_fold (scrollY : number) : bool := (nint 520 <? scrollY)%num.

(** The effect, run on mount and on every change of the path. *)
Definition effect (has_hero : bool) (scrollY : number) (u : NavUi) : NavUi :=
  if has_hero then mkNavUi (nv_open u) (nv_scrolled u) watch_hero
  else mkNavUi (nv_open u) (past_fold scrollY) watch_scroll.

Definition cleanup (u : NavUi) : NavUi := mkNavUi (nv_open u) (nv_scrolled u) watch_none.

Inductive NavEvent :=
| ev_navigate (has_hero : bool) (scrollY : number)
| ev_scroll (scrollY : number)
| ev_intersect (isIntersecting : bool) (top : number)
| ev_toggle
| ev_link.

Definition step (u : NavUi) (e : NavEvent) : NavUi :=
  match e with
  | ev_navigate h y => effect h y (cleanup u)
  | ev_scroll y =>
      match nv_watch u with watch_scroll => mkNavUi (nv_open u) (past_fold y) (nv_watch u) | _ => u end
  | ev_intersect i top =>
      match nv_watch u with
      | watch_hero => mkNavUi (nv_open u) (negb i && (top <? nint 0)%num) (nv_watch u)
      | _ => u
      end
  | ev_toggle => mkNavUi (negb (nv_open u)) (nv_scrolled u) (nv_watch u)
  | ev_link => mkNavUi false (nv_scrolled u) (nv_watch u)
  end.

End PillNav.

(** ** The page and its layout: web/app/(marketing)/page.tsx, layout.tsx *)

Record LandingUi := mkLandingUi { ld_btc : Ticker number; ld_eth : Ticker number; ld_btc_sm : Ticker number; ld_eth_sm : Ticker number; ld_stats : Stats.Counters number }.

Definition landing_init : LandingUi := mkLandingUi PriceTile.init LogoCard.init PriceTile.init LogoCard.init Stats.init.

Section page.
(** The number formats of the JavaScript engine and the year of its clock. *)
Variables (price_text : number -> string) (count_text : Z -> string) (year : Z).

(** The hero shows the tiles twice, each with a state of its own: beside the
    headline, and below it on small screens. *)
Definition LandingPage (u : LandingUi) : Jsx :=
  Frag [Hero.Hero RingBg.RingBg (LogoCard.view price_text (ld_eth u)) (PriceTile.view price_text (ld_btc u))
          (LogoCard.view price_text (ld_eth_sm u)) (PriceTile.view price_text (ld_btc_sm u));
        Features.Features; HowItWorks.HowItWorks; Testimonials.Testimonials; Stats.view count_text (ld_stats u);
        ContactFooter.ContactFooter year].
End page.

Definition MarketingLayout (nav : Jsx) (children : Jsx) : Jsx := El "div" [] [El "div" [] [nav; children]].
