(* ===== verification/SiteThms.v ===== *)
(** * What the site promises

    The integrity of the landing page and the documentation as a whole, and
    where the documentation agrees with the code it describes: every link
    resolves, the table of contents is complete, the documented endpoints are
    the ones the client calls, the drawn prices stay inside their box, and the
    document root has the stored theme before the page is painted
    (web/app/layout.tsx). *)
From S2P Require Import Prelude JsNum JsText JsColl Contract Browser WsClient UiStore Session OrderTicket Evm Contracts Shell Jsx DocsParts DocsDiagrams DocsSidebar DocsPage Landing.
From Stdlib Require Import SpecFloat Ascii QArith Lqa.
#[local] Open Scope Z_scope.

(** ** The pages of the site *)

(** The theme button as the bar shows it. *)
Definition theme_button (u : ThemeUi) : Jsx :=
  let '(label, icon) := theme_view u in
  El "button" [("type", "button"); ("onClick", "toggle"); ("aria-label", label); ("title", label)]
    [El (match icon with sun => "SunIcon" | moon => "MoonIcon" end) [] []].

Section site.
Context (price_text : number -> string) (count_text : Z -> string) (year : Z).

Definition landing_tree (theme : ThemeUi) (nav : PillNav.NavUi) (u : LandingUi) : Jsx :=
  MarketingLayout (PillNav.view (theme_button theme) "/" nav) (LandingPage price_text count_text year u).

Definition docs_tree (theme : ThemeUi) (nav : PillNav.NavUi) (active : string) : Jsx :=
  MarketingLayout (PillNav.view (theme_button theme) "/docs" nav) (DocsPage active).
End site.

(** The paths that web/app serves: a directory with a page each, and the trade
    page for the markets its guard accepts. *)
Definition served (path : string) : bool :=
  bool_decide (path ∈ ["/"; "/docs"; "/markets"; "/portfolio"; "/history"; "/wallet"]) ||
  existsb (fun m => match TradePage m with Some m' => String.eqb path ("/trade/" +:+ m') | None => false end) VALID.

Definition landing_ids : list string := ["hero-cta"; "features"; "how"; "testimonials"; "stats"; "contact"].

Definition anchors (docs_ids : list string) (path : string) : list string :=
  if String.eqb path "/" then landing_ids else if String.eqb path "/docs" then docs_ids else [].

(** A link of a page with the anchors [here] leads somewhere. *)
Definition resolves (docs_ids here : list string) (href : string) : bool :=
  match target_of href with
  | External _ => true
  | Anchor a => bool_decide (a ∈ here)
  | Internal p None => served p
  | Internal p (Some a) => served p && bool_decide (a ∈ anchors docs_ids p)
  end.

(** ** Links *)

Definition nav_hrefs (landing open : bool) : list string :=
  "/" :: (if landing then map PillNav.ne_href PillNav.NAV else []) ++
  ["/markets"; "https://arbitrum.io"; "https://github.com/ozpool/Perplex"] ++
  (if open then (if landing then map PillNav.ne_href PillNav.NAV else []) ++ ["/markets"] else []).

Lemma nav_links theme nav pathname :
  hrefs (PillNav.view (theme_button theme) pathname nav) = nav_hrefs (PillNav.showNav pathname) (PillNav.nv_open nav)
  /\ ids (PillNav.view (theme_button theme) pathname nav) = [].
Proof.
  destruct nav as [o s w]. unfold theme_button, PillNav.view. cbn [PillNav.nv_open PillNav.nv_scrolled].
  destruct (theme_view theme) as [label icon], (PillNav.showNav pathname), o, icon; by split.
Qed.

Lemma landing_links pt ct y u :
  hrefs (LandingPage pt ct y u) = ["/markets"; "/docs#intro"; "https://github.com/ozpool/Perplex"; "/"] /\
  ids (LandingPage pt ct y u) = landing_ids.
Proof. split; lazy; reflexivity. Qed.

Lemma docs_links_stable active : hrefs (DocsPage active) = hrefs (DocsPage INITIAL_ACTIVE) /\ ids (DocsPage active) = ids (DocsPage INITIAL_ACTIVE).
Proof. split; lazy; reflexivity. Qed.

Definition docs_ids : list string := ids (DocsPage INITIAL_ACTIVE).

(** No link of the site is dead.  In every state of the landing page and of
    the documentation (menu open or closed, scrolled or not, any theme, any
    prices and counters, any highlighted section), each link leads to another
    site, to a page that is served (the trade pages through their market
    guard), or to an anchor that exists on the page it names. *)
Theorem site_links_resolve pt ct year theme nav u active :
  forallb (resolves docs_ids (ids (landing_tree pt ct year theme nav u))) (hrefs (landing_tree pt ct year theme nav u)) = true /\
  forallb (resolves docs_ids (ids (docs_tree theme nav active))) (hrefs (docs_tree theme nav active)) = true.
Proof.
  assert (Hl : forall n c, hrefs (MarketingLayout n c) = hrefs n ++ hrefs c /\ ids (MarketingLayout n c) = ids n ++ ids c)
    by (intros n c; unfold hrefs, ids, attr_values; cbn; by rewrite !app_nil_r).
  unfold landing_tree, docs_tree.
  destruct (Hl (PillNav.view (theme_button theme) "/" nav) (LandingPage pt ct year u)) as [-> ->].
  destruct (Hl (PillNav.view (theme_button theme) "/docs" nav) (DocsPage active)) as [-> ->].
  destruct (nav_links theme nav "/") as [-> ->], (nav_links theme nav "/docs") as [-> ->].
  destruct (landing_links pt ct year u) as [-> ->], (docs_links_stable active) as [-> ->].
  destruct (PillNav.nv_open nav); split; vm_compute; reflexivity.
Qed.

(** ** The table of contents *)

Definition section_els (j : Jsx) : list Jsx := List.filter (fun e => match attr "id" e with Some _ => true | None => false end) (by_tag "section" j).

(** The small heading above a section's title. *)
Definition eyebrow_of (e : Jsx) : option string :=
  match e with El _ _ (El _ _ [El "div" _ [Txt s]] :: _) => Some s | _ => None end.

Definition toc_of_page (j : Jsx) : list (string * option string) :=
  map (fun e => (default EmptyString (attr "id" e), eyebrow_of e)) (section_els j).

Definition toc_of_sidebar : list (string * option string) :=
  flat_map (fun g => map (fun it => (it_id it, Some (gr_title g))) (gr_items g)) GROUPS.

(** The number a statistic card of the header announces. *)
Definition announced (label : string) (j : Jsx) : list string :=
  omap (fun e => match e with
                 | El "div" [] [El "div" [] [Txt l]; El "div" [] [Txt v]] => if String.eqb l label then Some v else None
                 | _ => None
                 end) (by_tag "div" j).

Definition sections_under (title : string) (j : Jsx) : nat :=
  length (List.filter (fun p => match snd p with Some t => String.eqb t title | None => false end) (toc_of_page j)).

(** The documentation's table of contents is complete: the sidebar lists
    exactly the sections of the page, in their order and under the heading each
    carries, and no two elements of the page share an anchor.  The header's
    cards count the concepts and tutorials rightly but announce 17 sections
    where there are 20. *)
Theorem toc_complete active :
  toc_of_page (DocsPage active) = toc_of_sidebar /\ NoDup (ids (DocsPage active)) /\
  announced "Concepts" (DocsPage active) = [bigint_toString (Z.of_nat (sections_under "Concepts" (DocsPage active)))] /\
  announced "Tutorials" (DocsPage active) = [bigint_toString (Z.of_nat (sections_under "Tutorials" (DocsPage active)))] /\
  announced "Sections" (DocsPage active) = ["17"] /\ length (toc_of_page (DocsPage active)) = 20%nat.
Proof.
  assert (E : toc_of_page (DocsPage active) = toc_of_sidebar) by (lazy; reflexivity).
  unfold sections_under. rewrite !E. destruct (docs_links_stable active) as [_ ->].
  split; [done|]. split; [apply (bool_decide_unpack _); vm_compute; exact I|].
  repeat split; lazy; reflexivity.
Qed.

(** ** The documented endpoints *)

Definition as_endpoint (e : Jsx) : option (string * string) :=
  match e with
  | El "div" [] [El "div" _ [El "span" _ [Txt m]]; El "div" [] [El "span" [] [Txt p]; El "span" [] [Txt _]]] => Some (m, p)
  | _ => None
  end.

Definition documented : list (string * string) := omap as_endpoint (by_tag "div" sec_api_rest).

Definition ends_segment (c : ascii) : bool := Ascii.eqb c "/" || Ascii.eqb c "?".

Fixpoint after_segment (p : string) : string :=
  match p with
  | EmptyString => EmptyString
  | String c p' => if ends_segment c then p else after_segment p'
  end.

(** A path matches a documented one when its text agrees, a name in braces
    stands for a non-empty segment, and only a query may follow. *)
Fixpoint path_matches (hole : bool) (t p : string) : bool :=
  match t with
  | EmptyString => match p with EmptyString => true | String c _ => Ascii.eqb c "?" end
  | String c t' =>
      if hole then path_matches (negb (Ascii.eqb c "}")) t' p
      else if Ascii.eqb c "{" then
        match p with String d _ => negb (ends_segment d) | EmptyString => false end && path_matches true t' (after_segment p)
      else match p with String d p' => Ascii.eqb c d && path_matches false t' p' | EmptyString => false end
  end.

(** A name that is one segment of a path. *)
Fixpoint plain (s : string) : bool :=
  match s with EmptyString => true | String c s' => negb (ends_segment c) && plain s' end.

Definition segment (s : string) : bool := str_truthy s && plain s.

Lemma after_plain s q : plain s = true -> after_segment (s +:+ String "?" q) = String "?" q /\ after_segment s = EmptyString.
Proof.
  induction s as [|c s IH]; [done|]. change (String c s +:+ String "?" q) with (String c (s +:+ String "?" q)).
  cbn. rewrite andb_true_iff, negb_true_iff. intros [-> Hs]. by apply IH.
Qed.

(** A template whose last part is a name, against a path with one segment there. *)
Lemma matches_hole s q name :
  segment s = true -> path_matches true name (String "?" q) = true -> path_matches true name EmptyString = true ->
  path_matches false (String "{" name) (s +:+ String "?" q) = true /\ path_matches false (String "{" name) s = true.
Proof.
  unfold segment. rewrite andb_true_iff. intros [Ht Hp] H1 H2. destruct (after_plain s q Hp) as [E1 E2].
  destruct s as [|c s]; [done|]. pose proof Hp as Hc. cbn in Hc. apply andb_true_iff in Hc as [Hc _].
  split.
  - transitivity (negb (ends_segment c) && path_matches true name (after_segment (String c s +:+ String "?" q)));
      [reflexivity | by rewrite Hc, E1].
  - transitivity (negb (ends_segment c) && path_matches true name (after_segment (String c s)));
      [reflexivity | by rewrite Hc, E2].
Qed.

(** The calls of the client that the documentation lists: all but the sign-in. *)
Definition documented_call (c : ApiCall) : bool :=
  match c with api_nonce _ | api_verify _ _ => false | _ => true end.

(** The names a call puts into its path are single segments. *)
Definition call_segments (c : ApiCall) : bool :=
  match c with
  | api_orderbook m _ | api_trades m _ _ | api_funding m _ => segment m
  | api_cancelOrder id => segment id
  | _ => true
  end.

Definition describes (e : string * string) (c : ApiCall) : Prop :=
  let '(method, path, _) := api c in method = fst e /\ path_matches false (snd e) path = true.

Ltac documents m t := exists (m, t); split; [apply (bool_decide_unpack _); vm_compute; exact I | split; [reflexivity|]].

(** The documented REST endpoints are the client's.  Every request the
    web client makes, other than the sign-in ones, goes to an endpoint of the
    documentation, with its method and a path of the documented form, whatever
    the market, order id and query; and every documented endpoint is one the
    client calls. *)
Theorem docs_endpoints_are_the_clients (c : ApiCall) :
  documented_call c = true -> call_segments c = true ->
  (exists e, e ∈ documented /\ describes e c) /\
  Forall (fun e => exists c', documented_call c' = true /\ describes e c') documented.
Proof.
  intros Hc Hs. split.
  - destruct c as [|m d|m l b|m r|o|id| | |m l b| |a|ms sg]; try discriminate Hc; cbn [call_segments] in Hs.
    + documents "GET" "/v1/markets". done.
    + documents "GET" "/v1/orderbook/{marketId}". by apply (matches_hole m ("depth=" +:+ depth_text d) "marketId}").
    + documents "GET" "/v1/trades/{marketId}".
      by apply (matches_hole m (params_toString (("limit", bigint_toString l) :: opt_param "before" b)) "marketId}").
    + documents "GET" "/v1/funding/{marketId}". by apply (matches_hole m ("range=" +:+ range_text r) "marketId}").
    + documents "POST" "/v1/orders". done.
    + documents "DELETE" "/v1/orders/{orderId}". by apply (matches_hole id EmptyString "orderId}").
    + documents "GET" "/v1/orders/open". done.
    + documents "GET" "/v1/positions". done.
    + documents "GET" "/v1/fills". cbn. by destruct (str_truthy _).
    + documents "GET" "/v1/account/balance". done.
  - assert (E : documented = [("GET", "/v1/markets"); ("GET", "/v1/orderbook/{marketId}"); ("GET", "/v1/trades/{marketId}");
        ("GET", "/v1/funding/{marketId}"); ("POST", "/v1/orders"); ("DELETE", "/v1/orders/{orderId}"); ("GET", "/v1/orders/open");
        ("GET", "/v1/positions"); ("GET", "/v1/fills"); ("GET", "/v1/account/balance")]) by (vm_compute; reflexivity).
    rewrite E. repeat (apply Forall_cons; split); [..|constructor].
    + by exists api_markets. 
    + by exists (api_orderbook "btc-usd" depth_50).
    + by exists (api_trades "btc-usd" 50 None).
    + by exists (api_funding "btc-usd" r24h).
    + by exists (api_placeOrder (mkOrderRequest "btc-usd" buy market "0" "1" ioc false false "1" "0" "0x")).
    + by exists (api_cancelOrder "o1").
    + by exists api_openOrders.
    + by exists api_positions.
    + by exists (api_fills None None None).
    + by exists api_balance.
Qed.

Lemma docs_endpoints_are_the_clients_witness :
  exists e, e ∈ documented /\ describes e (api_trades "eth-usd" 20 (Some "17")).
Proof. apply (docs_endpoints_are_the_clients (api_trades "eth-usd" 20 (Some "17"))); reflexivity. Defined.

(** ** The price tiles *)

Section sparkline.
Open Scope Q_scope.

Lemma Qmin_le (x y : Q) : n_min x y <= x /\ n_min x y <= y.
Proof. cbn. destruct (Qltb y x) eqn:E; [apply Qltb_lt in E | apply Qltb_ge in E]; lra. Qed.

Lemma Qmax_ge (x y : Q) : x <= n_max x y /\ y <= n_max x y.
Proof. cbn. destruct (Qltb x y) eqn:E; [apply Qltb_lt in E | apply Qltb_ge in E]; lra. Qed.

Lemma fold_min_le (s : list Q) x v : v ∈ x :: s -> foldl n_min x s <= v.
Proof.
  revert x v. induction s as [|y s IH]; intros x v Hv.
  - apply list_elem_of_singleton in Hv as ->. apply Qle_refl.
  - cbn [foldl]. pose proof (Qmin_le x y) as [H1 H2]. rewrite !elem_of_cons in Hv.
    destruct Hv as [-> | [-> | Hv]].
    + eapply Qle_trans; [apply IH; left | exact H1].
    + eapply Qle_trans; [apply IH; left | exact H2].
    + apply IH. by right.
Qed.

Lemma fold_max_ge (s : list Q) x v : v ∈ x :: s -> v <= foldl n_max x s.
Proof.
  revert x v. induction s as [|y s IH]; intros x v Hv.
  - apply list_elem_of_singleton in Hv as ->. apply Qle_refl.
  - cbn [foldl]. pose proof (Qmax_ge x y) as [H1 H2]. rewrite !elem_of_cons in Hv.
    destruct Hv as [-> | [-> | Hv]].
    + eapply Qle_trans; [exact H1 | apply IH; left].
    + eapply Qle_trans; [exact H2 | apply IH; left].
    + apply IH. by right.
Qed.

Lemma fraction_bounds (a b : Q) : 0 <= a <= b -> 0 < b -> 0 <= a / b <= 1.
Proof.
  intros [Ha Hb] Hpos. split; [apply Qle_shift_div_l; lra | apply Qle_shift_div_r; lra].
Qed.

Lemma spark_y_in_box (t : Ticker Q) v : v ∈ tk_series t -> 4 <= spark_y t v <= 30.
Proof.
  unfold spark_y, tk_span, tk_min, tk_max. destruct (tk_series t) as [|x s]; [by intros ?%not_elem_of_nil|]. intros Hv.
  pose proof (fold_min_le s x v Hv) as Hmin. pose proof (fold_max_ge s x v Hv) as Hmax.
  set (lo := foldl n_min x s) in *. set (hi := foldl n_max x s) in *.
  pose proof (Qmax_ge 1 (hi - lo)) as [H1 H2]. set (span := n_max 1 (hi - lo)) in *.
  assert (Hf : 0 <= (v - lo) / span <= 1) by (apply fraction_bounds; lra).
  change (4 <= 32 - 2 - (v - lo) / span * (32 - 6) <= 30). set (f := (v - lo) / span) in *. lra.
Qed.

Lemma ticks_length (amp : Q) rs (t : Ticker Q) :
  tk_series t <> [] -> length (tk_series (foldl (fun t r => ticker_tick amp r t) t rs)) = length (tk_series t).
Proof.
  revert t. induction rs as [|r rs IH]; intros t Ht; [done|]. cbn [foldl]. rewrite IH.
  - cbn. rewrite length_app. destruct (tk_series t); [done|]. cbn. lia.
  - cbn. destruct (tl (tk_series t)); done.
Qed.

(** The sparkline of a price tile stays inside its box.  After any number
    of ticks with any random draws (in exact arithmetic), the tile keeps 22
    points, and each is drawn at a height from 4 to 30 and at a horizontal
    position from 0 to 100 of the 100 by 32 box, from the left edge to the
    right one. *)
Theorem sparkline_in_box (rs : list Q) :
  let t := foldl (fun t r => PriceTile.tick r t) PriceTile.init rs in
  length (tk_series t) = 22%nat /\
  (forall v, v ∈ tk_series t -> 4 <= spark_y t v <= 30) /\
  (forall i, (i < 22)%nat -> 0 <= spark_x t i <= 100) /\ spark_x t 0 == 0 /\ spark_x t 21 == 100.
Proof.
  intros t. assert (Hlen : length (tk_series t) = 22%nat) by (apply ticks_length; done).
  split; [done|]. split; [apply spark_y_in_box|]. unfold spark_x. rewrite Hlen. split; [|done].
  intros i Hi. do 22 (destruct i as [|i]; [vm_compute; split; discriminate|]). lia.
Qed.
End sparkline.
