(* ===== verification/AppFrame.v ===== *)
(** * The frame of the application

    The layouts around the pages (web/app/layout.tsx, web/app/(app)/layout.tsx),
    the boot screens of web/app/providers.tsx, and the small views that the
    other components embed: the logo, placeholders, icons and the controls of
    the order book. *)
From S2P Require Import Prelude JsNum JsText JsColl Contract Format Browser UiStore LiveBook TradePanels Shell Jsx Landing.
From Stdlib Require Import SpecFloat Ascii.
#[local] Open Scope Z_scope.

(** ** ThemeToggle.tsx: its icons *)

Module ThemeIcons.

Definition SunIcon (size : Z) : Jsx :=
  El "svg" [("width", bigint_toString size); ("height", bigint_toString size); ("viewBox", "0 0 24 24"); ("fill", "none")] [El "circle" [("cx", "12"); ("cy", "12"); ("r", "4")] [];
    El "path" [("d", "M12 2v2M12 20v2M4.93 4.93l1.41 1.41M17.66 17.66l1.41 1.41M2 12h2M20 12h2M4.93 19.07l1.41-1.41M17.66 6.34l1.41-1.41")] []].

Definition MoonIcon (size : Z) : Jsx :=
  El "svg" [("width", bigint_toString size); ("height", bigint_toString size); ("viewBox", "0 0 24 24"); ("fill", "none")] [El "path" [("d", "M21 12.79A9 9 0 1 1 11.21 3 7 7 0 0 0 21 12.79z")] []].

End ThemeIcons.

(** ** Logo.tsx, Skeleton.tsx *)

Definition Logo (label : bool) : Jsx :=
  El "span" [("aria-label", "Perplex")] [PerplexMark 22;
    Frag (if label then [El "span" [] [Txt "perplex";
          El "span" [] [Txt "."]]] else [])].

Definition Skeleton : Jsx := El "div" [("style.animation", "shimmer 1.4s ease-in-out infinite")] [].

(** ** providers.tsx: what is shown while the mock backend boots *)

Definition MocksErrorBanner (error : string) : Jsx :=
  El "div" [("role", "alert")] [El "div" [] [Txt "Mock backend failed to start"];
    El "div" [] [Txt error];
    El "button" [("onClick", "reload")] [Txt "Reload page"]].

Definition BootSplash : Jsx :=
  El "div" [] [Logo true;
    El "div" [] [El "span" [] [];
      El "span" [] [Txt "booting mock backend…"]]].

(** ** MobileTabBar.tsx: its icons *)

Module TabIcons.

Definition ChartIcon (active : bool) : Jsx :=
  El "svg" [("width", "18"); ("height", "18"); ("viewBox", "0 0 24 24"); ("fill", "none")] [El "path" [("d", "M3 17l4-4 4 3 7-9")] [];
    El "path" [("d", "M14 7h5v5")] [];
    Frag (if active then [El "circle" [("cx", "3"); ("cy", "17"); ("r", "1.5"); ("fill", "currentColor")] []] else [])].

Definition ListIcon : Jsx :=
  El "svg" [("width", "18"); ("height", "18"); ("viewBox", "0 0 24 24"); ("fill", "none")] [El "path" [("d", "M4 6h16M4 12h16M4 18h10")] []].

Definition WalletIcon : Jsx :=
  El "svg" [("width", "18"); ("height", "18"); ("viewBox", "0 0 24 24"); ("fill", "none")] [El "rect" [("x", "3"); ("y", "6"); ("width", "18"); ("height", "14"); ("rx", "2")] [];
    El "path" [("d", "M16 13h2")] []].

Definition HistoryIcon : Jsx :=
  El "svg" [("width", "18"); ("height", "18"); ("viewBox", "0 0 24 24"); ("fill", "none")] [El "path" [("d", "M3 12a9 9 0 1 0 3-6.7L3 8")] [];
    El "path" [("d", "M3 3v5h5")] [];
    El "path" [("d", "M12 7v6l4 2")] []].

End TabIcons.

(** ** WalletButton.tsx: its icons *)

Module WalletIcons.

Definition WalletIcon : Jsx :=
  El "svg" [("width", "13"); ("height", "13"); ("viewBox", "0 0 24 24"); ("fill", "none")] [El "path" [("d", "M3 7h15a2 2 0 012 2v8a2 2 0 01-2 2H5a2 2 0 01-2-2V7z")] [];
    El "path" [("d", "M3 7l2-3h12l2 3")] [];
    El "circle" [("cx", "17"); ("cy", "13"); ("r", "1.4"); ("fill", "currentColor")] []].

Definition ChevronIcon : Jsx :=
  El "svg" [("width", "11"); ("height", "11"); ("viewBox", "0 0 24 24"); ("fill", "none")] [El "path" [("d", "M6 9l6 6 6-6")] []].

Definition ChevronRightIcon : Jsx :=
  El "svg" [("width", "12"); ("height", "12"); ("viewBox", "0 0 24 24"); ("fill", "none")] [El "path" [("d", "M9 6l6 6-6 6")] []].

Definition CopyIcon : Jsx :=
  El "svg" [("width", "14"); ("height", "14"); ("viewBox", "0 0 24 24"); ("fill", "none")] [El "rect" [("x", "9"); ("y", "9"); ("width", "11"); ("height", "11"); ("rx", "2")] [];
    El "path" [("d", "M5 15V5a2 2 0 012-2h10")] []].

Definition ExternalIcon : Jsx :=
  El "svg" [("width", "14"); ("height", "14"); ("viewBox", "0 0 24 24"); ("fill", "none")] [El "path" [("d", "M14 4h6v6M20 4l-9 9")] [];
    El "path" [("d", "M19 14v5a1 1 0 01-1 1H5a1 1 0 01-1-1V6a1 1 0 011-1h5")] []].

Definition PowerIcon : Jsx :=
  El "svg" [("width", "14"); ("height", "14"); ("viewBox", "0 0 24 24"); ("fill", "none")] [El "path" [("d", "M12 3v9")] [];
    El "path" [("d", "M7 6a8 8 0 1010 0")] []].

Definition SpinnerIcon : Jsx :=
  El "svg" [("width", "13"); ("height", "13"); ("viewBox", "0 0 24 24"); ("fill", "none")] [El "path" [("d", "M21 12a9 9 0 01-9 9")] []].

Definition Glyph (color : string) (children : list Jsx) : Jsx :=
  El "span" [("style.background", color)] [Frag children].

End WalletIcons.

(** ** CoinIcon.tsx: the marks of the three markets *)

Module CoinMarks.

Definition BtcMark (size : Z) (color : string) : Jsx :=
  El "svg" [("width", bigint_toString size); ("height", bigint_toString size); ("viewBox", "0 0 32 32")] [El "path" [("fill", color); ("d", "M21.66 14.36c.34-2.27-1.39-3.49-3.76-4.31l.77-3.09-1.88-.47-.75 3.01c-.49-.12-1-.24-1.5-.35l.75-3.03-1.88-.47-.77 3.09c-.41-.09-.81-.18-1.2-.28v-.01l-2.6-.65-.5 2.01s1.4.32 1.37.34c.76.19.9.7.88 1.1l-.88 3.52c.05.01.12.03.2.06l-.2-.05-1.23 4.93c-.09.23-.33.58-.86.45.02.03-1.37-.34-1.37-.34l-.93 2.15 2.45.61c.46.11.9.23 1.34.34l-.78 3.13 1.88.47.77-3.09c.51.14 1.01.26 1.5.38l-.77 3.07 1.88.47.78-3.12c3.21.61 5.62.36 6.64-2.55.82-2.34-.04-3.69-1.73-4.57 1.23-.28 2.16-1.09 2.41-2.77zm-4.31 6.04c-.58 2.34-4.52 1.07-5.8.75l1.03-4.14c1.28.32 5.38.95 4.77 3.39zm.59-6.08c-.53 2.13-3.81 1.05-4.87.78l.94-3.75c1.07.27 4.49.77 3.93 2.97z")] []].

Definition EthMark (size : Z) (color : string) : Jsx :=
  El "svg" [("width", bigint_toString size); ("height", bigint_toString size); ("viewBox", "0 0 32 32")] [El "g" [("fill", color)] [El "path" [("opacity", "0.6"); ("d", "M16 3l-9 14 9 5z")] [];
      El "path" [("d", "M16 3l9 14-9 5z")] [];
      El "path" [("opacity", "0.6"); ("d", "M16 24l9-5-9 12z")] [];
      El "path" [("d", "M16 31l-9-12 9 5z")] [];
      El "path" [("opacity", "0.45"); ("d", "M16 22l9-5-9-4z")] [];
      El "path" [("opacity", "0.85"); ("d", "M7 17l9 5v-9z")] []]].

Definition SolMark (size : Z) (color : string) : Jsx :=
  El "svg" [("width", bigint_toString size); ("height", bigint_toString size); ("viewBox", "0 0 32 32")] [El "defs" [] [El "linearGradient" [("id", "sol-a"); ("x1", "0"); ("y1", "0"); ("x2", "1"); ("y2", "1")] [El "stop" [("offset", "0"); ("stopColor", "#9945ff")] [];
        El "stop" [("offset", "1"); ("stopColor", color)] []]];
    El "path" [("fill", "url(#sol-a)"); ("d", "M9 23h17l-3 4H6zM9 9h17l-3 4H6zM6 16l3-4h17l-3 4z")] []].

End CoinMarks.

(** ** OrderForm.tsx: its icons *)

Definition InfoDot : Jsx :=
  El "span" [("title", "GTC: rests till filled. IOC: take what's there, kill rest. FOK: full fill or reject.")] [Txt "i"].

Definition UpArrow : Jsx :=
  El "svg" [("width", "11"); ("height", "11"); ("viewBox", "0 0 24 24"); ("fill", "none")] [El "path" [("d", "M12 19V5M5 12l7-7 7 7")] []].

Definition DownArrow : Jsx :=
  El "svg" [("width", "11"); ("height", "11"); ("viewBox", "0 0 24 24"); ("fill", "none")] [El "path" [("d", "M12 5v14M5 12l7 7 7-7")] []].

(** ** Orderbook.tsx: the layout buttons and the grouping selector *)

Module BookControls.

Definition SplitIcon : Jsx :=
  El "svg" [("width", "10"); ("height", "10"); ("viewBox", "0 0 12 12"); ("fill", "currentColor")] [El "rect" [("x", "0"); ("y", "1"); ("width", "12"); ("height", "2")] [];
    El "rect" [("x", "0"); ("y", "5"); ("width", "9"); ("height", "2")] [];
    El "rect" [("x", "0"); ("y", "9"); ("width", "12"); ("height", "2"); ("opacity", "0.5")] []].

Definition BidIcon : Jsx :=
  El "svg" [("width", "10"); ("height", "10"); ("viewBox", "0 0 12 12"); ("fill", "currentColor")] [El "rect" [("x", "0"); ("y", "2"); ("width", "6"); ("height", "2")] [];
    El "rect" [("x", "0"); ("y", "6"); ("width", "10"); ("height", "2")] [];
    El "rect" [("x", "0"); ("y", "10"); ("width", "12"); ("height", "1.5")] []].

Definition AskIcon : Jsx :=
  El "svg" [("width", "10"); ("height", "10"); ("viewBox", "0 0 12 12"); ("fill", "currentColor")] [El "rect" [("x", "0"); ("y", "0.5"); ("width", "12"); ("height", "1.5")] [];
    El "rect" [("x", "0"); ("y", "4"); ("width", "10"); ("height", "2")] [];
    El "rect" [("x", "0"); ("y", "8"); ("width", "6"); ("height", "2")] []].

Definition UnitChip (children : list Jsx) : Jsx :=
  El "span" [] [Frag children].

(** The three layouts with their names and icons. *)
Definition LAYOUTS : list (BookLayout * string * Jsx) :=
  [(split, "split", SplitIcon); (bids_only, "bids", BidIcon); (asks_only, "asks", AskIcon)].

Definition layout_eqb (a b : BookLayout) : bool :=
  match a, b with split, split | bids_only, bids_only | asks_only, asks_only => true | _, _ => false end.

(** A click on a button sets its layout. *)
Definition layout_button (layout : BookLayout) (it : BookLayout * string * Jsx) : Jsx :=
  let '(v, name, icon) := it in
  El "button" [("onClick", "setLayout " +:+ name); ("aria-label", "Layout " +:+ name);
               ("className", cn [Some "size-5 flex items-center justify-center rounded-[3px]";
                                 Some (if layout_eqb layout v then "bg-bg-hover text-fg" else "text-fg-muted hover:text-fg")])]
    [icon].

Definition LayoutToggle (layout : BookLayout) : Jsx := El "div" [] [Frag (map (layout_button layout) LAYOUTS)].

Definition GROUP_OPTS : list Z := [1; 5; 10; 50].

Definition GroupSelect (step : number) (value : Z) (dec : nat) : Jsx :=
  El "select" [("value", bigint_toString value); ("onChange", "onChange"); ("aria-label", "Group ticks")]
    [Frag (map (fun o => El "option" [("value", bigint_toString o)] [Txt (toFixed (step * nint o)%num dec)]) GROUP_OPTS)].

(** The book's own state, and what the two controls do to it. *)
Record BookUi := mkBookUi { bu_layout : BookLayout; bu_grouping : number }.

Definition book_ui_init : BookUi := mkBookUi split (nint 1).

Definition setLayout (v : BookLayout) (u : BookUi) : BookUi := mkBookUi v (bu_grouping u).

Definition onGroup (target_value : string) (u : BookUi) : BookUi := mkBookUi (bu_layout u) (Number_of_string target_value).

End BookControls.

(** ** web/app/(app)/layout.tsx *)

Definition AppLayout (TopNav MobileTabBar : Jsx) (children : list Jsx) : Jsx :=
  El "div" [] [TopNav; El "main" [] children; MobileTabBar].

(** ** web/app/layout.tsx

    The script in the head runs before the page is painted: it reads the
    stored theme and sets the class of the document root.  Reading the storage
    may throw, which the script swallows. *)

Definition stored_or_light (s : option string) : string :=
  match s with
  | Some t => if String.eqb t "light" || String.eqb t "dark" then t else "light"
  | None => "light"
  end.

Definition themeInit (stored : result (option string)) (classes : list string) : list string :=
  match stored with
  | Throw _ => classes
  | Ok s =>
      List.filter (fun c => negb (String.eqb c "light" || String.eqb c "dark")) classes ++ [stored_or_light s]
  end.

Definition font_classes (inter jbMono spaceGrotesk : string) : list string :=
  [inter; jbMono; spaceGrotesk; "h-full"; "antialiased"].

Definition RootLayout (inter jbMono spaceGrotesk script : string) (providers : Jsx) : Jsx :=
  El "html" [("lang", "en"); ("className", str_join " " (font_classes inter jbMono spaceGrotesk))]
    [El "head" [] [El "script" [("dangerouslySetInnerHTML", script)] []];
     El "body" [] [providers]].

(** The two theme classes of the root, as [applyTheme] sets them. *)
Definition theme_classes (classes : list string) : bool * bool :=
  (bool_decide ("dark" ∈ classes), bool_decide ("light" ∈ classes)).

Lemma filter_no_theme classes t :
  t = "light" \/ t = "dark" ->
  t ∉ List.filter (fun c => negb (String.eqb c "light" || String.eqb c "dark")) classes.
Proof.
  intros Ht. rewrite list_elem_of_In, filter_In. intros [_ Hf].
  by destruct Ht as [-> | ->]; rewrite ?String.eqb_refl in Hf.
Qed.

(** The page never flashes the wrong theme: whatever is stored, the class that
    the script sets before painting is the one that the theme toggle reads and
    applies when it mounts. *)
Theorem no_theme_flash (b : Browser) (classes : list string) :
  b_window b = true ->
  theme_classes (themeInit (Ok (getItem STORAGE_KEY b)) classes) = th_root (theme_mount (false, false) b).
Proof.
  intros Hw. unfold theme_mount, readInitial, theme_classes, themeInit. rewrite Hw. cbn [negb th_root].
  assert (Hd : forall t l, (t = "light" \/ t = "dark") -> bool_decide (t ∈ List.filter (fun c => negb (String.eqb c "light" || String.eqb c "dark")) classes ++ [l]) = bool_decide (t = l)).
  { intros t l Ht. apply bool_decide_ext. rewrite elem_of_app, list_elem_of_singleton. split; [|auto].
    intros [Hf | Hl]; [|done]. by apply (filter_no_theme classes) in Hf. }
  rewrite !Hd by auto. unfold stored_or_light.
  destruct (getItem STORAGE_KEY b) as [t|]; [|reflexivity].
  destruct (String.eqb_spec t "light") as [->|Hl]; [reflexivity|].
  destruct (String.eqb_spec t "dark") as [->|Hdk]; [reflexivity|].
  assert (E : match t with "light" => light | "dark" => dark | _ => light end = light).
  { repeat match goal with
    | |- match ?x with _ => _ end = _ => destruct x; try done
    end. }
  by rewrite E.
Qed.
