(* ===== verification/ServiceWorker.v ===== *)
(** * The mock service worker ([web/public/mockServiceWorker.js])

    The worker that carries a page's requests to the handlers registered in
    the page ([MockServer]).  It keeps one piece of state, the set of clients
    that enabled mocking; every handler of it is asynchronous.  A handler is
    modelled as the stages between its [await]s, each stage one step of
    [step], so that any other event of the worker can come in between: a page
    may enable mocking, close, or vanish while a request of it is in flight.

    The browser is the part of the state the worker only reads (the open
    clients) and the part it writes (posted messages, network fetches,
    settled responses), kept in [w_log], newest first. *)

From S2P Require Import Prelude JsNum JsText JsColl.
From Stdlib Require Import Ascii.

Definition PACKAGE_VERSION : string := "2.14.6".
Definition INTEGRITY_CHECKSUM : string := "4db4a41e972cec1b64cc569c66952d82".

(** ** What the browser hands to the worker *)

Record Client := mkClient {
  c_id : string;
  c_type : string;             (* "window", "worker", ... *)
  c_frameType : string;        (* "top-level", "nested", ... *)
  c_visibilityState : string
}.

(** Header names are lower case and unique, as [Headers] keeps them. *)
Definition Headers : Type := list (string * string).

Record Request := mkRequest {
  rq_url : string;
  rq_mode : string;
  rq_method : string;
  rq_headers : Headers;
  rq_cache : string;
  rq_credentials : string;
  rq_destination : string;
  rq_integrity : string;
  rq_redirect : string;
  rq_referrer : string;
  rq_referrerPolicy : string;
  rq_body : option string;     (* the bytes, [None] for no body *)
  rq_keepalive : bool
}.

(** The plain object of [serializeRequest]: its body is an [ArrayBuffer],
    empty when the request has none. *)
Record SerializedRequest := mkSerializedRequest {
  sr_url : string;
  sr_mode : string;
  sr_method : string;
  sr_headers : Headers;
  sr_cache : string;
  sr_credentials : string;
  sr_destination : string;
  sr_integrity : string;
  sr_redirect : string;
  sr_referrer : string;
  sr_referrerPolicy : string;
  sr_body : string;
  sr_keepalive : bool
}.

(** [rp_mocked]: whether the response carries the [IS_MOCKED_RESPONSE] property. *)
Record Response := mkResponse {
  rp_type : string;
  rp_status : Z;
  rp_statusText : string;
  rp_headers : Headers;
  rp_body : option string;
  rp_mocked : bool
}.

(** [clientMessage.data] of a [MOCK_RESPONSE]: also the [ResponseInit]. *)
Record MockData := mkMockData {
  md_status : Z;
  md_statusText : string;
  md_headers : Headers;
  md_body : option string
}.

(** [event.data] of the answer on the message channel. *)
Inductive Answer :=
| ANullish                                   (* null, undefined *)
| AUntyped                                   (* another value without a [type]: 0, the empty text, false, ... *)
| AError (e : JsError)                       (* an object with a truthy [error] *)
| AData (type : string) (data : option MockData).

(** Messages the worker posts, one constructor per [type]. *)
Inductive Message :=
| KEEPALIVE_RESPONSE
| INTEGRITY_CHECK_RESPONSE (packageVersion checksum : string)
| MOCKING_ENABLED (id frameType : string)
| REQUEST (id : string) (interceptedAt : Z) (request : SerializedRequest)
| RESPONSE (isMockedResponse : bool) (id : string) (request : SerializedRequest) (response : Response).

Inductive Action :=
| SkipWaiting
| Claim
| Unregister
| Post (to : string) (message : Message) (transferrables : list string)
| Fetch (requestId : string) (request : Request) (headers : Headers)
| Settle (requestId : string) (outcome : result Response).

(** ** Requests and responses *)

Definition serializeRequest (request : Request) : SerializedRequest :=
  mkSerializedRequest (rq_url request) (rq_mode request) (rq_method request) (rq_headers request)
    (rq_cache request) (rq_credentials request) (rq_destination request) (rq_integrity request)
    (rq_redirect request) (rq_referrer request) (rq_referrerPolicy request)
    (default "" (rq_body request)) (rq_keepalive request).

Definition Response_error : Response := mkResponse "error" 0 "" [] None false.

Fixpoint is_reason_phrase (s : string) : bool :=
  match s with
  | EmptyString => true
  | String c s' =>
      let n := N_of_ascii c in
      ((n =? 9) || ((32 <=? n) && (n <=? 126)) || (128 <=? n))%N && is_reason_phrase s'
  end.

(** [new Response(body, init)]; the body is a stream or a buffer, which
    brings no content type of its own. *)
Definition new_Response (body : option string) (init : MockData) : result Response :=
  if (md_status init <? 200) || (599 <? md_status init) then
    Throw (mkError "RangeError" "The status provided is outside the range [200, 599].")
  else if negb (is_reason_phrase (md_statusText init)) then
    Throw (mkError "TypeError" "Invalid statusText")
  else
    match body with
    | Some _ =>
        if (md_status init =? 204) || (md_status init =? 205) || (md_status init =? 304) then
          Throw (mkError "TypeError" "Response with null body status cannot have body")
        else Ok (mkResponse "default" (md_status init) (md_statusText init) (md_headers init) body false)
    | None => Ok (mkResponse "default" (md_status init) (md_statusText init) (md_headers init) None false)
    end.

Definition mark_mocked (r : Response) : Response :=
  mkResponse (rp_type r) (rp_status r) (rp_statusText r) (rp_headers r) (rp_body r) true.

Definition respondWithMock (response : MockData) : result Response :=
  if md_status response =? 0 then Ok Response_error
  else
    let! mockedResponse := new_Response (md_body response) response in
    Ok (mark_mocked mockedResponse).

Definition accept_values (acceptHeader : string) : list string :=
  map str_trim (split_char "," acceptHeader).

Definition not_passthrough (value : string) : bool := negb (String.eqb value "msw/passthrough").

(** The headers [passthrough] fetches with. *)
Definition passthrough_headers (requestHeaders : Headers) : Headers :=
  let headers := requestHeaders in
  match jm_get "accept" headers with
  | Some acceptHeader =>
      if str_truthy acceptHeader then
        let filteredValues := List.filter not_passthrough (accept_values acceptHeader) in
        if (0 <? length filteredValues)%nat then jm_set "accept" (str_join ", " filteredValues) headers
        else jm_delete "accept" headers
      else headers
  | None => headers
  end.

(** ** The worker's state *)

Inductive MsgStage :=
| MsgGet (clientId data : string)                       (* await clients.get *)
| MsgMatchAll (client : Client) (clientId data : string). (* await clients.matchAll *)

Inductive Stage :=
| ResolveGet                                   (* resolveMainClient: await clients.get *)
| ResolveMatchAll                              (* resolveMainClient: await clients.matchAll *)
| Resolved (client : option Client)            (* handleRequest: before getResponse *)
| SerializeBody (client : Client)              (* getResponse: await serializeRequest *)
| AwaitAnswer (client : Client)                (* getResponse: await sendToClient *)
| AwaitNetwork (client : option Client)        (* getResponse: passthrough's fetch *)
| Responded (client : option Client) (response : Response) (* handleRequest: after getResponse *)
| SerializeClone (client : Client) (response : Response)   (* handleRequest: await serializeRequest *)
| Settled (outcome : result Response).

Record Pending := mkPending {
  pd_request : Request;
  pd_clientId : string;
  pd_interceptedAt : Z;
  pd_stage : Stage
}.

Record Worker := mkWorker {
  activeClientIds : list string;
  w_clients : list Client;
  w_messages : list (nat * MsgStage);
  w_requests : list (string * Pending);
  w_log : list Action
}.

Definition set_active ids (w : Worker) : Worker :=
  mkWorker ids (w_clients w) (w_messages w) (w_requests w) (w_log w).
Definition set_clients cs (w : Worker) : Worker :=
  mkWorker (activeClientIds w) cs (w_messages w) (w_requests w) (w_log w).
Definition set_messages ms (w : Worker) : Worker :=
  mkWorker (activeClientIds w) (w_clients w) ms (w_requests w) (w_log w).
Definition set_requests rs (w : Worker) : Worker :=
  mkWorker (activeClientIds w) (w_clients w) (w_messages w) rs (w_log w).
Definition act (a : Action) (w : Worker) : Worker :=
  mkWorker (activeClientIds w) (w_clients w) (w_messages w) (w_requests w) (a :: w_log w).

Definition worker_start : Worker := mkWorker [] [] [] [] [].

(** [self.clients.get] and [self.clients.matchAll({ type: "window" })]. *)
Definition clients_get (id : string) (w : Worker) : option Client :=
  List.find (fun c => String.eqb (c_id c) id) (w_clients w).
Definition clients_matchAll (w : Worker) : list Client :=
  List.filter (fun c => String.eqb (c_type c) "window") (w_clients w).

(** [sendToClient]: a falsy transferrable is left out; an [ArrayBuffer] or a
    stream never is, so the lists below hold the ones present. *)
Definition sendToClient (client : Client) (message : Message) (transferrables : list string) (w : Worker)
  : Worker := act (Post (c_id client) message transferrables) w.

(** ** Life cycle and messages *)

Definition on_install (w : Worker) : Worker := act SkipWaiting w.
Definition on_activate (w : Worker) : Worker := act Claim w.

Definition client_closed (clientId : string) (allClients : list Client) (w : Worker) : Worker :=
  let w := set_active (js_del clientId (activeClientIds w)) w in
  let remainingClients := List.filter (fun c => negb (String.eqb (c_id c) clientId)) allClients in
  if (length remainingClients =? 0)%nat then act Unregister w else w.

(** The [switch] of the message handler. *)
Definition message_switch (client : Client) (clientId data : string) (allClients : list Client)
  (w : Worker) : Worker :=
  if String.eqb data "KEEPALIVE_REQUEST" then sendToClient client KEEPALIVE_RESPONSE [] w
  else if String.eqb data "INTEGRITY_CHECK_REQUEST" then
    sendToClient client (INTEGRITY_CHECK_RESPONSE PACKAGE_VERSION INTEGRITY_CHECKSUM) [] w
  else if String.eqb data "MOCK_ACTIVATE" then
    sendToClient client (MOCKING_ENABLED (c_id client) (c_frameType client)) []
      (set_active (js_add clientId (activeClientIds w)) w)
  else if String.eqb data "CLIENT_CLOSED" then client_closed clientId allClients w
  else w.

(** The message handler up to its first [await]; [mid] names the event. *)
Definition on_message (mid : nat) (source : option string) (data : string) (w : Worker) : Worker :=
  match source with
  | Some clientId =>
      if str_truthy clientId then set_messages (jm_set mid (MsgGet clientId data) (w_messages w)) w else w
  | None => w
  end.

(** One more stage of the handler of event [mid]. *)
Definition message_resume (mid : nat) (w : Worker) : Worker :=
  match jm_get mid (w_messages w) with
  | Some (MsgGet clientId data) =>
      match clients_get clientId w with
      | Some client => set_messages (jm_set mid (MsgMatchAll client clientId data) (w_messages w)) w
      | None => set_messages (jm_delete mid (w_messages w)) w
      end
  | Some (MsgMatchAll client clientId data) =>
      message_switch client clientId data (clients_matchAll w)
        (set_messages (jm_delete mid (w_messages w)) w)
  | None => w
  end.

(** ** Requests *)

(** The fetch handler bypasses a request by returning without [respondWith]. *)
Definition bypassed (request : Request) (w : Worker) : bool :=
  String.eqb (rq_mode request) "navigate"
  || (String.eqb (rq_cache request) "only-if-cached" && negb (String.eqb (rq_mode request) "same-origin"))
  || (length (activeClientIds w) =? 0)%nat.

Definition on_fetch (requestId : string) (request : Request) (clientId : string) (now : Z) (w : Worker)
  : Worker :=
  if bypassed request w then w
  else set_requests (jm_set requestId (mkPending request clientId now ResolveGet) (w_requests w)) w.

Definition is_active (id : string) (w : Worker) : bool := js_has id (activeClientIds w).

Definition at_stage (requestId : string) (p : Pending) (s : Stage) (w : Worker) : Worker :=
  set_requests (jm_set requestId (mkPending (pd_request p) (pd_clientId p) (pd_interceptedAt p) s)
                  (w_requests w)) w.

Definition settle (requestId : string) (p : Pending) (o : result Response) (w : Worker) : Worker :=
  act (Settle requestId o) (at_stage requestId p (Settled o) w).

(** [resolveMainClient] after its first [await]. *)
Definition resolve_get (requestId : string) (p : Pending) (w : Worker) : Worker :=
  let client := clients_get (pd_clientId p) w in
  if is_active (pd_clientId p) w then at_stage requestId p (Resolved client) w
  else
    match client with
    | Some c =>
        if String.eqb (c_frameType c) "top-level" then at_stage requestId p (Resolved client) w
        else at_stage requestId p ResolveMatchAll w
    | None => at_stage requestId p ResolveMatchAll w
    end.

(** [resolveMainClient] after its second [await]. *)
Definition find_main_client (w : Worker) : option Client :=
  List.find (fun c => is_active (c_id c) w)
    (List.filter (fun c => String.eqb (c_visibilityState c) "visible") (clients_matchAll w)).

Definition passthrough (requestId : string) (p : Pending) (client : option Client) (w : Worker) : Worker :=
  act (Fetch requestId (pd_request p) (passthrough_headers (rq_headers (pd_request p))))
    (at_stage requestId p (AwaitNetwork client) w).

(** [getResponse] up to its first [await]. *)
Definition getResponse (requestId : string) (p : Pending) (client : option Client) (w : Worker) : Worker :=
  match client with
  | None => passthrough requestId p client w
  | Some c =>
      if negb (is_active (c_id c) w) then passthrough requestId p client w
      else at_stage requestId p (SerializeBody c) w
  end.

(** [getResponse] once the body is read: the client is told. *)
Definition notify_client (requestId : string) (p : Pending) (c : Client) (w : Worker) : Worker :=
  let serializedRequest := serializeRequest (pd_request p) in
  sendToClient c (REQUEST requestId (pd_interceptedAt p) serializedRequest) [sr_body serializedRequest]
    (at_stage requestId p (AwaitAnswer c) w).

(** [getResponse] once the client answered. *)
Definition answered (requestId : string) (p : Pending) (c : Client) (a : Answer) (w : Worker) : Worker :=
  match a with
  | AError e => settle requestId p (Throw e) w
  | ANullish => settle requestId p (Throw (mkError "TypeError" "Cannot read properties of null")) w
  | AUntyped => passthrough requestId p (Some c) w
  | AData type data =>
      if String.eqb type "MOCK_RESPONSE" then
        match data with
        | None => settle requestId p (Throw (mkError "TypeError" "Cannot read properties of undefined")) w
        | Some d =>
            match respondWithMock d with
            | Ok r => at_stage requestId p (Responded (Some c) r) w
            | Throw e => settle requestId p (Throw e) w
            end
        end
      else passthrough requestId p (Some c) w
  end.

(** [handleRequest] after [getResponse]. *)
Definition after_response (requestId : string) (p : Pending) (client : option Client) (response : Response)
  (w : Worker) : Worker :=
  match client with
  | Some c =>
      if is_active (c_id c) w then at_stage requestId p (SerializeClone c response) w
      else settle requestId p (Ok response) w
  | None => settle requestId p (Ok response) w
  end.

(** [handleRequest] once the clone's body is read. *)
Definition report_response (requestId : string) (p : Pending) (c : Client) (response : Response) (w : Worker)
  : Worker :=
  let serializedRequest := serializeRequest (pd_request p) in
  let transferrables :=
    match rp_body response with
    | Some b => [sr_body serializedRequest; b]
    | None => []
    end in
  settle requestId p (Ok response)
    (sendToClient c (RESPONSE (rp_mocked response) requestId serializedRequest response) transferrables w).

(** One more stage of [handleRequest], for the stages the worker drives itself. *)
Definition request_resume (requestId : string) (w : Worker) : Worker :=
  match jm_get requestId (w_requests w) with
  | Some p =>
      match pd_stage p with
      | ResolveGet => resolve_get requestId p w
      | ResolveMatchAll => at_stage requestId p (Resolved (find_main_client w)) w
      | Resolved client => getResponse requestId p client w
      | SerializeBody c => notify_client requestId p c w
      | Responded client r => after_response requestId p client r w
      | SerializeClone c r => report_response requestId p c r w
      | AwaitAnswer _ | AwaitNetwork _ | Settled _ => w
      end
  | None => w
  end.

(** The client answers on the message channel of [requestId]. *)
Definition request_answer (requestId : string) (a : Answer) (w : Worker) : Worker :=
  match jm_get requestId (w_requests w) with
  | Some p =>
      match pd_stage p with
      | AwaitAnswer c => answered requestId p c a w
      | _ => w
      end
  | None => w
  end.

(** The network answers [passthrough]'s fetch. *)
Definition request_network (requestId : string) (o : result Response) (w : Worker) : Worker :=
  match jm_get requestId (w_requests w) with
  | Some p =>
      match pd_stage p with
      | AwaitNetwork client =>
          match o with
          | Ok r => at_stage requestId p (Responded client r) w
          | Throw e => settle requestId p (Throw e) w
          end
      | _ => w
      end
  | None => w
  end.

(** ** Events *)

Inductive Event :=
| EInstall
| EActivate
| EClients (cs : list Client)                 (* windows open, close, hide *)
| EMessage (mid : nat) (source : option string) (data : string)
| EMessageResume (mid : nat)
| EFetch (requestId : string) (request : Request) (clientId : string) (now : Z)
| EResume (requestId : string)
| EAnswer (requestId : string) (a : Answer)
| ENetwork (requestId : string) (o : result Response).

Definition step (w : Worker) (e : Event) : Worker :=
  match e with
  | EInstall => on_install w
  | EActivate => on_activate w
  | EClients cs => set_clients cs w
  | EMessage mid source data => on_message mid source data w
  | EMessageResume mid => message_resume mid w
  | EFetch rid request clientId now => on_fetch rid request clientId now w
  | EResume rid => request_resume rid w
  | EAnswer rid a => request_answer rid a w
  | ENetwork rid o => request_network rid o w
  end.

Definition run (w : Worker) (es : list Event) : Worker := foldl step w es.
