(* ===== verification/ServiceWorkerThms.v ===== *)
(** * The mock service worker: what becomes of a request

    [Trans] lists the moves of one request; [step_cases] shows that an event
    of the worker starts a request, makes one such move, or touches none.
    From it: where a settled response comes from, that a mocked request never
    reaches the network, who is told about requests, and that a request whose
    client and network answer is settled. *)

From S2P Require Import Prelude JsNum JsText JsColl ServiceWorker.
From Stdlib Require Import Ascii.
From stdpp Require Import sorting.

(** ** The moves of a request *)

Inductive Trans (w : Worker) (rid : string) (p : Pending) : Event -> Stage -> list Action -> Prop :=
| T_get_done :
    pd_stage p = ResolveGet ->
    Trans w rid p (EResume rid) (Resolved (clients_get (pd_clientId p) w)) []
| T_get_more :
    pd_stage p = ResolveGet -> is_active (pd_clientId p) w = false ->
    Trans w rid p (EResume rid) ResolveMatchAll []
| T_match :
    pd_stage p = ResolveMatchAll ->
    Trans w rid p (EResume rid) (Resolved (find_main_client w)) []
| T_bypass client :
    pd_stage p = Resolved client ->
    (forall c, client = Some c -> is_active (c_id c) w = false) ->
    Trans w rid p (EResume rid) (AwaitNetwork client)
      [Fetch rid (pd_request p) (passthrough_headers (rq_headers (pd_request p)))]
| T_intercept c :
    pd_stage p = Resolved (Some c) -> is_active (c_id c) w = true ->
    Trans w rid p (EResume rid) (SerializeBody c) []
| T_notify c :
    pd_stage p = SerializeBody c ->
    Trans w rid p (EResume rid) (AwaitAnswer c)
      [Post (c_id c) (REQUEST rid (pd_interceptedAt p) (serializeRequest (pd_request p)))
         [sr_body (serializeRequest (pd_request p))]]
| T_mocked c d r :
    pd_stage p = AwaitAnswer c -> respondWithMock d = Ok r ->
    Trans w rid p (EAnswer rid (AData "MOCK_RESPONSE" (Some d))) (Responded (Some c) r) []
| T_passthrough c a :
    pd_stage p = AwaitAnswer c -> (forall data, a <> AData "MOCK_RESPONSE" data) ->
    Trans w rid p (EAnswer rid a) (AwaitNetwork (Some c))
      [Fetch rid (pd_request p) (passthrough_headers (rq_headers (pd_request p)))]
| T_rejected c a e :
    pd_stage p = AwaitAnswer c ->
    Trans w rid p (EAnswer rid a) (Settled (Throw e)) [Settle rid (Throw e)]
| T_network client r :
    pd_stage p = AwaitNetwork client ->
    Trans w rid p (ENetwork rid (Ok r)) (Responded client r) []
| T_network_error client e :
    pd_stage p = AwaitNetwork client ->
    Trans w rid p (ENetwork rid (Throw e)) (Settled (Throw e)) [Settle rid (Throw e)]
| T_report c r :
    pd_stage p = Responded (Some c) r -> is_active (c_id c) w = true ->
    Trans w rid p (EResume rid) (SerializeClone c r) []
| T_silent client r :
    pd_stage p = Responded client r ->
    Trans w rid p (EResume rid) (Settled (Ok r)) [Settle rid (Ok r)]
| T_reported c r tr :
    pd_stage p = SerializeClone c r ->
    Trans w rid p (EResume rid) (Settled (Ok r))
      [Settle rid (Ok r);
       Post (c_id c) (RESPONSE (rp_mocked r) rid (serializeRequest (pd_request p)) r) tr].

#[local] Hint Constructors Trans : core.

Definition with_stage (p : Pending) (s : Stage) : Pending :=
  mkPending (pd_request p) (pd_clientId p) (pd_interceptedAt p) s.

(** What an event of the worker does that is no move of a request. *)
Inductive Quiet (w w' : Worker) : Prop :=
| Q_same : activeClientIds w' = activeClientIds w -> w_log w' = w_log w -> Quiet w w'
| Q_life a : (a = SkipWaiting \/ a = Claim) -> activeClientIds w' = activeClientIds w ->
    w_log w' = a :: w_log w -> Quiet w w'
| Q_inform client m : (m = KEEPALIVE_RESPONSE \/ m = INTEGRITY_CHECK_RESPONSE PACKAGE_VERSION INTEGRITY_CHECKSUM) ->
    activeClientIds w' = activeClientIds w -> w_log w' = Post client m [] :: w_log w -> Quiet w w'
| Q_enable client cid : activeClientIds w' = js_add cid (activeClientIds w) ->
    (exists mid data, jm_get mid (w_messages w) = Some (MsgMatchAll client cid data)) ->
    w_log w' = Post (c_id client) (MOCKING_ENABLED (c_id client) (c_frameType client)) [] :: w_log w ->
    Quiet w w'
| Q_close cid : activeClientIds w' = js_del cid (activeClientIds w) ->
    (w_log w' = w_log w \/ w_log w' = Unregister :: w_log w) -> Quiet w w'.

#[local] Hint Constructors Quiet : core.

(** A message handler that reached its second [await] holds the client its message came from. *)
Definition messages_from (w w' : Worker) : Prop :=
  forall mid c cid data, jm_get mid (w_messages w') = Some (MsgMatchAll c cid data) ->
    c_id c = cid \/ jm_get mid (w_messages w) = Some (MsgMatchAll c cid data).

Lemma messages_from_refl w w' : w_messages w' = w_messages w -> messages_from w w'.
Proof. intros H mid c cid data. rewrite H. auto. Qed.

#[local] Hint Resolve messages_from_refl : core.

Inductive Step_case (w : Worker) (e : Event) (w' : Worker) : Prop :=
| SC_start rid request cid now :
    e = EFetch rid request cid now -> bypassed request w = false ->
    w' = set_requests (jm_set rid (mkPending request cid now ResolveGet) (w_requests w)) w ->
    Step_case w e w'
| SC_move rid p s acts :
    jm_get rid (w_requests w) = Some p -> Trans w rid p e s acts ->
    w_requests w' = jm_set rid (with_stage p s) (w_requests w) ->
    w_log w' = acts ++ w_log w -> activeClientIds w' = activeClientIds w ->
    w_messages w' = w_messages w -> Step_case w e w'
| SC_quiet :
    w_requests w' = w_requests w -> messages_from w w' -> Quiet w w' -> Step_case w e w'.

Lemma message_resume_quiet mid w : Quiet w (message_resume mid w).
Proof.
  unfold message_resume. destruct (jm_get mid (w_messages w)) as [[cid data | client cid data]|] eqn:Hm;
    [destruct (clients_get cid w); eauto | | eauto].
  unfold message_switch, client_closed.
  destruct (String.eqb data "KEEPALIVE_REQUEST"); [by apply (Q_inform _ _ (c_id client) KEEPALIVE_RESPONSE); auto|].
  destruct (String.eqb data "INTEGRITY_CHECK_REQUEST"); 
    [by apply (Q_inform _ _ (c_id client) (INTEGRITY_CHECK_RESPONSE PACKAGE_VERSION INTEGRITY_CHECKSUM)); auto|].
  destruct (String.eqb data "MOCK_ACTIVATE"); [by apply (Q_enable _ _ client cid); eauto|].
  destruct (String.eqb data "CLIENT_CLOSED"); [|by apply Q_same].
  case_match; apply (Q_close _ _ cid); auto.
Qed.

Lemma message_resume_requests mid w : w_requests (message_resume mid w) = w_requests w.
Proof.
  unfold message_resume, message_switch, client_closed.
  repeat case_match; reflexivity.
Qed.

Lemma clients_get_id cid w c : clients_get cid w = Some c -> c_id c = cid.
Proof. intros H. apply find_some in H as [_ H]. by apply String.eqb_eq in H. Qed.

Lemma message_resume_messages mid w : messages_from w (message_resume mid w).
Proof.
  intros mid' c cid data. unfold message_resume.
  destruct (jm_get mid (w_messages w)) as [[cid0 data0|c0 cid0 data0]|] eqn:E; [| |auto].
  - destruct (clients_get cid0 w) eqn:Hg; cbn [w_messages set_messages].
    + rewrite jm_get_set. case_decide; [|auto]. intros [= <- <- <-]. left. by eapply clients_get_id.
    + rewrite jm_get_delete. case_decide; [done|auto].
  - assert (Hw : forall w', w_messages (message_switch c0 cid0 data0 (clients_matchAll w) w') = w_messages w').
    { intros w'. unfold message_switch, client_closed. by repeat case_match. }
    rewrite Hw. cbn [w_messages set_messages]. rewrite jm_get_delete. case_decide; [done|auto].
Qed.

Ltac sw_move t := eapply SC_move; [eassumption | solve [t] | reflexivity | reflexivity | reflexivity | reflexivity].

Lemma request_resume_case rid w : Step_case w (EResume rid) (request_resume rid w).
Proof.
  unfold request_resume. destruct (jm_get rid (w_requests w)) as [p|] eqn:Hp; [|by apply SC_quiet; eauto].
  destruct (pd_stage p) as [| |client|c|c|client|client r|c r|o] eqn:Hs; try (by apply SC_quiet; eauto).
  - unfold resolve_get. destruct (is_active _ _) eqn:Ha; [sw_move ltac:(by apply T_get_done)|].
    destruct (clients_get _ _) eqn:Hg; [case_match|]; try (sw_move ltac:(by apply T_get_more)).
    rewrite <- Hg. sw_move ltac:(by apply T_get_done).
  - sw_move ltac:(by apply T_match).
  - unfold getResponse. destruct client as [c|]; [destruct (is_active (c_id c) w) eqn:Ha|]; simpl.
    + sw_move ltac:(by apply T_intercept).
    + sw_move ltac:(apply T_bypass; naive_solver).
    + sw_move ltac:(by apply T_bypass).
  - sw_move ltac:(by apply T_notify).
  - unfold after_response. destruct client as [c|]; [destruct (is_active (c_id c) w) eqn:Ha|];
      [sw_move ltac:(by apply T_report) | sw_move ltac:(by eapply T_silent) | sw_move ltac:(by eapply T_silent)].
  - sw_move ltac:(by apply T_reported).
Qed.

Lemma request_answer_case rid a w : Step_case w (EAnswer rid a) (request_answer rid a w).
Proof.
  unfold request_answer. destruct (jm_get rid (w_requests w)) as [p|] eqn:Hp; [|by apply SC_quiet; eauto].
  destruct (pd_stage p) as [| |client|c|c|client|client r|c r|o] eqn:Hs; try (by apply SC_quiet; eauto).
  unfold answered. destruct a as [| |e|type data]; [|sw_move ltac:(by apply T_passthrough)| |];
    try (sw_move ltac:(by eapply T_rejected)).
  destruct (String.eqb_spec type "MOCK_RESPONSE") as [->|Hne]; [|sw_move ltac:(by apply T_passthrough; [done|congruence])].
  destruct data as [d|]; [|sw_move ltac:(by eapply T_rejected)].
  destruct (respondWithMock d) eqn:Hr; [sw_move ltac:(by apply T_mocked) | sw_move ltac:(by eapply T_rejected)].
Qed.

Lemma request_network_case rid o w : Step_case w (ENetwork rid o) (request_network rid o w).
Proof.
  unfold request_network. destruct (jm_get rid (w_requests w)) as [p|] eqn:Hp; [|by apply SC_quiet; eauto].
  destruct (pd_stage p) as [| |client|c|c|client|client r|c r|o'] eqn:Hs; try (by apply SC_quiet; eauto).
  destruct o; [sw_move ltac:(by apply T_network) | sw_move ltac:(by eapply T_network_error)].
Qed.

Lemma on_message_case mid src data w e : Step_case w e (on_message mid src data w).
Proof.
  unfold on_message. destruct src as [cid|]; [case_match|]; apply SC_quiet; auto.
  intros m c cid' d. cbn [w_messages set_messages]. rewrite jm_get_set. case_decide; [done|auto].
Qed.

Lemma step_cases w e : Step_case w e (step w e).
Proof.
  destruct e as [| |cs|mid src data|mid|rid rq cid now|rid|rid a|rid o]; simpl.
  - apply SC_quiet; [done|auto|]. apply (Q_life _ _ SkipWaiting); auto.
  - apply SC_quiet; [done|auto|]. apply (Q_life _ _ Claim); auto.
  - apply SC_quiet; [done|auto|]. by apply Q_same.
  - apply on_message_case.
  - apply SC_quiet; [apply message_resume_requests | apply message_resume_messages | apply message_resume_quiet].
  - unfold on_fetch. destruct (bypassed rq w) eqn:Hb; [apply SC_quiet; auto|]. by eapply SC_start.
  - apply request_resume_case.
  - apply request_answer_case.
  - apply request_network_case.
Qed.

(** ** Who is told about requests *)

Definition enabled (log : list Action) (cid : string) : Prop :=
  exists frame, Post cid (MOCKING_ENABLED cid frame) [] ∈ log.

(** A request or a response is only posted to a client that was told, before,
    that mocking is enabled. *)
Fixpoint told_in_order (log : list Action) : Prop :=
  match log with
  | [] => True
  | a :: older =>
      match a with
      | Post cid (REQUEST _ _ _) _ | Post cid (RESPONSE _ _ _ _) _ => enabled older cid
      | _ => True
      end /\ told_in_order older
  end.

Definition stage_client (s : Stage) : option Client :=
  match s with
  | SerializeBody c | AwaitAnswer c | SerializeClone c _ => Some c
  | _ => None
  end.

Record Told (w : Worker) : Prop := {
  told_messages : forall mid c cid data,
    jm_get mid (w_messages w) = Some (MsgMatchAll c cid data) -> c_id c = cid;
  told_active : forall cid, cid ∈ activeClientIds w -> enabled (w_log w) cid;
  told_stages : forall rid p c,
    jm_get rid (w_requests w) = Some p -> stage_client (pd_stage p) = Some c -> enabled (w_log w) (c_id c);
  told_log : told_in_order (w_log w)
}.

Lemma enabled_app acts log cid : enabled log cid -> enabled (acts ++ log) cid.
Proof. intros [f H]. exists f. apply elem_of_app. by right. Qed.

Lemma enabled_cons a log cid : enabled log cid -> enabled (a :: log) cid.
Proof. apply (enabled_app [a]). Qed.

#[local] Hint Resolve enabled_app enabled_cons : core.

Lemma is_active_elem cid w : is_active cid w = true <-> cid ∈ activeClientIds w.
Proof. unfold is_active, js_has. by rewrite bool_decide_eq_true. Qed.

Lemma Trans_client w rid p e s acts c :
  Trans w rid p e s acts -> stage_client s = Some c ->
  stage_client (pd_stage p) = Some c \/ c_id c ∈ activeClientIds w.
Proof.
  intros [] Hs; simplify_eq/=; try (by left; match goal with H : pd_stage p = _ |- _ => rewrite H end);
    right; by apply is_active_elem.
Qed.

Lemma Trans_told w rid p e s acts log :
  Trans w rid p e s acts ->
  (forall c, stage_client (pd_stage p) = Some c -> enabled log (c_id c)) ->
  told_in_order log -> told_in_order (acts ++ log).
Proof.
  intros [] He Hl; simpl; auto;
    match goal with H : pd_stage p = _ |- _ => rewrite H in He end; split_and!; auto.
Qed.

Lemma step_told w e : Told w -> Told (step w e).
Proof.
  intros [Hm Ha Hs Hl].
  destruct (step_cases w e) as [rid rq cid now -> Hb Hw | rid p s acts Hp HT Hr Hlog Hac Hms | Hr Hms HQ].
  - rewrite Hw. split; cbn; auto. intros rid' p' c. rewrite jm_get_set.
    case_decide; [by intros [= <-]|apply Hs].
  - split; [rewrite Hms; apply Hm | | | ].
    + intros cid. rewrite Hac, Hlog. auto.
    + intros rid' p' c. rewrite Hr, Hlog, jm_get_set. case_decide; subst; [intros [= <-]|eauto].
      intros Hc. destruct (Trans_client _ _ _ _ _ _ _ HT Hc); eauto.
    + rewrite Hlog. eapply Trans_told; eauto.
  - assert (Hm' : forall mid c cid data,
      jm_get mid (w_messages (step w e)) = Some (MsgMatchAll c cid data) -> c_id c = cid).
    { intros mid c cid data H. destruct (Hms _ _ _ _ H); eauto. }
    split; [exact Hm' | | rewrite Hr | ]; clear Hm'.
    all: destruct HQ as [Hac Hlog | a Hw Hac Hlog | cl m Hw Hac Hlog | cl cid Hac [mid [data Hmsg]] Hlog
                        | cid Hac [Hlog|Hlog]]; rewrite ?Hac, Hlog; simpl; eauto.
    + intros cid'. rewrite elem_of_js_add. intros [->|?]; [|auto].
      rewrite (Hm _ _ _ _ Hmsg). eexists. by left.
    + intros cid'. rewrite elem_of_js_del. naive_solver.
    + intros cid'. rewrite elem_of_js_del. naive_solver.
    + by destruct Hw as [-> | ->].
    + by destruct Hw as [-> | ->].
Qed.

Lemma run_app w es1 es2 : run w (es1 ++ es2) = run (run w es1) es2.
Proof. apply foldl_app. Qed.

Lemma run_told es : Told (run worker_start es).
Proof.
  induction es as [|e es IH] using rev_ind; [by split; simpl; try set_solver|].
  rewrite run_app. by apply step_told.
Qed.

(** No page hears of a request before it was told that mocking is on:
    in every schedule of the worker's events, a [REQUEST] or [RESPONSE]
    message posted to a client comes after a [MOCKING_ENABLED] message to
    that client. *)
Theorem sw_request_after_enable es newer older cid m transferrables :
  w_log (run worker_start es) = newer ++ Post cid m transferrables :: older ->
  match m with
  | REQUEST _ _ _ | RESPONSE _ _ _ _ => exists frame, Post cid (MOCKING_ENABLED cid frame) [] ∈ older
  | _ => True
  end.
Proof.
  intros Hlog. pose proof (told_log _ (run_told es)) as Ht. rewrite Hlog in Ht. clear Hlog.
  induction newer as [|a newer IH]; [|apply IH, Ht]. destruct Ht as [Ht _]. by destruct m.
Qed.

(** ** Where a response comes from *)

Definition is_fetch_of (rid : string) (a : Action) : bool :=
  match a with Fetch rid' _ _ => String.eqb rid rid' | _ => false end.

(** How often [rid] went to the network. *)
Definition fetches (rid : string) (log : list Action) : nat := length (List.filter (is_fetch_of rid) log).

Lemma fetches_app rid l1 l2 : fetches rid (l1 ++ l2) = (fetches rid l1 + fetches rid l2)%nat.
Proof. unfold fetches. by rewrite List.filter_app, length_app. Qed.

(** The page's mock, and then no fetch at all, or the network's answer to the one fetch. *)
Definition origin (es : list Event) (rid : string) (n : nat) (r : Response) : Prop :=
  (exists d, EAnswer rid (AData "MOCK_RESPONSE" (Some d)) ∈ es /\ respondWithMock d = Ok r /\ n = 0%nat)
  \/ (ENetwork rid (Ok r) ∈ es /\ n = 1%nat).

Definition stage_ok (es : list Event) (rid : string) (n : nat) (s : Stage) : Prop :=
  match s with
  | ResolveGet | ResolveMatchAll | Resolved _ | SerializeBody _ | AwaitAnswer _ => n = 0%nat
  | AwaitNetwork _ => n = 1%nat
  | Responded _ r | SerializeClone _ r | Settled (Ok r) => origin es rid n r
  | Settled (Throw _) => (n <= 1)%nat
  end.

(** The identifiers of the requests the worker saw, [crypto.randomUUID]. *)
Definition fetched_ids (es : list Event) : list string :=
  omap (fun e => match e with EFetch rid _ _ _ => Some rid | _ => None end) es.

Record Life (es : list Event) (w : Worker) : Prop := {
  life_seen : forall rid, jm_get rid (w_requests w) <> None -> rid ∈ fetched_ids es;
  life_none : forall rid, jm_get rid (w_requests w) = None -> fetches rid (w_log w) = 0%nat;
  life_stage : forall rid p, jm_get rid (w_requests w) = Some p ->
    stage_ok es rid (fetches rid (w_log w)) (pd_stage p);
  life_settled : forall rid o, Settle rid o ∈ w_log w ->
    exists p, jm_get rid (w_requests w) = Some p /\ pd_stage p = Settled o
}.

Lemma origin_mono es e rid n r : origin es rid n r -> origin (es ++ [e]) rid n r.
Proof. unfold origin. setoid_rewrite elem_of_app. naive_solver. Qed.

Lemma stage_ok_mono es e rid n s : stage_ok es rid n s -> stage_ok (es ++ [e]) rid n s.
Proof. destruct s as [| | | | | | | |[]]; simpl; auto using origin_mono. Qed.

Lemma fetched_ids_snoc es e rid : rid ∈ fetched_ids es -> rid ∈ fetched_ids (es ++ [e]).
Proof. unfold fetched_ids. rewrite omap_app, elem_of_app. auto. Qed.

#[local] Hint Resolve stage_ok_mono fetched_ids_snoc origin_mono : core.

(** A move keeps the account of its own request and does not touch another's. *)
Lemma Trans_life w rid p e s acts es n :
  Trans w rid p e s acts -> stage_ok es rid n (pd_stage p) ->
  stage_ok (es ++ [e]) rid (fetches rid acts + n) s.
Proof.
  intros [] Hok; match goal with H : pd_stage p = _ |- _ => rewrite H in Hok end;
    unfold fetches; simpl in *; rewrite ?string_eqb_refl; simpl; rewrite ?Hok; auto with lia.
  - left. exists d. rewrite elem_of_app. set_solver.
  - right. rewrite elem_of_app. set_solver.
Qed.

Lemma Trans_others w rid p e s acts rid' :
  Trans w rid p e s acts -> rid' <> rid -> fetches rid' acts = 0%nat.
Proof. intros [] Hne; unfold fetches; simpl; rewrite ?(string_eqb_ne _ _ Hne); reflexivity. Qed.

Lemma Trans_settle w rid p e s acts rid' o :
  Trans w rid p e s acts -> Settle rid' o ∈ acts -> rid' = rid /\ s = Settled o.
Proof. intros HT. destruct HT; rewrite ?elem_of_cons, ?elem_of_nil; naive_solver. Qed.

Lemma Trans_open w rid p e s acts : Trans w rid p e s acts -> forall o, pd_stage p <> Settled o.
Proof. intros [] o; congruence. Qed.

Lemma Quiet_log w w' : Quiet w w' ->
  (forall rid, fetches rid (w_log w') = fetches rid (w_log w)) /\
  (forall rid o, Settle rid o ∈ w_log w' -> Settle rid o ∈ w_log w).
Proof.
  intros [Ha Hl | a Hw Ha Hl | cl m Hw Ha Hl | cl cid Ha _ Hl | cid Ha [Hl|Hl]]; rewrite Hl;
    try (by split); split; intros; try reflexivity; try (destruct Hw as [-> | ->]; try reflexivity); set_solver.
Qed.

Lemma life_start es w rid rq cid now :
  Life es w -> rid ∉ fetched_ids es ->
  Life (es ++ [EFetch rid rq cid now])
    (set_requests (jm_set rid (mkPending rq cid now ResolveGet) (w_requests w)) w).
Proof.
  intros [Hseen Hnone Hst Hset] Hfresh.
  assert (Hn : jm_get rid (w_requests w) = None).
  { destruct (jm_get rid (w_requests w)) eqn:E; [|done]. destruct Hfresh. apply Hseen. by rewrite E. }
  split; cbn [w_requests w_log set_requests]; intros rid'; rewrite ?jm_get_set.
  - case_decide; subst; [|auto]. intros _. unfold fetched_ids. rewrite omap_app. set_solver.
  - case_decide; [done|auto].
  - intros p'. case_decide; subst; [intros [= <-]|eauto]. by apply Hnone.
  - intros o Ho. destruct (Hset _ _ Ho) as [p' [Hp' Hs']]. case_decide; simplify_eq. eauto.
Qed.

Lemma life_move es w e rid p s acts w' :
  Life es w -> jm_get rid (w_requests w) = Some p -> Trans w rid p e s acts ->
  w_requests w' = jm_set rid (with_stage p s) (w_requests w) -> w_log w' = acts ++ w_log w ->
  Life (es ++ [e]) w'.
Proof.
  intros [Hseen Hnone Hst Hset] Hp HT Hr Hlog.
  split; intros rid'; rewrite ?Hr, ?Hlog, ?jm_get_set.
  - case_decide; subst; [|auto]. intros _. apply fetched_ids_snoc, Hseen. by rewrite Hp.
  - case_decide; [done|]. intros Hn. rewrite fetches_app, (Trans_others _ _ _ _ _ _ _ HT) by done. by apply Hnone.
  - intros p'. rewrite fetches_app. case_decide; subst.
    + intros [= <-]. eapply Trans_life; eauto.
    + intros Hp'. rewrite (Trans_others _ _ _ _ _ _ _ HT) by done. eauto.
  - intros o. rewrite elem_of_app. intros [Ho|Ho].
    + destruct (Trans_settle _ _ _ _ _ _ _ _ HT Ho) as [-> ->]. rewrite decide_True by done. eexists. by split.
    + destruct (Hset _ _ Ho) as [p' [Hp' Hs']]. case_decide; subst; [|eauto].
      simplify_eq. by destruct (Trans_open _ _ _ _ _ _ HT o).
Qed.

Lemma run_life es : NoDup (fetched_ids es) -> Life es (run worker_start es).
Proof.
  induction es as [|e es IH] using rev_ind; intros Hnd; [by split; simpl; try set_solver|].
  rewrite run_app. unfold fetched_ids in Hnd. rewrite omap_app in Hnd.
  apply NoDup_app in Hnd as (Hnd & Hdisj & _). specialize (IH Hnd).
  cbn [run foldl]. set (w := run worker_start es) in *.
  destruct (step_cases w e) as [rid rq cid now -> Hb -> | rid p s acts Hp HT Hr Hlog _ _ | Hr _ HQ].
  - apply life_start; [done|]. intros Hin. apply (Hdisj _ Hin). set_solver.
  - eapply life_move; eauto.
  - destruct IH as [Hseen Hnone Hst Hset]. destruct (Quiet_log _ _ HQ) as [Hf Hse].
    split; rewrite ?Hr; intros; rewrite ?Hf; eauto.
Qed.

(** C15: A response the page sees is the mock of its client, and then the
    request never reached the network, or the network's answer to the only
    fetch made for it.  This holds for every schedule of pages enabling, closing and answering, when the
    request ids are distinct. *)
Theorem sw_response_origin es rid r :
  NoDup (fetched_ids es) -> Settle rid (Ok r) ∈ w_log (run worker_start es) ->
  ((exists d, EAnswer rid (AData "MOCK_RESPONSE" (Some d)) ∈ es /\ respondWithMock d = Ok r)
     /\ fetches rid (w_log (run worker_start es)) = 0%nat)
  \/ (ENetwork rid (Ok r) ∈ es /\ fetches rid (w_log (run worker_start es)) = 1%nat).
Proof.
  intros Hnd Hin. destruct (run_life es Hnd) as [_ _ Hst Hset].
  destruct (Hset _ _ Hin) as [p [Hp Hs]]. specialize (Hst _ _ Hp). rewrite Hs in Hst.
  destruct Hst as [(d & Ha & Hr & Hn)|[Hn Hf]]; [left|right]; eauto.
Qed.

(** ** A request is settled *)

Definition rank (s : Stage) : nat :=
  match s with
  | ResolveGet => 8 | ResolveMatchAll => 7 | Resolved _ => 6 | SerializeBody _ => 5 | AwaitAnswer _ => 4
  | AwaitNetwork _ => 3 | Responded _ _ => 2 | SerializeClone _ _ => 1 | Settled _ => 0
  end%nat.

(** The rank of [rid], which an unknown request does not have. *)
Definition rank_of (rid : string) (w : Worker) : option nat :=
  rank ∘ pd_stage <$> jm_get rid (w_requests w).

(** The event a stage waits for. *)
Definition awaits (rid : string) (s : Stage) (e : Event) : Prop :=
  match s, e with
  | AwaitAnswer _, EAnswer rid' _ => rid' = rid
  | AwaitNetwork _, ENetwork rid' _ => rid' = rid
  | (ResolveGet | ResolveMatchAll | Resolved _ | SerializeBody _ | Responded _ _ | SerializeClone _ _),
    EResume rid' => rid' = rid
  | _, _ => False
  end.

Lemma Trans_rank w rid p e s acts : Trans w rid p e s acts -> (rank s < rank (pd_stage p))%nat.
Proof. intros []; match goal with H : pd_stage p = _ |- _ => rewrite H end; simpl; lia. Qed.

Definition restarts (rid : string) (e : Event) : bool :=
  match e with EFetch rid' _ _ _ => String.eqb rid' rid | _ => false end.

(** No event but a second request under the same id moves a request back. *)
Lemma step_rank w e rid p :
  jm_get rid (w_requests w) = Some p -> restarts rid e = false ->
  exists p', jm_get rid (w_requests (step w e)) = Some p' /\
    (p' = p \/ (rank (pd_stage p') < rank (pd_stage p))%nat).
Proof.
  intros Hp Hr.
  destruct (step_cases w e) as [rid' rq cid now -> Hb -> | rid' p' s acts Hp' HT Hreq _ _ _ | Hreq _ _].
  - simpl in Hr. apply String.eqb_neq in Hr. exists p. cbn [w_requests set_requests].
    rewrite jm_get_set. rewrite decide_False by congruence. auto.
  - rewrite Hreq, jm_get_set. case_decide; subst; [|eauto].
    simplify_eq. eexists. split; [done|]. right. by eapply Trans_rank.
  - rewrite Hreq. eauto.
Qed.

(** The event a request waits for moves it. *)
Lemma step_awaited w e rid p :
  jm_get rid (w_requests w) = Some p -> awaits rid (pd_stage p) e ->
  exists p', jm_get rid (w_requests (step w e)) = Some p' /\ (rank (pd_stage p') < rank (pd_stage p))%nat.
Proof.
  intros Hp Ha.
  assert (Hgoal : forall s w', w_requests w' = w_requests (at_stage rid p s w) -> (rank s < rank (pd_stage p))%nat ->
    exists p', jm_get rid (w_requests w') = Some p' /\ (rank (pd_stage p') < rank (pd_stage p))%nat).
  { intros s w' Hw Hlt. rewrite Hw. cbn [at_stage set_requests w_requests].
    eexists. rewrite jm_get_set, decide_True by done. by split. }
  destruct (pd_stage p) as [| |client|c|c|client|client r|c r|o] eqn:Hs, e; simpl in Ha; try done; subst;
    cbn [step]; unfold request_resume, request_answer, request_network, resolve_get, getResponse, answered,
      after_response; rewrite Hp, Hs; repeat case_match; (eapply Hgoal; [reflexivity | simpl; lia]).
Qed.

Lemma run_rank es : forall w rid p,
  jm_get rid (w_requests w) = Some p -> forallb (fun e => negb (restarts rid e)) es = true ->
  exists p', jm_get rid (w_requests (run w es)) = Some p' /\
    (p' = p \/ (rank (pd_stage p') < rank (pd_stage p))%nat).
Proof.
  induction es as [|e es IH]; intros w rid p Hp Hr; [eauto|]. simpl in Hr. bool_to_prop.
  destruct (step_rank w e rid p Hp) as [p1 [Hp1 H1]]; [done|].
  destruct (IH (step w e) rid p1 Hp1) as [p2 [Hp2 H2]]; [done|].
  exists p2. split; [exact Hp2|]. naive_solver lia.
Qed.

(** One round of answers: whichever event the request waits for is among them. *)
Definition round (rid : string) (ao : Answer * result Response) : list Event :=
  [EResume rid; EAnswer rid ao.1; ENetwork rid ao.2].

Lemma round_awaits rid ao p : rank (pd_stage p) <> 0%nat -> exists e, e ∈ round rid ao /\ awaits rid (pd_stage p) e.
Proof.
  intros Hr. destruct (pd_stage p); simpl in *; try done;
    first [ by exists (EResume rid); split; [set_solver|] | by exists (EAnswer rid ao.1); split; [set_solver|]
          | by exists (ENetwork rid ao.2); split; [set_solver|] ].
Qed.

Lemma run_round es w rid p ao :
  jm_get rid (w_requests w) = Some p -> forallb (fun e => negb (restarts rid e)) es = true ->
  round rid ao `sublist_of` es ->
  exists p', jm_get rid (w_requests (run w es)) = Some p' /\
    (rank (pd_stage p') <= rank (pd_stage p) - 1)%nat.
Proof.
  intros Hp Hr Hsub. destruct (decide (rank (pd_stage p) = 0%nat)) as [Hz|Hnz].
  { destruct (run_rank es w rid p Hp Hr) as [p' [Hp' H]]. exists p'. split; [done|]. naive_solver lia. }
  destruct (round_awaits rid ao p Hnz) as [e [He Haw]].
  assert (Hin : e ∈ es) by (by eapply sublist_subseteq).
  apply list_elem_of_split in Hin as (es1 & es2 & ->).
  rewrite forallb_app in Hr. simpl in Hr. apply andb_true_iff in Hr as [Hr1 Hr2]. apply andb_true_iff in Hr2 as [Hr2 Hr3].
  apply negb_true_iff in Hr2. rewrite run_app. cbn [run foldl].
  destruct (run_rank es1 w rid p Hp) as [p1 [Hp1 H1]]; [done|].
  assert (Hstep : exists p2, jm_get rid (w_requests (step (run w es1) e)) = Some p2 /\
    (rank (pd_stage p2) < rank (pd_stage p))%nat).
  { destruct H1 as [->|H1]; [by apply step_awaited|].
    destruct (step_rank _ e rid p1 Hp1) as [p2 [Hp2 H2]]; [done|]. exists p2. split; [done|]. naive_solver lia. }
  destruct Hstep as [p2 [Hp2 Hlt]].
  destruct (run_rank es2 _ rid p2 Hp2) as [p3 [Hp3 H3]]; [done|]. exists p3. split; [exact Hp3|]. naive_solver lia.
Qed.

Lemma run_rounds rid rounds : forall es w p,
  jm_get rid (w_requests w) = Some p -> forallb (fun e => negb (restarts rid e)) es = true ->
  concat (map (round rid) rounds) `sublist_of` es ->
  exists p', jm_get rid (w_requests (run w es)) = Some p' /\
    (rank (pd_stage p') <= rank (pd_stage p) - length rounds)%nat.
Proof.
  induction rounds as [|ao rounds IH]; intros es w p Hp Hr Hsub.
  - destruct (run_rank es w rid p Hp Hr) as [p' [Hp' H]]. exists p'. split; [done|]. simpl. naive_solver lia.
  - cbn [map concat] in Hsub. apply sublist_app_l in Hsub as (es1 & es2 & -> & H1 & H2).
    rewrite forallb_app in Hr. apply andb_true_iff in Hr as [Hr1 Hr2]. rewrite run_app.
    destruct (run_round es1 w rid p ao Hp) as [p1 [Hp1 Hle]]; [done..|].
    destruct (IH es2 _ p1 Hp1) as [p2 [Hp2 Hle2]]; [done..|]. exists p2. split; [done|]. simpl. lia.
Qed.

(** C29: Eight rounds settle any request: whatever else happens to the
    worker in between (pages enabling, closing and vanishing, other
    requests), a schedule that eight times lets the handler run on, lets its
    client answer and lets the network answer ends with the request settled. *)
Theorem sw_settles es rid rounds w p :
  jm_get rid (w_requests w) = Some p -> forallb (fun e => negb (restarts rid e)) es = true ->
  length rounds = 8%nat -> concat (map (round rid) rounds) `sublist_of` es ->
  exists p' o, jm_get rid (w_requests (run w es)) = Some p' /\ pd_stage p' = Settled o.
Proof.
  intros Hp Hr Hlen Hsub. destruct (run_rounds rid rounds es w p Hp Hr Hsub) as [p' [Hp' Hle]].
  exists p'. assert (H0 : rank (pd_stage p') = 0%nat) by (destruct (pd_stage p); simpl in Hle; lia).
  destruct (pd_stage p'); simpl in H0; try lia. eauto.
Qed.

(** ** The headers of a passed-through request *)

Lemma accept_values_ok a : Forall (fun w => lacks "," w = true /\ str_trim w = w) (accept_values a).
Proof.
  unfold accept_values. apply Forall_fmap. eapply Forall_impl; [apply (split_char_lacks ",")|].
  intros w Hw. split; [by apply lacks_trim | apply str_trim_idem].
Qed.

Lemma filter_ok {A} (P : A -> Prop) f l : Forall P l -> Forall P (List.filter f l).
Proof. induction 1; simpl; [constructor|]. case_match; by try constructor. Qed.

(** A request that is passed through goes to the network with the header
    values it came with, less the marker: the [accept] values the server
    parses are those of the page without [msw/passthrough], in order, the
    header is gone when nothing else was in it, and no other header changes. *)
Theorem sw_passthrough_headers h a :
  jm_get "accept" h = Some a -> a <> "" ->
  (forall name, name <> "accept" -> jm_get name (passthrough_headers h) = jm_get name h) /\
  match List.filter not_passthrough (accept_values a) with
  | [] => jm_get "accept" (passthrough_headers h) = None
  | vs => exists a', jm_get "accept" (passthrough_headers h) = Some a' /\ accept_values a' = vs
  end.
Proof.
  intros Ha Hne. unfold passthrough_headers. rewrite Ha.
  assert (Ht : str_truthy a = true) by (unfold str_truthy; by rewrite string_eqb_ne).
  rewrite Ht. pose proof (filter_ok _ not_passthrough _ (accept_values_ok a)) as Hok.
  destruct (List.filter not_passthrough (accept_values a)) as [|v vs]; cbn [length Nat.ltb Nat.leb].
  - split; [intros name Hn; by rewrite jm_get_delete, decide_False | by rewrite jm_get_delete, decide_True].
  - split; [intros name Hn; by rewrite jm_get_set, decide_False|].
    eexists. rewrite jm_get_set, decide_True by done. split; [done|].
    by apply (split_trim_join ",").
Qed.

(** ** Witnesses *)

Definition page (id : string) : Client := mkClient id "window" "top-level" "visible".

Definition get_markets : Request :=
  mkRequest "https://edge.perplex.local/v1/markets" "cors" "GET" [("accept", "application/json, msw/passthrough")]
    "default" "same-origin" "" "" "follow" "about:client" "" None false.

Definition mock_ok : MockData := mkMockData 200 "OK" [("content-type", "application/json")] (Some "{}").
Definition edge_ok : Response := mkResponse "cors" 200 "OK" [] (Some "{}") false.

(** Page [p] loads and enables mocking. *)
Definition enable (mid : nat) (p : string) : list Event :=
  [EMessage mid (Some p) "MOCK_ACTIVATE"; EMessageResume mid; EMessageResume mid].

Definition mock_answer : Answer := AData "MOCK_RESPONSE" (Some mock_ok).

Definition mocked_run : list Event :=
  [EInstall; EActivate; EClients [page "p1"]] ++ enable 0 "p1" ++
  EFetch "r1" get_markets "p1" 0 :: concat (replicate 8 (round "r1" (mock_answer, Ok edge_ok))).

Lemma sw_request_after_enable_witness :
  exists older : list Action, Post "p1" (MOCKING_ENABLED "p1" "top-level") [] ∈ older /\
    exists frame, Post "p1" (MOCKING_ENABLED "p1" frame) [] ∈ older.
Proof.
  pose (log := w_log (run worker_start mocked_run)).
  assert (Hlog : log = firstn 2 log ++ Post "p1" (REQUEST "r1" 0 (serializeRequest get_markets)) [""] :: skipn 3 log)
    by (vm_compute; reflexivity).
  exists (skipn 3 log). split; [vm_compute; repeat constructor|].
  exact (sw_request_after_enable mocked_run _ _ _ _ _ Hlog).
Defined.

Lemma sw_response_origin_witness :
  ((exists d, EAnswer "r1" (AData "MOCK_RESPONSE" (Some d)) ∈ mocked_run
      /\ respondWithMock d = Ok (mkResponse "default" 200 "OK" [("content-type", "application/json")] (Some "{}") true))
     /\ fetches "r1" (w_log (run worker_start mocked_run)) = 0%nat)
  \/ (ENetwork "r1" (Ok (mkResponse "default" 200 "OK" [("content-type", "application/json")] (Some "{}") true)) ∈ mocked_run
      /\ fetches "r1" (w_log (run worker_start mocked_run)) = 1%nat).
Proof.
  apply sw_response_origin.
  - apply (bool_decide_unpack _). vm_compute. exact I.
  - vm_compute. constructor.
Defined.

Lemma sw_settles_witness :
  exists p' o, jm_get "r1" (w_requests (run (run worker_start (firstn 7 mocked_run)) (skipn 7 mocked_run))) = Some p'
    /\ pd_stage p' = Settled o.
Proof.
  apply (sw_settles (skipn 7 mocked_run) "r1" (replicate 8 (mock_answer, Ok edge_ok)) _
           (mkPending get_markets "p1" 0 ResolveGet)).
  - vm_compute. reflexivity.
  - vm_compute. reflexivity.
  - reflexivity.
  - vm_compute. reflexivity.
Defined.

Lemma sw_passthrough_headers_witness :
  (forall name, name <> "accept" ->
     jm_get name (passthrough_headers (rq_headers get_markets)) = jm_get name (rq_headers get_markets)) /\
  exists a', jm_get "accept" (passthrough_headers (rq_headers get_markets)) = Some a'
    /\ accept_values a' = ["application/json"].
Proof. exact (sw_passthrough_headers (rq_headers get_markets) _ eq_refl ltac:(discriminate)). Defined.

(** A page that is gone before its [CLIENT_CLOSED] is handled stays in the
    set of active clients: the handler returns at [clients.get]. *)
Lemma closed_page_gone_stays_active mid cid w :
  jm_get mid (w_messages w) = Some (MsgGet cid "CLIENT_CLOSED") -> clients_get cid w = None ->
  activeClientIds (message_resume mid w) = activeClientIds w /\ jm_get mid (w_messages (message_resume mid w)) = None.
Proof.
  intros Hm Hc. unfold message_resume. rewrite Hm, Hc. cbn [activeClientIds w_messages set_messages].
  by rewrite jm_get_delete, decide_True.
Qed.

(** So a worker can unregister itself and go on handling requests: the
    guard on the number of active clients does not prevent it. *)
Theorem sw_unregistered_worker_handles :
  let close mid p := [EMessage mid (Some p) "CLIENT_CLOSED"; EMessageResume mid; EMessageResume mid] in
  let w := run worker_start
    ([EClients [page "p1"; page "p2"]] ++ enable 0 "p1" ++ enable 1 "p2"
     ++ EClients [page "p2"] :: close 2%nat "p1" ++ close 3%nat "p2") in
  Unregister ∈ w_log w /\ activeClientIds w = ["p1"] /\ bypassed get_markets w = false.
Proof. cbv zeta. split; [vm_compute; constructor|]. by vm_compute. Qed.
