(* ===== verification/EdgeDecimal.v ===== *)
(** * The edge server's decimals ([rust_decimal])

    The edge server (crates/perplex-edge) computes with [rust_decimal], a
    crate outside the repository: it is a parameter of the model, the class
    [Decimals].  A [Decimal] has at most 28 places, so its value is an
    integer number of units of 10^-28; [units] is that number, and the
    crate's comparisons compare it.

    [DecimalLaws] states what the server relies on: addition, subtraction and
    negation are exact, [normalize().to_string()] parses back to the same
    value, and multiplication, division and truncation respect signs.  The
    crate keeps 96 bits of digits and a scale.  A sum whose integer part needs
    more than 96 bits overflows and panics; a sum whose digits need more is
    rounded to fewer places without a panic (two numbers of very different
    size, one of them with many places).  Both are outside the model: a theorem
    about the edge server is about runs in which every sum and difference fits
    96 bits of digits, so that the crate's result is exact, as [units_add] and
    [units_sub] say.  At 10^-6 steps (the USDC amounts) that is every sum below
    7.9 * 10^22.

    [fixed] is an instance: fixed-point numbers with 28 places, rounded half
    to even, printed and parsed in decimal. *)

From S2P Require Import Prelude JsNum JsText.
From Stdlib Require Import Ascii.

Class Decimals := {
  Decimal : Type;
  units : Decimal -> Z;
  d_add : Decimal -> Decimal -> Decimal;
  d_sub : Decimal -> Decimal -> Decimal;
  d_mul : Decimal -> Decimal -> Decimal;
  d_div : Decimal -> Decimal -> Decimal;
  d_neg : Decimal -> Decimal;
  d_trunc : Decimal -> Decimal;
  d_of_Z : Z -> Decimal;                 (* Decimal::from *)
  d_parse : string -> option Decimal;    (* str::parse *)
  d_show : Decimal -> string             (* normalize().to_string() *)
}.

Class DecimalLaws `{Decimals} : Prop := {
  units_add a b : units (d_add a b) = units a + units b;
  units_sub a b : units (d_sub a b) = units a - units b;
  units_neg a : units (d_neg a) = - units a;
  units_of_Z z : units (d_of_Z z) = z * 10 ^ 28;
  parse_show a : exists b, d_parse (d_show a) = Some b /\ units b = units a;
  mul_nonneg a b : 0 <= units a -> 0 <= units b -> 0 <= units (d_mul a b);
  mul_nonpos a b : units a <= 0 -> 0 <= units b -> units (d_mul a b) <= 0;
  mul_neg_r a b : 0 <= units a -> units b <= 0 -> units (d_mul a b) <= 0;
  div_nonneg a b : 0 <= units a -> 0 < units b -> 0 <= units (d_div a b);
  div_nonpos a b : units a <= 0 -> 0 < units b -> units (d_div a b) <= 0;
  trunc_nonneg a : 0 <= units a -> 0 <= units (d_trunc a);
  trunc_nonpos a : units a <= 0 -> units (d_trunc a) <= 0
}.

Declare Scope dec_scope.
Delimit Scope dec_scope with dec.
Infix "+" := d_add : dec_scope.
Infix "-" := d_sub : dec_scope.
Infix "*" := d_mul : dec_scope.
Infix "/" := d_div : dec_scope.

Section Ops.
Context `{D : Decimals}.

Definition d_zero : Decimal := d_of_Z 0.
Definition d_is_zero (a : Decimal) : bool := units a =? 0.
Definition d_lt (a b : Decimal) : bool := units a <? units b.
Definition d_eq (a b : Decimal) : bool := units a =? units b.
Definition d_min (a b : Decimal) : Decimal := if units b <? units a then b else a.
(** [parse().unwrap_or_default()]. *)
Definition d_parse_or_zero (s : string) : Decimal := default d_zero (d_parse s).

Definition d_1e18 : Decimal := d_of_Z (10 ^ 18).
Definition d_1e6 : Decimal := d_of_Z (10 ^ 6).
Definition d_1e4 : Decimal := d_of_Z 10000.
End Ops.

Lemma units_of_Z_nonneg `{DecimalLaws} z : 0 <= z -> 0 <= units (d_of_Z z).
Proof. rewrite units_of_Z. lia. Qed.

Lemma units_of_Z_pos `{DecimalLaws} z : 0 < z -> 0 < units (d_of_Z z).
Proof. rewrite units_of_Z. lia. Qed.

Lemma units_zero `{DecimalLaws} : units d_zero = 0.
Proof. unfold d_zero. by rewrite units_of_Z. Qed.

Lemma units_show `{DecimalLaws} d : units (d_parse_or_zero (d_show d)) = units d.
Proof. unfold d_parse_or_zero. destruct (parse_show d) as [b [-> Hb]]. exact Hb. Qed.

Lemma d_min_units `{Decimals} a b : units (d_min a b) = Z.min (units a) (units b).
Proof. unfold d_min. destruct (Z.ltb_spec (units b) (units a)); lia. Qed.

(** ** A fixed-point instance *)

Definition fx_unit : Z := 10 ^ 28.

Definition round_half_even (n d : Z) : Z :=
  let q := n / d in
  let r := n mod d in
  if 2 * r <? d then q else if d <? 2 * r then q + 1 else if Z.even q then q else q + 1.

Definition fx_mul (a b : Z) : Z := round_half_even (a * b) fx_unit.
Definition fx_div (a b : Z) : Z :=
  if b =? 0 then 0 else round_half_even (Z.sgn b * (a * fx_unit)) (Z.abs b).
Definition fx_trunc (a : Z) : Z := Z.quot a fx_unit * fx_unit.

(** The last [k] digits of [n]. *)
Fixpoint digits_of (k : nat) (n : Z) : string :=
  match k with
  | O => ""
  | S k' => String (char_of_digit (n / 10 ^ Z.of_nat k' mod 10)) (digits_of k' n)
  end.

Fixpoint strip_zeros (s : string) : string :=
  match s with
  | String c s' => if Ascii.eqb c "0" then strip_zeros s' else s
  | EmptyString => ""
  end.

Fixpoint strip_trailing (s : string) : string :=
  match s with
  | String c s' =>
      match strip_trailing s' with
      | EmptyString => if Ascii.eqb c "0" then "" else String c ""
      | t => String c t
      end
  | EmptyString => ""
  end.

Definition show_whole (n : Z) : string :=
  match strip_zeros (digits_of (Z.to_nat (Z.log2 n + 1)) n) with
  | EmptyString => "0"
  | s => s
  end.

Definition fx_show_abs (n : Z) : string :=
  let whole := show_whole (n / fx_unit) in
  match strip_trailing (digits_of 28 (n mod fx_unit)) with
  | EmptyString => whole
  | frac => whole +:+ String "." frac
  end.

Definition fx_show (n : Z) : string :=
  if n <? 0 then String "-" (fx_show_abs (- n)) else fx_show_abs n.

(** Reads digits up to the first other character. *)
Fixpoint read_whole (acc : Z) (s : string) : Z * string :=
  match s with
  | String c s' => if is_digit c then read_whole (10 * acc + digit_val c) s' else (acc, s)
  | EmptyString => (acc, "")
  end.

(** Reads digits of weight [10^(k-1)], [10^(k-2)], ... *)
Fixpoint read_frac (k : nat) (s : string) : option Z :=
  match s with
  | EmptyString => Some 0
  | String c s' =>
      if is_digit c then
        match k with
        | O => read_frac O s'
        | S k' => (fun v => digit_val c * 10 ^ Z.of_nat k' + v) <$> read_frac k' s'
        end
      else None
  end.

Definition fx_parse_abs (s : string) : option Z :=
  match s with
  | String c _ =>
      if is_digit c then
        match read_whole 0 s with
        | (w, EmptyString) => Some (w * fx_unit)
        | (w, String d frac) =>
            if Ascii.eqb d "." then (fun v => w * fx_unit + v) <$> read_frac 28 frac else None
        end
      else None
  | EmptyString => None
  end.

Definition fx_parse (s : string) : option Z :=
  match s with
  | String c s' => if Ascii.eqb c "-" then Z.opp <$> fx_parse_abs s' else fx_parse_abs s
  | EmptyString => None
  end.

Definition fixed : Decimals := {|
  Decimal := Z; units := id; d_add := Z.add; d_sub := Z.sub; d_mul := fx_mul; d_div := fx_div;
  d_neg := Z.opp; d_trunc := fx_trunc; d_of_Z := fun z => z * fx_unit; d_parse := fx_parse; d_show := fx_show
|}.

Example fixed_prints :
  fx_show (fx_div fx_unit (8 * fx_unit)) = "0.125"
  /\ fx_show (- 1200 * fx_unit) = "-1200" /\ fx_parse "99950.5" = Some (999505 * 10 ^ 27)
  /\ fx_parse "1e5" = None /\ fx_show 0 = "0".
Proof. by vm_compute. Qed.

Lemma round_nonneg n d : 0 <= n -> 0 < d -> 0 <= round_half_even n d.
Proof.
  intros Hn Hd. unfold round_half_even. pose proof (Z.div_pos n d Hn Hd). repeat case_match; lia.
Qed.

Lemma round_nonpos n d : n <= 0 -> 0 < d -> round_half_even n d <= 0.
Proof.
  intros Hn Hd. unfold round_half_even. pose proof (Z.div_mod n d ltac:(lia)) as Hdm.
  pose proof (Z.mod_pos_bound n d Hd) as Hr.
  assert (n / d < 0 \/ (n / d = 0 /\ n mod d = 0)) as [Hlt|[Hq Hz]] by nia.
  - repeat case_match; lia.
  - rewrite Hq, Hz. case_match eqn:E; [lia|]. apply Z.ltb_ge in E. lia.
Qed.

Lemma digit_char d : 0 <= d < 10 ->
  is_digit (char_of_digit d) = true /\ digit_val (char_of_digit d) = d.
Proof.
  intros H. assert (d = 0 \/ d = 1 \/ d = 2 \/ d = 3 \/ d = 4 \/ d = 5 \/ d = 6 \/ d = 7 \/ d = 8 \/ d = 9)
    as Hd by lia. by decompose [or] Hd; subst.
Qed.

Fixpoint all_digit (s : string) : bool :=
  match s with EmptyString => true | String c s' => is_digit c && all_digit s' end.

Lemma digits_of_all k n : all_digit (digits_of k n) = true.
Proof.
  induction k as [|k IH]; [done|]. simpl. rewrite IH.
  by rewrite (proj1 (digit_char _ (Z.mod_pos_bound _ 10 eq_refl))).
Qed.

Lemma mod_pow_split n k : 0 <= n ->
  n mod 10 ^ Z.of_nat (S k) = (n / 10 ^ Z.of_nat k) mod 10 * 10 ^ Z.of_nat k + n mod 10 ^ Z.of_nat k.
Proof.
  intros Hn. replace (Z.of_nat (S k)) with (Z.of_nat k + 1) by lia. rewrite Z.pow_add_r, Z.pow_1_r by lia.
  rewrite Z.rem_mul_r by lia. lia.
Qed.

Lemma strip_zeros_all s : all_digit s = true -> all_digit (strip_zeros s) = true.
Proof. induction s as [|c s IH]; [done|]. simpl. intros H. case_match; [bool_to_prop; auto|done]. Qed.

Lemma read_whole_strip s rest : read_whole 0 (strip_zeros s +:+ rest) = read_whole 0 (s +:+ rest).
Proof.
  induction s as [|c s IH]; [done|]. simpl. destruct (Ascii.eqb_spec c "0"); [|done]. subst. rewrite IH. done.
Qed.

Lemma read_whole_digits k n acc rest : 0 <= n ->
  match rest with String c _ => is_digit c = false | EmptyString => True end ->
  read_whole acc (digits_of k n +:+ rest) = (acc * 10 ^ Z.of_nat k + n mod 10 ^ Z.of_nat k, rest).
Proof.
  intros Hn Hrest. revert acc. induction k as [|k IH]; intros acc.
  - change (Z.of_nat 0) with 0. rewrite Z.pow_0_r, Z.mod_1_r. change (digits_of 0 n +:+ rest) with rest.
    destruct rest as [|c r]; simpl; [f_equal; lia|]. rewrite Hrest. f_equal; lia.
  - pose proof (digit_char _ (Z.mod_pos_bound (n / 10 ^ Z.of_nat k) 10 eq_refl)) as [Hd Hv].
    cbn [digits_of]. set (c := char_of_digit _) in *.
    change (String c (digits_of k n) +:+ rest) with (String c (digits_of k n +:+ rest)).
    cbn [read_whole]. rewrite Hd, IH, Hv, mod_pow_split by done. f_equal.
    replace (Z.of_nat (S k)) with (Z.of_nat k + 1) by lia. rewrite Z.pow_add_r by lia. lia.
Qed.

Lemma read_show_whole n rest : 0 <= n ->
  match rest with String c _ => is_digit c = false | EmptyString => True end ->
  read_whole 0 (show_whole n +:+ rest) = (n, rest).
Proof.
  intros Hn Hrest. set (k := Z.to_nat (Z.log2 n + 1)).
  assert (Hb : n < 10 ^ Z.of_nat k).
  { pose proof (Z.log2_nonneg n). unfold k. rewrite Z2Nat.id by lia.
    destruct (Z.eq_dec n 0) as [->|Hz]; [apply Z.pow_pos_nonneg; lia|].
    pose proof (Z.log2_spec n ltac:(lia)) as [_ Hlt]. eapply Z.lt_le_trans; [exact Hlt|].
    replace (Z.succ (Z.log2 n)) with (Z.log2 n + 1) by lia. apply Z.pow_le_mono_l. lia. }
  assert (Hr : read_whole 0 (strip_zeros (digits_of k n) +:+ rest) = (n, rest)).
  { rewrite read_whole_strip, read_whole_digits by done. f_equal. rewrite Z.mod_small; lia. }
  unfold show_whole. fold k. destruct (strip_zeros (digits_of k n)) as [|c t] eqn:E; [|exact Hr].
  change ("0" +:+ rest) with (String "0" rest). change (read_whole 0 (String "0" rest)) with (read_whole 0 rest).
  exact Hr.
Qed.

Lemma show_whole_head n : exists c t, show_whole n = String c t /\ is_digit c = true.
Proof.
  unfold show_whole. pose proof (strip_zeros_all _ (digits_of_all (Z.to_nat (Z.log2 n + 1)) n)) as H.
  destruct (strip_zeros _) as [|c t]; [by exists "0"%char, ""|]. exists c, t. simpl in H. by bool_to_prop.
Qed.

Lemma read_frac_strip k s : read_frac k s <> None -> read_frac k (strip_trailing s) = read_frac k s.
Proof.
  revert k. induction s as [|c s IH]; intros k H; [done|]. simpl in *.
  destruct (is_digit c) eqn:Hd; [|done].
  assert (IH' : forall k', read_frac k' s <> None -> read_frac k' (strip_trailing s) = read_frac k' s) by auto.
  destruct (strip_trailing s) as [|d t] eqn:E.
  - destruct (Ascii.eqb_spec c "0"); subst; simpl.
    + destruct k; [by apply (IH' O)|]. specialize (IH' k). simpl in IH'. rewrite <- IH'; [done|].
      by intros Hn; rewrite Hn in H.
    + rewrite Hd. destruct k; [by apply (IH' O)|]. specialize (IH' k). simpl in *. rewrite <- IH'; [done|].
      by intros Hn; rewrite Hn in H.
  - set (u := String d t) in *. clearbody u. cbn [read_frac]. rewrite Hd. destruct k as [|k]; [by apply IH'|].
    rewrite IH'; [done|]. by intros Hn; rewrite Hn in H.
Qed.

Lemma read_frac_digits k n : 0 <= n -> read_frac k (digits_of k n) = Some (n mod 10 ^ Z.of_nat k).
Proof.
  intros Hn. induction k as [|k IH]; [by rewrite Z.pow_0_r, Z.mod_1_r|].
  pose proof (digit_char _ (Z.mod_pos_bound (n / 10 ^ Z.of_nat k) 10 eq_refl)) as [Hd Hv].
  cbn [digits_of read_frac]. by rewrite Hd, IH, Hv, mod_pow_split.
Qed.

Lemma fx_parse_show_abs n : 0 <= n -> fx_parse_abs (fx_show_abs n) = Some n.
Proof.
  intros Hn. assert (Hu : 0 < fx_unit) by done.
  pose proof (Z.div_pos n fx_unit Hn Hu) as Hq. pose proof (Z.mod_pos_bound n fx_unit Hu) as Hm.
  pose proof (Z.div_mod n fx_unit ltac:(lia)) as Hdm.
  pose proof (read_frac_digits 28 (n mod fx_unit) ltac:(lia)) as Hf.
  change (10 ^ Z.of_nat 28) with fx_unit in Hf. rewrite Zmod_mod in Hf.
  pose proof (read_frac_strip 28 _ ltac:(by rewrite Hf)) as Hs. rewrite Hf in Hs.
  unfold fx_show_abs. destruct (show_whole_head (n / fx_unit)) as (c & t & Hsw & Hc).
  destruct (strip_trailing _) as [|d frac] eqn:E.
  - pose proof (read_show_whole (n / fx_unit) "" Hq I) as Hr. rewrite str_app_nil_r in Hr.
    unfold fx_parse_abs. rewrite Hsw in *. rewrite Hc, Hr. simpl in Hs. injection Hs as Hs. f_equal. lia.
  - pose proof (read_show_whole (n / fx_unit) (String "." (String d frac)) Hq eq_refl) as Hr.
    rewrite Hsw in *.
    change (String c t +:+ String "." (String d frac)) with (String c (t +:+ String "." (String d frac))) in *.
    unfold fx_parse_abs. rewrite Hc, Hr. rewrite Ascii.eqb_refl, Hs. simpl. f_equal. lia.
Qed.

Lemma fx_show_abs_head n : exists c t, fx_show_abs n = String c t /\ Ascii.eqb c "-" = false.
Proof.
  unfold fx_show_abs. destruct (show_whole_head (n / fx_unit)) as (c & t & -> & Hc).
  assert (Hne : Ascii.eqb c "-" = false) by (destruct (Ascii.eqb_spec c "-"); [by subst|done]).
  destruct (strip_trailing _); eauto.
Qed.

(** Printing a fixed-point number and reading it back is the identity. *)
Lemma fx_parse_show n : fx_parse (fx_show n) = Some n.
Proof.
  unfold fx_show. destruct (Z.ltb_spec n 0).
  - cbn [fx_parse]. rewrite Ascii.eqb_refl, fx_parse_show_abs by lia. simpl. f_equal. lia.
  - pose proof (fx_parse_show_abs n ltac:(lia)) as Hp.
    destruct (fx_show_abs_head n) as (c & t & Hs & Hc). rewrite Hs in *. cbn [fx_parse]. by rewrite Hc.
Qed.

Lemma fixed_laws : @DecimalLaws fixed.
Proof.
  assert (Hu : 0 < fx_unit) by done.
  split; cbn [Decimal units d_add d_sub d_mul d_div d_neg d_trunc d_of_Z d_parse d_show fixed]; unfold id; intros.
  - done.
  - done.
  - done.
  - done.
  - exists a. split; [apply fx_parse_show|done].
  - apply round_nonneg; [nia|done].
  - apply round_nonpos; [nia|done].
  - apply round_nonpos; [nia|done].
  - unfold fx_div. destruct (Z.eqb_spec b 0); [lia|]. apply round_nonneg; [|lia]. rewrite Z.sgn_pos; lia.
  - unfold fx_div. destruct (Z.eqb_spec b 0); [lia|]. apply round_nonpos; [|lia]. rewrite Z.sgn_pos; lia.
  - unfold fx_trunc. pose proof (Z.quot_pos a fx_unit). nia.
  - unfold fx_trunc. pose proof (Z.quot_pos (- a) fx_unit). rewrite Z.quot_opp_l in * by lia. nia.
Qed.
