(* ===== verification/EdgeState.v ===== *)
(** * The edge server's state ([crates/perplex-edge/src/state.rs], [types.rs])

    The in-memory stores behind the REST handlers: resting orders, the public
    books, positions, fills, trades, vault balances and sign-in nonces, with
    the operations the handlers call.  A [HashMap] is a [gmap]; the order in
    which one is iterated is not defined by the language, so it is a
    parameter, [order_iter], of which only that it lists the entries is
    assumed (in the theorems).  Clock readings and fresh ids come from
    streams, read in order through [e_ticks].

    Amounts are kept as the strings the stores hold and parsed where the code
    parses them.  A store is only changed under its lock, and the handlers
    call the operations one after the other, so each operation is one step. *)

From S2P Require Import Prelude JsNum JsText JsColl EdgeDecimal.
From stdpp Require Import gmap.
From Stdlib Require Import Ascii.
#[local] Open Scope Z_scope.

(** ** Data *)

Record OpenOrder := mkOpenOrder {
  oo_id : string; oo_market_id : string; oo_side : string; oo_order_type : string; oo_price : string;
  oo_qty : string; oo_remaining : string; oo_ts_ns : string; oo_client_order_id : option string
}.

Record PositionInfo := mkPositionInfo {
  po_market_id : string; po_size : string; po_side : string; po_entry_price_x18 : string;
  po_mark_price_x18 : string; po_notional_usdc : string; po_unrealised_pnl_usdc : string;
  po_realised_pnl_usdc : string; po_leverage : string; po_liquidation_price_x18 : string;
  po_funding_paid_usdc : string; po_last_updated_ts_ns : string
}.

Record FillInfo := mkFillInfo {
  fi_id : string; fi_order_id : string; fi_market_id : string; fi_side : string; fi_price : string;
  fi_qty : string; fi_fee_usdc : string; fi_role : string; fi_ts_ns : string; fi_tx_hash : string
}.

Record PublicTrade := mkPublicTrade {
  pt_id : string; pt_market_id : string; pt_price : string; pt_qty : string; pt_side : string; pt_ts_ns : string
}.

(** The statistics that [decorate_market] adds for display are left out. *)
Record MarketInfo := mkMarketInfo {
  mi_id : string; mi_base : string; mi_quote : string; mi_active : bool; mi_tick_size : string;
  mi_lot_size : string; mi_max_leverage : Z; mi_im_ratio_bps : Z; mi_mm_ratio_bps : Z;
  mi_liq_bonus_bps : Z; mi_taker_fee_bps : Z; mi_maker_rebate_bps : Z; mi_funding_interval_sec : Z;
  mi_index_price_x18 : string
}.

Record BookSnapshot := mkBookSnapshot {
  bk_sequence : Z; bk_bids : list (string * string); bk_asks : list (string * string)
}.

Inductive PersistEvent :=
| UpsertOrder (address : string) (order : OpenOrder)
| DeleteOrder (id : string)
| SyncOrders (address : string) (orders : list OpenOrder)
| InsertFill (address : string) (fill : FillInfo)
| SyncPositions (address : string) (positions : list PositionInfo)
| UpsertVault (address amount : string)
| InsertTrade (trade : PublicTrade).

(** The positions a liquidation reports, and a taker's matches. *)
Record LiquidationOutcome := mkLiquidationOutcome {
  lo_address : string; lo_market_id : string; lo_side : string; lo_size : string; lo_mark_price : string;
  lo_realised_pnl_usdc : string; lo_health_factor : string
}.

Record PositionsResponse := mkPositionsResponse {
  pr_collateral_usdc : string; pr_free_collateral_usdc : string; pr_total_unrealised_pnl_usdc : string;
  pr_total_notional_usdc : string; pr_positions : list PositionInfo
}.

Definition default_markets : gmap string MarketInfo :=
  <["btc-usd" := mkMarketInfo "btc-usd" "BTC" "USD" true "0.1" "0.0001" 20 500 250 100 5 (-2) 28800
                   "100000000000000000000000"]>
  (<["eth-usd" := mkMarketInfo "eth-usd" "ETH" "USD" true "0.01" "0.001" 20 500 250 100 5 (-2) 28800
                   "3500000000000000000000"]>
  (<["sol-usd" := mkMarketInfo "sol-usd" "SOL" "USD" true "0.001" "0.01" 10 1000 500 150 5 (-2) 28800
                   "200000000000000000000"]> ∅)).

Definition default_books : gmap string BookSnapshot :=
  <["btc-usd" := mkBookSnapshot 0 [] []]>
  (<["eth-usd" := mkBookSnapshot 0 [] []]> (<["sol-usd" := mkBookSnapshot 0 [] []]> ∅)).

Record Edge := mkEdge {
  e_orderbooks : gmap string BookSnapshot;
  e_public_trades : gmap string (list PublicTrade);
  e_open_orders : gmap string (list OpenOrder);
  e_positions : gmap string (list PositionInfo);
  e_fills : gmap string (list FillInfo);
  e_vault_balances : gmap string string;
  e_siwe_nonces : gmap string string;
  e_oracle_prices : gmap string string;
  e_dev_seed_vault : bool;
  e_persist : option (list PersistEvent);   (* what was sent on [persist_tx], oldest first *)
  e_ticks : nat
}.

Definition set_orderbooks v st := mkEdge v (e_public_trades st) (e_open_orders st) (e_positions st) (e_fills st)
  (e_vault_balances st) (e_siwe_nonces st) (e_oracle_prices st) (e_dev_seed_vault st) (e_persist st) (e_ticks st).
Definition set_public_trades v st := mkEdge (e_orderbooks st) v (e_open_orders st) (e_positions st) (e_fills st)
  (e_vault_balances st) (e_siwe_nonces st) (e_oracle_prices st) (e_dev_seed_vault st) (e_persist st) (e_ticks st).
Definition set_open_orders v st := mkEdge (e_orderbooks st) (e_public_trades st) v (e_positions st) (e_fills st)
  (e_vault_balances st) (e_siwe_nonces st) (e_oracle_prices st) (e_dev_seed_vault st) (e_persist st) (e_ticks st).
Definition set_position_map v st := mkEdge (e_orderbooks st) (e_public_trades st) (e_open_orders st) v (e_fills st)
  (e_vault_balances st) (e_siwe_nonces st) (e_oracle_prices st) (e_dev_seed_vault st) (e_persist st) (e_ticks st).
Definition set_fills v st := mkEdge (e_orderbooks st) (e_public_trades st) (e_open_orders st) (e_positions st) v
  (e_vault_balances st) (e_siwe_nonces st) (e_oracle_prices st) (e_dev_seed_vault st) (e_persist st) (e_ticks st).
Definition set_vaults v st := mkEdge (e_orderbooks st) (e_public_trades st) (e_open_orders st) (e_positions st)
  (e_fills st) v (e_siwe_nonces st) (e_oracle_prices st) (e_dev_seed_vault st) (e_persist st) (e_ticks st).
Definition set_nonces v st := mkEdge (e_orderbooks st) (e_public_trades st) (e_open_orders st) (e_positions st)
  (e_fills st) (e_vault_balances st) v (e_oracle_prices st) (e_dev_seed_vault st) (e_persist st) (e_ticks st).
Definition set_oracle v st := mkEdge (e_orderbooks st) (e_public_trades st) (e_open_orders st) (e_positions st)
  (e_fills st) (e_vault_balances st) (e_siwe_nonces st) v (e_dev_seed_vault st) (e_persist st) (e_ticks st).
Definition set_persist v st := mkEdge (e_orderbooks st) (e_public_trades st) (e_open_orders st) (e_positions st)
  (e_fills st) (e_vault_balances st) (e_siwe_nonces st) (e_oracle_prices st) (e_dev_seed_vault st) v (e_ticks st).
Definition tick st := mkEdge (e_orderbooks st) (e_public_trades st) (e_open_orders st) (e_positions st)
  (e_fills st) (e_vault_balances st) (e_siwe_nonces st) (e_oracle_prices st) (e_dev_seed_vault st) (e_persist st)
  (S (e_ticks st)).

(** [AppState::new], [new_dev]; with [persist], a state backed by an empty database. *)
Definition new_edge (dev_seed persist : bool) : Edge :=
  mkEdge default_books ∅ ∅ ∅ ∅ ∅ ∅ ∅ dev_seed (if persist then Some [] else None) 0.

Definition emit (ev : PersistEvent) (st : Edge) : Edge :=
  set_persist ((fun evs => evs ++ [ev]) <$> e_persist st) st.

(** [entry(k).or_default()] then [f]. *)
Definition alter_default {V} (f : list V -> list V) (k : string) (m : gmap string (list V)) : gmap string (list V) :=
  <[k := f (default [] (m !! k))]> m.

(** ** Markets, vaults, nonces, tapes *)

Definition market (market_id : string) (st : Edge) : option MarketInfo :=
  (fun m => match e_oracle_prices st !! mi_id m with
            | Some px => mkMarketInfo (mi_id m) (mi_base m) (mi_quote m) (mi_active m) (mi_tick_size m)
                (mi_lot_size m) (mi_max_leverage m) (mi_im_ratio_bps m) (mi_mm_ratio_bps m)
                (mi_liq_bonus_bps m) (mi_taker_fee_bps m) (mi_maker_rebate_bps m)
                (mi_funding_interval_sec m) px
            | None => m
            end) <$> default_markets !! market_id.

Definition set_oracle_price (market_id price_x18 : string) (st : Edge) : Edge :=
  set_oracle (<[market_id := price_x18]> (e_oracle_prices st)) st.

Definition vault_balance (address : string) (st : Edge) : string :=
  default "0" (e_vault_balances st !! address).

Definition set_vault_balance (address amount : string) (st : Edge) : Edge :=
  let st := emit (UpsertVault address amount) st in
  set_vaults (<[address := amount]> (e_vault_balances st)) st.

Definition DEV_SEED_USDC_RAW : string := "100000000000".

Definition seed_dev_vault (address : string) (st : Edge) : Edge :=
  if negb (e_dev_seed_vault st) then st
  else match e_vault_balances st !! address with
       | Some _ => st
       | None => emit (UpsertVault address DEV_SEED_USDC_RAW)
                   (set_vaults (<[address := DEV_SEED_USDC_RAW]> (e_vault_balances st)) st)
       end.

Definition record_trade (market_id : string) (trade : PublicTrade) (st : Edge) : Edge :=
  let st := emit (InsertTrade trade) st in
  set_public_trades (alter_default (fun l => l ++ [trade]) market_id (e_public_trades st)) st.

Definition record_fill (address : string) (fill : FillInfo) (st : Edge) : Edge :=
  let st := emit (InsertFill address fill) st in
  set_fills (alter_default (fun l => l ++ [fill]) address (e_fills st)) st.

Definition public_trades (market_id : string) (limit : nat) (st : Edge) : list PublicTrade :=
  take limit (rev (default [] (e_public_trades st !! market_id))).
Definition fills_for (address : string) (limit : nat) (st : Edge) : list FillInfo :=
  take limit (rev (default [] (e_fills st !! address))).
Definition open_orders_for (address : string) (st : Edge) : list OpenOrder :=
  default [] (e_open_orders st !! address).
Definition positions_for (address : string) (st : Edge) : list PositionInfo :=
  default [] (e_positions st !! address).

Definition set_positions (address : string) (positions : list PositionInfo) (st : Edge) : Edge :=
  let st := emit (SyncPositions address positions) st in
  set_position_map (<[address := positions]> (e_positions st)) st.

Definition consume_siwe_nonce (address : string) (st : Edge) : option string * Edge :=
  (e_siwe_nonces st !! address, set_nonces (delete address (e_siwe_nonces st)) st).

(** [str::parse::<u64>]. *)
Fixpoint u64_digits (acc : Z) (s : string) : option Z :=
  match s with
  | EmptyString => Some acc
  | String c s' =>
      if is_digit c then
        let acc := 10 * acc + digit_val c in if acc <? 2 ^ 64 then u64_digits acc s' else None
      else None
  end.
Definition parse_u64 (s : string) : option Z :=
  match s with
  | EmptyString => None
  | String "+" EmptyString => None
  | String "+" s' => u64_digits 0 s'
  | _ => u64_digits 0 s
  end.

(** ** Orders *)

Section Ops.
Context `{D : Decimals}.
Variables (now_ns : nat -> Z) (ulid : nat -> string).
Variable order_iter : gmap string (list OpenOrder) -> list (string * list OpenOrder).

#[local] Open Scope dec_scope.
#[local] Open Scope Z_scope.

Definition scale_x18 (d : Decimal) : string := d_show (d_trunc (d * d_1e18)%dec).
Definition scale_usdc6 (d : Decimal) : string := d_show (d_trunc (d * d_1e6)%dec).
Definition unscale_x18 (s : string) : Decimal := (d_parse_or_zero s / d_1e18)%dec.

(** [parse::<Decimal>()] with the guard [Ok(p) if !p.is_zero()]. *)
Definition parse_nonzero (s : string) : option Decimal :=
  match d_parse s with
  | Some p => if d_is_zero p then None else Some p
  | None => None
  end.

(** A [BTreeMap<Decimal, Decimal>] as its entries in key order:
    [entry(price).and_modify(+= qty).or_insert(qty)]. *)
Fixpoint level_add (price qty : Decimal) (l : list (Decimal * Decimal)) : list (Decimal * Decimal) :=
  match l with
  | [] => [(price, qty)]
  | (p, q) :: l' =>
      if d_eq price p then (p, (q + qty)%dec) :: l'
      else if d_lt price p then (price, qty) :: l
      else (p, q) :: level_add price qty l'
  end.

(** The price and the quantity of an order that rests in [market_id]. *)
Definition resting (market_id : string) (o : OpenOrder) : option (Decimal * Decimal) :=
  if negb (String.eqb (oo_market_id o) market_id) then None
  else if negb (String.eqb (oo_order_type o) "limit") then None
  else match parse_nonzero (oo_price o) with
       | None => None
       | Some price =>
           match parse_nonzero (oo_remaining o) with
           | None => None
           | Some qty => Some (price, qty)
           end
       end.

Definition bucket_order (market_id : string) (acc : list (Decimal * Decimal) * list (Decimal * Decimal))
  (o : OpenOrder) : list (Decimal * Decimal) * list (Decimal * Decimal) :=
  match resting market_id o with
  | None => acc
  | Some (price, qty) =>
      if String.eqb (oo_side o) "buy" then (level_add price qty acc.1, acc.2)
      else (acc.1, level_add price qty acc.2)
  end.

Definition to_levels (b : list (Decimal * Decimal)) (descending : bool) : list (string * string) :=
  map (fun pq => (d_show pq.1, d_show pq.2)) (if descending then rev b else b).

(** The resting orders in iteration order. *)
Definition all_orders (st : Edge) : list OpenOrder := concat (order_iter (e_open_orders st)).*2.

Definition rebuild_orderbook (market_id : string) (st : Edge) : Edge :=
  let '(bids, asks) := foldl (bucket_order market_id) ([], []) (all_orders st) in
  let sequence := bk_sequence (default (mkBookSnapshot 0 [] []) (e_orderbooks st !! market_id)) in
  set_orderbooks
    (<[market_id := mkBookSnapshot (Z.min (sequence + 1) (2 ^ 64 - 1)) (to_levels bids true) (to_levels asks false)]>
       (e_orderbooks st)) st.

Definition add_open_order (address : string) (order : OpenOrder) (st : Edge) : Edge :=
  let market_id := oo_market_id order in
  let st := emit (UpsertOrder address order) st in
  let st := set_open_orders (alter_default (fun l => l ++ [order]) address (e_open_orders st)) st in
  rebuild_orderbook market_id st.

Definition has_id (order_id : string) (o : OpenOrder) : bool := String.eqb (oo_id o) order_id.

(** The first order with an id in an account. *)
Definition find_order (order_id : string) (l : list OpenOrder) : option OpenOrder := List.find (has_id order_id) l.

Definition cancel_order (address order_id : string) (st : Edge) : bool * Edge :=
  let g := e_open_orders st in
  let market_id := oo_market_id <$> (g !! address ≫= find_order order_id) in
  let '(changed, st) :=
    match g !! address with
    | Some list =>
        let kept := List.filter (fun o => negb (has_id order_id o)) list in
        (negb (length kept =? length list)%nat, set_open_orders (<[address := kept]> g) st)
    | None => (false, st)
    end in
  let st := if changed : bool then emit (DeleteOrder order_id) st else st in
  let st := match market_id with Some mid => rebuild_orderbook mid st | None => st end in
  (changed, st).

(** ** Matching a taker *)

Definition opp_side (taker_side : string) : string := if String.eqb taker_side "buy" then "sell" else "buy".

(** The conditions a resting order has to pass, in both walks. *)
Definition crosses (market_id taker_side : string) (taker_price : option Decimal) (o : OpenOrder)
  : option (Decimal * Decimal) :=
  if negb (String.eqb (oo_market_id o) market_id) || negb (String.eqb (oo_side o) (opp_side taker_side))
     || negb (String.eqb (oo_order_type o) "limit") then None
  else match parse_nonzero (oo_price o) with
       | None => None
       | Some price =>
           match parse_nonzero (oo_remaining o) with
           | None => None
           | Some rem =>
               match taker_price with
               | Some tp =>
                   if String.eqb taker_side "buy" && d_lt tp price then None
                   else if String.eqb taker_side "sell" && d_lt price tp then None
                   else Some (price, rem)
               | None => Some (price, rem)
               end
           end
       end.

Fixpoint probe_orders (market_id taker_side : string) (taker_price : option Decimal)
  (os : list OpenOrder) (remaining filled : Decimal) : Decimal :=
  match os with
  | [] => filled
  | o :: os' =>
      if d_is_zero remaining then filled
      else match crosses market_id taker_side taker_price o with
           | None => probe_orders market_id taker_side taker_price os' remaining filled
           | Some (_, rem) =>
               let take := d_min remaining rem in
               probe_orders market_id taker_side taker_price os' (remaining - take)%dec (filled + take)%dec
           end
  end.

(** The orders of the other accounts, in iteration order. *)
Definition others (taker_address : string) (st : Edge) : list (string * OpenOrder) :=
  concat (map (fun al => map (pair al.1) al.2)
            (List.filter (fun al => negb (String.eqb al.1 taker_address)) (order_iter (e_open_orders st)))).

Definition match_taker_probe (market_id taker_side : string) (taker_price : option Decimal)
  (taker_qty : Decimal) (taker_address : string) (st : Edge) : Decimal :=
  probe_orders market_id taker_side taker_price (others taker_address st).*2 taker_qty d_zero.

Record Candidate := mkCandidate { ca_addr : string; ca_id : string; ca_price : Decimal; ca_rem : Decimal; ca_ts : Z }.

Definition candidate (market_id taker_side : string) (taker_price : option Decimal) (ao : string * OpenOrder)
  : option Candidate :=
  (fun pr => mkCandidate ao.1 (oo_id ao.2) pr.1 pr.2 (default 0 (parse_u64 (oo_ts_ns ao.2))))
    <$> crosses market_id taker_side taker_price ao.2.

(** [a] comes after [b] in price-time priority. *)
Definition after (taker_side : string) (a b : Candidate) : bool :=
  if String.eqb taker_side "buy" then
    d_lt (ca_price b) (ca_price a) || (d_eq (ca_price a) (ca_price b) && (ca_ts b <? ca_ts a))
  else
    d_lt (ca_price a) (ca_price b) || (d_eq (ca_price a) (ca_price b) && (ca_ts b <? ca_ts a)).

Definition candidates (market_id taker_side : string) (taker_price : option Decimal) (taker_address : string)
  (st : Edge) : list Candidate :=
  js_sort (after taker_side) (omap (candidate market_id taker_side taker_price) (others taker_address st)).

Record MatchedFill := mkMatchedFill {
  mf_maker_address : string; mf_maker_order_id : string; mf_price : Decimal; mf_qty : Decimal; mf_ts_ns : Z
}.

Definition set_remaining (r : string) (o : OpenOrder) : OpenOrder :=
  mkOpenOrder (oo_id o) (oo_market_id o) (oo_side o) (oo_order_type o) (oo_price o) (oo_qty o) r (oo_ts_ns o)
    (oo_client_order_id o).

(** Updates the first order with an id, as through [iter_mut().find]. *)
Fixpoint update_order (order_id : string) (f : OpenOrder -> OpenOrder) (l : list OpenOrder) : list OpenOrder :=
  match l with
  | [] => []
  | o :: l' => if has_id order_id o then f o :: l' else o :: update_order order_id f l'
  end.

Record Crossing := mkCrossing {
  cr_orders : gmap string (list OpenOrder); cr_remaining : Decimal; cr_filled : list MatchedFill; cr_ticks : nat
}.

(** One candidate of phase 2 of [match_taker]. *)
Definition cross_candidate (c : Candidate) (k : Crossing) : Crossing :=
  if d_is_zero (cr_remaining k) then k
  else match cr_orders k !! ca_addr c with
  | None => k
  | Some list =>
      match find_order (ca_id c) list with
      | None => k
      | Some order =>
          match d_parse (oo_remaining order) with
          | None => k
          | Some maker_rem =>
              if d_is_zero maker_rem then k
              else
                let fill_qty := d_min (cr_remaining k) maker_rem in
                let new_rem := (maker_rem - fill_qty)%dec in
                mkCrossing
                  (<[ca_addr c := update_order (ca_id c) (set_remaining (d_show new_rem)) list]> (cr_orders k))
                  (cr_remaining k - fill_qty)%dec
                  (cr_filled k ++ [mkMatchedFill (ca_addr c) (ca_id c) (ca_price c) fill_qty (now_ns (cr_ticks k))])
                  (S (cr_ticks k))
          end
      end
  end.

(** [retain] of the reaping pass. *)
Definition unreaped (market_id : string) (o : OpenOrder) : bool :=
  negb (String.eqb (oo_market_id o) market_id)
  || match d_parse (oo_remaining o) with Some r => negb (d_is_zero r) | None => true end.

Definition set_ticks (n : nat) (st : Edge) : Edge :=
  mkEdge (e_orderbooks st) (e_public_trades st) (e_open_orders st) (e_positions st) (e_fills st)
    (e_vault_balances st) (e_siwe_nonces st) (e_oracle_prices st) (e_dev_seed_vault st) (e_persist st) n.

(** Phase 4: the accounts that were touched, in order of their first fill. *)
Definition touched (filled : list MatchedFill) : list string :=
  foldl (fun seen f => js_add (mf_maker_address f) seen) [] filled.

Definition sync_makers (filled : list MatchedFill) (st : Edge) : Edge :=
  foldl (fun st addr => emit (SyncOrders addr (open_orders_for addr st)) st) st (touched filled).

Definition match_taker (market_id taker_side : string) (taker_price : option Decimal) (taker_qty : Decimal)
  (taker_address : string) (st : Edge) : list MatchedFill * Edge :=
  let k := foldl (fun k c => cross_candidate c k) (mkCrossing (e_open_orders st) taker_qty [] (e_ticks st))
             (candidates market_id taker_side taker_price taker_address st) in
  let st := set_ticks (cr_ticks k) st in
  let st := set_open_orders (List.filter (unreaped market_id) <$> cr_orders k) st in
  let st := rebuild_orderbook market_id st in
  (cr_filled k, sync_makers (cr_filled k) st).

(** ** Positions *)

Definition in_market (market_id : string) (p : PositionInfo) : bool := String.eqb (po_market_id p) market_id.

(** The fields of a position that a fill writes. *)
Definition fresh_position (market_id side : string) (qty price : Decimal) (ts : string) : PositionInfo :=
  mkPositionInfo market_id (d_show qty) side (scale_x18 price) (scale_x18 price) (scale_usdc6 (qty * price)%dec)
    "0" "0" "1" "0" "0" ts.

Definition with_size (p : PositionInfo) (side size entry mark notional ts : string) : PositionInfo :=
  mkPositionInfo (po_market_id p) size side entry mark notional (po_unrealised_pnl_usdc p)
    (po_realised_pnl_usdc p) (po_leverage p) (po_liquidation_price_x18 p) (po_funding_paid_usdc p) ts.

(** A fill against the account's position in the market; [None] when it closes it. *)
Definition fill_position (p : PositionInfo) (new_side : string) (qty price : Decimal) (ts : string)
  : option PositionInfo :=
  let old_size := d_parse_or_zero (po_size p) in
  let old_entry := unscale_x18 (po_entry_price_x18 p) in
  if String.eqb (po_side p) new_side then
    let new_size := (old_size + qty)%dec in
    let new_entry :=
      if negb (d_is_zero new_size) then ((old_size * old_entry + qty * price) / new_size)%dec else price in
    Some (with_size p (po_side p) (d_show new_size) (scale_x18 new_entry) (scale_x18 new_entry)
            (scale_usdc6 (new_size * new_entry)%dec) ts)
  else if d_lt qty old_size then
    let new_size := (old_size - qty)%dec in
    Some (with_size p (po_side p) (d_show new_size) (po_entry_price_x18 p) (po_mark_price_x18 p)
            (scale_usdc6 (new_size * old_entry)%dec) ts)
  else if d_eq qty old_size then None
  else
    let overflow := (qty - old_size)%dec in
    Some (with_size p new_side (d_show overflow) (scale_x18 price) (scale_x18 price)
            (scale_usdc6 (overflow * price)%dec) ts).

(** The first position of the market is the one that changes; without one, a new one is pushed. *)
Fixpoint fill_positions (market_id new_side : string) (qty price : Decimal) (ts : string)
  (l : list PositionInfo) : list PositionInfo :=
  match l with
  | [] => [fresh_position market_id new_side qty price ts]
  | p :: l' =>
      if in_market market_id p then
        match fill_position p new_side qty price ts with
        | Some p' => p' :: l'
        | None => l'
        end
      else p :: fill_positions market_id new_side qty price ts l'
  end.

Definition show_Z (z : Z) : string := bigint_toString z.

Definition apply_position_fill (address market_id order_side : string) (qty price : Decimal) (st : Edge) : Edge :=
  let new_side := if String.eqb order_side "buy" then "long" else "short" in
  let ts := show_Z (now_ns (e_ticks st)) in
  tick (set_position_map
          (alter_default (fill_positions market_id new_side qty price ts) address (e_positions st)) st).

Definition upsert_position (address market_id order_side : string) (qty price : Decimal) (st : Edge) : Edge :=
  let st := apply_position_fill address market_id order_side qty price st in
  emit (SyncPositions address (positions_for address st)) st.

(** ** Margin ([crates/perplex-core/src/margin.rs]) *)

Record CorePosition := mkCorePosition { cp_size : Decimal; cp_entry_price : Decimal }.

Definition d_abs (a : Decimal) : Decimal := if units a <? 0 then d_neg a else a.
Definition d_one : Decimal := d_of_Z 1.

Definition unrealised_pnl (p : CorePosition) (mark : Decimal) : Decimal :=
  if d_is_zero (cp_size p) then d_zero else (cp_size p * (mark - cp_entry_price p))%dec.

Definition notional (p : CorePosition) (mark : Decimal) : Decimal := (d_abs (cp_size p) * mark)%dec.

Definition maintenance_margin (p : CorePosition) (mark : Decimal) (mm_ratio_bps : Z) : Decimal :=
  (notional p mark * d_of_Z mm_ratio_bps / d_1e4)%dec.

Definition health_factor (p : CorePosition) (mark collateral : Decimal) (mm_ratio_bps : Z) : option Decimal :=
  let mm := maintenance_margin p mark mm_ratio_bps in
  if d_is_zero mm then None
  else Some ((collateral + unrealised_pnl p mark) / mm)%dec.

Definition liquidation_price (p : CorePosition) (collateral : Decimal) (mm_ratio_bps : Z) : option Decimal :=
  if d_is_zero (cp_size p) then None
  else
    let mm_ratio := (d_of_Z mm_ratio_bps / d_1e4)%dec in
    let size_abs := d_abs (cp_size p) in
    let '(num, den) :=
      if 0 <? units (cp_size p)
      then ((size_abs * cp_entry_price p - collateral)%dec, (size_abs * (d_one - mm_ratio))%dec)
      else ((size_abs * cp_entry_price p + collateral)%dec, (size_abs * (d_one + mm_ratio))%dec) in
    if d_is_zero den then None else Some (num / den)%dec.

(** ** Account summary *)

Definition core_position (p : PositionInfo) (size : Decimal) : CorePosition :=
  mkCorePosition (if String.eqb (po_side p) "long" then size else d_neg size)
    (unscale_x18 (po_entry_price_x18 p)).

Definition collateral_dollars (address : string) (st : Edge) : Decimal :=
  (d_parse_or_zero (vault_balance address st) / d_1e6)%dec.

Definition side_pnl (p : PositionInfo) (size mark entry : Decimal) : Decimal :=
  if String.eqb (po_side p) "long" then (size * (mark - entry))%dec else (size * (entry - mark))%dec.

Record Totals := mkTotals { tt_notional : Decimal; tt_pnl : Decimal; tt_margin : Decimal }.

(** One position of [account_summary]'s loop: the refreshed position and the totals. *)
Definition summarise (collateral : Decimal) (st : Edge) (p : PositionInfo) (t : Totals) : PositionInfo * Totals :=
  let size := d_parse_or_zero (po_size p) in
  if d_is_zero size then (p, t)
  else
    let entry := unscale_x18 (po_entry_price_x18 p) in
    let m := market (po_market_id p) st in
    let mark := match m with Some m => unscale_x18 (mi_index_price_x18 m) | None => entry end in
    let im_ratio_bps := match m with Some m => d_of_Z (mi_im_ratio_bps m) | None => d_of_Z 500 end in
    let im_ratio := (im_ratio_bps / d_1e4)%dec in
    let notional := (size * mark)%dec in
    let pnl := side_pnl p size mark entry in
    let im := (notional * im_ratio)%dec in
    let liq :=
      match m with
      | Some m =>
          match liquidation_price (core_position p size) collateral (mi_mm_ratio_bps m) with
          | Some liq => scale_x18 (if units liq <? 0 then d_zero else liq)
          | None => po_liquidation_price_x18 p
          end
      | None => po_liquidation_price_x18 p
      end in
    (mkPositionInfo (po_market_id p) (po_size p) (po_side p) (po_entry_price_x18 p) (scale_x18 mark)
       (scale_usdc6 notional) (scale_usdc6 pnl) (po_realised_pnl_usdc p) (po_leverage p) liq
       (po_funding_paid_usdc p) (po_last_updated_ts_ns p),
     mkTotals (tt_notional t + notional)%dec (tt_pnl t + pnl)%dec (tt_margin t + im)%dec).

Definition account_summary (address : string) (st : Edge) : PositionsResponse :=
  let collateral_str := vault_balance address st in
  let collateral := collateral_dollars address st in
  let '(positions, t) :=
    foldl (fun acc p => let '(p', t') := summarise collateral st p acc.2 in (acc.1 ++ [p'], t'))
      ([], mkTotals d_zero d_zero d_zero) (positions_for address st) in
  let raw := (collateral + tt_pnl t - tt_margin t)%dec in
  let free := if d_lt raw d_zero then d_zero else raw in
  mkPositionsResponse collateral_str (scale_usdc6 free) (scale_usdc6 (tt_pnl t)) (scale_usdc6 (tt_notional t))
    positions.

(** ** Liquidation *)

Definition liq_inputs (pos : PositionInfo) (st : Edge) : option (Decimal * CorePosition * Z) :=
  match d_parse (po_size pos) with
  | None => None
  | Some size =>
      if d_is_zero size then None
      else match market (po_market_id pos) st with
           | None => None
           | Some m => Some (unscale_x18 (mi_index_price_x18 m), core_position pos size, mi_mm_ratio_bps m)
           end
  end.

Definition position_health (address : string) (pos : PositionInfo) (st : Edge) : option Decimal :=
  match liq_inputs pos st with
  | None => None
  | Some (mark, core, mm) => health_factor core mark (collateral_dollars address st) mm
  end.

Definition liquidate_position (address market_id : string) (st : Edge) : option LiquidationOutcome * Edge :=
  let positions := positions_for address st in
  match List.find (in_market market_id) positions with
  | None => (None, st)
  | Some pos =>
      match position_health address pos st with
      | None => (None, st)
      | Some health =>
          if negb (d_lt health d_one) then (None, st)
          else
            match d_parse (po_size pos), liq_inputs pos st with
            | Some size, Some (mark, _, _) =>
                let entry := unscale_x18 (po_entry_price_x18 pos) in
                let collateral := collateral_dollars address st in
                let realised := side_pnl pos size mark entry in
                let raw := (collateral + realised)%dec in
                let new_collateral := if d_lt raw d_zero then d_zero else raw in
                let st := set_vault_balance address (scale_usdc6 new_collateral) st in
                let st := set_positions address (List.filter (fun p => negb (in_market market_id p)) positions) st in
                let close_side := if String.eqb (po_side pos) "long" then "sell" else "buy" in
                let price_str := d_show mark in
                let qty_str := d_show size in
                let ts := show_Z (now_ns (e_ticks st)) in
                let st := tick st in
                let st := record_fill address
                  (mkFillInfo ("fil_" +:+ ulid (e_ticks st)) "liquidation" market_id close_side price_str qty_str
                     "0" "liquidation" ts "") st in
                let st := tick st in
                let st := record_trade market_id
                  (mkPublicTrade ("trd_" +:+ ulid (e_ticks st)) market_id price_str qty_str close_side ts) st in
                let st := tick st in
                (Some (mkLiquidationOutcome address market_id (po_side pos) qty_str price_str
                         (scale_usdc6 realised) (d_show health)), st)
            | _, _ => (None, st)
            end
      end
  end.

Definition issue_siwe_nonce (address : string) (st : Edge) : string * Edge :=
  let nonce := ulid (e_ticks st) in
  let st := tick st in
  (nonce, set_nonces (<[address := nonce]> (e_siwe_nonces st)) st).

End Ops.
