(* ===== verification/EdgeHandlers.v ===== *)
(** * The edge server's handlers ([crates/perplex-edge/src/handlers.rs], [error.rs])

    Placing and cancelling orders, the reads of an account, and the
    liquidation route.  A handler runs on the state of [EdgeState] and returns
    a response or an [ApiError]; [user] is the address of the caller's token. *)

From S2P Require Import Prelude JsNum JsText JsColl EdgeDecimal EdgeState.
From stdpp Require Import gmap.
#[local] Open Scope Z_scope.

Inductive ApiError :=
| RateLimited
| Unauthorized (why : string)
| NotFound
| BadRequest (why : string)
| MarketInactive
| InsufficientMargin (free required : string)
| InvalidSignature
| PostOnlyWouldCross
| Internal (why : string).

Definition error_code (e : ApiError) : string :=
  match e with
  | RateLimited => "RATE_LIMITED"
  | Unauthorized _ => "UNAUTHORIZED"
  | NotFound => "NOT_FOUND"
  | BadRequest _ => "BAD_REQUEST"
  | MarketInactive => "MARKET_INACTIVE"
  | InsufficientMargin _ _ => "INSUFFICIENT_MARGIN"
  | InvalidSignature => "INVALID_SIGNATURE"
  | PostOnlyWouldCross => "POST_ONLY_WOULD_CROSS"
  | Internal _ => "INTERNAL"
  end.

Definition error_status (e : ApiError) : Z :=
  match e with
  | RateLimited => 429
  | Unauthorized _ => 401
  | NotFound => 404
  | BadRequest _ => 400
  | MarketInactive => 400
  | InsufficientMargin _ _ => 403
  | InvalidSignature => 401
  | PostOnlyWouldCross => 400
  | Internal _ => 500
  end.

Record PlaceOrderRequest := mkPlaceOrder {
  pl_market_id : string; pl_side : string; pl_order_type : string; pl_price : option string; pl_qty : string;
  pl_time_in_force : string; pl_reduce_only : bool; pl_post_only : bool; pl_client_order_id : option string;
  pl_nonce : string; pl_signature : string
}.

Record PlaceOrderResponse := mkPlaced { por_order_id : string; por_status : string; por_ts_ns : string }.
Record CancelOrderResponse := mkCancelled { cor_order_id : string; cor_status : string }.

Section Handlers.
Context `{D : Decimals}.
Variables (now_ns : nat -> Z) (ulid : nat -> string).
Variable order_iter : gmap string (list OpenOrder) -> list (string * list OpenOrder).

(** Balances and fees are whole numbers of micro-dollars, which [to_string] and
    [normalize().to_string()] print alike. *)
Definition to_usdc6 (dollars : Decimal) : string := d_show (d_trunc (dollars * d_1e6)%dec).

Definition adjust_vault (address : string) (delta_dollars : Decimal) (st : Edge) : Edge :=
  if d_is_zero delta_dollars then st
  else
    let current := d_parse_or_zero (vault_balance address st) in
    let delta_raw := d_trunc (delta_dollars * d_1e6)%dec in
    let next := (current + delta_raw)%dec in
    let next := if d_lt next d_zero then d_zero else next in
    set_vault_balance address (d_show next) st.

(** The checks of [place_order] up to the risk gate: the quantity and the price. *)
Definition validate (req : PlaceOrderRequest) (st : Edge) : ApiError + (Decimal * option Decimal) :=
  match market (pl_market_id req) st with
  | None => inl MarketInactive
  | Some _ =>
      if negb (String.eqb (pl_side req) "buy") && negb (String.eqb (pl_side req) "sell") then
        inl (BadRequest "side must be buy or sell")
      else if negb (String.eqb (pl_order_type req) "limit") && negb (String.eqb (pl_order_type req) "market") then
        inl (BadRequest "type must be limit or market")
      else if negb (String.eqb (pl_time_in_force req) "gtc" || String.eqb (pl_time_in_force req) "ioc"
                    || String.eqb (pl_time_in_force req) "fok") then
        inl (BadRequest "invalid timeInForce")
      else if negb (startsWith "0x" (pl_signature req)) || (String.length (pl_signature req) <? 132)%nat then
        inl InvalidSignature
      else if String.eqb (pl_order_type req) "limit" && bool_decide (pl_price req = None) then
        inl (BadRequest "limit requires price")
      else
        match d_parse (pl_qty req) with
        | None => inl (BadRequest "invalid qty")
        | Some taker_qty =>
            if d_is_zero taker_qty then inl (BadRequest "qty must be > 0")
            else if String.eqb (pl_order_type req) "limit" then
              match d_parse (default "" (pl_price req)) with
              | None => inl (BadRequest "invalid price")
              | Some p => inr (taker_qty, Some p)
              end
            else inr (taker_qty, None)
        end
  end.

(** The risk gate, which [reduce_only] orders skip: [None] lets the order through.
    The amounts in the message of the leverage check are shown without the
    trailing zeros the source prints. *)
Definition risk_gate (user : string) (req : PlaceOrderRequest) (taker_qty : Decimal)
  (taker_price : option Decimal) (st : Edge) : option ApiError :=
  if pl_reduce_only req then None
  else
    match market (pl_market_id req) st with
    | None => Some MarketInactive
    | Some m =>
        let ref_price :=
          match taker_price with
          | Some p => p
          | None => (d_parse_or_zero (mi_index_price_x18 m) / d_1e18)%dec
          end in
        let notional := (taker_qty * ref_price)%dec in
        let im_ratio := (d_of_Z (mi_im_ratio_bps m) / d_1e4)%dec in
        let required_im := (notional * im_ratio)%dec in
        let summary := account_summary user st in
        let free := (d_parse_or_zero (pr_free_collateral_usdc summary) / d_1e6)%dec in
        if d_lt free required_im then
          Some (InsufficientMargin (d_show (d_trunc (free * d_1e6)%dec)) (d_show (d_trunc (required_im * d_1e6)%dec)))
        else
          let collateral := (d_parse_or_zero (pr_collateral_usdc summary) / d_1e6)%dec in
          let max_notional := (d_of_Z (mi_max_leverage m) * collateral)%dec in
          if d_lt max_notional notional then
            Some (BadRequest ("order notional " +:+ d_show notional +:+ " exceeds "
                              +:+ show_Z (mi_max_leverage m) +:+ "x max leverage (collateral "
                              +:+ d_show collateral +:+ ")"))
          else None
    end.

(** One match: the two fills, the fee and the rebate, the trade, the two positions. *)
Definition settle_match (user market_id taker_side order_id : string) (taker_fee_bps maker_rebate_bps : Z)
  (st : Edge) (m : MatchedFill) : Edge :=
  let maker_side := opp_side taker_side in
  let price_str := d_show (mf_price m) in
  let qty_str := d_show (mf_qty m) in
  let ts_str := show_Z (mf_ts_ns m) in
  let notional := (mf_qty m * mf_price m)%dec in
  let taker_fee := (notional * d_of_Z taker_fee_bps / d_1e4)%dec in
  let maker_rebate := (notional * d_of_Z maker_rebate_bps / d_1e4)%dec in
  let st := record_fill user
    (mkFillInfo ("fil_" +:+ ulid (e_ticks st)) order_id market_id taker_side price_str qty_str
       (to_usdc6 taker_fee) "taker" ts_str "") st in
  let st := tick st in
  let st := record_fill (mf_maker_address m)
    (mkFillInfo ("fil_" +:+ ulid (e_ticks st)) (mf_maker_order_id m) market_id maker_side price_str qty_str
       (to_usdc6 (d_neg maker_rebate)) "maker" ts_str "") st in
  let st := tick st in
  let st := adjust_vault user (d_neg taker_fee) st in
  let st := adjust_vault (mf_maker_address m) maker_rebate st in
  let st := record_trade market_id
    (mkPublicTrade ("trd_" +:+ ulid (e_ticks st)) market_id price_str qty_str taker_side ts_str) st in
  let st := tick st in
  let st := upsert_position now_ns user market_id taker_side (mf_qty m) (mf_price m) st in
  upsert_position now_ns (mf_maker_address m) market_id maker_side (mf_qty m) (mf_price m) st.

Definition d_sum (l : list Decimal) : Decimal := foldl d_add d_zero l.

(** The whole of [place_order] after its checks. *)
Definition execute_order (user : string) (req : PlaceOrderRequest) (taker_qty : Decimal)
  (taker_price : option Decimal) (order_id ts_ns : string) (st : Edge) : PlaceOrderResponse * Edge :=
  let '(matches, st) :=
    match_taker now_ns order_iter (pl_market_id req) (pl_side req) taker_price taker_qty user st in
  let filled_qty := d_sum (map mf_qty matches) in
  let taker_remaining := (taker_qty - filled_qty)%dec in
  let '(taker_fee_bps, maker_rebate_bps) :=
    match market (pl_market_id req) st with
    | Some m => (mi_taker_fee_bps m, mi_maker_rebate_bps m)
    | None => (0, 0)
    end in
  let st :=
    foldl (settle_match user (pl_market_id req) (pl_side req) order_id taker_fee_bps maker_rebate_bps)
      st matches in
  let st :=
    if negb (d_is_zero taker_remaining) && String.eqb (pl_order_type req) "limit" then
      add_open_order order_iter user
        (mkOpenOrder order_id (pl_market_id req) (pl_side req) (pl_order_type req) (default "0" (pl_price req))
           (pl_qty req) (d_show taker_remaining) ts_ns (pl_client_order_id req)) st
    else st in
  let status :=
    match matches with
    | [] => "accepted"
    | _ => if d_is_zero taker_remaining then "filled" else "partial"
    end in
  (mkPlaced order_id status ts_ns, st).

Definition place_order (user : string) (req : PlaceOrderRequest) (st : Edge)
  : (ApiError + PlaceOrderResponse) * Edge :=
  match validate req st with
  | inl e => (inl e, st)
  | inr (taker_qty, taker_price) =>
      match risk_gate user req taker_qty taker_price st with
      | Some e => (inl e, st)
      | None =>
          let order_id := "ord_" +:+ ulid (e_ticks st) in
          let st := tick st in
          let ts_ns := show_Z (now_ns (e_ticks st)) in
          let st := tick st in
          if pl_post_only req
             && d_lt d_zero (match_taker_probe order_iter (pl_market_id req) (pl_side req) taker_price taker_qty
                               user st)
          then (inl (BadRequest "post_only order would cross resting liquidity"), st)
          else
            let '(resp, st) := execute_order user req taker_qty taker_price order_id ts_ns st in
            (inr resp, st)
      end
  end.

Definition handle_cancel (user order_id : string) (st : Edge) : CancelOrderResponse * Edge :=
  let '(_, st) := cancel_order order_iter user order_id st in
  (mkCancelled order_id "cancelled", st).

(** GET /v1/positions and /v1/account/balance seed a development vault first. *)
Definition list_positions (user : string) (st : Edge) : PositionsResponse * Edge :=
  let st := seed_dev_vault user st in (account_summary user st, st).

Definition get_balance (user : string) (st : Edge) : string * Edge :=
  let st := seed_dev_vault user st in (vault_balance user st, st).

(** [check_admin]: the secret of the environment, [None] when unset, and of the header. *)
Definition check_admin (want got : option string) : option ApiError :=
  match want with
  | None => Some (Unauthorized "admin endpoints disabled (PERPLEX_ADMIN_SECRET unset)")
  | Some w =>
      if String.eqb w "" then Some (Unauthorized "admin endpoints disabled (PERPLEX_ADMIN_SECRET unset)")
      else if String.eqb (default "" got) w then None
      else Some (Unauthorized "invalid admin secret")
  end.

Definition liquidate (want got : option string) (address market_id : string) (st : Edge)
  : (ApiError + LiquidationOutcome) * Edge :=
  match check_admin want got with
  | Some e => (inl e, st)
  | None =>
      match liquidate_position now_ns ulid address market_id st with
      | (Some o, st') => (inr o, st')
      | (None, st') => (inl (BadRequest "position not found or not liquidatable"), st')
      end
  end.

(** ** Histories *)

Inductive Call :=
| PlaceOrder (user : string) (req : PlaceOrderRequest)
| CancelOrder (user order_id : string)
| ListPositions (user : string)
| GetBalance (user : string)
| OraclePrice (market_id price_x18 : string)
| IssueNonce (address : string)
| SetVault (address amount : string)
| Liquidate (address market_id : string).     (* by an authorised keeper *)

Definition call (st : Edge) (c : Call) : Edge :=
  match c with
  | PlaceOrder user req => (place_order user req st).2
  | CancelOrder user oid => (handle_cancel user oid st).2
  | ListPositions user => (list_positions user st).2
  | GetBalance user => (get_balance user st).2
  | OraclePrice m p => set_oracle_price m p st
  | IssueNonce a => (issue_siwe_nonce ulid a st).2
  | SetVault a amount => set_vault_balance a amount st
  | Liquidate a m => (liquidate_position now_ns ulid a m st).2
  end.

Definition is_liquidation (c : Call) : bool := match c with Liquidate _ _ => true | _ => false end.

Definition calls (st : Edge) (cs : list Call) : Edge := foldl call st cs.

End Handlers.
