(* ===== verification/EdgeLedger.v ===== *)
(** * The edge server's ledger: positions and vaults

    Every fill has a buyer and a seller, so over any history of requests the
    positions of a market sum to zero; the vaults move by fees alone. *)

From S2P Require Import Prelude JsNum JsText JsColl EdgeDecimal EdgeState EdgeHandlers.
From stdpp Require Import gmap.
#[local] Open Scope Z_scope.

(** ** Sums over a map *)

Definition gsum {V} (f : V -> Z) (m : gmap string V) : Z := zsum (fun kv => f kv.2) (map_to_list m).

Lemma gsum_empty {V} (f : V -> Z) : gsum f ∅ = 0.
Proof. unfold gsum. by rewrite map_to_list_empty. Qed.

Lemma gsum_insert_new {V} (f : V -> Z) k v (m : gmap string V) :
  m !! k = None -> gsum f (<[k := v]> m) = f v + gsum f m.
Proof. intros H. unfold gsum. by rewrite map_to_list_insert. Qed.

Lemma gsum_insert {V} (f : V -> Z) k v (m : gmap string V) :
  gsum f (<[k := v]> m) = gsum f m + f v - match m !! k with Some old => f old | None => 0 end.
Proof.
  destruct (m !! k) as [old|] eqn:E; [|rewrite gsum_insert_new by done; lia].
  rewrite <- (insert_delete_id m k old E) at 2. rewrite <- insert_delete_eq.
  rewrite !gsum_insert_new by apply lookup_delete_eq. lia.
Qed.

Section Ledger.
Context `{D : Decimals} {L : DecimalLaws}.
Variables (now_ns : nat -> Z) (ulid : nat -> string).
Variable order_iter : gmap string (list OpenOrder) -> list (string * list OpenOrder).

(** ** Positions sum to zero *)

Definition size_units (p : PositionInfo) : Z := units (d_parse_or_zero (po_size p)).

(** Longs count positive, shorts negative. *)
Definition signed (p : PositionInfo) : Z :=
  if String.eqb (po_side p) "long" then size_units p else - size_units p.

Definition account_net (market_id : string) (l : list PositionInfo) : Z :=
  zsum (fun p => if in_market market_id p then signed p else 0) l.

Definition net (market_id : string) (st : Edge) : Z := gsum (account_net market_id) (e_positions st).

Definition sided (p : PositionInfo) : Prop := po_side p = "long" \/ po_side p = "short".
Definition all_sided (ps : gmap string (list PositionInfo)) : Prop :=
  forall a l, ps !! a = Some l -> Forall sided l.

(** The direction of an order side. *)
Definition dir (order_side : string) : Z := if String.eqb order_side "buy" then 1 else -1.
Definition side_dir (side : string) : Z := if String.eqb side "long" then 1 else -1.

Lemma signed_dir p : signed p = side_dir (po_side p) * size_units p.
Proof. unfold signed, side_dir. case_match; lia. Qed.

Lemma fill_position_signed p side qty price ts :
  sided p -> side = "long" \/ side = "short" ->
  match fill_position p side qty price ts with Some p' => signed p' | None => 0 end
    = signed p + side_dir side * units qty.
Proof.
  intros Hp Hs. unfold fill_position.
  assert (Hopp : po_side p <> side -> side_dir (po_side p) = - side_dir side).
  { destruct Hp as [-> | ->], Hs as [-> | ->]; done. }
  rewrite (signed_dir p). fold (size_units p).
  destruct (String.eqb_spec (po_side p) side) as [Heq|Hne].
  - rewrite signed_dir. unfold size_units at 1. cbn [po_side po_size with_size].
    rewrite units_show, units_add. fold (size_units p). rewrite Heq. lia.
  - rewrite (Hopp Hne). unfold d_lt, d_eq. fold (size_units p).
    destruct (Z.ltb_spec (units qty) (size_units p)) as [Hlt|Hge];
      [|destruct (Z.eqb_spec (units qty) (size_units p)) as [Hz|Hz]; [rewrite Hz; lia|]];
      rewrite signed_dir; unfold size_units at 1; cbn [po_side po_size with_size];
      rewrite units_show, units_sub; fold (size_units p); rewrite ?(Hopp Hne); lia.
Qed.

Lemma fill_position_same p side qty price ts p' :
  fill_position p side qty price ts = Some p' ->
  po_market_id p' = po_market_id p /\ (po_side p' = po_side p \/ po_side p' = side).
Proof. unfold fill_position. repeat case_match; intros [= <-]; auto. Qed.

Lemma account_net_cons m p l : account_net m (p :: l) = (if in_market m p then signed p else 0) + account_net m l.
Proof. done. Qed.

Lemma fill_positions_net m m' side qty price ts l :
  Forall sided l -> side = "long" \/ side = "short" ->
  account_net m' (fill_positions m side qty price ts l)
    = account_net m' l + (if String.eqb m m' then side_dir side * units qty else 0).
Proof.
  intros Hl Hs. induction Hl as [|p l Hp Hl IH].
  - cbn [fill_positions]. rewrite account_net_cons. unfold in_market. cbn [po_market_id fresh_position].
    case_match; [|by unfold account_net]. rewrite signed_dir. unfold size_units.
    cbn [po_side po_size fresh_position]. rewrite units_show. unfold account_net. simpl. lia.
  - cbn [fill_positions]. rewrite account_net_cons. destruct (in_market m p) eqn:Hm.
    + unfold in_market in *. apply String.eqb_eq in Hm. rewrite Hm.
      pose proof (fill_position_signed p side qty price ts Hp Hs) as Hf.
      destruct (fill_position p side qty price ts) as [p'|] eqn:E.
      * rewrite account_net_cons. unfold in_market.
        rewrite (proj1 (fill_position_same _ _ _ _ _ _ E)), Hm. case_match; lia.
      * case_match; lia.
    + rewrite account_net_cons, IH. lia.
Qed.

Lemma fill_positions_sided m side qty price ts l :
  Forall sided l -> side = "long" \/ side = "short" -> Forall sided (fill_positions m side qty price ts l).
Proof.
  intros Hl Hs. induction Hl as [|p l Hp Hl IH]; cbn [fill_positions];
    [by constructor; [exact Hs|constructor]|].
  case_match; [|by constructor]. destruct (fill_position p side qty price ts) as [p'|] eqn:E; [|done].
  constructor; [|done]. unfold sided in *. destruct (fill_position_same _ _ _ _ _ _ E) as [_ [-> | ->]]; auto.
Qed.

Lemma order_side_sided (s : string) : (if String.eqb s "buy" then "long" else "short") = "long"
  \/ (if String.eqb s "buy" then "long" else "short") = "short".
Proof. case_match; auto. Qed.

Lemma side_dir_order s : side_dir (if String.eqb s "buy" then "long" else "short") = dir s.
Proof. unfold dir. by case_match. Qed.

Lemma dir_opp s : dir (opp_side s) = - dir s.
Proof. unfold dir, opp_side. by destruct (String.eqb s "buy"). Qed.

Lemma upsert_positions a m s qty price st :
  e_positions (upsert_position now_ns a m s qty price st)
    = alter_default (fill_positions m (if String.eqb s "buy" then "long" else "short") qty price
                       (show_Z (now_ns (e_ticks st)))) a (e_positions st).
Proof. done. Qed.

Lemma upsert_net a m m' s qty price st :
  all_sided (e_positions st) ->
  net m' (upsert_position now_ns a m s qty price st)
    = net m' st + (if String.eqb m m' then dir s * units qty else 0).
Proof.
  intros Hs. unfold net. rewrite upsert_positions. unfold alter_default. rewrite gsum_insert.
  rewrite fill_positions_net; [|destruct (e_positions st !! a) eqn:E; simpl; [by eapply Hs|constructor]
                               |apply order_side_sided].
  rewrite side_dir_order. destruct (e_positions st !! a); unfold default, id; [lia|].
  change (account_net m' []) with 0. lia.
Qed.

Lemma upsert_sided a m s qty price st :
  all_sided (e_positions st) -> all_sided (e_positions (upsert_position now_ns a m s qty price st)).
Proof.
  intros Hs a' l. rewrite upsert_positions. unfold alter_default.
  destruct (decide (a = a')) as [<-|Hne].
  - rewrite fin_maps.lookup_insert_eq. intros [= <-].
    apply fill_positions_sided; [|apply order_side_sided].
    destruct (e_positions st !! a) eqn:E; simpl; [by eapply Hs|constructor].
  - rewrite lookup_insert_ne by done. apply Hs.
Qed.

(** ** What leaves positions and vaults alone *)

Lemma sync_makers_frame filled st :
  e_positions (sync_makers filled st) = e_positions st
  /\ e_vault_balances (sync_makers filled st) = e_vault_balances st
  /\ e_open_orders (sync_makers filled st) = e_open_orders st.
Proof.
  unfold sync_makers. generalize (touched filled). intros l. revert st.
  induction l as [|a l IH]; intros st; [done|]. simpl. by rewrite !(proj1 (IH _)), !(proj1 (proj2 (IH _))), !(proj2 (proj2 (IH _))).
Qed.

Lemma rebuild_frame m st :
  e_positions (rebuild_orderbook order_iter m st) = e_positions st
  /\ e_vault_balances (rebuild_orderbook order_iter m st) = e_vault_balances st
  /\ e_open_orders (rebuild_orderbook order_iter m st) = e_open_orders st.
Proof. unfold rebuild_orderbook. by destruct (foldl _ _ _). Qed.

Lemma match_taker_frame m s tp q a st :
  e_positions (match_taker now_ns order_iter m s tp q a st).2 = e_positions st
  /\ e_vault_balances (match_taker now_ns order_iter m s tp q a st).2 = e_vault_balances st.
Proof.
  unfold match_taker. cbv zeta. cbn [snd].
  match goal with |- context [sync_makers ?f ?x] => destruct (sync_makers_frame f x) as (-> & -> & _) end.
  match goal with |- context [rebuild_orderbook _ ?m ?x] => destruct (rebuild_frame m x) as (-> & -> & _) end.
  done.
Qed.

Lemma add_open_order_frame a o st :
  e_positions (add_open_order order_iter a o st) = e_positions st
  /\ e_vault_balances (add_open_order order_iter a o st) = e_vault_balances st.
Proof.
  unfold add_open_order. cbv zeta.
  match goal with |- context [rebuild_orderbook _ ?m ?x] => destruct (rebuild_frame m x) as (-> & -> & _) end.
  done.
Qed.

Lemma cancel_frame a oid st :
  e_positions (cancel_order order_iter a oid st).2 = e_positions st
  /\ e_vault_balances (cancel_order order_iter a oid st).2 = e_vault_balances st.
Proof.
  unfold cancel_order.
  destruct (oo_market_id <$> _) as [m|]; destruct (e_open_orders st !! a); cbn [snd]; try case_match; cbn [snd];
    try match goal with |- context [rebuild_orderbook _ ?m ?x] => destruct (rebuild_frame m x) as (-> & -> & _) end;
    done.
Qed.

Lemma seed_positions a st : e_positions (seed_dev_vault a st) = e_positions st.
Proof. unfold seed_dev_vault. by repeat case_match. Qed.

Lemma adjust_positions a d st : e_positions (adjust_vault a d st) = e_positions st.
Proof. unfold adjust_vault. by case_match. Qed.

(** ** A fill *)

Definition balanced (st : Edge) : Prop := all_sided (e_positions st) /\ forall m, net m st = 0.

Lemma balanced_positions st st' : e_positions st' = e_positions st -> balanced st -> balanced st'.
Proof. unfold balanced, net. by intros ->. Qed.

Lemma settle_match_positions user m s oid f r st x :
  exists st', e_positions st' = e_positions st /\
    e_positions (settle_match now_ns ulid user m s oid f r st x)
    = e_positions (upsert_position now_ns (mf_maker_address x) m (opp_side s) (mf_qty x) (mf_price x)
                     (upsert_position now_ns user m s (mf_qty x) (mf_price x) st')).
Proof.
  unfold settle_match. cbv zeta. eexists. split; [|reflexivity].
  unfold record_trade. cbn [tick e_positions set_public_trades emit set_persist].
  rewrite !adjust_positions. done.
Qed.

Lemma settle_match_balanced user m s oid f r st x :
  balanced st -> balanced (settle_match now_ns ulid user m s oid f r st x).
Proof.
  intros Hb. destruct (settle_match_positions user m s oid f r st x) as (st' & Hp & Hs).
  eapply balanced_positions; [exact Hs|]. destruct (balanced_positions st st' Hp Hb) as [Hsd Hn].
  split; [by do 2 apply upsert_sided|]. intros m'.
  rewrite !upsert_net by auto using upsert_sided. rewrite Hn, dir_opp. case_match; lia.
Qed.

Lemma settle_matches_balanced user m s oid f r ms st :
  balanced st -> balanced (foldl (settle_match now_ns ulid user m s oid f r) st ms).
Proof. revert st. induction ms as [|x ms IH]; intros st Hb; [done|]. simpl. by apply IH, settle_match_balanced. Qed.

Lemma execute_balanced user req q tp oid ts st :
  balanced st -> balanced (execute_order now_ns ulid order_iter user req q tp oid ts st).2.
Proof.
  intros Hb. unfold execute_order.
  pose proof (match_taker_frame (pl_market_id req) (pl_side req) tp q user st) as [Hmp _].
  destruct (match_taker _ _ _ _ _ _ _ _) as [ms st1]. cbn [snd] in Hmp.
  assert (Hb1 : balanced st1) by (by eapply balanced_positions).
  destruct (match market _ _ with Some _ => _ | None => _ end) as [f r]. cbn [snd].
  assert (Hb2 := settle_matches_balanced user (pl_market_id req) (pl_side req) oid f r ms st1 Hb1).
  case_match; [|exact Hb2]. eapply balanced_positions; [|exact Hb2]. apply add_open_order_frame.
Qed.

Lemma place_balanced user req st :
  balanced st -> balanced (place_order now_ns ulid order_iter user req st).2.
Proof.
  intros Hb. unfold place_order. destruct (validate req st) as [e|[q tp]]; [done|].
  destruct (risk_gate user req q tp st); [done|]. case_match; [done|].
  pose proof (execute_balanced user req q tp ("ord_" +:+ ulid (e_ticks st))
                (show_Z (now_ns (e_ticks (tick st)))) (tick (tick st)) Hb) as H'.
  by destruct (execute_order _ _ _ _ _ _ _ _ _).
Qed.

Lemma call_balanced st c : is_liquidation c = false -> balanced st -> balanced (call now_ns ulid order_iter st c).
Proof.
  intros Hc Hb. destruct c as [user req|user oid|user|user|m p|a|a amount|a m]; simpl; [..|done].
  - by apply place_balanced.
  - unfold handle_cancel. pose proof (cancel_frame user oid st) as [Hp _].
    destruct (cancel_order _ _ _ _). by eapply balanced_positions.
  - eapply balanced_positions; [apply seed_positions|done].
  - eapply balanced_positions; [apply seed_positions|done].
  - exact Hb.
  - exact Hb.
  - exact Hb.
Qed.

Definition no_liquidation (cs : list Call) : bool := forallb (fun c => negb (is_liquidation c)) cs.

Lemma calls_balanced dev persist cs : no_liquidation cs = true -> balanced (calls now_ns ulid order_iter (new_edge dev persist) cs).
Proof.
  intros Hc.
  assert (Hb : forall st, balanced st -> balanced (calls now_ns ulid order_iter st cs)).
  { unfold no_liquidation in Hc. induction cs as [|c cs IH]; intros st Hst; [done|]. simpl in Hc. bool_to_prop.
    apply IH; [done|]. by apply call_balanced. }
  apply Hb. split; [|intros; apply gsum_empty].
  intros a l H'. change ((∅ : gmap string (list PositionInfo)) !! a = Some l) in H'. by rewrite lookup_empty in H'.
Qed.

(** C5: Positions are conserved: over any history of requests on a fresh
    server without liquidations (orders of any side, size, sign and flags,
    cancels, reads, price updates, from any accounts), the signed sizes of each market's positions
    sum to zero, whatever order the hash map of resting orders is walked in. *)
Theorem edge_positions_zero_sum dev persist cs market_id :
  no_liquidation cs = true -> net market_id (calls now_ns ulid order_iter (new_edge dev persist) cs) = 0.
Proof. intros Hc. by apply calls_balanced. Qed.

(** ** Liquidation *)

Lemma account_net_filter m l : account_net m (List.filter (fun p => negb (in_market m p)) l) = 0.
Proof.
  induction l as [|p l IH]; [done|]. cbn [List.filter]. destruct (in_market m p) eqn:E; cbn [negb]; [done|].
  rewrite account_net_cons, E, IH. done.
Qed.

Lemma liquidate_positions a m st o st' :
  liquidate_position now_ns ulid a m st = (Some o, st') ->
  e_positions st' = <[a := List.filter (fun p => negb (in_market m p)) (positions_for a st)]> (e_positions st).
Proof.
  unfold liquidate_position. destruct (List.find _ _) as [pos|]; [|done].
  destruct (position_health a pos st) as [h|]; [|done]. case_match; [done|].
  destruct (d_parse (po_size pos)); [|done]. destruct (liq_inputs pos st) as [[[mark c] mm]|]; [|done].
  by intros [= _ <-].
Qed.

(** A liquidation closes one side of the market only: after it, the
    positions of the market no longer sum to zero; they are off by exactly
    the position that was removed, whose counterparties keep theirs. *)
Theorem edge_liquidation_unbalances dev persist cs a m o st' :
  no_liquidation cs = true ->
  liquidate_position now_ns ulid a m (calls now_ns ulid order_iter (new_edge dev persist) cs) = (Some o, st') ->
  net m st' = - account_net m (positions_for a (calls now_ns ulid order_iter (new_edge dev persist) cs)).
Proof.
  set (st := calls _ _ _ _ cs). intros Hc Hl.
  assert (Hz : net m st = 0) by (by apply calls_balanced).
  unfold net in *. rewrite (liquidate_positions _ _ _ _ _ Hl), gsum_insert, account_net_filter, Hz.
  unfold positions_for. destruct (e_positions st !! a); unfold default, id; [lia|].
  by change (account_net m []) with 0.
Qed.

End Ledger.
