(* ===== verification/EdgeRisk.v ===== *)
(** * The edge server's vaults and its risk gate

    What moves collateral, and what the checks before an order let through. *)

From S2P Require Import Prelude JsNum JsText JsColl EdgeDecimal EdgeState EdgeHandlers EdgeLedger.
From stdpp Require Import gmap.
#[local] Open Scope Z_scope.

(** ** Vaults do not see positions *)

(** A state without its positions, and without the log of what was persisted. *)
Definition erase (st : Edge) : Edge := set_persist None (set_position_map ∅ st).

Lemma erase_idem st : erase (erase st) = erase st.
Proof. done. Qed.

Lemma erase_emit ev st : erase (emit ev st) = erase st.
Proof. done. Qed.

Section Vaults.
Context `{D : Decimals}.
Variables (now_ns : nat -> Z) (ulid : nat -> string).
Variable order_iter : gmap string (list OpenOrder) -> list (string * list OpenOrder).

Lemma erase_upsert a m s q p st : erase (upsert_position now_ns a m s q p st) = tick (erase st).
Proof. done. Qed.

Lemma erase_adjust a d st : erase (adjust_vault a d st) = adjust_vault a d (erase st).
Proof. unfold adjust_vault. case_match; done. Qed.

Lemma erase_rebuild m st : erase (rebuild_orderbook order_iter m st) = rebuild_orderbook order_iter m (erase st).
Proof. unfold rebuild_orderbook, all_orders. cbn [e_open_orders erase set_persist set_position_map]. by destruct (foldl _ _ _). Qed.

Lemma erase_sync filled st : erase (sync_makers filled st) = erase st.
Proof.
  unfold sync_makers. generalize (touched filled). intros l. revert st.
  induction l as [|a l IH]; intros st; [done|]. simpl. by rewrite IH.
Qed.

Lemma erase_match m s tp q a st :
  (match_taker now_ns order_iter m s tp q a st).1 = (match_taker now_ns order_iter m s tp q a (erase st)).1
  /\ erase (match_taker now_ns order_iter m s tp q a st).2 = erase (match_taker now_ns order_iter m s tp q a (erase st)).2.
Proof.
  split; [done|]. unfold match_taker. cbv zeta. cbn [snd]. rewrite !erase_sync, !erase_rebuild. done.
Qed.

Lemma erase_record_fill a f st : erase (record_fill a f st) = record_fill a f (erase st).
Proof. done. Qed.

Lemma erase_record_trade m t st : erase (record_trade m t st) = record_trade m t (erase st).
Proof. done. Qed.

Lemma erase_tick st : erase (tick st) = tick (erase st).
Proof. done. Qed.

Lemma erase_settle user m s oid f r st x :
  erase (settle_match now_ns ulid user m s oid f r st x)
    = erase (settle_match now_ns ulid user m s oid f r (erase st) x).
Proof.
  unfold settle_match. cbv zeta. rewrite !erase_upsert, !erase_tick, !erase_record_trade.
  assert (Ht : forall st0, e_ticks st0 = e_ticks (erase st0)) by done.
  match goal with |- tick (tick (tick (record_trade _ (mkPublicTrade (_ +:+ ulid (e_ticks ?y1)) _ _ _ _ _) _)))
    = tick (tick (tick (record_trade _ (mkPublicTrade (_ +:+ ulid (e_ticks ?y2)) _ _ _ _ _) _))) =>
    assert (He : erase y1 = erase y2); [|by rewrite (Ht y1), (Ht y2), He] end.
  by rewrite !erase_adjust, !erase_tick, !erase_record_fill.
Qed.

Lemma erase_settles user m s oid f r ms : forall st,
  erase (foldl (settle_match now_ns ulid user m s oid f r) st ms)
    = erase (foldl (settle_match now_ns ulid user m s oid f r) (erase st) ms).
Proof.
  induction ms as [|x ms IH]; intros st; [done|]. simpl. rewrite IH, erase_settle, <- IH. done.
Qed.

Lemma erase_execute user req q tp oid ts st :
  erase (execute_order now_ns ulid order_iter user req q tp oid ts st).2
    = erase (execute_order now_ns ulid order_iter user req q tp oid ts (erase st)).2.
Proof.
  unfold execute_order.
  pose proof (erase_match (pl_market_id req) (pl_side req) tp q user st) as [Hm He].
  destruct (match_taker _ _ _ _ _ _ _ st) as [ms st1].
  destruct (match_taker _ _ _ _ _ _ _ (erase st)) as [ms' st2]. cbn [fst snd] in Hm, He. subst ms'.
  assert (Hmk : market (pl_market_id req) st1 = market (pl_market_id req) st2).
  { change (market (pl_market_id req) (erase st1) = market (pl_market_id req) (erase st2)). by rewrite He. }
  rewrite Hmk. destruct (match market _ _ with Some _ => _ | None => _ end) as [f r]. cbn [snd].
  pose proof (erase_settles user (pl_market_id req) (pl_side req) oid f r ms st1) as H1.
  pose proof (erase_settles user (pl_market_id req) (pl_side req) oid f r ms st2) as H2.
  rewrite He, <- H2 in H1.
  case_match; [|exact H1]. unfold add_open_order. cbv zeta. rewrite !erase_rebuild. f_equal.
  set (x1 := foldl _ st1 ms) in *. set (x2 := foldl _ st2 ms) in *.
  change (set_open_orders (alter_default (fun l => l ++ [mkOpenOrder oid (pl_market_id req) (pl_side req)
    (pl_order_type req) (default "0" (pl_price req)) (pl_qty req) (d_show (q - d_sum (map mf_qty ms))%dec) ts
    (pl_client_order_id req)]) user (e_open_orders (erase x1))) (erase x1) =
    set_open_orders (alter_default (fun l => l ++ [mkOpenOrder oid (pl_market_id req) (pl_side req)
    (pl_order_type req) (default "0" (pl_price req)) (pl_qty req) (d_show (q - d_sum (map mf_qty ms))%dec) ts
    (pl_client_order_id req)]) user (e_open_orders (erase x2))) (erase x2)).
  by rewrite H1.
Qed.

(** Profit and loss never reach a vault: the balances after an order is
    executed do not depend on anyone's positions, so closing a position at a
    gain or at a loss pays what opening one does, the fees of the fills. *)
Theorem edge_vaults_ignore_positions user req qty price oid ts st positions :
  e_vault_balances (execute_order now_ns ulid order_iter user req qty price oid ts (set_position_map positions st)).2
    = e_vault_balances (execute_order now_ns ulid order_iter user req qty price oid ts st).2.
Proof.
  pose proof (erase_execute user req qty price oid ts st) as H1.
  pose proof (erase_execute user req qty price oid ts (set_position_map positions st)) as H2.
  change (erase (set_position_map positions st)) with (erase st) in H2. rewrite <- H1 in H2.
  exact (f_equal e_vault_balances H2).
Qed.

(** ** The gate *)

Context {L : DecimalLaws}.

Lemma summary_free_nonneg user st :
  0 <= units (d_parse_or_zero (pr_free_collateral_usdc (account_summary user st))).
Proof.
  unfold account_summary. destruct (foldl _ _ _) as [ps t]. cbn [pr_free_collateral_usdc].
  unfold scale_usdc6. rewrite units_show. apply trunc_nonneg, mul_nonneg.
  - unfold d_lt. destruct (Z.ltb_spec (units (collateral_dollars user st + tt_pnl t - tt_margin t)%dec) (units d_zero)) as [H|H];
      rewrite units_zero in *; lia.
  - apply units_of_Z_nonneg. lia.
Qed.

Lemma summary_collateral user st : pr_collateral_usdc (account_summary user st) = vault_balance user st.
Proof. unfold account_summary. by destruct (foldl _ _ _). Qed.

Lemma default_market_params m mi st : market m st = Some mi -> 0 <= mi_im_ratio_bps mi /\ 0 <= mi_max_leverage mi.
Proof.
  unfold market. destruct (default_markets !! m) as [mi0|] eqn:E; [|done].
  assert (H0 : 0 <= mi_im_ratio_bps mi0 /\ 0 <= mi_max_leverage mi0).
  { unfold default_markets in E.
    repeat (apply lookup_insert_Some in E as [[_ <-]|[_ E]]; [done|]). by rewrite lookup_empty in E. }
  cbn [fmap option_fmap option_map]. intros [= <-]. by case_match.
Qed.

(** ** Fees *)

Definition funds (a : string) (st : Edge) : Z := units (d_parse_or_zero (vault_balance a st)).

Lemma vault_balance_same a st st' : e_vault_balances st' = e_vault_balances st -> vault_balance a st' = vault_balance a st.
Proof. unfold vault_balance. by intros ->. Qed.

Lemma upsert_vaults a m s q p st : e_vault_balances (upsert_position now_ns a m s q p st) = e_vault_balances st.
Proof. unfold upsert_position, apply_position_fill, emit. by repeat case_match. Qed.

Lemma set_vault_lookup a b v st : vault_balance a (set_vault_balance b v st) = if decide (b = a) then v else vault_balance a st.
Proof.
  unfold vault_balance. change (e_vault_balances (set_vault_balance b v st)) with (<[b := v]> (e_vault_balances st)).
  case_decide; subst; [by rewrite fin_maps.lookup_insert_eq|by rewrite lookup_insert_ne].
Qed.

(** A number of dollars in the millionths a vault counts, rounded to zero. *)
Definition micro (dollars : Decimal) : Z := units (d_trunc (dollars * d_1e6)%dec).

(** A vault after an amount is added to it: never below zero. *)
Definition adjusted (dollars : Decimal) (v : Z) : Z :=
  if units dollars =? 0 then v else Z.max 0 (v + micro dollars).

Lemma micro_nonpos d : units d <= 0 -> micro d <= 0.
Proof. intros Hd. apply trunc_nonpos, mul_nonpos; [done|]. by apply units_of_Z_nonneg. Qed.

Lemma adjust_vault_funds a b delta st :
  funds a (adjust_vault b delta st) = if decide (b = a) then adjusted delta (funds a st) else funds a st.
Proof.
  unfold adjust_vault, adjusted, d_is_zero. destruct (units delta =? 0); [by case_decide|]. cbv zeta.
  unfold funds at 1. rewrite set_vault_lookup. case_decide as Hb; [subst b|done].
  rewrite units_show. unfold funds, micro, d_lt. rewrite units_zero.
  match goal with |- units (if ?x <? 0 then _ else _) = _ => destruct (Z.ltb_spec x 0) as [H|H] end;
    rewrite ?units_zero; rewrite units_add in *; lia.
Qed.

Lemma default_market_fees m mi st : market m st = Some mi -> 0 <= mi_taker_fee_bps mi /\ mi_maker_rebate_bps mi <= 0.
Proof.
  unfold market. destruct (default_markets !! m) as [mi0|] eqn:E; [|done].
  assert (H0 : 0 <= mi_taker_fee_bps mi0 /\ mi_maker_rebate_bps mi0 <= 0).
  { unfold default_markets in E.
    repeat (apply lookup_insert_Some in E as [[_ <-]|[_ E]]; [done|]). by rewrite lookup_empty in E. }
  cbn [fmap option_fmap option_map]. intros [= <-]. by case_match.
Qed.

(** C30: A fill charges both sides: in every market the server lists,
    settling a match of a non-negative quantity and price takes the fee from
    the taker's vault and the "rebate" from the maker's, each rounded to a
    millionth and never below zero, and touches no other vault.  The rebate of
    -2 basis points is a charge. *)
Theorem edge_fill_charges_both user m side oid mi st x a :
  market m st = Some mi -> 0 <= units (mf_qty x) -> 0 <= units (mf_price x) ->
  let notional := (mf_qty x * mf_price x)%dec in
  let fee := d_neg (notional * d_of_Z (mi_taker_fee_bps mi) / d_1e4)%dec in
  let rebate := (notional * d_of_Z (mi_maker_rebate_bps mi) / d_1e4)%dec in
  let st' := settle_match now_ns ulid user m side oid (mi_taker_fee_bps mi) (mi_maker_rebate_bps mi) st x in
  let paid := if decide (user = a) then adjusted fee (funds a st) else funds a st in
  micro fee <= 0 /\ micro rebate <= 0
  /\ funds a st' = if decide (mf_maker_address x = a) then adjusted rebate paid else paid.
Proof.
  intros Hm Hq Hp. cbv zeta. destruct (default_market_fees m mi st Hm) as [Ht Hr].
  assert (H4 : 0 < units d_1e4) by by apply units_of_Z_pos.
  assert (Hn : 0 <= units (mf_qty x * mf_price x)%dec) by by apply mul_nonneg.
  split; [|split].
  - apply micro_nonpos. rewrite units_neg.
    enough (0 <= units (mf_qty x * mf_price x * d_of_Z (mi_taker_fee_bps mi) / d_1e4)%dec) by lia.
    apply div_nonneg; [|done]. apply mul_nonneg; [done|]. by apply units_of_Z_nonneg.
  - apply micro_nonpos, div_nonpos; [|done]. apply mul_neg_r; [done|]. rewrite units_of_Z. lia.
  - unfold settle_match. cbv zeta. unfold funds at 1.
    rewrite (vault_balance_same a _ _ (upsert_vaults _ _ _ _ _ _)), (vault_balance_same a _ _ (upsert_vaults _ _ _ _ _ _)).
    match goal with |- context [tick (record_trade _ _ (adjust_vault ?b ?d (adjust_vault ?c ?e ?s)))] =>
      set (s0 := s); change (funds a (adjust_vault b d (adjust_vault c e s0)) = if decide (b = a) then adjusted d
        (if decide (c = a) then adjusted e (funds a s0) else funds a s0) else (if decide (c = a) then adjusted e (funds a s0) else funds a s0)) end.
    by rewrite !adjust_vault_funds.
Qed.

(** The gate lets any order of negative quantity through: whatever the
    account holds (a vault is never negative), a limit order with a negative
    quantity passes the margin and the leverage check, of whatever size. *)
Theorem edge_negative_qty_passes_gate user req qty price st :
  units qty < 0 -> 0 <= units price -> 0 <= units (d_parse_or_zero (vault_balance user st)) -> market (pl_market_id req) st <> None ->
  risk_gate user req qty (Some price) st = None.
Proof.
  intros Hq Hp Hv Hm.
  assert (H4 : 0 < units d_1e4) by by apply units_of_Z_pos. assert (H6 : 0 < units d_1e6) by by apply units_of_Z_pos.
  unfold risk_gate. destruct (pl_reduce_only req); [done|].
  destruct (market (pl_market_id req) st) as [mi|] eqn:E; [|done].
  destruct (default_market_params _ _ _ E) as [Him Hlev]. cbv zeta.
  assert (Hn : units (qty * price)%dec <= 0) by (apply mul_nonpos; lia).
  assert (Hr : units (qty * price * (d_of_Z (mi_im_ratio_bps mi) / d_1e4))%dec <= 0).
  { apply mul_nonpos; [exact Hn|]. apply div_nonneg; [by apply units_of_Z_nonneg|exact H4]. }
  pose proof (div_nonneg _ d_1e6 (summary_free_nonneg user st) H6) as Hf.
  unfold d_lt. destruct (Z.ltb_spec (units (d_parse_or_zero (pr_free_collateral_usdc (account_summary user st)) / d_1e6)%dec)
    (units (qty * price * (d_of_Z (mi_im_ratio_bps mi) / d_1e4))%dec)); [lia|].
  rewrite summary_collateral.
  assert (Hc : 0 <= units (d_of_Z (mi_max_leverage mi) * (d_parse_or_zero (vault_balance user st) / d_1e6))%dec).
  { apply mul_nonneg; [by apply units_of_Z_nonneg|]. by apply div_nonneg. }
  destruct (Z.ltb_spec (units (d_of_Z (mi_max_leverage mi) * (d_parse_or_zero (vault_balance user st) / d_1e6))%dec)
              (units (qty * price)%dec)); [lia|done].
Qed.

End Vaults.
