(* ===== verification/EdgeMatch.v ===== *)
(** * The edge server's matching

    [match_taker] against a reference: the crossing orders of the other
    accounts in price-time order, filled greedily.  Its read-only sibling
    computes the same total, so a post-only order that is accepted takes
    nothing and rests whole. *)

From S2P Require Import Prelude JsNum JsText JsColl EdgeDecimal EdgeState EdgeHandlers EdgeLedger.
From Stdlib Require Import Sorted.
From stdpp Require Import gmap sorting.
#[local] Open Scope Z_scope.

(** The ids of an account's orders are distinct. *)
Definition ids_unique (orders : gmap string (list OpenOrder)) : Prop :=
  forall a l, orders !! a = Some l -> NoDup (map oo_id l).

(** ** Accounts *)

Lemma find_order_in id o l : NoDup (map oo_id l) -> o ∈ l -> oo_id o = id -> find_order id l = Some o.
Proof.
  unfold find_order. intros Hnd Hin Hid. induction l as [|o' l IH]; [set_solver|].
  simpl in Hnd. apply NoDup_cons in Hnd as [Hni Hnd]. cbn [List.find]. unfold has_id at 1.
  apply elem_of_cons in Hin as [<-|Hin]; [by rewrite Hid, string_eqb_refl|].
  rewrite string_eqb_ne; [by apply IH|]. intros Heq. apply Hni. rewrite Heq, <- Hid.
  by apply (list_elem_of_fmap_2 oo_id l o).
Qed.

Lemma find_order_update id id' f l :
  (forall o, oo_id (f o) = oo_id o) ->
  find_order id (update_order id' f l)
    = if decide (id = id') then f <$> find_order id l else find_order id l.
Proof.
  intros Hf. unfold find_order. induction l as [|o l IH]; [by case_decide|].
  cbn [update_order]. destruct (has_id id' o) eqn:E; cbn [List.find]; unfold has_id in *.
  - apply String.eqb_eq in E. rewrite Hf, E. case_decide; subst.
    + by rewrite string_eqb_refl.
    + by rewrite !string_eqb_ne by congruence.
  - apply String.eqb_neq in E. rewrite IH. case_decide; subst; [by rewrite string_eqb_ne|]. by destruct (String.eqb _ _).
Qed.

(** ** The reference *)

Section Match.
Context `{D : Decimals} {L : DecimalLaws}.
Variable now_ns : nat -> Z.
Variable order_iter : gmap string (list OpenOrder) -> list (string * list OpenOrder).
Hypothesis order_iter_perm : forall m, order_iter m ≡ₚ map_to_list m.

(** What a fill says, with its quantity in units. *)
Definition fill_view : Type := string * string * Decimal * Z.
Definition view (f : MatchedFill) : fill_view :=
  (mf_maker_address f, mf_maker_order_id f, mf_price f, units (mf_qty f)).

(** Each order in turn gives what it has or what is still wanted. *)
Fixpoint greedy (wanted : Z) (cs : list Candidate) : list fill_view :=
  match cs with
  | [] => []
  | c :: cs' =>
      if wanted =? 0 then []
      else let t := Z.min wanted (units (ca_rem c)) in
           (ca_addr c, ca_id c, ca_price c, t) :: greedy (wanted - t) cs'
  end.

Lemma greedy_zero cs : greedy 0 cs = [].
Proof. by destruct cs. Qed.

(** The order a candidate was made from is in the book with its quantity. *)
Definition backed (orders : gmap string (list OpenOrder)) (c : Candidate) : Prop :=
  exists l o r, orders !! ca_addr c = Some l /\ find_order (ca_id c) l = Some o
    /\ d_parse (oo_remaining o) = Some r /\ units r = units (ca_rem c) /\ units (ca_rem c) <> 0.

Definition key (c : Candidate) : string * string := (ca_addr c, ca_id c).

Lemma backed_update orders c c' l r :
  backed orders c -> orders !! ca_addr c' = Some l -> key c <> key c' ->
  backed (<[ca_addr c' := update_order (ca_id c') (set_remaining r) l]> orders) c.
Proof.
  intros (l0 & o & rem & Hl & Ho & Hr) Hl' Hk. unfold key in Hk.
  destruct (decide (ca_addr c = ca_addr c')) as [Ha|Ha].
  - rewrite <- Ha in *. rewrite Hl in Hl'. injection Hl' as <-.
    eexists _, o, rem. rewrite fin_maps.lookup_insert_eq. split; [done|].
    rewrite find_order_update by done. rewrite decide_False by congruence. done.
  - exists l0, o, rem. by rewrite lookup_insert_ne by congruence.
Qed.

Lemma cross_candidate_backed c k :
  backed (cr_orders k) c -> d_is_zero (cr_remaining k) = false ->
  let t := Z.min (units (cr_remaining k)) (units (ca_rem c)) in
  exists q l r, units q = t
    /\ cr_filled (cross_candidate now_ns c k)
       = cr_filled k ++ [mkMatchedFill (ca_addr c) (ca_id c) (ca_price c) q (now_ns (cr_ticks k))]
    /\ units (cr_remaining (cross_candidate now_ns c k)) = units (cr_remaining k) - t
    /\ cr_orders k !! ca_addr c = Some l
    /\ cr_orders (cross_candidate now_ns c k)
       = <[ca_addr c := update_order (ca_id c) (set_remaining r) l]> (cr_orders k).
Proof.
  intros (l & o & r & Hl & Ho & Hr & Hu & Hnz) Hz. cbv zeta. unfold cross_candidate.
  rewrite Hz, Hl, Ho, Hr. assert (Hrz : d_is_zero r = false) by (apply Z.eqb_neq; congruence). rewrite Hrz.
  cbn [cr_filled cr_remaining cr_orders]. do 3 eexists. split; [|split; [reflexivity|split; [|split; [done|reflexivity]]]].
  - by rewrite d_min_units, Hu.
  - by rewrite units_sub, d_min_units, Hu.
Qed.

Lemma cross_zero cs : forall k, d_is_zero (cr_remaining k) = true -> foldl (fun k c => cross_candidate now_ns c k) k cs = k.
Proof. induction cs as [|c cs IH]; intros k Hz; [done|]. simpl. unfold cross_candidate at 2. rewrite Hz. by apply IH. Qed.

Lemma cross_greedy cs : forall k,
  Forall (backed (cr_orders k)) cs -> NoDup (map key cs) ->
  map view (cr_filled (foldl (fun k c => cross_candidate now_ns c k) k cs))
    = map view (cr_filled k) ++ greedy (units (cr_remaining k)) cs.
Proof.
  induction cs as [|c cs IH]; intros k Hb Hnd; [by rewrite app_nil_r|].
  apply Forall_cons in Hb as [Hc Hcs]. simpl in Hnd. apply NoDup_cons in Hnd as [Hni Hnd].
  cbn [greedy]. destruct (units (cr_remaining k) =? 0) eqn:Hz.
  - rewrite cross_zero by done. by rewrite app_nil_r.
  - simpl. destruct (cross_candidate_backed c k Hc Hz) as (q & l & r & Hq & Hf & Hrem & Hl & Ho).
    rewrite IH.
    + rewrite Hf, Hrem, map_app, <- app_assoc. cbn [map view mf_maker_address mf_maker_order_id mf_price mf_qty].
      unfold view at 2. cbn. by rewrite Hq.
    + rewrite Ho. rewrite Forall_forall in Hcs |- *. intros c' Hc'. eapply backed_update; [by apply Hcs|done|].
      intros Hk. apply Hni. rewrite <- Hk. by apply (list_elem_of_fmap_2 key).
    + done.
Qed.

(** ** The candidates *)

Lemma crosses_resting m s tp o p r : crosses m s tp o = Some (p, r) ->
  d_parse (oo_remaining o) = Some r /\ units r <> 0.
Proof.
  unfold crosses. case_match; [done|]. destruct (parse_nonzero (oo_price o)); [|done].
  unfold parse_nonzero. destruct (d_parse (oo_remaining o)) as [r'|]; [|done].
  destruct (d_is_zero r') eqn:E; [done|]. apply Z.eqb_neq in E. intros H'.
  assert (r' = r) as -> by (repeat case_match; congruence). done.
Qed.

Lemma elem_of_others a o taker st :
  (a, o) ∈ others order_iter taker st <->
  a <> taker /\ exists l, e_open_orders st !! a = Some l /\ o ∈ l.
Proof.
  unfold others. rewrite <- List.flat_map_concat_map, list_elem_of_In, in_flat_map. split.
  - intros [[a' l] [Hin Ho]]. apply filter_In in Hin as [Hin Hne]. apply list_elem_of_In in Ho.
    apply list_elem_of_fmap in Ho as [o' [[= -> ->] Ho]]. apply negb_true_iff, String.eqb_neq in Hne.
    split; [done|]. exists l. split; [|done]. apply elem_of_map_to_list. rewrite <- order_iter_perm. by apply list_elem_of_In.
  - intros [Hne [l [Hl Ho]]]. exists (a, l). split.
    + apply filter_In. split; [|by apply negb_true_iff, String.eqb_neq].
      apply list_elem_of_In. rewrite order_iter_perm. by apply elem_of_map_to_list.
    + apply list_elem_of_In, list_elem_of_fmap. eauto.
Qed.

Lemma candidate_backed m s tp taker st c :
  ids_unique (e_open_orders st) -> c ∈ omap (candidate m s tp) (others order_iter taker st) ->
  backed (e_open_orders st) c.
Proof.
  intros Hu Hc. apply list_elem_of_omap in Hc as [[a o] [Hin Hc]]. unfold candidate in Hc. cbn in Hc.
  destruct (crosses m s tp o) as [[p r]|] eqn:E; [|done]. injection Hc as <-.
  apply elem_of_others in Hin as [_ [l [Hl Ho]]]. destruct (crosses_resting _ _ _ _ _ _ E) as [Hr Hz].
  exists l, o, r. cbn. split_and!; try done. apply find_order_in; [by eapply Hu|done|done].
Qed.

Lemma omap_sublist {A B K} (f : A -> option B) (kb : B -> K) (ka : A -> K) (l : list A) :
  (forall x y, f x = Some y -> kb y = ka x) -> map kb (omap f l) `sublist_of` map ka l.
Proof.
  intros Hk. induction l as [|x l IH]; [constructor|]. cbn [omap list_omap]. destruct (f x) as [y|] eqn:E; cbn [map].
  - rewrite (Hk _ _ E). by constructor.
  - by constructor.
Qed.

Lemma NoDup_fmap_filter {A B} (f : A -> B) (p : A -> bool) (l : list A) :
  NoDup (f <$> l) -> NoDup (f <$> List.filter p l).
Proof.
  induction l as [|x l IH]; [done|]. rewrite fmap_cons. intros Hn. apply NoDup_cons in Hn as [Hni Hn].
  cbn [List.filter]. case_match; [|by apply IH]. rewrite fmap_cons. apply NoDup_cons. split; [|by apply IH].
  intros Hin. apply Hni. apply list_elem_of_fmap in Hin as [y [-> Hy]]. apply list_elem_of_fmap. exists y.
  split; [done|]. apply list_elem_of_In in Hy. apply filter_In in Hy as [Hy _]. by apply list_elem_of_In.
Qed.

Definition okey (ao : string * OpenOrder) : string * string := (ao.1, oo_id ao.2).

Lemma others_keys_unique (ls : list (string * list OpenOrder)) :
  NoDup ls.*1 -> Forall (fun al => NoDup (map oo_id al.2)) ls ->
  NoDup (map okey (concat (map (fun al => map (pair al.1) al.2) ls))).
Proof.
  induction ls as [|[a l] ls IH]; intros Hk Hl; [constructor|]. cbn [map concat fst snd].
  cbn [fmap list_fmap] in Hk. apply NoDup_cons in Hk as [Hni Hk]. apply Forall_cons in Hl as [Hl Hls].
  rewrite map_app. apply NoDup_app. split_and!.
  - rewrite map_map. cbn [okey fst snd]. simpl in Hl. clear -Hl.
    induction l as [|o l IHl]; [constructor|]. simpl in *. apply NoDup_cons in Hl as [Hni Hnd].
    apply NoDup_cons. split; [|by apply IHl]. intros Hin. apply list_elem_of_fmap in Hin as [o' [[= Ho] Hin]].
    apply Hni. rewrite Ho. by apply (list_elem_of_fmap_2 oo_id).
  - intros k Hk1 Hk2. apply Hni. apply list_elem_of_fmap in Hk1 as [[a1 o1] [-> H1]].
    apply list_elem_of_fmap in H1 as [o1' [[= -> ->] _]].
    apply list_elem_of_fmap in Hk2 as [[a2 o2] [[= Ha _] H2]]. cbn in Ha. subst a2.
    rewrite list_elem_of_In, <- flat_map_concat_map, in_flat_map in H2. destruct H2 as [[a3 l3] [H3 Ho]].
    apply list_elem_of_In, list_elem_of_fmap in Ho as [o' [[= -> ->] _]].
    apply list_elem_of_fmap. exists (a3, l3). split; [done|]. by apply list_elem_of_In.
  - by apply IH.
Qed.

Lemma candidates_unique m s tp taker st :
  ids_unique (e_open_orders st) -> NoDup (map key (omap (candidate m s tp) (others order_iter taker st))).
Proof.
  intros Hu. eapply sublist_NoDup; [|apply (omap_sublist _ key okey)].
  - unfold others. set (p := fun al : string * list OpenOrder => negb (String.eqb al.1 taker)).
    apply others_keys_unique.
    + assert (Hn : NoDup (order_iter (e_open_orders st)).*1).
      { rewrite order_iter_perm. apply NoDup_fst_map_to_list. }
      by apply NoDup_fmap_filter.
    + apply Forall_forall. intros [a l] Hin. apply list_elem_of_In, filter_In in Hin as [Hin _].
      apply list_elem_of_In in Hin. rewrite order_iter_perm in Hin. apply elem_of_map_to_list in Hin. by eapply Hu.
  - intros [a o] c Hc. unfold candidate in Hc. cbn in Hc. destruct (crosses m s tp o); [|done]. by injection Hc as <-.
Qed.

Lemma after_consistent s : gt_consistent (after s) (fun _ => True).
Proof.
  unfold after, d_lt, d_eq. destruct (String.eqb s "buy"); split.
  all: intros; rewrite ?orb_true_iff, ?orb_false_iff, ?andb_true_iff, ?andb_false_iff,
         ?Z.ltb_lt, ?Z.ltb_ge, ?Z.eqb_eq, ?Z.eqb_neq in *; lia.
Qed.

Lemma candidates_sorted m s tp taker st :
  StronglySorted (fun a b => after s a b = false) (candidates order_iter m s tp taker st).
Proof. eapply (js_sort_sorted (after s) (after_consistent s)). by apply Forall_forall. Qed.

Lemma match_taker_greedy m s tp q taker st :
  ids_unique (e_open_orders st) ->
  map view (match_taker now_ns order_iter m s tp q taker st).1
    = greedy (units q) (candidates order_iter m s tp taker st).
Proof.
  intros Hu. unfold match_taker. cbv zeta. cbn [fst]. rewrite cross_greedy; [done| |].
  - cbn [cr_orders]. apply Forall_forall. intros c Hc. unfold candidates in Hc. rewrite js_sort_perm in Hc.
    by eapply candidate_backed.
  - unfold candidates. rewrite (js_sort_perm (after s)). by apply candidates_unique.
Qed.

(** Best price for the taker first, oldest first within a price. *)
Definition price_time (taker_side : string) (a b : Candidate) : Prop :=
  let better := if String.eqb taker_side "buy" then units (ca_price a) < units (ca_price b)
                else units (ca_price b) < units (ca_price a) in
  better \/ (units (ca_price a) = units (ca_price b) /\ ca_ts a <= ca_ts b).

Lemma after_price_time s a b : after s a b = false -> price_time s a b.
Proof. unfold after, price_time, d_lt, d_eq. destruct (String.eqb s "buy"); lia. Qed.

(** C11: Matching is greedy in price-time order: the fills of a taker are the
    greedy fills of the crossing limit orders of the other accounts, best
    price first and oldest first within a price, however the hash map of
    accounts is walked. *)
Theorem edge_match_price_time m s tp q taker st :
  ids_unique (e_open_orders st) ->
  exists cs, cs ≡ₚ omap (candidate m s tp) (others order_iter taker st)
    /\ StronglySorted (price_time s) cs
    /\ map view (match_taker now_ns order_iter m s tp q taker st).1 = greedy (units q) cs.
Proof.
  intros Hu. exists (candidates order_iter m s tp taker st).
  split; [apply js_sort_perm | split; [|by apply match_taker_greedy]].
  induction (candidates_sorted m s tp taker st) as [|c cs _ IH Hc]; constructor; [exact IH|].
  eapply Forall_impl; [exact Hc|]. apply after_price_time.
Qed.

(** ** Totals, and the probe *)

Definition offered (cs : list Candidate) : Z := zsum (fun c => units (ca_rem c)) cs.

#[export] Instance offered_perm : Proper ((≡ₚ) ==> eq) offered.
Proof. intros l1 l2 Hp. by apply zsum_perm. Qed.

Lemma offered_nonneg cs : Forall (fun c => 0 < units (ca_rem c)) cs -> 0 <= offered cs.
Proof. induction 1; unfold offered in *; simpl; lia. Qed.

Lemma greedy_total cs : forall q, 0 <= q -> Forall (fun c => 0 < units (ca_rem c)) cs ->
  zsum (fun f => f.2) (greedy q cs) = Z.min q (offered cs).
Proof.
  induction cs as [|c cs IH]; intros q Hq Hc; [unfold offered; simpl; lia|].
  apply Forall_cons in Hc as [Hc Hcs]. pose proof (offered_nonneg cs Hcs). cbn [greedy].
  change (offered (c :: cs)) with (units (ca_rem c) + offered cs).
  destruct (Z.eqb_spec q 0); [subst; simpl; lia|].
  rewrite zsum_cons, IH; cbn [snd]; [lia|lia|done].
Qed.

Definition wants (m s : string) (tp : option Decimal) (aos : list (string * OpenOrder)) : list Candidate :=
  omap (candidate m s tp) aos.

Lemma probe_total m s tp aos : forall q filled,
  0 <= units q -> Forall (fun c => 0 < units (ca_rem c)) (wants m s tp aos) ->
  units (probe_orders m s tp aos.*2 q filled) = units filled + Z.min (units q) (offered (wants m s tp aos)).
Proof.
  induction aos as [|[a o] aos IH]; intros q filled Hq Hc.
  - unfold offered. simpl. lia.
  - unfold wants in *. cbn [fmap list_fmap snd probe_orders omap list_omap] in *.
    unfold candidate at 1 in Hc. unfold candidate at 1. cbn [fst snd] in *.
    destruct (crosses m s tp o) as [[p r]|] eqn:E; cbn [fmap option_fmap option_map] in *.
    + apply Forall_cons in Hc as [Hr Hcs]. cbn [ca_rem] in Hr. cbn [fst snd] in Hr.
      pose proof (offered_nonneg _ Hcs) as Hn.
      match goal with |- context [offered (?c :: ?cs)] => change (offered (c :: cs)) with (units r + offered cs) end.
      unfold d_is_zero. destruct (Z.eqb_spec (units q) 0) as [Hz|Hz]; [lia|].
      rewrite IH; rewrite ?units_sub, ?units_add, ?d_min_units; [lia|lia|done].
    + unfold d_is_zero. destruct (Z.eqb_spec (units q) 0) as [Hz|Hz].
      * pose proof (offered_nonneg _ Hc). lia.
      * by apply IH.
Qed.

(** Every resting order has something left to give. *)
Definition orders_positive (st : Edge) : Prop :=
  forall a l o r, e_open_orders st !! a = Some l -> o ∈ l -> d_parse (oo_remaining o) = Some r -> 0 < units r.

Lemma wants_positive m s tp taker st :
  orders_positive st -> Forall (fun c => 0 < units (ca_rem c)) (wants m s tp (others order_iter taker st)).
Proof.
  intros Hp. apply Forall_forall. intros c Hc. apply list_elem_of_omap in Hc as [[a o] [Hin Hc]].
  unfold candidate in Hc. cbn [fst snd] in Hc. destruct (crosses m s tp o) as [[p r]|] eqn:E; [|done].
  injection Hc as <-. apply elem_of_others in Hin as [_ [l [Hl Ho]]].
  destruct (crosses_resting _ _ _ _ _ _ E) as [Hr _]. by eapply Hp.
Qed.

(** The quantity that is filled: all that is wanted or all that is offered. *)
Lemma match_taker_total m s tp q taker st :
  ids_unique (e_open_orders st) -> orders_positive st -> 0 <= units q ->
  zsum (fun f => units (mf_qty f)) (match_taker now_ns order_iter m s tp q taker st).1
    = Z.min (units q) (offered (wants m s tp (others order_iter taker st))).
Proof.
  intros Hu Hp Hq. set (fills := (match_taker _ _ _ _ _ _ _ _).1).
  assert (Hv : zsum (fun f => units (mf_qty f)) fills = zsum (fun f => f.2) (map view fills)).
  { clear. induction fills as [|f fs IH]; [done|]. cbn [map]. by rewrite !zsum_cons, IH. }
  rewrite Hv. unfold fills. rewrite match_taker_greedy by done.
  rewrite greedy_total; [|done|unfold candidates; rewrite (js_sort_perm (after s)); by apply wants_positive].
  unfold candidates, wants. by rewrite (js_sort_perm (after s)).
Qed.

(** The probe of the post-only guard computes what matching would fill. *)
Theorem edge_probe_is_match m s tp q taker st :
  ids_unique (e_open_orders st) -> orders_positive st -> 0 <= units q ->
  units (match_taker_probe order_iter m s tp q taker st)
    = zsum (fun f => units (mf_qty f)) (match_taker now_ns order_iter m s tp q taker st).1.
Proof.
  intros Hu Hp Hq. rewrite match_taker_total by done. unfold match_taker_probe.
  rewrite probe_total; [|done|by apply wants_positive]. rewrite units_zero. lia.
Qed.

Lemma probe_zero_no_candidates m s tp q taker st :
  orders_positive st -> 0 < units q ->
  d_lt d_zero (match_taker_probe order_iter m s tp q taker st) = false ->
  candidates order_iter m s tp taker st = [].
Proof.
  intros Hp Hq Hd. apply Z.ltb_ge in Hd. rewrite units_zero in Hd. unfold match_taker_probe in Hd.
  rewrite probe_total in Hd; [|lia|by apply wants_positive]. rewrite units_zero in Hd.
  pose proof (wants_positive m s tp taker st Hp) as Hw.
  assert (Hc : wants m s tp (others order_iter taker st) = []).
  { destruct (wants m s tp (others order_iter taker st)) as [|c cs]; [done|]. apply Forall_cons in Hw as [Hc Hcs].
    pose proof (offered_nonneg cs Hcs). change (offered (c :: cs)) with (units (ca_rem c) + offered cs) in Hd. lia. }
  unfold candidates. unfold wants in Hc. by rewrite Hc.
Qed.

(** Reaping removes nothing where every order has something left. *)
Lemma reap_nothing m st :
  orders_positive st -> (List.filter (unreaped m) <$> e_open_orders st) = e_open_orders st.
Proof.
  intros Hp. rewrite <- (map_fmap_id (e_open_orders st)) at 2. apply map_fmap_ext. intros a l Hl. unfold id.
  apply filter_all. intros o Ho. specialize (Hp a l o).
  unfold unreaped, d_is_zero. destruct (String.eqb _ _); [|done]. destruct (d_parse (oo_remaining o)) as [r|]; [|done].
  specialize (Hp r Hl Ho eq_refl). destruct (Z.eqb_spec (units r) 0); [lia|done].
Qed.

Lemma match_taker_nobody m s tp q taker st :
  orders_positive st -> candidates order_iter m s tp taker st = [] ->
  (match_taker now_ns order_iter m s tp q taker st).1 = []
  /\ e_open_orders (match_taker now_ns order_iter m s tp q taker st).2 = e_open_orders st.
Proof.
  intros Hp Hc. unfold match_taker. rewrite Hc. cbn [foldl fst snd cr_filled cr_orders cr_ticks]. split; [done|].
  unfold sync_makers. cbn [touched foldl].
  match goal with |- context [rebuild_orderbook _ ?m ?x] => destruct (rebuild_frame order_iter m x) as (_ & _ & ->) end.
  by apply reap_nothing.
Qed.

Variable ulid : nat -> string.

Lemma validate_qty req st q tp : validate req st = inr (q, tp) -> d_parse (pl_qty req) = Some q /\ units q <> 0.
Proof.
  unfold validate. repeat (case_match; try done). all: intros [= <- <-]; split; [done|].
  all: match goal with H : d_is_zero _ = false |- _ => by apply Z.eqb_neq in H end.
Qed.

(** The order a post-only request leaves in the book. *)
Definition rested (req : PlaceOrderRequest) (id left ts : string) : list OpenOrder :=
  if String.eqb (pl_order_type req) "limit" then
    [mkOpenOrder id (pl_market_id req) (pl_side req) (pl_order_type req) (default "0" (pl_price req))
       (pl_qty req) left ts (pl_client_order_id req)]
  else [].

(** Nothing is taken, and a limit order rests whole. *)
Definition only_rests (user : string) (req : PlaceOrderRequest) (resp : PlaceOrderResponse) (st st' : Edge) : Prop :=
  por_status resp = "accepted" /\ e_positions st' = e_positions st /\ e_vault_balances st' = e_vault_balances st /\
  exists left ts, units (d_parse_or_zero left) = units (d_parse_or_zero (pl_qty req)) /\
    forall a, open_orders_for a st'
      = open_orders_for a st ++ (if decide (a = user) then rested req (por_order_id resp) left ts else []).

Lemma post_only_rests user req st resp st' :
  orders_positive st -> pl_post_only req = true -> 0 <= units (d_parse_or_zero (pl_qty req)) ->
  place_order now_ns ulid order_iter user req st = (inr resp, st') -> only_rests user req resp st st'.
Proof.
  intros Hp Hpo Hq. unfold place_order. destruct (validate req st) as [e|[qty tp]] eqn:Hv; [done|].
  apply validate_qty in Hv as [Hpq Hnz]. unfold d_parse_or_zero in Hq. rewrite Hpq in Hq. cbn [default] in Hq.
  destruct (risk_gate user req qty tp st); [done|]. rewrite Hpo. cbn [andb]. destruct (d_lt d_zero _) eqn:Hd; [done|].
  apply probe_zero_no_candidates in Hd; [|done|unfold id in *; lia]. unfold execute_order.
  pose proof (match_taker_frame now_ns order_iter (pl_market_id req) (pl_side req) tp qty user (tick (tick st))) as [Hmp Hmv].
  pose proof (match_taker_nobody (pl_market_id req) (pl_side req) tp qty user (tick (tick st)) Hp Hd) as [Hf Ho].
  destruct (match_taker _ _ _ _ _ _ _ _) as [ms st1]. cbn [fst snd] in *. subst ms.
  destruct (match market _ _ with Some _ => _ | None => _ end) as [f r]. cbn [foldl map]. intros [= <- <-].
  assert (Hr : units (qty - d_sum [])%dec = units qty) by (unfold d_sum; cbn [foldl]; rewrite units_sub, units_zero; lia).
  assert (Hrz : d_is_zero (qty - d_sum [])%dec = false) by (unfold d_is_zero; rewrite Hr; by apply Z.eqb_neq).
  unfold only_rests, rested. rewrite Hrz. cbn [negb andb por_status por_order_id].
  split; [done|]. destruct (String.eqb (pl_order_type req) "limit") eqn:Hl.
  - match goal with |- context [add_open_order _ ?a ?o ?x] =>
      destruct (add_open_order_frame order_iter a o x) as [-> ->] end.
    split; [done|]. split; [done|]. exists (d_show (qty - d_sum [])%dec), (show_Z (now_ns (e_ticks (tick st)))).
    split; [by rewrite units_show, Hr; unfold d_parse_or_zero; rewrite Hpq|]. intros a. unfold add_open_order, open_orders_for. cbv zeta.
    match goal with |- context [rebuild_orderbook _ ?m ?x] => destruct (rebuild_frame order_iter m x) as (_ & _ & ->) end.
    cbn [e_open_orders set_open_orders emit]. unfold emit. cbn. unfold alter_default.
    destruct (decide (a = user)) as [->|Hn].
    + cbn. rewrite fin_maps.lookup_insert_eq. cbn. by rewrite Ho.
    + cbn. rewrite lookup_insert_ne by done. rewrite Ho. by rewrite app_nil_r.
  - split; [done|]. split; [done|]. exists (pl_qty req), "". split; [done|]. intros a. unfold open_orders_for.
    rewrite Ho. case_decide; by rewrite app_nil_r.
Qed.

End Match.
