(* ===== verification/EdgeInv.v ===== *)
(** * The edge server's resting orders: an invariant

    Over any history, order ids are distinct across all accounts and every
    resting order has a non-zero quantity left, a positive one if no order asked
    for a negative quantity; then a post-only order only rests.  The lemmas
    say, for each operation, which lists of orders it changes and how. *)

From S2P Require Import Prelude JsNum JsText JsColl EdgeDecimal EdgeState EdgeHandlers EdgeLedger EdgeMatch.
From stdpp Require Import gmap.
#[local] Open Scope Z_scope.

Definition orders_of (orders : gmap string (list OpenOrder)) (a : string) : list OpenOrder := default [] (orders !! a).
Definition ids_of (orders : gmap string (list OpenOrder)) (a : string) : list string := map oo_id (orders_of orders a).

Lemma orders_of_insert orders a l b :
  orders_of (<[a := l]> orders) b = if decide (a = b) then l else orders_of orders b.
Proof.
  unfold orders_of. case_decide; subst; [by rewrite fin_maps.lookup_insert_eq|]. by rewrite lookup_insert_ne.
Qed.

Lemma orders_of_fmap f orders a : f [] = [] -> orders_of (f <$> orders) a = f (orders_of orders a).
Proof. intros Hf. unfold orders_of. rewrite lookup_fmap. by destruct (orders !! a). Qed.

Section Inv.
Context `{D : Decimals} {L : DecimalLaws}.
Variables (now_ns : nat -> Z) (ulid : nat -> string).
Variable order_iter : gmap string (list OpenOrder) -> list (string * list OpenOrder).
Hypothesis order_iter_perm : forall m, order_iter m ≡ₚ map_to_list m.
Hypothesis ulid_inj : forall i j, ulid i = ulid j -> i = j.

Definition order_name (n : nat) : string := "ord_" +:+ ulid n.

Lemma order_name_inj i j : order_name i = order_name j -> i = j.
Proof. unfold order_name. intros Heq. apply ulid_inj. by injection Heq. Qed.

Record Ids (orders : gmap string (list OpenOrder)) (n : nat) : Prop := {
  ids_fresh : forall a i, i ∈ ids_of orders a -> exists k, (k < n)%nat /\ i = order_name k;
  ids_nodup : forall a, NoDup (ids_of orders a);
  ids_apart : forall a b i, i ∈ ids_of orders a -> i ∈ ids_of orders b -> a = b
}.

Definition left_over (o : OpenOrder) : Prop := exists r, d_parse (oo_remaining o) = Some r /\ units r <> 0.
Definition all_left (orders : gmap string (list OpenOrder)) : Prop := forall a, Forall left_over (orders_of orders a).

(** All order ids were made before tick [n]. *)
Definition Inv (n : nat) (st : Edge) : Prop := Ids (e_open_orders st) n /\ all_left (e_open_orders st).

Lemma Ids_unique orders n : Ids orders n -> ids_unique orders.
Proof. intros H a l Hl. pose proof (ids_nodup _ _ H a) as Hn. unfold ids_of, orders_of in Hn. by rewrite Hl in Hn. Qed.

Lemma Ids_sublist orders orders' n n' :
  Ids orders n -> (n <= n')%nat -> (forall a, ids_of orders' a `sublist_of` ids_of orders a) -> Ids orders' n'.
Proof.
  intros [Hf Hn Ha] Hle Hs.
  assert (Hin : forall a i, i ∈ ids_of orders' a -> i ∈ ids_of orders a) by (intros a i; by apply sublist_subseteq).
  split.
  - intros a i Hi. destruct (Hf a i (Hin _ _ Hi)) as (k & Hk & ->). exists k. split; [lia|done].
  - intros a. by eapply sublist_NoDup.
  - intros a b i Hi Hj. by eapply Ha; apply Hin.
Qed.

(** ** Pushing an order *)

Lemma Ids_push orders n n' k a o :
  Ids orders n -> (n <= k < n')%nat -> oo_id o = order_name k ->
  Ids (alter_default (fun l => l ++ [o]) a orders) n'.
Proof.
  intros [Hf Hn Ha] Hk Ho.
  assert (Hids : forall b, ids_of (alter_default (fun l => l ++ [o]) a orders) b
            = if decide (a = b) then ids_of orders a ++ [oo_id o] else ids_of orders b).
  { intros b. unfold ids_of, alter_default. rewrite orders_of_insert. case_decide; [by rewrite map_app|done]. }
  assert (Hnew : forall b, oo_id o ∈ ids_of orders b -> False).
  { intros b Hi. destruct (Hf b _ Hi) as (j & Hj & Hij). rewrite Ho in Hij. apply order_name_inj in Hij. lia. }
  split; intros b; rewrite ?Hids.
  - intros i Hi. case_decide; subst.
    + rewrite elem_of_app, list_elem_of_singleton in Hi. destruct Hi as [Hi|Hi]; [|exists k; rewrite Hi; split; [lia|done]].
      destruct (Hf b i Hi) as (j & Hj & ->). exists j. split; [lia|done].
    + destruct (Hf b i Hi) as (j & Hj & ->). exists j. split; [lia|done].
  - case_decide; [|done]. apply NoDup_app. split_and!; [done| |apply NoDup_singleton].
    intros i Hi. rewrite list_elem_of_singleton. intros ->. by eapply Hnew.
  - intros c i. rewrite !Hids. case_decide; case_decide; subst; rewrite ?elem_of_app, ?list_elem_of_singleton; try done.
    + intros [Hi| ->] Hc; [by eapply Ha|]. by destruct (Hnew _ Hc).
    + intros Hb [Hc| ->]; [by eapply Ha|]. by destruct (Hnew _ Hb).
    + apply Ha.
Qed.

(** ** Matching *)

Lemma update_order_ids id r l : map oo_id (update_order id (set_remaining r) l) = map oo_id l.
Proof. induction l as [|o l IH]; [done|]. cbn [update_order]. case_match; cbn [map]; [done|by f_equal]. Qed.

Lemma update_order_Forall (P : OpenOrder -> Prop) id r l :
  Forall P l -> (forall o, find_order id l = Some o -> P (set_remaining r o)) ->
  Forall P (update_order id (set_remaining r) l).
Proof.
  intros Hl. unfold find_order. induction Hl as [|o l Ho Hl IH]; intros Hr; [constructor|].
  cbn [update_order List.find] in *. destruct (has_id id o); constructor; auto.
Qed.

Section Market.
Variable m : string.

(** The orders of a candidate are orders of the market. *)
Definition of_market (orders : gmap string (list OpenOrder)) (c : Candidate) : Prop :=
  forall o, find_order (ca_id c) (orders_of orders (ca_addr c)) = Some o -> oo_market_id o = m.

(** What a run of [cross_candidate] keeps: the ids, the orders of the other
    markets, and a quantity left for them. *)
Definition left_here (o : OpenOrder) : Prop :=
  exists r, d_parse (oo_remaining o) = Some r /\ (units r <> 0 \/ oo_market_id o = m).

Record Crossed (orders orders' : gmap string (list OpenOrder)) : Prop := {
  crossed_ids : forall a, ids_of orders' a = ids_of orders a;
  crossed_others : forall (f : OpenOrder -> Z) a, (forall o, oo_market_id o = m -> f o = 0) ->
    zsum f (orders_of orders' a) = zsum f (orders_of orders a);
  crossed_left : (forall a, Forall left_here (orders_of orders a)) -> forall a, Forall left_here (orders_of orders' a)
}.

Lemma Crossed_refl orders : Crossed orders orders.
Proof. by split. Qed.

Lemma Crossed_trans o1 o2 o3 : Crossed o1 o2 -> Crossed o2 o3 -> Crossed o1 o3.
Proof.
  intros [I1 Q1 L1] [I2 Q2 L2]. split; [intros a; by rewrite I2 | intros f a Hf; by rewrite Q2, Q1 | auto].
Qed.

Lemma update_order_zsum (f : OpenOrder -> Z) id r l :
  (forall o, oo_market_id o = m -> f o = 0) ->
  (forall o, find_order id l = Some o -> oo_market_id o = m) ->
  zsum f (update_order id (set_remaining r) l) = zsum f l.
Proof.
  intros Hf. unfold find_order. induction l as [|o l IH]; [done|]. cbn [update_order List.find].
  destruct (has_id id o); intros Ho; rewrite !zsum_cons; [|by rewrite IH].
  by rewrite (Hf (set_remaining r o)), (Hf o) by exact (Ho o eq_refl).
Qed.

Lemma cross_candidate_cases c k :
  cr_orders (cross_candidate now_ns c k) = cr_orders k
  \/ exists l d, cr_orders k !! ca_addr c = Some l
     /\ cr_orders (cross_candidate now_ns c k)
        = <[ca_addr c := update_order (ca_id c) (set_remaining (d_show d)) l]> (cr_orders k).
Proof.
  unfold cross_candidate. destruct (d_is_zero _); [by left|]. destruct (cr_orders k !! ca_addr c) as [l|] eqn:El; [|by left].
  destruct (find_order _ l); [|by left]. destruct (d_parse _); [|by left]. destruct (d_is_zero _); [by left|].
  right. eauto.
Qed.

Lemma cross_candidate_crossed c k : of_market (cr_orders k) c -> Crossed (cr_orders k) (cr_orders (cross_candidate now_ns c k)).
Proof.
  intros Hm. destruct (cross_candidate_cases c k) as [-> | (l & d & Hl & ->)]; [apply Crossed_refl|].
  assert (Ho : orders_of (cr_orders k) (ca_addr c) = l) by (unfold orders_of; by rewrite Hl).
  unfold of_market in Hm. rewrite Ho in Hm. split.
  - intros a. unfold ids_of. rewrite orders_of_insert. case_decide; subst; [apply update_order_ids|done].
  - intros f a Hf. rewrite orders_of_insert. case_decide; subst; [by apply update_order_zsum|done].
  - intros Hall a. rewrite orders_of_insert. case_decide; subst; [|done].
    apply update_order_Forall; [apply Hall|]. intros o Hfo. destruct (parse_show d) as (r & Hr & _).
    exists r. split; [exact Hr|]. right. exact (Hm o Hfo).
Qed.

Lemma cross_candidate_of_market c c' k : of_market (cr_orders k) c -> of_market (cr_orders (cross_candidate now_ns c' k)) c.
Proof.
  intros Hm. destruct (cross_candidate_cases c' k) as [-> | (l & d & Hl & ->)]; [done|].
  intros o. rewrite orders_of_insert. case_decide as Ha; [|apply Hm].
  assert (Ho : orders_of (cr_orders k) (ca_addr c') = l) by (unfold orders_of; by rewrite Hl).
  rewrite find_order_update by done. rewrite <- Ho, Ha. case_decide; [|apply Hm].
  destruct (find_order _ _) as [o'|] eqn:E; [|done]. intros [= <-]. exact (Hm o' E).
Qed.

Lemma cross_all_crossed cs : forall k, Forall (of_market (cr_orders k)) cs ->
  Crossed (cr_orders k) (cr_orders (foldl (fun k c => cross_candidate now_ns c k) k cs)).
Proof.
  induction cs as [|c cs IH]; intros k Hcs; [apply Crossed_refl|]. apply Forall_cons in Hcs as [Hc Hcs].
  simpl. eapply Crossed_trans; [by apply cross_candidate_crossed|]. apply IH.
  eapply Forall_impl; [exact Hcs|]. intros c' Hc'. by apply cross_candidate_of_market.
Qed.

End Market.

Lemma candidate_of_market m s tp taker n st c :
  Ids (e_open_orders st) n -> c ∈ candidates order_iter m s tp taker st -> of_market m (e_open_orders st) c.
Proof.
  intros Hi Hc o Ho. unfold candidates in Hc. rewrite js_sort_perm in Hc.
  apply list_elem_of_omap in Hc as [[a o'] [Hin Hc]]. unfold candidate in Hc. cbn [fst snd] in Hc.
  destruct (crosses m s tp o') as [[p r]|] eqn:E; [|done]. injection Hc as <-. cbn [ca_addr ca_id] in Ho.
  apply elem_of_others in Hin as [_ [l [Hl Ho']]]; [|done]. unfold orders_of in Ho. rewrite Hl in Ho.
  cbn [default] in Ho. unfold id in Ho.
  rewrite (find_order_in _ o' l) in Ho; [|by eapply Ids_unique|done|done]. injection Ho as <-.
  unfold crosses in E. case_match; [done|]. by bool_to_prop.
Qed.

Lemma sync_makers_ticks f st : e_ticks (sync_makers f st) = e_ticks st.
Proof.
  unfold sync_makers. generalize (touched f). intros l. revert st. induction l as [|a l IH]; intros st; [done|].
  simpl. by rewrite IH.
Qed.

Lemma rebuild_ticks m st : e_ticks (rebuild_orderbook order_iter m st) = e_ticks st.
Proof. unfold rebuild_orderbook. by destruct (foldl _ _ _). Qed.

(** The resting orders after a match: the orders of other markets as they
    were, the ids a sublist, nothing used up left behind. *)
Lemma match_taker_orders m s tp q taker n st :
  Inv n st ->
  exists orders', Crossed m (e_open_orders st) orders' /\
    e_open_orders (match_taker now_ns order_iter m s tp q taker st).2 = List.filter (unreaped m) <$> orders' /\
    (e_ticks st <= e_ticks (match_taker now_ns order_iter m s tp q taker st).2)%nat.
Proof.
  intros [Hi Hl]. unfold match_taker. cbv zeta. cbn [snd].
  set (k := foldl _ _ _). exists (cr_orders k). split; [|split].
  - apply (cross_all_crossed m (candidates order_iter m s tp taker st) (mkCrossing (e_open_orders st) q [] (e_ticks st))).
    cbn [cr_orders]. apply Forall_forall. intros c Hc. by eapply candidate_of_market.
  - match goal with |- context [sync_makers ?f ?x] => destruct (sync_makers_frame f x) as (_ & _ & ->) end.
    match goal with |- context [rebuild_orderbook _ ?m ?x] => destruct (rebuild_frame order_iter m x) as (_ & _ & ->) end.
    done.
  - assert (Hk : forall cs k0, (cr_ticks k0 <= cr_ticks (foldl (fun k c => cross_candidate now_ns c k) k0 cs))%nat).
    { induction cs as [|c cs IH]; intros k0; [done|]. simpl. etransitivity; [|apply IH].
      unfold cross_candidate. repeat case_match; simpl; lia. }
    specialize (Hk (candidates order_iter m s tp taker st) (mkCrossing (e_open_orders st) q [] (e_ticks st))).
    change (e_ticks st <= cr_ticks k)%nat in Hk.
    by rewrite sync_makers_ticks, rebuild_ticks.
Qed.

Lemma filter_ids_sublist (p : OpenOrder -> bool) l : map oo_id (List.filter p l) `sublist_of` map oo_id l.
Proof. induction l as [|o l IH]; [constructor|]. cbn [List.filter map]. case_match; by constructor. Qed.

Lemma match_taker_inv m s tp q taker n st : Inv n st -> Inv n (match_taker now_ns order_iter m s tp q taker st).2.
Proof.
  intros HI. destruct (match_taker_orders m s tp q taker n st HI) as (os & [Hids _ Hleft] & Ho & _).
  destruct HI as [Hi Hl]. split; rewrite Ho.
  - eapply Ids_sublist; [exact Hi|done|]. intros a. rewrite <- Hids. unfold ids_of.
    rewrite orders_of_fmap by done. apply filter_ids_sublist.
  - intros a. rewrite orders_of_fmap by done.
    assert (Hla : Forall (left_here m) (orders_of os a)).
    { apply Hleft. intros b. eapply Forall_impl; [apply Hl|]. intros o (r & Hr & Hz). exists r. auto. }
    clear -Hla. induction Hla as [|o l (r & Hr & Hz) Hla IH]; [constructor|]. cbn [List.filter].
    unfold unreaped at 1. rewrite Hr. destruct (String.eqb_spec (oo_market_id o) m) as [He|He]; cbn [negb orb].
    + unfold d_is_zero. destruct (Z.eqb_spec (units r) 0); cbn [negb]; [exact IH|]. constructor; [|exact IH]. by exists r.
    + constructor; [|exact IH]. exists r. split; [done|]. by destruct Hz.
Qed.

(** ** The other operations *)

Lemma Inv_orders n n' st st' : e_open_orders st' = e_open_orders st -> (n <= n')%nat -> Inv n st -> Inv n' st'.
Proof. intros Ho Hn [Hi Hl]. split; rewrite Ho; [|done]. by eapply Ids_sublist. Qed.

Lemma adjust_vault_orders a d st :
  e_open_orders (adjust_vault a d st) = e_open_orders st /\ e_ticks (adjust_vault a d st) = e_ticks st.
Proof. unfold adjust_vault. by case_match. Qed.

Lemma settle_match_orders user m s oid f r st x :
  e_open_orders (settle_match now_ns ulid user m s oid f r st x) = e_open_orders st
  /\ (e_ticks st <= e_ticks (settle_match now_ns ulid user m s oid f r st x))%nat.
Proof.
  unfold settle_match. cbv zeta. unfold upsert_position, apply_position_fill, record_trade.
  cbn [e_open_orders e_ticks tick set_position_map set_public_trades emit set_persist].
  rewrite !(proj1 (adjust_vault_orders _ _ _)), !(proj2 (adjust_vault_orders _ _ _)). split; [done|]. cbn. lia.
Qed.

Lemma settle_matches_orders user m s oid f r ms : forall st,
  e_open_orders (foldl (settle_match now_ns ulid user m s oid f r) st ms) = e_open_orders st
  /\ (e_ticks st <= e_ticks (foldl (settle_match now_ns ulid user m s oid f r) st ms))%nat.
Proof.
  induction ms as [|x ms IH]; intros st; [done|]. simpl.
  destruct (settle_match_orders user m s oid f r st x) as [Ho Ht].
  destruct (IH (settle_match now_ns ulid user m s oid f r st x)) as [Ho' Ht']. split; [congruence|lia].
Qed.

Lemma add_open_order_orders a o st :
  e_open_orders (add_open_order order_iter a o st) = alter_default (fun l => l ++ [o]) a (e_open_orders st)
  /\ e_ticks (add_open_order order_iter a o st) = e_ticks st.
Proof.
  unfold add_open_order. cbv zeta. unfold rebuild_orderbook. by destruct (foldl _ _ _).
Qed.

Lemma Inv_push n n' a o st st' :
  Inv n st -> (n < n')%nat -> oo_id o = order_name n -> left_over o ->
  e_open_orders st' = alter_default (fun l => l ++ [o]) a (e_open_orders st) -> Inv n' st'.
Proof.
  intros [Hi Hl] Hn Ho Hlo He. split; rewrite He; [eapply Ids_push; eauto; lia|].
  intros b. unfold alter_default. rewrite orders_of_insert. case_decide; [|apply Hl].
  apply Forall_app. split; [apply Hl|]. by constructor.
Qed.

Lemma execute_inv user req q tp ts n n' st :
  Inv n st -> (n < n')%nat -> Inv n' (execute_order now_ns ulid order_iter user req q tp (order_name n) ts st).2.
Proof.
  intros HI Hn. unfold execute_order.
  pose proof (match_taker_inv (pl_market_id req) (pl_side req) tp q user n st HI) as H1.
  destruct (match_taker _ _ _ _ _ _ _ _) as [ms st1]. cbn [snd] in H1.
  destruct (match market _ _ with Some _ => _ | None => _ end) as [f r]. cbn [snd].
  destruct (settle_matches_orders user (pl_market_id req) (pl_side req) (order_name n) f r ms st1) as [Ho _].
  destruct (negb _ && _) eqn:E; [|eapply Inv_orders; [exact Ho| |exact H1]; lia].
  eapply (Inv_push n n'); [exact H1|exact Hn| | |rewrite <- Ho; apply add_open_order_orders]; [done|].
  destruct (parse_show (q - d_sum (map mf_qty ms))%dec) as (x & Hx & Hu). exists x. split; [exact Hx|].
  bool_to_prop. match goal with H : d_is_zero _ = false |- _ => apply Z.eqb_neq in H end. lia.
Qed.

Lemma match_taker_ticks m s tp q taker st :
  (e_ticks st <= e_ticks (match_taker now_ns order_iter m s tp q taker st).2)%nat.
Proof.
  unfold match_taker. cbv zeta. cbn [snd]. rewrite sync_makers_ticks, rebuild_ticks. cbn [e_ticks set_open_orders set_ticks].
  assert (Hk : forall cs k0, (cr_ticks k0 <= cr_ticks (foldl (fun k c => cross_candidate now_ns c k) k0 cs))%nat).
  { induction cs as [|c cs IH]; intros k0; [done|]. simpl. etransitivity; [|apply IH].
    unfold cross_candidate. repeat case_match; simpl; lia. }
  apply (Hk _ (mkCrossing (e_open_orders st) q [] (e_ticks st))).
Qed.

Lemma execute_ticks user req q tp oid ts st :
  (e_ticks st <= e_ticks (execute_order now_ns ulid order_iter user req q tp oid ts st).2)%nat.
Proof.
  unfold execute_order. pose proof (match_taker_ticks (pl_market_id req) (pl_side req) tp q user st) as H1.
  destruct (match_taker _ _ _ _ _ _ _ _) as [ms st1]. cbn [snd] in H1.
  destruct (match market _ _ with Some _ => _ | None => _ end) as [f r]. cbn [snd].
  destruct (settle_matches_orders user (pl_market_id req) (pl_side req) oid f r ms st1) as [_ H2].
  case_match; [rewrite (proj2 (add_open_order_orders _ _ _))|]; lia.
Qed.

Lemma cancel_orders a oid st :
  e_open_orders (cancel_order order_iter a oid st).2
    = match e_open_orders st !! a with
      | Some l => <[a := List.filter (fun o => negb (has_id oid o)) l]> (e_open_orders st)
      | None => e_open_orders st
      end
  /\ e_ticks (cancel_order order_iter a oid st).2 = e_ticks st.
Proof.
  unfold cancel_order. destruct (e_open_orders st !! a) as [l|]; cbn [snd].
  - destruct (oo_market_id <$> _) as [m|]; case_match;
      rewrite ?rebuild_ticks, ?(proj2 (proj2 (rebuild_frame order_iter _ _))); done.
  - cbn. done.
Qed.

Lemma place_inv user req st :
  Inv (e_ticks st) st ->
  let st' := (place_order now_ns ulid order_iter user req st).2 in Inv (e_ticks st') st' /\ (e_ticks st <= e_ticks st')%nat.
Proof.
  intros HI. unfold place_order. destruct (validate req st) as [e|[q tp]]; [done|].
  destruct (risk_gate user req q tp st); [done|].
  assert (HI2 : Inv (e_ticks st) (tick (tick st))) by exact HI.
  case_match; [split; [eapply Inv_orders; [reflexivity| |exact HI]; simpl; lia|simpl; lia]|].
  pose proof (execute_ticks user req q tp ("ord_" +:+ ulid (e_ticks st)) (show_Z (now_ns (e_ticks (tick st))))
                (tick (tick st))) as Ht.
  pose proof (execute_inv user req q tp (show_Z (now_ns (e_ticks (tick st)))) (e_ticks st)) as Hx.
  specialize (Hx (e_ticks (execute_order now_ns ulid order_iter user req q tp (order_name (e_ticks st))
    (show_Z (now_ns (e_ticks (tick st)))) (tick (tick st))).2) (tick (tick st)) HI2).
  unfold order_name in Hx. destruct (execute_order _ _ _ _ _ _ _ _ _) as [resp st']. cbn [snd] in *.
  cbn [e_ticks tick] in Ht. split; [apply Hx; lia|lia].
Qed.

Lemma cancel_inv n a oid st : Inv n st -> Inv n (cancel_order order_iter a oid st).2.
Proof.
  intros [Hi Hl]. destruct (cancel_orders a oid st) as [Ho _]. unfold Inv. rewrite Ho.
  destruct (e_open_orders st !! a) as [l|] eqn:E; [|done].
  assert (Hol : orders_of (e_open_orders st) a = l) by (unfold orders_of; by rewrite E). split.
  - eapply Ids_sublist; [exact Hi|done|]. intros b. unfold ids_of. rewrite orders_of_insert.
    case_decide; subst; [apply filter_ids_sublist|done].
  - intros b. rewrite orders_of_insert. case_decide; subst; [|apply Hl].
    apply Forall_forall. intros o Ho'. apply list_elem_of_In, filter_In in Ho' as [Ho' _].
    specialize (Hl b). rewrite Forall_forall in Hl. by apply Hl, list_elem_of_In.
Qed.

Lemma call_inv st c :
  Inv (e_ticks st) st ->
  Inv (e_ticks (call now_ns ulid order_iter st c)) (call now_ns ulid order_iter st c)
  /\ (e_ticks st <= e_ticks (call now_ns ulid order_iter st c))%nat.
Proof.
  intros HI.
  assert (Hsame : forall st', e_open_orders st' = e_open_orders st -> (e_ticks st <= e_ticks st')%nat ->
    Inv (e_ticks st') st' /\ (e_ticks st <= e_ticks st')%nat).
  { intros st' Ho Ht. split; [|done]. by eapply Inv_orders. }
  destruct c as [user req|user oid|user|user|m p|a|a amount|a m]; cbn [call].
  - by apply place_inv.
  - unfold handle_cancel. pose proof (cancel_inv _ user oid st HI) as Hc. destruct (cancel_orders user oid st) as [_ Ht].
    destruct (cancel_order _ _ _ _) as [b st']. cbn [snd] in *. rewrite Ht. split; [exact Hc|lia].
  - apply Hsame; cbn [list_positions snd]; unfold seed_dev_vault; by repeat case_match.
  - apply Hsame; cbn [get_balance snd]; unfold seed_dev_vault; by repeat case_match.
  - by apply Hsame.
  - apply Hsame; [done|]. simpl. lia.
  - by apply Hsame.
  - apply Hsame; unfold liquidate_position; repeat case_match; simpl; try done; lia.
Qed.

Lemma new_edge_inv dev persist : Inv (e_ticks (new_edge dev persist)) (new_edge dev persist).
Proof. split; [split|]; intros a; cbn; [by intros ?; rewrite elem_of_nil|constructor|by intros ??; rewrite elem_of_nil|constructor]. Qed.

Lemma calls_inv dev persist cs :
  Inv (e_ticks (calls now_ns ulid order_iter (new_edge dev persist) cs)) (calls now_ns ulid order_iter (new_edge dev persist) cs).
Proof.
  unfold calls. generalize (new_edge_inv dev persist). generalize (new_edge dev persist).
  induction cs as [|c cs IH]; intros st HI; [done|]. simpl. by apply IH, call_inv.
Qed.

(** ** Positive orders

    The server refuses a zero quantity but not a negative one.  In a history
    without negative quantities every resting order has a positive one. *)

Definition nonneg_left (o : OpenOrder) : Prop := forall r, d_parse (oo_remaining o) = Some r -> 0 <= units r.
Definition none_negative (orders : gmap string (list OpenOrder)) : Prop := forall a, Forall nonneg_left (orders_of orders a).

Lemma none_negative_positive n st : Inv n st -> none_negative (e_open_orders st) -> orders_positive st.
Proof.
  intros [_ Hl] Hn a l o r Ha Ho Hr. specialize (Hl a). specialize (Hn a). unfold orders_of in Hl, Hn. rewrite Ha in Hl, Hn.
  cbn [default] in Hl, Hn. unfold id in Hl, Hn. rewrite Forall_forall in Hl, Hn.
  destruct (Hl o Ho) as (r' & Hr' & Hz). specialize (Hn o Ho r Hr). rewrite Hr in Hr'. injection Hr' as <-. lia.
Qed.

Lemma none_negative_insert orders a l :
  none_negative orders -> Forall nonneg_left l -> none_negative (<[a := l]> orders).
Proof. intros Hn Hl b. rewrite orders_of_insert. case_decide; [done|apply Hn]. Qed.

Lemma Forall_bool_filter {A} (P : A -> Prop) (p : A -> bool) l : Forall P l -> Forall P (List.filter p l).
Proof. induction 1; cbn [List.filter]; [constructor|]. case_match; [by constructor|done]. Qed.

Lemma nonneg_show o d : 0 <= units d -> nonneg_left (set_remaining (d_show d) o).
Proof. intros Hd r Hr. destruct (parse_show d) as (b & Hb & Hu). cbn in Hr. rewrite Hb in Hr. injection Hr as <-. lia. Qed.

Lemma cross_candidate_nonneg c k :
  none_negative (cr_orders k) -> none_negative (cr_orders (cross_candidate now_ns c k)).
Proof.
  intros Hn. unfold cross_candidate. destruct (d_is_zero _); [done|].
  destruct (cr_orders k !! ca_addr c) as [l|] eqn:El; [|done]. destruct (find_order _ l) as [o|] eqn:Eo; [|done].
  destruct (d_parse _) as [r|] eqn:Er; [|done]. destruct (d_is_zero _); [done|]. cbn [cr_orders].
  apply none_negative_insert; [done|]. specialize (Hn (ca_addr c)). unfold orders_of in Hn. rewrite El in Hn.
  apply update_order_Forall; [exact Hn|]. intros o' _. apply nonneg_show. rewrite units_sub, d_min_units. lia.
Qed.

Lemma match_taker_nonneg m s tp q taker st :
  none_negative (e_open_orders st) -> none_negative (e_open_orders (match_taker now_ns order_iter m s tp q taker st).2).
Proof.
  intros Hn. unfold match_taker. cbv zeta. cbn [snd].
  match goal with |- context [sync_makers ?f ?x] => destruct (sync_makers_frame f x) as (_ & _ & ->) end.
  match goal with |- context [rebuild_orderbook _ ?m ?x] => destruct (rebuild_frame order_iter m x) as (_ & _ & ->) end.
  assert (Hk : forall cs k, none_negative (cr_orders k) ->
    none_negative (cr_orders (foldl (fun k c => cross_candidate now_ns c k) k cs))).
  { induction cs as [|c cs IH]; intros k Hk; [done|]. simpl. by apply IH, cross_candidate_nonneg. }
  cbn [e_open_orders set_open_orders]. intros a. rewrite orders_of_fmap by done. apply Forall_bool_filter. by apply Hk.
Qed.

Lemma d_sum_units fs : units (d_sum (map mf_qty fs)) = zsum (fun f => units (mf_qty f)) fs.
Proof.
  assert (H : forall acc, units (foldl d_add acc (map mf_qty fs)) = units acc + zsum (fun f => units (mf_qty f)) fs).
  { induction fs as [|f fs IH]; intros acc; cbn [map foldl]; [simpl; lia|]. rewrite IH, units_add, zsum_cons. lia. }
  unfold d_sum. rewrite H, units_zero. lia.
Qed.

Lemma execute_nonneg user req q tp oid ts n st :
  Inv n st -> none_negative (e_open_orders st) -> 0 <= units q ->
  none_negative (e_open_orders (execute_order now_ns ulid order_iter user req q tp oid ts st).2).
Proof.
  intros HI Hn Hq. unfold execute_order.
  pose proof (match_taker_nonneg (pl_market_id req) (pl_side req) tp q user st Hn) as H1.
  pose proof (match_taker_total now_ns order_iter order_iter_perm (pl_market_id req) (pl_side req) tp q user st
    (Ids_unique _ _ (proj1 HI)) (none_negative_positive n st HI Hn) Hq) as Ht.
  destruct (match_taker _ _ _ _ _ _ _ _) as [ms st1]. cbn [fst snd] in H1, Ht.
  destruct (match market _ _ with Some _ => _ | None => _ end) as [f r]. cbn [snd].
  destruct (settle_matches_orders user (pl_market_id req) (pl_side req) oid f r ms st1) as [Ho _].
  case_match; [|by rewrite Ho]. rewrite (proj1 (add_open_order_orders _ _ _)), Ho. unfold alter_default.
  apply none_negative_insert; [done|]. apply Forall_app. split; [apply H1|]. constructor; [|constructor].
  intros x Hx. cbn in Hx. destruct (parse_show (q - d_sum (map mf_qty ms))%dec) as (b & Hb & Hu).
  rewrite Hb in Hx. injection Hx as <-. rewrite Hu, units_sub, d_sum_units, Ht. lia.
Qed.

(** A request that does not ask for a negative quantity. *)
Definition not_negative (c : Call) : bool :=
  match c with PlaceOrder _ req => 0 <=? units (d_parse_or_zero (pl_qty req)) | _ => true end.

Lemma call_nonneg st c :
  Inv (e_ticks st) st -> not_negative c = true -> none_negative (e_open_orders st) ->
  none_negative (e_open_orders (call now_ns ulid order_iter st c)).
Proof.
  intros HI Hc Hn. destruct c as [user req|user oid|user|user|m p|a|a amount|a m]; cbn [call].
  - unfold place_order. destruct (validate req st) as [e|[q tp]] eqn:Hv; [done|]. destruct (risk_gate user req q tp st); [done|].
    case_match; [done|]. apply validate_qty in Hv as [Hq _]. cbn [not_negative] in Hc. unfold d_parse_or_zero in Hc.
    rewrite Hq in Hc. cbn [default] in Hc. apply Z.leb_le in Hc.
    pose proof (execute_nonneg user req q tp ("ord_" +:+ ulid (e_ticks st)) (show_Z (now_ns (e_ticks (tick st))))
      (e_ticks st) (tick (tick st)) HI Hn Hc) as He. by destruct (execute_order _ _ _ _ _ _ _ _ _).
  - unfold handle_cancel. destruct (cancel_orders user oid st) as [Ho _]. destruct (cancel_order _ _ _ _) as [b st'].
    cbn [snd] in *. rewrite Ho. destruct (e_open_orders st !! user) as [l|] eqn:E; [|done].
    apply none_negative_insert; [done|]. apply Forall_bool_filter. specialize (Hn user). unfold orders_of in Hn. by rewrite E in Hn.
  - cbn [list_positions snd]; unfold seed_dev_vault; by repeat case_match.
  - cbn [get_balance snd]; unfold seed_dev_vault; by repeat case_match.
  - done.
  - done.
  - done.
  - unfold liquidate_position; by repeat case_match.
Qed.

Lemma calls_positive dev persist cs :
  forallb not_negative cs = true -> orders_positive (calls now_ns ulid order_iter (new_edge dev persist) cs).
Proof.
  intros Hcs. eapply none_negative_positive; [apply calls_inv|]. unfold calls.
  assert (Hn : none_negative (e_open_orders (new_edge dev persist))) by (intros a; constructor).
  revert Hcs Hn. generalize (new_edge_inv dev persist). generalize (new_edge dev persist).
  induction cs as [|c cs IH]; intros st HI Hcs Hn; [done|]. cbn [forallb] in Hcs. apply andb_true_iff in Hcs as [Hc Hcs].
  simpl. apply IH; [by apply call_inv|done|by apply call_nonneg].
Qed.

(** C28: A post-only order never takes.  Over every history of the server in
    which no order asked for a negative quantity (it accepts them), a post-only
    order that is accepted met nothing: its answer is "accepted", no position
    and no vault changed, and the resting orders are the ones there were, with
    the order itself behind its account's, whole, when it is a limit order. *)
Theorem edge_post_only_rests dev persist cs user req resp st' :
  let st := calls now_ns ulid order_iter (new_edge dev persist) cs in
  forallb not_negative cs = true -> not_negative (PlaceOrder user req) = true -> pl_post_only req = true ->
  place_order now_ns ulid order_iter user req st = (inr resp, st') -> only_rests user req resp st st'.
Proof.
  intros st Hcs Hc Hpo. apply (post_only_rests now_ns order_iter order_iter_perm); [by apply calls_positive|done|].
  by apply Z.leb_le in Hc.
Qed.

End Inv.
