(* ===== verification/EdgeBook.v ===== *)
(** * The edge server's public book

    The snapshot that GET /v1/orderbook serves is rebuilt after each change of
    the resting orders.  Over any history, each market's snapshot shows at
    every price exactly what rests there, best price first. *)

From S2P Require Import Prelude JsNum JsText JsColl EdgeDecimal EdgeState EdgeHandlers EdgeLedger EdgeMatch EdgeInv.
From Stdlib Require Import Sorted.
From stdpp Require Import gmap sorting.
#[local] Open Scope Z_scope.

Section Book.
Context `{D : Decimals} {L : DecimalLaws}.
Variables (now_ns : nat -> Z) (ulid : nat -> string).
Variable order_iter : gmap string (list OpenOrder) -> list (string * list OpenOrder).
Hypothesis order_iter_perm : forall m, order_iter m ≡ₚ map_to_list m.
Hypothesis ulid_inj : forall i j, ulid i = ulid j -> i = j.

(** ** Levels *)

Definition at_price (P : Z) (pq : Decimal * Decimal) : Z := if units pq.1 =? P then units pq.2 else 0.

Lemma at_price_cons P p q l : zsum (at_price P) ((p, q) :: l) = (if units p =? P then units q else 0) + zsum (at_price P) l.
Proof. done. Qed.

Lemma level_add_sum P p q l :
  zsum (at_price P) (level_add p q l) = zsum (at_price P) l + (if units p =? P then units q else 0).
Proof.
  induction l as [|[p' q'] l IH]; [cbn [level_add]; rewrite at_price_cons; lia|]. cbn [level_add]. unfold d_eq, d_lt.
  destruct (Z.eqb_spec (units p) (units p')) as [He|He].
  - rewrite !at_price_cons, units_add, He. destruct (units p' =? P); lia.
  - destruct (units p <? units p'); rewrite !at_price_cons, ?IH; destruct (units p =? P), (units p' =? P); lia.
Qed.

Definition ascending : list (Decimal * Decimal) -> Prop := StronglySorted (fun a b => units a.1 < units b.1).

Lemma level_add_head p q l (x : Decimal) :
  units x < units p -> Forall (fun b => units x < units b.1) l -> Forall (fun b => units x < units b.1) (level_add p q l).
Proof.
  intros Hp Hl. induction Hl as [|[p' q'] l Hx Hl IH]; cbn [level_add]; [by repeat constructor|].
  repeat case_match; constructor; simpl in *; auto.
Qed.

Lemma level_add_ascending p q l : ascending l -> ascending (level_add p q l).
Proof.
  unfold ascending. induction l as [|[p' q'] l IH]; intros Hs; [by repeat constructor|].
  apply StronglySorted_inv in Hs as [Hs Hf]. cbn [level_add]. unfold d_eq, d_lt.
  destruct (Z.eqb_spec (units p) (units p')); [by constructor|].
  destruct (Z.ltb_spec (units p) (units p')) as [Hlt|Hge].
  - constructor; [by constructor|]. constructor; [done|]. eapply Forall_impl; [exact Hf|]. simpl. lia.
  - constructor; [by apply IH|]. apply (level_add_head p q l p'); [lia|exact Hf].
Qed.

(** ** What rests *)

Definition is_buy (o : OpenOrder) : bool := String.eqb (oo_side o) "buy".

(** What an order adds to price [P] on one side of market [m]. *)
Definition shows (m : string) (buy : bool) (P : Z) (o : OpenOrder) : Z :=
  match resting m o with
  | Some (p, q) => if Bool.eqb (is_buy o) buy && (units p =? P) then units q else 0
  | None => 0
  end.

Definition rests (m : string) (buy : bool) (P : Z) (st : Edge) : Z := gsum (zsum (shows m buy P)) (e_open_orders st).

Lemma bucket_sums m P os : forall bids asks,
  let r := foldl (bucket_order m) (bids, asks) os in
  zsum (at_price P) r.1 = zsum (at_price P) bids + zsum (shows m true P) os
  /\ zsum (at_price P) r.2 = zsum (at_price P) asks + zsum (shows m false P) os.
Proof.
  induction os as [|o os IH]; intros bids asks; [simpl; lia|]. cbv zeta. cbn [foldl]. rewrite !zsum_cons.
  unfold bucket_order at 2 4. unfold shows at 1 3. destruct (resting m o) as [[p q]|]; [|apply IH].
  fold (is_buy o). destruct (is_buy o); cbn [fst snd Bool.eqb andb]; destruct (IH (level_add p q bids) asks) as [H1 H2];
    destruct (IH bids (level_add p q asks)) as [H3 H4]; rewrite ?H1, ?H2, ?H3, ?H4, ?level_add_sum; split; lia.
Qed.

Lemma bucket_ascending m os : forall bids asks, ascending bids -> ascending asks ->
  let r := foldl (bucket_order m) (bids, asks) os in ascending r.1 /\ ascending r.2.
Proof.
  induction os as [|o os IH]; intros bids asks Hb Ha; [done|]. cbv zeta. cbn [foldl]. unfold bucket_order at 2 4.
  destruct (resting m o) as [[p q]|]; [case_match|]; apply IH; auto using level_add_ascending.
Qed.

Lemma all_orders_sum (f : OpenOrder -> Z) st : zsum f (all_orders order_iter st) = gsum (zsum f) (e_open_orders st).
Proof.
  unfold all_orders, gsum. rewrite order_iter_perm. induction (map_to_list (e_open_orders st)) as [|[a l] ls IH]; [done|].
  cbn [fmap list_fmap concat]. rewrite zsum_app, zsum_cons. by rewrite <- IH.
Qed.

(** ** Snapshots *)

Definition level_price (lv : string * string) : Z := units (d_parse_or_zero lv.1).
Definition level_qty (P : Z) (levels : list (string * string)) : Z :=
  zsum (fun lv => if level_price lv =? P then units (d_parse_or_zero lv.2) else 0) levels.

Definition best_first (b : BookSnapshot) : Prop :=
  StronglySorted (fun x y => level_price y < level_price x) (bk_bids b)
  /\ StronglySorted (fun x y => level_price x < level_price y) (bk_asks b).

(** The snapshot of [m] shows what rests, sorted. *)
Definition current (m : string) (st : Edge) : Prop :=
  forall b, e_orderbooks st !! m = Some b ->
    best_first b /\ forall P, level_qty P (bk_bids b) = rests m true P st /\ level_qty P (bk_asks b) = rests m false P st.

Lemma to_levels_qty P b desc : level_qty P (to_levels b desc) = zsum (at_price P) b.
Proof.
  assert (H1 : forall b', level_qty P (map (fun pq => (d_show pq.1, d_show pq.2)) b') = zsum (at_price P) b').
  { induction b' as [|[p q] b' IH]; [done|]. unfold level_qty in *. cbn [map]. rewrite !zsum_cons, IH.
    unfold level_price, at_price. cbn [fst snd]. by rewrite !units_show. }
  unfold to_levels. rewrite H1. destruct desc; [|done]. by rewrite <- Permutation_rev.
Qed.

Lemma sorted_map_levels (R : Z -> Z -> Prop) b :
  StronglySorted (fun x y => R (units x.1) (units y.1)) b ->
  StronglySorted (fun x y => R (level_price x) (level_price y)) (map (fun pq : Decimal * Decimal => (d_show pq.1, d_show pq.2)) b).
Proof.
  induction 1 as [|[p q] b Hs IH Hf]; [constructor|]. constructor; [done|]. apply Forall_fmap.
  eapply Forall_impl; [exact Hf|]. intros [p1 q1] HR. unfold level_price, compose. cbn [fst]. rewrite !units_show. exact HR.
Qed.

Lemma sorted_rev {A} (R : A -> A -> Prop) l : StronglySorted R l -> StronglySorted (fun x y => R y x) (rev l).
Proof.
  induction 1 as [|x l Hs IH Hf]; [constructor|]. simpl.
  assert (Happ : forall l' : list A, StronglySorted (fun x y => R y x) l' -> Forall (R x) l' -> StronglySorted (fun x y => R y x) (l' ++ [x])).
  { induction 1 as [|y l' Hs' IH' Hf']; intros Hx; [by repeat constructor|]. apply Forall_cons in Hx as [Hx Hx'].
    simpl. constructor; [by apply IH'|]. apply Forall_app. split; [done|]. by constructor. }
  apply Happ; [done|]. by apply Forall_rev.
Qed.

Lemma rebuild_current m st : current m (rebuild_orderbook order_iter m st).
Proof.
  unfold current, rests, rebuild_orderbook.
  pose proof (bucket_ascending m (all_orders order_iter st) [] [] ltac:(constructor) ltac:(constructor)) as [Hb Ha].
  pose proof (fun P => bucket_sums m P (all_orders order_iter st) [] []) as Hsum.
  destruct (foldl _ _ _) as [bids asks]. cbn [fst snd] in *. intros b.
  cbn [e_orderbooks set_orderbooks e_open_orders]. rewrite fin_maps.lookup_insert_eq. intros [= <-]. cbn [bk_bids bk_asks]. split.
  - split; [apply (sorted_map_levels (fun x y => y < x)), (sorted_rev (fun x y => units x.1 < units y.1)), Hb
           |by apply (sorted_map_levels (fun x y => x < y))].
  - intros P. rewrite !to_levels_qty, <- !all_orders_sum. destruct (Hsum P) as [H1 H2]. split; [rewrite H1|rewrite H2]; done.
Qed.

Lemma rebuild_other m m' st : m' <> m -> current m' st -> current m' (rebuild_orderbook order_iter m st).
Proof.
  intros Hne Hc b. unfold rests, rebuild_orderbook. destruct (foldl _ _ _) as [bids asks].
  cbn [e_orderbooks set_orderbooks e_open_orders]. rewrite lookup_insert_ne by done. apply Hc.
Qed.

(** A snapshot stays current when what rests in its market does not change. *)
Lemma current_same m st st' :
  e_orderbooks st' !! m = e_orderbooks st !! m -> (forall buy P, rests m buy P st' = rests m buy P st) ->
  current m st -> current m st'.
Proof. intros Hb Hr Hc b. rewrite Hb. intros Hl. destruct (Hc b Hl) as [H1 H2]. split; [done|]. intros P. rewrite !Hr. apply H2. Qed.

(** ** Changes of the resting orders *)

Lemma gsum_delete {V} (f : V -> Z) k v (m : gmap string V) : m !! k = Some v -> gsum f m = f v + gsum f (delete k m).
Proof.
  intros Hk. rewrite <- (insert_delete_id m k v Hk) at 1. by rewrite gsum_insert_new by apply lookup_delete_eq.
Qed.

Lemma gsum_zero {V} (f : V -> Z) (m : gmap string V) : (forall k v, m !! k = Some v -> f v = 0) -> gsum f m = 0.
Proof.
  revert m. refine (map_ind _ _ _); [intros; apply gsum_empty|]. intros k v m Hk IH Hz. rewrite gsum_insert_new by done.
  rewrite (Hz k v) by apply fin_maps.lookup_insert_eq. rewrite IH; [done|]. intros k' v' Hk'. apply (Hz k').
  rewrite lookup_insert_ne; [done|]. by intros ->; rewrite Hk in Hk'.
Qed.

Lemma gsum_ext (F : list OpenOrder -> Z) m1 : F [] = 0 ->
  forall m2, (forall a, F (orders_of m1 a) = F (orders_of m2 a)) -> gsum F m1 = gsum F m2.
Proof.
  intros H0. revert m1. refine (map_ind _ _ _).
  - intros m2 He. rewrite gsum_empty. symmetry. apply gsum_zero. intros k v Hk. specialize (He k).
    unfold orders_of in He. rewrite lookup_empty, Hk in He. cbn [default] in He. unfold id in He. congruence.
  - intros k l m1 Hk IH m2 He. rewrite gsum_insert_new by done.
    rewrite (IH (delete k m2)).
    + pose proof (He k) as Hk2. rewrite orders_of_insert, decide_True in Hk2 by done. rewrite Hk2.
      unfold orders_of. destruct (m2 !! k) as [v|] eqn:E; [by rewrite (gsum_delete F k v m2)|].
      rewrite delete_id by done. cbn [default]. lia.
    + intros a. destruct (decide (k = a)) as [<-|Hne].
      * unfold orders_of. by rewrite Hk, lookup_delete_eq.
      * specialize (He a). rewrite orders_of_insert, decide_False in He by done. rewrite He.
        unfold orders_of. by rewrite lookup_delete_ne.
Qed.

Lemma rests_ext m buy P st st' :
  (forall a, zsum (shows m buy P) (orders_of (e_open_orders st') a) = zsum (shows m buy P) (orders_of (e_open_orders st) a)) ->
  rests m buy P st' = rests m buy P st.
Proof. intros He. by apply gsum_ext. Qed.

Lemma shows_other m m' buy P o : m <> m' -> oo_market_id o = m -> shows m' buy P o = 0.
Proof. intros Hne Ho. unfold shows, resting. by rewrite Ho, string_eqb_ne. Qed.

Lemma match_taker_rests m m' s tp q taker n st buy P : m' <> m -> Inv ulid n st ->
  rests m' buy P (match_taker now_ns order_iter m s tp q taker st).2 = rests m' buy P st.
Proof.
  intros Hne HI. apply rests_ext. intros a.
  destruct (match_taker_orders now_ns ulid order_iter order_iter_perm m s tp q taker n st HI) as (os & [_ Hq _] & Ho & _).
  rewrite Ho, orders_of_fmap by done.
  rewrite <- (Hq (shows m' buy P) a); [|intros o; apply shows_other; congruence].
  induction (orders_of os a) as [|o l IH]; [done|]. cbn [List.filter]. unfold unreaped at 1.
  destruct (String.eqb_spec (oo_market_id o) m) as [He|He]; cbn [negb orb].
  - rewrite zsum_cons, (shows_other m m') by congruence. case_match; [|lia].
    rewrite zsum_cons, (shows_other m m') by congruence. lia.
  - by rewrite !zsum_cons, IH.
Qed.

Lemma sync_makers_books f st : e_orderbooks (sync_makers f st) = e_orderbooks st.
Proof.
  unfold sync_makers. generalize (touched f). intros l. revert st. induction l as [|a l IH]; intros st; [done|].
  cbn [foldl]. by rewrite IH.
Qed.

Lemma rebuild_books m m' st : m' <> m -> e_orderbooks (rebuild_orderbook order_iter m st) !! m' = e_orderbooks st !! m'.
Proof. intros Hne. unfold rebuild_orderbook. destruct (foldl _ _ _). cbn. by rewrite lookup_insert_ne. Qed.

Lemma match_taker_current m m' s tp q taker n st : Inv ulid n st ->
  current m' st -> current m' (match_taker now_ns order_iter m s tp q taker st).2.
Proof.
  intros HI Hc. destruct (decide (m' = m)) as [->|Hne].
  - unfold match_taker. cbv zeta. cbn [snd]. eapply current_same; [| |apply (rebuild_current m)].
    + by rewrite sync_makers_books.
    + intros buy P. unfold rests. by rewrite (proj2 (proj2 (sync_makers_frame _ _))).
  - apply (current_same m' st); [|intros; by eapply match_taker_rests|exact Hc].
    unfold match_taker. cbv zeta. cbn [snd]. by rewrite sync_makers_books, rebuild_books.
Qed.

Lemma add_open_order_current a o m' st : current m' st -> current m' (add_open_order order_iter a o st).
Proof.
  intros Hc. unfold add_open_order. cbv zeta. destruct (decide (m' = oo_market_id o)) as [->|Hne]; [apply rebuild_current|].
  apply rebuild_other; [done|]. apply (current_same m' st); [reflexivity| |exact Hc]. intros buy P. apply rests_ext. intros b.
  cbn [e_open_orders set_open_orders emit set_persist]. unfold alter_default. rewrite orders_of_insert. case_decide; [|done].
  subst. fold (orders_of (e_open_orders st) b). rewrite zsum_app, zsum_cons.
  rewrite (shows_other (oo_market_id o) m') by congruence. simpl. lia.
Qed.

Lemma cancel_filter m' m buy P oid l :
  m' <> m -> (forall o, o ∈ l -> oo_id o = oid -> oo_market_id o = m) ->
  zsum (shows m' buy P) (List.filter (fun o => negb (has_id oid o)) l) = zsum (shows m' buy P) l.
Proof.
  intros Hne Hm. induction l as [|o l IH]; [done|]. cbn [List.filter]. unfold has_id at 1.
  assert (IH' : zsum (shows m' buy P) (List.filter (fun o => negb (has_id oid o)) l) = zsum (shows m' buy P) l)
    by (apply IH; intros; apply Hm; [by right|done]).
  destruct (String.eqb_spec (oo_id o) oid) as [He|He]; cbn [negb]; rewrite !zsum_cons, ?IH'; [|done].
  rewrite (shows_other m m'); [lia|congruence|]. apply Hm; [by left|done].
Qed.

Lemma cancel_current a oid m' n st : Inv ulid n st -> current m' st -> current m' (cancel_order order_iter a oid st).2.
Proof.
  intros [Hi _] Hc. unfold cancel_order. destruct (e_open_orders st !! a) as [l|] eqn:El; cbn [mbind option_bind]; [|exact Hc].
  assert (Hnd : NoDup (map oo_id l)) by (by eapply Ids_unique).
  set (st1 := set_open_orders _ st).
  assert (Hst2 : forall b : bool, e_open_orders (if b then emit (DeleteOrder oid) st1 else st1) = e_open_orders st1
      /\ e_orderbooks (if b then emit (DeleteOrder oid) st1 else st1) = e_orderbooks st1) by (by intros []).
  destruct (find_order oid l) as [o|] eqn:Ef; cbn [fmap option_fmap option_map snd].
  - destruct (decide (m' = oo_market_id o)) as [->|Hne]; [apply rebuild_current|]. apply rebuild_other; [done|].
    apply (current_same m' st); [by rewrite (proj2 (Hst2 _))| |exact Hc]. intros buy P. apply rests_ext. intros b.
    rewrite (proj1 (Hst2 _)). unfold st1. cbn [e_open_orders set_open_orders]. rewrite orders_of_insert.
    case_decide; subst; [|done]. assert (Hl : orders_of (e_open_orders st) b = l) by (unfold orders_of; by rewrite El).
    rewrite Hl. apply (cancel_filter m' (oo_market_id o)); [done|]. intros o' Ho' Hid.
    rewrite (find_order_in oid o' l) in Ef by done. by injection Ef as <-.
  - apply (current_same m' st); [by rewrite (proj2 (Hst2 _))| |exact Hc]. intros buy P. apply rests_ext. intros b.
    rewrite (proj1 (Hst2 _)). unfold st1. cbn [e_open_orders set_open_orders]. rewrite orders_of_insert.
    case_decide; subst; [|done]. assert (Hl : orders_of (e_open_orders st) b = l) by (unfold orders_of; by rewrite El).
    rewrite Hl. f_equal. apply forallb_filter_id, forallb_forall. intros o Ho. by rewrite (find_none _ _ Ef o Ho).
Qed.

(** ** Over a history *)

Lemma current_frame m st st' :
  e_orderbooks st' = e_orderbooks st -> e_open_orders st' = e_open_orders st -> current m st -> current m st'.
Proof. intros Hb Ho. apply current_same; [by rewrite Hb|]. intros. unfold rests. by rewrite Ho. Qed.

Lemma settle_matches_books user m s oid f r ms : forall st,
  e_orderbooks (foldl (settle_match now_ns ulid user m s oid f r) st ms) = e_orderbooks st.
Proof.
  induction ms as [|x ms IH]; intros st; [done|]. cbn [foldl]. rewrite IH. unfold settle_match. cbv zeta.
  unfold upsert_position, apply_position_fill, record_trade.
  cbn [e_orderbooks tick set_position_map set_public_trades emit set_persist].
  assert (Ha : forall a d st0, e_orderbooks (adjust_vault a d st0) = e_orderbooks st0)
    by (intros; unfold adjust_vault; by case_match).
  by rewrite !Ha.
Qed.

Lemma execute_current m user req q tp oid ts n st :
  Inv ulid n st -> current m st -> current m (execute_order now_ns ulid order_iter user req q tp oid ts st).2.
Proof.
  intros HI Hc. unfold execute_order.
  pose proof (match_taker_current (pl_market_id req) m (pl_side req) tp q user n st HI Hc) as H1.
  destruct (match_taker _ _ _ _ _ _ _ _) as [ms st1]. cbn [snd] in H1.
  destruct (match market _ _ with Some _ => _ | None => _ end) as [f r]. cbn [snd].
  assert (H2 : current m (foldl (settle_match now_ns ulid user (pl_market_id req) (pl_side req) oid f r) st1 ms)).
  { eapply current_frame; [apply settle_matches_books|apply settle_matches_orders|exact H1]. }
  case_match; [by apply add_open_order_current|exact H2].
Qed.

Lemma call_current m st c : Inv ulid (e_ticks st) st -> current m st -> current m (call now_ns ulid order_iter st c).
Proof.
  intros HI Hc. destruct c as [user req|user oid|user|user|m0 p|a|a amount|a m0]; cbn [call].
  - unfold place_order. destruct (validate req st) as [e|[q tp]]; [done|].
    destruct (risk_gate user req q tp st); [done|]. case_match; [exact Hc|].
    pose proof (execute_current m user req q tp ("ord_" +:+ ulid (e_ticks st)) (show_Z (now_ns (e_ticks (tick st))))
      (e_ticks st) (tick (tick st)) HI Hc) as H1. by destruct (execute_order _ _ _ _ _ _ _ _ _).
  - unfold handle_cancel. pose proof (cancel_current user oid m _ st HI Hc) as H1. by destruct (cancel_order _ _ _ _).
  - apply (current_frame m st); [| |exact Hc]; cbn [list_positions snd]; unfold seed_dev_vault; by repeat case_match.
  - apply (current_frame m st); [| |exact Hc]; cbn [get_balance snd]; unfold seed_dev_vault; by repeat case_match.
  - exact Hc.
  - exact Hc.
  - exact Hc.
  - apply (current_frame m st); [| |exact Hc]; unfold liquidate_position; by repeat case_match.
Qed.

(** C13: The public book is what rests: after any history of requests, a
    market's snapshot is sorted best price first, and at every price the
    quantity it shows is the sum of what is left of the resting limit orders
    at that price. *)
Theorem edge_book_is_current dev persist cs m b :
  e_orderbooks (calls now_ns ulid order_iter (new_edge dev persist) cs) !! m = Some b ->
  best_first b /\ forall P,
    level_qty P (bk_bids b) = rests m true P (calls now_ns ulid order_iter (new_edge dev persist) cs)
    /\ level_qty P (bk_asks b) = rests m false P (calls now_ns ulid order_iter (new_edge dev persist) cs).
Proof.
  revert b. change (current m (calls now_ns ulid order_iter (new_edge dev persist) cs)).
  assert (Hgen : forall st, Inv ulid (e_ticks st) st -> current m st -> current m (calls now_ns ulid order_iter st cs)).
  { induction cs as [|c cs IH]; intros st HI Hc; [done|]. apply IH; [by apply call_inv|by apply call_current]. }
  apply Hgen; [apply new_edge_inv|]. intros b Hb.
  change (default_books !! m = Some b) in Hb. unfold default_books in Hb.
  assert (Hb0 : b = mkBookSnapshot 0 [] []).
  { repeat (apply lookup_insert_Some in Hb as [[_ <-]|[_ Hb]]; [done|]). by rewrite lookup_empty in Hb. }
  subst b. split; [split; constructor|]. intros P. unfold rests. cbn [e_open_orders new_edge]. by rewrite !gsum_empty.
Qed.

End Book.
