(* ===== verification/EdgeDb.v ===== *)
(** * The edge server's database ([crates/perplex-edge/src/db.rs])

    The tables the writer task fills from the persisted events, with the
    constraints of migrations/0001_init.sql, and what a restart loads from
    them.  A write that fails (a key that is there already) is logged and
    skipped.  The order in which a query without [ORDER BY] returns its rows
    is not defined: [load_orders] and [load_positions] take any permutation
    of the table.  Funding samples are left out. *)

From S2P Require Import Prelude JsNum JsText JsColl EdgeDecimal EdgeState EdgeHandlers EdgeLedger EdgeMatch EdgeInv EdgeBook.
From stdpp Require Import gmap.
#[local] Open Scope Z_scope.

Record Db := mkDb {
  db_orders : list (string * OpenOrder);           (* id is the primary key *)
  db_positions : list (string * PositionInfo);     (* (address, market_id) is the primary key *)
  db_fills : list (string * FillInfo);             (* id is the primary key; in [seq] order *)
  db_vaults : gmap string string;
  db_trades : list PublicTrade                     (* id is the primary key; in [seq] order *)
}.

Definition empty_db : Db := mkDb [] [] [] ∅ [].

Definition has_order (id : string) (rows : list (string * OpenOrder)) : bool :=
  existsb (fun r => String.eqb (oo_id r.2) id) rows.

(** [INSERT ... ON CONFLICT (id) DO UPDATE SET remaining]. *)
Definition upsert_order (address : string) (order : OpenOrder) (rows : list (string * OpenOrder))
  : list (string * OpenOrder) :=
  if has_order (oo_id order) rows then
    map (fun r => if String.eqb (oo_id r.2) (oo_id order) then (r.1, set_remaining (oo_remaining order) r.2) else r) rows
  else rows ++ [(address, order)].

(** A transaction of plain [INSERT]s: [None] when a key is taken. *)
Fixpoint insert_orders (address : string) (orders : list OpenOrder) (rows : list (string * OpenOrder))
  : option (list (string * OpenOrder)) :=
  match orders with
  | [] => Some rows
  | o :: os => if has_order (oo_id o) rows then None else insert_orders address os (rows ++ [(address, o)])
  end.

Definition has_position (address market_id : string) (rows : list (string * PositionInfo)) : bool :=
  existsb (fun r => String.eqb r.1 address && String.eqb (po_market_id r.2) market_id) rows.

Fixpoint insert_positions (address : string) (ps : list PositionInfo) (rows : list (string * PositionInfo))
  : option (list (string * PositionInfo)) :=
  match ps with
  | [] => Some rows
  | p :: ps' =>
      if has_position address (po_market_id p) rows then None else insert_positions address ps' (rows ++ [(address, p)])
  end.

Definition not_of {A} (address : string) (rows : list (string * A)) : list (string * A) :=
  List.filter (fun r => negb (String.eqb r.1 address)) rows.

(** [Db::apply] as the writer task runs it: a failed write leaves the tables as they were. *)
Definition apply (db : Db) (ev : PersistEvent) : Db :=
  match ev with
  | UpsertOrder address order =>
      mkDb (upsert_order address order (db_orders db)) (db_positions db) (db_fills db) (db_vaults db) (db_trades db)
  | DeleteOrder id =>
      mkDb (List.filter (fun r => negb (String.eqb (oo_id r.2) id)) (db_orders db)) (db_positions db) (db_fills db)
        (db_vaults db) (db_trades db)
  | SyncOrders address orders =>
      match insert_orders address orders (not_of address (db_orders db)) with
      | Some rows => mkDb rows (db_positions db) (db_fills db) (db_vaults db) (db_trades db)
      | None => db
      end
  | InsertFill address fill =>
      if existsb (fun r => String.eqb (fi_id r.2) (fi_id fill)) (db_fills db) then db
      else mkDb (db_orders db) (db_positions db) (db_fills db ++ [(address, fill)]) (db_vaults db) (db_trades db)
  | SyncPositions address positions =>
      match insert_positions address positions (not_of address (db_positions db)) with
      | Some rows => mkDb (db_orders db) rows (db_fills db) (db_vaults db) (db_trades db)
      | None => db
      end
  | UpsertVault address amount =>
      mkDb (db_orders db) (db_positions db) (db_fills db) (<[address := amount]> (db_vaults db)) (db_trades db)
  | InsertTrade trade =>
      if existsb (fun t => String.eqb (pt_id t) (pt_id trade)) (db_trades db) then db
      else mkDb (db_orders db) (db_positions db) (db_fills db) (db_vaults db) (db_trades db ++ [trade])
  end.

(** The writer task on the events of a run. *)
Definition written (evs : list PersistEvent) : Db := foldl apply empty_db evs.

(** Rows grouped by account, in the order they come. *)
Definition rows_of {A} (address : string) (rows : list (string * A)) : list A :=
  map snd (List.filter (fun r => String.eqb r.1 address) rows).

Definition group {A} (rows : list (string * A)) : gmap string (list A) :=
  foldl (fun m r => alter_default (fun l => l ++ [r.2]) r.1 m) ∅ rows.

(** [load_snapshot] on tables whose rows come in the given orders, into a
    server whose clock and ids have reached tick [n]. *)
Definition load (dev : bool) (n : nat) (order_rows : list (string * OpenOrder)) (position_rows : list (string * PositionInfo)) (db : Db) : Edge :=
  mkEdge default_books (group (map (fun t => (pt_market_id t, t)) (db_trades db))) (group order_rows)
    (group position_rows) (group (db_fills db)) (db_vaults db) ∅ ∅ dev (Some []) n.

(** [new_persisted]: load, and rebuild every market's book. *)
Definition restart `{D : Decimals} (order_iter : gmap string (list OpenOrder) -> list (string * list OpenOrder))
  (dev : bool) (n : nat) (markets : list string) (order_rows : list (string * OpenOrder)) (position_rows : list (string * PositionInfo)) (db : Db)
  : Edge := foldl (fun st m => rebuild_orderbook order_iter m st) (load dev n order_rows position_rows db) markets.

(** ** Facts about rows *)

Lemma rows_of_app {A} a (r1 r2 : list (string * A)) : rows_of a (r1 ++ r2) = rows_of a r1 ++ rows_of a r2.
Proof. unfold rows_of. by rewrite List.filter_app, map_app. Qed.

Lemma rows_of_one {A} a b (x : A) : rows_of a [(b, x)] = if decide (b = a) then [x] else [].
Proof. unfold rows_of. cbn. rewrite string_eqb_decide. case_bool_decide; by case_decide. Qed.

Lemma rows_of_not_of {A} a b (rows : list (string * A)) :
  rows_of a (not_of b rows) = if decide (a = b) then [] else rows_of a rows.
Proof.
  unfold rows_of, not_of. induction rows as [|[c x] rows IH]; [by case_decide|].
  cbn [List.filter fst]. destruct (String.eqb_spec c b) as [->|Hcb]; cbn [negb].
  - rewrite IH. case_decide; [done|]. by rewrite string_eqb_ne by congruence.
  - cbn [List.filter fst]. destruct (String.eqb_spec c a) as [->|Hca]; [|exact IH].
    cbn [map]. rewrite IH. by rewrite !decide_False by congruence.
Qed.

Lemma elem_of_rows {A} a x (rows : list (string * A)) : (a, x) ∈ rows <-> x ∈ rows_of a rows.
Proof.
  unfold rows_of. rewrite list_elem_of_fmap. split.
  - intros Hin. exists (a, x). split; [done|]. apply list_elem_of_In, filter_In. split; [by apply list_elem_of_In|].
    apply string_eqb_refl.
  - intros ([b y] & -> & Hin). apply list_elem_of_In, filter_In in Hin as [Hin Hb]. cbn in *.
    apply String.eqb_eq in Hb. subst. by apply list_elem_of_In.
Qed.

Lemma group_rows {A} (rows : list (string * A)) a : default [] (group rows !! a) = rows_of a rows.
Proof.
  induction rows as [|[b x] rows IH] using rev_ind; [unfold group; cbn; by rewrite lookup_empty|].
  unfold group in *. rewrite foldl_app, rows_of_app, rows_of_one. cbn [foldl fst snd]. unfold alter_default.
  case_decide; subst; [by rewrite fin_maps.lookup_insert_eq, <- IH|].
  by rewrite lookup_insert_ne, app_nil_r by done.
Qed.

Lemma rows_of_perm {A} a (r1 r2 : list (string * A)) : r1 ≡ₚ r2 -> rows_of a r1 ≡ₚ rows_of a r2.
Proof. intros Hp. unfold rows_of. apply Permutation_map. induction Hp; cbn [List.filter]; repeat case_match; try done; [by constructor|by constructor|by etransitivity]. Qed.

(** ** Inserts *)

Lemma has_order_false id rows :
  has_order id rows = false <-> forall a o, o ∈ rows_of a rows -> oo_id o <> id.
Proof.
  unfold has_order. rewrite <- not_true_iff_false, existsb_exists. split.
  - intros Hn a o Ho He. apply Hn. exists (a, o). apply elem_of_rows in Ho. split; [by apply list_elem_of_In|].
    by apply String.eqb_eq.
  - intros Hall ([a o] & Hin & He). apply String.eqb_eq in He. apply list_elem_of_In, elem_of_rows in Hin. by eapply Hall.
Qed.

Lemma insert_orders_ok a os : forall rows,
  NoDup (map oo_id os) -> (forall o, o ∈ os -> has_order (oo_id o) rows = false) ->
  insert_orders a os rows = Some (rows ++ map (pair a) os).
Proof.
  induction os as [|o os IH]; intros rows Hnd Hf; [by rewrite app_nil_r|]. simpl in Hnd. apply NoDup_cons in Hnd as [Hni Hnd].
  cbn [insert_orders]. rewrite (Hf o) by (by left). rewrite IH; [by rewrite <- app_assoc|done|].
  intros o' Ho'. apply has_order_false. intros b x. rewrite rows_of_app, elem_of_app. intros [Hx|Hx].
  - pose proof (Hf o' ltac:(by right)) as Hf'. rewrite has_order_false in Hf'. by eapply Hf'.
  - rewrite rows_of_one in Hx. case_decide; [|by apply elem_of_nil in Hx]. apply list_elem_of_singleton in Hx. subst x.
    intros He. apply Hni. rewrite He. by apply (list_elem_of_fmap_2 oo_id).
Qed.

Lemma rows_of_pairs {A} a b (l : list A) : rows_of b (map (pair a) l) = if decide (a = b) then l else [].
Proof.
  unfold rows_of. induction l as [|x l IH]; [by case_decide|]. cbn [map List.filter fst].
  destruct (String.eqb_spec a b); [|rewrite IH; by rewrite !decide_False]. cbn [map snd]. rewrite IH. by rewrite !decide_True.
Qed.

Lemma insert_positions_ok a ps : forall rows,
  NoDup (map po_market_id ps) -> (forall p q, p ∈ ps -> q ∈ rows_of a rows -> po_market_id p <> po_market_id q) ->
  insert_positions a ps rows = Some (rows ++ map (pair a) ps).
Proof.
  induction ps as [|p ps IH]; intros rows Hnd Hf; [by rewrite app_nil_r|]. simpl in Hnd. apply NoDup_cons in Hnd as [Hni Hnd].
  cbn [insert_positions].
  assert (Hh : has_position a (po_market_id p) rows = false).
  { unfold has_position. apply not_true_iff_false. rewrite existsb_exists. intros ([b q] & Hin & He). cbn in He.
    bool_to_prop. subst. apply list_elem_of_In, elem_of_rows in Hin. by apply (Hf p q); [left|..]. }
  rewrite Hh, IH; [by rewrite <- app_assoc|done|]. intros p' q Hp'. rewrite rows_of_app, elem_of_app, rows_of_one, decide_True by done.
  rewrite list_elem_of_singleton. intros [Hq| ->]; [apply Hf; [by right|done]|].
  intros He. apply Hni. rewrite <- He. by apply (list_elem_of_fmap_2 po_market_id).
Qed.

(** ** The mirror *)

Section Mirror.
Context `{D : Decimals} {L : DecimalLaws}.
Variables (now_ns : nat -> Z) (ulid : nat -> string).
Variable order_iter : gmap string (list OpenOrder) -> list (string * list OpenOrder).
Hypothesis order_iter_perm : forall m, order_iter m ≡ₚ map_to_list m.
Hypothesis ulid_inj : forall i j, ulid i = ulid j -> i = j.

Definition trades_of (m : string) (ts : list PublicTrade) : list PublicTrade :=
  List.filter (fun t => String.eqb (pt_market_id t) m) ts.

(** The tables hold what the stores hold, and every id was made before tick [n]. *)
Record Mirror (n : nat) (db : Db) (st : Edge) : Prop := {
  mi_orders : forall a, rows_of a (db_orders db) = orders_of (e_open_orders st) a;
  mi_positions : forall a, rows_of a (db_positions db) = positions_for a st;
  mi_fills : forall a, rows_of a (db_fills db) = default [] (e_fills st !! a);
  mi_vaults : db_vaults db = e_vault_balances st;
  mi_trades : forall m, trades_of m (db_trades db) = default [] (e_public_trades st !! m);
  mi_fill_ids : forall a f, (a, f) ∈ db_fills db -> exists k, (k < n)%nat /\ fi_id f = "fil_" +:+ ulid k;
  mi_trade_ids : forall t, t ∈ db_trades db -> exists k, (k < n)%nat /\ pt_id t = "trd_" +:+ ulid k;
  mi_markets : forall a, NoDup (map po_market_id (positions_for a st))
}.

(** The stores a mirror is about. *)
Lemma Mirror_same n db st st' :
  e_open_orders st' = e_open_orders st -> e_positions st' = e_positions st -> e_fills st' = e_fills st ->
  e_vault_balances st' = e_vault_balances st -> e_public_trades st' = e_public_trades st ->
  Mirror n db st -> Mirror n db st'.
Proof.
  intros Ho Hp Hf Hv Ht []. split; unfold positions_for in *; rewrite ?Ho, ?Hp, ?Hf, ?Hv, ?Ht; auto.
Qed.

Lemma Mirror_mono n n' db st : (n <= n')%nat -> Mirror n db st -> Mirror n' db st.
Proof.
  intros Hn []. split; auto.
  - intros a f Hf. destruct (mi_fill_ids0 a f Hf) as (k & Hk & He). exists k. split; [lia|done].
  - intros t Ht. destruct (mi_trade_ids0 t Ht) as (k & Hk & He). exists k. split; [lia|done].
Qed.

Lemma Mirror_vault n db st a amount :
  Mirror n db st -> Mirror n (apply db (UpsertVault a amount)) (set_vault_balance a amount st).
Proof. intros []. split; auto. cbn. by rewrite mi_vaults0. Qed.

Lemma Mirror_fill n db st a f k :
  Mirror n db st -> (n <= k)%nat -> fi_id f = "fil_" +:+ ulid k ->
  Mirror (S k) (apply db (InsertFill a f)) (record_fill a f st).
Proof.
  intros HM Hk Hf. destruct HM as [Ho Hp Hfs Hv Ht Hfi Hti Hm]. cbn [apply].
  assert (Hnew : existsb (fun r : string * FillInfo => String.eqb (fi_id r.2) (fi_id f)) (db_fills db) = false).
  { apply not_true_iff_false. rewrite existsb_exists. intros ([b g] & Hin & He). apply String.eqb_eq in He. cbn in He.
    destruct (Hfi b g) as (j & Hj & Hg); [by apply list_elem_of_In|]. rewrite Hf, Hg in He. injection He as He.
    apply ulid_inj in He. lia. }
  rewrite Hnew. split; cbn [db_orders db_positions db_fills db_vaults db_trades]; auto.
  - intros b. rewrite rows_of_app, rows_of_one. cbn [e_fills record_fill set_fills emit set_persist]. unfold alter_default.
    case_decide; subst; [by rewrite fin_maps.lookup_insert_eq, Hfs|]. by rewrite lookup_insert_ne, app_nil_r.
  - intros b g. rewrite elem_of_app, list_elem_of_singleton. intros [Hin|[= -> ->]]; [|exists k; split; [lia|done]].
    destruct (Hfi b g Hin) as (j & Hj & He). exists j. split; [lia|done].
  - intros t Hin. destruct (Hti t Hin) as (j & Hj & He). exists j. split; [lia|done].
Qed.

Lemma Mirror_trade n db st m t k :
  Mirror n db st -> (n <= k)%nat -> pt_id t = "trd_" +:+ ulid k -> pt_market_id t = m ->
  Mirror (S k) (apply db (InsertTrade t)) (record_trade m t st).
Proof.
  intros HM Hk Hid Hmk. destruct HM as [Ho Hp Hfs Hv Ht Hfi Hti Hm]. cbn [apply].
  assert (Hnew : existsb (fun x => String.eqb (pt_id x) (pt_id t)) (db_trades db) = false).
  { apply not_true_iff_false. rewrite existsb_exists. intros (x & Hin & He). apply String.eqb_eq in He.
    destruct (Hti x) as (j & Hj & Hx); [by apply list_elem_of_In|]. rewrite Hid, Hx in He. injection He as He.
    apply ulid_inj in He. lia. }
  rewrite Hnew. split; cbn [db_orders db_positions db_fills db_vaults db_trades]; auto.
  - intros m'. unfold trades_of. rewrite List.filter_app. cbn [List.filter].
    cbn [e_public_trades record_trade set_public_trades emit set_persist]. unfold alter_default. rewrite Hmk.
    fold (trades_of m' (db_trades db)). rewrite Ht.
    destruct (String.eqb_spec m m') as [->|Hne]; [by rewrite fin_maps.lookup_insert_eq|].
    by rewrite lookup_insert_ne, app_nil_r.
  - intros b g Hin. destruct (Hfi b g Hin) as (j & Hj & He). exists j. split; [lia|done].
  - intros x. rewrite elem_of_app, list_elem_of_singleton. intros [Hin| ->]; [|exists k; split; [lia|done]].
    destruct (Hti x Hin) as (j & Hj & He). exists j. split; [lia|done].
Qed.

(** ** Positions *)

Lemma Mirror_positions n db st st' a ps :
  Mirror n db st -> NoDup (map po_market_id ps) ->
  e_open_orders st' = e_open_orders st -> e_fills st' = e_fills st -> e_vault_balances st' = e_vault_balances st ->
  e_public_trades st' = e_public_trades st -> e_positions st' = <[a := ps]> (e_positions st) ->
  Mirror n (apply db (SyncPositions a ps)) st'.
Proof.
  intros [Ho Hp Hfs Hv Ht Hfi Hti Hm] Hnd Eo Ef Ev Et Ep. cbn [apply].
  rewrite insert_positions_ok; [|done|intros p q _; rewrite rows_of_not_of, decide_True by done; by rewrite elem_of_nil].
  assert (Hpf : forall b, positions_for b st' = if decide (a = b) then ps else positions_for b st).
  { intros b. unfold positions_for. rewrite Ep. case_decide; subst; [by rewrite fin_maps.lookup_insert_eq|].
    by rewrite lookup_insert_ne. }
  split; cbn [db_orders db_positions db_fills db_vaults db_trades]; rewrite ?Eo, ?Ef, ?Ev, ?Et; auto.
  - intros b. rewrite rows_of_app, rows_of_not_of, rows_of_pairs, Hpf. repeat case_decide; subst; try done.
    by rewrite app_nil_r.
  - intros b. rewrite Hpf. case_decide; [done|apply Hm].
Qed.

Lemma fill_positions_in m side q p ts l x :
  x ∈ map po_market_id (fill_positions m side q p ts l) -> x = m \/ x ∈ map po_market_id l.
Proof.
  induction l as [|p0 l IH]; cbn [fill_positions map]; [set_solver|].
  unfold in_market. destruct (String.eqb_spec (po_market_id p0) m); [|cbn [map]; set_solver].
  destruct (fill_position p0 side q p ts) as [p'|] eqn:E; cbn [map]; [|set_solver].
  rewrite (proj1 (fill_position_same _ _ _ _ _ _ E)). set_solver.
Qed.

Lemma fill_positions_markets m side q p ts l :
  NoDup (map po_market_id l) -> NoDup (map po_market_id (fill_positions m side q p ts l)).
Proof.
  induction l as [|p0 l IH]; intros Hnd; [cbn; apply NoDup_singleton|]. cbn [map] in Hnd.
  apply NoDup_cons in Hnd as [Hni Hnd]. cbn [fill_positions]. unfold in_market.
  destruct (String.eqb_spec (po_market_id p0) m) as [He|He].
  - destruct (fill_position p0 side q p ts) as [p'|] eqn:E; [|done]. cbn [map].
    rewrite (proj1 (fill_position_same _ _ _ _ _ _ E)). by apply NoDup_cons.
  - cbn [map]. apply NoDup_cons. split; [|by apply IH].
    intros Hin. apply fill_positions_in in Hin as [Hin|Hin]; done.
Qed.

(** What has been sent to the writer, applied, mirrors the stores. *)
Definition Mirrored (n : nat) (st : Edge) : Prop :=
  exists evs, e_persist st = Some evs /\ Mirror n (written evs) st.

Lemma Mirrored_emit n n' st st' ev :
  Mirrored n st -> e_persist st' = (fun evs => evs ++ [ev]) <$> e_persist st ->
  (forall db, Mirror n db st -> Mirror n' (apply db ev) st') -> Mirrored n' st'.
Proof.
  intros (evs & He & HM) Hp Ha. exists (evs ++ [ev]). rewrite Hp, He. split; [done|].
  unfold written. rewrite foldl_app. by apply Ha.
Qed.

Lemma Mirrored_same n n' st st' :
  Mirrored n st -> (n <= n')%nat -> e_persist st' = e_persist st ->
  e_open_orders st' = e_open_orders st -> e_positions st' = e_positions st -> e_fills st' = e_fills st ->
  e_vault_balances st' = e_vault_balances st -> e_public_trades st' = e_public_trades st -> Mirrored n' st'.
Proof.
  intros (evs & He & HM) Hn Hp. intros. exists evs. rewrite Hp. split; [done|]. eapply Mirror_mono; [exact Hn|].
  by eapply Mirror_same.
Qed.

Lemma Mirrored_upsert n a m s q p st : Mirrored n st -> Mirrored n (upsert_position now_ns a m s q p st).
Proof.
  intros HM. assert (Hnd : forall db, Mirror n db st -> NoDup (map po_market_id (positions_for a st))) by (intros db []; auto).
  eapply Mirrored_emit; [exact HM|reflexivity|]. intros db Hdb.
  eapply Mirror_positions; [exact Hdb| |try reflexivity..].
  - unfold positions_for, apply_position_fill. cbn [e_positions tick set_position_map]. unfold alter_default.
    rewrite fin_maps.lookup_insert_eq. cbn [default]. apply fill_positions_markets, (Hnd db Hdb).
  - unfold positions_for, apply_position_fill, upsert_position. cbn [e_positions tick set_position_map emit set_persist].
    unfold alter_default. by rewrite fin_maps.lookup_insert_eq.
Qed.

Lemma Mirrored_vault n a amount st : Mirrored n st -> Mirrored n (set_vault_balance a amount st).
Proof. intros HM. eapply Mirrored_emit; [exact HM|reflexivity|]. intros db. apply Mirror_vault. Qed.

Lemma Mirrored_adjust n a d st : Mirrored n st -> Mirrored n (adjust_vault a d st).
Proof. intros HM. unfold adjust_vault. case_match; [done|]. by apply Mirrored_vault. Qed.

Lemma Mirrored_fill n a f k st :
  Mirrored n st -> (n <= k)%nat -> fi_id f = "fil_" +:+ ulid k -> Mirrored (S k) (record_fill a f st).
Proof. intros HM Hk Hf. eapply Mirrored_emit; [exact HM|reflexivity|]. intros db Hdb. by eapply Mirror_fill. Qed.

Lemma Mirrored_trade n m t k st :
  Mirrored n st -> (n <= k)%nat -> pt_id t = "trd_" +:+ ulid k -> pt_market_id t = m -> Mirrored (S k) (record_trade m t st).
Proof. intros HM Hk Ht Hm. eapply Mirrored_emit; [exact HM|reflexivity|]. intros db Hdb. by eapply Mirror_trade. Qed.

Lemma Mirrored_tick n st : Mirrored n st -> Mirrored n (tick st).
Proof. intros HM. by eapply Mirrored_same. Qed.

Lemma Mirrored_mono n n' st : (n <= n')%nat -> Mirrored n st -> Mirrored n' st.
Proof. intros Hn HM. by eapply Mirrored_same. Qed.

Lemma settle_match_mirrored user m s oid f r st x :
  Mirrored (e_ticks st) st ->
  Mirrored (e_ticks (settle_match now_ns ulid user m s oid f r st x)) (settle_match now_ns ulid user m s oid f r st x).
Proof.
  intros HM. unfold settle_match. cbv zeta.
  match goal with |- Mirrored (e_ticks ?y) _ => set (fin := y) end.
  assert (Ht : e_ticks fin = (e_ticks st + 5)%nat).
  { unfold fin. unfold upsert_position, apply_position_fill, record_trade. cbn [e_ticks tick set_position_map emit set_persist set_public_trades].
    rewrite !(proj2 (adjust_vault_orders _ _ _)). cbn. lia. }
  rewrite Ht. unfold fin. clear fin Ht. do 2 apply Mirrored_upsert.
  apply Mirrored_tick, (Mirrored_mono (S (e_ticks st + 2))); [lia|].
  eapply Mirrored_trade; [do 2 apply Mirrored_adjust| |cbn [pt_id]; do 2 f_equal|done].
  - apply Mirrored_tick. eapply Mirrored_fill; [apply Mirrored_tick; eapply Mirrored_fill; [exact HM|done|done]| |done]. done.
  - cbn. lia.
  - rewrite !(proj2 (adjust_vault_orders _ _ _)). cbn. lia.
Qed.

Lemma settle_matches_mirrored user m s oid f r ms : forall st,
  Mirrored (e_ticks st) st ->
  let st' := foldl (settle_match now_ns ulid user m s oid f r) st ms in Mirrored (e_ticks st') st'.
Proof. induction ms as [|x ms IH]; intros st HM; [done|]. cbn [foldl]. by apply IH, settle_match_mirrored. Qed.


(** ** Orders *)

(** A change of the order table alone. *)
Lemma Mirror_orders n db st st' rows :
  Mirror n db st -> (forall a, rows_of a rows = orders_of (e_open_orders st') a) ->
  e_positions st' = e_positions st -> e_fills st' = e_fills st -> e_vault_balances st' = e_vault_balances st ->
  e_public_trades st' = e_public_trades st ->
  Mirror n (mkDb rows (db_positions db) (db_fills db) (db_vaults db) (db_trades db)) st'.
Proof.
  intros [Ho Hp Hfs Hv Ht Hfi Hti Hm] Hr Ep Ef Ev Et.
  split; unfold positions_for in *; cbn [db_orders db_positions db_fills db_vaults db_trades]; rewrite ?Ep, ?Ef, ?Ev, ?Et; auto.
Qed.

Lemma rebuild_stores m st :
  let st' := rebuild_orderbook order_iter m st in
  e_open_orders st' = e_open_orders st /\ e_positions st' = e_positions st /\ e_fills st' = e_fills st
  /\ e_vault_balances st' = e_vault_balances st /\ e_public_trades st' = e_public_trades st /\ e_persist st' = e_persist st.
Proof. unfold rebuild_orderbook. by destruct (foldl _ _ _). Qed.

Lemma Mirrored_rebuild n m st : Mirrored n st -> Mirrored n (rebuild_orderbook order_iter m st).
Proof. intros HM. destruct (rebuild_stores m st) as (? & ? & ? & ? & ? & ?). by eapply Mirrored_same. Qed.

Lemma Mirrored_add n k a o st :
  Mirrored n st -> Ids ulid (e_open_orders st) k -> oo_id o = order_name ulid k -> Mirrored n (add_open_order order_iter a o st).
Proof.
  intros HM Hi Ho. unfold add_open_order. cbv zeta. apply Mirrored_rebuild.
  eapply Mirrored_emit; [exact HM|reflexivity|]. intros db Hdb. pose proof (mi_orders _ _ _ Hdb) as Hr.
  eapply Mirror_orders; [exact Hdb| |reflexivity..]. intros b. unfold upsert_order.
  assert (Hh : has_order (oo_id o) (db_orders db) = false).
  { apply has_order_false. intros c o' Ho'. rewrite Hr in Ho'. intros He.
    destruct (ids_fresh _ _ _ Hi c (oo_id o')) as (j & Hj & Hij); [by apply (list_elem_of_fmap_2 oo_id)|].
    rewrite He, Ho in Hij. apply order_name_inj in Hij; [lia|done]. }
  rewrite Hh, rows_of_app, rows_of_one, Hr. cbn [e_open_orders set_open_orders emit set_persist]. unfold alter_default.
  rewrite orders_of_insert. case_decide; subst; [done|]. by rewrite app_nil_r.
Qed.

Lemma filter_none {A} (p : A -> bool) l : (forall x, x ∈ l -> p x = true) -> List.filter p l = l.
Proof.
  induction l as [|x l IH]; intros Hp; [done|]. cbn [List.filter]. rewrite (Hp x) by (by left).
  f_equal. apply IH. intros. apply Hp. by right.
Qed.

Lemma filter_same_length {A} (p : A -> bool) l : length (List.filter p l) = length l -> List.filter p l = l.
Proof.
  induction l as [|x l IH]; [done|]. cbn [List.filter]. case_match; cbn [length]; intros Hl; [f_equal; apply IH; lia|].
  pose proof (List.filter_length_le p l). lia.
Qed.

Lemma rows_of_filter_id id a rows :
  rows_of a (List.filter (fun r : string * OpenOrder => negb (String.eqb (oo_id r.2) id)) rows)
    = List.filter (fun o => negb (has_id id o)) (rows_of a rows).
Proof.
  unfold rows_of, has_id. induction rows as [|[b o] rows IH]; [done|]. cbn [List.filter fst snd].
  destruct (String.eqb (oo_id o) id) eqn:E1, (String.eqb b a) eqn:E2; cbn [negb List.filter fst snd map];
    rewrite ?E1, ?E2; cbn [negb map List.filter snd]; rewrite ?IH, ?E1; done.
Qed.

Lemma Mirrored_cancel n k a oid st :
  Mirrored n st -> Ids ulid (e_open_orders st) k -> Mirrored n (cancel_order order_iter a oid st).2.
Proof.
  intros HM Hi. unfold cancel_order. destruct (e_open_orders st !! a) as [l|] eqn:El; [|exact HM].
  assert (Hl : orders_of (e_open_orders st) a = l) by (unfold orders_of; by rewrite El).
  set (kept := List.filter _ l). set (st1 := set_open_orders _ st).
  assert (Hgoal : Mirrored n (if negb (length kept =? length l)%nat then emit (DeleteOrder oid) st1 else st1)).
  { destruct (length kept =? length l)%nat eqn:Elen; cbn [negb].
    - assert (Hk : kept = l).
      { apply Nat.eqb_eq in Elen. by apply filter_same_length. }
      destruct HM as (evs & He & HMr). exists evs. split; [done|]. eapply Mirror_same; [| | | | |exact HMr]; try done.
      unfold st1. cbn [e_open_orders set_open_orders]. rewrite Hk. by apply insert_id.
    - eapply Mirrored_emit; [exact HM|reflexivity|]. intros db Hdb. pose proof (mi_orders _ _ _ Hdb) as Hr.
      eapply Mirror_orders; [exact Hdb| |reflexivity..]. intros b. rewrite rows_of_filter_id, Hr. unfold st1.
      cbn [e_open_orders set_open_orders emit set_persist]. rewrite orders_of_insert. case_decide as Hab; [by rewrite <- Hab, Hl|].
      apply filter_none. intros o Ho. unfold has_id. apply negb_true_iff, String.eqb_neq. intros He.
      assert (Hne : exists x, x ∈ l /\ has_id oid x = true).
      { destruct (List.find (has_id oid) l) as [x|] eqn:Ef.
        - apply find_some in Ef as [Hx1 Hx2]. exists x. split; [by apply list_elem_of_In|done].
        - exfalso. apply Nat.eqb_neq in Elen. apply Elen. f_equal. unfold kept. apply filter_none. intros x Hx.
          by rewrite (find_none _ _ Ef x) by (by apply list_elem_of_In). }
      destruct Hne as (x & Hx & Hxid). unfold has_id in Hxid. apply String.eqb_eq in Hxid.
      assert (a = b); [|done]. eapply (ids_apart _ _ _ Hi a b oid).
      + rewrite <- Hxid. unfold ids_of. rewrite Hl. by apply (list_elem_of_fmap_2 oo_id).
      + rewrite <- He. unfold ids_of. by apply (list_elem_of_fmap_2 oo_id). }
  destruct (oo_market_id <$> _); cbn [snd]; [by apply Mirrored_rebuild|done].
Qed.

(** ** Matching *)

Lemma cross_candidate_cases_fill c k :
  (cr_orders (cross_candidate now_ns c k) = cr_orders k /\ cr_filled (cross_candidate now_ns c k) = cr_filled k)
  \/ exists l f, mf_maker_address f = ca_addr c
     /\ cr_orders (cross_candidate now_ns c k) = <[ca_addr c := l]> (cr_orders k)
     /\ cr_filled (cross_candidate now_ns c k) = cr_filled k ++ [f].
Proof.
  unfold cross_candidate. destruct (d_is_zero _); [by left|]. destruct (cr_orders k !! ca_addr c) as [l|]; [|by left].
  destruct (find_order _ l); [|by left]. destruct (d_parse _); [|by left]. destruct (d_is_zero _); [by left|].
  right. eexists _, _. by split; [|split; [reflexivity|reflexivity]].
Qed.

(** An account without a fill keeps its orders. *)
Lemma cross_untouched cs : forall k a,
  let k' := foldl (fun k c => cross_candidate now_ns c k) k cs in
  a ∉ map mf_maker_address (cr_filled k') ->
  orders_of (cr_orders k') a = orders_of (cr_orders k) a /\ a ∉ map mf_maker_address (cr_filled k).
Proof.
  induction cs as [|c cs IH]; intros k a; [done|]. cbn [foldl]. intros Ha.
  destruct (IH (cross_candidate now_ns c k) a Ha) as [Ho Hf]. rewrite Ho.
  destruct (cross_candidate_cases_fill c k) as [[Eo Ef]|(l & f & Hm & Eo & Ef)]; rewrite Eo; rewrite Ef in Hf; [done|].
  rewrite map_app, elem_of_app in Hf. cbn [map] in Hf. rewrite list_elem_of_singleton, Hm in Hf.
  rewrite orders_of_insert, decide_False by naive_solver. naive_solver.
Qed.

Lemma elem_of_touched a fs : a ∈ touched fs <-> a ∈ map mf_maker_address fs.
Proof.
  unfold touched.
  assert (Hg : forall seen, a ∈ foldl (fun seen f => js_add (mf_maker_address f) seen) seen fs
                 <-> a ∈ seen \/ a ∈ map mf_maker_address fs).
  { induction fs as [|f fs IH]; intros seen; cbn [foldl map]; [rewrite elem_of_nil; naive_solver|].
    rewrite IH, elem_of_js_add, elem_of_cons. naive_solver. }
  rewrite Hg, elem_of_nil. naive_solver.
Qed.

Section Sync.
Variables (old new : string -> list OpenOrder).
Hypothesis new_nodup : forall a, NoDup (map oo_id (new a)).
Hypothesis apart : forall a b oa ob,
  oa ∈ old a \/ oa ∈ new a -> ob ∈ old b \/ ob ∈ new b -> oo_id oa = oo_id ob -> a = b.

Lemma sync_one db a (cur : string -> list OpenOrder) :
  (forall b, rows_of b (db_orders db) = cur b) -> (forall b, cur b = old b \/ cur b = new b) ->
  exists rows, apply db (SyncOrders a (new a)) = mkDb rows (db_positions db) (db_fills db) (db_vaults db) (db_trades db)
    /\ forall b, rows_of b rows = if decide (a = b) then new a else cur b.
Proof.
  intros Hr Hc. cbn [apply]. rewrite insert_orders_ok.
  - eexists. split; [done|]. intros b. rewrite rows_of_app, rows_of_not_of, rows_of_pairs, Hr.
    repeat case_decide; subst; try done. by rewrite app_nil_r.
  - apply new_nodup.
  - intros o Ho. apply has_order_false. intros b o' Ho'. rewrite rows_of_not_of in Ho'. case_decide as Hab; [by apply elem_of_nil in Ho'|].
    rewrite Hr in Ho'. intros He. apply Hab. eapply (apart b a o' o); [|by right|done].
    destruct (Hc b) as [Hb|Hb]; rewrite Hb in Ho'; auto.
Qed.

Lemma sync_all T : forall db cur,
  (forall b, rows_of b (db_orders db) = cur b) -> (forall b, cur b = old b \/ cur b = new b) ->
  exists rows, foldl apply db (map (fun a => SyncOrders a (new a)) T)
                 = mkDb rows (db_positions db) (db_fills db) (db_vaults db) (db_trades db)
    /\ forall b, rows_of b rows = if decide (b ∈ T) then new b else cur b.
Proof.
  induction T as [|a T IH]; intros db cur Hr Hc.
  - exists (db_orders db). split; [by destruct db|]. intros b. rewrite decide_False by set_solver. apply Hr.
  - cbn [map foldl]. destruct (sync_one db a cur Hr Hc) as (rows & -> & Hrows).
    edestruct (IH (mkDb rows (db_positions db) (db_fills db) (db_vaults db) (db_trades db))
                 (fun b => if decide (a = b) then new a else cur b)) as (rows' & -> & Hrows'); [exact Hrows| |].
    + intros b. case_decide; subst; [by right|apply Hc].
    + exists rows'. split; [done|]. intros b. rewrite Hrows'.
      destruct (decide (b ∈ T)); [by rewrite decide_True by set_solver|].
      destruct (decide (a = b)); [subst; by rewrite decide_True by set_solver|]. by rewrite decide_False by set_solver.
Qed.

End Sync.

Lemma sync_makers_persist fs st :
  e_persist (sync_makers fs st)
    = (fun evs => evs ++ map (fun a => SyncOrders a (orders_of (e_open_orders st) a)) (touched fs)) <$> e_persist st.
Proof.
  unfold sync_makers. generalize (touched fs). intros T.
  assert (Hg : forall st', e_open_orders st' = e_open_orders st ->
    e_persist (foldl (fun st addr => emit (SyncOrders addr (open_orders_for addr st)) st) st' T)
      = (fun evs => evs ++ map (fun a => SyncOrders a (orders_of (e_open_orders st) a)) T) <$> e_persist st'); [|by apply Hg].
  induction T as [|a T IH]; intros st' Ho; cbn [foldl map].
  - destruct (e_persist st'); [|done]. cbn. by rewrite app_nil_r.
  - rewrite IH by exact Ho. unfold open_orders_for. cbn [emit set_persist e_persist]. rewrite Ho.
    destruct (e_persist st') as [evs|]; [|done]. cbn [fmap option_fmap option_map]. by rewrite <- app_assoc.
Qed.

Lemma Mirrored_match n k m s tp q taker st :
  Mirrored n st -> Inv ulid k st -> Mirrored n (match_taker now_ns order_iter m s tp q taker st).2.
Proof.
  intros (evs & He & HM) HI.
  pose proof (match_taker_inv now_ns ulid order_iter order_iter_perm m s tp q taker k st HI) as [Hi' _].
  assert (Hids : forall a i, i ∈ ids_of (e_open_orders (match_taker now_ns order_iter m s tp q taker st).2) a
                   -> i ∈ ids_of (e_open_orders st) a).
  { intros a i. destruct (match_taker_orders now_ns ulid order_iter order_iter_perm m s tp q taker k st HI) as (os & [Hx _ _] & -> & _).
    rewrite <- Hx. unfold ids_of. rewrite orders_of_fmap by done. apply sublist_subseteq, filter_ids_sublist. }
  revert Hi' Hids. unfold match_taker. cbv zeta. cbn [snd].
  set (kk := foldl _ _ _). set (st2 := rebuild_orderbook _ _ _).
  rewrite (proj2 (proj2 (sync_makers_frame (cr_filled kk) st2))). intros Hi' Hids. destruct HI as [Hi Hl].
  assert (Hst2 : e_positions st2 = e_positions st /\ e_fills st2 = e_fills st /\ e_vault_balances st2 = e_vault_balances st
            /\ e_public_trades st2 = e_public_trades st /\ e_persist st2 = e_persist st
            /\ e_open_orders st2 = List.filter (unreaped m) <$> cr_orders kk).
  { unfold st2. match goal with |- context [rebuild_orderbook _ ?m0 ?x] => destruct (rebuild_stores m0 x) as (-> & -> & -> & -> & -> & ->) end. done. }
  destruct Hst2 as (Ep & Ef & Ev & Et & Epe & Eo).
  destruct (sync_all (orders_of (e_open_orders st)) (orders_of (e_open_orders st2)) (ids_nodup _ _ _ Hi')) with
    (T := touched (cr_filled kk)) (db := written evs) (cur := orders_of (e_open_orders st)) as (rows & Hdb & Hrows).
  { intros a b oa ob Ha Hb Hid. apply (ids_apart _ _ _ Hi a b (oo_id oa)); [|rewrite Hid].
    - destruct Ha; [|apply Hids]; by apply (list_elem_of_fmap_2 oo_id).
    - destruct Hb; [|apply Hids]; by apply (list_elem_of_fmap_2 oo_id). }
  { apply (mi_orders _ _ _ HM). }
  { by left. }
  exists (evs ++ map (fun a => SyncOrders a (orders_of (e_open_orders st2) a)) (touched (cr_filled kk))).
  split; [by rewrite sync_makers_persist, Epe, He|].
  unfold written. rewrite foldl_app. fold (written evs). rewrite Hdb.
  pose proof (sync_makers_frame (cr_filled kk) st2) as (Sp & Sv & So).
  assert (Sft : e_fills (sync_makers (cr_filled kk) st2) = e_fills st2
            /\ e_public_trades (sync_makers (cr_filled kk) st2) = e_public_trades st2).
  { unfold sync_makers. generalize (touched (cr_filled kk)) st2. clear. intros T. induction T as [|a T IH]; intros st; [done|].
    cbn [foldl]. destruct (IH (emit (SyncOrders a (open_orders_for a st)) st)) as [-> ->]. done. }
  destruct Sft as [Sf St].
  eapply Mirror_orders; [exact HM| |congruence..]. intros a. rewrite So, Hrows. case_decide as Ht; [done|].
  rewrite elem_of_touched in Ht.
  destruct (cross_untouched _ (mkCrossing (e_open_orders st) q [] (e_ticks st)) a Ht) as [Hu _].
  rewrite Eo, orders_of_fmap by done. unfold kk. rewrite Hu. cbn [cr_orders]. symmetry. apply filter_none. intros o Ho.
  pose proof (Hl a) as Hla. rewrite Forall_forall in Hla. destruct (Hla o Ho) as (r & Hr & Hz).
  unfold unreaped. rewrite Hr. unfold d_is_zero. destruct (Z.eqb_spec (units r) 0); [done|]. by rewrite orb_true_r.
Qed.

(** ** Over a history *)

Lemma Mirrored_set_positions n a ps st :
  Mirrored n st -> NoDup (map po_market_id ps) -> Mirrored n (set_positions a ps st).
Proof.
  intros HM Hnd. eapply Mirrored_emit; [exact HM|reflexivity|]. intros db Hdb. by eapply Mirror_positions.
Qed.

Lemma Mirrored_markets n a st : Mirrored n st -> NoDup (map po_market_id (positions_for a st)).
Proof. intros (evs & _ & HM). apply (mi_markets _ _ _ HM). Qed.

Lemma execute_mirrored user req q tp ts n st :
  Inv ulid n st -> (n < e_ticks st)%nat -> Mirrored (e_ticks st) st ->
  let st' := (execute_order now_ns ulid order_iter user req q tp (order_name ulid n) ts st).2 in Mirrored (e_ticks st') st'.
Proof.
  intros HI Hn HM. unfold execute_order.
  pose proof (match_taker_inv now_ns ulid order_iter order_iter_perm (pl_market_id req) (pl_side req) tp q user n st HI) as HI1.
  pose proof (Mirrored_match _ n (pl_market_id req) (pl_side req) tp q user st HM HI) as HM1.
  pose proof (match_taker_ticks now_ns order_iter (pl_market_id req) (pl_side req) tp q user st) as Ht.
  destruct (match_taker _ _ _ _ _ _ _ _) as [ms st1]. cbn [snd] in *.
  destruct (match market _ _ with Some _ => _ | None => _ end) as [f r]. cbn [snd].
  pose proof (settle_matches_mirrored user (pl_market_id req) (pl_side req) (order_name ulid n) f r ms st1
                (Mirrored_mono _ _ _ Ht HM1)) as HM2.
  destruct (settle_matches_orders now_ns ulid user (pl_market_id req) (pl_side req) (order_name ulid n) f r ms st1) as [Ho _].
  case_match; [|exact HM2]. rewrite (proj2 (add_open_order_orders order_iter _ _ _)).
  eapply Mirrored_add; [exact HM2| |reflexivity]. rewrite Ho. apply HI1.
Qed.

Lemma liquidate_mirrored a m st :
  Mirrored (e_ticks st) st ->
  let st' := (liquidate_position now_ns ulid a m st).2 in Mirrored (e_ticks st') st'.
Proof.
  intros HM. unfold liquidate_position. destruct (List.find _ _) as [pos|]; [|exact HM].
  destruct (position_health a pos st) as [h|]; [|exact HM]. case_match; [exact HM|].
  destruct (d_parse (po_size pos)); [|exact HM]. destruct (liq_inputs pos st) as [[[mark c] mm]|]; [|exact HM]. cbn [snd].
  eapply (Mirrored_mono (S (S (S (e_ticks st))))); [cbn; lia|]. apply Mirrored_tick.
  eapply Mirrored_trade; [|reflexivity|reflexivity|reflexivity]. apply Mirrored_tick.
  eapply Mirrored_fill; [|reflexivity|reflexivity]. apply Mirrored_tick. eapply (Mirrored_mono (e_ticks st)); [cbn; lia|].
  apply Mirrored_set_positions; [by apply Mirrored_vault|]. apply NoDup_fmap_filter, (Mirrored_markets _ a st HM).
Qed.

Lemma seed_mirrored n a st : Mirrored n st -> Mirrored n (seed_dev_vault a st).
Proof.
  intros HM. unfold seed_dev_vault. destruct (e_dev_seed_vault st); [|done]. destruct (e_vault_balances st !! a); [done|].
  by apply (Mirrored_vault n a DEV_SEED_USDC_RAW).
Qed.

Lemma seed_ticks a st : e_ticks (seed_dev_vault a st) = e_ticks st.
Proof. unfold seed_dev_vault. by repeat case_match. Qed.

Lemma call_mirrored st c :
  Inv ulid (e_ticks st) st -> Mirrored (e_ticks st) st ->
  Mirrored (e_ticks (call now_ns ulid order_iter st c)) (call now_ns ulid order_iter st c).
Proof.
  intros HI HM. destruct c as [user req|user oid|user|user|m0 p|a|a amount|a m0]; cbn [call].
  - unfold place_order. destruct (validate req st) as [e|[q tp]]; [exact HM|].
    destruct (risk_gate user req q tp st); [exact HM|].
    assert (HM2 : Mirrored (e_ticks (tick (tick st))) (tick (tick st)))
      by (apply Mirrored_tick, Mirrored_tick; eapply Mirrored_mono; [|exact HM]; cbn; lia).
    case_match; [exact HM2|].
    pose proof (execute_mirrored user req q tp (show_Z (now_ns (e_ticks (tick st)))) (e_ticks st) (tick (tick st)) HI
                  ltac:(cbn; lia) HM2) as H1. unfold order_name in H1.
    by destruct (execute_order _ _ _ _ _ _ _ _ _).
  - unfold handle_cancel. pose proof (Mirrored_cancel _ _ user oid st HM (proj1 HI)) as H1.
    pose proof (proj2 (cancel_orders order_iter user oid st)) as Ht. destruct (cancel_order _ _ _ _). cbn [snd] in *. by rewrite Ht.
  - cbn [list_positions snd]. rewrite seed_ticks. by apply seed_mirrored.
  - cbn [get_balance snd]. rewrite seed_ticks. by apply seed_mirrored.
  - by eapply Mirrored_same.
  - eapply Mirrored_same; [exact HM| |reflexivity..]. cbn. lia.
  - by apply Mirrored_vault.
  - by apply liquidate_mirrored.
Qed.

Lemma calls_mirrored dev cs :
  Mirrored (e_ticks (calls now_ns ulid order_iter (new_edge dev true) cs)) (calls now_ns ulid order_iter (new_edge dev true) cs).
Proof.
  assert (Hgen : forall st, Inv ulid (e_ticks st) st -> Mirrored (e_ticks st) st ->
    Mirrored (e_ticks (calls now_ns ulid order_iter st cs)) (calls now_ns ulid order_iter st cs)).
  { induction cs as [|c cs IH]; intros st HI HM; [done|]. apply IH; [by apply call_inv|by apply call_mirrored]. }
  apply Hgen; [apply new_edge_inv|]. exists []. split; [done|].
  split; try (intros; set_solver); intros a; cbn; try (by rewrite ?lookup_empty); constructor.
Qed.

(** ** Restart *)

Lemma zsum_perm_rows m buy P st st' :
  (forall a, orders_of (e_open_orders st') a ≡ₚ orders_of (e_open_orders st) a) -> rests m buy P st' = rests m buy P st.
Proof. intros Hp. apply rests_ext. intros a. by rewrite Hp. Qed.

Lemma restart_stores dev n markets orows prows db :
  let st' := restart order_iter dev n markets orows prows db in
  e_open_orders st' = group orows /\ e_positions st' = group prows /\ e_fills st' = group (db_fills db)
  /\ e_vault_balances st' = db_vaults db /\ e_public_trades st' = group (map (fun t => (pt_market_id t, t)) (db_trades db)).
Proof.
  cbv zeta. unfold restart.
  assert (Hg : forall st, let st' := foldl (fun st m => rebuild_orderbook order_iter m st) st markets in
    e_open_orders st' = e_open_orders st /\ e_positions st' = e_positions st /\ e_fills st' = e_fills st
    /\ e_vault_balances st' = e_vault_balances st /\ e_public_trades st' = e_public_trades st).
  { induction markets as [|m ms IH]; intros st; [done|]. cbv zeta. cbn [foldl].
    destruct (IH (rebuild_orderbook order_iter m st)) as (-> & -> & -> & -> & ->).
    destruct (rebuild_stores m st) as (-> & -> & -> & -> & -> & _). done. }
  destruct (Hg (load dev n orows prows db)) as (-> & -> & -> & -> & ->). done.
Qed.

Lemma restart_current dev n markets orows prows db m :
  m ∈ markets -> current m (restart order_iter dev n markets orows prows db).
Proof.
  unfold restart. generalize (load dev n orows prows db). intros st Hm. revert st.
  assert (Hkeep : forall ms st, current m st -> current m (foldl (fun st m => rebuild_orderbook order_iter m st) st ms)).
  { induction ms as [|m' ms IH]; intros st Hc; [done|]. cbn [foldl]. apply IH.
    destruct (decide (m = m')) as [->|]; [by apply rebuild_current|by apply rebuild_other]. }
  induction markets as [|m' ms IH]; intros st; [set_solver|]. cbn [foldl].
  destruct (decide (m = m')) as [->|Hne]; [by apply Hkeep, rebuild_current|]. apply IH. set_solver.
Qed.

Lemma trades_rows m ts : rows_of m (map (fun t => (pt_market_id t, t)) ts) = trades_of m ts.
Proof.
  unfold rows_of, trades_of. induction ts as [|t ts IH]; [done|]. cbn [map List.filter fst]. case_match; [|done].
  cbn [map snd]. by f_equal.
Qed.

(** C3: A restart recovers the state: for any history of a persisted server,
    the tables that its writer filled load, whatever order their rows come
    in, into the same resting orders and positions of every account, the
    same fills and trades in order, the same vaults, and books that show the
    same quantity at every price. *)
Theorem edge_restart_recovers dev cs evs orows prows markets n :
  let st := calls now_ns ulid order_iter (new_edge dev true) cs in
  e_persist st = Some evs -> orows ≡ₚ db_orders (written evs) -> prows ≡ₚ db_positions (written evs) ->
  let st' := restart order_iter dev n markets orows prows (written evs) in
  (forall a, open_orders_for a st' ≡ₚ open_orders_for a st /\ positions_for a st' ≡ₚ positions_for a st
             /\ vault_balance a st' = vault_balance a st /\ forall k, fills_for a k st' = fills_for a k st)
  /\ (forall m k, public_trades m k st' = public_trades m k st)
  /\ (forall m b P, m ∈ markets -> e_orderbooks st' !! m = Some b ->
        level_qty P (bk_bids b) = rests m true P st /\ level_qty P (bk_asks b) = rests m false P st).
Proof.
  cbv zeta. intros He Ho Hp. set (st := calls _ _ _ _ cs) in *.
  destruct (calls_mirrored dev cs) as (evs' & He' & HM). fold st in He', HM. rewrite He in He'. injection He' as <-.
  destruct HM as [Mo Mp Mf Mv Mt _ _ _].
  destruct (restart_stores dev n markets orows prows (written evs)) as (Eo & Ep & Ef & Ev & Et).
  set (st' := restart _ _ _ _ _ _ _) in *.
  assert (Hor : forall a, orders_of (e_open_orders st') a ≡ₚ orders_of (e_open_orders st) a).
  { intros a. rewrite <- Mo, Eo. unfold orders_of. rewrite group_rows. by apply rows_of_perm. }
  split_and!.
  - intros a. split_and!; [apply Hor| | |].
    + rewrite <- Mp. unfold positions_for. rewrite Ep, group_rows. by apply rows_of_perm.
    + unfold vault_balance. by rewrite Ev, Mv.
    + intros k. unfold fills_for. by rewrite Ef, group_rows, Mf.
  - intros m k. unfold public_trades. by rewrite Et, group_rows, trades_rows, Mt.
  - intros m b P Hm Hb. destruct (restart_current dev n markets orows prows (written evs) m Hm b Hb) as [_ HP].
    fold st' in HP. destruct (HP P) as [-> ->]. split; by apply zsum_perm_rows.
Qed.

End Mirror.
