(* ===== verification/EdgeRuns.v ===== *)
(** * Runs of the edge server

    The server on concrete requests, with the fixed-point decimals of
    [EdgeDecimal]: the witnesses of the ledger's theorems, and behaviours of
    the order flags. *)

From S2P Require Import Prelude JsNum JsText JsColl EdgeDecimal EdgeState EdgeHandlers EdgeLedger EdgeRisk EdgeMatch EdgeInv EdgeBook EdgeDb.
From Stdlib Require Import Sorted Ascii.
From stdpp Require Import gmap.
#[local] Open Scope Z_scope.
#[local] Existing Instance fixed.
#[local] Existing Instance fixed_laws.

Definition clock (n : nat) : Z := 1700000000000000000 + Z.of_nat n.
Definition ids (n : nat) : string := bigint_toString (Z.of_nat n).

Definition sig : string := "0x" +:+ str_repeat "a" 130.

Definition order (side price qty : string) (tif : string) (reduce_only post_only : bool) : PlaceOrderRequest :=
  mkPlaceOrder "btc-usd" side "limit" (Some price) qty tif reduce_only post_only None "1" sig.

Definition gtc (side price qty : string) : PlaceOrderRequest := order side price qty "gtc" false false.

Definition serve : Edge -> list Call -> Edge := calls clock ids map_to_list.
Definition place (user : string) (req : PlaceOrderRequest) (st : Edge) := place_order clock ids map_to_list user req st.

Definition status_of (r : (ApiError + PlaceOrderResponse) * Edge) : ApiError + string :=
  match r.1 with inl e => inl e | inr p => inr (por_status p) end.

(** The sizes an account holds. *)
Definition sizes (user : string) (st : Edge) : list (string * string) :=
  map (fun p => (po_side p, po_size p)) (positions_for user st).

Definition remainings (user : string) (st : Edge) : list (string * string) :=
  map (fun o => (oo_price o, oo_remaining o)) (open_orders_for user st).

(** Two funded accounts: the maker sells two lots, the taker buys across them. *)
Definition opening : list Call :=
  [GetBalance "0xmaker"; GetBalance "0xtaker";
   PlaceOrder "0xmaker" (gtc "sell" "100000" "1"); PlaceOrder "0xmaker" (gtc "sell" "100100" "1");
   PlaceOrder "0xtaker" (gtc "buy" "100200" "1.5")].

Example opening_runs :
  let st := serve (new_edge true false) opening in
  sizes "0xtaker" st = [("long", "1.5")] /\ sizes "0xmaker" st = [("short", "1.5")]
  /\ remainings "0xmaker" st = [("100100", "0.5")]
  /\ bk_asks (default (mkBookSnapshot 0 [] []) (e_orderbooks st !! "btc-usd")) = [("100100", "0.5")]
  /\ vault_balance "0xtaker" st = "99924975000".
Proof. by vm_compute. Qed.

Lemma edge_positions_zero_sum_witness :
  net "btc-usd" (calls clock ids map_to_list (new_edge true false) opening) = 0.
Proof. exact (edge_positions_zero_sum (L := fixed_laws) clock ids map_to_list true false opening "btc-usd" eq_refl). Defined.

(** The taker is liquidated after the index falls; the maker stays short. *)
Definition crash : list Call := opening ++ [SetVault "0xtaker" "10000000000"; OraclePrice "btc-usd" "94000000000000000000000"].

Lemma edge_liquidation_unbalances_witness :
  exists o st', liquidate_position clock ids "0xtaker" "btc-usd" (serve (new_edge true false) crash) = (Some o, st')
    /\ net "btc-usd" st' = - account_net "btc-usd" (positions_for "0xtaker" (serve (new_edge true false) crash)).
Proof.
  destruct (liquidate_position clock ids "0xtaker" "btc-usd" (serve (new_edge true false) crash)) as [[o|] st'] eqn:E;
    [|exfalso; vm_compute in E; discriminate E].
  exists o, st'. split; [reflexivity|].
  exact (edge_liquidation_unbalances (L := fixed_laws) clock ids map_to_list true false crash _ _ _ _ eq_refl E).
Defined.

Example crash_leaves_the_maker_short :
  let st' := (liquidate_position clock ids "0xtaker" "btc-usd" (serve (new_edge true false) crash)).2 in
  sizes "0xtaker" st' = [] /\ sizes "0xmaker" st' = [("short", "1.5")] /\ net "btc-usd" st' = - 15 * 10 ^ 27.
Proof. by vm_compute. Qed.

(** A taker who buys at 100000 and sells at 110000 ends with no position and
    without the 10000 dollars it made: only the fees moved its vault. *)
Theorem edge_round_trip_gain_is_lost :
  let st := serve (new_edge true false)
    [GetBalance "0xmaker"; GetBalance "0xtaker"; GetBalance "0xbuyer";
     PlaceOrder "0xmaker" (gtc "sell" "100000" "1"); PlaceOrder "0xtaker" (gtc "buy" "100000" "1");
     PlaceOrder "0xbuyer" (gtc "buy" "110000" "1"); PlaceOrder "0xtaker" (gtc "sell" "110000" "1")] in
  sizes "0xtaker" st = [] /\ vault_balance "0xtaker" st = "99895000000".
Proof. by vm_compute. Qed.

(** An account with no collateral sells short a million bitcoin by buying
    minus a million; the maker it meets now offers a million and one. *)
Definition negative : PlaceOrderRequest := gtc "buy" "100000" "-1000000".

Theorem edge_negative_order_opens_unbacked_short :
  let st0 := serve (new_edge false false) [SetVault "0xmaker" "100000000000"; PlaceOrder "0xmaker" (gtc "sell" "100000" "1")] in
  let r := place "0xnobody" negative st0 in
  vault_balance "0xnobody" st0 = "0" /\ status_of r = inr "filled"
  /\ map (fun p => (po_side p, d_parse_or_zero (po_size p))) (positions_for "0xnobody" r.2)
     = [("long", - 1000000 * fx_unit)]
  /\ remainings "0xmaker" r.2 = [("100000", "1000001")].
Proof. by vm_compute. Qed.

Lemma edge_negative_qty_passes_gate_witness :
  risk_gate "0xnobody" negative (- 1000000 * fx_unit : @Decimal fixed) (Some (100000 * fx_unit : @Decimal fixed))
    (new_edge false false) = None.
Proof.
  apply (edge_negative_qty_passes_gate (L := fixed_laws)); [done | done | by vm_compute | by vm_compute].
Defined.

(** ** Fees *)

Definition two_vaults : Edge :=
  set_vault_balance "0xmaker" "100000000000" (set_vault_balance "0xtaker" "100000000000" (new_edge false false)).

Definition one_bitcoin : @MatchedFill fixed := mkMatchedFill "0xmaker" "ord_0" (100000 * fx_unit : @Decimal fixed) (fx_unit : @Decimal fixed) 0.

Lemma edge_fill_charges_both_witness :
  funds "0xmaker" (settle_match clock ids "0xtaker" "btc-usd" "buy" "ord_1" 5 (-2) two_vaults one_bitcoin) = 99980000000 * fx_unit.
Proof.
  destruct (market "btc-usd" two_vaults) as [mi|] eqn:E; [|exfalso; by vm_compute in E].
  assert (Hfee : mi_taker_fee_bps mi = 5 /\ mi_maker_rebate_bps mi = -2) by (vm_compute in E; by injection E as <-).
  pose proof (edge_fill_charges_both (L := fixed_laws) clock ids "0xtaker" "btc-usd" "buy" "ord_1" mi two_vaults one_bitcoin "0xmaker" E)
    as Hw. destruct Hfee as [Hf Hr]. rewrite Hf, Hr in Hw. cbv zeta in Hw.
  destruct Hw as (_ & _ & ->); [done|done|]. by vm_compute.
Defined.

(** One bitcoin at 100000: the maker is charged 20 dollars, and its fill says so. *)
Example maker_is_charged :
  let st := settle_match clock ids "0xtaker" "btc-usd" "buy" "ord_1" 5 (-2) two_vaults one_bitcoin in
  vault_balance "0xmaker" st = "99980000000" /\ map fi_fee_usdc (fills_for "0xmaker" 1 st) = ["20000000"].
Proof. by vm_compute. Qed.

(** ** Order flags *)

Definition with_tif (tif : string) (req : PlaceOrderRequest) : PlaceOrderRequest :=
  mkPlaceOrder (pl_market_id req) (pl_side req) (pl_order_type req) (pl_price req) (pl_qty req) tif
    (pl_reduce_only req) (pl_post_only req) (pl_client_order_id req) (pl_nonce req) (pl_signature req).

Definition valid_tif (tif : string) : bool := String.eqb tif "gtc" || String.eqb tif "ioc" || String.eqb tif "fok".

(** The time in force is checked and then ignored: every accepted value gives
    the same answer and the same state, so an [ioc] or [fok] remainder rests. *)
Theorem edge_time_in_force_ignored `{D : Decimals} now_ns ulid order_iter user req t1 t2 st :
  valid_tif t1 = true -> valid_tif t2 = true ->
  place_order now_ns ulid order_iter user (with_tif t1 req) st
    = place_order now_ns ulid order_iter user (with_tif t2 req) st.
Proof.
  unfold valid_tif. intros H1 H2. unfold place_order.
  assert (Hv : validate (with_tif t1 req) st = validate (with_tif t2 req) st).
  { unfold validate. cbn [with_tif pl_market_id pl_side pl_order_type pl_time_in_force pl_signature pl_price pl_qty].
    by rewrite H1, H2. }
  by rewrite Hv.
Qed.

(** A fill-or-kill order that cannot be filled rests in the book. *)
Example fok_rests :
  let st := serve (new_edge true false)
    [GetBalance "0xmaker"; GetBalance "0xtaker"; PlaceOrder "0xmaker" (gtc "sell" "100000" "1");
     PlaceOrder "0xtaker" (order "buy" "100000" "1.5" "fok" false false)] in
  sizes "0xtaker" st = [("long", "1")] /\ remainings "0xtaker" st = [("100000", "0.5")].
Proof. by vm_compute. Qed.

(** A reduce-only order skips the gate and opens a position of any size. *)
Theorem edge_reduce_only_opens :
  let st := serve (new_edge false false)
    [SetVault "0xmaker" "100000000000"; PlaceOrder "0xmaker" (gtc "sell" "100000" "10");
     PlaceOrder "0xnobody" (order "buy" "100000" "10" "gtc" true false)] in
  vault_balance "0xnobody" st = "0" /\ sizes "0xnobody" st = [("long", "10")].
Proof. by vm_compute. Qed.

(** Resting orders reserve no margin: three orders that each use all of the
    free collateral rest together. *)
Example resting_orders_reserve_nothing :
  let st := serve (new_edge false false)
    [SetVault "0xa" "10000000000"; PlaceOrder "0xa" (gtc "buy" "100000" "2");
     PlaceOrder "0xa" (gtc "buy" "100000" "2"); PlaceOrder "0xa" (gtc "buy" "100000" "2")] in
  remainings "0xa" st = [("100000", "2"); ("100000", "2"); ("100000", "2")].
Proof. by vm_compute. Qed.

(** ** Matching, books, restart *)

(** Distinct ids: a stroke per tick. *)
Definition tally (n : nat) : string := str_repeat "x" n.

Lemma tally_inj i j : tally i = tally j -> i = j.
Proof.
  unfold tally. revert j. induction i as [|i IH]; intros [|j]; cbn [str_repeat]; try done.
  change ("x" +:+ str_repeat "x" i) with (String "x"%char (str_repeat "x" i)).
  change ("x" +:+ str_repeat "x" j) with (String "x"%char (str_repeat "x" j)). intros [= He]. f_equal. by apply IH.
Qed.

Definition makers_history : list Call :=
  [GetBalance "0xa"; GetBalance "0xb"; PlaceOrder "0xa" (gtc "sell" "100200" "1"); PlaceOrder "0xb" (gtc "sell" "100000" "0.5");
   PlaceOrder "0xa" (gtc "sell" "100000" "0.25")].

Definition makers : Edge := calls clock tally map_to_list (new_edge true false) makers_history.

Lemma makers_unique : ids_unique (e_open_orders makers).
Proof.
  eapply (Ids_unique tally).
  apply (calls_inv (L := fixed_laws) clock tally map_to_list (fun m => Permutation_refl _) tally_inj true false).
Qed.

(** Best price first, oldest first within it. *)
Example makers_matched :
  map (fun f => (mf_maker_address f, d_show (mf_price f), d_show (mf_qty f)))
    (match_taker clock map_to_list "btc-usd" "buy" (Some (100300 * fx_unit : @Decimal fixed)) (fx_unit : @Decimal fixed) "0xt" makers).1
  = [("0xb", "100000", "0.5"); ("0xa", "100000", "0.25"); ("0xa", "100200", "0.25")].
Proof. by vm_compute. Qed.

Lemma edge_match_price_time_witness :
  exists cs, cs ≡ₚ omap (candidate "btc-usd" "buy" None) (others map_to_list "0xt" makers)
    /\ StronglySorted (price_time "buy") cs
    /\ map view (match_taker clock map_to_list "btc-usd" "buy" None (fx_unit : @Decimal fixed) "0xt" makers).1
       = greedy fx_unit cs.
Proof.
  exact (edge_match_price_time (L := fixed_laws) clock map_to_list (fun m => Permutation_refl _) "btc-usd" "buy" None
           (fx_unit : @Decimal fixed) "0xt" makers makers_unique).
Defined.

Definition quote : PlaceOrderRequest := order "buy" "99000" "0.5" "gtc" false true.

Lemma edge_post_only_rests_witness :
  exists resp st', place_order clock tally map_to_list "0xb" quote makers = (inr resp, st')
    /\ only_rests "0xb" quote resp makers st' /\ remainings "0xb" st' = [("100000", "0.5"); ("99000", "0.5")].
Proof.
  destruct (place_order clock tally map_to_list "0xb" quote makers) as [[e|resp] st'] eqn:E; [exfalso; by vm_compute in E|].
  exists resp, st'. split; [reflexivity|]. split.
  - apply (edge_post_only_rests (L := fixed_laws) clock tally map_to_list (fun m => Permutation_refl _) tally_inj true false makers_history);
      [by vm_compute|by vm_compute|reflexivity|exact E].
  - by apply (f_equal (fun r => remainings "0xb" r.2)) in E; vm_compute in E.
Defined.

(** With a negative quantity the guard is blind: a post-only order takes. *)
Example negative_post_only_takes :
  status_of (place "0xt" (order "buy" "100000" "-1" "gtc" false true) makers) = inr "filled".
Proof. by vm_compute. Qed.

Lemma edge_book_is_current_witness :
  exists b, e_orderbooks makers !! "btc-usd" = Some b /\ bk_asks b = [("100000", "0.75"); ("100200", "1")]
    /\ best_first b /\ forall P, level_qty P (bk_bids b) = rests "btc-usd" true P makers
                                 /\ level_qty P (bk_asks b) = rests "btc-usd" false P makers.
Proof.
  destruct (e_orderbooks makers !! "btc-usd") as [b|] eqn:E; [|exfalso; by vm_compute in E].
  exists b. split; [reflexivity|]. split; [vm_compute in E; by injection E as <-|].
  exact (edge_book_is_current (L := fixed_laws) clock tally map_to_list (fun m => Permutation_refl _) tally_inj true false _ "btc-usd" b E).
Defined.

Definition day : list Call :=
  [GetBalance "0xa"; GetBalance "0xb"; PlaceOrder "0xa" (gtc "sell" "100200" "1"); PlaceOrder "0xb" (gtc "buy" "100200" "0.4");
   PlaceOrder "0xb" (gtc "buy" "99000" "0.1"); CancelOrder "0xb" "ord_"].

Lemma edge_restart_recovers_witness :
  exists evs, e_persist (calls clock tally map_to_list (new_edge true true) day) = Some evs /\
    let st' := restart map_to_list true 0 ["btc-usd"; "eth-usd"; "sol-usd"] (rev (db_orders (written evs)))
                 (db_positions (written evs)) (written evs) in
    forall a, open_orders_for a st' ≡ₚ open_orders_for a (calls clock tally map_to_list (new_edge true true) day).
Proof.
  destruct (e_persist (calls clock tally map_to_list (new_edge true true) day)) as [evs|] eqn:E; [|exfalso; by vm_compute in E].
  exists evs. split; [reflexivity|]. intros st' a.
  pose proof (edge_restart_recovers (L := fixed_laws) clock tally map_to_list (fun m => Permutation_refl _) tally_inj true day evs
    (rev (db_orders (written evs))) (db_positions (written evs)) ["btc-usd"; "eth-usd"; "sol-usd"] 0 E
    (Permutation_sym (Permutation_rev _)) (Permutation_refl _)) as [H _]. apply H.
Defined.
