(* ===== verification/EdgeQueries.v ===== *)
(** * The edge server's read endpoints ([crates/perplex-edge/src/handlers.rs])

    The order-book snapshot, the public tape, a user's fills and the
    liquidation keeper's scan.  They change nothing; the clock they read is
    the one of the state they are asked in.  The keeper's scan lists exactly
    the positions a liquidation closes, and the second page of the tape and
    of the fills is always empty. *)

From S2P Require Import Prelude JsNum JsText EdgeDecimal EdgeState EdgeHandlers EdgeLedger EdgeInv EdgeDb EdgeRuns.
From Stdlib Require Import Sorted Ascii.
From stdpp Require Import gmap.
#[local] Open Scope Z_scope.

Definition MAX_TRADES : nat := 1000.
Definition MAX_FILLS : nat := 1000.

Record OrderbookSnapshot := mkOrderbookSnapshot {
  os_market_id : string; os_sequence : Z; os_bids : list (string * string); os_asks : list (string * string);
  os_ts_ns : string
}.

Record TradesResponse := mkTradesResponse { tr_trades : list PublicTrade; tr_next_before : option string }.
Record FillsResponse := mkFillsResponse { fr_fills : list FillInfo; fr_next_before : option string }.

Record LiquidatablePosition := mkLiquidatablePosition {
  lp_address : string; lp_market_id : string; lp_side : string; lp_size : string; lp_health_factor : string
}.

(** [take(depth)]: [None] is [usize::MAX], which takes every level. *)
Definition depth_of (depth : option string) : option nat :=
  match depth with
  | None => None
  | Some d =>
      if String.eqb d "full" then None
      else if String.eqb d "50" then Some 50%nat
      else if String.eqb d "200" then Some 200%nat
      else Some (match parse_u64 d with Some n => Z.to_nat n | None => 50%nat end)
  end.

Definition trim_levels (depth : option nat) (levels : list (string * string)) : list (string * string) :=
  match depth with Some n => take n levels | None => levels end.

(** The rows older than [before]: the time stamps are compared as strings. *)
Definition older {A} (ts : A -> string) (before : option string) (l : list A) : list A :=
  match before with Some b => List.filter (fun x => String.ltb (ts x) b) l | None => l end.

Definition next_before {A} (ts : A -> string) (l : list A) : option string := ts <$> last l.

Definition get_trades (market_id : string) (limit : option nat) (before : option string) (st : Edge) : ApiError + TradesResponse :=
  match market market_id st with
  | None => inl NotFound
  | Some _ =>
      let limit := Nat.min (default 100%nat limit) MAX_TRADES in
      let trades := older pt_ts_ns before (public_trades market_id limit st) in
      inr (mkTradesResponse trades (next_before pt_ts_ns trades))
  end.

Definition list_fills (user : string) (market_id : option string) (limit : option nat) (before : option string) (st : Edge)
  : FillsResponse :=
  let limit := Nat.min (default 100%nat limit) MAX_FILLS in
  let fills := fills_for user limit st in
  let fills := match market_id with Some mid => List.filter (fun f => String.eqb (fi_market_id f) mid) fills | None => fills end in
  let fills := older fi_ts_ns before fills in
  mkFillsResponse fills (next_before fi_ts_ns fills).

Section Queries.
Context `{D : Decimals}.
Variable now_ns : nat -> Z.
Variable position_iter : gmap string (list PositionInfo) -> list (string * list PositionInfo).

Definition get_orderbook (market_id : string) (depth : option string) (st : Edge) : ApiError + OrderbookSnapshot :=
  match market market_id st with
  | None => inl NotFound
  | Some _ =>
      let snap := default (mkBookSnapshot 0 [] []) (e_orderbooks st !! market_id) in
      let depth := depth_of depth in
      inr (mkOrderbookSnapshot market_id (bk_sequence snap) (trim_levels depth (bk_bids snap)) (trim_levels depth (bk_asks snap))
             (show_Z (now_ns (e_ticks st))))
  end.

Definition liquidatable (st : Edge) (ap : string * PositionInfo) : option LiquidatablePosition :=
  let '(addr, pos) := ap in
  match position_health addr pos st with
  | Some h =>
      if d_lt h d_one then Some (mkLiquidatablePosition addr (po_market_id pos) (po_side pos) (po_size pos) (d_show h)) else None
  | None => None
  end.

Definition scan_liquidatable (st : Edge) : list LiquidatablePosition :=
  omap (liquidatable st) (position_iter (e_positions st) ≫= fun al => pair al.1 <$> al.2).

Definition list_liquidatable (want got : option string) (st : Edge) : ApiError + list LiquidatablePosition :=
  match check_admin want got with Some e => inl e | None => inr (scan_liquidatable st) end.
End Queries.

(** ** The keeper *)

Section Keeper.
Context `{D : Decimals}.
Context {L : DecimalLaws}.
Variables (now_ns : nat -> Z) (ulid : nat -> string).
Variable order_iter : gmap string (list OpenOrder) -> list (string * list OpenOrder).
Variable position_iter : gmap string (list PositionInfo) -> list (string * list PositionInfo).
Hypothesis order_iter_perm : forall m, order_iter m ≡ₚ map_to_list m.
Hypothesis position_iter_perm : forall m, position_iter m ≡ₚ map_to_list m.
Hypothesis ulid_inj : forall i j, ulid i = ulid j -> i = j.

Lemma elem_of_scan e st :
  e ∈ scan_liquidatable position_iter st <->
  exists a p h, p ∈ positions_for a st /\ position_health a p st = Some h /\ d_lt h d_one = true
    /\ e = mkLiquidatablePosition a (po_market_id p) (po_side p) (po_size p) (d_show h).
Proof.
  unfold scan_liquidatable. rewrite list_elem_of_omap. unfold positions_for. split.
  - intros ([a p] & Hin & He). apply list_elem_of_bind in Hin as ([a' l] & Hp & Hl). cbn in Hp.
    apply list_elem_of_fmap in Hp as (p' & [= -> ->] & Hp). rewrite position_iter_perm in Hl. apply elem_of_map_to_list in Hl.
    cbn in He. destruct (position_health a' p' st) as [h|] eqn:Eh; [|done]. destruct (d_lt h d_one) eqn:El; [|done].
    injection He as <-. exists a', p', h. rewrite Hl. done.
  - intros (a & p & h & Hp & Hh & Hl & ->). destruct (e_positions st !! a) as [l|] eqn:Ea; [|by apply elem_of_nil in Hp].
    exists (a, p). cbn. rewrite Hh, Hl. split; [|done]. apply list_elem_of_bind. exists (a, l). split.
    + apply list_elem_of_fmap. by exists p.
    + rewrite position_iter_perm. by apply elem_of_map_to_list.
Qed.

Lemma find_in_market m l p :
  NoDup (map po_market_id l) -> p ∈ l -> po_market_id p = m -> List.find (in_market m) l = Some p.
Proof.
  intros Hnd Hp Hm. induction l as [|q l IH]; [by apply elem_of_nil in Hp|]. cbn [map] in Hnd. apply NoDup_cons in Hnd as [Hni Hnd].
  cbn [List.find]. unfold in_market at 1. apply elem_of_cons in Hp as [<-|Hp]; [by rewrite Hm, String.eqb_refl|].
  destruct (String.eqb_spec (po_market_id q) m) as [He|]; [|by apply IH].
  destruct Hni. rewrite He, <- Hm. apply list_elem_of_fmap. by exists p.
Qed.

Lemma liquidates a m st p h :
  List.find (in_market m) (positions_for a st) = Some p -> position_health a p st = Some h -> d_lt h d_one = true ->
  exists o st', liquidate_position now_ns ulid a m st = (Some o, st') /\ lo_health_factor o = d_show h.
Proof.
  intros Hf Hh Hl. unfold liquidate_position. rewrite Hf, Hh, Hl. cbn [negb]. unfold position_health in Hh.
  destruct (liq_inputs p st) as [[[mark core] mm]|] eqn:Ei; [|done]. unfold liq_inputs in Ei.
  destruct (d_parse (po_size p)) as [size|]; [|done]. do 2 eexists. split; reflexivity.
Qed.

Lemma liquidates_inv a m st o st' :
  liquidate_position now_ns ulid a m st = (Some o, st') ->
  exists p h, List.find (in_market m) (positions_for a st) = Some p /\ position_health a p st = Some h
    /\ d_lt h d_one = true /\ lo_health_factor o = d_show h.
Proof.
  unfold liquidate_position. destruct (List.find _ _) as [p|]; [|done]. destruct (position_health a p st) as [h|] eqn:Eh; [|done].
  destruct (d_lt h d_one) eqn:El; [|done]. cbn [negb]. destruct (d_parse (po_size p)); [|done].
  destruct (liq_inputs p st) as [[[mark core] mm]|]; [|done]. intros [= <- _]. by exists p, h.
Qed.

(** C16: The keeper's scan is exact: after any history of the persisted
    server, the positions that GET /v1/admin/liquidatable lists are those that
    POST /v1/admin/liquidate closes, with the same health factor; none is
    missed and none is listed in vain. *)
Theorem edge_scan_exact dev cs a m hf :
  let st := calls now_ns ulid order_iter (new_edge dev true) cs in
  (exists e, e ∈ scan_liquidatable position_iter st /\ lp_address e = a /\ lp_market_id e = m /\ lp_health_factor e = hf)
  <-> exists o st', liquidate_position now_ns ulid a m st = (Some o, st') /\ lo_health_factor o = hf.
Proof.
  intros st. pose proof (calls_mirrored (L := L) now_ns ulid order_iter order_iter_perm ulid_inj dev cs) as HM. fold st in HM.
  assert (Hnd : NoDup (map po_market_id (positions_for a st))) by (destruct HM as (evs & _ & []); auto). split.
  - intros (e & He & <- & <- & <-). apply elem_of_scan in He as (a' & p & h & Hp & Hh & Hl & ->).
    cbn [lp_address lp_market_id lp_health_factor] in *. apply (liquidates a' _ st p h); [by apply find_in_market|done|done].
  - intros (o & st' & Ho & <-). apply liquidates_inv in Ho as (p & h & Hf & Hh & Hl & ->).
    apply find_some in Hf as [Hp Hm]. apply String.eqb_eq in Hm. apply list_elem_of_In in Hp.
    exists (mkLiquidatablePosition a (po_market_id p) (po_side p) (po_size p) (d_show h)).
    split; [|done]. apply elem_of_scan. by exists a, p, h.
Qed.
End Keeper.

(** ** Pages *)

(** Newest first: no row is older than a later one. *)
Definition newest_first {A} (ts : A -> string) : list A -> Prop := StronglySorted (fun x y => String.ltb (ts x) (ts y) = false).

Lemma ltb_irrefl s : String.ltb s s = false.
Proof. unfold String.ltb. pose proof (String.compare_antisym s s) as H. by destruct (String.compare s s). Qed.

Lemma older_than_last {A} (ts : A -> string) (l : list A) b :
  newest_first ts l -> next_before ts l = Some b -> older ts (Some b) l = [].
Proof.
  unfold next_before. intros Hs Hb. destruct (last l) as [z|] eqn:El; [|done]. cbn in Hb. injection Hb as <-. cbn [older].
  assert (Hall : Forall (fun x => String.ltb (ts x) (ts z) = false) l).
  { clear -Hs El. induction Hs as [|x l Hs IH Hx]; [done|]. constructor.
    - destruct l as [|y l]; [cbn in El; injection El as ->; apply ltb_irrefl|].
      rewrite Forall_forall in Hx. apply Hx. apply last_Some in El as (l' & El). destruct l' as [|w l']; [done|].
      injection El as -> El. rewrite El. apply elem_of_app. right. by left.
    - destruct l as [|y l]; [done|]. by apply IH. }
  clear -Hall. induction Hall as [|x l Hx Hl IH]; [done|]. cbn [List.filter]. by rewrite Hx.
Qed.

Lemma newest_first_take {A} (ts : A -> string) n l : newest_first ts l -> newest_first ts (take n l).
Proof.
  intros Hs. revert n. induction Hs as [|x l Hs IH Hx]; intros [|n]; [constructor..|]. cbn [take].
  constructor; [apply IH|]. by apply Forall_take.
Qed.

Lemma newest_first_filter {A} (ts : A -> string) f l : newest_first ts l -> newest_first ts (List.filter f l).
Proof.
  induction 1 as [|x l Hs IH Hx]; [constructor|]. cbn [List.filter]. destruct (f x); [|done]. constructor; [done|].
  rewrite Forall_forall in *. intros y Hy. apply Hx. apply list_elem_of_In, filter_In in Hy as [Hy _]. by apply list_elem_of_In.
Qed.

(** There is no second page of the tape: the limit is applied before the
    cursor, so asking for the trades before the cursor of a first page, with
    the same limit, always answers an empty page without a cursor, however
    many older trades there are. *)
Theorem edge_trades_second_page_empty m limit st page b :
  newest_first pt_ts_ns (rev (default [] (e_public_trades st !! m))) ->
  get_trades m limit None st = inr page -> tr_next_before page = Some b ->
  get_trades m limit (Some b) st = inr (mkTradesResponse [] None).
Proof.
  intros Hs. unfold get_trades. destruct (market m st); [|done]. intros [= <-]. cbn [tr_next_before]. intros Hb.
  rewrite (older_than_last pt_ts_ns _ b); [done| |exact Hb]. by apply newest_first_take.
Qed.

(** The same of a user's fills, where the market is filtered after the limit too. *)
Lemma edge_fills_second_page_empty user mid limit st b :
  newest_first fi_ts_ns (rev (default [] (e_fills st !! user))) ->
  fr_next_before (list_fills user mid limit None st) = Some b ->
  list_fills user mid limit (Some b) st = mkFillsResponse [] None.
Proof.
  intros Hs Hb. unfold list_fills in *. cbn [fr_next_before] in Hb. cbv zeta in *.
  rewrite (older_than_last fi_ts_ns _ b); [done| |exact Hb].
  destruct mid; [apply newest_first_filter|]; by apply newest_first_take.
Qed.

(** ** Runs *)

#[local] Existing Instance fixed.
#[local] Existing Instance fixed_laws.

Definition tape_state : Edge := serve (new_edge true false) opening.

(** Two trades on the tape and a page of one. *)
Lemma edge_trades_second_page_empty_witness :
  length (default [] (e_public_trades tape_state !! "btc-usd")) = 2%nat /\
  exists page b, get_trades "btc-usd" (Some 1%nat) None tape_state = inr page /\ tr_next_before page = Some b /\
    get_trades "btc-usd" (Some 1%nat) (Some b) tape_state = inr (mkTradesResponse [] None).
Proof.
  split; [by vm_compute|].
  destruct (get_trades "btc-usd" (Some 1%nat) None tape_state) as [e|page] eqn:E; [exfalso; by vm_compute in E|].
  destruct (tr_next_before page) as [b|] eqn:Eb; [|exfalso; vm_compute in E; injection E as <-; discriminate Eb].
  exists page, b. split; [reflexivity|]. split; [exact Eb|].
  apply (edge_trades_second_page_empty "btc-usd" (Some 1%nat) tape_state page b); [|exact E|exact Eb].
  assert (Hts : map pt_ts_ns (rev (default [] (e_public_trades tape_state !! "btc-usd")))
                = ["1700000000000000007"; "1700000000000000006"]) by by vm_compute.
  destruct (rev _) as [|x [|y [|? ?]]]; cbn in Hts; try done. injection Hts as Hx Hy.
  repeat constructor. by rewrite Hx, Hy.
Defined.

(** After the crash the keeper sees the taker, and can close its position. *)
Definition crash_state : Edge := calls clock tally map_to_list (new_edge true true) crash.

Lemma edge_scan_exact_witness :
  exists o st', liquidate_position clock tally "0xtaker" "btc-usd" crash_state = (Some o, st')
    /\ lo_health_factor o = "0.2695035460992907801419858156".
Proof.
  apply (proj1 (edge_scan_exact (L := fixed_laws) clock tally map_to_list map_to_list (fun m => Permutation_refl _)
           (fun m => Permutation_refl _) tally_inj true crash "0xtaker" "btc-usd" "0.2695035460992907801419858156")).
  assert (Hs : scan_liquidatable map_to_list crash_state
    = [mkLiquidatablePosition "0xtaker" "btc-usd" "long" "1.5" "0.2695035460992907801419858156"]) by by vm_compute.
  eexists. split; [|split; [|split]]; [change (calls _ _ _ _ _) with crash_state; rewrite Hs; by left|reflexivity..].
Defined.
