(* ===== verification/RateLimit.v ===== *)
(** * The edge's rate limiter ([crates/perplex-edge/src/ratelimit.rs])

    The token bucket of the running server and the Lua script it mirrors,
    over the interface [Arith]: at binary64 they are the program, the theorems
    are stated at exact rationals.  The script's clock and the one that
    expires its keys are taken to be the same, and Redis to store a number as
    it was given.

    A bucket never lets more through in a stretch of time than its capacity
    and what flows in, waiting for the announced time is enough, and the
    in-memory bucket answers as the script does. *)

From S2P Require Import Prelude JsNum JsText.
From Stdlib Require Import QArith Qround Qminmax Lqa Sorted.
From stdpp Require Import gmap.
#[local] Open Scope Z_scope.

Record Limit := mkLimit { capacity : Z; refill_per_sec : Z }.

Definition PUBLIC : Limit := mkLimit 200 100.
Definition AUTHED : Limit := mkLimit 2000 1000.

Inductive CheckResult :=
| Allowed (remaining : Z)
| Denied (retry_after_secs : Z).

(** [as u32] of a non-negative number, and [ceil]. *)
Class Rounds (A : Type) := { n_floor : A -> Z; n_ceil : A -> Z }.
#[export] Instance B64_rounds : Rounds number := {| n_floor := num_floorZ; n_ceil := fun x => - num_floorZ (n_neg x) |}.
#[export] Instance Q_rounds : Rounds Q := {| n_floor := Qfloor; n_ceil := Qceiling |}.

Section Buckets.
Context {A : Type} `{Arith A} `{Rounds A}.

(** The tokens after the time since the last update; a clock that went back adds none. *)
Definition refill (limit : Limit) (tokens : A) (updated now_ms : Z) : A :=
  let elapsed_ms := nint (Z.max 0 (now_ms - updated)) in
  let refilled := (elapsed_ms * nint (refill_per_sec limit) / nint 1000)%num in
  n_min (tokens + refilled)%num (nint (capacity limit)).

(** [InMemoryBucket::check]. *)
Definition check (key : string) (limit : Limit) (now_ms : Z) (g : gmap string (A * Z)) : CheckResult * gmap string (A * Z) :=
  let '(tokens, updated) := default (nint (capacity limit), now_ms) (g !! key) in
  let tokens := refill limit tokens updated now_ms in
  if (nint 1 <=? tokens)%num then
    let tokens := (tokens - nint 1)%num in (Allowed (n_floor tokens), <[key := (tokens, now_ms)]> g)
  else
    let need := (nint 1 - tokens)%num in
    (Denied (Z.max 1 (n_ceil (need / nint (refill_per_sec limit))%num)), <[key := (tokens, now_ms)]> g).

(** A hash of Redis: its two fields and the time it expires. *)
Definition lua_get (key : string) (now_ms : Z) (r : gmap string (A * Z * Z)) : option (A * Z) :=
  match r !! key with
  | Some (tokens, updated, expires) => if now_ms <? expires then Some (tokens, updated) else None
  | None => None
  end.

(** [TOKEN_BUCKET_LUA] and what [RedisBucket::check] makes of its answer. *)
Definition lua_check (key : string) (limit : Limit) (now_ms : Z) (r : gmap string (A * Z * Z))
  : CheckResult * gmap string (A * Z * Z) :=
  let '(tokens, updated) := default (nint (capacity limit), now_ms) (lua_get key now_ms r) in
  let elapsed_ms := nint (Z.max 0 (now_ms - updated)) in
  let refilled := (elapsed_ms * nint (refill_per_sec limit) / nint 1000)%num in
  let tokens := n_min (nint (capacity limit)) (tokens + refilled)%num in
  if (nint 1 <=? tokens)%num then
    let tokens := (tokens - nint 1)%num in
    (Allowed (Z.max 0 (n_floor tokens)), <[key := (tokens, now_ms, now_ms + 60000)]> r)
  else
    let need := (nint 1 - tokens)%num in
    let retry_after := n_ceil (need * nint 1000 / nint (refill_per_sec limit) / nint 1000)%num in
    (Denied (Z.max 1 retry_after), <[key := (tokens, now_ms, now_ms + 60000)]> r).

(** The key and the limit of a request: its wallet's when it bears a valid token, its address's otherwise. *)
Definition classify (verify_jwt : string -> option string) (authorization : option string) (peer_ip : string)
  (public_limit authed_limit : Limit) : string * Limit :=
  let by_ip := ("rl:ip:" +:+ peer_ip, public_limit) in
  match authorization with
  | Some h =>
      if startsWith "Bearer " h then
        match verify_jwt (str_drop 7 h) with
        | Some sub => ("rl:wallet:" +:+ sub, authed_limit)
        | None => by_ip
        end
      else by_ip
  | None => by_ip
  end.

(** [rate_limit_layer] on the bucket's answer; a bucket that fails lets the request through. *)
Inductive LayerOutcome :=
| Next
| TooManyRequests (retry_after : string).

Definition rate_limit_layer (checked : option CheckResult) : LayerOutcome :=
  match checked with
  | Some (Allowed _) => Next
  | Some (Denied secs) => TooManyRequests (bigint_toString secs)
  | None => Next
  end.

(** Requests for keys at times, one after another. *)
Fixpoint requests (limit : string -> Limit) (rs : list (string * Z)) (g : gmap string (A * Z))
  : list (string * CheckResult) * gmap string (A * Z) :=
  match rs with
  | [] => ([], g)
  | (key, now) :: rs' =>
      let '(res, g1) := check key (limit key) now g in
      let '(answers, g2) := requests limit rs' g1 in ((key, res) :: answers, g2)
  end.

Fixpoint lua_requests (limit : string -> Limit) (rs : list (string * Z)) (r : gmap string (A * Z * Z))
  : list (string * CheckResult) * gmap string (A * Z * Z) :=
  match rs with
  | [] => ([], r)
  | (key, now) :: rs' =>
      let '(res, r1) := lua_check key (limit key) now r in
      let '(answers, r2) := lua_requests limit rs' r1 in ((key, res) :: answers, r2)
  end.

Definition passed (key : string) (answers : list (string * CheckResult)) : Z :=
  Z.of_nat (length (List.filter (fun a => String.eqb a.1 key && match a.2 with Allowed _ => true | Denied _ => false end) answers)).
End Buckets.

(** ** In exact arithmetic *)

Definition q (z : Z) : Q := inject_Z z.
Definition rate (limit : Limit) : Q := (q (refill_per_sec limit) / 1000)%Q.

Lemma nint_is_q z : (nint z : Q) = q z.
Proof. unfold nint, q. cbn. by rewrite Z.mul_1_r. Qed.

Lemma q_sub a b : (q (a - b) == q a - q b)%Q.
Proof. unfold q, Z.sub. rewrite inject_Z_plus, inject_Z_opp. reflexivity. Qed.

Lemma q_le a b : a <= b -> (q a <= q b)%Q.
Proof. unfold q. by rewrite <- Zle_Qle. Qed.

Lemma min_is_Qmin (x y : Q) : (n_min x y == Qmin x y)%Q.
Proof.
  cbn. unfold Qltb. destruct (Qle_bool x y) eqn:E; cbn [negb].
  - apply Qle_bool_iff in E. by rewrite Q.min_l.
  - rewrite Q.min_r; [reflexivity|]. apply Qlt_le_weak, Qnot_le_lt. intros Hle. apply Qle_bool_iff in Hle. congruence.
Qed.

Lemma refill_Q limit (tokens : Q) up now :
  up <= now -> (refill limit tokens up now == Qmin (tokens + (q now - q up) * rate limit) (q (capacity limit)))%Q.
Proof.
  intros Hle. unfold refill. rewrite min_is_Qmin, !nint_is_q. cbn [n_add n_mul n_div QArithI].
  rewrite Z.max_r by lia. rewrite q_sub. unfold rate.
  assert (He : (tokens + (q now - q up) * q (refill_per_sec limit) / q 1000 == tokens + (q now - q up) * (q (refill_per_sec limit) / 1000))%Q)
    by (unfold q; field). by rewrite He.
Qed.

(** Limits of a positive rate and a capacity of at least one token. *)
Definition sane (limit : Limit) : Prop := 1 <= capacity limit /\ 0 < refill_per_sec limit.

Lemma rate_pos limit : sane limit -> (0 < rate limit)%Q.
Proof.
  intros [_ Hr]. unfold rate. apply Qlt_shift_div_l; [done|]. unfold q. rewrite Qmult_0_l. by rewrite <- (Zlt_Qlt 0).
Qed.

Lemma Q_min_cases x y : (Qmin x y == x /\ x <= y)%Q \/ (Qmin x y == y /\ y <= x)%Q.
Proof. destruct (Q.min_spec x y) as [[Hl He]|[Hl He]]; [left|right]; split; try done. by apply Qlt_le_weak. Qed.

(** What the bucket of [key] has at time [s]. *)
Definition has (limit : Limit) (key : string) (s : Z) (g : gmap string (Q * Z)) (X : Q) : Prop :=
  match g !! key with
  | Some (tokens, up) => up <= s /\ (0 <= tokens)%Q /\ (refill limit tokens up s <= X)%Q
  | None => (q (capacity limit) <= X)%Q
  end.

(** One check, seen from an earlier time: what it lets through is paid for. *)
Lemma check_pays limit key s now g X res g' :
  sane limit -> s <= now -> has limit key s g X -> check key limit now g = (res, g') ->
  let X' := (X + (q now - q s) * rate limit - match res with Allowed _ => 1 | Denied _ => 0 end)%Q in
  has limit key now g' X' /\ (0 <= X')%Q.
Proof.
  intros Hl Hs Hh Hc. pose proof (rate_pos limit Hl) as Hr. destruct Hl as [Hcap _].
  assert (Hdt : (0 <= (q now - q s) * rate limit)%Q).
  { apply Qmult_le_0_compat; [|by apply Qlt_le_weak]. pose proof (q_le s now Hs). lra. }
  assert (Hc1 : (1 <= q (capacity limit))%Q) by (by apply (q_le 1)).
  unfold check in Hc. destruct (default (nint (capacity limit), now) (g !! key)) as [tk up] eqn:Ed.
  assert (Htk : exists T, (refill limit tk up now == T)%Q /\ (0 <= T)%Q /\ (T <= q (capacity limit))%Q /\ (T <= X + (q now - q s) * rate limit)%Q).
  { unfold has in Hh. destruct (g !! key) as [[tk' up']|]; cbn [default] in Ed; unfold Datatypes.id in Ed.
    - injection Ed as -> ->. destruct Hh as (Hup & Ht0 & HX). rewrite refill_Q in HX by done.
      eexists. split; [apply refill_Q; lia|].
      assert (Hup0 : (0 <= (q s - q up) * rate limit)%Q).
      { apply Qmult_le_0_compat; [|by apply Qlt_le_weak]. pose proof (q_le up s Hup). lra. }
      destruct (Q_min_cases (tk + (q now - q up) * rate limit) (q (capacity limit))) as [[-> ?]|[-> ?]],
        (Q_min_cases (tk + (q s - q up) * rate limit) (q (capacity limit))) as [[He ?]|[He ?]]; rewrite He in HX; split_and!; lra.
    - rewrite nint_is_q in Ed. injection Ed as <- <-. eexists. split; [by apply refill_Q|].
      destruct (Q_min_cases (q (capacity limit) + (q now - q now) * rate limit) (q (capacity limit))) as [[-> ?]|[-> ?]]; split_and!; lra. }
  destruct Htk as (T & HT & HT0 & HTc & HTX).
  assert (Hnew : forall u x, (0 <= u)%Q -> (u <= T)%Q -> (u <= x)%Q -> g' = <[key := (u, now)]> g -> has limit key now g' x /\ (0 <= x)%Q).
  { intros u x Hu0 HuT Hux ->. split; [|lra]. unfold has. rewrite fin_maps.lookup_insert_eq. split; [lia|]. split; [done|].
    rewrite refill_Q by lia. destruct (Q_min_cases (u + (q now - q now) * rate limit) (q (capacity limit))) as [[-> ?]|[-> ?]]; lra. }
  revert Hc. set (t := refill limit tk up now) in *. cbv zeta. rewrite !nint_is_q.
  cbn [n_leb n_sub QArithI]. destruct (Qle_bool (q 1) t) eqn:E; intros [= <- <-].
  - apply Qle_bool_iff in E. change (q 1) with 1%Q in *. eapply Hnew; [| | |reflexivity]; rewrite ?HT in *; lra.
  - eapply Hnew; [| | |reflexivity]; rewrite ?HT; lra.
Qed.

(** A check of another key leaves the bucket alone. *)
Lemma check_other key key' l now (g : gmap string (Q * Z)) : key' <> key -> (check key' l now g).2 !! key = g !! key.
Proof.
  intros Hne. unfold check. destruct (default _ _) as [tk up]. cbv zeta. destruct (n_leb _ _); cbn [snd]; by rewrite lookup_insert_ne.
Qed.

Lemma passed_cons key k res answers :
  passed key ((k, res) :: answers)
    = (if String.eqb k key then match res with Allowed _ => 1 | Denied _ => 0 end else 0) + passed key answers.
Proof. unfold passed. cbn [List.filter fst snd]. destruct (String.eqb k key), res; cbn [andb length]; lia. Qed.

Lemma q_add a b : (q (a + b) == q a + q b)%Q.
Proof. unfold q. by rewrite inject_Z_plus. Qed.

(** The requests of a stretch that ends by [t1], from a bucket that has [X] at [s]. *)
Lemma stretch_pays limit key t1 rs : sane (limit key) -> forall s X (g : gmap string (Q * Z)),
  has (limit key) key s g X -> (0 <= X)%Q -> Sorted Z.le (s :: map snd rs) -> Forall (fun r => r.2 <= t1) rs -> s <= t1 ->
  (q (passed key (requests limit rs g).1) <= X + (q t1 - q s) * rate (limit key))%Q.
Proof.
  intros Hl. pose proof (rate_pos _ Hl) as Hr.
  induction rs as [|[k now] rs IH]; intros s X g Hh HX Hs Ht1 Hst.
  - assert (0 <= (q t1 - q s) * rate (limit key))%Q.
    { apply Qmult_le_0_compat; [|by apply Qlt_le_weak]. pose proof (q_le s t1 Hst). lra. }
    cbn [requests fst]. change (q (passed key [])) with 0%Q. lra.
  - apply Forall_cons in Ht1 as [Hn1 Ht1]. cbn [snd] in Hn1.
    cbn [map snd] in Hs. apply Sorted_inv in Hs as [Hs Hsn]. apply HdRel_inv in Hsn.
    cbn [requests]. destruct (check k (limit k) now g) as [res g1] eqn:Ec.
    assert (Hhead : forall ss, Sorted Z.le (now :: map snd rs) -> ss <= now -> Sorted Z.le (ss :: map snd rs)).
    { intros ss Hso Hle. apply Sorted_inv in Hso as [Hso Hd]. constructor; [done|]. destruct (map snd rs); constructor.
      apply HdRel_inv in Hd. lia. }
    destruct (String.eqb_spec k key) as [->|Hne].
    + destruct (check_pays (limit key) key s now g X res g1 Hl Hsn Hh Ec) as [Hh1 HX1].
      specialize (IH now _ g1 Hh1 HX1 Hs Ht1 Hn1). destruct (requests limit rs g1) as [answers g2]. cbn [fst] in *.
      rewrite passed_cons, String.eqb_refl, q_add. destruct res; change (q 1) with 1%Q; change (q 0) with 0%Q; lra.
    + assert (Hh1 : has (limit key) key s g1 X).
      { unfold has. replace (g1 !! key) with (g !! key); [exact Hh|]. symmetry.
        rewrite <- (check_other key k (limit k) now g Hne). by rewrite Ec. }
      specialize (IH s X g1 Hh1 HX (Hhead s Hs Hsn) Ht1 Hst). destruct (requests limit rs g1) as [answers g2]. cbn [fst] in *.
      rewrite passed_cons. apply String.eqb_neq in Hne. rewrite Hne. exact IH.
Qed.

(** The buckets of a server that has run: filled at most to their capacity, updated in the past. *)
Lemma served_has limit key rs : sane (limit key) -> forall s (g : gmap string (Q * Z)),
  has (limit key) key s g (q (capacity (limit key))) -> Sorted Z.le (s :: map snd rs) ->
  forall t, Forall (fun r => r.2 <= t) rs -> s <= t -> has (limit key) key t (requests limit rs g).2 (q (capacity (limit key))).
Proof.
  intros Hl. induction rs as [|[k now] rs IH]; intros s g Hh Hs t Ht Hst.
  - cbn [requests snd]. unfold has in *. destruct (g !! key) as [[tk up]|]; [|done]. destruct Hh as (Hup & Ht0 & _).
    split_and!; [lia|done|]. rewrite refill_Q by lia. apply Q.le_min_r.
  - apply Forall_cons in Ht as [Hn1 Ht]. cbn [snd] in Hn1. cbn [map snd] in Hs. apply Sorted_inv in Hs as [Hs Hsn].
    apply HdRel_inv in Hsn. cbn [requests]. destruct (check k (limit k) now g) as [res g1] eqn:Ec.
    assert (Hh1 : has (limit key) key now g1 (q (capacity (limit key)))).
    { destruct (decide (k = key)) as [->|Hne].
      - destruct (check_pays (limit key) key s now g _ res g1 Hl Hsn Hh Ec) as [Hh1 _]. unfold has in *.
        destruct (g1 !! key) as [[tk up]|]; [|apply Qle_refl]. destruct Hh1 as (Hup & Ht0 & _).
        split_and!; [done|done|]. rewrite refill_Q by lia. apply Q.le_min_r.
      - unfold has in *. replace (g1 !! key) with (g !! key).
        + destruct (g !! key) as [[tk up]|]; [|done]. destruct Hh as (Hup & Ht0 & _). split_and!; [lia|done|].
          rewrite refill_Q by lia. apply Q.le_min_r.
        + symmetry. rewrite <- (check_other key k (limit k) now g Hne). by rewrite Ec. }
    specialize (IH now g1 Hh1 Hs t Ht Hn1). by destruct (requests limit rs g1) as [answers g2].
Qed.

Lemma sorted_prefix (l1 l2 : list Z) : Sorted Z.le (l1 ++ l2) -> Sorted Z.le l1.
Proof.
  induction l1 as [|x l1 IH]; [constructor|]. cbn. intros [Hs Hd]%Sorted_inv. constructor; [by apply IH|].
  destruct l1; [constructor|]. constructor. by apply HdRel_inv in Hd.
Qed.

Lemma sorted_suffix (l1 l2 : list Z) : Sorted Z.le (l1 ++ l2) -> Sorted Z.le l2.
Proof. induction l1 as [|x l1 IH]; [done|]. cbn. intros [Hs _]%Sorted_inv. by apply IH. Qed.

Lemma sorted_cons_bound x (l : list Z) : Sorted Z.le l -> Forall (fun y => x <= y) l -> Sorted Z.le (x :: l).
Proof. intros Hs Hf. constructor; [done|]. destruct Hf; by constructor. Qed.

(** C24: The limiter limits: of the requests for a key between two times of any
    run under a clock that does not go back, whatever other keys ask, at most
    the capacity and what flowed in between them go through. *)
Theorem edge_rate_bounded limit key before window t0 t1 :
  sane (limit key) -> Sorted Z.le (map snd (before ++ window)) ->
  Forall (fun r => r.2 <= t0) before -> Forall (fun r => t0 <= r.2 <= t1) window -> t0 <= t1 ->
  let g := (requests limit before (∅ : gmap string (Q * Z))).2 in
  1000 * passed key (requests limit window g).1
    <= 1000 * capacity (limit key) + refill_per_sec (limit key) * (t1 - t0).
Proof.
  intros Hl Hs Hb Hw Ht g. rewrite map_app in Hs.
  assert (Hg : has (limit key) key t0 g (q (capacity (limit key)))).
  { destruct before as [|[k n] before]; [apply Qle_refl|].
    pose proof (proj1 (Forall_cons _ _ _) Hb) as [Hn _]. cbn [snd] in Hn.
    apply (served_has limit key ((k, n) :: before) Hl n); [apply Qle_refl| |done|done].
    constructor; [|constructor; cbn; lia]. by apply sorted_prefix in Hs. }
  pose proof (stretch_pays limit key t1 window Hl t0 _ g Hg) as Hp.
  assert (Hle : (q (passed key (requests limit window g).1) <= q (capacity (limit key)) + (q t1 - q t0) * rate (limit key))%Q).
  { apply Hp; [|apply sorted_cons_bound; [by apply sorted_suffix in Hs|]| |done].
    - destruct Hl as [Hc _]. apply (q_le 0). lia.
    - apply Forall_map. eapply Forall_impl; [exact Hw|]. cbn. lia.
    - eapply Forall_impl; [exact Hw|]. cbn. lia. }
  unfold rate in Hle.
  assert (Hmul : (q (1000 * passed key (requests limit window g).1) <= q (1000 * capacity (limit key) + refill_per_sec (limit key) * (t1 - t0)))%Q).
  { rewrite q_add. unfold q in *. rewrite !inject_Z_mult. unfold Z.sub. rewrite inject_Z_plus, inject_Z_opp.
    change (inject_Z 1000) with 1000%Q.
    assert (He : (inject_Z (refill_per_sec (limit key)) / 1000 == inject_Z (refill_per_sec (limit key)) * (1 # 1000))%Q) by field.
    rewrite He in Hle. lra. }
  unfold q in Hmul. by rewrite <- Zle_Qle in Hmul.
Qed.

(** A refused request that waits for the announced seconds goes through. *)
Theorem edge_retry_after_enough limit key now (g : gmap string (Q * Z)) secs g' later :
  sane limit -> check key limit now g = (Denied secs, g') -> now + 1000 * secs <= later ->
  exists n g'', check key limit later g' = (Allowed n, g'').
Proof.
  intros Hl Hc Hlater. pose proof (rate_pos limit Hl) as Hr. destruct Hl as [Hcap Href]. unfold check in Hc.
  destruct (default (nint (capacity limit), now) (g !! key)) as [tk up]. cbv zeta in Hc. revert Hc.
  set (t := refill limit tk up now). destruct (n_leb _ _); [done|]. rewrite !nint_is_q. intros [Hres <-]%pair_equal_spec.
  set (c := Qceiling ((q 1 - t) / q (refill_per_sec limit))).
  assert (Hsecs : secs = Z.max 1 c) by (by injection Hres). subst secs. clear Hres.
  assert (Hceil : ((q 1 - t) <= q c * q (refill_per_sec limit))%Q).
  { pose proof (Qle_ceiling ((q 1 - t) / q (refill_per_sec limit))) as Hq. fold c in Hq.
    assert (Hrq : (0 < q (refill_per_sec limit))%Q) by (unfold q; by rewrite <- (Zlt_Qlt 0)).
    apply (Qmult_le_r _ _ _ Hrq) in Hq. rewrite Qmult_comm, Qmult_div_r in Hq by (intros He; rewrite He in Hrq; by apply Qlt_irrefl in Hrq).
    exact Hq. }
  unfold check. rewrite fin_maps.lookup_insert_eq. cbn [default]. unfold Datatypes.id. cbv zeta.
  rewrite !nint_is_q. cbn [n_leb QArithI].
  assert (Hle : (q 1 <= refill limit t now later)%Q).
  { rewrite refill_Q by lia. apply Q.min_glb; [|by apply q_le].
    assert (Hcl : (q c * q (refill_per_sec limit) <= (q later - q now) * rate limit)%Q).
    { assert (Hlen : (q c * 1000 <= q later - q now)%Q).
      { rewrite <- q_sub. change 1000%Q with (q 1000). unfold q. rewrite <- inject_Z_mult, <- Zle_Qle. lia. }
      apply Qlt_le_weak in Hr. apply (Qmult_le_compat_r _ _ _ Hlen) in Hr. unfold rate in Hr |- *.
      setoid_replace (q c * 1000 * (q (refill_per_sec limit) / 1000))%Q with (q c * q (refill_per_sec limit))%Q using relation Qeq in Hr by field. exact Hr. }
    lra. }
  apply Qle_bool_iff in Hle. rewrite Hle. by eexists _, _.
Qed.

(** ** The script *)

Definition covers_expiry (limit : Limit) : Prop := sane limit /\ capacity limit <= 60 * refill_per_sec limit.

(** The same tokens up to equality of rationals; the script's key lives a minute. *)
Definition mirrors (s : Z) (g : gmap string (Q * Z)) (r : gmap string (Q * Z * Z)) : Prop :=
  forall key, match g !! key, r !! key with
              | None, None => True
              | Some (tk, up), Some (tk', up', ex) => (tk == tk')%Q /\ (0 <= tk)%Q /\ up' = up /\ ex = up + 60000 /\ up <= s
              | _, _ => False
              end.

Lemma answers_agree limit (t t' : Q) : (t == t')%Q ->
  Qle_bool (q 1) t = Qle_bool (q 1) t'
  /\ (Qle_bool (q 1) t = true -> Qfloor (t - q 1) = Z.max 0 (Qfloor (t' - q 1)))
  /\ (0 < refill_per_sec limit -> Z.max 1 (Qceiling ((q 1 - t) / q (refill_per_sec limit)))
        = Z.max 1 (Qceiling ((q 1 - t') * q 1000 / q (refill_per_sec limit) / q 1000))).
Proof.
  intros He. split; [|split].
  - by rewrite He.
  - intros Hle. apply Qle_bool_iff in Hle. rewrite (Qfloor_comp (t - q 1) (t' - q 1)) by (by rewrite He).
    rewrite Z.max_r; [done|]. rewrite <- (Qfloor_Z 0). apply Qfloor_resp_le. rewrite He in Hle. change (inject_Z 0) with 0%Q. lra.
  - intros Hr. f_equal. apply Qceiling_comp. rewrite He. unfold q. field.
    intros H0. assert (0 < inject_Z (refill_per_sec limit))%Q as Hp by by rewrite <- (Zlt_Qlt 0). rewrite H0 in Hp. by apply Qlt_irrefl in Hp.
Qed.

(** The tokens both have at the time of a check. *)
Lemma refills_agree limit key s now g r :
  covers_expiry limit -> s <= now -> mirrors s g r ->
  let '(tk, up) := default (nint (capacity limit), now) (g !! key) in
  let '(tk', up') := default (nint (capacity limit), now) (lua_get key now r) in
  (refill limit tk up now == n_min (nint (capacity limit)) (tk' + nint (Z.max 0 (now - up')) * nint (refill_per_sec limit) / nint 1000)%num)%Q
  /\ (0 <= refill limit tk up now)%Q.
Proof.
  intros [Hl Hexp] Hs Hm. pose proof (rate_pos limit Hl) as Hr. destruct Hl as [Hcap Href].
  assert (Hc1 : (1 <= q (capacity limit))%Q) by (by apply (q_le 1)).
  assert (Hnew : forall tk up, up <= now ->
    (n_min (nint (capacity limit)) (tk + nint (Z.max 0 (now - up)) * nint (refill_per_sec limit) / nint 1000)%num
       == Qmin (tk + (q now - q up) * rate limit) (q (capacity limit)))%Q).
  { intros tk up Hup. rewrite min_is_Qmin, !nint_is_q. cbn [n_add n_mul n_div QArithI]. rewrite Z.max_r by lia. rewrite q_sub, Q.min_comm.
    unfold rate.
    setoid_replace (tk + (q now - q up) * q (refill_per_sec limit) / q 1000)%Q with (tk + (q now - q up) * (q (refill_per_sec limit) / 1000))%Q
      using relation Qeq by (unfold q; field). reflexivity. }
  assert (Hfull : (Qmin (q (capacity limit) + (q now - q now) * rate limit) (q (capacity limit)) == q (capacity limit))%Q).
  { apply Q.min_r. lra. }
  specialize (Hm key). unfold lua_get. destruct (g !! key) as [[tk up]|], (r !! key) as [[[tk' up'] ex]|]; try done.
  - destruct Hm as (He & Ht0 & -> & -> & Hup). cbn [default]. unfold Datatypes.id.
    assert (Hpos : (0 <= (q now - q up) * rate limit)%Q).
    { apply Qmult_le_0_compat; [|by apply Qlt_le_weak]. pose proof (q_le up now ltac:(lia)). lra. }
    assert (H0 : (0 <= refill limit tk up now)%Q).
    { rewrite refill_Q by lia. apply Q.min_glb; lra. }
    destruct (Z.ltb_spec now (up + 60000)) as [Hlt|Hge]; cbn [default]; unfold Datatypes.id; split; try exact H0.
    + rewrite (Hnew tk' up) by lia. rewrite refill_Q by lia. by rewrite He.
    + rewrite nint_is_q at 2. rewrite (Hnew _ now) by lia. rewrite Hfull, refill_Q by lia. apply Q.min_r.
      assert (Hflow : (q (capacity limit) <= (q now - q up) * rate limit)%Q); [|lra].
      assert (Hlen : (q 60000 <= q now - q up)%Q) by (rewrite <- q_sub; apply q_le; lia).
      assert (Hr' : (0 <= rate limit)%Q) by by apply Qlt_le_weak.
      apply (Qmult_le_compat_r _ _ _ Hlen) in Hr'. unfold rate in Hr' |- *.
      setoid_replace (q 60000 * (q (refill_per_sec limit) / 1000))%Q with (q 60 * q (refill_per_sec limit))%Q
        using relation Qeq in Hr' by (unfold q; field).
      eapply Qle_trans; [|exact Hr']. unfold q. rewrite <- inject_Z_mult, <- Zle_Qle. lia.
  - cbn [default]. unfold Datatypes.id. split; [rewrite (Hnew _ now), refill_Q by lia; reflexivity|].
    rewrite refill_Q, nint_is_q by lia. rewrite Hfull. lra.
Qed.

Lemma check_mirrors limit key s now g r :
  covers_expiry limit -> s <= now -> mirrors s g r ->
  (check key limit now g).1 = (lua_check key limit now r).1
  /\ mirrors now (check key limit now g).2 (lua_check key limit now r).2.
Proof.
  intros Hl Hs Hm. pose proof (refills_agree limit key s now g r Hl Hs Hm) as Hre. unfold check, lua_check.
  destruct (default (nint (capacity limit), now) (g !! key)) as [tk up].
  destruct (default (nint (capacity limit), now) (lua_get key now r)) as [tk' up']. cbv zeta in *.
  revert Hre. set (t := refill limit tk up now). set (t' := n_min (nint (capacity limit)) _). intros [He Ht0].
  destruct (answers_agree limit t t' He) as (Hb & Hfl & Hce). rewrite !nint_is_q. cbn [n_leb QArithI]. rewrite <- Hb.
  assert (Hstore : forall u u' : Q, (u == u')%Q -> (0 <= u)%Q -> mirrors now (<[key := (u, now)]> g) (<[key := (u', now, now + 60000)]> r)).
  { intros u u' Hu Hu0 k. destruct (decide (key = k)) as [<-|Hne].
    - rewrite !fin_maps.lookup_insert_eq. split_and!; done || lia.
    - rewrite !lookup_insert_ne by done. specialize (Hm k).
      destruct (g !! k) as [[a b]|], (r !! k) as [[[a' b'] e]|]; try done. destruct Hm as (? & ? & ? & ? & ?). split_and!; done || lia. }
  destruct (Qle_bool (q 1) t) eqn:Eb; cbn [fst snd].
  - split; [f_equal; by apply Hfl|]. apply Qle_bool_iff in Eb. change (q 1) with 1%Q in *. apply Hstore.
    + cbn [n_sub QArithI]. by rewrite He.
    + cbn [n_sub QArithI]. lra.
  - split; [f_equal; apply Hce; apply Hl|]. by apply Hstore.
Qed.

(** C31: The in-memory bucket mirrors the Lua script: on every sequence of
    requests under a clock that does not go back, with limits whose bucket
    fills within the minute a key lives, both give the same answers, the
    remaining tokens and the seconds to wait included. *)
Theorem edge_bucket_mirrors_lua limit rs :
  (forall key, covers_expiry (limit key)) -> Sorted Z.le (map snd rs) ->
  (requests limit rs (∅ : gmap string (Q * Z))).1 = (lua_requests limit rs (∅ : gmap string (Q * Z * Z))).1.
Proof.
  intros Hl Hs.
  assert (Hgen : forall s g r, Sorted Z.le (s :: map snd rs) -> mirrors s g r -> (requests limit rs g).1 = (lua_requests limit rs r).1).
  { clear Hs. induction rs as [|[key now] rs' IH]; intros s g r Hs Hm; [done|]. cbn [map snd] in Hs. apply Sorted_inv in Hs as [Hs Hsn].
    apply HdRel_inv in Hsn. cbn [requests lua_requests].
    destruct (check_mirrors (limit key) key s now g r (Hl key) Hsn Hm) as [Hres Hm'].
    destruct (check key (limit key) now g) as [res g1], (lua_check key (limit key) now r) as [res' r1]. cbn [fst snd] in *. subst res'.
    specialize (IH now g1 r1 Hs Hm'). destruct (requests limit rs' g1), (lua_requests limit rs' r1). cbn [fst] in *. by rewrite IH. }
  destruct rs as [|[key now] rs']; [done|]. apply (Hgen now); [constructor; [exact Hs|constructor; cbn; lia]|]. intros k. by rewrite !lookup_empty.
Qed.

(** ** Runs *)

(** 201 requests of one address in one millisecond, and one each ten milliseconds later. *)
Definition burst : list (string * Z) := repeat ("rl:ip:1", 0) 201 ++ map (fun n => ("rl:ip:1", 10 * Z.of_nat n)) (seq 1 100).

Lemma burst_sorted : Sorted Z.le (map snd burst).
Proof.
  let l := eval vm_compute in (map snd burst) in change (Sorted Z.le l).
  repeat (apply Sorted_cons; [|first [apply HdRel_nil|apply HdRel_cons; lia]]). apply Sorted_nil.
Qed.

Lemma edge_bucket_mirrors_lua_witness :
  (requests (fun _ => PUBLIC) burst (∅ : gmap string (Q * Z))).1 = (lua_requests (fun _ => PUBLIC) burst (∅ : gmap string (Q * Z * Z))).1.
Proof.
  apply (edge_bucket_mirrors_lua (fun _ => PUBLIC) burst); [intros key; repeat split; cbn; lia|apply burst_sorted].
Defined.

(** The public limit lets 300 requests of an address through within its first second. *)
Example public_burst : passed "rl:ip:1" (requests (fun _ => PUBLIC) burst (∅ : gmap string (Q * Z))).1 = 300.
Proof. by vm_compute. Qed.

Lemma edge_rate_bounded_witness :
  1000 * passed "rl:ip:1" (requests (fun _ => PUBLIC) burst (∅ : gmap string (Q * Z))).1 <= 1000 * 200 + 100 * (1000 - 0).
Proof.
  apply (edge_rate_bounded (fun _ => PUBLIC) "rl:ip:1" [] burst 0 1000); [by split|apply burst_sorted|constructor| |done].
  apply Forall_forall. intros [k t] Hin. unfold burst in Hin. apply elem_of_app in Hin as [Hin|Hin].
  - apply list_elem_of_In, repeat_spec in Hin. injection Hin as -> ->. cbn. lia.
  - apply list_elem_of_In, in_map_iff in Hin as (n & [= <- <-] & Hn). apply in_seq in Hn. cbn [snd]. lia.
Defined.
