(* ===== verification/EdgeAuth.v ===== *)
(** * Signing in at the edge ([crates/perplex-edge/src/auth.rs])

    The nonce and the verification of a sign-in message, and the web client's
    sign-in ([Session.signIn]) run against them, through the fetch wrapper.  Hashing, signature recovery
    (k256, sha3) and the token codec (jsonwebtoken) are parameters; so is the
    message the wallet library composes, of which ERC-4361 fixes the lines.
    Bytes are characters of a string. *)

From S2P Require Import Prelude JsNum JsText JsColl Contract Browser Session EdgeDecimal EdgeState EdgeHandlers EdgeInv EdgeRuns.
From stdpp Require Import gmap.
From Stdlib Require Import Ascii.
#[local] Open Scope Z_scope.

(** ** Strings of Rust *)

(** [trim_start_matches(p)]: the prefix is removed as often as it is there. *)
Fixpoint trim_start_matches_fuel (fuel : nat) (p s : string) : string :=
  match fuel with
  | O => s
  | S fuel' => if startsWith p s then trim_start_matches_fuel fuel' p (str_drop (String.length p) s) else s
  end.
Definition trim_start_matches (p s : string) : string := trim_start_matches_fuel (String.length s) p s.

Definition strip_cr (s : string) : string :=
  match str_rev s with String c r => if Ascii.eqb c "013" then str_rev r else s | EmptyString => s end.

(** [str::lines]: split at newlines, a last empty line dropped, carriage returns stripped. *)
Definition lines (s : string) : list string :=
  let parts := split_char "010" s in
  let parts := match last parts with Some l => if String.eqb l "" then removelast parts else parts | None => parts end in
  map strip_cr parts.

Definition hex_nibble (c : ascii) : option Z := hex_val c.

(** [hex::decode]. *)
Fixpoint hex_decode (s : string) : option string :=
  match s with
  | EmptyString => Some ""
  | String a (String b s') =>
      match hex_nibble a, hex_nibble b, hex_decode s' with
      | Some x, Some y, Some r => Some (String (ascii_of_N (Z.to_N (16 * x + y))) r)
      | _, _, _ => None
      end
  | String _ EmptyString => None
  end.

Definition hex_char (d : Z) : ascii := if d <? 10 then char_of_digit d else ascii_of_N (Z.to_N (d + 87)).

(** [hex::encode]: lower case. *)
Fixpoint hex_encode (s : string) : string :=
  match s with
  | EmptyString => ""
  | String c s' =>
      let n := Z.of_N (N_of_ascii c) in String (hex_char (n / 16)) (String (hex_char (n mod 16)) (hex_encode s'))
  end.

(** ** Sign-in messages *)

Definition find_line (prefix msg : string) : option string :=
  (fun l => str_trim (trim_start_matches prefix l)) <$> List.find (startsWith prefix) (lines msg).

Definition parse_siwe_address (msg : string) : option string :=
  match find_line "Address: " msg with
  | Some a => Some a
  | None => str_trim <$> lines msg !! 1%nat
  end.

Definition parse_siwe_nonce (msg : string) : option string := find_line "Nonce: " msg.

Record Claims := mkClaims { cl_sub : string; cl_exp : Z; cl_iat : Z }.
Definition JWT_TTL_SECS : Z := 3600.

Section Auth.
Variable keccak256 : string -> string.
Variable Signature : Type.
Variable signature_from_slice : string -> option Signature.
(** [VerifyingKey::recover_from_prehash]: the uncompressed point of the key. *)
Variable recover_from_prehash : string -> Signature -> Z -> option string.
Variable jwt_encode : string -> Claims -> string.
Variables (now_secs : nat -> Z) (ulid : nat -> string) (jwt_secret : string).

Definition eip191 (message : string) : string :=
  String "025" ("Ethereum Signed Message:" +:+ String "010" (show_Z (strlen message) +:+ message)).

Definition recover_personal_sign (message signature : string) : ApiError + string :=
  match hex_decode (trim_start_matches "0x" signature) with
  | None => inl InvalidSignature
  | Some sig_bytes =>
      if negb (String.length sig_bytes =? 65)%nat then inl InvalidSignature
      else
        let v := match String.get 64 sig_bytes with Some c => Z.of_N (N_of_ascii c) | None => 0 end in
        let recovery_id :=
          if (v =? 27) || (v =? 28) then Some (v - 27) else if (v =? 0) || (v =? 1) then Some v else None in
        match recovery_id, signature_from_slice (str_take 64 sig_bytes) with
        | Some recid, Some sig =>
            match recover_from_prehash (keccak256 (eip191 message)) sig recid with
            | Some point => inr ("0x" +:+ hex_encode (str_drop 12 (keccak256 (str_drop 1 point))))
            | None => inl InvalidSignature
            end
        | _, _ => inl InvalidSignature
        end
  end.

Definition verify_siwe (message signature : string) (st : Edge) : (ApiError + string) * Edge :=
  match parse_siwe_address message with
  | None => (inl (BadRequest "siwe message missing Address line"), st)
  | Some a =>
      let address := toLowerCase a in
      match parse_siwe_nonce message with
      | None => (inl (BadRequest "siwe message missing Nonce line"), st)
      | Some expected_nonce =>
          match recover_personal_sign message signature with
          | inl e => (inl e, st)
          | inr recovered =>
              if negb (String.eqb recovered address) then (inl (Unauthorized "signature does not match address"), st)
              else
                let '(issued, st) := consume_siwe_nonce address st in
                match issued with
                | None => (inl (Unauthorized "nonce not issued or already used"), st)
                | Some n =>
                    if negb (String.eqb n expected_nonce) then (inl (Unauthorized "nonce mismatch"), st)
                    else (inr address, st)
                end
          end
      end
  end.

Definition issue_jwt (address : string) (st : Edge) : (string * Z) * Edge :=
  let now := now_secs (e_ticks st) in
  let exp := now + JWT_TTL_SECS in
  ((jwt_encode jwt_secret (mkClaims (toLowerCase address) exp now), exp), tick st).

(** POST /v1/auth/siwe/nonce. *)
Definition siwe_nonce (address : string) (st : Edge) : (ApiError + string) * Edge :=
  if negb (startsWith "0x" address) || negb (String.length address =? 42)%nat then
    (inl (BadRequest "invalid address"), st)
  else let '(nonce, st) := issue_siwe_nonce ulid address st in (inr nonce, st).

(** POST /v1/auth/siwe/verify. *)
Definition siwe_verify (message signature : string) (st : Edge) : (ApiError + SiweVerifyResponse) * Edge :=
  match verify_siwe message signature st with
  | (inl e, st) => (inl e, st)
  | (inr address, st) =>
      let address := toLowerCase address in
      let st := seed_dev_vault address st in
      let '((jwt, exp_secs), st) := issue_jwt address st in
      (inr (mkSiweVerifyResponse jwt (show_Z (exp_secs * 1000000000))), st)
  end.

(** ** The web client against the edge *)

Definition reason (status : Z) : string :=
  if status =? 400 then "Bad Request" else if status =? 401 then "Unauthorized" else if status =? 403 then "Forbidden"
  else if status =? 404 then "Not Found" else if status =? 429 then "Too Many Requests" else "Internal Server Error".

(** An answer on the wire; errors carry the JSON envelope of [error.rs]. *)
Definition on_wire {A} (body : A -> SiweBody) (r : ApiError + A) : HttpResponse SiweBody :=
  match r with
  | inr a => mkHttpResponse 200 "OK" (Some (body a)) ""
  | inl e => mkHttpResponse (error_status e) (reason (error_status e)) (Some (BodyObject None None None)) ""
  end.

(** The two routes a sign-in uses, below the rate limiter (see [RateLimit]); the
    server's state goes from the one to the other. *)
Definition edge_fetch (base : string) (rq : HttpRequest) (st : Edge) : result (HttpResponse SiweBody) * Edge :=
  match hq_body rq with
  | BAddress a =>
      if String.eqb (hq_url rq) (base +:+ "/v1/auth/siwe/nonce") then
        let '(r, st') := siwe_nonce a st in (Ok (on_wire (fun n => BodyObject (Some n) None None) r), st')
      else (Ok (mkHttpResponse 404 (reason 404) None ""), st)
  | BSiwe m g =>
      if String.eqb (hq_url rq) (base +:+ "/v1/auth/siwe/verify") then
        let '(r, st') := siwe_verify m g st in
        (Ok (on_wire (fun v => BodyObject None (Some (sv_jwt v)) (Some (sv_expiresAt v))) r), st')
      else (Ok (mkHttpResponse 404 (reason 404) None ""), st)
  | _ => (Ok (mkHttpResponse 404 (reason 404) None ""), st)
  end.

(** ** Histories with sign-ins *)

Section Histories.
Context `{D : Decimals}.
Variable now_ns : nat -> Z.
Variable order_iter : gmap string (list OpenOrder) -> list (string * list OpenOrder).

Inductive AuthCall := Served (c : Call) | Verified (message signature : string).

Definition auth_call (st : Edge) (c : AuthCall) : Edge :=
  match c with
  | Served c => call now_ns ulid order_iter st c
  | Verified m g => (siwe_verify m g st).2
  end.

Definition auth_calls (st : Edge) (cs : list AuthCall) : Edge := foldl auth_call st cs.

(** A step that leaves the nonces alone. *)
Definition quiet (st st' : Edge) : Prop := e_siwe_nonces st' = e_siwe_nonces st /\ (e_ticks st <= e_ticks st')%nat.

Lemma quiet_trans st1 st2 st3 : quiet st1 st2 -> quiet st2 st3 -> quiet st1 st3.
Proof. intros [H1 H2] [H3 H4]. split; [congruence|lia]. Qed.

Lemma rebuild_nonces m st : e_siwe_nonces (rebuild_orderbook order_iter m st) = e_siwe_nonces st.
Proof. unfold rebuild_orderbook. by destruct (foldl _ _ _). Qed.

Lemma sync_makers_nonces f st : e_siwe_nonces (sync_makers f st) = e_siwe_nonces st.
Proof.
  unfold sync_makers. generalize (touched f). intros l. revert st. induction l as [|a l IH]; intros st; [done|].
  simpl. by rewrite IH.
Qed.

Lemma adjust_vault_nonces a d st : e_siwe_nonces (adjust_vault a d st) = e_siwe_nonces st.
Proof. unfold adjust_vault. by case_match. Qed.

Lemma match_taker_quiet m s tp q taker st : quiet st (match_taker now_ns order_iter m s tp q taker st).2.
Proof.
  split; [|apply match_taker_ticks]. unfold match_taker. cbv zeta. cbn [snd].
  by rewrite sync_makers_nonces, rebuild_nonces.
Qed.

Lemma settle_match_quiet user m s oid f r st x : quiet st (settle_match now_ns ulid user m s oid f r st x).
Proof.
  split; [|apply settle_match_orders]. unfold settle_match. cbv zeta.
  unfold upsert_position, apply_position_fill, record_trade.
  cbn [e_siwe_nonces tick set_position_map set_public_trades emit set_persist].
  by rewrite !adjust_vault_nonces.
Qed.

Lemma settle_matches_quiet user m s oid f r ms st : quiet st (foldl (settle_match now_ns ulid user m s oid f r) st ms).
Proof.
  revert st. induction ms as [|x ms IH]; intros st; [done|]. eapply quiet_trans; [apply settle_match_quiet|apply IH].
Qed.

Lemma add_open_order_quiet a o st : quiet st (add_open_order order_iter a o st).
Proof.
  split; [|by rewrite (proj2 (add_open_order_orders order_iter a o st))].
  unfold add_open_order. cbv zeta. by rewrite rebuild_nonces.
Qed.

Lemma place_quiet user req st : quiet st (place_order now_ns ulid order_iter user req st).2.
Proof.
  unfold place_order. destruct (validate req st) as [e|[q tp]]; [done|].
  destruct (risk_gate user req q tp st); [done|].
  assert (H0 : quiet st (tick (tick st))) by (split; [done|simpl; lia]). case_match; [done|].
  unfold execute_order. pose proof (match_taker_quiet (pl_market_id req) (pl_side req) tp q user (tick (tick st))) as H1.
  destruct (match_taker _ _ _ _ _ _ _ _) as [ms st1]. destruct (match market _ _ with Some _ => _ | None => _ end) as [f r].
  cbn [snd] in *. do 2 (eapply quiet_trans; [eassumption|]).
  case_match; [|apply settle_matches_quiet]. eapply quiet_trans; [apply settle_matches_quiet|apply add_open_order_quiet].
Qed.

Lemma cancel_quiet a oid st : quiet st (cancel_order order_iter a oid st).2.
Proof.
  split; [|by rewrite (proj2 (cancel_orders order_iter a oid st))]. unfold cancel_order.
  destruct (oo_market_id <$> _) as [m|]; destruct (e_open_orders st !! a); cbn [snd]; try case_match; cbn [snd];
    by rewrite ?rebuild_nonces.
Qed.

Lemma seed_quiet a st : quiet st (seed_dev_vault a st).
Proof. unfold seed_dev_vault. by repeat case_match. Qed.

(** Only a nonce request stores a nonce, the one made at its tick; every
    other step keeps or deletes the nonces there are. *)
Lemma auth_call_nonces st c :
  (e_ticks st <= e_ticks (auth_call st c))%nat /\
  forall a n, e_siwe_nonces (auth_call st c) !! a = Some n ->
    e_siwe_nonces st !! a = Some n \/ exists k, n = ulid k /\ (e_ticks st <= k < e_ticks (auth_call st c))%nat.
Proof.
  assert (Hq : forall st', quiet st st' -> (e_ticks st <= e_ticks st')%nat /\
    forall a n, e_siwe_nonces st' !! a = Some n ->
      e_siwe_nonces st !! a = Some n \/ exists k, n = ulid k /\ (e_ticks st <= k < e_ticks st')%nat).
  { intros st' [Hn Ht]. split; [done|]. intros a n. rewrite Hn. by left. }
  destruct c as [[user req|user oid|user|user|m p|ad|ad amount|ad m]|message signature]; cbn [auth_call call].
  - apply Hq, place_quiet.
  - apply Hq. unfold handle_cancel. pose proof (cancel_quiet user oid st). by destruct (cancel_order _ _ _ _).
  - apply Hq, seed_quiet.
  - apply Hq, seed_quiet.
  - by apply Hq.
  - cbn. split; [lia|]. intros a n Hl. destruct (decide (a = ad)) as [->|Hne].
    + rewrite fin_maps.lookup_insert_eq in Hl. injection Hl as <-. right. exists (e_ticks st). split; [done|lia].
    + rewrite lookup_insert_ne in Hl by done. by left.
  - by apply Hq.
  - apply Hq. unfold liquidate_position. repeat case_match; split; simpl; try done; lia.
  - unfold siwe_verify. assert (Hv : forall r st1, verify_siwe message signature st = (r, st1) ->
      (e_ticks st <= e_ticks st1)%nat /\ e_siwe_nonces st1 ⊆ e_siwe_nonces st).
    { unfold verify_siwe. intros r st1 H. destruct (parse_siwe_address message); [|by injection H as <- <-].
      destruct (parse_siwe_nonce message); [|by injection H as <- <-].
      destruct (recover_personal_sign message signature); [by injection H as <- <-|].
      destruct (negb _); [by injection H as <- <-|]. cbn [consume_siwe_nonce] in H.
      repeat case_match; injection H as <- <-; (split; [done|apply delete_subseteq]). }
    destruct (verify_siwe message signature st) as [r st1] eqn:E. destruct (Hv _ _ eq_refl) as [Ht Hsub].
    assert (Hk : forall a n, e_siwe_nonces st1 !! a = Some n -> e_siwe_nonces st !! a = Some n)
      by (intros a n Hl; exact (lookup_weaken _ _ _ _ Hl Hsub)).
    destruct r as [e|address]; cbn [snd]; [split; [done|]; intros; left; by apply Hk|].
    destruct (seed_quiet (toLowerCase address) st1) as [Hn1 Ht1]. cbn [issue_jwt snd e_ticks e_siwe_nonces tick].
    rewrite Hn1. split; [lia|]. intros; left; by apply Hk.
Qed.

Lemma auth_calls_nonces cs : forall st,
  (e_ticks st <= e_ticks (auth_calls st cs))%nat /\
  forall a n, e_siwe_nonces (auth_calls st cs) !! a = Some n ->
    e_siwe_nonces st !! a = Some n \/ exists k, n = ulid k /\ (e_ticks st <= k < e_ticks (auth_calls st cs))%nat.
Proof.
  induction cs as [|c cs IH]; intros st; [split; [done|by left]|]. cbn [auth_calls foldl].
  destruct (auth_call_nonces st c) as [Ht Hn], (IH (auth_call st c)) as [Ht' Hn']. unfold auth_calls in *.
  split; [lia|]. intros a n Hl. destruct (Hn' a n Hl) as [Hl'|(k & -> & Hk)]; [|right; exists k; split; [done|lia]].
  destruct (Hn a n Hl') as [?|(k & -> & Hk)]; [by left|]. right. exists k. split; [done|lia].
Qed.

(** ** Who can sign in *)

Lemma verify_parts message signature st resp st' :
  siwe_verify message signature st = (inr resp, st') ->
  exists a n, parse_siwe_address message = Some a /\ parse_siwe_nonce message = Some n
    /\ recover_personal_sign message signature = inr (toLowerCase a) /\ e_siwe_nonces st !! toLowerCase a = Some n
    /\ e_siwe_nonces st' = delete (toLowerCase a) (e_siwe_nonces st) /\ (e_ticks st <= e_ticks st')%nat.
Proof.
  intros Hv. unfold siwe_verify, verify_siwe in Hv.
  destruct (parse_siwe_address message) as [a|]; [|done]. destruct (parse_siwe_nonce message) as [n|]; [|done].
  destruct (recover_personal_sign message signature) as [e|rec] eqn:Hr; [done|].
  destruct (String.eqb_spec rec (toLowerCase a)) as [He|]; [|done]. cbn [negb consume_siwe_nonce] in Hv.
  destruct (e_siwe_nonces st !! toLowerCase a) as [n'|] eqn:Hn; [|done].
  destruct (String.eqb_spec n' n) as [->|]; [|done]. cbn [negb] in Hv. injection Hv as _ <-.
  exists a, n. split_and!; try done; try (by rewrite He); unfold seed_dev_vault; repeat case_match; cbn; done || lia.
Qed.

(** C14: A verified sign-in is authentic and spent for good, if the nonce
    generator never repeats itself: after any history of requests and
    sign-ins, the server answers with a token only if the signature of the
    message recovers to the address the message names and the message carries
    the nonce that is stored for that address, one the server itself made;
    and whatever requests, nonce requests included, and sign-ins follow, the
    same message is never verified again, with any signature. *)
Theorem edge_sign_in_authentic dev persist before message signature resp st' :
  (forall i j, ulid i = ulid j -> i = j) ->
  let st := auth_calls (new_edge dev persist) before in
  siwe_verify message signature st = (inr resp, st') ->
  exists address nonce,
    parse_siwe_address message = Some address /\ parse_siwe_nonce message = Some nonce
    /\ recover_personal_sign message signature = inr (toLowerCase address)
    /\ e_siwe_nonces st !! toLowerCase address = Some nonce
    /\ (exists k, (k < e_ticks st)%nat /\ nonce = ulid k)
    /\ forall later signature', exists e, (siwe_verify message signature' (auth_calls st' later)).1 = inl e.
Proof.
  intros Hinj st Hv. destruct (verify_parts _ _ _ _ _ Hv) as (a & n & Ha & Hn & Hr & Hst & Hst' & Ht).
  exists a, n. destruct (auth_calls_nonces before (new_edge dev persist)) as [_ Hissued].
  destruct (Hissued _ _ Hst) as [Hno|(k & -> & Hk)]; [done|]. fold st in Hk.
  split_and!; try done; [exists k; split; [lia|done]|]. intros later signature'.
  destruct (auth_calls_nonces later st') as [_ Hlater].
  unfold siwe_verify, verify_siwe. rewrite Ha, Hn. destruct (recover_personal_sign message signature'); [by eexists|].
  destruct (negb (String.eqb _ _)); [by eexists|]. cbn [consume_siwe_nonce].
  destruct (e_siwe_nonces (auth_calls st' later) !! toLowerCase a) as [n'|] eqn:Hn'; [|by eexists].
  destruct (Hlater _ _ Hn') as [Hold|(k' & -> & Hk')].
  - rewrite Hst', lookup_delete_eq in Hold. done.
  - destruct (String.eqb_spec (ulid k') (ulid k)) as [He|_]; [|by eexists]. apply Hinj in He. lia.
Qed.
End Histories.

(** The state of the server after the nonce request of a sign-in, and what
    the fetch wrapper is answered. *)
Lemma nonce_reply base address st b :
  edge_fetch base (nonce_request base address b) st =
  (Ok (on_wire (fun n => BodyObject (Some n) None None) (siwe_nonce address st).1), (siwe_nonce address st).2).
Proof.
  unfold edge_fetch, nonce_request, request_init. cbn [hq_body hq_url]. rewrite string_eqb_refl.
  by destruct (siwe_nonce address st).
Qed.

Lemma verify_reply base m g st b :
  edge_fetch base (verify_request base m g b) st =
  (Ok (on_wire (fun v => BodyObject None (Some (sv_jwt v)) (Some (sv_expiresAt v))) (siwe_verify m g st).1),
   (siwe_verify m g st).2).
Proof.
  unfold edge_fetch, verify_request, request_init. cbn [hq_body hq_url]. rewrite string_eqb_refl.
  by destruct (siwe_verify m g st).
Qed.

Lemma good_on_wire {A} (f : A -> SiweBody) r :
  good_reply (Ok (on_wire f r)) = match r with inr a => Some (f a) | inl _ => None end.
Proof. destruct r as [e|a]; [|done]. by destruct e. Qed.

Definition well_formed_address (address : string) : bool := startsWith "0x" address && (String.length address =? 42)%nat.

Lemma siwe_nonce_ok address st :
  well_formed_address address = true -> siwe_nonce address st = (inr (ulid (e_ticks st)), (issue_siwe_nonce ulid address st).2).
Proof.
  unfold well_formed_address, siwe_nonce. intros [H0 H1]%andb_true_iff. by rewrite H0, H1.
Qed.

Lemma siwe_nonce_bad address st :
  well_formed_address address = false -> siwe_nonce address st = (inl (BadRequest "invalid address"), st).
Proof.
  unfold well_formed_address, siwe_nonce. intros [H|H]%andb_false_iff; rewrite H; [done|by rewrite orb_true_r].
Qed.

(** The verification of a message that names an address of which the
    lower-case spelling has no nonce. *)
Lemma verify_without_nonce m g address st :
  parse_siwe_address m = Some address -> e_siwe_nonces st !! toLowerCase address = None ->
  exists e, (siwe_verify m g st).1 = inl e /\
    (parse_siwe_nonce m <> None -> recover_personal_sign m g = inr (toLowerCase address) ->
     e = Unauthorized "nonce not issued or already used").
Proof.
  intros Ha Hnone. unfold siwe_verify, verify_siwe. rewrite Ha.
  destruct (parse_siwe_nonce m); [|by eexists]. destruct (recover_personal_sign m g) as [e|rec]; [by eexists|].
  destruct (String.eqb_spec rec (toLowerCase address)) as [->|Hne]; cbn [negb].
  - cbn [consume_siwe_nonce]. rewrite Hnone. by eexists.
  - eexists. split; [reflexivity|]. intros _ [= He]. by destruct Hne.
Qed.

(** C33: The web client cannot sign in with a checksummed address: the nonce is
    stored under the address as sent and looked up under its lower case.  For
    an address with an upper-case letter, while no nonce is outstanding under
    the lower-case spelling, the sign-in of [siwe.ts], run through the fetch
    wrapper against the edge, ends in an error and stores no token, whatever
    the wallet signs; and for the rightful owner, whose wallet does sign, the
    edge's answer is a 401, which also signs out the session that was
    stored. *)
Theorem edge_checksummed_sign_in_fails base prepare sign address st u b :
  b_window b = true -> str_truthy address = true -> toLowerCase address <> address ->
  e_siwe_nonces st !! toLowerCase address = None ->
  (forall message, prepare address (Some (ulid (e_ticks st))) = Ok message -> parse_siwe_address message = Some address) ->
  exists why st' b', signIn base (edge_fetch base) prepare sign (Some address) u st b = (mkSiweUi false (Some why), st', b')
    /\ (b' = b \/ signed_out b')
    /\ forall message signature,
         well_formed_address address = true ->
         prepare address (Some (ulid (e_ticks st))) = Ok message -> sign message = Ok signature ->
         parse_siwe_nonce message = Some (ulid (e_ticks st)) ->
         recover_personal_sign message signature = inr (toLowerCase address) ->
         signed_out b' /\ b_events b' = b_events b ++ [JWT_EVENT].
Proof.
  intros Hw Ht Hlow Hnone Hprep. unfold signIn, truthy_item. rewrite Ht.
  assert (Hclear : signed_out (clearStoredJwtOn401 b) /\ b_events (clearStoredJwtOn401 b) = b_events b ++ [JWT_EVENT]).
  { destruct (clearStored_agree b) as [-> _]. split; [by apply clearJwt_signed_out|].
    unfold clearJwt, emitJwtChange. rewrite Hw. cbn. by rewrite Hw. }
  assert (Hfail : verified_session base (edge_fetch base) prepare sign address st b = None
    /\ forall message signature, well_formed_address address = true ->
         prepare address (Some (ulid (e_ticks st))) = Ok message -> sign message = Ok signature ->
         parse_siwe_nonce message = Some (ulid (e_ticks st)) ->
         recover_personal_sign message signature = inr (toLowerCase address) ->
         unauthorized_reply (last_reply base (edge_fetch base) prepare sign address st b) = true).
  { unfold verified_session, last_reply, signed_message. rewrite nonce_reply. cbn [fst]. rewrite good_on_wire.
    destruct (well_formed_address address) eqn:Hwf.
    2:{ by rewrite siwe_nonce_bad. }
    rewrite siwe_nonce_ok by done. cbn [fst snd].
    destruct (prepare address (Some (ulid (e_ticks st)))) as [m|er] eqn:Hp; [|done].
    destruct (sign m) as [g|er] eqn:Hg; [|split; [done|]; intros ?? _ [= <-]; by rewrite Hg].
    rewrite verify_reply. cbn [fst]. rewrite good_on_wire.
    destruct (verify_without_nonce m g address (issue_siwe_nonce ulid address st).2) as (e & -> & He).
    - by apply Hprep.
    - cbn. by rewrite lookup_insert_ne by congruence.
    - split; [done|]. intros ?? _ [= <-] Hs' Hn Hr. rewrite Hg in Hs'. injection Hs' as <-.
      rewrite He; [done| |done]. by rewrite Hn. }
  destruct Hfail as [Hv Hu].
  pose proof (signIn_calls_outcome base (edge_fetch base) prepare sign address st b) as H. rewrite Hv in H.
  destruct H as (why & s' & ->). do 3 eexists. split; [reflexivity|]. split.
  - destruct (unauthorized_reply _); [right; apply Hclear|by left].
  - intros m g Hwf Hp Hg Hn Hr. rewrite (Hu m g Hwf Hp Hg Hn Hr). exact Hclear.
Qed.

(** In lower case, with a wallet that signs for its address, it succeeds. *)
Theorem edge_lower_case_sign_in base prepare sign address st u b message signature :
  str_truthy address = true -> toLowerCase address = address -> well_formed_address address = true ->
  prepare address (Some (ulid (e_ticks st))) = Ok message -> sign message = Ok signature ->
  parse_siwe_address message = Some address -> parse_siwe_nonce message = Some (ulid (e_ticks st)) ->
  recover_personal_sign message signature = inr address ->
  exists st' jwt expiresAt,
    signIn base (edge_fetch base) prepare sign (Some address) u st b = (mkSiweUi false None, st', writeJwt jwt expiresAt b)
    /\ exists exp iat, jwt = jwt_encode jwt_secret (mkClaims address exp iat).
Proof.
  intros Ht Hlow Hwf Hp Hs Ha Hn Hr. unfold signIn, truthy_item. rewrite Ht.
  pose proof (signIn_calls_outcome base (edge_fetch base) prepare sign address st b) as H.
  assert (Hv : exists j e x i, verified_session base (edge_fetch base) prepare sign address st b = Some (j, e)
    /\ j = jwt_encode jwt_secret (mkClaims address x i)).
  { unfold verified_session, last_reply, signed_message. rewrite nonce_reply. cbn [fst]. rewrite good_on_wire.
    rewrite siwe_nonce_ok by done. cbn [fst snd]. rewrite Hp, Hs, verify_reply. cbn [fst]. rewrite good_on_wire.
    unfold siwe_verify, verify_siwe. rewrite Ha, Hn, Hr, Hlow, string_eqb_refl.
    cbn [negb consume_siwe_nonce issue_siwe_nonce snd e_siwe_nonces set_nonces tick].
    rewrite fin_maps.lookup_insert_eq, string_eqb_refl. cbn [negb issue_jwt fst sv_jwt sv_expiresAt member_text default].
    do 4 eexists. split; [reflexivity|]. rewrite !Hlow. reflexivity. }
  destruct Hv as (j & e & x & i & Hv & Hj). rewrite Hv in H. destruct H as [s' ->]. exists s', j, e. split; [done|]. by exists x, i.
Qed.

End Auth.

(** ** Witnesses *)

Definition newline : string := String "010" "".

(** The message ERC-4361 prescribes for the fields [siwe.ts] sets. *)
Definition erc4361 (address nonce : string) : string :=
  str_join newline
    ["localhost:3000 wants you to sign in with your Ethereum account:"; address; ""; "Sign in to Perplex."; "";
     "URI: http://localhost:3000"; "Version: 1"; "Chain ID: 31337"; "Nonce: " +:+ nonce;
     "Issued At: 2026-05-20T12:00:00.000Z"].

(** A toy key: its hash is the address ab..ab, and it signed everything. *)
Definition toy_keccak (s : string) : string :=
  if String.eqb s "key" then str_repeat "0" 12 +:+ str_repeat (String "171" "") 20 else "".
Definition toy_recover (digest : string) (sig : unit) (recid : Z) : option string := Some "_key".
Definition toy_sig : string := "0x" +:+ str_repeat "00" 64 +:+ "1b".
Definition toy_jwt (secret : string) (c : Claims) : string := "jwt." +:+ cl_sub c.

Definition lower : string := "0x" +:+ str_repeat "ab" 20.
Definition mixed : string := "0x" +:+ str_repeat "aB" 20.

Definition toy_verify : string -> string -> Edge -> (ApiError + SiweVerifyResponse) * Edge :=
  siwe_verify toy_keccak unit (fun _ => Some tt) toy_recover toy_jwt (fun _ => 1700000000) "secret".

(** Requests before the sign-in, the last of them for its nonce. *)
Definition toy_history : list AuthCall := [Served (IssueNonce mixed); Served (GetBalance lower); Served (IssueNonce lower)].
Definition toy_calls : Edge -> list AuthCall -> Edge :=
  auth_calls toy_keccak unit (fun _ => Some tt) toy_recover toy_jwt (fun _ => 1700000000) tally "secret"
    (D := fixed) clock map_to_list.

(** After the sign-in with the message of nonce "x", another nonce is asked
    for and the message tried again. *)
Lemma edge_sign_in_authentic_witness :
  exists resp st', toy_verify (erc4361 lower (tally 1)) toy_sig (toy_calls (new_edge true false) toy_history) = (inr resp, st')
    /\ sv_jwt resp = "jwt." +:+ lower
    /\ exists e, (toy_verify (erc4361 lower (tally 1)) toy_sig (toy_calls st' [Served (IssueNonce lower)])).1 = inl e.
Proof.
  destruct (toy_verify (erc4361 lower (tally 1)) toy_sig (toy_calls (new_edge true false) toy_history)) as [[e|resp] st'] eqn:E;
    [exfalso; vm_compute in E; discriminate E|].
  exists resp, st'. split; [reflexivity|]. split; [vm_compute in E; injection E as <- _; reflexivity|].
  destruct (edge_sign_in_authentic toy_keccak unit (fun _ => Some tt) toy_recover toy_jwt (fun _ => 1700000000) tally "secret"
    (D := fixed) clock map_to_list true false toy_history _ _ _ _ tally_inj E) as (a & n & _ & _ & _ & _ & _ & Hlater).
  apply Hlater.
Defined.

Definition toy_fetch : HttpRequest -> Edge -> result (HttpResponse SiweBody) * Edge :=
  edge_fetch toy_keccak unit (fun _ => Some tt) toy_recover toy_jwt (fun _ => 1700000000) tally "secret" "http://edge".
Definition toy_prepare (a : string) (n : option string) : result string := Ok (erc4361 a (default "" n)).

(** The owner of the key, with a session stored, loses it. *)
Lemma edge_checksummed_sign_in_fails_witness :
  exists why st' b', signIn "http://edge" toy_fetch toy_prepare (fun _ => Ok toy_sig)
      (Some mixed) (mkSiweUi false None) (tick (new_edge true false)) demo_ns_browser = (mkSiweUi false (Some why), st', b')
    /\ signed_out b'.
Proof.
  destruct (edge_checksummed_sign_in_fails toy_keccak unit (fun _ => Some tt) toy_recover toy_jwt (fun _ => 1700000000) tally "secret"
    "http://edge" toy_prepare (fun _ => Ok toy_sig) mixed (tick (new_edge true false)) (mkSiweUi false None) demo_ns_browser)
    as (why & st' & b' & E & _ & H).
  - reflexivity.
  - reflexivity.
  - vm_compute. discriminate.
  - vm_compute. reflexivity.
  - intros message [= <-]. vm_compute. reflexivity.
  - exists why, st', b'. split; [exact E|]. apply (H (erc4361 mixed "x") toy_sig); vm_compute; reflexivity.
Defined.

(** The same key, spelled in lower case, signs in. *)
Example lower_case_signs_in :
  (signIn "http://edge" toy_fetch toy_prepare (fun _ => Ok toy_sig) (Some lower) (mkSiweUi false None)
     (tick (new_edge true false)) demo_browser).1.1 = mkSiweUi false None.
Proof. by vm_compute. Qed.
