(* ===== verification/EdgeHub.v ===== *)
(** * The edge's WebSocket hub ([crates/perplex-edge/src/ws/hub.rs], [server.rs])

    Topics, the broadcast hub with its bounded mailboxes, and what a
    connection does with a client's frames.  Each subscription has a mailbox
    and a task that forwards it to the connection; publishing, forwarding and
    the frames of the connections are the steps of [hub_step], so they
    interleave freely.  The heartbeat, which only sends pings and a close,
    and the socket's own pings are left out. *)

From S2P Require Import Prelude JsNum JsText JsColl Contract.
From stdpp Require Import gmap.
#[local] Open Scope Z_scope.

(** ** Topics *)

Inductive Topic :=
| Orderbook (market : string)
| Trades (market : string)
| Oracle (market : string)
| Funding (market : string)
| UserFills (address : string)
| UserPositions (address : string).

#[export] Instance Topic_eq_dec : EqDecision Topic.
Proof. solve_decision. Defined.

Definition strip_prefix (p s : string) : option string :=
  if startsWith p s then Some (str_drop (String.length p) s) else None.

Definition Topic_parse (s : string) : option Topic :=
  match strip_prefix "orderbook." s with
  | Some rest => Some (Orderbook rest)
  | None =>
  match strip_prefix "trades." s with
  | Some rest => Some (Trades rest)
  | None =>
  match strip_prefix "oracle." s with
  | Some rest => Some (Oracle rest)
  | None =>
  match strip_prefix "funding." s with
  | Some rest => Some (Funding rest)
  | None =>
      if String.eqb s "user.fills" then Some (UserFills "")
      else if String.eqb s "user.positions" then Some (UserPositions "")
      else None
  end end end end.

Definition requires_auth (t : Topic) : bool :=
  match t with UserFills _ | UserPositions _ => true | _ => false end.

Definition with_user (t : Topic) (address : string) : Topic :=
  let addr := toLowerCase address in
  match t with
  | UserFills _ => UserFills addr
  | UserPositions _ => UserPositions addr
  | other => other
  end.

(** ** The hub *)

Definition MAX_QUEUE : nat := 1000.

Definition Message : Type := Topic * string.

(** [hb_boxes]: the mailboxes whose forwarding task is alive. *)
Record Hub := mkHub {
  hb_subs : list (Topic * list Z);
  hb_next : Z;
  hb_boxes : gmap Z (list Message)
}.

Definition hub_new : Hub := mkHub [] 0 ∅.

Definition hub_subscribe (t : Topic) (h : Hub) : Z * Hub :=
  let id := hb_next h in
  (id, mkHub (jm_set t (default [] (jm_get t (hb_subs h)) ++ [id]) (hb_subs h)) (id + 1) (<[id := []]> (hb_boxes h))).

Definition hub_unsubscribe (t : Topic) (id : Z) (h : Hub) : Hub :=
  match jm_get t (hb_subs h) with
  | None => h
  | Some list =>
      let kept := List.filter (fun sid => negb (sid =? id)) list in
      let subs := match kept with [] => jm_delete t (hb_subs h) | _ => jm_set t kept (hb_subs h) end in
      mkHub subs (hb_next h) (hb_boxes h)
  end.

(** [try_send]: full and closed mailboxes are refused. *)
Definition try_send (msg : Message) (id : Z) (boxes : gmap Z (list Message)) : option (gmap Z (list Message)) :=
  match boxes !! id with
  | Some q => if (length q <? MAX_QUEUE)%nat then Some (<[id := q ++ [msg]]> boxes) else None
  | None => None
  end.

(** [retain] with [try_send]: the ids that stay and the mailboxes after. *)
Fixpoint fan_out (msg : Message) (ids : list Z) (boxes : gmap Z (list Message)) : list Z * gmap Z (list Message) :=
  match ids with
  | [] => ([], boxes)
  | id :: ids' =>
      match try_send msg id boxes with
      | Some boxes' => let '(kept, b) := fan_out msg ids' boxes' in (id :: kept, b)
      | None => fan_out msg ids' boxes
      end
  end.

Definition publish (msg : Message) (h : Hub) : nat * Hub :=
  match jm_get msg.1 (hb_subs h) with
  | None => (0%nat, h)
  | Some ids =>
      let '(kept, boxes) := fan_out msg ids (hb_boxes h) in
      (length kept, mkHub (jm_set msg.1 kept (hb_subs h)) (hb_next h) boxes)
  end.

Definition subscriber_count (t : Topic) (h : Hub) : nat := length (default [] (jm_get t (hb_subs h))).

(** ** Connections *)

Inductive ClientMsg :=
| CSub (channel : string)
| CUnsub (channel : string)
| CAuth (token : string)
| CPong
| CBad.                               (* not a client message *)

Inductive OutFrame :=
| OutMsg (m : Message)
| OutAuthOk
| OutError (message : string).

Record Conn := mkConn {
  cn_address : option string;
  cn_subs : list (Topic * Z);
  cn_out : list OutFrame;
  cn_open : bool
}.

Record Server := mkServer {
  sv_hub : Hub;
  sv_owner : gmap Z nat;              (* the connection a mailbox forwards to *)
  sv_conns : gmap nat Conn
}.

Definition server_new : Server := mkServer hub_new ∅ ∅.

Section Serve.
(** [verify_jwt]: the subject of a valid token. *)
Variable verify_jwt : string -> option string.

Definition send_out (f : OutFrame) (c : Conn) : Conn := mkConn (cn_address c) (cn_subs c) (cn_out c ++ [f]) (cn_open c).

Definition upd_conn (n : nat) (f : Conn -> Conn) (s : Server) : Server :=
  mkServer (sv_hub s) (sv_owner s) (alter f n (sv_conns s)).

(** [subscribe_topic]: the map entry of an earlier subscription is overwritten. *)
Definition subscribe_topic (n : nat) (t : Topic) (s : Server) : Server :=
  let '(id, h) := hub_subscribe t (sv_hub s) in
  mkServer h (<[id := n]> (sv_owner s))
    (alter (fun c => mkConn (cn_address c) (jm_set t id (cn_subs c)) (cn_out c) (cn_open c)) n (sv_conns s)).

Definition unsubscribe_topic (n : nat) (t : Topic) (c : Conn) (s : Server) : Server :=
  match jm_get t (cn_subs c) with
  | None => s
  | Some id =>
      mkServer (hub_unsubscribe t id (sv_hub s)) (sv_owner s)
        (<[n := mkConn (cn_address c) (jm_delete t (cn_subs c)) (cn_out c) (cn_open c)]> (sv_conns s))
  end.

(** The receiver loop on one text frame. *)
Definition handle_frame (n : nat) (c : Conn) (m : ClientMsg) (s : Server) : Server :=
  match m with
  | CSub channel =>
      match Topic_parse channel with
      | None => upd_conn n (send_out (OutError "unknown channel")) s
      | Some topic =>
          if requires_auth topic then
            match cn_address c with
            | Some a => subscribe_topic n (with_user topic a) s
            | None => upd_conn n (send_out (OutError "auth required")) s
            end
          else subscribe_topic n topic s
      end
  | CUnsub channel =>
      match Topic_parse channel with
      | None => s
      | Some topic =>
          let topic := if requires_auth topic then with_user topic (default "" (cn_address c)) else topic in
          unsubscribe_topic n topic c s
      end
  | CAuth token =>
      match verify_jwt token with
      | Some sub => upd_conn n (fun c => send_out OutAuthOk (mkConn (Some sub) (cn_subs c) (cn_out c) (cn_open c))) s
      | None => upd_conn n (send_out (OutError "invalid token")) s
      end
  | CPong => s
  | CBad => upd_conn n (send_out (OutError "bad json")) s
  end.

(** The end of a connection: every subscription in its map is dropped. *)
Definition disconnect (n : nat) (c : Conn) (s : Server) : Server :=
  mkServer (foldl (fun h ti => hub_unsubscribe ti.1 ti.2 h) (sv_hub s) (cn_subs c)) (sv_owner s)
    (<[n := mkConn (cn_address c) (cn_subs c) (cn_out c) false]> (sv_conns s)).

(** One message of a mailbox goes to its connection; on a closed connection the task ends. *)
Definition forward (id : Z) (s : Server) : Server :=
  match hb_boxes (sv_hub s) !! id, sv_owner s !! id with
  | Some (msg :: q), Some n =>
      match sv_conns s !! n with
      | Some c =>
          if cn_open c then
            mkServer (mkHub (hb_subs (sv_hub s)) (hb_next (sv_hub s)) (<[id := q]> (hb_boxes (sv_hub s)))) (sv_owner s)
              (<[n := send_out (OutMsg msg) c]> (sv_conns s))
          else mkServer (mkHub (hb_subs (sv_hub s)) (hb_next (sv_hub s)) (delete id (hb_boxes (sv_hub s)))) (sv_owner s) (sv_conns s)
      | None => s
      end
  | _, _ => s
  end.

Inductive HubEvent :=
| HConnect (n : nat)
| HFrame (n : nat) (m : ClientMsg)
| HPublish (t : Topic) (payload : string)
| HForward (id : Z)
| HDisconnect (n : nat).

Definition hub_step (s : Server) (e : HubEvent) : Server :=
  match e with
  | HConnect n =>
      match sv_conns s !! n with
      | Some _ => s
      | None => mkServer (sv_hub s) (sv_owner s) (<[n := mkConn None [] [] true]> (sv_conns s))
      end
  | HFrame n m =>
      match sv_conns s !! n with
      | Some c => if cn_open c then handle_frame n c m s else s
      | None => s
      end
  | HPublish t p => mkServer (publish (t, p) (sv_hub s)).2 (sv_owner s) (sv_conns s)
  | HForward id => forward id s
  | HDisconnect n =>
      match sv_conns s !! n with
      | Some c => if cn_open c then disconnect n c s else s
      | None => s
      end
  end.

Definition hub_run (s : Server) (es : list HubEvent) : Server := foldl hub_step s es.

End Serve.
