(* ===== verification/EdgeHubThms.v ===== *)
(** * The WebSocket hub: who gets what

    Private channels reach only connections that authenticated as their
    user; mailboxes are bounded; what the hub delivers on a connection is what
    the web client's frames ask for, once per subscription, so that a
    subscription the client repeats is delivered twice. *)

From S2P Require Import Prelude JsNum JsText JsColl Contract Browser WsClient WsClientFacts WsClientThms EdgeHub.
From stdpp Require Import gmap.
#[local] Open Scope Z_scope.

(** ** Subscriber lists *)

Definition subscribers (t : Topic) (h : Hub) : list Z := default [] (jm_get t (hb_subs h)).

Lemma subscribers_subscribe t t' h :
  subscribers t' (hub_subscribe t h).2 = if decide (t' = t) then subscribers t h ++ [hb_next h] else subscribers t' h.
Proof. unfold subscribers, hub_subscribe. cbn [snd hb_subs]. rewrite jm_get_set. by case_decide; subst. Qed.

Lemma subscribers_unsubscribe t t' id h :
  subscribers t' (hub_unsubscribe t id h)
    = if decide (t' = t) then List.filter (fun sid => negb (sid =? id)) (subscribers t h) else subscribers t' h.
Proof.
  unfold subscribers, hub_unsubscribe. destruct (jm_get t (hb_subs h)) as [l|] eqn:E.
  - cbn [hb_subs]. destruct (List.filter _ l) as [|x kept] eqn:Ef.
    + rewrite jm_get_delete. case_decide; subst; [|done]. simpl. by rewrite Ef.
    + rewrite jm_get_set. case_decide; subst; [|done]. simpl. by rewrite Ef.
  - case_decide; subst; [|done]. by rewrite E.
Qed.

Lemma hub_unsubscribe_rest t id h :
  hb_next (hub_unsubscribe t id h) = hb_next h /\ hb_boxes (hub_unsubscribe t id h) = hb_boxes h.
Proof. unfold hub_unsubscribe. by destruct (jm_get t (hb_subs h)). Qed.

(** ** Publishing *)

Definition box (id : Z) (h : Hub) : list Message := default [] (hb_boxes h !! id).

(** A mailbox that takes one more message. *)
Definition has_room (boxes : gmap Z (list Message)) (id : Z) : bool :=
  match boxes !! id with Some q => (length q <? MAX_QUEUE)%nat | None => false end.

Lemma fan_out_spec msg ids : forall boxes, NoDup ids ->
  let '(kept, boxes') := fan_out msg ids boxes in
  kept = List.filter (has_room boxes) ids
  /\ forall id, boxes' !! id = if decide (id ∈ ids) then
                                 (if has_room boxes id then (fun q => q ++ [msg]) <$> boxes !! id else boxes !! id)
                               else boxes !! id.
Proof.
  induction ids as [|i ids IH]; intros boxes Hnd; cbn [fan_out].
  - split; [done|]. intros id. by rewrite decide_False by set_solver.
  - apply NoDup_cons in Hnd as [Hni Hnd].
    assert (Htry : try_send msg i boxes = if has_room boxes i then (fun q => <[i := q ++ [msg]]> boxes) <$> boxes !! i else None).
    { unfold try_send, has_room. destruct (boxes !! i); [|done]. by case_match. }
    rewrite Htry. cbn [List.filter]. destruct (has_room boxes i) eqn:Hr.
    + unfold has_room in Hr. destruct (boxes !! i) as [q|] eqn:Ei; [|done]. cbn [fmap option_fmap option_map].
      specialize (IH (<[i := q ++ [msg]]> boxes) Hnd). destruct (fan_out msg ids _) as [kept b]. destruct IH as [Hk Hb].
      assert (Hroom : forall j, j ∈ ids -> has_room (<[i := q ++ [msg]]> boxes) j = has_room boxes j).
      { intros j Hj. unfold has_room. rewrite lookup_insert_ne; [done|]. by intros ->. }
      split.
      * rewrite Hk. f_equal. clear -Hroom. induction ids as [|j ids IH]; [done|]. cbn [List.filter].
        rewrite Hroom by (by left). rewrite IH; [done|]. intros k Hk. apply Hroom. by right.
      * intros id. rewrite Hb. destruct (decide (id = i)) as [->|Hne].
        -- rewrite decide_False by done. rewrite decide_True by (by left). rewrite fin_maps.lookup_insert_eq.
           unfold has_room. by rewrite Ei, Hr.
        -- destruct (decide (id ∈ ids)) as [Hin|Hin].
           ++ rewrite (decide_True (P := id ∈ i :: ids)) by (by right). rewrite Hroom by done. by rewrite lookup_insert_ne.
           ++ rewrite (decide_False (P := id ∈ i :: ids)) by (rewrite elem_of_cons; naive_solver). by rewrite lookup_insert_ne.
    + specialize (IH boxes Hnd). destruct (fan_out msg ids boxes) as [kept b]. destruct IH as [Hk Hb]. split; [done|].
      intros id. rewrite Hb. destruct (decide (id = i)) as [->|Hne].
      * rewrite decide_False by done. rewrite decide_True by (by left). by rewrite Hr.
      * destruct (decide (id ∈ ids)) as [Hin|Hin].
        -- by rewrite (decide_True (P := id ∈ i :: ids)) by (by right).
        -- by rewrite (decide_False (P := id ∈ i :: ids)) by (rewrite elem_of_cons; naive_solver).
Qed.

(** ** Private channels *)

Section Private.
Variable verify_jwt : string -> option string.

Definition topic_user (t : Topic) : option string :=
  match t with UserFills a | UserPositions a => Some a | _ => None end.

(** Connection [n] authenticated as [a] in the run. *)
Definition authed (es : list HubEvent) (n : nat) (a : string) : Prop :=
  exists token sub, HFrame n (CAuth token) ∈ es /\ verify_jwt token = Some sub /\ toLowerCase sub = a.

Definition may (es : list HubEvent) (n : nat) (t : Topic) : Prop := forall a, topic_user t = Some a -> authed es n a.

Record Guarded (es : list HubEvent) (s : Server) : Prop := {
  g_address : forall n c sub, sv_conns s !! n = Some c -> cn_address c = Some sub ->
    exists token, HFrame n (CAuth token) ∈ es /\ verify_jwt token = Some sub;
  g_owner : forall id n, sv_owner s !! id = Some n -> id < hb_next (sv_hub s);
  g_subs : forall t id, id ∈ subscribers t (sv_hub s) -> exists n, sv_owner s !! id = Some n /\ may es n t;
  g_boxes : forall id m, m ∈ box id (sv_hub s) -> exists n, sv_owner s !! id = Some n /\ may es n m.1;
  g_out : forall n c m, sv_conns s !! n = Some c -> OutMsg m ∈ cn_out c -> may es n m.1
}.

Lemma authed_mono es e n a : authed es n a -> authed (es ++ [e]) n a.
Proof. intros (token & sub & Hin & H). exists token, sub. split; [apply elem_of_app; by left|done]. Qed.

Lemma may_mono es e n t : may es n t -> may (es ++ [e]) n t.
Proof. intros H a Ha. by apply authed_mono, H. Qed.

Lemma Guarded_mono es e s : Guarded es s -> Guarded (es ++ [e]) s.
Proof.
  intros [Ha Ho Hs Hb Hout]. split; [| done | | |].
  - intros n c sub Hc Hsub. destruct (Ha n c sub Hc Hsub) as (tk & Hin & Hv). exists tk. split; [apply elem_of_app; by left|done].
  - intros t id Hid. destruct (Hs t id Hid) as (n & Hn & Hm). exists n. auto using may_mono.
  - intros id m Hm. destruct (Hb id m Hm) as (n & Hn & Hy). exists n. auto using may_mono.
  - intros n c m Hc Hm. eapply may_mono, Hout; eauto.
Qed.

(** Changing a connection without touching its address or its messages. *)
Lemma Guarded_upd es s n f :
  Guarded es s ->
  (forall c sub, sv_conns s !! n = Some c -> cn_address (f c) = Some sub ->
     exists token, HFrame n (CAuth token) ∈ es /\ verify_jwt token = Some sub) ->
  (forall c m, OutMsg m ∈ cn_out (f c) -> OutMsg m ∈ cn_out c) ->
  Guarded es (upd_conn n f s).
Proof.
  intros [Ha Ho Hs Hb Hout] Hf Hm. split; cbn [upd_conn sv_hub sv_owner sv_conns]; auto.
  - intros k c sub. destruct (decide (n = k)) as [<-|Hne]; [|rewrite lookup_alter_ne by done; apply Ha].
    rewrite lookup_alter_eq. destruct (sv_conns s !! n) as [c0|] eqn:E; [|done]. intros [= <-]. by apply Hf.
  - intros k c m. destruct (decide (n = k)) as [<-|Hne]; [|rewrite lookup_alter_ne by done; apply Hout].
    rewrite lookup_alter_eq. destruct (sv_conns s !! n) as [c0|] eqn:E; [|done]. intros [= <-] Hin.
    eapply Hout; [exact E|]. by eapply Hm.
Qed.

Lemma Guarded_subscribe es s n t : Guarded es s -> may es n t -> Guarded es (subscribe_topic n t s).
Proof.
  intros [Ha Ho Hs Hb Hout] Ht. unfold subscribe_topic.
  destruct (hub_subscribe t (sv_hub s)) as [id h] eqn:E. assert (Hid : id = hb_next (sv_hub s)) by (by injection E).
  assert (Hh : h = (hub_subscribe t (sv_hub s)).2) by (by rewrite E). clear E.
  assert (Hnew : sv_owner s !! id = None).
  { destruct (sv_owner s !! id) as [k|] eqn:Ek; [|done]. apply Ho in Ek. lia. }
  assert (Hkeep : forall i k, sv_owner s !! i = Some k -> <[id := n]> (sv_owner s) !! i = Some k).
  { intros i k Hi. rewrite lookup_insert_ne; [done|]. intros <-. by rewrite Hnew in Hi. }
  split; cbn [sv_hub sv_owner sv_conns].
  - intros k c sub. destruct (decide (n = k)) as [<-|Hne]; [|rewrite lookup_alter_ne by done; apply Ha].
    rewrite lookup_alter_eq. destruct (sv_conns s !! n) as [c0|] eqn:Ec; [|done]. intros [= <-] Hsub. exact (Ha _ _ _ Ec Hsub).
  - intros i k Hi. rewrite Hh. cbn [hub_subscribe snd hb_next]. apply lookup_insert_Some in Hi as [[<- _]|[_ Hi]]; [lia|].
    apply Ho in Hi. lia.
  - intros t' i. rewrite Hh, subscribers_subscribe. intros Hi.
    assert (Hor : i ∈ subscribers t' (sv_hub s) \/ (i = id /\ t' = t)).
    { case_decide; subst; [|by left]. rewrite elem_of_app, list_elem_of_singleton in Hi. naive_solver. }
    destruct Hor as [Hi'|[-> ->]]; [|exists n; by rewrite fin_maps.lookup_insert_eq].
    destruct (Hs t' i Hi') as (k & Hk & Hm). exists k. auto.
  - intros i m. rewrite Hh. unfold box. cbn [hub_subscribe snd hb_boxes]. intros Hm.
    destruct (decide (hb_next (sv_hub s) = i)) as [<-|Hne].
    + rewrite fin_maps.lookup_insert_eq in Hm. by apply elem_of_nil in Hm.
    + rewrite lookup_insert_ne in Hm by done. destruct (Hb i m Hm) as (k & Hk & Hy). exists k. auto.
  - intros k c m. destruct (decide (n = k)) as [<-|Hne]; [|rewrite lookup_alter_ne by done; apply Hout].
    rewrite lookup_alter_eq. destruct (sv_conns s !! n) as [c0|] eqn:Ec; [|done]. intros [= <-] Hin. exact (Hout _ _ _ Ec Hin).
Qed.

(** Hubs with fewer subscribers and the same mailboxes. *)
Lemma Guarded_fewer es s h conns :
  Guarded es s -> hb_next h = hb_next (sv_hub s) -> (forall id m, m ∈ box id h -> m ∈ box id (sv_hub s)) ->
  (forall t id, id ∈ subscribers t h -> id ∈ subscribers t (sv_hub s)) ->
  (forall n c, conns !! n = Some c -> exists c0, sv_conns s !! n = Some c0 /\ cn_address c = cn_address c0 /\ cn_out c = cn_out c0) ->
  Guarded es (mkServer h (sv_owner s) conns).
Proof.
  intros [Ha Ho Hs Hb Hout] Hn Hbx Hsub Hc. split; cbn [sv_hub sv_owner sv_conns].
  - intros n c sub Hl. destruct (Hc n c Hl) as (c0 & H0 & -> & _). by apply Ha.
  - intros id n Hi. rewrite Hn. by eapply Ho.
  - intros t id Hi. by apply Hs, Hsub.
  - intros id m Hm. by apply Hb, Hbx.
  - intros n c m Hl Hm. destruct (Hc n c Hl) as (c0 & H0 & _ & Ho0). rewrite Ho0 in Hm. by eapply Hout.
Qed.

Lemma elem_of_filter_list {A} (p : A -> bool) x l : x ∈ List.filter p l -> x ∈ l.
Proof. intros Hx. apply list_elem_of_In, filter_In in Hx as [Hx _]. by apply list_elem_of_In. Qed.

Lemma unsubscribe_sub t t' id i h : i ∈ subscribers t' (hub_unsubscribe t id h) -> i ∈ subscribers t' h.
Proof. rewrite subscribers_unsubscribe. case_decide; subst; [apply elem_of_filter_list|done]. Qed.

Lemma disconnect_fold (l : list (Topic * Z)) : forall h,
  let h' := foldl (fun h ti => hub_unsubscribe ti.1 ti.2 h) h l in
  hb_next h' = hb_next h /\ hb_boxes h' = hb_boxes h /\ forall t i, i ∈ subscribers t h' -> i ∈ subscribers t h.
Proof.
  induction l as [|[t id] l IH]; intros h; [done|]. cbn [foldl fst snd].
  destruct (IH (hub_unsubscribe t id h)) as (Hn & Hb & Hs). destruct (hub_unsubscribe_rest t id h) as [Hn0 Hb0].
  split_and!; [congruence|congruence|]. intros t' i Hi. eapply unsubscribe_sub, Hs, Hi.
Qed.

Lemma fan_out_sub msg ids : forall boxes,
  let '(kept, boxes') := fan_out msg ids boxes in
  (forall i, i ∈ kept -> i ∈ ids)
  /\ forall i m, m ∈ default [] (boxes' !! i) -> m ∈ default [] (boxes !! i) \/ (m = msg /\ i ∈ ids).
Proof.
  induction ids as [|i ids IH]; intros boxes; cbn [fan_out]; [split; [done|by left]|].
  assert (Hskip : let '(kept, boxes') := fan_out msg ids boxes in
    (forall j, j ∈ kept -> j ∈ i :: ids)
    /\ forall j m, m ∈ default [] (boxes' !! j) -> m ∈ default [] (boxes !! j) \/ (m = msg /\ j ∈ i :: ids)).
  { specialize (IH boxes). destruct (fan_out msg ids boxes) as [kept b]. destruct IH as [Hk Hb].
    split; [intros j Hj; right; by apply Hk|].
    intros j m Hm. destruct (Hb j m Hm) as [Hj|[-> Hj]]; [by left|right; split; [done|by right]]. }
  unfold try_send. destruct (boxes !! i) as [q|] eqn:Ei; [|exact Hskip]. destruct (length q <? MAX_QUEUE)%nat; [|exact Hskip].
  specialize (IH (<[i := q ++ [msg]]> boxes)). destruct (fan_out msg ids _) as [kept b]. destruct IH as [Hk Hb].
  split; [intros j Hj; apply elem_of_cons in Hj as [->|Hj]; [by left|right; by apply Hk]|].
  intros j m Hm. destruct (Hb j m Hm) as [Hj|[-> Hj]]; [|right; split; [done|by right]].
  destruct (decide (i = j)) as [<-|Hne]; [|rewrite lookup_insert_ne in Hj by done; by left].
  rewrite fin_maps.lookup_insert_eq in Hj. cbn [default] in Hj. unfold Datatypes.id in Hj. rewrite Ei.
  apply elem_of_app in Hj as [Hj|Hj]; [by left|]. apply list_elem_of_singleton in Hj. right. split; [done|by left].
Qed.

Lemma Guarded_publish es s t p :
  Guarded es s -> Guarded es (mkServer (publish (t, p) (sv_hub s)).2 (sv_owner s) (sv_conns s)).
Proof.
  intros [Ha Ho Hs Hb Hout]. unfold publish. cbn [fst]. destruct (jm_get t (hb_subs (sv_hub s))) as [ids|] eqn:Et; [|by split].
  pose proof (fan_out_sub (t, p) ids (hb_boxes (sv_hub s))) as Hf. destruct (fan_out _ _ _) as [kept boxes].
  destruct Hf as [Hk Hbx]. assert (Hids : subscribers t (sv_hub s) = ids) by (unfold subscribers; by rewrite Et).
  split; cbn [sv_hub sv_owner sv_conns snd hb_next]; auto.
  - intros t' id. unfold subscribers. cbn [hb_subs]. rewrite jm_get_set. case_decide; subst; [|apply Hs].
    intros Hi. apply Hs. by apply Hk.
  - intros id m. unfold box. cbn [hb_boxes]. intros Hm. destruct (Hbx id m Hm) as [Hold|[-> Hi]]; [by apply Hb|].
    apply (Hs t). by rewrite Hids.
Qed.

Lemma Guarded_forward es s id : Guarded es s -> Guarded es (forward id s).
Proof.
  intros HG. pose proof HG as [Ha Ho Hs Hb Hout]. unfold forward.
  destruct (hb_boxes (sv_hub s) !! id) as [[|msg q]|] eqn:Eb; try exact HG.
  destruct (sv_owner s !! id) as [n|] eqn:En; [|exact HG]. destruct (sv_conns s !! n) as [c|] eqn:Ec; [|exact HG].
  assert (Hbox : forall i m q', (i = id -> m ∈ q' -> m ∈ msg :: q) -> m ∈ default [] (<[id := q']> (hb_boxes (sv_hub s)) !! i) ->
            m ∈ box i (sv_hub s)).
  { intros i m q' Hq. unfold box. destruct (decide (id = i)) as [<-|Hne]; [|by rewrite lookup_insert_ne].
    rewrite fin_maps.lookup_insert_eq, Eb. cbn. by apply Hq. }
  assert (Hmay : may es n msg.1).
  { destruct (Hb id msg) as (k & Hk & Hm); [unfold box; rewrite Eb; by left|]. rewrite En in Hk. by injection Hk as <-. }
  destruct (cn_open c).
  - split; cbn [sv_hub sv_owner sv_conns hb_next]; auto.
    + intros k c' sub Hl. apply lookup_insert_Some in Hl as [[<- <-]|[_ Hl]]; [|by apply Ha].
      intros Hsub. exact (Ha _ _ _ Ec Hsub).
    + intros i m Hm. apply Hb. eapply Hbox; [|exact Hm]. intros _ Hq. by right.
    + intros k c' m Hl. apply lookup_insert_Some in Hl as [[<- <-]|[_ Hl]]; [|by apply Hout].
      cbn [send_out cn_out]. rewrite elem_of_app, list_elem_of_singleton. intros [Hm|[= ->]]; [exact (Hout _ _ _ Ec Hm)|done].
  - apply (Guarded_fewer es s); try done; [|intros k c' Hl; by exists c'].
    intros i m. unfold box. cbn [hb_boxes]. destruct (decide (id = i)) as [<-|Hne].
    + rewrite lookup_delete_eq. cbn. by rewrite elem_of_nil.
    + by rewrite lookup_delete_ne.
Qed.

Lemma Guarded_frame es s n c m :
  Guarded es s -> sv_conns s !! n = Some c -> Guarded (es ++ [HFrame n m]) (handle_frame verify_jwt n c m s).
Proof.
  intros HG Hc. pose proof (Guarded_mono es (HFrame n m) s HG) as HG'. set (es' := es ++ [HFrame n m]) in *.
  pose proof (g_address _ _ HG') as Ha.
  assert (Herr : forall e, Guarded es' (upd_conn n (send_out (OutError e)) s)).
  { intros e. apply Guarded_upd; [done| |].
    - intros c0 sub H0 Hsub. exact (Ha _ _ _ H0 Hsub).
    - intros c0 m0. cbn [send_out cn_out]. rewrite elem_of_app, list_elem_of_singleton. naive_solver. }
  assert (Hpub : forall t, requires_auth t = false -> may es' n t) by (intros [] Hr a Hu; done).
  assert (Huser : forall t a, cn_address c = Some a -> may es' n (with_user t a)).
  { intros t a Hca x Hx. destruct (Ha n c a Hc Hca) as (tk & Hin & Hv). exists tk, a. split_and!; try done.
    destruct t; cbn in Hx; congruence. }
  destruct m as [ch|ch|tk| |]; cbn [handle_frame].
  - destruct (Topic_parse ch) as [t|]; [|apply Herr]. destruct (requires_auth t) eqn:Er.
    + destruct (cn_address c) as [a|] eqn:Eca; [|apply Herr]. apply Guarded_subscribe; [done|]. by apply Huser.
    + apply Guarded_subscribe; [done|]. by apply Hpub.
  - destruct (Topic_parse ch) as [t|]; [|done]. set (t' := if requires_auth t then _ else t). unfold unsubscribe_topic.
    destruct (jm_get t' (cn_subs c)) as [id|]; [|done]. destruct (hub_unsubscribe_rest t' id (sv_hub s)) as [Hn Hbx].
    apply Guarded_fewer; [done|done|unfold box; by rewrite Hbx|intros; by eapply unsubscribe_sub|].
    intros k c' Hl. apply lookup_insert_Some in Hl as [[<- <-]|[_ Hl]]; [by exists c|by exists c'].
  - destruct (verify_jwt tk) as [sub|] eqn:Ev; [|apply Herr]. apply Guarded_upd; [done| |].
    + intros c0 sub' H0 [= <-]. exists tk. split; [apply elem_of_app; right; by left|done].
    + intros c0 m0. cbn [send_out cn_out]. rewrite elem_of_app, list_elem_of_singleton. naive_solver.
  - done.
  - apply Herr.
Qed.

Lemma hub_step_guarded es s e : Guarded es s -> Guarded (es ++ [e]) (hub_step verify_jwt s e).
Proof.
  intros HG. pose proof (Guarded_mono es e s HG) as HG'. destruct e as [n|n m|t p|id|n]; cbn [hub_step].
  - destruct (sv_conns s !! n) as [c|] eqn:Ec; [done|]. destruct HG' as [Ha Ho Hs Hb Hout].
    split; cbn [sv_hub sv_owner sv_conns]; auto.
    + intros k c sub Hl. apply lookup_insert_Some in Hl as [[<- <-]|[_ Hl]]; [done|by apply Ha].
    + intros k c m Hl. apply lookup_insert_Some in Hl as [[<- <-]|[_ Hl]]; [cbn; by rewrite elem_of_nil|by apply Hout].
  - destruct (sv_conns s !! n) as [c|] eqn:Ec; [|done]. destruct (cn_open c); [|done]. by apply Guarded_frame.
  - by apply Guarded_publish.
  - by apply Guarded_forward.
  - destruct (sv_conns s !! n) as [c|] eqn:Ec; [|done]. destruct (cn_open c); [|done]. unfold disconnect.
    destruct (disconnect_fold (cn_subs c) (sv_hub s)) as (Hn & Hbx & Hs).
    apply Guarded_fewer; [done|done|unfold box; by rewrite Hbx|done|].
    intros k c' Hl. apply lookup_insert_Some in Hl as [[<- <-]|[_ Hl]]; [by exists c|by exists c'].
Qed.

Lemma hub_run_guarded es : Guarded es (hub_run verify_jwt server_new es).
Proof.
  induction es as [|e es IH] using rev_ind.
  - split; cbn; try (intros *; by rewrite lookup_empty); [intros *; by rewrite elem_of_nil|].
    intros id m. unfold box. cbn. rewrite lookup_empty. cbn. by rewrite elem_of_nil.
  - unfold hub_run. rewrite foldl_app. by apply hub_step_guarded.
Qed.

(** C12: Private channels are private: in every interleaving of connections,
    frames, publications and forwarding, a message of a user's fills or
    positions is only ever sent on a connection that presented a valid token
    of that user. *)
Theorem edge_private_channels es n c m a :
  sv_conns (hub_run verify_jwt server_new es) !! n = Some c -> OutMsg m ∈ cn_out c -> topic_user m.1 = Some a ->
  exists token sub, HFrame n (CAuth token) ∈ es /\ verify_jwt token = Some sub /\ toLowerCase sub = a.
Proof. intros Hc Hm Ha. exact (g_out _ _ (hub_run_guarded es) n c m Hc Hm a Ha). Qed.

End Private.

(** ** Bounds *)

Definition bounded (h : Hub) : Prop := forall id, (length (box id h) <= MAX_QUEUE)%nat.

Lemma fan_out_bounded msg ids : forall boxes,
  (forall id, length (default [] (boxes !! id)) <= MAX_QUEUE)%nat ->
  forall id, (length (default [] ((fan_out msg ids boxes).2 !! id)) <= MAX_QUEUE)%nat.
Proof.
  induction ids as [|i ids IH]; intros boxes Hb id; [apply Hb|]. cbn [fan_out]. unfold try_send.
  destruct (boxes !! i) as [q|] eqn:Ei; [|by apply IH]. destruct (Nat.ltb_spec (length q) MAX_QUEUE) as [Hlt|_]; [|by apply IH].
  assert (Hb' : forall j, (length (default [] (<[i := q ++ [msg]]> boxes !! j)) <= MAX_QUEUE)%nat).
  { intros j. destruct (decide (i = j)) as [<-|Hne]; [|by rewrite lookup_insert_ne].
    rewrite fin_maps.lookup_insert_eq. cbn [default]. unfold Datatypes.id. rewrite length_app. cbn [length]. lia. }
  specialize (IH _ Hb' id). by destruct (fan_out msg ids _).
Qed.

Lemma bounded_boxes h h' : hb_boxes h' = hb_boxes h -> bounded h -> bounded h'.
Proof. intros He Hb id. unfold box. rewrite He. apply Hb. Qed.

Lemma hub_step_bounded verify s e : bounded (sv_hub s) -> bounded (sv_hub (hub_step verify s e)).
Proof.
  intros Hb. destruct e as [n|n m|t p|id|n]; cbn [hub_step].
  - by destruct (sv_conns s !! n).
  - destruct (sv_conns s !! n) as [c|]; [|done]. destruct (cn_open c); [|done].
    assert (Hsub : forall t, bounded (sv_hub (subscribe_topic n t s))).
    { intros t id. unfold subscribe_topic, hub_subscribe, box. cbn [sv_hub hb_boxes].
      destruct (decide (hb_next (sv_hub s) = id)) as [<-|Hne]; [rewrite fin_maps.lookup_insert_eq; cbn; lia|].
      rewrite lookup_insert_ne by done. apply Hb. }
    destruct m as [ch|ch|tk| |]; cbn [handle_frame].
    + destruct (Topic_parse ch) as [t|]; [|done]. destruct (requires_auth t); [destruct (cn_address c)|]; done || apply Hsub.
    + destruct (Topic_parse ch) as [t|]; [|done]. cbv zeta. unfold unsubscribe_topic. destruct (jm_get _ (cn_subs c)); [|done].
      eapply bounded_boxes; [apply hub_unsubscribe_rest|exact Hb].
    + by destruct (verify tk).
    + done.
    + done.
  - unfold publish. cbn [sv_hub fst]. destruct (jm_get t (hb_subs (sv_hub s))) as [ids|]; [|done].
    pose proof (fan_out_bounded (t, p) ids (hb_boxes (sv_hub s)) Hb) as Hf. by destruct (fan_out _ _ _).
  - unfold forward. destruct (hb_boxes (sv_hub s) !! id) as [[|msg q]|] eqn:Eb; try done.
    destruct (sv_owner s !! id) as [n|]; [|done]. destruct (sv_conns s !! n) as [c|]; [|done].
    destruct (cn_open c); intros i; unfold box; cbn [sv_hub hb_boxes].
    + destruct (decide (id = i)) as [<-|Hne]; [|rewrite lookup_insert_ne by done; apply Hb].
      rewrite fin_maps.lookup_insert_eq. specialize (Hb id). unfold box in Hb. rewrite Eb in Hb. cbn in *. lia.
    + destruct (decide (id = i)) as [<-|Hne]; [rewrite lookup_delete_eq; cbn; lia|rewrite lookup_delete_ne by done; apply Hb].
  - destruct (sv_conns s !! n) as [c|]; [|done]. destruct (cn_open c); [|done].
    eapply bounded_boxes; [apply disconnect_fold|exact Hb].
Qed.

(** No mailbox ever holds more than [MAX_QUEUE] messages. *)
Theorem edge_mailboxes_bounded verify es id :
  (length (box id (sv_hub (hub_run verify server_new es))) <= MAX_QUEUE)%nat.
Proof.
  revert id. change (bounded (sv_hub (hub_run verify server_new es))). induction es as [|e es IH] using rev_ind.
  - intros id. unfold box. cbn. rewrite lookup_empty. cbn. lia.
  - unfold hub_run. rewrite foldl_app. by apply hub_step_bounded.
Qed.

(** A subscriber whose mailbox is full is dropped from the hub, and its
    connection stays as it is: open, with the subscription in its map.  The
    next messages of the topic do not reach it, and nothing tells the client. *)
Theorem edge_slow_subscriber_silenced s n c t id p q verify :
  sv_conns s !! n = Some c -> jm_get t (cn_subs c) = Some id ->
  subscribers t (sv_hub s) = [id] -> hb_boxes (sv_hub s) !! id = Some q -> length q = MAX_QUEUE ->
  let s' := hub_step verify s (HPublish t p) in
  subscribers t (sv_hub s') = [] /\ sv_conns s' !! n = Some c /\ box id (sv_hub s') = q.
Proof.
  intros Hc Hsub Hs Hq Hl. cbn [hub_step]. unfold publish. cbn [fst].
  unfold subscribers in Hs. destruct (jm_get t (hb_subs (sv_hub s))) as [ids|] eqn:Et; [|done]. cbn in Hs. subst ids.
  cbn [fan_out]. unfold try_send. rewrite Hq, Hl, Nat.ltb_irrefl. cbn [sv_hub sv_conns snd].
  unfold subscribers, box. cbn [hb_subs hb_boxes]. rewrite jm_get_set, decide_True, Hq by done. done.
Qed.

(** ** The view of a connection *)

Lemma startsWith_app p s : startsWith p s = true -> s = p +:+ str_drop (String.length p) s.
Proof.
  revert s. induction p as [|c p IH]; intros s; [done|]. destruct s as [|d s]; [done|]. cbn [startsWith]. intros Hs. bool_to_prop.
  match goal with H : Ascii.eqb _ _ = true |- _ => apply Ascii.eqb_eq in H; subst end.
  change (String d p +:+ str_drop (String.length (String d p)) (String d s))
    with (String d (p +:+ str_drop (String.length p) s)). by rewrite <- IH.
Qed.

Lemma strip_prefix_Some p s r : EdgeHub.strip_prefix p s = Some r -> s = p +:+ r.
Proof. unfold EdgeHub.strip_prefix. destruct (startsWith p s) eqn:E; [|done]. intros [= <-]. by apply startsWith_app. Qed.

(** The channel a public topic is spelled as. *)
Definition channel_of (t : Topic) : string :=
  match t with
  | Orderbook m => "orderbook." +:+ m
  | Trades m => "trades." +:+ m
  | Oracle m => "oracle." +:+ m
  | Funding m => "funding." +:+ m
  | UserFills _ => "user.fills"
  | UserPositions _ => "user.positions"
  end.

Lemma Topic_parse_channel ch t : Topic_parse ch = Some t -> ch = channel_of t.
Proof.
  unfold Topic_parse.
  destruct (EdgeHub.strip_prefix "orderbook." ch) eqn:E1; [intros [= <-]; by apply strip_prefix_Some|].
  destruct (EdgeHub.strip_prefix "trades." ch) eqn:E2; [intros [= <-]; by apply strip_prefix_Some|].
  destruct (EdgeHub.strip_prefix "oracle." ch) eqn:E3; [intros [= <-]; by apply strip_prefix_Some|].
  destruct (EdgeHub.strip_prefix "funding." ch) eqn:E4; [intros [= <-]; by apply strip_prefix_Some|].
  destruct (String.eqb_spec ch "user.fills"); [by intros [= <-]|].
  destruct (String.eqb_spec ch "user.positions"); [by intros [= <-]|done].
Qed.

Lemma Topic_parse_of t : requires_auth t = false -> Topic_parse (channel_of t) = Some t.
Proof. by destruct t. Qed.

Lemma Topic_parse_iff ch t : requires_auth t = false -> Topic_parse ch = Some t <-> ch = channel_of t.
Proof. intros Hr. split; [apply Topic_parse_channel|]. intros ->. by apply Topic_parse_of. Qed.

Lemma with_user_auth t a : requires_auth (with_user t a) = requires_auth t.
Proof. by destruct t. Qed.

Definition frame_of (f : WsOutbound) : ClientMsg :=
  match f with
  | WsSubscribe ch => CSub ch
  | WsUnsubscribe ch => CUnsub ch
  | WsAuth token => CAuth token
  | WsPong => CPong
  end.

(** The frames of connection [n] in a run. *)
Definition frames_on (n : nat) (es : list HubEvent) : list ClientMsg :=
  omap (fun e => match e with HFrame k m => if decide (k = n) then Some m else None | _ => None end) es.

Definition keeps_open (n : nat) (e : HubEvent) : bool := match e with HDisconnect k => negb (k =? n)%nat | _ => true end.

(** *** Subscribers of a connection *)

(** The subscribers of [t] whose mailbox is forwarded to connection [n]. *)
Definition owned (n : nat) (s : Server) (id : Z) : bool := bool_decide (sv_owner s !! id = Some n).
Definition own (n : nat) (t : Topic) (s : Server) : list Z := List.filter (owned n s) (subscribers t (sv_hub s)).

Record HubOk (s : Server) : Prop := {
  ho_subs : forall t id, id ∈ subscribers t (sv_hub s) -> id < hb_next (sv_hub s);
  ho_owner : forall id k, sv_owner s !! id = Some k -> id < hb_next (sv_hub s);
  ho_nodup : forall t, NoDup (subscribers t (sv_hub s));
  ho_map : forall k c t id, sv_conns s !! k = Some c -> (t, id) ∈ cn_subs c -> sv_owner s !! id = Some k;
  ho_conn : forall id k, sv_owner s !! id = Some k -> is_Some (sv_conns s !! k)
}.

Lemma elem_of_jm_set {K V} `{EqDecision K} (k : K) (v : V) m x : x ∈ jm_set k v m -> x = (k, v) \/ x ∈ m.
Proof.
  induction m as [|[k1 v1] m IH]; simpl; [set_solver|]. case_decide; rewrite !elem_of_cons; naive_solver.
Qed.

Lemma jm_get_in {K V} `{EqDecision K} (k : K) (v : V) m : jm_get k m = Some v -> (k, v) ∈ m.
Proof.
  induction m as [|[k1 v1] m IH]; simpl; [done|]. case_decide; rewrite elem_of_cons; naive_solver.
Qed.

Lemma NoDup_filter_list {A} (f : A -> bool) l : NoDup l -> NoDup (List.filter f l).
Proof. rewrite !NoDup_ListNoDup. apply List.NoDup_filter. Qed.

Lemma filter_swap {A} (f g : A -> bool) l : List.filter f (List.filter g l) = List.filter g (List.filter f l).
Proof.
  induction l as [|x l IH]; simpl; [done|].
  destruct (g x) eqn:Eg, (f x) eqn:Ef; simpl; rewrite ?Eg, ?Ef, ?IH; done.
Qed.

Lemma elem_of_own n t s id : id ∈ own n t s <-> id ∈ subscribers t (sv_hub s) /\ sv_owner s !! id = Some n.
Proof.
  unfold own, owned. rewrite list_elem_of_In, filter_In, <- list_elem_of_In, bool_decide_eq_true. done.
Qed.

Lemma own_ext n t s s' :
  subscribers t (sv_hub s') = subscribers t (sv_hub s) ->
  (forall id, id ∈ subscribers t (sv_hub s) -> sv_owner s' !! id = sv_owner s !! id) -> own n t s' = own n t s.
Proof.
  intros Hs Ho. unfold own. rewrite Hs. apply filter_ext_in. intros id Hid. unfold owned.
  by rewrite (Ho id (proj2 (list_elem_of_In _ _) Hid)).
Qed.

(** Any connection subscribes. *)
Lemma own_subscribe n k t t' s : HubOk s ->
  own n t' (subscribe_topic k t s) =
    if decide (t' = t) then own n t s ++ (if decide (k = n) then [hb_next (sv_hub s)] else []) else own n t' s.
Proof.
  intros [Hlt _ _ _ _]. unfold own.
  change (sv_hub (subscribe_topic k t s)) with ((hub_subscribe t (sv_hub s)).2). rewrite subscribers_subscribe.
  assert (Hold : forall t0, List.filter (owned n (subscribe_topic k t s)) (subscribers t0 (sv_hub s)) =
                            List.filter (owned n s) (subscribers t0 (sv_hub s))).
  { intros t0. apply filter_ext_in. intros id Hid. apply list_elem_of_In, Hlt in Hid. unfold owned.
    cbn [subscribe_topic hub_subscribe sv_owner]. by rewrite lookup_insert_ne by lia. }
  case_decide; [|apply Hold]. rewrite List.filter_app, Hold. f_equal. cbn [List.filter]. unfold owned.
  cbn [subscribe_topic hub_subscribe sv_owner]. rewrite fin_maps.lookup_insert_eq.
  case_decide as Hk; [subst; by rewrite bool_decide_true|]. rewrite bool_decide_false; [done|]. congruence.
Qed.

(** A subscriber is removed. *)
Lemma own_unsubscribe n t t' id s conns :
  own n t' (mkServer (hub_unsubscribe t id (sv_hub s)) (sv_owner s) conns) =
    if decide (t' = t) then List.filter (fun sid => negb (sid =? id)) (own n t s) else own n t' s.
Proof.
  unfold own. cbn [sv_hub]. rewrite subscribers_unsubscribe. case_decide; [|done]. subst. by rewrite filter_swap.
Qed.

Lemma own_unsubscribe_other n k t t' id s conns :
  sv_owner s !! id = Some k -> k <> n ->
  own n t' (mkServer (hub_unsubscribe t id (sv_hub s)) (sv_owner s) conns) = own n t' s.
Proof.
  intros Ho Hk. rewrite own_unsubscribe. case_decide; [subst|done]. apply filter_all. intros x Hx.
  apply elem_of_own in Hx as [_ Hx]. apply negb_true_iff, Z.eqb_neq. congruence.
Qed.

(** The last subscription of a connection is removed from its own. *)
Lemma own_unsubscribe_length n t id s conns : HubOk s -> id ∈ own n t s ->
  length (own n t s) = S (length (own n t (mkServer (hub_unsubscribe t id (sv_hub s)) (sv_owner s) conns))).
Proof.
  intros HI Hin. rewrite own_unsubscribe, decide_True by done.
  assert (Hnd : NoDup (own n t s)) by (apply NoDup_filter_list, HI).
  revert Hnd Hin. generalize (own n t s). intros l. induction l as [|x l IH]; intros Hnd Hin; [set_solver|].
  apply NoDup_cons in Hnd as [Hx Hnd]. cbn [List.filter length]. destruct (Z.eqb_spec x id) as [->|Hne]; cbn [negb].
  - rewrite filter_all; [done|]. intros y Hy. apply negb_true_iff, Z.eqb_neq. congruence.
  - cbn [length]. rewrite <- IH; [done|done|]. set_solver.
Qed.

Lemma hub_subscribers_publish t p t' h : NoDup (subscribers t h) ->
  subscribers t' (publish (t, p) h).2 =
    if decide (t' = t) then List.filter (has_room (hb_boxes h)) (subscribers t h) else subscribers t' h.
Proof.
  intros Hnd. unfold publish. cbn [fst]. unfold subscribers in *. destruct (jm_get t (hb_subs h)) as [ids|] eqn:E.
  - pose proof (fan_out_spec (t, p) ids (hb_boxes h) Hnd) as Hf. destruct (fan_out _ _ _) as [kept boxes]. destruct Hf as [-> _].
    cbn [snd hb_subs]. rewrite jm_get_set. by case_decide.
  - cbn [snd]. case_decide; [subst; by rewrite E|done].
Qed.

Lemma hub_step_ok verify s e : HubOk s -> HubOk (hub_step verify s e).
Proof.
  intros HI. pose proof HI as [Hlt Ho Hnd Hm Hcn].
  assert (Hupd : forall n f, (forall c, cn_subs (f c) = cn_subs c) -> HubOk (upd_conn n f s)).
  { intros n f Hf. split; cbn [upd_conn sv_hub sv_owner sv_conns]; auto.
    - intros k c t id. destruct (decide (n = k)) as [<-|Hne]; [|rewrite lookup_alter_ne by done; apply Hm].
      rewrite lookup_alter_eq. destruct (sv_conns s !! n) as [c0|] eqn:E; [|done]. intros [= <-]. rewrite Hf. by apply Hm.
    - intros id k Hk. rewrite lookup_alter_is_Some. by eapply Hcn. }
  assert (Hsub : forall n t, is_Some (sv_conns s !! n) -> HubOk (subscribe_topic n t s)).
  { intros n t Hn. split; cbn [subscribe_topic hub_subscribe sv_hub sv_owner sv_conns hb_next].
    - intros t' id. change (mkHub _ _ _) with ((hub_subscribe t (sv_hub s)).2). rewrite subscribers_subscribe.
      case_decide; [|intros Hi; apply Hlt in Hi; lia]. rewrite elem_of_app, list_elem_of_singleton.
      intros [Hi| ->]; [apply Hlt in Hi|]; lia.
    - intros id k. rewrite lookup_insert_Some. intros [[<- _]|[_ Hi]]; [lia|]. apply Ho in Hi. lia.
    - intros t'. change (mkHub _ _ _) with ((hub_subscribe t (sv_hub s)).2). rewrite subscribers_subscribe.
      case_decide; [|apply Hnd]. apply NoDup_app. split; [apply Hnd|]. split; [|apply NoDup_singleton].
      intros x Hx. rewrite list_elem_of_singleton. intros ->. apply Hlt in Hx. lia.
    - intros k c t' id. assert (Hold : forall id k, sv_owner s !! id = Some k -> <[hb_next (sv_hub s) := n]> (sv_owner s) !! id = Some k).
      { intros id' k' H. rewrite lookup_insert_ne; [done|]. apply Ho in H. lia. }
      destruct (decide (n = k)) as [<-|Hne]; [|rewrite lookup_alter_ne by done; intros Hc Hin; apply Hold; by eapply Hm].
      rewrite lookup_alter_eq. destruct (sv_conns s !! n) as [c0|] eqn:E; [|done]. intros [= <-]. cbn [cn_subs].
      intros [[= -> ->]|Hin]%elem_of_jm_set; [by rewrite fin_maps.lookup_insert_eq|]. apply Hold. by eapply Hm.
    - intros id k. rewrite lookup_alter_is_Some, lookup_insert_Some. intros [[_ <-]|[_ Hk]]; [done|by eapply Hcn]. }
  assert (Huns : forall h conns, hb_next h = hb_next (sv_hub s) ->
    (forall t id, id ∈ subscribers t h -> id ∈ subscribers t (sv_hub s)) -> (forall t, NoDup (subscribers t h)) ->
    (forall k c, conns !! k = Some c -> exists c0, sv_conns s !! k = Some c0 /\ forall x, x ∈ cn_subs c -> x ∈ cn_subs c0) ->
    (forall k, is_Some (sv_conns s !! k) -> is_Some (conns !! k)) ->
    HubOk (mkServer h (sv_owner s) conns)).
  { intros h conns Hn Hs Hd Hc Hall. split; cbn [sv_hub sv_owner sv_conns]; rewrite ?Hn; auto.
    - intros t id Hi. by eapply Hlt, Hs.
    - intros k c t id Hl Hin. destruct (Hc k c Hl) as (c0 & H0 & Hin0). eapply Hm; eauto.
    - intros id k Hk. by eapply Hall, Hcn. }
  assert (Hins : forall n c k, is_Some (sv_conns s !! k) -> is_Some (<[n := c]> (sv_conns s) !! k)).
  { intros n c k Hk. destruct (decide (n = k)) as [->|]; [rewrite fin_maps.lookup_insert_eq; eauto|by rewrite lookup_insert_ne]. }
  destruct e as [n|n m|t p|id|n]; cbn [hub_step].
  - destruct (sv_conns s !! n) as [c|] eqn:E; [done|]. split; cbn [sv_hub sv_owner sv_conns]; auto.
    + intros k c t id. rewrite lookup_insert_Some. intros [[<- <-]|[_ Hl]]; [cbn; by rewrite elem_of_nil|by apply Hm].
    + intros id k Hk. by eapply Hins, Hcn.
  - destruct (sv_conns s !! n) as [c|] eqn:E; [|done]. destruct (cn_open c); [|done].
    assert (Hn : is_Some (sv_conns s !! n)) by eauto.
    destruct m as [ch|ch|tk| |]; cbn [handle_frame].
    + destruct (Topic_parse ch) as [t|]; [|by apply Hupd]. destruct (requires_auth t); [destruct (cn_address c)|]; auto.
    + destruct (Topic_parse ch) as [t|]; [|done]. cbv zeta. unfold unsubscribe_topic.
      destruct (jm_get _ (cn_subs c)) as [id|]; [|done].
      apply Huns; [apply hub_unsubscribe_rest|intros ??; apply unsubscribe_sub| | |apply Hins].
      * intros t'. rewrite subscribers_unsubscribe. case_decide; [|apply Hnd]. apply NoDup_filter_list, Hnd.
      * intros k c'. rewrite lookup_insert_Some. intros [[<- <-]|[_ Hl]]; [|by exists c'].
        exists c. split; [done|]. cbn [cn_subs]. intros x. apply elem_of_filter_list.
    + destruct (verify tk); by apply Hupd.
    + done.
    + by apply Hupd.
  - apply Huns; [unfold publish; cbn [fst]; destruct (jm_get _ _); [by destruct (fan_out _ _ _)|done]| | |by intros k c; exists c|done].
    + intros t' id. rewrite hub_subscribers_publish by apply Hnd. case_decide; [subst; apply elem_of_filter_list|done].
    + intros t'. rewrite hub_subscribers_publish by apply Hnd. case_decide; [|apply Hnd]. apply NoDup_filter_list, Hnd.
  - unfold forward. destruct (hb_boxes (sv_hub s) !! id) as [[|msg q]|]; try done. destruct (sv_owner s !! id) as [n|]; [|done].
    destruct (sv_conns s !! n) as [c|] eqn:E; [|done].
    destruct (cn_open c); apply Huns; try done; try (by intros k c'; exists c'); [|apply Hins].
    intros k c'. rewrite lookup_insert_Some. intros [[<- <-]|[_ Hl]]; [by exists c|by exists c'].
  - destruct (sv_conns s !! n) as [c|] eqn:E; [|done]. destruct (cn_open c); [|done]. unfold disconnect.
    destruct (disconnect_fold (cn_subs c) (sv_hub s)) as (Hn & _ & Hs). apply Huns; [done|done| | |apply Hins].
    + clear -Hnd. generalize (cn_subs c). intros l. revert Hnd. generalize (sv_hub s). induction l as [|[t id] l IH]; intros h Hnd; [done|].
      cbn [foldl]. apply IH. intros t'. rewrite subscribers_unsubscribe. case_decide; [|apply Hnd]. apply NoDup_filter_list, Hnd.
    + intros k c'. rewrite lookup_insert_Some. intros [[<- <-]|[_ Hl]]; [by exists c|by exists c'].
Qed.

Lemma hub_run_ok verify es : forall s, HubOk s -> HubOk (hub_run verify s es).
Proof. induction es as [|e es IH]; intros s Hs; [done|]. cbn [hub_run foldl]. by apply IH, hub_step_ok. Qed.

Lemma server_new_ok : HubOk server_new.
Proof.
  split; [intros t id Hid|intros id k Hk|intros t|intros k c t id Hc|intros id k Hk]; cbn in *.
  - by apply elem_of_nil in Hid.
  - by rewrite lookup_empty in Hk.
  - constructor.
  - by rewrite lookup_empty in Hc.
  - by rewrite lookup_empty in Hk.
Qed.

(** *** How often a connection is subscribed *)

(** Subscriptions of [t] that its connection has forgotten, and whether its
    map has one: a repeated subscribe overwrites the entry of the earlier
    one, and an unsubscribe removes the entry there is. *)
Definition count_frame (t : Topic) (k : nat * bool) (m : ClientMsg) : nat * bool :=
  match m with
  | CSub ch => if bool_decide (Topic_parse ch = Some t) then ((k.1 + if k.2 then 1 else 0)%nat, true) else k
  | CUnsub ch => if bool_decide (Topic_parse ch = Some t) then (k.1, false) else k
  | CAuth _ | CPong | CBad => k
  end.
Definition ledger (t : Topic) (ms : list ClientMsg) : nat * bool := foldl (count_frame t) (0%nat, false) ms.
Definition copies (k : nat * bool) : nat := (k.1 + if k.2 then 1 else 0)%nat.

(** What of the hub is connection [n]'s, after its frames [ms]. *)
Definition Counted (n : nat) (ms : list ClientMsg) (s : Server) : Prop :=
  exists c, sv_conns s !! n = Some c /\ cn_open c = true /\
    forall t, requires_auth t = false ->
      length (own n t s) = copies (ledger t ms) /\
      match jm_get t (cn_subs c) with
      | Some id => (ledger t ms).2 = true /\ id ∈ own n t s
      | None => (ledger t ms).2 = false
      end.

(** The mailboxes of connection [n] that a publication goes to take it. *)
Definition roomy (n : nat) (s : Server) (e : HubEvent) : bool :=
  match e with HPublish t _ => forallb (has_room (hb_boxes (sv_hub s))) (own n t s) | _ => true end.
Fixpoint never_full (verify : string -> option string) (n : nat) (s : Server) (es : list HubEvent) : bool :=
  match es with
  | [] => true
  | e :: es' => roomy n s e && never_full verify n (hub_step verify s e) es'
  end.

Lemma Counted_with n ms s s' c :
  Counted n ms s -> sv_conns s !! n = Some c ->
  (exists c', sv_conns s' !! n = Some c' /\ cn_open c' = cn_open c /\ cn_subs c' = cn_subs c) ->
  (forall t, requires_auth t = false -> own n t s' = own n t s) -> Counted n ms s'.
Proof.
  intros (c0 & Hc0 & Hop & Hk) Hc (c' & Hc' & Ho' & Hs') Hown. simplify_eq. exists c'. split; [done|]. split; [congruence|].
  intros t Ht. rewrite Hs', (Hown t Ht). by apply Hk.
Qed.

Lemma own_disconnect n k (l : list (Topic * Z)) t : forall s conns, k <> n ->
  (forall x, x ∈ l -> sv_owner s !! x.2 = Some k) ->
  own n t (mkServer (foldl (fun h ti => hub_unsubscribe ti.1 ti.2 h) (sv_hub s) l) (sv_owner s) conns) = own n t s.
Proof.
  induction l as [|[t' id] l IH]; intros s conns Hk Hl; [done|]. cbn [foldl fst snd].
  pose proof (IH (mkServer (hub_unsubscribe t' id (sv_hub s)) (sv_owner s) (sv_conns s)) conns Hk) as H. cbn [sv_hub sv_owner] in H.
  rewrite H by (intros x Hx; apply Hl; by right). apply (own_unsubscribe_other n k); [|done]. apply (Hl (t', id)). by left.
Qed.

(** The events of others, publications and forwarding leave them alone. *)
Lemma Counted_other n ms s e verify :
  HubOk s -> Counted n ms s -> roomy n s e = true ->
  match e with HFrame k _ | HDisconnect k => k <> n | _ => True end -> Counted n ms (hub_step verify s e).
Proof.
  intros HI HC Hroom He. pose proof HC as (c & Hc & Hop & _).
  assert (Hsame : forall s', sv_conns s' !! n = Some c -> (forall t, requires_auth t = false -> own n t s' = own n t s) -> Counted n ms s').
  { intros s' Hc' Ho. eapply Counted_with; [exact HC|exact Hc| |exact Ho]. by exists c. }
  destruct e as [k|k m|t p|id|k]; cbn [hub_step].
  - destruct (sv_conns s !! k) as [c'|] eqn:E; [done|]. apply Hsame; [|done]. cbn. rewrite lookup_insert_ne; [done|]. congruence.
  - destruct (sv_conns s !! k) as [ck|] eqn:E; [|done]. destruct (cn_open ck); [|done].
    assert (Hupd : forall f, Counted n ms (upd_conn k f s)) by (intros f; apply Hsame; [cbn; by rewrite lookup_alter_ne|done]).
    assert (Hsub : forall t, Counted n ms (subscribe_topic k t s)).
    { intros t. apply Hsame; [cbn; by rewrite lookup_alter_ne|]. intros t' _. rewrite own_subscribe by done.
      case_decide; [|done]. subst. rewrite decide_False by done. by rewrite app_nil_r. }
    destruct m as [ch|ch|tk| |]; cbn [handle_frame]; auto.
    + destruct (Topic_parse ch) as [t|]; [|auto]. destruct (requires_auth t); [destruct (cn_address ck)|]; auto.
    + destruct (Topic_parse ch) as [t|]; [|done]. cbv zeta. unfold unsubscribe_topic.
      destruct (jm_get _ (cn_subs ck)) as [id|] eqn:Eg; [|done]. apply Hsame; [cbn; by rewrite lookup_insert_ne|].
      intros t' _. apply (own_unsubscribe_other n k); [|done]. eapply ho_map; [exact HI|exact E|]. by apply jm_get_in.
    + destruct (verify tk); auto.
  - apply Hsame; [done|]. intros t' _. unfold own. cbn [sv_hub]. rewrite hub_subscribers_publish by apply HI.
    case_decide as Et; [subst|done]. rewrite filter_swap. apply filter_all. intros x Hx. cbn [roomy] in Hroom.
    rewrite forallb_forall in Hroom. by apply Hroom, list_elem_of_In.
  - unfold forward. destruct (hb_boxes (sv_hub s) !! id) as [[|msg q]|]; try done.
    destruct (sv_owner s !! id) as [k|]; [|done]. destruct (sv_conns s !! k) as [ck|] eqn:E; [|done].
    destruct (cn_open ck) eqn:Eo; [|by apply Hsame].
    eapply Counted_with; [exact HC|exact Hc| |done]. cbn [sv_conns].
    destruct (decide (k = n)) as [->|Hne]; [|exists c; by rewrite lookup_insert_ne].
    assert (ck = c) as -> by congruence. rewrite fin_maps.lookup_insert_eq. by exists (send_out (OutMsg msg) c).
  - destruct (sv_conns s !! k) as [ck|] eqn:E; [|done]. destruct (cn_open ck); [|done]. unfold disconnect.
    apply Hsame; [cbn; by rewrite lookup_insert_ne|]. intros t _. apply (own_disconnect n k); [done|].
    intros [t' id] Hx. by eapply ho_map.
Qed.

Lemma ledger_snoc t ms m : ledger t (ms ++ [m]) = count_frame t (ledger t ms) m.
Proof. unfold ledger. by rewrite foldl_app. Qed.

(** Its own frames change them as the ledger says. *)
Lemma Counted_frame n ms s m verify :
  HubOk s -> Counted n ms s -> Counted n (ms ++ [m]) (hub_step verify s (HFrame n m)).
Proof.
  intros HI (c & Hc & Hop & Hk). cbn [hub_step]. rewrite Hc, Hop.
  assert (Hquiet : forall s' c', sv_conns s' !! n = Some c' -> cn_open c' = true -> cn_subs c' = cn_subs c ->
    (forall t, own n t s' = own n t s) -> (forall t, requires_auth t = false -> count_frame t (ledger t ms) m = ledger t ms) ->
    Counted n (ms ++ [m]) s').
  { intros s' c' Hc' Ho' Hs' Hown Hl. exists c'. split; [done|]. split; [done|]. intros t Ht.
    rewrite ledger_snoc, Hs', (Hown t), (Hl t Ht). by apply Hk. }
  assert (Hupd : forall f, cn_open (f c) = true -> cn_subs (f c) = cn_subs c ->
    (forall t, requires_auth t = false -> count_frame t (ledger t ms) m = ledger t ms) -> Counted n (ms ++ [m]) (upd_conn n f s)).
  { intros f Ho Hs Hl. apply (Hquiet _ (f c)); try done. cbn. by rewrite lookup_alter_eq, Hc. }
  destruct m as [ch|ch|tk| |]; cbn [handle_frame].
  - destruct (Topic_parse ch) as [t0|] eqn:Ep.
    2:{ apply Hupd; try done. intros t _. cbn [count_frame]. by rewrite Ep. }
    assert (Hsub : forall t1, (forall t, requires_auth t = false -> t = t1 <-> Topic_parse ch = Some t) ->
      Counted n (ms ++ [CSub ch]) (subscribe_topic n t1 s)).
    { intros t1 H1. eexists. cbn [subscribe_topic hub_subscribe sv_conns]. rewrite lookup_alter_eq, Hc.
      split; [reflexivity|]. cbn [cn_open cn_subs]. split; [done|]. intros t Ht. destruct (Hk t Ht) as [Hlen Hmap].
      change (mkServer _ _ _) with (subscribe_topic n t1 s). rewrite ledger_snoc, jm_get_set. cbn [count_frame].
      rewrite own_subscribe by done. rewrite (decide_True (P := n = n)) by done.
      destruct (decide (t = t1)) as [->|Hne].
      - rewrite bool_decide_true by (by apply H1). rewrite length_app, Hlen. unfold copies. cbn. split; [lia|].
        split; [done|]. set_solver.
      - rewrite bool_decide_false by (by rewrite <- H1). done. }
    destruct (requires_auth t0) eqn:Er.
    + destruct (cn_address c) as [ad|].
      * apply Hsub. intros t Ht. rewrite Ep. split; [intros ->|intros [= ->]]; [by rewrite with_user_auth, Er in Ht|congruence].
      * apply Hupd; try done. intros t Ht. cbn [count_frame]. rewrite Ep, bool_decide_false; [done|]. congruence.
    + apply Hsub. intros t Ht. rewrite Ep. naive_solver.
  - destruct (Topic_parse ch) as [t0|] eqn:Ep.
    2:{ apply (Hquiet s c); try done. intros t _. cbn [count_frame]. by rewrite Ep. }
    cbv zeta. set (t1 := if requires_auth t0 then _ else t0).
    assert (H1 : forall t, requires_auth t = false -> t = t1 <-> Topic_parse ch = Some t).
    { intros t Ht. rewrite Ep. unfold t1. destruct (requires_auth t0) eqn:Er; [|naive_solver].
      split; [intros ->|intros [= ->]]; [by rewrite with_user_auth, Er in Ht|congruence]. }
    unfold unsubscribe_topic. destruct (jm_get t1 (cn_subs c)) as [id|] eqn:Eg.
    + eexists. cbn [sv_conns]. rewrite fin_maps.lookup_insert_eq. split; [reflexivity|]. cbn [cn_open cn_subs].
      split; [done|]. intros t Ht. destruct (Hk t Ht) as [Hlen Hmap]. rewrite ledger_snoc, jm_get_delete. cbn [count_frame].
      destruct (decide (t = t1)) as [->|Hne].
      * rewrite bool_decide_true by (by apply H1). rewrite Eg in Hmap. destruct Hmap as [Hcur Hin].
        split; [|done]. pose proof (own_unsubscribe_length n t1 id s
          (<[n := mkConn (cn_address c) (jm_delete t1 (cn_subs c)) (cn_out c) (cn_open c)]> (sv_conns s)) HI Hin) as Hl.
        rewrite Hlen in Hl. unfold copies in *. rewrite Hcur in Hl. cbn [fst snd] in *. lia.
      * rewrite bool_decide_false by (by rewrite <- H1). rewrite own_unsubscribe, decide_False by done. done.
    + apply (Hquiet s c); try done. intros t Ht. cbn [count_frame]. destruct (Hk t Ht) as [_ Hmap].
      case_bool_decide as Hp; [|done]. apply (H1 t Ht) in Hp as ->. rewrite Eg in Hmap.
      destruct (ledger t1 ms) as [lo cur]. cbn in *. by subst.
  - destruct (verify tk); apply Hupd; done.
  - by apply (Hquiet s c).
  - by apply Hupd.
Qed.

Lemma frames_on_cons n e es :
  frames_on n (e :: es) =
    match e with HFrame k m => if decide (k = n) then [m] else [] | _ => [] end ++ frames_on n es.
Proof. destruct e as [k|k m|t p|id|k]; try done. unfold frames_on. cbn. by case_decide. Qed.

Lemma Counted_run n verify es : forall ms s,
  HubOk s -> Counted n ms s -> never_full verify n s es = true -> forallb (keeps_open n) es = true ->
  Counted n (ms ++ frames_on n es) (hub_run verify s es).
Proof.
  induction es as [|e es IH]; intros ms s HI HC Hf Hk; [by rewrite app_nil_r|].
  cbn [forallb never_full] in *. apply andb_true_iff in Hk as [Hke Hk], Hf as [Hfe Hf].
  rewrite frames_on_cons. cbn [hub_run foldl]. pose proof (hub_step_ok verify s e HI) as HI'.
  assert (Hother : match e with HFrame k _ | HDisconnect k => k <> n | _ => True end ->
    Counted n (ms ++ frames_on n es) (foldl (hub_step verify) (hub_step verify s e) es)).
  { intros He. apply IH; [done| |done|done]. by apply Counted_other. }
  destruct e as [k|k m|t p|id|k]; try (by apply Hother).
  - destruct (decide (k = n)) as [->|Hne]; [|by apply Hother]. rewrite app_assoc.
    apply IH; [done| |done|done]. by apply Counted_frame.
  - apply Hother. cbn in Hke. by apply negb_true_iff, Nat.eqb_neq in Hke.
Qed.

Lemma Counted_start n verify es0 : let s0 := hub_run verify server_new es0 in
  sv_conns s0 !! n = None -> Counted n [] (hub_step verify s0 (HConnect n)) /\ HubOk (hub_step verify s0 (HConnect n)).
Proof.
  intros s0 Hn. assert (HI : HubOk s0) by apply hub_run_ok, server_new_ok. split; [|by apply hub_step_ok].
  cbn [hub_step]. rewrite Hn.
  eexists. cbn [sv_conns]. rewrite fin_maps.lookup_insert_eq. split; [reflexivity|]. split; [done|]. intros t _. cbn [cn_subs jm_get].
  split; [|done]. change (own n t _) with (own n t s0). destruct (own n t s0) as [|id l] eqn:E; [done|]. exfalso.
  assert (Hin : id ∈ own n t s0) by (rewrite E; by left). apply elem_of_own in Hin as [_ Hin].
  apply (ho_conn _ HI) in Hin. rewrite Hn in Hin. by destruct Hin.
Qed.

(** *** What a publication delivers *)

Lemma forward_delivers verify s n c id m q :
  sv_conns s !! n = Some c -> cn_open c = true -> sv_owner s !! id = Some n -> hb_boxes (sv_hub s) !! id = Some (m :: q) ->
  let s' := hub_step verify s (HForward id) in
  sv_owner s' = sv_owner s /\ sv_conns s' !! n = Some (send_out (OutMsg m) c) /\ hb_boxes (sv_hub s') !! id = Some q
  /\ forall j, j <> id -> hb_boxes (sv_hub s') !! j = hb_boxes (sv_hub s) !! j.
Proof.
  intros Hc Ho Hw Hb. cbn [hub_step]. unfold forward. rewrite Hb, Hw, Hc, Ho. cbn [sv_owner sv_conns sv_hub hb_boxes].
  rewrite !fin_maps.lookup_insert_eq. split_and!; [done|done|done|]. intros j Hj. by rewrite lookup_insert_ne.
Qed.

(** A mailbox is forwarded until it is empty. *)
Lemma drain_one verify n id q : forall s c,
  sv_conns s !! n = Some c -> cn_open c = true -> sv_owner s !! id = Some n -> hb_boxes (sv_hub s) !! id = Some q ->
  let s' := hub_run verify s (replicate (length q) (HForward id)) in
  sv_owner s' = sv_owner s
  /\ sv_conns s' !! n = Some (mkConn (cn_address c) (cn_subs c) (cn_out c ++ map OutMsg q) true)
  /\ forall j, j <> id -> hb_boxes (sv_hub s') !! j = hb_boxes (sv_hub s) !! j.
Proof.
  induction q as [|m q IH]; intros s c Hc Ho Hw Hb.
  - cbn. split_and!; [done| |done]. rewrite app_nil_r, <- Ho. by destruct c.
  - cbn [length replicate hub_run foldl]. destruct (forward_delivers verify s n c id m q Hc Ho Hw Hb) as (H1 & H2 & H3 & H4).
    destruct (IH (hub_step verify s (HForward id)) (send_out (OutMsg m) c)) as (G1 & G2 & G3); [done|done|by rewrite H1|done|].
    unfold hub_run in *. split_and!; [congruence| |intros j Hj; by rewrite G3, H4].
    rewrite G2. cbn. by rewrite <- app_assoc.
Qed.

(** The forwarding that empties the mailboxes [ids], one more message in each than in [s]. *)
Definition drain (s : Server) (ids : list Z) : list HubEvent :=
  concat (map (fun id => replicate (S (length (box id (sv_hub s)))) (HForward id)) ids).

Lemma drain_all verify n (qs : Z -> list Message) ids : forall s c,
  NoDup ids -> sv_conns s !! n = Some c -> cn_open c = true ->
  (forall id, id ∈ ids -> sv_owner s !! id = Some n /\ hb_boxes (sv_hub s) !! id = Some (qs id)) ->
  sv_conns (hub_run verify s (concat (map (fun id => replicate (length (qs id)) (HForward id)) ids))) !! n
    = Some (mkConn (cn_address c) (cn_subs c) (cn_out c ++ concat (map (fun id => map OutMsg (qs id)) ids)) true).
Proof.
  induction ids as [|id ids IH]; intros s c Hnd Hc Ho Hids.
  - cbn. rewrite app_nil_r, Hc, <- Ho. by destruct c.
  - apply NoDup_cons in Hnd as [Hni Hnd]. cbn [map concat]. unfold hub_run. rewrite foldl_app.
    destruct (Hids id ltac:(by left)) as [Hw Hb]. destruct (drain_one verify n id (qs id) s c Hc Ho Hw Hb) as (H1 & H2 & H3).
    unfold hub_run in H1, H2, H3. specialize (IH _ _ Hnd H2 eq_refl). unfold hub_run in IH. rewrite IH; [cbn; by rewrite <- app_assoc|].
    intros j Hj. rewrite H1, H3 by congruence. apply Hids. by right.
Qed.

(** One publication of [t], then the forwarding of the mailboxes of connection
    [n] that it went to: the connection is sent what they held and, once for
    each of them, the publication. *)
Lemma publication_delivered verify n t p s c :
  HubOk s -> sv_conns s !! n = Some c -> cn_open c = true -> roomy n s (HPublish t p) = true ->
  let ids := own n t s in
  sv_conns (hub_run verify s (HPublish t p :: drain s ids)) !! n
    = Some (mkConn (cn_address c) (cn_subs c)
             (cn_out c ++ concat (map (fun id => map OutMsg (box id (sv_hub s) ++ [(t, p)])) ids)) true).
Proof.
  intros HI Hc Ho Hroom ids. cbn [hub_run foldl hub_step].
  set (s1 := mkServer (publish (t, p) (sv_hub s)).2 (sv_owner s) (sv_conns s)).
  assert (Hd : drain s ids = concat (map (fun id => replicate (length (box id (sv_hub s) ++ [(t, p)])) (HForward id)) ids)).
  { unfold drain. f_equal. apply map_ext. intros id. rewrite length_app. cbn [length]. by rewrite Nat.add_1_r. }
  rewrite Hd. apply (drain_all verify n (fun id => box id (sv_hub s) ++ [(t, p)]) ids s1 c); [apply NoDup_filter_list, HI|done|done|].
  intros id Hid. pose proof Hid as Hid'. apply elem_of_own in Hid as [Hid Hw]. split; [done|].
  cbn [roomy] in Hroom. rewrite forallb_forall in Hroom. specialize (Hroom id (proj1 (list_elem_of_In _ _) Hid')).
  cbn [s1 sv_hub]. unfold publish. cbn [fst]. pose proof (ho_nodup _ HI t) as Hnd. unfold subscribers in Hid, Hnd.
  destruct (jm_get t (hb_subs (sv_hub s))) as [l|]; [|by apply elem_of_nil in Hid]. cbn in Hid, Hnd.
  pose proof (fan_out_spec (t, p) l (hb_boxes (sv_hub s)) Hnd) as Hf. destruct (fan_out _ _ _) as [kept boxes]. destruct Hf as [_ Hb].
  cbn [snd hb_boxes]. rewrite Hb, decide_True, Hroom by done. unfold box. unfold has_room in Hroom.
  by destruct (hb_boxes (sv_hub s) !! id).
Qed.

(** *** The two ends together *)

(** The map of a connection says what the view of its frames says. *)
Lemma ledger_view t fs : requires_auth t = false ->
  (ledger t (map frame_of fs)).2 = bool_decide (channel_of t ∈ server_view fs).
Proof.
  intros Ht. induction fs as [|f fs IH] using rev_ind; [done|]. rewrite map_app. cbn [map]. rewrite ledger_snoc.
  unfold server_view in *. rewrite apply_frames_app. destruct f as [ch|ch|tk|]; cbn [frame_of count_frame apply_frames foldl apply_frame]; try done.
  - destruct (decide (Topic_parse ch = Some t)) as [Hp|Hp].
    + rewrite (bool_decide_true (Topic_parse ch = Some t)) by done. apply (Topic_parse_iff ch t Ht) in Hp as ->. cbn [snd].
      symmetry. apply bool_decide_true. set_solver.
    + rewrite (bool_decide_false (Topic_parse ch = Some t)), IH by done. apply bool_decide_ext.
      rewrite (Topic_parse_iff ch t Ht) in Hp. set_solver.
  - destruct (decide (Topic_parse ch = Some t)) as [Hp|Hp].
    + rewrite (bool_decide_true (Topic_parse ch = Some t)) by done. apply (Topic_parse_iff ch t Ht) in Hp as ->. cbn [snd].
      symmetry. apply bool_decide_false. set_solver.
    + rewrite (bool_decide_false (Topic_parse ch = Some t)), IH by done. apply bool_decide_ext.
      rewrite (Topic_parse_iff ch t Ht) in Hp. set_solver.
Qed.

(** Subscriptions of [t] in [fs] while one was in force. *)
Definition repeats (t : Topic) (fs : list WsOutbound) : nat := (ledger t (map frame_of fs)).1.

Lemma client_counted verify n es0 es fs :
  let s0 := hub_run verify server_new es0 in
  sv_conns s0 !! n = None ->
  frames_on n es = map frame_of fs -> forallb (keeps_open n) es = true ->
  never_full verify n (hub_step verify s0 (HConnect n)) es = true ->
  let s := hub_run verify s0 (HConnect n :: es) in
  HubOk s /\ Counted n (map frame_of fs) s.
Proof.
  intros s0 Hn Hf Hk Hroom s. destruct (Counted_start n verify es0 Hn) as [HC HI].
  pose proof (Counted_run n verify es [] _ HI HC Hroom Hk) as H. rewrite Hf in H. split; [|exact H].
  change s with (hub_run verify (hub_step verify s0 (HConnect n)) es). by apply hub_run_ok.
Qed.

(** C4: The two ends of the WebSocket agree on what is delivered.  When the
    frames the web client sent on its open socket have reached a connection
    of the edge, and as long as no publication found one of the connection's
    mailboxes full, then, whatever the other connections, the publishers and
    the forwarding tasks did meanwhile, the hub's subscribers of a public
    topic that forward to the connection are: one if the client wants the
    channel, and one more for each time the client repeated a subscription of
    it.  A publication of the topic is sent on the connection once for each of
    them, after what their mailboxes held, when those are forwarded: at least
    once on a wanted channel; and not at all on one that is not wanted and
    was never subscribed twice. *)
Theorem edge_delivers_client_view rnd url_ok b token w i sk verify n es0 es :
  reachable rnd url_ok b token w ->
  c_ws (w_client w) = Some i -> w_sockets w !! i = Some sk -> sk_state sk = OPEN ->
  let s0 := hub_run verify server_new es0 in
  sv_conns s0 !! n = None ->
  frames_on n es = map frame_of (sk_sent sk) -> forallb (keeps_open n) es = true ->
  never_full verify n (hub_step verify s0 (HConnect n)) es = true ->
  let s := hub_run verify s0 (HConnect n :: es) in
  exists c, sv_conns s !! n = Some c /\ cn_open c = true /\
    forall t, requires_auth t = false ->
      let ids := own n t s in
      length ids = (repeats t (sk_sent sk) + if bool_decide (channel_of t ∈ subs_set (w_client w)) then 1 else 0)%nat /\
      forall p, roomy n s (HPublish t p) = true ->
        exists c', sv_conns (hub_run verify s (HPublish t p :: drain s ids)) !! n = Some c' /\
          cn_out c' = cn_out c ++ concat (map (fun id => map OutMsg (box id (sv_hub s) ++ [(t, p)])) ids).
Proof.
  intros Hr Hi Hs Hst s0 Hn Hf Hk Hroom s. apply reachable_inv in Hr.
  rewrite <- (inv_view w Hr i sk Hi Hs Hst).
  destruct (client_counted verify n es0 es (sk_sent sk) Hn Hf Hk Hroom) as [HI (c & Hc & Ho & HC)].
  exists c. split; [done|]. split; [done|]. intros t Ht ids. split.
  - destruct (HC t Ht) as [Hl _]. etransitivity; [exact Hl|]. unfold copies, repeats. by rewrite <- ledger_view.
  - intros p Hp. eexists. split; [by apply publication_delivered|done].
Qed.

(** The frames the client of [view_world] sent, with another connection's in between. *)
Definition view_frames : list HubEvent :=
  [HFrame 7 (CSub "trades.eth-usd"); HFrame 4 (CAuth "jwt"); HPublish (Trades "btc-usd") "{}"; HFrame 4 (CSub "trades.btc-usd");
   HFrame 4 (CSub "oracle.btc-usd"); HFrame 4 (CSub "trades.btc-usd"); HPublish (Trades "btc-usd") "{}"; HForward 1;
   HFrame 7 (CUnsub "trades.eth-usd"); HFrame 4 (CUnsub "oracle.btc-usd")].

Definition view_sent : list WsOutbound :=
  [WsAuth "jwt"; WsSubscribe "trades.btc-usd"; WsSubscribe "oracle.btc-usd"; WsSubscribe "trades.btc-usd"; WsUnsubscribe "oracle.btc-usd"].

Lemma edge_delivers_client_view_witness :
  let s := hub_run Some (hub_run Some server_new [HConnect 7]) (HConnect 4 :: view_frames) in
  exists c, sv_conns s !! 4%nat = Some c /\
    length (own 4 (Trades "btc-usd") s) = 2%nat /\ length (own 4 (Oracle "btc-usd") s) = 0%nat /\
    exists c', sv_conns (hub_run Some s (HPublish (Trades "btc-usd") "x" :: drain s (own 4 (Trades "btc-usd") s))) !! 4%nat = Some c' /\
      cn_out c' = cn_out c ++ [OutMsg (Trades "btc-usd", "x"); OutMsg (Trades "btc-usd", "{}"); OutMsg (Trades "btc-usd", "x")].
Proof.
  destruct (edge_delivers_client_view rnd0 true browser0 (Some "jwt") view_world 0 (mkSocket OPEN view_sent) Some 4 [HConnect 7] view_frames)
    as (c & Hc & _ & H); [apply view_world_reachable|reflexivity..|].
  exists c. split; [exact Hc|]. destruct (H (Trades "btc-usd") eq_refl) as [H1 H2], (H (Oracle "btc-usd") eq_refl) as [H3 _].
  split; [rewrite H1; vm_compute; reflexivity|]. split; [rewrite H3; vm_compute; reflexivity|].
  destruct (H2 "x" ltac:(vm_compute; reflexivity)) as (c' & Hc' & Ho). exists c'. split; [exact Hc'|]. rewrite Ho. reflexivity.
Defined.

(** ** Repeated subscriptions *)

Lemma foldl_count_repeats t fs lo :
  requires_auth t = false -> WsUnsubscribe (channel_of t) ∉ fs ->
  exists lo', foldl (count_frame t) (lo, true) (map frame_of fs) = (lo', true) /\ (lo <= lo')%nat.
Proof.
  intros Ht. revert lo. induction fs as [|f fs IH]; intros lo Hn; [by exists lo|]. apply not_elem_of_cons in Hn as [Hf Hn].
  cbn [map foldl]. destruct f as [ch|ch|tk|]; cbn [frame_of count_frame]; try (by apply IH).
  - case_bool_decide as Hp; [|by apply IH]. destruct (IH (lo + 1)%nat Hn) as (lo' & H1 & H2). exists lo'. split; [exact H1|lia].
  - case_bool_decide as Hp; [|by apply IH]. apply (Topic_parse_iff ch t Ht) in Hp as ->. congruence.
Qed.

Lemma foldl_count_token t c k : foldl (count_frame t) k (map frame_of (token_frames c)) = k.
Proof. unfold token_frames. destruct (c_token c) as [tk|]; [|done]. by destruct (str_truthy tk). Qed.

(** A channel that is in the set and in the queue of a client is subscribed again. *)
Lemma opening_repeats t c q :
  requires_auth t = false -> channel_of t ∈ c_subs c -> c_outboundQueue c = q ++ [WsSubscribe (channel_of t)] ->
  WsUnsubscribe (channel_of t) ∉ q ->
  (1 <= repeats t (opening_frames c))%nat /\ (ledger t (map frame_of (opening_frames c))).2 = true.
Proof.
  intros Ht Hin Hq Hn. unfold repeats, ledger, opening_frames. rewrite !map_app, !foldl_app, foldl_count_token, Hq, map_app, foldl_app.
  assert (Hs : exists lo, foldl (count_frame t) (0%nat, false) (map frame_of (map WsSubscribe (c_subs c))) = (lo, true)).
  { apply list_elem_of_split in Hin as (l1 & l2 & ->). rewrite !map_app, foldl_app. cbn [map foldl frame_of count_frame].
    rewrite bool_decide_true by (by apply Topic_parse_of).
    destruct (foldl_count_repeats t (map WsSubscribe l2)
      ((foldl (count_frame t) (0%nat, false) (map frame_of (map WsSubscribe l1))).1 +
       if (foldl (count_frame t) (0%nat, false) (map frame_of (map WsSubscribe l1))).2 then 1 else 0)%nat Ht) as (lo & H & _);
      [|by exists lo]. intros H. apply list_elem_of_fmap in H as (x & Hx & _). discriminate. }
  destruct Hs as [lo ->]. destruct (foldl_count_repeats t q lo Ht Hn) as (lo' & -> & Hle).
  cbn [map foldl frame_of count_frame]. rewrite bool_decide_true by (by apply Topic_parse_of). cbn [fst snd]. split; [lia|done].
Qed.

(** The client asks for a channel while its socket is connecting, and the socket opens. *)
Lemma subscribe_then_open rnd url_ok b token w i ch w' sk :
  reachable rnd url_ok b token w -> c_ws (w_client w) = Some i -> ch ∉ c_subs (w_client w) ->
  run rnd url_ok [inl (CSubscribe ch); inr (EvOpen i)] w = Some w' -> w_sockets w' !! i = Some sk ->
  exists c, sk_sent sk = opening_frames c /\ ch ∈ c_subs c /\ c_outboundQueue c = c_outboundQueue (w_client w) ++ [WsSubscribe ch].
Proof.
  intros Hr Hi Hch Hrun Hs. apply reachable_inv in Hr. cbn [run run_call run_event] in Hrun.
  case_bool_decide as Hst; [|done]. injection Hrun as <-.
  assert (Hst0 : sock_state i w = Some CONNECTING).
  { revert Hst. unfold subscribe, js_has. rewrite bool_decide_false by done. unfold send. cbn [w_client set_client c_ws with_subs].
    rewrite Hi. case_bool_decide as Hopen; [|done]. unfold socket_send, sock_state. rewrite lookup_upd_socket, decide_True by done.
    unfold sock_state in Hopen. cbn in *. destruct (w_sockets w !! i) as [x|]; [|done]. cbn in *. injection Hopen as Hx. by rewrite Hx. }
  set (c := with_queue (c_outboundQueue (w_client w) ++ [WsSubscribe ch]) (with_subs (js_add ch (c_subs (w_client w))) (w_client w))).
  assert (Ew : subscribe ch w = set_client c w).
  { unfold subscribe, js_has. rewrite bool_decide_false by done. unfold send. cbn [w_client set_client c_ws with_subs]. rewrite Hi.
    rewrite bool_decide_false; [done|]. change (sock_state i w <> Some OPEN). congruence. }
  rewrite Ew in Hs. rewrite onopen_eq in Hs. cbn [w_client set_client upd_socket set_sockets] in Hs.
  change (w_sockets (upd_socket i (append_sent (opening_frames c)) (upd_socket i (fun s => mkSocket OPEN (sk_sent s)) w)) !! i = Some sk) in Hs.
  rewrite lookup_upd_socket, decide_True, lookup_upd_socket, decide_True in Hs by done.
  apply sock_state_Some in Hst0 as (s0 & Hs0 & Hc0). rewrite Hs0 in Hs. cbn in Hs. injection Hs as <-.
  rewrite (inv_fresh _ Hr i s0 Hs0 Hc0). exists c. split; [done|]. split; [|done]. cbn. apply elem_of_js_add. by left.
Qed.


(** A client that has asked for a connection, and then for the trades while it opens. *)
Definition connecting_world : World :=
  Eval vm_compute in default (new_world None browser0) (run rnd0 true [inl CConnect] (new_world (Some "jwt") browser0)).
Definition doubled_sent : list WsOutbound := [WsAuth "jwt"; WsSubscribe "trades.btc-usd"; WsSubscribe "trades.btc-usd"].
Definition doubled_world : World :=
  Eval vm_compute in default (new_world None browser0) (run rnd0 true [inl (CSubscribe "trades.btc-usd"); inr (EvOpen 0)] connecting_world).


(** [edge_private_channels] on a run with a signed-in and an anonymous connection. *)
Definition private_run : list HubEvent :=
  [HConnect 0; HConnect 1; HFrame 0 (CAuth "0xAB"); HFrame 1 (CSub "user.fills"); HFrame 0 (CSub "user.fills");
   HPublish (UserFills "0xab") "fill"; HForward 0].

Lemma edge_private_channels_witness :
  exists token sub, HFrame 0 (CAuth token) ∈ private_run /\ Some token = Some sub /\ toLowerCase sub = "0xab".
Proof.
  apply (edge_private_channels Some private_run 0
    (mkConn (Some "0xAB") [(UserFills "0xab", 0)] [OutAuthOk; OutMsg (UserFills "0xab", "fill")] true) (UserFills "0xab", "fill") "0xab");
    [reflexivity|right; left|reflexivity].
Defined.

(** The anonymous connection of that run only got the refusal. *)
Example private_run_anonymous :
  cn_out <$> sv_conns (hub_run Some server_new private_run) !! 1%nat = Some [OutError "auth required"].
Proof. reflexivity. Qed.
